(* ===== verification/_CoqProject ===== *)
-Q . S2P
Prelude.v
JsValue.v
Narrow.v
Uri.v
Sha256.v
Types.v
JsonText.v
JsonParse.v
PendingApply.v
Params.v
Grid.v
Placement.v
EditSession.v
Registry.v
LayoutValidate.v
WidgetState.v
Widgets.v
Cluster.v
Api.v
YamlApply.v
Observer.v
WsBridge.v
Guards.v
Poll.v
Streams.v
LogTail.v
LiveUpdates.v
LiveHub.v
LayoutStore.v
LayoutServer.v
Editor.v
Island.v
SourceCache.v
Pressure.v
Severity.v
SyncState.v
Workloads.v
Topology.v
Expiry.v
NetworkCards.v
PlatformCards.v
SummaryCover.v
