(* ===== verification/Prelude.v ===== *)
(** * k8sCenter: a verification development of its web client

    k8sCenter is a management console for Kubernetes clusters. Its web client
    is TypeScript: modules of pure logic under frontend/lib/ and
    frontend/src/lib/, islands and components that run them under
    frontend/src/islands/ and frontend/components/, and a small server of its
    own under frontend/server/ between the browser and the Go backend. This
    library models the parts that carry the client's logic, with the pieces of
    the backend (backend/internal/preferences/, backend/internal/websocket/)
    whose promises they rely on, and proves what they promise each other.

    ** The parts and how they interact

    - The dashboard. A layout is a list of placements ([LayoutItem]) on a grid
      of columns. grid.ts moves, resizes and compacts it, placement.ts finds
      room for a new one, edit-session.ts keeps the copy being edited and the
      one to restore; DashboardV2.tsx and DashboardGrid.tsx are the editor
      around them. layout-store.ts loads and saves the layout of a scope on the
      selected cluster (cluster.ts); the server validates and stores it
      (dashboard.go, handler.go).
    - The data. Each widget declares data sources. data.ts fetches them, one
      cache entry per key (params.ts says which reads share a key), a bounded
      number of expensive requests at a time. widget-state.ts turns the states
      of a widget's sources into what its box shows, and one module per family
      of cards turns payloads into rows.
    - The transport. Every request goes through api.ts, which decides its
      cluster once and shares one token refresh. The frontend server guards
      what it proxies, serves and bridges (server/*.ts). ws.ts keeps one
      WebSocket for the live updates of the page, which hub.go and client.go
      serve.
    - The changes. yaml-apply.ts validates a manifest, pins the preview's
      cluster, and applies under an operation id that survives a reload
      (pending-apply.ts). eso-refresh-observer.ts decides what became of a
      force-sync.
    - The panels and streams. use-poll.ts polls an endpoint for a panel;
      LogLiveTail.tsx tails a log query and resumes it; stream-state.ts says
      how a resumed stream tells new lines from a replay.

    ** Files

    The language and its libraries:
    - Prelude.v: tactics, the [dash] hint database, the [Comparator] class
      (what [Array.prototype.sort] needs of a comparison), the stable
      insertion sort that models it, list lemmas.
    - JsValue.v: strings as lists of UTF-16 units, numbers as NaN, infinities
      and finite rationals with rounding to doubles, [jsval] for an [unknown]
      payload, association lists for objects and [Map]s, property reads with
      what [Object.prototype] lends them.
    - JsonText.v, JsonParse.v: [JSON.stringify] and [JSON.parse]; what is
      printed parses back.
    - Uri.v: [encodeURIComponent] and the links built from it.
    - Sha256.v: the digest of pending-apply.ts is SHA-256 of FIPS 180-4.

    The dashboard:
    - Types.v, Narrow.v: types.ts, narrow.ts, page-coverage.ts.
    - Params.v: params.ts. A cache key decodes to the source and the parameters
      it reads, so two reads share an entry exactly when the parameters the
      source declares agree.
    - Grid.v: grid.ts. No move overlaps, loses or displaces anything out of the
      columns; a move is a fixed point of its own request.
    - Placement.v: placement.ts. First fit is sound and complete.
    - EditSession.v: edit-session.ts over a heap of objects, because the promise
      is about aliasing: Cancel restores what was loaded, whatever the page does
      to the objects it holds.
    - Registry.v, Widgets.v: registry.ts, display-mode.ts, event-format.ts,
      pod-status.ts, catalog.ts and the shipped widgets, whose declarations
      agree with the server's allowlist.
    - Cluster.v: cluster.ts, the selection, its epoch, its persisted pair.
    - LayoutStore.v: layout-store.ts as a step function. A read that raced a
      save changes nothing; after a failed write none is sent blindly.
    - LayoutValidate.v, LayoutServer.v: dashboard.go and handler.go. The
      validator accepts exactly the valid layouts; store and server together
      refine a register that is replaced only by whoever saw all of it, where no
      read lands on another cluster; and what is saved reads back.
    - Editor.v, Island.v: the gestures and the state machine of DashboardV2.tsx
      and DashboardGrid.tsx. Which gestures keep a layout storable, what an open
      session owns, and that the screen shows what Save would write.
    - WidgetState.v, SourceCache.v: widget-state.ts and the cache of data.ts. No
      superseded answer reaches a widget; at most six expensive reads are out.

    The cards, each a view of payloads that may hold anything:
    - Pressure.v, Severity.v, SyncState.v, Workloads.v, Expiry.v: pressure.ts,
      severity.ts, sync-state.ts, pod-health.ts, autoscaling.ts,
      workload-health.ts, expiry.ts. What is counted, what is ranked first, and
      what makes a card fail.
    - Topology.v: topology.ts. The edges of the cluster map are exactly the
      relations the objects state; the map accounts for every object it got.
    - NetworkCards.v, PlatformCards.v: networking.ts, top-consumers.ts,
      diagnostics-summary.ts, platform.ts, k8s-links.ts. Every entry is shown,
      counted or reported unreadable; no number stands for a failed query; pins
      of another cluster are withheld and counted.
    - SummaryCover.v: coverage.ts and what WidgetHost.tsx puts in a box. A
      section the server did not observe is never drawn as a number, and a
      health score only when all it is made of was read.

    Transport, changes and streams:
    - Api.v: api.ts. A call keeps the cluster it was issued for, and settles.
    - Guards.v: path-safety.ts, ws-allowlist.ts, api-proxy.ts, rewrites.ts,
      static.ts, oidc-token-exchange.ts, dispatch.ts. Nothing the browser sends
      reaches outside what may be proxied, served or exchanged.
    - WsBridge.v: ws-proxy.ts, two bounded FIFO channels that end together.
    - LiveUpdates.v: ws.ts. An accepted connection carries exactly the page's
      subscriptions; the client stays on its way back, within fifteen timers in
      a row; what a disconnect ends.
    - LiveHub.v: hub.go, client.go, events.go, for one client. What becomes of
      an event for a subscriber, and the orders in which one is not served.
    - PendingApply.v, YamlApply.v: pending-apply.ts, yaml-apply.ts,
      YamlApplyPage.tsx. An apply is of a preview that succeeded; an operation
      id never names two requests.
    - Observer.v: eso-refresh-observer.ts and its poller. A verdict has evidence.
    - Poll.v: use-poll.ts, networking-state.ts. One timer, until the answers say
      to stop.
    - Streams.v: stream-state.ts. Digit strings and RFC 3339 times compare as
      the times they write.
    - LogTail.v: LogLiveTail.tsx. Retries are bounded, a resume shows no line
      twice and drops no new one, and a tail that is gone is silent.

    Definitions keep the names of the source; a name that clashes carries a
    prefix ([def_id], [load_ok]). Each file's definitions come before its
    theorems. What a comment of the source promises and the code does not keep
    is a theorem as well, next to what it does keep ([same_topic_starves],
    [upload_races_preview], [replay_refills_the_budget] and others).

    ** Asynchronous code

    An [async] function is split at its [await]s. The part before is one event
    and the settling of what it awaits another; what the call captured stays
    with the pending request. [run] folds any list of events over the state, so
    a theorem about [run] covers every interleaving of the events it has. What
    is taken as one step is: a handler up to its next [await]; in Island.v a
    handler with the render and the effects it causes; in LayoutServer.v a save
    at the moment of the server's write. The refinement of LayoutServer.v
    supposes that no read lands while another cluster is selected, and
    [switch_breaks_register] shows that it has to. LiveHub.v interleaves the
    reader, the hub and the writer freely; who hears of an event is stated for
    runs in which requests of both kinds never wait together, and what the
    channels can do otherwise is shown next to it. Observer.v keeps the
    monotonic clock of timers and the wall clock apart. A theorem about what
    happened is stated over a history of the events, not over the flags the code
    keeps: as a ghost of the state ([previews], [shown]) or as a fold beside it
    ([heard] of Poll.v, [past] of LiveUpdates.v).

    ** Loops and fuel

    - [Grid.push], the [while] of one push-down: one turn per placed item and
      one more is enough ([push_total]). [Grid.settle_passes] is the source's
      own guard, as many passes as items.
    - [Params.decode_pairs]: one turn per code unit left ([decode_pairs_total]).
    - [Placement.draw_suffix]: as many draws as the caller allows. It finishes
      once eight of them have at least one digit after their "0."
      ([draw_suffix_total]); the completeness theorem states this bound.
    - The scans of placement.ts and the walk of [stepItem] are bounded by the
      row cap, as in the source.
    - The JSON parser: twice the length of the text and two more suffices
      ([parse_fuel]).
    - The decoding passes of path-safety.ts: the eight of the source, after
      which a path that still decodes is refused.

    ** Parameters

    Code outside these modules is an argument of the definitions that use it:
    [localeCompare] (a consistent comparison, [Comparator]), [toLowerCase], [toUpperCase],
    [Date.parse], the storage accessors, the sequence of random draws and of
    fresh identifiers, the printing of the numbers no theorem fixes, the file
    system behind static.ts (which paths exist, which are files, where links
    lead), the access check and the choice of the hub, which close codes a
    socket can send. The theorems that need something of one state it as a
    hypothesis or a class, and their witnesses instantiate it.

    ** What is not modelled

    - The fetchers of data.ts, each a request path and a cast of the body.
    - The printing of a consumer's value with its unit (top-consumers.ts), and
      the measuring of a widget's box.
    - The other islands and pages (tables, detail pages, wizards), which draw
      what the modules answer, and the wording of the interface.
    - The rest of the backend and the mobile client. *)

From stdpp Require Import base list strings gmap sorting.
From Stdlib Require Import ZArith Lia Permutation Sorted.

(** ** Automation *)

#[export] Set Warnings "-clear-no-such-hyp,-register-all".

Create HintDb dash.

(** Case analysis on every [if]/[match] scrutinee of the goal, closing the
    branches that are contradictory or linear arithmetic. *)
Ltac split_matches :=
  repeat (case_match; simplify_eq/=; try done; try lia).

(** Turns the boolean tests of the code into the propositions they decide. *)
Ltac reflect_bools :=
  repeat match goal with
  | H : _ && _ = true |- _ => apply andb_true_iff in H as [? ?]
  | H : _ || _ = false |- _ => apply orb_false_iff in H as [? ?]
  | H : negb _ = true |- _ => apply negb_true_iff in H
  | H : negb _ = false |- _ => apply negb_false_iff in H
  | H : (_ <=? _)%Z = true |- _ => apply Z.leb_le in H
  | H : (_ <=? _)%Z = false |- _ => apply Z.leb_gt in H
  | H : (_ <? _)%Z = true |- _ => apply Z.ltb_lt in H
  | H : (_ <? _)%Z = false |- _ => apply Z.ltb_ge in H
  | H : (_ =? _)%Z = true |- _ => apply Z.eqb_eq in H
  | H : (_ =? _)%Z = false |- _ => apply Z.eqb_neq in H
  | H : bool_decide _ = true |- _ => apply bool_decide_eq_true in H
  | H : bool_decide _ = false |- _ => apply bool_decide_eq_false in H
  end.

(** ** Lists *)

Lemma Forall2_elem_l {A B} (R : A → B → Prop) l k a :
  Forall2 R l k → a ∈ l → ∃ b, b ∈ k ∧ R a b.
Proof.
  induction 1 as [|x y l k HR _ IH]; [by intros ?%elem_of_nil|].
  intros [->|Ha]%elem_of_cons; [exists y; split; [by left|done]|].
  destruct (IH Ha) as (b & ? & ?). exists b. split; [by right|done].
Qed.
Lemma Forall2_elem_r {A B} (R : A → B → Prop) l k b :
  Forall2 R l k → b ∈ k → ∃ a, a ∈ l ∧ R a b.
Proof.
  intros H%Forall2_flip. apply (Forall2_elem_l _ _ _ _ H).
Qed.

Lemma filter_fmap {A B} (f : A → B) (P : B → Prop) `{!∀ b, Decision (P b)} (l : list A) :
  filter P (f <$> l) = f <$> filter (λ a, P (f a)) l.
Proof.
  induction l as [|a l IH]; [done|]. rewrite fmap_cons, !filter_cons, IH.
  by destruct (decide (P (f a))).
Qed.
Lemma filter_all {A} (P : A → Prop) `{!∀ a, Decision (P a)} (l : list A) :
  Forall P l → filter P l = l.
Proof. induction 1; [done|]. rewrite filter_cons_True by done. by f_equal. Qed.
Lemma Forall_filter_1 {A} (P Q : A → Prop) `{!∀ a, Decision (P a)} (l : list A) :
  Forall Q l → Forall Q (filter P l).
Proof.
  rewrite !Forall_forall. intros Hl a [_ Ha]%list_elem_of_filter. by apply Hl.
Qed.

Lemma ForallOrdPairs_perm {A} (R : A → A → Prop) l l' :
  Symmetric R → l ≡ₚ l' → ForallOrdPairs R l → ForallOrdPairs R l'.
Proof.
  intros HR. induction 1 as [|a l l' Hp IH|a b l|l1 l2 l3 _ IH1 _ IH2]; intros H; [done|..|by auto].
  - inversion H as [|? ? Hall Hrec]; subst. constructor; [|by apply IH]. by rewrite <- Hp.
  - inversion H as [|? ? Hb H1]; subst. inversion H1 as [|? ? Ha H2]; subst.
    inversion Hb as [|? ? Hba Hb']; subst. by repeat constructor.
Qed.

Lemma ForallOrdPairs_filter {A} (R : A → A → Prop) (P : A → Prop) `{!∀ a, Decision (P a)} l :
  ForallOrdPairs R l → ForallOrdPairs R (filter P l).
Proof.
  induction 1 as [|a l Ha Hl IH]; [constructor|]. rewrite filter_cons. case_decide; [|done].
  constructor; [by apply Forall_filter_1|done].
Qed.

(** ** Comparators

    A JavaScript comparator returns a number of which only the sign is read.
    It is modelled by [comparison]; [a || b] over two such numbers ("the first
    one unless it is zero") is [cmp_or]. *)

Definition cmp_or (c d : comparison) : comparison :=
  match c with Eq => d | _ => c end.
Infix "<||>" := cmp_or (at level 50, left associativity) : stdpp_scope.

(** What ECMA-262 calls a consistent comparator. *)
Class Comparator {A} (cmp : A → A → comparison) : Prop := {
  cmp_sym x y : cmp y x = CompOpp (cmp x y);
  cmp_trans x y z : cmp x y ≠ Gt → cmp y z ≠ Gt → cmp x z ≠ Gt
}.

Section Comparators.
Context {A : Type} (cmp : A → A → comparison) `{!Comparator cmp}.

Lemma cmp_refl x : cmp x x = Eq.
Proof. pose proof (cmp_sym x x). by destruct (cmp x x). Qed.

Lemma cmp_eq_sym x y : cmp x y = Eq → cmp y x = Eq.
Proof. intros H. by rewrite cmp_sym, H. Qed.

Lemma cmp_gt_lt x y : cmp x y = Gt → cmp y x = Lt.
Proof. intros H. by rewrite cmp_sym, H. Qed.

Lemma cmp_eq_l x y z : cmp x y = Eq → cmp x z = cmp y z.
Proof.
  intros E. pose proof (cmp_eq_sym _ _ E) as E'.
  assert (L : ∀ a b, cmp a b = Eq → cmp a z = Gt → cmp b z = Gt).
  { intros a b Hab Ha. destruct (cmp b z) eqn:Hb; [..|done]; exfalso;
      eapply (cmp_trans (cmp:=cmp) a b z); congruence. }
  assert (R : ∀ a b, cmp a b = Eq → cmp a z = Lt → cmp b z = Lt).
  { intros a b Hab Ha. destruct (cmp b z) eqn:Hb; [|done|]; exfalso;
      pose proof (cmp_sym (cmp:=cmp) b z) as S1;
      pose proof (cmp_sym (cmp:=cmp) a z) as S2; rewrite Hb, ?Ha in *;
      pose proof (cmp_eq_sym _ _ Hab) as Hba;
      eapply (cmp_trans (cmp:=cmp) z b a); rewrite ?S1, ?S2, ?Ha; simpl; congruence. }
  destruct (cmp x z) eqn:E1, (cmp y z) eqn:E2; try done; exfalso;
    first [ pose proof (L _ _ E E1) | pose proof (R _ _ E E1)
          | pose proof (L _ _ E' E2) | pose proof (R _ _ E' E2) ]; congruence.
Qed.

Lemma cmp_eq_r x y z : cmp x y = Eq → cmp z x = cmp z y.
Proof. intros E. rewrite (cmp_sym x z), (cmp_sym y z). by rewrite (cmp_eq_l x y z E). Qed.
End Comparators.

Lemma cmp_or_comparator {A} (c d : A → A → comparison) :
  Comparator c → Comparator d → Comparator (λ x y, c x y <||> d x y).
Proof.
  intros Hc Hd. split.
  - intros x y. rewrite (cmp_sym (cmp:=c) x y), (cmp_sym (cmp:=d) x y).
    by destruct (c x y).
  - intros x y z. pose proof (cmp_trans (cmp:=c) x y z) as T.
    pose proof (cmp_trans (cmp:=d) x y z) as T'.
    destruct (c x y) eqn:E1; simpl; try done.
    + rewrite <- (cmp_eq_l c x y z E1). by destruct (c x z).
    + intros _. destruct (c y z) eqn:E2; simpl; try done.
      * rewrite <- (cmp_eq_r c y z x E2), E1. done.
      * intros _. destruct (c x z) eqn:E3; simpl; try done.
        -- rewrite (cmp_eq_l c x z y E3) in E1.
           rewrite (cmp_sym (cmp:=c) y z), E2 in E1. done.
        -- by apply T.
Qed.

(** Comparing through a key, and the descending order [b.k - a.k]. *)
Lemma cmp_on_comparator {A B} (f : A → B) (c : B → B → comparison) :
  Comparator c → Comparator (λ x y, c (f x) (f y)).
Proof. intros Hc. split; intros; [apply cmp_sym | by eapply cmp_trans]. Qed.

Lemma cmp_flip_comparator {A} (c : A → A → comparison) :
  Comparator c → Comparator (λ x y, c y x).
Proof. intros Hc. split; intros; [apply cmp_sym | by eapply cmp_trans]. Qed.

#[export] Instance Z_comparator : Comparator Z.compare.
Proof.
  split; intros; [apply Z.compare_antisym|].
  rewrite ?Z.compare_le_iff in *. lia.
Qed.

#[export] Instance nat_comparator : Comparator Nat.compare.
Proof.
  split; intros; [apply Nat.compare_antisym|].
  rewrite ?Nat.compare_le_iff in *. lia.
Qed.

#[export] Instance N_comparator : Comparator N.compare.
Proof.
  split; intros; [apply N.compare_antisym|].
  rewrite ?N.compare_le_iff in *. lia.
Qed.

(** A comparator written as a chain of [||] over keys, ascending or descending. *)
Ltac solve_comparator :=
  lazymatch goal with
  | |- Comparator (λ a b, cmp_or (@?c a b) (@?d a b)) =>
      apply (cmp_or_comparator c d); solve_comparator
  | |- Comparator (λ a b, ?c (@?f a) (@?g b)) =>
      first [ apply (cmp_on_comparator f c); apply _ ]
  | |- Comparator (λ a b, ?c (@?g b) (@?f a)) =>
      apply (cmp_flip_comparator (λ a b, c (f a) (f b)));
      apply (cmp_on_comparator f c); apply _
  | |- Comparator _ => apply _
  end.

(** ** [Array.prototype.sort]

    ECMA-262 requires the sort to be stable and, for a consistent comparator,
    to produce a list ordered by it; those two facts determine the result, so
    insertion sort computes exactly what the engine computes. *)

Fixpoint sort_insert {A} (cmp : A → A → comparison) (x : A) (l : list A) : list A :=
  match l with
  | [] => [x]
  | y :: l' =>
      match cmp x y with
      | Gt => y :: sort_insert cmp x l'
      | _ => x :: l
      end
  end.

Definition js_sort {A} (cmp : A → A → comparison) (l : list A) : list A :=
  foldr (sort_insert cmp) [] l.

(** "[x] may come before [y]". *)
Definition cmp_le {A} (cmp : A → A → comparison) (x y : A) : Prop := cmp x y ≠ Gt.

Section Sorting.
Context {A : Type} (cmp : A → A → comparison).

Lemma sort_insert_perm x l : sort_insert cmp x l ≡ₚ x :: l.
Proof.
  induction l as [|y l IH]; simpl; [done|].
  destruct (cmp x y); try done. rewrite IH. apply Permutation_swap.
Qed.

Lemma js_sort_perm l : js_sort cmp l ≡ₚ l.
Proof. induction l as [|x l IH]; simpl; [done|]. by rewrite sort_insert_perm, IH. Qed.

Lemma js_sort_length l : length (js_sort cmp l) = length l.
Proof. by rewrite js_sort_perm. Qed.

Lemma elem_of_js_sort x l : x ∈ js_sort cmp l ↔ x ∈ l.
Proof. by rewrite js_sort_perm. Qed.

(** A list that is already in order is left as it is. *)
Lemma js_sort_sorted_id l : StronglySorted (cmp_le cmp) l → js_sort cmp l = l.
Proof.
  induction 1 as [|x l Hs IH Hall]; simpl; [done|]. rewrite IH.
  destruct l as [|y l]; [done|]. simpl. inversion Hall as [|?? Hxy]; subst.
  unfold cmp_le in Hxy. by destruct (cmp x y).
Qed.

Context `{!Comparator cmp}.

Lemma sort_insert_sorted x l :
  StronglySorted (cmp_le cmp) l → StronglySorted (cmp_le cmp) (sort_insert cmp x l).
Proof.
  induction 1 as [|y l Hs IH Hall]; simpl; [by repeat constructor|].
  destruct (cmp x y) eqn:E.
  3:{ constructor; [done|]. rewrite sort_insert_perm. constructor; [|done].
      unfold cmp_le. by rewrite (cmp_gt_lt cmp _ _ E). }
  all: assert (cmp_le cmp x y) by (unfold cmp_le; congruence);
    constructor; [by constructor|]; constructor; [done|];
    apply (Forall_impl _ _ _ Hall); intros z Hz; by eapply cmp_trans.
Qed.

Lemma js_sort_sorted l : StronglySorted (cmp_le cmp) (js_sort cmp l).
Proof. induction l; simpl; [constructor | by apply sort_insert_sorted]. Qed.

Lemma js_sort_idemp l : js_sort cmp (js_sort cmp l) = js_sort cmp l.
Proof. apply js_sort_sorted_id, js_sort_sorted. Qed.

(** Stability: elements that compare equal keep their order. *)
Lemma sort_insert_filter x z l :
  filter (λ y, cmp z y = Eq) (sort_insert cmp x l) = filter (λ y, cmp z y = Eq) (x :: l).
Proof.
  induction l as [|y l IH]; simpl; [done|].
  destruct (cmp x y) eqn:E; try done.
  rewrite filter_cons, IH, !filter_cons.
  destruct (decide (cmp z y = Eq)) as [Hy|], (decide (cmp z x = Eq)) as [Hx|]; try done.
  exfalso. rewrite <- (cmp_eq_r cmp z y x (cmp_eq_sym cmp _ _ (cmp_eq_sym cmp _ _ Hy))) in E.
  by rewrite (cmp_sym z x), Hx in E.
Qed.

Lemma js_sort_stable z l :
  filter (λ y, cmp z y = Eq) (js_sort cmp l) = filter (λ y, cmp z y = Eq) l.
Proof.
  induction l as [|x l IH]; [done|]. simpl. rewrite sort_insert_filter, !filter_cons.
  by rewrite IH.
Qed.

(** Cutting a sorted list: what is kept precedes what is dropped. *)
Lemma sorted_take_drop n l x y :
  StronglySorted (cmp_le cmp) l → x ∈ take n l → y ∈ drop n l → cmp_le cmp x y.
Proof.
  intros Hs. revert n. induction Hs as [|z l Hs IH Hall]; intros [|n]; simpl.
  1-3: by intros ?%elem_of_nil.
  intros [->|Hx]%elem_of_cons Hy; [|by eapply IH].
  rewrite Forall_forall in Hall. apply Hall. rewrite <- (take_drop n l).
  apply elem_of_app. by right.
Qed.
End Sorting.

(** [l.slice(0, limit)]: a negative bound counts from the end. *)
Definition slice0 {A} (l : list A) (limit : Z) : list A :=
  take (Z.to_nat (if (limit <? 0)%Z then Z.of_nat (length l) + limit else limit)%Z) l.

Lemma js_sort_ext {A} (c d : A → A → comparison) l :
  (∀ a b, a ∈ l → b ∈ l → c a b = d a b) → js_sort c l = js_sort d l.
Proof.
  induction l as [|x l IH]; intros H; [done|]. simpl.
  rewrite IH by (intros; apply H; by right).
  assert (Hx : ∀ b, b ∈ js_sort d l → c x b = d x b).
  { intros b Hb%elem_of_js_sort. apply H; [by left|by right]. }
  clear -Hx. induction (js_sort d l) as [|y k IHk]; [done|]. simpl. rewrite Hx by left.
  rewrite IHk; [done|]. intros. apply Hx. by right.
Qed.

(** What a capped list shows of a population: as many members as fit, in
    order, and none left out that outranks one shown. *)
Definition ranked {A} (cmp : A → A → comparison) (limit : Z) (population shown : list A) : Prop :=
  ∃ rest, shown ++ rest ≡ₚ population ∧
    StronglySorted (cmp_le cmp) shown ∧
    (∀ a b, a ∈ shown → b ∈ rest → cmp_le cmp a b) ∧
    length shown = Nat.min (Z.to_nat limit) (length population).

Lemma StronglySorted_take {A} (R : A → A → Prop) n l :
  StronglySorted R l → StronglySorted R (take n l).
Proof.
  intros Hs. revert n. induction Hs as [|x l Hs IH Hall]; intros [|n]; simpl; try constructor.
  - apply IH.
  - by apply Forall_take.
Qed.

Lemma slice_ranked {A} (cmp cmp' : A → A → comparison) limit l :
  Comparator cmp → (∀ a b, a ∈ l → b ∈ l → cmp' a b = cmp a b) → (0 <= limit)%Z →
  ranked cmp limit l (slice0 (js_sort cmp' l) limit).
Proof.
  intros Hc Hext Hlim. rewrite (js_sort_ext cmp' cmp) by done. unfold slice0.
  rewrite (proj2 (Z.ltb_ge _ _)) by done.
  exists (drop (Z.to_nat limit) (js_sort cmp l)). rewrite take_drop.
  pose proof (js_sort_sorted cmp l) as Hs. split_and!.
  - apply js_sort_perm.
  - by apply StronglySorted_take.
  - intros a b Ha Hb. by eapply sorted_take_drop.
  - by rewrite length_take, js_sort_length.
Qed.

Lemma ranked_elem {A} (cmp : A → A → comparison) limit l k a : ranked cmp limit l k → a ∈ k → a ∈ l.
Proof. intros (rest & E & _) Ha. rewrite <- E. apply elem_of_app. by left. Qed.

(** Labels that cover a list partition it: their counts add up to its length. *)
Lemma sum_by_label {A L} `{EqDecision L} (f : A → L) (labels : list L) (l : list A) :
  NoDup labels → Forall (λ a, f a ∈ labels) l →
  sum_list_with (λ x, length (filter (λ a, f a = x) l)) labels = length l.
Proof.
  intros Hnd. induction l as [|a l IH]; intros Hl.
  - clear. by induction labels as [|x labels IH].
  - apply Forall_cons in Hl as [Ha Hl].
    assert (H : ∀ ls, NoDup ls →
      sum_list_with (λ x, length (filter (λ a, f a = x) (a :: l))) ls =
      ((if decide (f a ∈ ls) then 1 else 0) + sum_list_with (λ x, length (filter (λ a, f a = x) l)) ls)%nat).
    { clear. induction ls as [|x ls IH]; intros Hls; [done|]. apply NoDup_cons in Hls as [Hx Hls].
      cbn [sum_list_with]. rewrite IH, filter_cons by done.
      repeat case_decide; set_solver by (simpl; lia). }
    rewrite H, decide_True by done. cbn [length]. by rewrite IH.
Qed.
