(* ===== verification/JsValue.v ===== *)
(** * JavaScript values

    The part of the language the modelled modules rest on: UTF-16 strings,
    IEEE-754 numbers, [unknown] payloads as they come off [JSON.parse], and
    the property lookup of object literals, prototype included. *)

From stdpp Require Import base list strings gmap.
From Stdlib Require Import ZArith QArith Qround Lia DecimalN DecimalPos.
From S2P Require Import Prelude.

Open Scope Z_scope.

(** ** Strings: sequences of UTF-16 code units *)

Record jstring := JS { units : list N }.

Definition parse_js (l : list Byte.byte) : option jstring :=
  Some (JS (map Byte.to_N l)).
Fixpoint print_units (l : list N) : option (list Byte.byte) :=
  match l with
  | [] => Some []
  | n :: l' =>
      match Byte.of_N n, print_units l' with
      | Some b, Some r => Some (b :: r)
      | _, _ => None
      end
  end.
Definition print_js (s : jstring) : option (list Byte.byte) := print_units (units s).

Declare Scope js_scope.
Delimit Scope js_scope with js.
Bind Scope js_scope with jstring.
String Notation jstring parse_js print_js : js_scope.

#[export] Instance jstring_eq_dec : EqDecision jstring.
Proof. solve_decision. Defined.
#[export] Instance jstring_countable : Countable jstring.
Proof. refine (inj_countable' units JS _). by intros []. Defined.

(** [===] on strings. *)
Definition js_eqb (a b : jstring) : bool := bool_decide (a = b).
Lemma js_eqb_eq a b : js_eqb a b = true ↔ a = b.
Proof. apply bool_decide_eq_true. Qed.
Lemma js_eqb_neq a b : js_eqb a b = false ↔ a ≠ b.
Proof. rewrite <- js_eqb_eq. by destruct (js_eqb a b). Qed.
Lemma js_eqb_decide a b : js_eqb a b = if decide (a = b) then true else false.
Proof. case_decide; [by apply js_eqb_eq|by apply js_eqb_neq]. Qed.

Definition js_length (s : jstring) : N := N.of_nat (length (units s)).
Definition js_app (a b : jstring) : jstring := JS (units a ++ units b).
Infix "+++" := js_app (at level 60, right associativity) : js_scope.
Definition js_concat (l : list jstring) : jstring := JS (concat (units <$> l)).
Definition js_join (sep : jstring) (l : list jstring) : jstring :=
  match l with
  | [] => ""%js
  | x :: l' => foldl (λ acc y, acc +++ sep +++ y)%js x l'
  end.
(** [s.slice(0, n)] and [s.slice(n)] for a non-negative [n]. *)
Definition js_take (n : nat) (s : jstring) : jstring := JS (take n (units s)).
Definition js_drop (n : nat) (s : jstring) : jstring := JS (drop n (units s)).

(** [s.includes(t)] *)
Fixpoint unit_prefix (t s : list N) : bool :=
  match t, s with
  | [], _ => true
  | _ :: _, [] => false
  | a :: t', b :: s' => (a =? b)%N && unit_prefix t' s'
  end.
Fixpoint units_include (t s : list N) : bool :=
  unit_prefix t s || match s with [] => false | _ :: s' => units_include t s' end.
Definition js_includes (s t : jstring) : bool := units_include (units t) (units s).
(** [s.startsWith(p)] *)
Definition js_startsWith (s p : jstring) : bool :=
  bool_decide (take (length (units p)) (units s) = units p).

(** [indexOf]/[lastIndexOf] of a one-unit string; [None] is -1. *)
Fixpoint unit_index (c : N) (l : list N) : option nat :=
  match l with
  | [] => None
  | x :: l' => if (x =? c)%N then Some 0%nat else S <$> unit_index c l'
  end.
Definition js_indexOf (c : N) (s : jstring) : option nat := unit_index c (units s).
Definition js_lastIndexOf (c : N) (s : jstring) : option nat :=
  match unit_index c (rev (units s)) with
  | Some i => Some (length (units s) - 1 - i)%nat
  | None => None
  end.

(** The order of [Array.prototype.sort()] without a comparator: code units. *)
Fixpoint units_compare (a b : list N) : comparison :=
  match a, b with
  | [], [] => Eq
  | [], _ => Lt
  | _, [] => Gt
  | x :: a', y :: b' => N.compare x y <||> units_compare a' b'
  end.
Definition js_compare (a b : jstring) : comparison := units_compare (units a) (units b).

Lemma units_compare_sym a b : units_compare b a = CompOpp (units_compare a b).
Proof.
  revert b. induction a as [|x a IH]; intros [|y b]; simpl; try done.
  rewrite N.compare_antisym, IH. by destruct (x ?= y)%N.
Qed.
Lemma units_compare_eq a b : units_compare a b = Eq ↔ a = b.
Proof.
  revert b. induction a as [|x a IH]; intros [|y b]; simpl; try done.
  destruct (x ?= y)%N eqn:E; simpl; [|split; try done; intros [= ? ?]; subst..].
  - apply N.compare_eq_iff in E as ->. rewrite IH. split; [by intros -> | by intros [=]].
  - by rewrite N.compare_refl in E.
  - by rewrite N.compare_refl in E.
Qed.
Lemma units_compare_trans a b c :
  units_compare a b ≠ Gt → units_compare b c ≠ Gt → units_compare a c ≠ Gt.
Proof.
  revert b c. induction a as [|x a IH]; intros [|y b] [|z c]; simpl; try done.
  destruct (x ?= y)%N eqn:E1, (y ?= z)%N eqn:E2; simpl; try done;
    rewrite ?N.compare_eq_iff, ?N.compare_lt_iff in *; subst; intros.
  - rewrite N.compare_refl. simpl. by eapply IH.
  - apply N.compare_lt_iff in E2 as ->. done.
  - apply N.compare_lt_iff in E1 as ->. done.
  - assert (x < z)%N as ->%N.compare_lt_iff by lia. done.
Qed.
#[export] Instance js_compare_comparator : Comparator js_compare.
Proof.
  split; unfold js_compare; intros; [apply units_compare_sym | by eapply units_compare_trans].
Qed.
Lemma js_compare_eq a b : js_compare a b = Eq ↔ a = b.
Proof.
  unfold js_compare. rewrite units_compare_eq. destruct a, b; simpl. naive_solver.
Qed.

Lemma js_app_assoc a b c : (a +++ (b +++ c) = (a +++ b) +++ c)%js.
Proof. unfold js_app. simpl. by rewrite (assoc_L (++)). Qed.
Lemma js_app_nil_r a : (a +++ "" = a)%js.
Proof. destruct a. unfold js_app. simpl. by rewrite app_nil_r. Qed.
Lemma js_app_length a b : js_length (a +++ b)%js = (js_length a + js_length b)%N.
Proof. unfold js_length, js_app. simpl. rewrite length_app. lia. Qed.
Lemma js_take_app s t : js_take (length (units s)) (s +++ t)%js = s.
Proof. destruct s as [l]. unfold js_take, js_app. simpl. by rewrite take_app_length. Qed.
Lemma js_drop_app s t : js_drop (length (units s)) (s +++ t)%js = t.
Proof. destruct s as [l], t. unfold js_drop, js_app. simpl. by rewrite drop_app_length. Qed.

(** [String.prototype.trim]: WhiteSpace and LineTerminator of ECMA-262. *)
Definition is_space (c : N) : bool :=
  ((9 <=? c) && (c <=? 13) || (c =? 32) || (c =? 160) || (c =? 5760)
   || (8192 <=? c) && (c <=? 8202) || (c =? 8232) || (c =? 8233) || (c =? 8239)
   || (c =? 8287) || (c =? 12288) || (c =? 65279))%N.
Fixpoint drop_spaces (l : list N) : list N :=
  match l with
  | c :: l' => if is_space c then drop_spaces l' else l
  | [] => []
  end.
Definition js_trim (s : jstring) : jstring :=
  JS (rev (drop_spaces (rev (drop_spaces (units s))))).

(** ** Numbers

    A finite binary64 value is a dyadic rational, kept exactly; [-0] is not
    told apart from [0] (no modelled expression can observe the difference).
    [fl] rounds an exact result to the nearest double, ties to even. *)

Inductive number := NaN | Inf (neg : bool) | Fin (q : Q).

Definition isFinite (n : number) : bool := match n with Fin _ => true | _ => false end.

Definition round_half_even (a b : Z) : Z :=
  let q := a / b in
  match (2 * (a mod b)) ?= b with
  | Lt => q
  | Gt => q + 1
  | Eq => if Z.even q then q else q + 1
  end.

(** The exponent [e] with [2^e <= n/d < 2^(e+1)], for positive [n] and [d]. *)
Definition binary_exponent (n d : Z) : Z :=
  let e := Z.log2 n - Z.log2 d in
  if d * 2 ^ Z.max 0 e <=? n * 2 ^ Z.max 0 (- e) then e else e - 1.

Definition fl (q : Q) : number :=
  let n := Z.abs (Qnum q) in
  let d := Zpos (Qden q) in
  if n =? 0 then Fin 0 else
  let ex := Z.max (binary_exponent n d - 52) (-1074) in
  let m := round_half_even (n * 2 ^ Z.max 0 (- ex)) (d * 2 ^ Z.max 0 ex) in
  if 2 ^ 1024 <=? m * 2 ^ Z.max 0 ex then Inf (Qnum q <? 0)
  else Fin (Qred (Z.sgn (Qnum q) * m * 2 ^ Z.max 0 ex # Z.to_pos (2 ^ Z.max 0 (- ex)))).

Definition of_Z (z : Z) : number := Fin (inject_Z z).

Definition num_compare (x y : number) : option comparison :=
  match x, y with
  | NaN, _ | _, NaN => None
  | Fin a, Fin b => Some (a ?= b)%Q
  | Inf a, Inf b => Some (match a, b with true, false => Lt | false, true => Gt | _, _ => Eq end)
  | Inf a, Fin _ => Some (if a then Lt else Gt)
  | Fin _, Inf b => Some (if b then Gt else Lt)
  end.
(** [<], [<=], [===]: false as soon as one side is NaN. *)
Definition num_ltb (x y : number) : bool :=
  match num_compare x y with Some Lt => true | _ => false end.
Definition num_leb (x y : number) : bool :=
  match num_compare x y with Some Lt | Some Eq => true | _ => false end.
Definition num_eqb (x y : number) : bool :=
  match num_compare x y with Some Eq => true | _ => false end.

Definition num_neg (x : number) : number :=
  match x with NaN => NaN | Inf s => Inf (negb s) | Fin a => Fin (- a) end.
Definition num_add (x y : number) : number :=
  match x, y with
  | NaN, _ | _, NaN => NaN
  | Fin a, Fin b => fl (a + b)
  | Inf a, Inf b => if Bool.eqb a b then Inf a else NaN
  | Inf a, Fin _ => Inf a
  | Fin _, Inf b => Inf b
  end.
Definition num_sub (x y : number) : number := num_add x (num_neg y).

Definition num_mul (a b : Q) : number := fl (a * b).
(** [a / b] of finite values. *)
Definition num_div (a b : Q) : number :=
  if Qeq_bool b 0 then (if Qeq_bool a 0 then NaN else Inf (Qnum a <? 0)) else fl (a / b).
Definition num_quot (x y : number) : number :=
  match x, y with
  | NaN, _ | _, NaN | Inf _, Inf _ => NaN
  | Fin a, Fin b => num_div a b
  | Inf s, Fin b => Inf (xorb s (Qnum b <? 0))
  | Fin _, Inf _ => Fin 0
  end.
(** [a * b] *)
Definition num_times (x y : number) : number :=
  match x, y with
  | Fin a, Fin b => num_mul a b
  | NaN, _ | _, NaN => NaN
  | Inf s, Fin b | Fin b, Inf s => if Qeq_bool b 0 then NaN else Inf (xorb s (Qnum b <? 0))
  | Inf s, Inf t => Inf (xorb s t)
  end.
Definition num_floor (x : number) : number :=
  match x with Fin a => of_Z (Qfloor a) | _ => x end.
(** [Math.min]/[Math.max]: NaN as soon as one side is. *)
Definition num_min (x y : number) : number :=
  match num_compare x y with None => NaN | Some Gt => y | _ => x end.
Definition num_max (x y : number) : number :=
  match num_compare x y with None => NaN | Some Lt => y | _ => x end.

(** [Math.round] (ties towards +∞) and [Math.floor] of a finite value. *)
Definition math_round (q : Q) : Z := Qfloor (q + (1 # 2)).
Definition math_floor (q : Q) : Z := Qfloor q.

Lemma round_half_even_exact a b : 0 < b → round_half_even (a * b) b = a.
Proof.
  intros Hb. unfold round_half_even. rewrite Z.div_mul, Z.mod_mul by lia.
  destruct (2 * 0 ?= b) eqn:E; try done.
  - apply Z.compare_eq_iff in E. lia.
  - apply Z.compare_gt_iff in E. lia.
Qed.

Lemma Qred_inject_Z z : Qred (inject_Z z) = inject_Z z.
Proof.
  unfold Qred, inject_Z. pose proof (Z.ggcd_gcd z 1) as G.
  pose proof (Z.ggcd_correct_divisors z 1) as D.
  destruct (Z.ggcd z 1) as [g [a b]]. simpl in *. subst g.
  rewrite Z.gcd_1_r in D. destruct D as [-> D].
  assert (b = 1) as -> by lia. by rewrite Z.mul_1_l.
Qed.

(** Integers up to 2^53 in magnitude are represented exactly. *)
Lemma fl_int z : Z.abs z < 2 ^ 53 → fl (inject_Z z) = of_Z z.
Proof.
  intros Hz. unfold fl, of_Z. simpl Qnum. simpl Qden.
  destruct (Z.eqb_spec (Z.abs z) 0) as [H0|H0]; [by replace z with 0 by lia|].
  set (n := Z.abs z) in *.
  assert (Hb : binary_exponent n 1 = Z.log2 n).
  { unfold binary_exponent. change (Z.log2 1) with 0. rewrite Z.sub_0_r.
    pose proof (Z.log2_nonneg n). rewrite Z.max_r, (Z.max_l 0 (- _)) by lia.
    destruct (Z.leb_spec (1 * 2 ^ Z.log2 n) (n * 2 ^ 0)); [done|].
    pose proof (Z.log2_spec n). lia. }
  rewrite Hb.
  assert (Z.log2 n < 53) by (apply Z.log2_lt_pow2; lia).
  pose proof (Z.log2_nonneg n).
  set (ex := Z.max (Z.log2 n - 52) (-1074)).
  assert (Hex : -52 <= ex <= 0) by lia. clearbody ex.
  rewrite (Z.max_l 0 ex), (Z.max_r 0 (- ex)) by lia.
  assert (0 < 2 ^ (- ex)) by (apply Z.pow_pos_nonneg; lia).
  change (1 * 2 ^ 0) with 1. rewrite <- (Z.mul_1_r (n * _)), round_half_even_exact by lia.
  change (2 ^ 0) with 1. rewrite !Z.mul_1_r.
  destruct (Z.leb_spec (2 ^ 1024) (n * 2 ^ (- ex))) as [Hbig|_].
  { exfalso. assert (2 ^ (- ex) <= 2 ^ 52) by (apply Z.pow_le_mono_r; lia).
    assert (2 ^ 53 * 2 ^ 52 < 2 ^ 1024) by done. nia. }
  f_equal. rewrite <- (Qred_inject_Z z). apply Qred_complete.
  unfold Qeq. simpl. rewrite Z2Pos.id by lia. subst n.
  rewrite Z.mul_assoc, (Z.mul_comm (Z.sgn z)), Z.abs_sgn. lia.
Qed.

Lemma fl_abs_exact_add a b :
  Z.abs (a + b) < 2 ^ 53 → num_add (of_Z a) (of_Z b) = of_Z (a + b).
Proof.
  intros H. unfold num_add, of_Z. rewrite <- inject_Z_plus. by apply fl_int.
Qed.

(** ** Numbers as sort keys *)

(** What a sort callback's number says: only its sign is read, and NaN counts
    as zero, in [sort] as in [||]. *)
Definition num_sign (n : number) : comparison :=
  match n with
  | NaN => Eq
  | Inf neg => if neg then Lt else Gt
  | Fin q => (q ?= 0)%Q
  end.
(** The callback [x - y]. *)
Definition by_difference (x y : number) : comparison := num_sign (num_sub x y).

(** Every finite double is a multiple of 2^-1074. *)
Definition double_grid (q : Q) : bool := (Qnum q * 2 ^ 1074) mod Zpos (Qden q) =? 0.
Definition num_double (n : number) : bool := match n with Fin q => double_grid q | _ => true end.


Lemma double_grid_spec q : double_grid q = true ↔ ∃ k, (q == k # 2 ^ 1074)%Q.
Proof.
  unfold double_grid. rewrite Z.eqb_eq. unfold Qeq. cbn [Qnum Qden].
  rewrite Pos2Z.inj_pow. generalize (2 ^ 1074) as P. intros P. split.
  - intros H. exists (Qnum q * P / Zpos (Qden q)).
    rewrite Z.mul_comm at 1. rewrite (Z.mul_comm (_ / _)).
    rewrite (Z.mul_comm P). by apply Z_div_exact_full_2.
  - intros [k E]. rewrite E. apply Z.mod_mul. lia.
Qed.

Lemma round_half_even_ge a b c : 0 < b → c * b <= a → c <= round_half_even a b.
Proof.
  intros Hb Hc. assert (c <= a / b) by (apply Z.div_le_lower_bound; lia).
  unfold round_half_even. destruct (_ ?= _); [destruct (Z.even _)|..]; lia.
Qed.

(** What [binary_exponent] is for. *)
Lemma binary_exponent_le n d : 0 < n → 0 < d →
  d * 2 ^ Z.max 0 (binary_exponent n d) <= n * 2 ^ Z.max 0 (- binary_exponent n d).
Proof.
  intros Hn Hd. unfold binary_exponent. set (e := Z.log2 n - Z.log2 d).
  destruct (Z.leb_spec (d * 2 ^ Z.max 0 e) (n * 2 ^ Z.max 0 (- e))) as [H|_]; [done|].
  pose proof (Z.log2_spec n Hn) as [Hn1 _]. pose proof (Z.log2_spec d Hd) as [_ Hd2].
  pose proof (Z.log2_nonneg n). pose proof (Z.log2_nonneg d).
  destruct (Z.le_gt_cases 0 (e - 1)).
  - rewrite (Z.max_r 0 (e - 1)), (Z.max_l 0) by lia. rewrite Z.pow_0_r, Z.mul_1_r.
    assert (E : 2 ^ Z.log2 n = 2 ^ Z.succ (Z.log2 d) * 2 ^ (e - 1)).
    { rewrite <- Z.pow_add_r by lia. f_equal. lia. }
    assert (0 < 2 ^ (e - 1)) by (apply Z.pow_pos_nonneg; lia). nia.
  - rewrite (Z.max_l 0 (e - 1)), (Z.max_r 0) by lia. rewrite Z.pow_0_r, Z.mul_1_r.
    assert (E : 2 ^ Z.succ (Z.log2 d) = 2 ^ Z.log2 n * 2 ^ (- (e - 1))).
    { rewrite <- Z.pow_add_r by lia. f_equal. lia. }
    assert (0 < 2 ^ (- (e - 1))) by (apply Z.pow_pos_nonneg; lia). nia.
Qed.

(** Rounding never loses the sign of a value on the grid: the grid is what
    gradual underflow is for. *)
Lemma fl_mantissa_pos n d ex :
  0 < n → 0 < d → ex = Z.max (binary_exponent n d - 52) (-1074) →
  (n * 2 ^ 1074) mod d = 0 →
  1 <= round_half_even (n * 2 ^ Z.max 0 (- ex)) (d * 2 ^ Z.max 0 ex).
Proof.
  intros Hn Hd -> Hg. set (e := binary_exponent n d).
  pose proof (binary_exponent_le n d Hn Hd) as He. fold e in He. clearbody e.
  apply round_half_even_ge; [apply Z.mul_pos_pos, Z.pow_pos_nonneg; lia|]. rewrite Z.mul_1_l.
  destruct (Z.le_gt_cases (e - 52) (-1074)) as [Hs|Hs].
  - rewrite (Z.max_r (e - 52)) by lia. change (Z.max 0 (-1074)) with 0.
    change (Z.max 0 (- -1074)) with 1074. rewrite Z.pow_0_r, Z.mul_1_r.
    apply Z.mod_divide in Hg; [|lia]. apply Z.divide_pos_le; [|done].
    apply Z.mul_pos_pos; [done|]. by apply Z.pow_pos_nonneg.
  - rewrite (Z.max_l (e - 52)) by lia.
    destruct (Z.le_gt_cases 0 (e - 52)).
    + rewrite (Z.max_r 0 (e - 52)), (Z.max_l 0) by lia.
      rewrite (Z.max_r 0 e), (Z.max_l 0) in He by lia.
      assert (2 ^ (e - 52) <= 2 ^ e) by (apply Z.pow_le_mono_r; lia). nia.
    + rewrite (Z.max_l 0 (e - 52)), (Z.max_r 0) by lia. rewrite Z.pow_0_r, Z.mul_1_r.
      destruct (Z.le_gt_cases 0 e).
      * rewrite (Z.max_r 0 e), (Z.max_l 0) in He by lia.
        assert (0 < 2 ^ e) by (apply Z.pow_pos_nonneg; lia).
        assert (0 < 2 ^ (- (e - 52))) by (apply Z.pow_pos_nonneg; lia). nia.
      * rewrite (Z.max_l 0 e), (Z.max_r 0) in He by lia.
        assert (2 ^ (- e) <= 2 ^ (- (e - 52))) by (apply Z.pow_le_mono_r; lia). nia.
Qed.

Lemma fl_sign q : double_grid q = true → num_sign (fl q) = (q ?= 0)%Q.
Proof.
  intros Hg. unfold fl. destruct (Z.eqb_spec (Z.abs (Qnum q)) 0) as [H0|H0].
  { destruct q as [n d]. simpl in *. assert (n = 0) as -> by lia. done. }
  set (ex := Z.max (binary_exponent _ _ - 52) (-1074)). set (m := round_half_even _ _).
  assert (Hm : 1 <= m).
  { subst m. eapply fl_mantissa_pos; [lia|lia|done|].
    unfold double_grid in Hg. apply Z.eqb_eq in Hg.
    apply Z.mod_divide; [lia|]. apply Z.mod_divide in Hg; [|lia].
    destruct (Z.abs_eq_or_opp (Qnum q)) as [->| ->]; [done|].
    rewrite Z.mul_opp_l. by apply Z.divide_opp_r. }
  clearbody m ex. assert (0 < 2 ^ Z.max 0 ex) by (apply Z.pow_pos_nonneg; lia).
  assert (Hq : (q ?= 0)%Q = (Qnum q ?= 0)).
  { unfold Qcompare. simpl. by rewrite Z.mul_1_r. }
  rewrite Hq. destruct (_ <=? _); cbn [num_sign].
  - destruct (Z.ltb_spec (Qnum q) 0); symmetry;
      [by apply Z.compare_lt_iff | apply Z.compare_gt_iff; lia].
  - rewrite Qred_correct. unfold Qcompare. simpl. rewrite Z.mul_1_r.
    generalize dependent (2 ^ Z.max 0 ex). intros P HP.
    destruct (Z.compare_spec (Qnum q) 0) as [E|E|E]; [lia|..].
    + rewrite Z.sgn_neg by done. apply Z.compare_lt_iff. nia.
    + rewrite Z.sgn_pos by done. apply Z.compare_gt_iff. nia.
Qed.

Lemma by_difference_exact a b :
  double_grid a = true → double_grid b = true → by_difference (Fin a) (Fin b) = (a ?= b)%Q.
Proof.
  intros Ha Hb. unfold by_difference, num_sub, num_neg, num_add. rewrite fl_sign.
  - destruct (Qcompare_spec a b) as [E|E|E].
    + apply Qeq_alt. rewrite E. ring.
    + apply Qlt_alt. apply (Qplus_lt_l _ _ b). ring_simplify. done.
    + apply Qgt_alt. apply (Qplus_lt_l _ _ b). ring_simplify. done.
  - apply double_grid_spec in Ha as [k E], Hb as [l F]. apply double_grid_spec.
    exists (k - l). rewrite E, F. unfold Qeq, Qplus, Qopp. cbn [Qnum Qden].
    rewrite !Pos2Z.inj_mul. ring.
Qed.

Lemma double_grid_proper p q : (p == q)%Q → double_grid p = double_grid q.
Proof.
  intros E. apply eq_bool_prop_intro. rewrite !Is_true_true, !double_grid_spec.
  split; intros [k Hk]; exists k; [by rewrite <- E|by rewrite E].
Qed.
(** What arithmetic rounds to is a double. *)
Lemma fl_double q : num_double (fl q) = true.
Proof.
  unfold fl. destruct (_ =? 0); [done|]. set (ex := Z.max (binary_exponent _ _ - 52) (-1074)). set (m := round_half_even _ _).
  assert (-1074 <= ex) by lia. clearbody ex m. destruct (_ <=? _); [done|]. cbn [num_double].
  rewrite (double_grid_proper _ _ (Qred_correct _)). unfold double_grid. cbn [Qnum Qden].
  apply Z.eqb_eq. assert (0 < 2 ^ Z.max 0 (- ex)) by (apply Z.pow_pos_nonneg; lia).
  rewrite Z2Pos.id by assumption. apply Z.mod_divide; [lia|]. apply Z.divide_mul_r.
  exists (2 ^ (1074 - Z.max 0 (- ex))). rewrite <- Z.pow_add_r by lia. f_equal. lia.
Qed.
Lemma num_neg_double n : num_double n = true → num_double (num_neg n) = true.
Proof.
  destruct n as [| |q]; [done..|]. cbn [num_double num_neg]. rewrite !double_grid_spec.
  intros [k Hk]. exists (- k). rewrite Hk. unfold Qeq. cbn. lia.
Qed.

#[export] Instance Q_comparator : Comparator Qcompare.
Proof.
  split.
  - intros x y. by rewrite Qcompare_antisym.
  - intros x y z. rewrite <- !Qle_alt. apply Qle_trans.
Qed.

(** ** [Number(s)]: StringToNumber of ECMA-262 *)

Definition digit_value (c : N) : option Z :=
  if ((48 <=? c) && (c <=? 57))%N then Some (Z.of_N c - 48)
  else if ((97 <=? c) && (c <=? 102))%N then Some (Z.of_N c - 87)
  else if ((65 <=? c) && (c <=? 70))%N then Some (Z.of_N c - 55)
  else None.

(** The longest run of digits in [radix]: its value, its length and the rest. *)
Fixpoint take_digits (radix acc : Z) (k : nat) (l : list N) : Z * nat * list N :=
  match l with
  | c :: l' =>
      match digit_value c with
      | Some d => if d <? radix then take_digits radix (acc * radix + d) (S k) l'
                  else (acc, k, l)
      | None => (acc, k, l)
      end
  | [] => (acc, k, l)
  end.

Definition radix_literal (radix : Z) (l : list N) : number :=
  match take_digits radix 0 0 l with
  | (v, S _, []) => fl (inject_Z v)
  | _ => NaN
  end.

(** The exponent part [e±digits]; [None] when the text is not one. *)
Definition exponent_part (l : list N) : option Z :=
  match l with
  | [] => Some 0
  | c :: l' =>
      if (c =? 101)%N || (c =? 69)%N then
        let '(sgn, l'') := match l' with
          | 43%N :: r => (1, r) | 45%N :: r => (-1, r) | r => (1, r) end in
        match take_digits 10 0 0 l'' with
        | (v, S _, []) => Some (sgn * v)
        | _ => None
        end
      else None
  end.

Definition decimal_value (m e : Z) : Q :=
  if 0 <=? e then inject_Z (m * 10 ^ e) else m # Z.to_pos (10 ^ (- e)).

Definition unsigned_decimal (l : list N) : number :=
  if decide (l = units "Infinity"%js) then Inf false else
  let '(m1, k1, r1) := take_digits 10 0 0 l in
  let '(m2, k2, r2) := match r1 with
    | 46%N :: r => take_digits 10 m1 0 r
    | _ => (m1, 0%nat, r1) end in
  if (k1 + k2 =? 0)%nat then NaN else
  match exponent_part r2 with
  | Some e => fl (decimal_value m2 (e - Z.of_nat k2))
  | None => NaN
  end.

Definition js_Number (s : jstring) : number :=
  match units (js_trim s) with
  | [] => Fin 0
  | c :: l =>
      match l with
      | r :: l' =>
          if (c =? 48)%N && ((r =? 120) || (r =? 88))%N then radix_literal 16 l'
          else if (c =? 48)%N && ((r =? 111) || (r =? 79))%N then radix_literal 8 l'
          else if (c =? 48)%N && ((r =? 98) || (r =? 66))%N then radix_literal 2 l'
          else if (c =? 43)%N then unsigned_decimal l
          else if (c =? 45)%N then num_neg (unsigned_decimal l)
          else unsigned_decimal (c :: l)
      | [] => unsigned_decimal [c]
      end
  end.

(** A count in a template literal: [`${n}`] for a non-negative integer. *)
Fixpoint decimal_units (fuel : nat) (n : N) : list N :=
  match fuel with
  | O => []
  | S f => if (n <? 10)%N then [48 + n]%N
           else decimal_units f (n / 10) ++ [48 + n mod 10]%N
  end.
Definition decimal (n : N) : jstring := JS (decimal_units (S (N.to_nat (N.log2 n))) n).

Definition is_digit (c : N) : Prop := (48 <= c <= 57)%N.
Definition digits_value (acc : Z) (l : list N) : Z :=
  foldl (λ a c, a * 10 + (Z.of_N c - 48)) acc l.

Lemma digit_value_digit c : is_digit c → digit_value c = Some (Z.of_N c - 48).
Proof.
  unfold is_digit, digit_value. intros.
  destruct (N.leb_spec 48 c), (N.leb_spec c 57); simpl; done || lia.
Qed.

Lemma take_digits_digits acc k l r :
  Forall is_digit l → (match r with c :: _ => digit_value c = None | [] => True end) →
  take_digits 10 acc k (l ++ r) = (digits_value acc l, (length l + k)%nat, r).
Proof.
  intros Hl Hr. revert acc k. induction Hl as [|c l Hc Hl IH]; intros acc k; simpl.
  - destruct r as [|c r]; [done|]. simpl. by rewrite Hr.
  - rewrite (digit_value_digit c Hc).
    destruct (Z.ltb_spec (Z.of_N c - 48) 10); [|unfold is_digit in Hc; lia].
    rewrite IH. repeat f_equal. lia.
Qed.

Lemma decimal_units_digits f n : Forall is_digit (decimal_units f n).
Proof.
  revert n. induction f as [|f IH]; intros n; simpl; [constructor|].
  unfold is_digit in *. destruct (N.ltb_spec n 10).
  - apply Forall_singleton. lia.
  - apply Forall_app. split; [apply IH|]. apply Forall_singleton.
    assert (Hm : (n mod 10 < 10)%N) by (apply N.mod_lt; done).
    revert Hm. generalize (n mod 10)%N. lia.
Qed.

Lemma decimal_units_value f n :
  (n < 2 ^ N.of_nat f)%N → digits_value 0 (decimal_units f n) = Z.of_N n.
Proof.
  revert n. induction f as [|f IH]; intros n Hn; simpl; [simpl in Hn; lia|].
  destruct (N.ltb_spec n 10); [unfold digits_value; simpl; lia|].
  unfold digits_value in *. rewrite foldl_app. rewrite IH; simpl.
  - assert (n = 10 * (n / 10) + n mod 10)%N by (apply N.div_mod; done). lia.
  - rewrite Nat2N.inj_succ, N.pow_succ_r' in Hn.
    apply N.Div0.div_lt_upper_bound. lia.
Qed.

Lemma decimal_value_eq n : digits_value 0 (units (decimal n)) = Z.of_N n.
Proof.
  apply decimal_units_value. rewrite Nat2N.inj_succ, N2Nat.id.
  destruct (decide (n = 0)%N) as [->|]; [done|]. apply N.log2_spec. lia.
Qed.

Lemma decimal_digits n : Forall is_digit (units (decimal n)).
Proof. apply decimal_units_digits. Qed.

Lemma decimal_nonempty n : units (decimal n) ≠ [].
Proof. simpl. destruct (n <? 10)%N; [done|]. by intros [_ ?]%app_nil. Qed.

Lemma is_digit_not_space c : is_digit c → is_space c = false.
Proof.
  unfold is_digit, is_space. intros.
  repeat match goal with
  | |- context [(?a <=? ?b)%N] => destruct (N.leb_spec a b); [try lia | try lia]
  | |- context [(?a =? ?b)%N] => destruct (N.eqb_spec a b); [try lia | try lia]
  end; done.
Qed.

Lemma drop_spaces_digits l : Forall is_digit l → drop_spaces l = l.
Proof.
  intros H. destruct H as [|c l Hc]; simpl; [done|]. by rewrite is_digit_not_space.
Qed.

Lemma js_trim_digits l : Forall is_digit l → js_trim (JS l) = JS l.
Proof.
  intros H. unfold js_trim. simpl. rewrite (drop_spaces_digits l H).
  rewrite drop_spaces_digits; [by rewrite rev_involutive|].
  rewrite rev_alt, rev_append_rev, app_nil_r. by apply Forall_rev.
Qed.

Lemma unsigned_decimal_digits l :
  l ≠ [] → Forall is_digit l → unsigned_decimal l = fl (inject_Z (digits_value 0 l)).
Proof.
  intros Hne Hl. unfold unsigned_decimal.
  rewrite decide_False; [|intros ->; inversion Hl; unfold is_digit in *; lia].
  rewrite <- (app_nil_r l) at 1. rewrite take_digits_digits by done.
  destruct l as [|c l]; [done|]. simpl length. simpl Nat.eqb. cbv match.
  unfold decimal_value. simpl. by rewrite Z.mul_1_r.
Qed.

Lemma js_Number_digits l :
  l ≠ [] → Forall is_digit l → js_Number (JS l) = fl (inject_Z (digits_value 0 l)).
Proof.
  intros Hne Hl. unfold js_Number. rewrite js_trim_digits by done. simpl units.
  rewrite <- unsigned_decimal_digits by done.
  destruct l as [|c [|r l]]; [done..|].
  inversion Hl as [|? ? Hc Hl']; subst. inversion Hl' as [|? ? Hr _]; subst.
  unfold is_digit in *.
  repeat match goal with
  | |- context [(?a =? ?b)%N] => destruct (N.eqb_spec a b); [try lia | ]
  end; done.
Qed.

(** Reading back a printed count gives the count. *)
Lemma js_Number_decimal n : (n < 2 ^ 53)%N → js_Number (decimal n) = of_Z (Z.of_N n).
Proof.
  intros Hn. transitivity (js_Number (JS (units (decimal n)))); [done|].
  rewrite js_Number_digits by (apply decimal_nonempty || apply decimal_digits).
  rewrite decimal_value_eq. apply fl_int. lia.
Qed.

Lemma unsigned_decimal_double l : num_double (unsigned_decimal l) = true.
Proof.
  unfold unsigned_decimal. case_decide; [done|]. destruct (take_digits 10 0 0 l) as [[m1 k1] r1].
  destruct (match r1 with 46%N :: r => take_digits 10 m1 0 r | _ => (m1, 0%nat, r1) end) as [[m2 k2] r2].
  destruct (_ =? _)%nat; [done|]. destruct (exponent_part r2); [apply fl_double|done].
Qed.
Lemma radix_literal_double radix l : num_double (radix_literal radix l) = true.
Proof.
  unfold radix_literal. destruct (take_digits radix 0 0 l) as [[v [|k]] [|]]; try done.
  apply fl_double.
Qed.
Lemma js_Number_double s : num_double (js_Number s) = true.
Proof.
  unfold js_Number. destruct (units (js_trim s)) as [|c [|r l]]; [done|apply unsigned_decimal_double|].
  repeat case_match; auto using radix_literal_double, unsigned_decimal_double, num_neg_double.
Qed.

Lemma decimal_inj m n : decimal m = decimal n → m = n.
Proof. intros H. apply N2Z.inj. rewrite <- !decimal_value_eq. by rewrite H. Qed.

(** ** Values of type [unknown], as [JSON.parse] and the fetchers build them

    An object is the list of its own properties in creation order, keys
    distinct; reading a field that is not there gives [undefined]. *)

Inductive jsval :=
  | JUndef
  | JNull
  | JBool (b : bool)
  | JNum (n : number)
  | JStr (s : jstring)
  | JArr (l : list jsval)
  | JObj (fields : list (jstring * jsval)).

(** Every number in the value is a double. *)
Fixpoint js_doubles (v : jsval) : bool :=
  match v with
  | JNum n => num_double n
  | JArr l => forallb js_doubles l
  | JObj fields => forallb (λ kv, js_doubles kv.2) fields
  | _ => true
  end.

(** First entry of an association list under a key. *)
Fixpoint assoc {V} (k : jstring) (l : list (jstring * V)) : option V :=
  match l with
  | [] => None
  | (k', v) :: l' => if decide (k' = k) then Some v else assoc k l'
  end.

Definition field (fields : list (jstring * jsval)) (k : jstring) : jsval :=
  default JUndef (assoc k fields).
(** [o?.k] where [o] is an object or [null]. *)
Definition field_opt (o : option (list (jstring * jsval))) (k : jstring) : jsval :=
  match o with Some fields => field fields k | None => JUndef end.

(** [Object.keys]: array-index keys in numeric order, then the others in
    creation order. *)
Definition array_index (s : jstring) : option N :=
  let n := Z.to_N (digits_value 0 (units s)) in
  if decide (s = decimal n) then if (n <? 4294967295)%N then Some n else None else None.
Definition object_keys {V} (l : list (jstring * V)) : list jstring :=
  let ks := l.*1 in
  js_sort (λ a b, (default 0 (array_index a) ?= default 0 (array_index b))%N)
    (filter (λ k, is_Some (array_index k)) ks)
  ++ filter (λ k, ¬ is_Some (array_index k)) ks.

Lemma object_keys_perm {V} (l : list (jstring * V)) : object_keys l ≡ₚ l.*1.
Proof.
  unfold object_keys. rewrite js_sort_perm. induction (l.*1) as [|k ks IH]; [done|].
  rewrite !filter_cons. destruct (decide (is_Some (array_index k))) as [H|H].
  - rewrite decide_False by tauto. simpl. by f_equiv.
  - rewrite decide_True by tauto. by rewrite <- Permutation_middle, IH.
Qed.
Lemma elem_of_object_keys {V} (l : list (jstring * V)) k :
  k ∈ object_keys l ↔ k ∈ l.*1.
Proof. by rewrite object_keys_perm. Qed.

Lemma assoc_elem_of {V} k (v : V) l : assoc k l = Some v → (k, v) ∈ l.
Proof.
  induction l as [|[k' v'] l IH]; simpl; [done|].
  case_decide; intros; simplify_eq; rewrite elem_of_cons; auto.
Qed.
Lemma assoc_is_Some {V} k (l : list (jstring * V)) : is_Some (assoc k l) ↔ k ∈ l.*1.
Proof.
  induction l as [|[k' v'] l IH]; simpl.
  - rewrite elem_of_nil. split; [by intros [? ?] | done].
  - rewrite elem_of_cons. case_decide; subst; [by split; [left | eauto]|].
    rewrite IH. split; [by right|]. by intros [?|?].
Qed.
Lemma assoc_None {V} k (l : list (jstring * V)) : assoc k l = None ↔ k ∉ l.*1.
Proof. rewrite <- assoc_is_Some, eq_None_not_Some. done. Qed.
Lemma assoc_NoDup {V} k (v : V) l : NoDup l.*1 → (k, v) ∈ l → assoc k l = Some v.
Proof.
  induction l as [|[k' v'] l IH]; simpl; [by intros _ ?%elem_of_nil|].
  intros [Hk Hnd]%NoDup_cons [[= -> ->]|Hin]%elem_of_cons; [by rewrite decide_True|].
  rewrite decide_False; [by apply IH|]. intros ->. apply Hk.
  apply list_elem_of_fmap. by exists (k, v).
Qed.

Lemma js_doubles_elem l v : js_doubles (JArr l) = true → v ∈ l → js_doubles v = true.
Proof. cbn [js_doubles]. rewrite forallb_forall. intros H Hv%list_elem_of_In. by apply H. Qed.
Lemma js_doubles_field fields k :
  js_doubles (JObj fields) = true → js_doubles (field fields k) = true.
Proof.
  cbn [js_doubles]. rewrite forallb_forall. intros H. unfold field.
  destruct (assoc k fields) as [v|] eqn:E; [|done].
  apply assoc_elem_of, list_elem_of_In in E. apply (H _ E).
Qed.

(** [{ ...o, [k]: v }]: an existing key keeps its place. *)
Fixpoint assoc_set {V} (k : jstring) (v : V) (l : list (jstring * V)) : list (jstring * V) :=
  match l with
  | [] => [(k, v)]
  | (k', v') :: l' => if decide (k' = k) then (k, v) :: l' else (k', v') :: assoc_set k v l'
  end.

Lemma assoc_set_eq {V} k (v : V) l : assoc k (assoc_set k v l) = Some v.
Proof.
  induction l as [|[k' v'] l IH]; simpl; [by rewrite decide_True|].
  case_decide; simpl; [by rewrite decide_True | by rewrite decide_False].
Qed.
Lemma assoc_set_ne {V} k k' (v : V) l : k ≠ k' → assoc k' (assoc_set k v l) = assoc k' l.
Proof.
  intros Hne. induction l as [|[k0 v0] l IH]; simpl; [by rewrite decide_False|].
  case_decide; subst; simpl; [by rewrite decide_False, decide_False|].
  by case_decide.
Qed.
Lemma assoc_set_fresh {V} k (v : V) l : k ∉ l.*1 → assoc_set k v l = l ++ [(k, v)].
Proof.
  induction l as [|[k' v'] l IH]; intros Hk; simpl; [done|].
  rewrite decide_False; [|intros ->; apply Hk; by left].
  rewrite IH; [done|]. intros ?. apply Hk. by right.
Qed.
Lemma assoc_set_keys {V} k (v : V) l : (assoc_set k v l).*1 ⊆ k :: l.*1.
Proof.
  intros k'. rewrite elem_of_cons. induction l as [|[k0 v0] l IH]; simpl.
  - intros [->|[]%elem_of_nil]%elem_of_cons. by left.
  - rewrite elem_of_cons. case_decide; simpl; rewrite elem_of_cons; tauto.
Qed.

Lemma assoc_set_keys_elem {V} k (v : V) l k' : k' ∈ (assoc_set k v l).*1 ↔ k' = k ∨ k' ∈ l.*1.
Proof.
  rewrite <- !assoc_is_Some. destruct (decide (k = k')) as [->|Hne].
  - rewrite assoc_set_eq. split; [by left|by eauto].
  - rewrite assoc_set_ne by done. split; [by right|by intros [?|?]].
Qed.
Lemma assoc_set_keys_NoDup {V} k (v : V) l : NoDup l.*1 → NoDup (assoc_set k v l).*1.
Proof.
  intros Hnd. destruct (decide (k ∈ l.*1)) as [Hin|Hn].
  - assert ((assoc_set k v l).*1 = l.*1) as ->; [|done]. clear Hnd.
    induction l as [|[k' v'] l IH]; [by apply elem_of_nil in Hin|]. simpl.
    case_decide as Hk; [by subst|]. rewrite !fmap_cons. f_equal. apply IH.
    apply elem_of_cons in Hin as [?|?]; [by subst|done].
  - rewrite assoc_set_fresh, fmap_app by done. apply NoDup_app. split; [done|].
    split; [|apply NoDup_singleton]. by intros a Ha ->%list_elem_of_singleton.
Qed.

(** ** Object literals used as lookup tables

    [T[k]] on an object literal also finds what [Object.prototype] carries:
    a key such as ["constructor"] yields a function, not [undefined]. *)

Definition OBJECT_PROTOTYPE : list jstring :=
  ["constructor"; "__defineGetter__"; "__defineSetter__"; "hasOwnProperty";
   "__lookupGetter__"; "__lookupSetter__"; "isPrototypeOf"; "propertyIsEnumerable";
   "toString"; "valueOf"; "__proto__"; "toLocaleString"]%js.

Inductive prop (V : Type) := Own (v : V) | Inherited | Missing.
Arguments Own {V} _.
Arguments Inherited {V}.
Arguments Missing {V}.

Definition table_get {V} (t : list (jstring * V)) (k : jstring) : prop V :=
  match assoc k t with
  | Some v => Own v
  | None => if decide (k ∈ OBJECT_PROTOTYPE) then Inherited else Missing
  end.

(** [delete m[k]], [Map.prototype.delete], [removeItem]. *)
Definition remove_key {V} (k : jstring) (l : list (jstring * V)) : list (jstring * V) :=
  filter (λ kv, kv.1 ≠ k) l.
Lemma remove_key_assoc {V} k k' (l : list (jstring * V)) : assoc k' (remove_key k l) = if decide (k' = k) then None else assoc k' l.
Proof.
  unfold remove_key. induction l as [|[j v] l IH]; [by case_decide|]. rewrite filter_cons. cbn [fst].
  destruct (decide (j ≠ k)) as [Hj|Hj]; cbn [assoc]; rewrite IH.
  - repeat case_decide; subst; congruence.
  - apply dec_stable in Hj. subst j. repeat case_decide; subst; congruence.
Qed.
Lemma remove_key_NoDup {V} k (l : list (jstring * V)) : NoDup l.*1 → NoDup (remove_key k l).*1.
Proof.
  induction l as [|[j v] l IH]; [done|]. intros [Hj Hnd]%NoDup_cons. unfold remove_key. rewrite filter_cons.
  cbn [fst]. case_decide as Hk; [|by apply IH]. cbn. apply NoDup_cons. split; [|by apply IH].
  intros H. apply Hj. apply list_elem_of_fmap in H as (x & -> & [_ Hx]%list_elem_of_filter).
  apply list_elem_of_fmap. by exists x.
Qed.

(** The truth of a value in a condition. *)
Definition js_truthy (v : jsval) : bool :=
  match v with
  | JUndef | JNull => false
  | JBool b => b
  | JNum NaN => false
  | JNum (Inf _) => true
  | JNum (Fin q) => negb (Qeq_bool q 0)
  | JStr s => negb (js_eqb s ""%js)
  | JArr _ | JObj _ => true
  end.
