(* ===== verification/Narrow.v ===== *)
(** * Reading backend payloads: narrow.ts and page-coverage.ts

    [obj], [str], [num], [numOr], [list] and [listOr] are the only way the
    card modules look at an [unknown] body; [coverage] says what a card may
    claim about the page its numbers were computed over. *)

From stdpp Require Import base list strings gmap.
From Stdlib Require Import ZArith QArith Lia.
From S2P Require Import Prelude JsValue.

Open Scope Z_scope.

Definition obj (value : jsval) : option (list (jstring * jsval)) :=
  match value with JObj fields => Some fields | _ => None end.
Definition str (value : jsval) : jstring :=
  match value with JStr s => s | _ => ""%js end.
Definition num (value : jsval) : option number :=
  match value with
  | JNum n => if isFinite n then Some n else None
  | _ => None
  end.
Definition numOr (value : jsval) (fallback : number) : number :=
  match value with
  | JNum n => if isFinite n then n else fallback
  | _ => fallback
  end.
Definition list_ (value : jsval) : option (list jsval) :=
  match value with JArr l => Some l | _ => None end.
Definition listOr (value : jsval) : list jsval :=
  match value with JArr l => l | _ => [] end.

(** [ResourceListPage]: the page as [readList] hands it over; both fields may
    be anything by the time a card reads them. *)
Record ResourceListPage := { items : jsval; page_total : jsval }.

Record PageCoverage := {
  total : number;
  counted : number;
  truncated : bool;
  readable : bool
}.

Definition coverage (page : option ResourceListPage) (n : number) : PageCoverage :=
  let raw := match page with Some p => page_total p | None => JUndef end in
  let tot := match raw with
    | JNum t => if isFinite t then t else n
    | _ => n
    end in
  let items := match page with Some p => items p | None => JUndef end in
  {| total := tot; counted := n; truncated := num_ltb n tot;
     readable := match list_ items with Some _ => true | None => false end |}.

(** ** Shared by the cards *)

(** [v === true] *)
Definition is_true_val (v : jsval) : bool := match v with JBool b => b | _ => false end.

(** The body of an entry that has a name. *)
Definition named_item (key : jstring) (entry : jsval) : option (list (jstring * jsval)) :=
  item ← obj entry;
  if js_eqb (str (field item key)) ""%js then None else Some item.
(** A loop that pushes the row of each named entry and counts the others. *)
Record NamedLoop (Row : Type) := { nm_rows : list Row; nm_unreadable : nat }.
Arguments nm_rows {Row} _.
Arguments nm_unreadable {Row} _.
Definition named_step {Row} (row : list (jstring * jsval) → Row) (st : NamedLoop Row) (entry : jsval)
    : NamedLoop Row :=
  match named_item "name" entry with
  | None => {| nm_rows := nm_rows st; nm_unreadable := S (nm_unreadable st) |}
  | Some item => {| nm_rows := nm_rows st ++ [row item]; nm_unreadable := nm_unreadable st |}
  end.
Definition named_loop {Row} (row : list (jstring * jsval) → Row) (entries : list jsval) : NamedLoop Row :=
  foldl (named_step row) {| nm_rows := []; nm_unreadable := 0 |} entries.

Lemma named_loop_spec {Row} (row : list (jstring * jsval) → Row) entries :
  nm_rows (named_loop row entries) = row <$> omap (named_item "name") entries ∧
  (length (nm_rows (named_loop row entries)) + nm_unreadable (named_loop row entries))%nat
    = length entries.
Proof.
  unfold named_loop. induction entries as [|v l [IH1 IH2]] using rev_ind; [done|].
  rewrite foldl_app, omap_app, fmap_app, length_app, <- IH2, <- IH1. cbn [foldl omap list_omap].
  set (st := foldl _ _ l) in *. clearbody st. unfold named_step.
  destruct (named_item "name" v); cbn; rewrite ?app_nil_r, ?length_app; cbn; split; try done; lia.
Qed.
Lemma named_item_inv key v item : named_item key v = Some item →
  v = JObj item ∧ str (field item key) ≠ ""%js.
Proof.
  unfold named_item. destruct v as [| | | | | |e]; try done. cbn [obj mbind option_bind].
  destruct (js_eqb _ _) eqn:E; [done|]. intros [= ->]. split; [done|].
  intros H%js_eqb_eq. congruence.
Qed.

(** A number that [num] lets through is finite, so it can be ranked. *)
Lemma num_Fin v n : num v = Some n → ∃ q, n = Fin q.
Proof. destruct v as [| | |[]| | |]; naive_solver. Qed.
