(* ===== verification/Uri.v ===== *)
(** * Links: [encodeURIComponent] and the paths built from it

    A card's row links to a page whose path carries payload values as
    segments. [encodeURIComponent] is the language's (ECMA-262 Encode): a unit
    of the unreserved set is kept, any other code point becomes the percent
    escapes of its UTF-8 bytes, and a surrogate without its partner throws a
    [URIError], here [None]. *)

From stdpp Require Import base list strings gmap.
From Stdlib Require Import ZArith NArith Lia.
From S2P Require Import Prelude JsValue.

(** ** Definitions *)

Definition in_range (lo hi c : N) : bool := ((lo <=? c) && (c <=? hi))%N.
Definition uri_unreserved (c : N) : bool :=
  in_range 65 90 c || in_range 97 122 c || in_range 48 57 c
  || bool_decide (c ∈ [45; 95; 46; 33; 126; 42; 39; 40; 41]%N).
Definition upper_hex (n : N) : N := if (n <? 10)%N then (48 + n)%N else (55 + n)%N.
Definition percent_byte (b : N) : list N := [37; upper_hex (b / 16); upper_hex (b mod 16)]%N.
Definition utf8_bytes (cp : N) : list N :=
  (if cp <? 128 then [cp]
   else if cp <? 2048 then [192 + cp / 64; 128 + cp mod 64]
   else if cp <? 65536 then [224 + cp / 4096; 128 + cp / 64 mod 64; 128 + cp mod 64]
   else [240 + cp / 262144; 128 + cp / 4096 mod 64; 128 + cp / 64 mod 64; 128 + cp mod 64])%N.
Definition percent_utf8 (cp : N) : list N := utf8_bytes cp ≫= percent_byte.

Definition high_surrogate : N → bool := in_range 55296 56319.
Definition low_surrogate : N → bool := in_range 56320 57343.
Definition code_point (hi lo : N) : N := ((hi - 55296) * 1024 + (lo - 56320) + 65536)%N.

Fixpoint encode_units (l : list N) : option (list N) :=
  match l with
  | [] => Some []
  | c :: l' =>
      if uri_unreserved c then cons c <$> encode_units l'
      else if low_surrogate c then None
      else if high_surrogate c then
        match l' with
        | d :: l'' =>
            if low_surrogate d then app (percent_utf8 (code_point c d)) <$> encode_units l''
            else None
        | [] => None
        end
      else app (percent_utf8 c) <$> encode_units l'
  end.
Definition encodeURIComponent (s : jstring) : option jstring := JS <$> encode_units (units s).

(** [`${page}/${encodeURIComponent(a)}/${encodeURIComponent(b)}...`] *)
Fixpoint path_of (page : jstring) (segments : list jstring) : option jstring :=
  match segments with
  | [] => Some page
  | s :: ss => e ← encodeURIComponent s; path_of (page +++ "/" +++ e)%js ss
  end.

(** ** The escapes are a prefix code without a slash *)

Definition is_unit (c : N) : Prop := (c < 65536)%N.
Definition js_units (s : jstring) : Prop := Forall is_unit (units s).

Lemma upper_hex_inj a b : (a < 16)%N → (b < 16)%N → upper_hex a = upper_hex b → a = b.
Proof. unfold upper_hex. intros. destruct (N.ltb_spec a 10), (N.ltb_spec b 10); lia. Qed.
Lemma upper_hex_safe a : (a < 16)%N → upper_hex a ≠ 47%N.
Proof. unfold upper_hex. intros. destruct (N.ltb_spec a 10); lia. Qed.

Lemma percent_byte_inj a b r r' : (a < 256)%N → (b < 256)%N →
  percent_byte a ++ r = percent_byte b ++ r' → a = b ∧ r = r'.
Proof.
  intros Ha Hb. unfold percent_byte. simpl. intros [= H1 H2 H3]. split; [|done].
  assert (a / 16 < 16 ∧ b / 16 < 16)%N as [? ?] by (split; apply N.Div0.div_lt_upper_bound; lia).
  pose proof (N.mod_upper_bound a 16). pose proof (N.mod_upper_bound b 16).
  apply upper_hex_inj in H1, H2; try lia.
  rewrite (N.div_mod a 16), (N.div_mod b 16) by done. congruence.
Qed.

Lemma utf8_bytes_range cp : (cp < 1114112)%N → Forall (λ b, b < 256)%N (utf8_bytes cp).
Proof.
  intros H. unfold utf8_bytes.
  pose proof (N.mod_upper_bound cp 64). pose proof (N.mod_upper_bound (cp / 64) 64).
  pose proof (N.mod_upper_bound (cp / 4096) 64).
  destruct (N.ltb_spec cp 128), (N.ltb_spec cp 2048), (N.ltb_spec cp 65536);
    repeat constructor; zify; Z.to_euclidean_division_equations; lia.
Qed.

Lemma percent_bytes_inj l k r r' :
  Forall (λ b, b < 256)%N l → Forall (λ b, b < 256)%N k → length l = length k →
  (l ≫= percent_byte) ++ r = (k ≫= percent_byte) ++ r' → l = k ∧ r = r'.
Proof.
  intros Hl. revert k. induction Hl as [|a l Ha Hl IH]; intros [|b k] Hk Hlen; try done.
  apply Forall_cons in Hk as [Hb Hk]. injection Hlen as Hlen. cbn [mbind list_bind].
  rewrite <- !(assoc_L (++)). intros [-> H]%percent_byte_inj; [|done|done].
  by apply IH in H as [-> ->].
Qed.

(** The first byte of a sequence says how long it is. *)
Definition sequence_length (b : N) : nat :=
  if (b <? 192)%N then 1 else if (b <? 224)%N then 2 else if (b <? 240)%N then 3 else 4.
Lemma utf8_bytes_head cp : (cp < 1114112)%N →
  ∃ b l, utf8_bytes cp = b :: l ∧ length (utf8_bytes cp) = sequence_length b.
Proof.
  intros H. unfold utf8_bytes, sequence_length.
  destruct (N.ltb_spec cp 128), (N.ltb_spec cp 2048), (N.ltb_spec cp 65536);
    do 2 eexists; (split; [done|]); cbn [length];
    repeat match goal with |- context [(?a <? ?b)%N] => destruct (N.ltb_spec a b) end;
    try done; exfalso; zify; Z.to_euclidean_division_equations; lia.
Qed.
Lemma utf8_bytes_inj a b : (a < 1114112)%N → (b < 1114112)%N → utf8_bytes a = utf8_bytes b → a = b.
Proof.
  intros Ha Hb. unfold utf8_bytes.
  pose proof (N.div_mod a 64). pose proof (N.div_mod b 64).
  pose proof (N.div_mod (a / 64) 64). pose proof (N.div_mod (b / 64) 64).
  pose proof (N.div_mod (a / 4096) 64). pose proof (N.div_mod (b / 4096) 64).
  rewrite (N.Div0.div_div a 64 64) in *. rewrite (N.Div0.div_div b 64 64) in *.
  rewrite (N.Div0.div_div a 4096 64) in *. rewrite (N.Div0.div_div b 4096 64) in *.
  change (64 * 64)%N with 4096%N in *. change (4096 * 64)%N with 262144%N in *.
  destruct (N.ltb_spec a 128), (N.ltb_spec b 128), (N.ltb_spec a 2048), (N.ltb_spec b 2048),
    (N.ltb_spec a 65536), (N.ltb_spec b 65536); try lia; intros [=]; lia.
Qed.

Lemma percent_utf8_inj a b r r' : (a < 1114112)%N → (b < 1114112)%N →
  percent_utf8 a ++ r = percent_utf8 b ++ r' → a = b ∧ r = r'.
Proof.
  intros Ha Hb. unfold percent_utf8. intros E.
  pose proof (utf8_bytes_range a Ha) as Ra. pose proof (utf8_bytes_range b Hb) as Rb.
  destruct (utf8_bytes_head a Ha) as (x & l & El & Ll), (utf8_bytes_head b Hb) as (y & k & Ek & Lk).
  assert (x = y) as <-.
  { rewrite El in E, Ra. rewrite Ek in E, Rb. apply Forall_cons in Ra as [? _], Rb as [? _].
    cbn [mbind list_bind] in E. rewrite <- !(assoc_L (++)) in E. by apply percent_byte_inj in E as [? _]. }
  apply percent_bytes_inj in E as [E ->]; [|done|done|congruence].
  by apply utf8_bytes_inj in E.
Qed.
Lemma percent_utf8_head cp : (cp < 1114112)%N → ∃ l, percent_utf8 cp = 37%N :: l.
Proof. intros H. unfold percent_utf8. by destruct (utf8_bytes_head cp H) as (x & l & -> & _); eexists. Qed.

Lemma code_point_range c d : high_surrogate c = true → low_surrogate d = true →
  (65536 <= code_point c d < 1114112)%N.
Proof.
  unfold high_surrogate, low_surrogate, in_range, code_point. intros.
  reflect_bools. rewrite ?N.leb_le in *. lia.
Qed.
Lemma code_point_inj c d c' d' :
  high_surrogate c = true → low_surrogate d = true →
  high_surrogate c' = true → low_surrogate d' = true →
  code_point c d = code_point c' d' → c = c' ∧ d = d'.
Proof.
  unfold high_surrogate, low_surrogate, in_range, code_point. intros.
  reflect_bools. rewrite ?N.leb_le in *. lia.
Qed.
Lemma percent_reserved : uri_unreserved 37 = false.
Proof. reflexivity. Qed.


(** The units a code point takes. *)
Inductive reads : list N → N → Prop :=
  | reads_unit c : (c < 65536)%N → reads [c] c
  | reads_pair c d : high_surrogate c = true → low_surrogate d = true → reads [c; d] (code_point c d).
Lemma reads_range cs cp : reads cs cp → (cp < 1114112)%N.
Proof. destruct 1 as [c|c d Hc Hd]; [lia|]. by apply code_point_range. Qed.
Lemma reads_inj cs cs' cp : reads cs cp → reads cs' cp → cs = cs'.
Proof.
  destruct 1 as [c Hc|c d Hc Hd]; inversion 1 as [c' Hc'|c' d' Hc' Hd' E E']; subst; [done|..].
  - pose proof (code_point_range c' d' Hc' Hd'). lia.
  - pose proof (code_point_range c d Hc Hd). lia.
  - by destruct (code_point_inj c' d' c d) as [-> ->].
Qed.

(** What the encoder reads and writes, turn by turn. *)
Inductive encodes_to : list N → list N → Prop :=
  | enc_done : encodes_to [] []
  | enc_kept c l e : uri_unreserved c = true → encodes_to l e → encodes_to (c :: l) (c :: e)
  | enc_escape cs cp l e : reads cs cp → encodes_to l e →
      encodes_to (cs ++ l) (percent_utf8 cp ++ e).

Lemma encode_units_encodes l e : Forall is_unit l → encode_units l = Some e → encodes_to l e.
Proof.
  remember (length l) as n eqn:Hn. revert l e Hn.
  induction n as [n IH] using (well_founded_induction lt_wf). intros l e -> Hu.
  destruct l as [|c l]; cbn [encode_units]; [by intros [= <-]; constructor|].
  apply Forall_cons in Hu as [Hc Hu]. destruct (uri_unreserved c) eqn:Ec.
  { intros (e1 & He & ->)%fmap_Some. constructor; [done|]. eapply IH; [|done..]. simpl. lia. }
  destruct (low_surrogate c) eqn:El; [done|]. destruct (high_surrogate c) eqn:Eh.
  - destruct l as [|d l]; [done|]. destruct (low_surrogate d) eqn:Ed; [|done].
    apply Forall_cons in Hu as [_ Hu]. intros (e1 & He & ->)%fmap_Some.
    apply (enc_escape [c; d]); [by constructor|]. eapply IH; [|done..]. simpl. lia.
  - intros (e1 & He & ->)%fmap_Some. apply (enc_escape [c]); [by constructor|].
    eapply IH; [|done..]. simpl. lia.
Qed.

Lemma encodes_to_inj l k e : encodes_to l e → encodes_to k e → l = k.
Proof.
  intros Hl. revert k. induction Hl as [|c l e Hc Hl IH|cs cp l e Hr Hl IH]; intros k Hk.
  - inversion Hk as [| |cs cp l e Hr]; [done|].
    destruct (percent_utf8_head cp) as [? E]; [by eapply reads_range|]. by rewrite E in *.
  - inversion Hk as [|c' l' e' Hc' Hl'|cs cp l' e' Hr Hl' E1 E2]; subst; [f_equal; by apply IH|].
    destruct (percent_utf8_head cp) as [t E]; [by eapply reads_range|].
    rewrite E in E2. injection E2 as <- _. done.
  - pose proof (reads_range _ _ Hr) as Hcp. destruct (percent_utf8_head cp Hcp) as [t E].
    inversion Hk as [E1 E2|c' l' e' Hc' Hl' E1 E2|cs' cp' l' e' Hr' Hl' E1 E2]; subst.
    + by rewrite E in E2.
    + rewrite E in E2. by injection E2 as -> _.
    + apply percent_utf8_inj in E2 as [-> ->]; [|by eapply reads_range|done].
      rewrite (reads_inj _ _ _ Hr Hr'). f_equal. by apply IH.
Qed.

(** ** Segments *)

Lemma percent_utf8_no_slash cp : (cp < 1114112)%N → 47%N ∉ percent_utf8 cp.
Proof.
  intros Hcp (b & Hin & Hb)%list_elem_of_bind. unfold percent_byte in Hin.
  pose proof (utf8_bytes_range cp Hcp) as Hr. rewrite Forall_forall in Hr.
  specialize (Hr b ltac:(done)). simpl in Hr.
  assert (b / 16 < 16)%N by (apply N.Div0.div_lt_upper_bound; lia).
  pose proof (N.mod_upper_bound b 16). rewrite !elem_of_cons, elem_of_nil in Hin.
  destruct Hin as [?|[E|[E|[]]]]; [done|..]; symmetry in E; revert E; apply upper_hex_safe; lia.
Qed.
Lemma encodes_to_no_slash l e : encodes_to l e → 47%N ∉ e.
Proof.
  induction 1 as [|c l e Hc Hl IH|cs cp l e Hr Hl IH].
  - by intros ?%elem_of_nil.
  - intros [<-|?]%elem_of_cons; done.
  - intros [H|?]%elem_of_app; [|done]. revert H. eapply percent_utf8_no_slash, reads_range, Hr.
Qed.
Lemma slash_free_split (a b r r' : list N) :
  47%N ∉ a → 47%N ∉ b → (r = [] ∨ ∃ t, r = 47%N :: t) → (r' = [] ∨ ∃ t, r' = 47%N :: t) →
  a ++ r = b ++ r' → a = b ∧ r = r'.
Proof.
  intros Ha Hb Hr Hr'. revert b Hb. induction a as [|x a IH]; intros [|y b] Hb; simpl; intros E.
  - done.
  - destruct Hr as [->|[t ->]]; [done|]. injection E as <- _. destruct Hb. by left.
  - destruct Hr' as [->|[t ->]]; [done|]. injection E as -> _. destruct Ha. by left.
  - injection E as -> E. rewrite elem_of_cons in Ha, Hb.
    destruct (IH ltac:(tauto) b) as [-> ->]; [tauto|done|done].
Qed.

Definition segments_text (es : list (list N)) : list N := es ≫= cons 47%N.
Lemma segments_text_shape es : segments_text es = [] ∨ ∃ t, segments_text es = 47%N :: t.
Proof. destruct es as [|e es]; [by left|]. right. eexists. reflexivity. Qed.
Lemma segments_text_inj es es' :
  Forall (λ e, 47%N ∉ e) es → Forall (λ e, 47%N ∉ e) es' →
  segments_text es = segments_text es' → es = es'.
Proof.
  intros Hes. revert es'. induction Hes as [|e es He Hes IH]; intros [|e' es'] Hes' E; try done.
  apply Forall_cons in Hes' as [He' Hes']. cbn in E. injection E as E.
  apply slash_free_split in E as [-> E]; [|done|done|apply segments_text_shape..].
  f_equal. by apply IH.
Qed.

Lemma path_of_text page ss h : Forall js_units ss → path_of page ss = Some h →
  ∃ es, Forall2 (λ s e, encodes_to (units s) e) ss es ∧ units h = units page ++ segments_text es.
Proof.
  intros Hss. revert page. induction Hss as [|s ss Hs Hss IH]; intros page; cbn [path_of].
  - intros [= <-]. exists []. split; [constructor|]. by rewrite app_nil_r.
  - unfold encodeURIComponent. destruct (encode_units (units s)) as [e|] eqn:Ee; [|done]. cbn.
    intros (es & Hes & ->)%IH. exists (e :: es). split.
    + constructor; [by apply encode_units_encodes|done].
    + cbn. by rewrite <- !app_assoc.
Qed.
Lemma encodes_to_slash_free ss es :
  Forall2 (λ s e, encodes_to (units s) e) ss es → Forall (λ e, 47%N ∉ e) es.
Proof. induction 1; constructor; [by eapply encodes_to_no_slash|done]. Qed.

(** Two rows with the same link have the same values in it, however many
    segments the link has: no value can spill into its neighbour. *)
Theorem path_of_inj page ss ss' h :
  Forall js_units ss → Forall js_units ss' →
  path_of page ss = Some h → path_of page ss' = Some h → ss = ss'.
Proof.
  intros Hu Hu' (es & Hes & Eh)%path_of_text (es' & Hes' & Eh')%path_of_text; [|done..].
  rewrite Eh in Eh'. apply app_inv_head in Eh'.
  apply segments_text_inj in Eh'; [|by eapply encodes_to_slash_free..]. subst es'.
  clear Eh Hu Hu'. revert ss' Hes'. induction Hes as [|[s] e ss es Hs Hes IH];
    intros ss' Hes'; inversion Hes' as [|[s'] ? ss0 ? Hs' Hrest]; subst; [done|].
  f_equal; [|by apply IH]. f_equal. by eapply encodes_to_inj.
Qed.

(** Only a lone surrogate makes a link throw. *)
Definition no_surrogates (s : jstring) : Prop :=
  Forall (λ c, high_surrogate c = false ∧ low_surrogate c = false) (units s).
Lemma path_of_total page ss : Forall no_surrogates ss → is_Some (path_of page ss).
Proof.
  intros Hss. revert page. induction Hss as [|s ss Hs Hss IH]; intros page; cbn [path_of]; [done|].
  assert (is_Some (encode_units (units s))) as [e He].
  { induction Hs as [|c l [Hh Hl] Hs IHs]; cbn [encode_units]; [done|].
    rewrite Hh, Hl. destruct (uri_unreserved c); by apply fmap_is_Some. }
  unfold encodeURIComponent. rewrite He. cbn. apply IH.
Qed.
