(* ===== verification/Sha256.v ===== *)
(** * The digest of pending-apply.ts

    An apply whose answer was lost is stored under the SHA-256 of its request,
    computed in plain JavaScript. [sha256Hex] is that computation, with the
    language's 32-bit operators on signed and unsigned numbers and its typed
    arrays; the reference is FIPS 180-4, with the constants computed from the
    roots of the primes instead of copied. They are the same function. *)

From stdpp Require Import base list strings gmap.
From Stdlib Require Import ZArith NArith Lia Morphisms.
From S2P Require Import Prelude JsValue Uri.

Open Scope Z_scope.

(** ** Definitions *)

(** *** The 32-bit operators of the language

    Every value below is a whole number of magnitude under 2^53, which a
    double holds exactly, so it is a [Z] here. *)

Definition to_uint32 (z : Z) : Z := z mod 2 ^ 32.
Definition to_int32 (z : Z) : Z := (z + 2 ^ 31) mod 2 ^ 32 - 2 ^ 31.
(** [>>>], [>>], [<<], [|], [^], [&], [~] *)
Definition js_ushr (x n : Z) : Z := Z.shiftr (to_uint32 x) n.
Definition js_sar (x n : Z) : Z := Z.shiftr (to_int32 x) n.
Definition js_shl (x n : Z) : Z := to_int32 (Z.shiftl (to_int32 x) n).
Definition js_or (x y : Z) : Z := Z.lor (to_int32 x) (to_int32 y).
Definition js_xor (x y : Z) : Z := Z.lxor (to_int32 x) (to_int32 y).
Definition js_and (x y : Z) : Z := Z.land (to_int32 x) (to_int32 y).
Definition js_not (x : Z) : Z := Z.lnot (to_int32 x).

(** *** Buffers *)

(** [new TextEncoder().encode(s)]: UTF-8, a lone surrogate read as U+FFFD. *)
Fixpoint utf8_units (l : list N) : list Z :=
  match l with
  | [] => []
  | c :: l' =>
      if high_surrogate c then
        match l' with
        | d :: l'' =>
            if low_surrogate d then (Z.of_N <$> utf8_bytes (code_point c d)) ++ utf8_units l''
            else (Z.of_N <$> utf8_bytes 65533) ++ utf8_units l'
        | [] => Z.of_N <$> utf8_bytes 65533
        end
      else if low_surrogate c then (Z.of_N <$> utf8_bytes 65533) ++ utf8_units l'
      else (Z.of_N <$> utf8_bytes c) ++ utf8_units l'
  end.
Definition text_encode (s : jstring) : list Z := utf8_units (units s).

(** [buf.set(bytes, off)] *)
Definition buf_set (off : nat) (bytes buf : list Z) : list Z :=
  take off buf ++ bytes ++ drop (off + length bytes) buf.
Definition be32 (z : Z) : list Z :=
  [Z.shiftr (to_uint32 z) 24; Z.shiftr (to_uint32 z) 16 mod 256; Z.shiftr (to_uint32 z) 8 mod 256;
   to_uint32 z mod 256].
(** [view.setUint32(off, z)], [view.getUint32(off)]: big-endian. *)
Definition setUint32 (off : nat) (z : Z) (buf : list Z) : list Z := buf_set off (be32 z) buf.
Definition getUint32 (buf : list Z) (off : nat) : Z :=
  ((buf !!! off * 256 + buf !!! (off + 1)%nat) * 256 + buf !!! (off + 2)%nat) * 256 + buf !!! (off + 3)%nat.

(** *** The function *)

(** The rows of the table, as the source has them. *)
Definition K : list Z :=
  concat
    [[0x428a2f98; 0x71374491; 0xb5c0fbcf; 0xe9b5dba5; 0x3956c25b; 0x59f111f1];
     [0x923f82a4; 0xab1c5ed5; 0xd807aa98; 0x12835b01; 0x243185be; 0x550c7dc3];
     [0x72be5d74; 0x80deb1fe; 0x9bdc06a7; 0xc19bf174; 0xe49b69c1; 0xefbe4786];
     [0x0fc19dc6; 0x240ca1cc; 0x2de92c6f; 0x4a7484aa; 0x5cb0a9dc; 0x76f988da];
     [0x983e5152; 0xa831c66d; 0xb00327c8; 0xbf597fc7; 0xc6e00bf3; 0xd5a79147];
     [0x06ca6351; 0x14292967; 0x27b70a85; 0x2e1b2138; 0x4d2c6dfc; 0x53380d13];
     [0x650a7354; 0x766a0abb; 0x81c2c92e; 0x92722c85; 0xa2bfe8a1; 0xa81a664b];
     [0xc24b8b70; 0xc76c51a3; 0xd192e819; 0xd6990624; 0xf40e3585; 0x106aa070];
     [0x19a4c116; 0x1e376c08; 0x2748774c; 0x34b0bcb5; 0x391c0cb3; 0x4ed8aa4a];
     [0x5b9cca4f; 0x682e6ff3; 0x748f82ee; 0x78a5636f; 0x84c87814; 0x8cc70208];
     [0x90befffa; 0xa4506ceb; 0xbef9a3f7; 0xc67178f2]].

Definition rotr (x n : Z) : Z := js_or (js_ushr x n) (js_shl x (32 - n)).

(** [padded], filled in. *)
Definition padded_bytes (msg : list Z) : list Z :=
  let len := Z.of_nat (length msg) in
  let size := Z.to_nat (js_shl (js_sar (len + 9 + 63) 6) 6) in
  let padded := buf_set 0 msg (replicate size 0) in
  let padded := buf_set (length msg) [0x80] padded in
  let padded := setUint32 (size - 8) (len * 8 / 0x100000000) padded in
  setUint32 (size - 4) (js_ushr (len * 8) 0) padded.

(** The variables [a] to [hh], and the eight words of [h]. *)
Record Eight := { va : Z; vb : Z; vc : Z; vd : Z; ve : Z; vf : Z; vg : Z; vh : Z }.

Definition initial_h : Eight :=
  {| va := 0x6a09e667; vb := 0xbb67ae85; vc := 0x3c6ef372; vd := 0xa54ff53a; ve := 0x510e527f;
     vf := 0x9b05688c; vg := 0x1f83d9ab; vh := 0x5be0cd19 |}.

(** The two loops that fill [w], which keeps its storage between blocks. *)
Definition load_word (padded : list Z) (off : nat) (w : list Z) (i : nat) : list Z :=
  <[i := to_uint32 (getUint32 padded (off + i * 4))]> w.
Definition extend_word (w : list Z) (i : nat) : list Z :=
  let x15 := w !!! (i - 15)%nat in
  let x2 := w !!! (i - 2)%nat in
  let s0 := js_xor (js_xor (rotr x15 7) (rotr x15 18)) (js_ushr x15 3) in
  let s1 := js_xor (js_xor (rotr x2 17) (rotr x2 19)) (js_ushr x2 10) in
  <[i := to_uint32 (w !!! (i - 16)%nat + s0 + w !!! (i - 7)%nat + s1)]> w.
Definition fill_w (padded : list Z) (off : nat) (w : list Z) : list Z :=
  foldl extend_word (foldl (load_word padded off) w (seq 0 16)) (seq 16 48).

(** One turn of the 64 rounds. *)
Definition round (w : list Z) (s : Eight) (i : nat) : Eight :=
  let t1 := vh s + js_xor (js_xor (rotr (ve s) 6) (rotr (ve s) 11)) (rotr (ve s) 25)
    + js_xor (js_and (ve s) (vf s)) (js_and (js_not (ve s)) (vg s)) + K !!! i + w !!! i in
  let t2 := js_xor (js_xor (rotr (va s) 2) (rotr (va s) 13)) (rotr (va s) 22)
    + js_xor (js_xor (js_and (va s) (vb s)) (js_and (va s) (vc s))) (js_and (vb s) (vc s)) in
  {| vh := vg s; vg := vf s; vf := ve s; ve := js_ushr (vd s + t1) 0; vd := vc s; vc := vb s;
     vb := va s; va := js_ushr (t1 + t2) 0 |}.
Definition add_eight (h s : Eight) : Eight :=
  {| va := to_uint32 (va h + va s); vb := to_uint32 (vb h + vb s); vc := to_uint32 (vc h + vc s);
     vd := to_uint32 (vd h + vd s); ve := to_uint32 (ve h + ve s); vf := to_uint32 (vf h + vf s);
     vg := to_uint32 (vg h + vg s); vh := to_uint32 (vh h + vh s) |}.
(** One turn of the loop over [off]. *)
Definition block_step (padded : list Z) (st : list Z * Eight) (b : nat) : list Z * Eight :=
  let w := fill_w padded (b * 64) st.1 in
  (w, add_eight st.2 (foldl (round w) st.2 (seq 0 64))).

Definition eight_list (s : Eight) : list Z := [va s; vb s; vc s; vd s; ve s; vf s; vg s; vh s].
(** [x.toString(16).padStart(8, "0")] of a word: its eight digits. *)
Definition hex_char (d : Z) : N := Z.to_N (if d <? 10 then 48 + d else 87 + d).
Definition hex8 (x : Z) : list N := (λ k, hex_char (Z.shiftr x (4 * k) mod 16)) <$> [7; 6; 5; 4; 3; 2; 1; 0].

Definition sha256_words (msg : list Z) : Eight :=
  let padded := padded_bytes msg in
  (foldl (block_step padded) (replicate 64 0, initial_h) (seq 0 (length padded / 64))).2.
Definition sha256Hex (input : jstring) : jstring :=
  JS (eight_list (sha256_words (text_encode input)) ≫= hex8).

(** ** FIPS 180-4 *)

Module Fips.
(** 2.2.2, words of 32 bits *)
Definition add (x y : Z) : Z := (x + y) mod 2 ^ 32.
Definition SHR (n x : Z) : Z := Z.shiftr x n.
Definition ROTR (n x : Z) : Z := Z.lor (Z.shiftr x n) (Z.shiftl x (32 - n) mod 2 ^ 32).
Definition NOT (x : Z) : Z := 2 ^ 32 - 1 - x.
(** 4.1.2 *)
Definition Ch (x y z : Z) : Z := Z.lxor (Z.land x y) (Z.land (NOT x) z).
Definition Maj (x y z : Z) : Z := Z.lxor (Z.lxor (Z.land x y) (Z.land x z)) (Z.land y z).
Definition Sigma0 (x : Z) : Z := Z.lxor (Z.lxor (ROTR 2 x) (ROTR 13 x)) (ROTR 22 x).
Definition Sigma1 (x : Z) : Z := Z.lxor (Z.lxor (ROTR 6 x) (ROTR 11 x)) (ROTR 25 x).
Definition sigma0 (x : Z) : Z := Z.lxor (Z.lxor (ROTR 7 x) (ROTR 18 x)) (SHR 3 x).
Definition sigma1 (x : Z) : Z := Z.lxor (Z.lxor (ROTR 17 x) (ROTR 19 x)) (SHR 10 x).
(** 4.2.2 and 5.3.3: the first 32 bits of the fractional parts of the cube
    roots of the first 64 primes, and of the square roots of the first 8. *)
Definition is_prime (n : nat) : bool :=
  forallb (λ d, negb (n mod d =? 0)%nat) (seq 2 (n - 2)).
Definition primes : list Z := Z.of_nat <$> filter (λ n, is_prime n = true) (seq 2 310).
Fixpoint cube_root_bits (bits : nat) (n r : Z) : Z :=
  match bits with
  | O => r
  | S k => let c := r + 2 ^ Z.of_nat k in cube_root_bits k n (if c * c * c <=? n then c else r)
  end.
Definition constants : list Z := (λ p, cube_root_bits 36 (p * 2 ^ 96) 0 mod 2 ^ 32) <$> take 64 primes.
Definition initial : list Z := (λ p, Z.sqrt (p * 2 ^ 64) mod 2 ^ 32) <$> take 8 primes.
(** 5.1.1: a one bit, zeros up to 448 bits modulo 512, the length in 64 bits *)
Definition be64 (z : Z) : list Z := (λ k, Z.shiftr z (8 * k) mod 256) <$> [7; 6; 5; 4; 3; 2; 1; 0].
Definition pad (msg : list Z) : list Z :=
  let l := Z.of_nat (length msg) in
  msg ++ [128] ++ replicate (Z.to_nat ((55 - l) mod 64)) 0 ++ be64 (8 * l).
(** 5.2.1 *)
Fixpoint words (bytes : list Z) : list Z :=
  match bytes with
  | a :: b :: c :: d :: rest => (((a * 256 + b) * 256 + c) * 256 + d) :: words rest
  | _ => []
  end.
(** 6.2.2, step 1 *)
Definition schedule_step (W : list Z) (_ : nat) : list Z :=
  let t := length W in
  W ++ [add (add (add (sigma1 (W !!! (t - 2)%nat)) (W !!! (t - 7)%nat)) (sigma0 (W !!! (t - 15)%nat)))
            (W !!! (t - 16)%nat)].
Definition schedule (block : list Z) : list Z := foldl schedule_step block (seq 0 48).
(** step 3 *)
Definition round (W : list Z) (s : Eight) (t : nat) : Eight :=
  let T1 := add (add (add (add (vh s) (Sigma1 (ve s))) (Ch (ve s) (vf s) (vg s))) (constants !!! t)) (W !!! t) in
  let T2 := add (Sigma0 (va s)) (Maj (va s) (vb s) (vc s)) in
  {| vh := vg s; vg := vf s; vf := ve s; ve := add (vd s) T1; vd := vc s; vc := vb s; vb := va s;
     va := add T1 T2 |}.
(** steps 2 to 4 *)
Definition compress (H : Eight) (block : list Z) : Eight :=
  let s := foldl (round (schedule block)) H (seq 0 64) in
  {| va := add (va s) (va H); vb := add (vb s) (vb H); vc := add (vc s) (vc H); vd := add (vd s) (vd H);
     ve := add (ve s) (ve H); vf := add (vf s) (vf H); vg := add (vg s) (vg H); vh := add (vh s) (vh H) |}.
Fixpoint blocks (n : nat) (ws : list Z) : list (list Z) :=
  match n with O => [] | S k => take 16 ws :: blocks k (drop 16 ws) end.
Definition of_list (l : list Z) : Eight :=
  {| va := l !!! 0%nat; vb := l !!! 1%nat; vc := l !!! 2%nat; vd := l !!! 3%nat; ve := l !!! 4%nat;
     vf := l !!! 5%nat; vg := l !!! 6%nat; vh := l !!! 7%nat |}.
Definition SHA256 (msg : list Z) : Eight :=
  let M := words (pad msg) in
  foldl compress (of_list initial) (blocks (length M / 16) M).
(** The 256 bits, four at a time. *)
Definition nibbles (x : Z) : list Z := (λ k, Z.shiftr x (4 * k) mod 16) <$> [7; 6; 5; 4; 3; 2; 1; 0].
Definition digest (msg : list Z) : list Z := eight_list (SHA256 msg) ≫= nibbles.
End Fips.

Lemma K_from_roots : K = Fips.constants.
Proof. vm_compute. reflexivity. Qed.
Lemma h_from_roots : initial_h = Fips.of_list Fips.initial.
Proof. vm_compute. reflexivity. Qed.
Example sha_abc : sha256Hex "abc"%js = "ba7816bf8f01cfea414140de5dae2223b00361a396177a9cb410ff61f20015ad"%js.
Proof. vm_compute. reflexivity. Qed.

(** ** The operators, modulo 2^32 *)

Definition word (z : Z) : Prop := 0 <= z < 2 ^ 32.
Lemma to_uint32_word z : word (to_uint32 z).
Proof. apply Z.mod_pos_bound. done. Qed.
Lemma to_uint32_id z : word z → to_uint32 z = z.
Proof. apply Z.mod_small. Qed.
Lemma to_uint32_ones z : to_uint32 z = Z.land z (Z.ones 32).
Proof. by rewrite Z.land_ones. Qed.
Lemma to_uint32_int32 z : to_uint32 (to_int32 z) = to_uint32 z.
Proof. unfold to_uint32, to_int32. rewrite Zminus_mod_idemp_l. f_equal. lia. Qed.

(** Values that agree in their low 32 bits. *)
Definition cong (x y : Z) : Prop := to_uint32 x = to_uint32 y.
#[local] Infix "≈" := cong (at level 70).
#[export] Instance cong_equiv : Equivalence cong.
Proof. split; unfold cong; congruence. Qed.
#[export] Instance cong_add : Proper (cong ==> cong ==> cong) Z.add.
Proof.
  intros x x' Hx y y' Hy. unfold cong, to_uint32 in *.
  by rewrite Zplus_mod, Hx, Hy, <- Zplus_mod.
Qed.
#[export] Instance to_uint32_proper : Proper (cong ==> eq) to_uint32.
Proof. by intros x y H. Qed.
#[export] Instance to_int32_proper : Proper (cong ==> eq) to_int32.
Proof.
  intros x y H. unfold to_int32. f_equal. unfold cong, to_uint32 in H.
  by rewrite Zplus_mod, H, <- Zplus_mod.
Qed.
Lemma cong_uint32 x : to_uint32 x ≈ x.
Proof. apply to_uint32_id, to_uint32_word. Qed.
Lemma cong_int32 x : to_int32 x ≈ x.
Proof. apply to_uint32_int32. Qed.

(** An operator that works bit by bit respects it. *)
Lemma bitwise_proper (op : Z → Z → Z) (f : bool → bool → bool) :
  (∀ x y n, Z.testbit (op x y) n = f (Z.testbit x n) (Z.testbit y n)) → Proper (cong ==> cong ==> cong) op.
Proof.
  intros Hop x x' Hx y y' Hy. unfold cong in *. rewrite !to_uint32_ones in *.
  apply Z.bits_inj'. intros n Hn. apply (f_equal (λ z, Z.testbit z n)) in Hx, Hy.
  rewrite !Z.land_spec in *. rewrite !Hop.
  destruct (Z.testbit (Z.ones 32) n); [|by rewrite !andb_false_r].
  rewrite !andb_true_r in *. congruence.
Qed.
#[export] Instance lxor_proper : Proper (cong ==> cong ==> cong) Z.lxor.
Proof. apply (bitwise_proper _ xorb), Z.lxor_spec. Qed.
#[export] Instance land_proper : Proper (cong ==> cong ==> cong) Z.land.
Proof. apply (bitwise_proper _ andb), Z.land_spec. Qed.
#[export] Instance lor_proper : Proper (cong ==> cong ==> cong) Z.lor.
Proof. apply (bitwise_proper _ orb), Z.lor_spec. Qed.
#[export] Instance mul_proper : Proper (cong ==> cong ==> cong) Z.mul.
Proof.
  intros x x' Hx y y' Hy. unfold cong, to_uint32 in *. by rewrite Zmult_mod, Hx, Hy, <- Zmult_mod.
Qed.
#[export] Instance opp_proper : Proper (cong ==> cong) Z.opp.
Proof. intros x y H. replace (- x) with (-1 * x) by lia. replace (- y) with (-1 * y) by lia. by rewrite H. Qed.

Lemma js_xor_cong x y : js_xor x y ≈ Z.lxor x y.
Proof. unfold js_xor. by rewrite !cong_int32. Qed.
Lemma js_and_cong x y : js_and x y ≈ Z.land x y.
Proof. unfold js_and. by rewrite !cong_int32. Qed.
Lemma js_not_cong x : js_not x ≈ Fips.NOT x.
Proof.
  unfold js_not, Fips.NOT, Z.lnot. rewrite <- Z.sub_1_r. unfold Z.sub. rewrite cong_int32.
  transitivity (2 ^ 32 + (- x + - (1))); [|by replace (2 ^ 32 + - (1) + - x) with (2 ^ 32 + (- x + - (1))) by lia].
  unfold cong, to_uint32. rewrite <- (Z_mod_plus_full (- x + - (1)) 1 (2 ^ 32)). f_equal. lia.
Qed.
Lemma js_ushr_word x n : word x → js_ushr x n = Z.shiftr x n.
Proof. intros Hx. unfold js_ushr. by rewrite to_uint32_id. Qed.
Lemma rotr_cong x n : word x → 0 <= n <= 32 → rotr x n ≈ Fips.ROTR n x.
Proof.
  intros Hx Hn. unfold rotr, Fips.ROTR, js_or, js_shl. rewrite js_ushr_word by done. rewrite !cong_int32.
  rewrite !Z.shiftl_mul_pow2 by lia. rewrite cong_int32.
  change ((x * 2 ^ (32 - n)) mod 2 ^ 32) with (to_uint32 (x * 2 ^ (32 - n))). by rewrite cong_uint32.
Qed.
Lemma add_cong x y : Fips.add x y ≈ x + y.
Proof. apply cong_uint32. Qed.
Lemma js_ushr_0 x : js_ushr x 0 = to_uint32 x.
Proof. apply Z.shiftr_0_r. Qed.

Create HintDb word.
#[export] Hint Resolve to_uint32_word : word.

(** *** The functions of the rounds *)

Lemma Ch_cong x y z : js_xor (js_and x y) (js_and (js_not x) z) ≈ Fips.Ch x y z.
Proof. unfold Fips.Ch. by rewrite js_xor_cong, !js_and_cong, js_not_cong. Qed.
Lemma Maj_cong x y z : js_xor (js_xor (js_and x y) (js_and x z)) (js_and y z) ≈ Fips.Maj x y z.
Proof. unfold Fips.Maj. by rewrite !js_xor_cong, !js_and_cong. Qed.
Lemma rotr3_cong x a b c : word x → 0 <= a <= 32 → 0 <= b <= 32 → 0 <= c <= 32 →
  js_xor (js_xor (rotr x a) (rotr x b)) (rotr x c) ≈
  Z.lxor (Z.lxor (Fips.ROTR a x) (Fips.ROTR b x)) (Fips.ROTR c x).
Proof. intros. by rewrite !js_xor_cong, !rotr_cong. Qed.
Lemma rotr2_cong x a b c : word x → 0 <= a <= 32 → 0 <= b <= 32 →
  js_xor (js_xor (rotr x a) (rotr x b)) (js_ushr x c) ≈
  Z.lxor (Z.lxor (Fips.ROTR a x) (Fips.ROTR b x)) (Fips.SHR c x).
Proof. intros. by rewrite !js_xor_cong, !rotr_cong, js_ushr_word. Qed.

Definition words8 (s : Eight) : Prop := Forall word (eight_list s).
Lemma words8_elim s : words8 s →
  word (va s) ∧ word (vb s) ∧ word (vc s) ∧ word (vd s) ∧ word (ve s) ∧ word (vf s) ∧ word (vg s) ∧ word (vh s).
Proof. unfold words8, eight_list. rewrite !Forall_cons. tauto. Qed.

Lemma uint32_add x a b : x ≈ a + b → to_uint32 x = Fips.add a b.
Proof. done. Qed.
Lemma round_eq w W s i : words8 s → w !!! i = W !!! i → round w s i = Fips.round W s i ∧ words8 (round w s i).
Proof.
  intros Hs HW. pose proof (words8_elim s Hs) as (Ha & Hb & Hc & Hd & He & Hf & Hg & Hh).
  unfold round, Fips.round. rewrite HW, <- K_from_roots.
  pose proof (rotr3_cong (ve s) 6 11 25 He ltac:(lia) ltac:(lia) ltac:(lia)) as E1.
  pose proof (rotr3_cong (va s) 2 13 22 Ha ltac:(lia) ltac:(lia) ltac:(lia)) as E2.
  split.
  - rewrite !js_ushr_0. f_equal; apply uint32_add;
      rewrite ?E1, ?E2, ?Ch_cong, ?Maj_cong, ?add_cong; done.
  - unfold words8, eight_list. cbn [va vb vc vd ve vf vg vh]. rewrite !js_ushr_0, !Forall_cons, Forall_nil.
    split_and!; try done; apply to_uint32_word.
Qed.
Lemma rounds_eq w W s l : words8 s → (∀ i, i ∈ l → w !!! i = W !!! i) →
  foldl (round w) s l = foldl (Fips.round W) s l ∧ words8 (foldl (round w) s l).
Proof.
  revert s. induction l as [|i l IH]; intros s Hs HW; [done|]. cbn [foldl].
  destruct (round_eq w W s i Hs) as [<- Hs']; [apply HW; by left|].
  apply IH; [done|]. intros. apply HW. by right.
Qed.

(** *** The schedule *)

Lemma take_insert_snoc {A} (w : list A) i x : (i < length w)%nat → take (S i) (<[i := x]> w) = take i w ++ [x].
Proof.
  intros Hi. rewrite (take_S_r _ _ x) by (by apply list_lookup_insert_eq). f_equal.
  by rewrite take_insert_ge.
Qed.
Lemma fill_prefix {A} (f : nat → A) (w : list A) n : (n ≤ length w)%nat →
  take n (foldl (λ w i, <[i := f i]> w) w (seq 0 n)) = f <$> seq 0 n ∧
  length (foldl (λ w i, <[i := f i]> w) w (seq 0 n)) = length w.
Proof.
  induction n as [|n IH]; intros Hn; [done|]. rewrite seq_S, foldl_app, fmap_app. cbn [foldl fmap list_fmap Nat.add].
  destruct IH as [E L]; [lia|]. split; [|by rewrite length_insert].
  by rewrite take_insert_snoc, E by lia.
Qed.
Lemma Forall_at (P : Z → Prop) l i : Forall P l → (i < length l)%nat → P (l !!! i).
Proof. intros H Hi. by apply (proj1 (Forall_lookup_total (A:=Z) P l) H). Qed.
Lemma lookup_total_prefix (w : list Z) n i : (i < n)%nat → take n w !!! i = w !!! i.
Proof. intros. by rewrite !list_lookup_total_alt, lookup_take_lt. Qed.

Lemma schedule_word_eq w W t : (16 ≤ t < length w)%nat → take t w = W → Forall word W →
  take (S t) (extend_word w t) = Fips.schedule_step W 0 ∧
  Forall word (Fips.schedule_step W 0).
Proof.
  intros Ht HW Hw. assert (length W = t) as Hl by (rewrite <- HW, length_take; lia).
  assert (Hat : ∀ k, (0 < k ≤ 16)%nat → w !!! (t - k)%nat = W !!! (t - k)%nat ∧ word (w !!! (t - k)%nat)).
  { intros k Hk. rewrite <- HW, lookup_total_prefix by lia. split; [done|].
    rewrite <- (lookup_total_prefix w t), HW by lia. apply Forall_at; [done|lia]. }
  unfold extend_word, Fips.schedule_step. rewrite Hl, take_insert_snoc, HW by lia.
  split; [|apply Forall_app; split; [done|]; apply Forall_singleton, to_uint32_word].
  destruct (Hat 15%nat ltac:(lia)) as [E15 W15]. destruct (Hat 2%nat ltac:(lia)) as [E2 W2].
  destruct (Hat 16%nat ltac:(lia)) as [E16 _]. destruct (Hat 7%nat ltac:(lia)) as [E7 _].
  do 2 f_equal. apply uint32_add.
  pose proof (rotr2_cong (w !!! (t - 15)%nat) 7 18 3 W15 ltac:(lia) ltac:(lia)) as S0.
  pose proof (rotr2_cong (w !!! (t - 2)%nat) 17 19 10 W2 ltac:(lia) ltac:(lia)) as S1.
  rewrite S0, S1, !add_cong, <- E15, <- E2, <- E16, <- E7. unfold Fips.sigma0, Fips.sigma1.
  match goal with |- ?x ≈ ?y => replace x with y by lia end. done.
Qed.

Lemma schedule_eq w B : length w = 64%nat → take 16 w = B → Forall word B →
  foldl extend_word w (seq 16 48) = Fips.schedule B ∧ Forall word (Fips.schedule B).
Proof.
  intros Hl HB Hw. unfold Fips.schedule.
  assert (H : ∀ n, (n ≤ 48)%nat →
    length (foldl extend_word w (seq 16 n)) = 64%nat ∧
    take (16 + n) (foldl extend_word w (seq 16 n)) = foldl Fips.schedule_step B (seq 0 n) ∧
    Forall word (foldl Fips.schedule_step B (seq 0 n))).
  { induction n as [|n IH]; intros Hn; [done|]. destruct IH as (L & E & F); [lia|].
    rewrite !seq_S, !foldl_app. cbn [foldl]. split; [unfold extend_word; by rewrite length_insert|].
    rewrite Nat.add_succ_r. apply schedule_word_eq; [lia|done|done]. }
  destruct (H 48%nat ltac:(lia)) as (L & E & F). split; [|done].
  rewrite <- E. by rewrite take_ge by (rewrite L; done).
Qed.

(** *** The blocks *)

Definition byte (z : Z) : Prop := 0 <= z < 256.
Lemma getUint32_word buf off : Forall byte buf → (off + 3 < length buf)%nat → word (getUint32 buf off).
Proof.
  intros Hb Hl. unfold getUint32, word.
  pose proof (Forall_at _ _ off Hb ltac:(lia)). pose proof (Forall_at _ _ (off + 1) Hb ltac:(lia)).
  pose proof (Forall_at _ _ (off + 2) Hb ltac:(lia)). pose proof (Forall_at _ _ (off + 3) Hb ltac:(lia)).
  unfold byte in *. lia.
Qed.
Lemma words_get n bytes : length bytes = (4 * n)%nat →
  Fips.words bytes = (λ j, getUint32 bytes (4 * j)) <$> seq 0 n.
Proof.
  revert bytes. induction n as [|n IH]; intros bytes Hl; [by destruct bytes|].
  destruct bytes as [|a [|b [|c [|d rest]]]]; simpl in Hl; try lia.
  cbn [Fips.words seq fmap list_fmap]. f_equal. rewrite <- fmap_S_seq, <- list_fmap_compose, IH by lia.
  apply list_fmap_ext. intros ? j _. unfold compose.
  replace (4 * S j)%nat with (S (S (S (S (4 * j))))) by lia. done.
Qed.
Lemma blocks_slices n ws : Fips.blocks n ws = (λ b, take 16 (drop (b * 16) ws)) <$> seq 0 n.
Proof.
  revert ws. induction n as [|n IH]; intros ws; [done|]. cbn [Fips.blocks seq fmap list_fmap].
  f_equal. rewrite <- fmap_S_seq, <- list_fmap_compose, IH. apply list_fmap_ext. intros ? b _. unfold compose.
  by rewrite drop_drop.
Qed.
Lemma block_words padded n b : length padded = (64 * n)%nat → (b < n)%nat →
  (λ i, getUint32 padded (b * 64 + i * 4)) <$> seq 0 16 = take 16 (drop (b * 16) (Fips.words padded)).
Proof.
  intros Hl Hb. rewrite (words_get (16 * n)) by lia. rewrite <- fmap_drop, <- fmap_take.
  rewrite drop_seq, take_seq. replace (16 `min` (16 * n - b * 16))%nat with 16%nat by lia.
  rewrite <- (Nat.add_0_r (0 + b * 16)).
  rewrite <- (fmap_add_seq (0 + b * 16) 0), <- list_fmap_compose. apply list_fmap_ext.
  intros ? i _. unfold compose. f_equal. lia.
Qed.
Lemma length_schedule B : length (Fips.schedule B) = (length B + 48)%nat.
Proof.
  unfold Fips.schedule. assert (∀ n, length (foldl Fips.schedule_step B (seq 0 n)) = (length B + n)%nat) as H; [|apply H].
  induction n as [|n IH]; [cbn; lia|]. rewrite seq_S, foldl_app. cbn [foldl]. unfold Fips.schedule_step at 1.
  rewrite length_app, IH. cbn. lia.
Qed.
Lemma fill_w_eq padded n b w : length padded = (64 * n)%nat → Forall byte padded → (b < n)%nat →
  length w = 64%nat →
  fill_w padded (b * 64) w = Fips.schedule (take 16 (drop (b * 16) (Fips.words padded))).
Proof.
  intros Hl Hb Hn Hw. unfold fill_w. rewrite <- (block_words padded n b) by done.
  destruct (fill_prefix (λ i, to_uint32 (getUint32 padded (b * 64 + i * 4))) w 16 ltac:(lia)) as [E L].
  assert (Hg : ∀ i, i ∈ seq 0 16 → word (getUint32 padded (b * 64 + i * 4))).
  { intros i Hi%elem_of_seq. apply getUint32_word; [done|lia]. }
  apply schedule_eq; [etrans; [exact L|done]|etrans; [exact E|]|].
  - apply list_fmap_ext. intros ? i Hi. apply to_uint32_id, Hg. by eapply list_elem_of_lookup_2.
  - apply Forall_fmap, Forall_forall. apply Hg.
Qed.
Definition fips_sum (s H : Eight) : Eight :=
  {| va := Fips.add (va s) (va H); vb := Fips.add (vb s) (vb H); vc := Fips.add (vc s) (vc H);
     vd := Fips.add (vd s) (vd H); ve := Fips.add (ve s) (ve H); vf := Fips.add (vf s) (vf H);
     vg := Fips.add (vg s) (vg H); vh := Fips.add (vh s) (vh H) |}.
Lemma add_eight_eq h s : add_eight h s = fips_sum s h.
Proof. unfold add_eight, fips_sum. f_equal; apply uint32_add; by rewrite Z.add_comm. Qed.
Lemma words8_sum s H : words8 (fips_sum s H).
Proof.
  unfold words8, eight_list. cbn [fips_sum va vb vc vd ve vf vg vh]. rewrite !Forall_cons, Forall_nil.
  split_and!; try done; apply to_uint32_word.
Qed.
Lemma block_step_eq padded n b st : length padded = (64 * n)%nat → Forall byte padded → (b < n)%nat →
  length st.1 = 64%nat → words8 st.2 →
  let B := take 16 (drop (b * 16) (Fips.words padded)) in
  block_step padded st b = (Fips.schedule B, Fips.compress st.2 B) ∧
  length (Fips.schedule B) = 64%nat ∧ words8 (Fips.compress st.2 B).
Proof.
  intros Hl Hb Hn Hw Hs B. unfold block_step. rewrite (fill_w_eq padded n b) by done. fold B.
  assert (HL : length (Fips.schedule B) = 64%nat).
  { rewrite length_schedule. subst B. rewrite length_take, length_drop, (words_get (16 * n)) by lia.
    rewrite length_fmap, length_seq. lia. }
  unfold Fips.compress. generalize (Fips.schedule B) HL. clear B HL. intros W HL.
  pose proof (rounds_eq W W st.2 (seq 0 64) Hs (λ _ _, eq_refl)) as [E _]. rewrite <- E.
  generalize (foldl (round W) st.2 (seq 0 64)). intros r. split_and!; [|done|apply words8_sum].
  f_equal. apply add_eight_eq.
Qed.
Lemma blocks_eq padded n l st : length padded = (64 * n)%nat → Forall byte padded → Forall (λ b, b < n)%nat l →
  length st.1 = 64%nat → words8 st.2 →
  (foldl (block_step padded) st l).2 =
  foldl Fips.compress st.2 ((λ b, take 16 (drop (b * 16) (Fips.words padded))) <$> l).
Proof.
  intros Hl Hb. revert st. induction l as [|b l IH]; intros st Hn Hw Hs; [done|].
  apply Forall_cons in Hn as [Hbn Hn]. cbn [foldl fmap list_fmap].
  destruct (block_step_eq padded n b st Hl Hb Hbn Hw Hs) as (E & L & S). rewrite E. by rewrite IH.
Qed.

(** *** The padding *)

Lemma be32_bytes z : Forall byte (be32 z).
Proof.
  unfold be32, byte. pose proof (to_uint32_word z) as H. unfold word in H.
  rewrite !Forall_cons, Forall_nil, Z.shiftr_div_pow2 by lia.
  split_and!; try done; try (apply Z.mod_pos_bound; lia).
  - apply Z.div_pos; lia.
  - apply Z.div_lt_upper_bound; lia.
Qed.
Lemma be32_uniform z : be32 z = (λ k, Z.shiftr (to_uint32 z) (8 * k) mod 256) <$> [3; 2; 1; 0].
Proof.
  unfold be32. cbn [fmap list_fmap]. f_equal. symmetry. apply Z.mod_small.
  pose proof (be32_bytes z) as H. unfold be32 in H. by apply Forall_cons in H as [H _].
Qed.
(** A byte of the low word, and of the high one. *)
Lemma low_byte z k : 0 <= k <= 3 → Z.shiftr (to_uint32 z) (8 * k) mod 256 = Z.shiftr z (8 * k) mod 256.
Proof.
  intros Hk. change 256 with (2 ^ 8). unfold to_uint32. apply Z.bits_inj'. intros n Hn.
  destruct (Z.lt_ge_cases n 8).
  - rewrite !Z.mod_pow2_bits_low, !Z.shiftr_spec, Z.mod_pow2_bits_low by lia. done.
  - by rewrite !Z.mod_pow2_bits_high by lia.
Qed.
Lemma high_byte z k : 0 <= k → Z.shiftr (z / 2 ^ 32) (8 * k) = Z.shiftr z (8 * (k + 4)).
Proof. intros. rewrite <- Z.shiftr_div_pow2, Z.shiftr_shiftr by lia. f_equal. lia. Qed.
Lemma be64_halves l : 0 <= l < 2 ^ 60 →
  be32 (l * 8 / 0x100000000) ++ be32 (js_ushr (l * 8) 0) = Fips.be64 (8 * l).
Proof.
  intros Hl. rewrite !be32_uniform, js_ushr_0. change 0x100000000 with (2 ^ 32). rewrite (Z.mul_comm l 8).
  assert (word (8 * l / 2 ^ 32)) as Hw.
  { split; [apply Z.div_pos; lia|]. apply Z.div_lt_upper_bound; lia. }
  rewrite (to_uint32_id _ Hw), (to_uint32_id (to_uint32 _)) by apply to_uint32_word.
  unfold Fips.be64. cbn [fmap list_fmap app]. rewrite !high_byte by lia. rewrite !low_byte by lia. done.
Qed.

Lemma buf_set_middle (a b c bytes : list Z) : length b = length bytes →
  buf_set (length a) bytes (a ++ b ++ c) = a ++ bytes ++ c.
Proof.
  intros Hl. unfold buf_set. rewrite take_app_length. do 2 f_equal.
  rewrite <- Hl, <- length_app, app_assoc. apply drop_app_length.
Qed.
Lemma buf_set_front (b c bytes : list Z) : length b = length bytes → buf_set 0 bytes (b ++ c) = bytes ++ c.
Proof. exact (buf_set_middle [] b c bytes). Qed.

(** How many bytes the buffer has, and how many of them are zeros. *)
Lemma padded_size l : 0 <= l < 2 ^ 31 - 72 →
  js_shl (js_sar (l + 9 + 63) 6) 6 = l + 1 + (55 - l) mod 64 + 8 ∧
  (l + 1 + (55 - l) mod 64 + 8) mod 64 = 0.
Proof.
  intros Hl. assert (Hid : ∀ z, 0 <= z < 2 ^ 31 → to_int32 z = z).
  { intros z Hz. unfold to_int32. rewrite Z.mod_small; lia. }
  replace (l + 9 + 63) with (l + 72) by lia.
  unfold js_shl, js_sar. rewrite (Hid (l + 72)) by lia. rewrite Z.shiftr_div_pow2 by lia.
  change (2 ^ 6) with 64. assert (0 <= (l + 72) / 64) by (apply Z.div_pos; lia).
  pose proof (Z.div_mod (l + 72) 64 ltac:(lia)). pose proof (Z.mod_pos_bound (l + 72) 64 ltac:(lia)).
  rewrite (Hid ((l + 72) / 64)), Z.shiftl_mul_pow2, (Hid ((l + 72) / 64 * 2 ^ 6)) by lia.
  assert (E : (55 - l) mod 64 = 63 - (l + 72) mod 64).
  { symmetry. apply (Z.mod_unique_pos _ _ (- ((l + 72) / 64) + 1)); lia. }
  rewrite E. split; [lia|]. apply Z.mod_divide; [lia|]. exists ((l + 72) / 64). lia.
Qed.
Lemma padding_eq msg : Z.of_nat (length msg) < 2 ^ 31 - 72 → padded_bytes msg = Fips.pad msg.
Proof.
  intros Hl. unfold padded_bytes, Fips.pad. set (l := Z.of_nat (length msg)) in *.
  destruct (padded_size l ltac:(lia)) as [E _]. rewrite E. set (k := Z.to_nat ((55 - l) mod 64)).
  pose proof (Z.mod_pos_bound (55 - l) 64 ltac:(lia)).
  assert (Hk : (55 - l) mod 64 = Z.of_nat k) by lia. rewrite Hk.
  replace (Z.to_nat (l + 1 + Z.of_nat k + 8)) with (length msg + (1 + (k + (4 + 4))))%nat by lia.
  rewrite !replicate_add.
  rewrite buf_set_front by (by rewrite length_replicate).
  rewrite (buf_set_middle msg (replicate 1 0) _ [128]) by done.
  set (z := replicate k 0). unfold setUint32.
  replace (length msg + (1 + (k + (4 + 4))) - 8)%nat with (length (msg ++ [128] ++ z))
    by (subst z; rewrite !length_app, length_replicate; cbn; lia).
  replace (length msg + (1 + (k + (4 + 4))) - 4)%nat with
    (length ((msg ++ [128] ++ z) ++ be32 (l * 8 / 0x100000000)))
    by (subst z; rewrite !length_app, length_replicate; cbn; lia).
  replace (msg ++ [128] ++ z ++ replicate 4 0 ++ replicate 4 0) with
    ((msg ++ [128] ++ z) ++ replicate 4 0 ++ replicate 4 0) by (by rewrite <- !app_assoc).
  rewrite buf_set_middle by done. set (hi := be32 (l * 8 / _)).
  pose proof (buf_set_middle ((msg ++ [128] ++ z) ++ hi) (replicate 4 0) [] (be32 (js_ushr (l * 8) 0)) eq_refl) as E2.
  rewrite !app_nil_r, <- (app_assoc _ hi (replicate 4 0)) in E2. rewrite E2. subst hi.
  rewrite <- !app_assoc, be64_halves by lia. done.
Qed.

Lemma utf8_bytes_byte cp : (cp < 1114112)%N → Forall byte (Z.of_N <$> utf8_bytes cp).
Proof.
  intros H. apply Forall_fmap. eapply Forall_impl; [by apply utf8_bytes_range|].
  intros b Hb. cbn in *. unfold byte. lia.
Qed.
Lemma text_encode_bytes s : js_units s → Forall byte (text_encode s).
Proof.
  unfold js_units, text_encode. generalize (units s). clear s.
  assert (H : ∀ n l, (length l ≤ n)%nat → Forall is_unit l → Forall byte (utf8_units l));
    [|intros l; by apply (H (length l))].
  induction n as [|n IH]; intros l Hn Hl; [by destruct l; [|cbn in Hn; lia]|].
  destruct l as [|c l]; [done|]. cbn in Hn. apply Forall_cons in Hl as [Hc Hl]. cbn [utf8_units].
  assert (Hu : ∀ cp k, (cp < 1114112)%N → (length k ≤ n)%nat → Forall is_unit k →
    Forall byte ((Z.of_N <$> utf8_bytes cp) ++ utf8_units k)).
  { intros cp k Hcp Hk Hu. apply Forall_app. split; [by apply utf8_bytes_byte|by apply IH]. }
  unfold is_unit in Hc. destruct (high_surrogate c) eqn:Eh.
  - destruct l as [|d l]; [by apply utf8_bytes_byte|]. destruct (low_surrogate d) eqn:Ed.
    + apply Forall_cons in Hl as [_ Hl]. apply Hu; [|cbn in Hn; lia|done].
      by destruct (code_point_range c d Eh Ed).
    + apply Hu; [done|lia|done].
  - destruct (low_surrogate c); apply Hu; try done; lia.
Qed.

Lemma pad_blocks msg : Z.of_nat (length msg) < 2 ^ 31 - 72 → Forall byte msg →
  ∃ n, length (Fips.pad msg) = (64 * n)%nat ∧ Forall byte (Fips.pad msg).
Proof.
  intros Hl Hb. destruct (padded_size (Z.of_nat (length msg)) ltac:(lia)) as [_ Hm].
  pose proof (Z.mod_pos_bound (55 - Z.of_nat (length msg)) 64 ltac:(lia)).
  apply Z.mod_divide in Hm as [k Hk]; [|lia]. exists (Z.to_nat k). split.
  - unfold Fips.pad. rewrite !length_app, length_replicate. cbn [length Fips.be64 fmap list_fmap]. lia.
  - unfold Fips.pad. apply Forall_app. split; [done|]. apply Forall_app. split; [by apply Forall_singleton|].
    apply Forall_app. split; [by apply Forall_replicate|]. unfold Fips.be64. apply Forall_fmap, Forall_true.
    intros i. apply Z.mod_pos_bound. lia.
Qed.
Lemma initial_words : words8 initial_h.
Proof. unfold words8, eight_list, word. cbn. repeat (apply Forall_cons; split; [done|]). apply Forall_nil_2. Qed.

(** ** Properties *)

(** C39. The digest stored entries are filed under is SHA-256 of the UTF-8 text:
    the padding, the schedule, the rounds with their signed 32-bit operators
    and sums that are only reduced when stored, and the constants are the
    standard's, for every text the padding arithmetic can measure. *)
Theorem sha256Hex_fips input : js_units input →
  Z.of_nat (length (text_encode input)) < 2 ^ 31 - 72 →
  sha256Hex input = JS (hex_char <$> Fips.digest (text_encode input)).
Proof.
  intros Hu Hl. set (msg := text_encode input) in *. unfold sha256Hex, Fips.digest. fold msg. f_equal.
  assert (E : sha256_words msg = Fips.SHA256 msg); [|by rewrite E].
  unfold sha256_words, Fips.SHA256. rewrite padding_eq by done.
  destruct (pad_blocks msg Hl (text_encode_bytes input Hu)) as (n & Hn & Hb).
  assert (Hlen : (length (Fips.pad msg) / 64 = n)%nat) by (rewrite Hn, Nat.mul_comm; by apply Nat.div_mul).
  rewrite Hlen, (blocks_eq _ n); [|done|done|apply Forall_seq; lia|done|apply initial_words].
  assert ((length (Fips.words (Fips.pad msg)) / 16 = n)%nat) as ->.
  { rewrite (words_get (16 * n)) by lia. rewrite length_fmap, length_seq, Nat.mul_comm. by apply Nat.div_mul. }
  by rewrite blocks_slices, <- h_from_roots.
Qed.

Lemma sha256Hex_fips_witness :
  js_units "{}"%js ∧ Fips.digest (text_encode "{}"%js) !!! 0%nat = 4 ∧
  sha256Hex "{}"%js = JS (hex_char <$> Fips.digest (text_encode "{}"%js)).
Proof.
  assert (Hu : js_units "{}"%js) by (repeat constructor).
  split_and!; [exact Hu|vm_compute; reflexivity|].
  exact (sha256Hex_fips "{}"%js Hu eq_refl).
Defined.
