(* ===== verification/Types.v ===== *)
(** * Shared types and bounds: types.ts

    The layout data model ([LayoutItem], [DashboardLayoutConfig], [WidgetDef])
    and the tables that classify data sources. *)

From stdpp Require Import base list strings gmap.
From Stdlib Require Import ZArith.
From S2P Require Import Prelude JsValue.

Open Scope Z_scope.

Inductive DisplayMode := compact_mode | normal_mode | expanded_mode.
#[export] Instance DisplayMode_eq_dec : EqDecision DisplayMode.
Proof. solve_decision. Defined.
Definition DISPLAY_MODES : list DisplayMode := [compact_mode; normal_mode; expanded_mode].

(** ["overview"] is the one scope this build ships. *)
Inductive DashboardScope := overview.
#[export] Instance DashboardScope_eq_dec : EqDecision DashboardScope.
Proof. solve_decision. Defined.
Definition scope_text (s : DashboardScope) : jstring := match s with overview => "overview"%js end.

Definition FAMILY_STATUS_KEYS : list jstring :=
  ["policies-status"; "gitops-status"; "certificates-status"; "mesh-status";
   "external-secrets-status"; "velero-status"; "scanning-status";
   "snapshots-status"; "gateway-status"; "hubble-status"]%js.

Definition DATA_SOURCE_KEYS : list jstring :=
  ["dashboard-summary"; "dashboard-trends"; "cluster-info"; "recent-events";
   "diagnostics-summary"; "resource-counts"; "deployments-list";
   "statefulsets-list"; "daemonsets-list"; "pods-list"; "hpas-list";
   "pdbs-list"; "nodes-list"; "limits-namespaces"; "storage-classes";
   "services-list"; "pvcs-list"; "top-consumers-cpu"; "top-consumers-memory";
   "volume-capacity"; "policy-compliance-score"; "policy-compliance-history";
   "policy-violations-list"; "vulnerability-reports"; "certificates-list";
   "external-secrets-list"; "velero-backups-list"; "snapshots-list";
   "gitops-applications"; "mesh-mtls"; "mesh-golden-signals"; "hubble-flows";
   "gateway-gateways"; "gateway-httproutes"; "clusters-list"; "audit-log";
   "unread-notifications"; "preference-views"; "preference-pins"]%js ++ FAMILY_STATUS_KEYS.

Inductive SourceCost := cheap | discovery | expensive.
#[export] Instance SourceCost_eq_dec : EqDecision SourceCost.
Proof. solve_decision. Defined.

Definition SOURCE_COST : list (jstring * SourceCost) :=
  [("dashboard-summary", cheap); ("cluster-info", cheap);
   ("recent-events", cheap); ("dashboard-trends", expensive);
   ("diagnostics-summary", expensive); ("resource-counts", expensive);
   ("deployments-list", expensive); ("statefulsets-list", expensive);
   ("daemonsets-list", expensive); ("pods-list", expensive);
   ("hpas-list", expensive); ("pdbs-list", expensive);
   ("nodes-list", expensive); ("services-list", expensive);
   ("pvcs-list", expensive); ("limits-namespaces", expensive);
   ("storage-classes", expensive); ("top-consumers-cpu", expensive);
   ("top-consumers-memory", expensive); ("volume-capacity", expensive);
   ("policy-compliance-score", expensive);
   ("policy-compliance-history", expensive);
   ("policy-violations-list", expensive); ("vulnerability-reports", expensive);
   ("certificates-list", expensive); ("external-secrets-list", expensive);
   ("velero-backups-list", expensive); ("snapshots-list", expensive);
   ("gitops-applications", expensive); ("mesh-mtls", expensive);
   ("mesh-golden-signals", expensive); ("hubble-flows", expensive);
   ("gateway-gateways", expensive); ("gateway-httproutes", expensive);
   ("clusters-list", expensive); ("audit-log", expensive);
   ("unread-notifications", expensive); ("preference-views", expensive);
   ("preference-pins", expensive); ("policies-status", discovery);
   ("gitops-status", discovery); ("certificates-status", discovery);
   ("mesh-status", discovery); ("external-secrets-status", discovery);
   ("velero-status", discovery); ("scanning-status", discovery);
   ("snapshots-status", discovery); ("gateway-status", discovery);
   ("hubble-status", discovery)]%js.

(** [SOURCE_COST[key] ?? "expensive"]; an inherited member is neither. *)
Definition sourceCost (key : jstring) : prop SourceCost :=
  match table_get SOURCE_COST key with
  | Missing => Own expensive
  | p => p
  end.
(** [sourceCost(key) === "cheap"]. *)
Definition is_cheap (key : jstring) : bool :=
  match sourceCost key with Own cheap => true | _ => false end.

Definition RANGE_SENSITIVE_KEYS : list jstring := ["dashboard-trends"]%js.

Definition NOT_FOUND_IS_REFUSAL : list jstring :=
  ["top-consumers-cpu"; "top-consumers-memory"; "volume-capacity"]%js.

Definition ABSENT_STATUSES : list (jstring * list Z) :=
  [("clusters-list"%js, [503]); ("audit-log"%js, [503]);
   ("preference-views"%js, [503]); ("preference-pins"%js, [503]);
   ("unread-notifications"%js, [404])].

Definition UNSUPPORTED_STATUSES : list (jstring * list Z) := [].

Inductive ReasonKind := reason_absent | reason_unsupported.
Definition REASON_KINDS : list (jstring * list (jstring * ReasonKind)) :=
  [("hubble-flows"%js,
    [("relay_not_found"%js, reason_absent);
     ("relay_tls_unsupported"%js, reason_unsupported)]);
   ("policy-compliance-history"%js,
    [("compliance_history_not_configured"%js, reason_unsupported)])].

Definition AMBIGUOUS_REQUEST_STATUSES : list (jstring * list Z) :=
  [("mesh-golden-signals"%js, [400])].

Definition DASHBOARD_COLUMNS : Z := 12.
Definition DASHBOARD_ROW_HEIGHT : Z := 40.
Definition DASHBOARD_MAX_ROWS : Z := 200.
Definition DASHBOARD_GRID_GAP : Z := 16.
Definition DASHBOARD_MAX_ITEMS : Z := 40.
Definition DASHBOARD_LAYOUT_SCHEMA_VERSION : Z := 1.

(** One placement. Grid coordinates are whole cells: the server stores
    integers and every function that produces one rounds first. *)
Record LayoutItem := {
  instanceId : jstring;
  id : jstring;
  x : Z;
  y : Z;
  w : Z;
  h : Z;
  params : option (list (jstring * jstring))
}.
#[export] Instance LayoutItem_eq_dec : EqDecision LayoutItem.
Proof. solve_decision. Defined.

(** [{ ...it, y }] and the other single-field updates the code writes. *)
Definition with_y (it : LayoutItem) (v : Z) : LayoutItem :=
  {| instanceId := instanceId it; id := id it; x := x it; y := v;
     w := w it; h := h it; params := params it |}.
Definition with_pos (it : LayoutItem) (vx vy : Z) : LayoutItem :=
  {| instanceId := instanceId it; id := id it; x := vx; y := vy;
     w := w it; h := h it; params := params it |}.
Definition with_size (it : LayoutItem) (vw vh : Z) : LayoutItem :=
  {| instanceId := instanceId it; id := id it; x := x it; y := y it;
     w := vw; h := vh; params := params it |}.

(** [scope] is the text the server stored, which a newer build may have
    written. *)
Record DashboardLayoutConfig := {
  schemaVersion : Z;
  scope : jstring;
  columns : Z;
  config_items : list LayoutItem
}.
#[export] Instance DashboardLayoutConfig_eq_dec : EqDecision DashboardLayoutConfig.
Proof. solve_decision. Defined.

(** The fields of a widget definition the modelled code reads ([render] is the
    component itself). *)
Record WidgetDef := {
  def_id : jstring;
  scopes : list DashboardScope;
  sources : list jstring;
  optionalSources : option (list jstring);
  familyStatus : option jstring;
  adminOnly : bool;
  minW : Z;
  minH : Z;
  defaultW : Z;
  defaultH : Z;
  def_params : option (list (jstring * list jstring));
  modes : list DisplayMode
}.
