(* ===== verification/JsonText.v ===== *)
(** * JSON.stringify, on what the code stringifies

    Strings, integers and arrays of them, as lists of UTF-16 units, with the
    escapes of ECMA-262's QuoteJSONString. The code compares the results, so
    what matters is that the text determines the value: [prefix_code]. *)

From stdpp Require Import base list.
From Stdlib Require Import ZArith NArith Lia.
From S2P Require Import Prelude JsValue.

(** ** Definitions *)

Definition hex_digit (n : N) : N := if (n <? 10)%N then (48 + n)%N else (87 + n)%N.
Definition hex4 (c : N) : list N :=
  [hex_digit (c / 4096 mod 16); hex_digit (c / 256 mod 16);
   hex_digit (c / 16 mod 16); hex_digit (c mod 16)]%N.

(** The second character of a two-character escape. *)
Definition short_escape (c : N) : option N :=
  match c with
  | 8 => Some 98 | 9 => Some 116 | 10 => Some 110 | 12 => Some 102 | 13 => Some 114
  | 34 => Some 34 | 92 => Some 92 | _ => None
  end%N.
Definition surrogate_high (c : N) : bool := ((55296 <=? c) && (c <=? 56319))%N.
Definition surrogate_low (c : N) : bool := ((56320 <=? c) && (c <=? 57343))%N.
Definition quote_unit (lone : bool) (c : N) : list N :=
  match short_escape c with
  | Some e => [92; e]
  | None => if (c <? 32) || lone then 92 :: 117 :: hex4 c else [c]
  end%N.
(** [paired]: the unit before is the high half of a pair this one completes. *)
Fixpoint quote_units (paired : bool) (l : list N) : list N :=
  match l with
  | [] => []
  | c :: l' =>
      let next_low := match l' with d :: _ => surrogate_low d | [] => false end in
      let lone := if surrogate_high c then negb next_low
                  else surrogate_low c && negb paired in
      quote_unit lone c ++ quote_units (surrogate_high c && next_low) l'
  end.
Definition json_string (s : jstring) : list N := 34%N :: quote_units false (units s) ++ [34%N].
(** [Number::toString] of an integer below 10^21 in magnitude. *)
Definition json_int (z : Z) : list N :=
  if (z <? 0)%Z then 45%N :: units (decimal (Z.to_N (- z))) else units (decimal (Z.to_N z)).
Fixpoint comma_join (l : list (list N)) : list N :=
  match l with
  | [] => []
  | [a] => a
  | a :: l' => a ++ 44%N :: comma_join l'
  end.
Definition json_array (l : list (list N)) : list N := 91%N :: comma_join l ++ [93%N].

(** ** The text determines the value *)

(** What may follow a value: nothing, a comma or a closing bracket. *)
Definition delimited (r : list N) : Prop :=
  match r with [] => True | c :: _ => c = 44%N ∨ c = 93%N end.
Definition prefix_code {A} (P : A → Prop) (e : A → list N) : Prop :=
  ∀ a b r r', P a → P b → delimited r → delimited r' → e a ++ r = e b ++ r' → a = b ∧ r = r'.
(** A value never begins with a closing bracket. *)
Definition opens {A} (e : A → list N) : Prop := ∀ a, ∃ c l, e a = c :: l ∧ c ≠ 93%N.

Lemma hex_digit_inj a b : (a < 16 → b < 16 → hex_digit a = hex_digit b → a = b)%N.
Proof.
  unfold hex_digit. intros ? ?. destruct (N.ltb_spec a 10), (N.ltb_spec b 10); lia.
Qed.
Lemma hex4_inj c d : (c < 65536 → d < 65536 → hex4 c = hex4 d → c = d)%N.
Proof.
  intros Hc Hd [= H1 H2 H3 H4].
  apply hex_digit_inj in H1, H2, H3, H4; try (apply N.mod_lt; lia).
  assert (Hexp : ∀ n, (n < 65536)%N →
    n = (4096 * (n / 4096 mod 16) + 256 * (n / 256 mod 16) + 16 * (n / 16 mod 16) + n mod 16)%N).
  { intros n Hn. pose proof (N.div_mod' n 16). pose proof (N.div_mod' (n / 16) 16).
    pose proof (N.div_mod' (n / 256) 16). pose proof (N.div_mod' (n / 4096) 16).
    rewrite !N.Div0.div_div in *. change (16 * 16)%N with 256%N in *.
    change (256 * 16)%N with 4096%N in *. change (4096 * 16)%N with 65536%N in *.
    rewrite (N.div_small n 65536) in * by done. lia. }
  rewrite (Hexp c), (Hexp d) by done. by rewrite H1, H2, H3, H4.
Qed.

Lemma short_escape_inj c d e : short_escape c = Some e → short_escape d = Some e → c = d.
Proof.
  unfold short_escape. intros Hc Hd.
  repeat (match type of Hc with context [match ?p with _ => _ end] => destruct p end; try done);
  repeat (match type of Hd with context [match ?p with _ => _ end] => destruct p end; try done);
  congruence.
Qed.

(** Which units a plain character can be. *)
Lemma quote_unit_cases lone c :
  (lone = true → (c < 65536)%N) →
  (∃ e, short_escape c = Some e ∧ quote_unit lone c = [92%N; e] ∧ e ≠ 117%N) ∨
  ((c < 65536)%N ∧ quote_unit lone c = 92%N :: 117%N :: hex4 c) ∨
  (quote_unit lone c = [c] ∧ c ≠ 34%N ∧ c ≠ 92%N).
Proof.
  intros Hb. unfold quote_unit. destruct (short_escape c) as [e|] eqn:E.
  - left. exists e. split; [done|]. split; [done|]. intros ->. revert E. unfold short_escape.
    repeat (match goal with |- context [match ?p with _ => _ end] => destruct p end; try done).
  - right. destruct (N.ltb_spec c 32); [left; split; [lia|done]|]. destruct lone.
    + left. split; [auto|done].
    + right. split; [done|]. by split; intros ->.
Qed.
Lemma quote_unit_inj lone c r lone' c' r' :
  (lone = true → (c < 65536)%N) → (lone' = true → (c' < 65536)%N) →
  quote_unit lone c ++ r = quote_unit lone' c' ++ r' → c = c' ∧ r = r'.
Proof.
  intros Hb Hb'.
  destruct (quote_unit_cases lone c Hb) as [(e & He & -> & Hne)|[[Hc ->]|(-> & Hn1 & Hn2)]],
    (quote_unit_cases lone' c' Hb') as [(e' & He' & -> & Hne')|[[Hc' ->]|(-> & Hn1' & Hn2')]];
    simpl; try (intros [=]; congruence).
  - intros [= <- ->]. split; [by eapply short_escape_inj|done].
  - intros [= H1 H2 H3 H4 ->]. split; [|done]. apply hex4_inj; [done..|].
    unfold hex4. by rewrite H1, H2, H3, H4.
  - by intros [= -> ->].
Qed.
Lemma quote_unit_not_quote lone c r l :
  (lone = true → (c < 65536)%N) → quote_unit lone c ++ r ≠ 34%N :: l.
Proof.
  intros Hb.
  destruct (quote_unit_cases lone c Hb) as [(e & He & -> & Hne)|[[Hc ->]|(-> & Hn1 & Hn2)]];
    simpl; congruence.
Qed.
Lemma lone_bound (b paired : bool) c :
  (if surrogate_high c then b else surrogate_low c && paired) = true → (c < 65536)%N.
Proof.
  unfold surrogate_high, surrogate_low.
  destruct (N.leb_spec 55296 c), (N.leb_spec c 56319), (N.leb_spec c 57343); simpl; try lia.
  all: rewrite ?andb_false_r; simpl; done.
Qed.
Lemma quote_units_inj p l r p' l' r' :
  quote_units p l ++ 34%N :: r = quote_units p' l' ++ 34%N :: r' → l = l' ∧ r = r'.
Proof.
  revert p p' l'. induction l as [|c l IH]; intros p p' [|c' l']; cbn [quote_units].
  - by intros [= ->].
  - rewrite <- app_assoc. intros E. symmetry in E. exfalso. revert E.
    apply quote_unit_not_quote, lone_bound.
  - rewrite <- app_assoc. intros E. exfalso. revert E. apply quote_unit_not_quote, lone_bound.
  - rewrite <- !app_assoc. intros [-> E]%quote_unit_inj; [|apply lone_bound..].
    apply IH in E as [-> ->]. done.
Qed.
Lemma json_string_code : prefix_code (λ _, True) json_string.
Proof.
  intros a b r r' _ _ _ _. unfold json_string. simpl. rewrite <- !app_assoc. simpl.
  intros [= E]. apply quote_units_inj in E as [E ->]. split; [|done].
  destruct a, b. simpl in E. by subst.
Qed.
Lemma json_string_opens : opens json_string.
Proof. intros a. by eexists _, _. Qed.

Lemma digits_prefix (l l' r r' : list N) :
  Forall is_digit l → Forall is_digit l' → delimited r → delimited r' →
  l ++ r = l' ++ r' → l = l' ∧ r = r'.
Proof.
  assert (Hnd : ∀ r c, delimited r → is_digit c → head r ≠ Some c).
  { intros [|d q] c; simpl; [done|]. unfold is_digit. intros [-> | ->] Hc [= <-]; lia. }
  intros Hl. revert l'. induction Hl as [|c l Hc Hl IH]; intros l' Hl' Hr Hr' E.
  - destruct Hl' as [|c' l' Hc' Hl']; [done|]. exfalso. simpl in E. subst r.
    by apply (Hnd _ _ Hr Hc').
  - destruct Hl' as [|c' l' Hc' Hl'].
    + exfalso. simpl in E. subst r'. by apply (Hnd _ _ Hr' Hc).
    + simpl in E. injection E as -> E. destruct (IH l') as [-> ->]; done.
Qed.
Lemma json_int_code : prefix_code (λ _, True) json_int.
Proof.
  intros a b r r' _ _ Hr Hr'. unfold json_int.
  assert (Hminus : ∀ n q s, units (decimal n) ++ q ≠ 45%N :: s).
  { intros n q s E. pose proof (decimal_digits n) as Hd. pose proof (decimal_nonempty n) as Hn.
    destruct (units (decimal n)) as [|c l]; [done|]. apply Forall_cons in Hd as [Hc _].
    simpl in E. injection E as -> _. unfold is_digit in Hc. lia. }
  assert (Hdec : ∀ m n q q', delimited q → delimited q' →
    units (decimal m) ++ q = units (decimal n) ++ q' → m = n ∧ q = q').
  { intros m n q q' Hq Hq' E.
    apply digits_prefix in E as [E ->]; [|apply decimal_digits..|done|done].
    split; [|done]. apply decimal_inj. destruct (decimal m), (decimal n). simpl in E. by subst. }
  destruct (Z.ltb_spec a 0), (Z.ltb_spec b 0); simpl.
  - intros [= E]. apply Hdec in E as [E ->]; [|done..]. split; [lia|done].
  - intros E. symmetry in E. by apply Hminus in E.
  - intros E. by apply Hminus in E.
  - intros E. apply Hdec in E as [E ->]; [|done..]. split; [lia|done].
Qed.

(** Arrays of values with a code have one. *)
Section Arrays.
Context {A : Type} (P : A → Prop) (e : A → list N) (He : prefix_code P e) (Ho : opens e).

Lemma comma_join_cons a l :
  comma_join (e a :: (e <$> l)) = e a ++ match l with [] => [] | _ => 44%N :: comma_join (e <$> l) end.
Proof. destruct l; simpl; [by rewrite app_nil_r|done]. Qed.
Lemma json_array_code :
  prefix_code (Forall P) (λ l, json_array (e <$> l)).
Proof using He Ho.
  intros l l' r r' Hl Hl' _ _. unfold json_array. simpl. rewrite <- !app_assoc. simpl.
  intros [= E]. revert l' Hl' E. induction Hl as [|a l Ha Hl IH]; intros l' Hl' E.
  - destruct Hl' as [|a' l' _ _]; [by injection E as ->|]. exfalso.
    rewrite fmap_cons, comma_join_cons in E. destruct (Ho a') as (c & q & Hc & Hne).
    rewrite Hc in E. simpl in E. injection E as E _. congruence.
  - destruct Hl' as [|a' l' Ha' Hl'].
    + exfalso. rewrite fmap_cons, comma_join_cons in E. destruct (Ho a) as (c & q & Hc & Hne).
      rewrite Hc in E. simpl in E. injection E as E _. congruence.
    + rewrite !fmap_cons, !comma_join_cons, <- !app_assoc in E.
      apply He in E as [-> E]; [|done|done|destruct l; simpl; auto|destruct l'; simpl; auto].
      destruct l as [|a1 l], l' as [|a1' l']; simpl in E; [by injection E as ->|done|done|].
      injection E as E. destruct (IH (a1' :: l')) as [-> ->]; [done| |done]. exact E.
Qed.
Lemma json_array_opens : opens (λ l : list A, json_array (e <$> l)).
Proof. intros l. by eexists _, _. Qed.
End Arrays.

(** What follows the first element of an array. *)
Fixpoint rest_of_array (l : list (list N)) (r : list N) : list N :=
  match l with
  | [] => 93%N :: r
  | a :: l' => 44%N :: a ++ rest_of_array l' r
  end.
Lemma json_array_fields a l r : json_array (a :: l) ++ r = 91%N :: a ++ rest_of_array l r.
Proof.
  unfold json_array. cbn [app]. f_equal. rewrite <- app_assoc. cbn [app].
  revert a. induction l as [|b l IH]; intros a; [done|].
  change (comma_join (a :: b :: l)) with (a ++ 44%N :: comma_join (b :: l)).
  rewrite <- app_assoc. f_equal. cbn [app rest_of_array]. f_equal. apply IH.
Qed.
Lemma rest_of_array_delimited l r : delimited (rest_of_array l r).
Proof. destruct l; simpl; auto. Qed.
#[export] Hint Resolve rest_of_array_delimited : dash.
