(* ===== verification/JsonParse.v ===== *)
(** * [JSON.parse] and [JSON.stringify]

    The parser of ECMA-262 over code units, and the printer for the values the
    program prints: null, booleans, whole numbers, strings, arrays and objects.
    What is printed parses back to what was printed, so a stored entry reads
    back as the value that was stored. A repeated key keeps its first place and
    its last value. *)

From stdpp Require Import base list strings gmap.
From Stdlib Require Import ZArith NArith QArith Lia.
From S2P Require Import Prelude JsValue JsonText.

Open Scope Z_scope.

(** ** Definitions *)

Definition is_ws (c : N) : bool := ((c =? 32) || (c =? 9) || (c =? 10) || (c =? 13))%N.
Fixpoint skip_ws (l : list N) : list N :=
  match l with c :: l' => if is_ws c then skip_ws l' else l | [] => [] end.

Definition hex_value (c : N) : option N :=
  z ← digit_value c; if (z <? 16) then Some (Z.to_N z) else None.
Definition unescape (c : N) : option N :=
  match c with
  | 34 => Some 34 | 92 => Some 92 | 47 => Some 47 | 98 => Some 8 | 102 => Some 12
  | 110 => Some 10 | 114 => Some 13 | 116 => Some 9 | _ => None
  end%N.
(** The units up to the closing quote, and what follows it. *)
Fixpoint parse_string (l : list N) : option (list N * list N) :=
  match l with
  | [] => None
  | c :: r =>
      if (c =? 34)%N then Some ([], r)
      else if (c =? 92)%N then
        match r with
        | [] => None
        | e :: r1 =>
            if (e =? 117)%N then
              match r1 with
              | a :: b :: c :: d :: r2 =>
                  a ← hex_value a; b ← hex_value b; c ← hex_value c; d ← hex_value d;
                  '(s, r') ← parse_string r2; Some ((((a * 16 + b) * 16 + c) * 16 + d)%N :: s, r')
              | _ => None
              end
            else u ← unescape e; '(s, r') ← parse_string r1; Some (u :: s, r')
        end
      else if (c <? 32)%N then None
      else '(s, r') ← parse_string r; Some (c :: s, r')
  end.

(** The longest run of decimal digits. *)
Definition dec_digit (c : N) : bool := ((48 <=? c) && (c <=? 57))%N.
Fixpoint span_digits (l : list N) : list N * list N :=
  match l with
  | c :: l' => if dec_digit c then let '(d, r) := span_digits l' in (c :: d, r) else ([], l)
  | [] => ([], [])
  end.
(** The parts of a number: [None] where the grammar refuses, else the text read
    and the rest. *)
Definition int_part (l : list N) : option (list N * list N) :=
  match span_digits l with
  | ([], _) => None
  | (c :: d, r) => if (c =? 48)%N && negb (bool_decide (d = [])) then None else Some (c :: d, r)
  end.
(** What follows a leading unit [c], if it leads. *)
Definition after (c : N) (l : list N) : option (list N) :=
  match l with d :: r => if (d =? c)%N then Some r else None | [] => None end.
Definition frac_part (l : list N) : option (list N * list N) :=
  match after 46 l with
  | Some l' => match span_digits l' with ([], _) => None | (d, r) => Some (46%N :: d, r) end
  | None => Some ([], l)
  end.
Definition exp_sign (l : list N) : list N * list N :=
  match after 43 l, after 45 l with
  | Some r, _ => ([43%N], r)
  | _, Some r => ([45%N], r)
  | None, None => ([], l)
  end.
Definition exp_part (l : list N) : option (list N * list N) :=
  match l with
  | c :: l' =>
      if ((c =? 101) || (c =? 69))%N then
        let '(s, r) := exp_sign l' in
        match span_digits r with ([], _) => None | (d, r') => Some (c :: s ++ d, r') end
      else Some ([], l)
  | [] => Some ([], [])
  end.
Definition parse_number (l : list N) : option (jsval * list N) :=
  let '(m, l1) := match after 45 l with Some r => ([45%N], r) | None => ([], l) end in
  '(i, l2) ← int_part l1; '(f, l3) ← frac_part l2; '(e, l4) ← exp_part l3;
  Some (JNum (js_Number (JS (m ++ i ++ f ++ e))), l4).

Fixpoint expect (t : list N) (v : jsval) (l : list N) : option (jsval * list N) :=
  match t with
  | [] => Some (v, l)
  | c :: t' => r ← after c l; expect t' v r
  end.

Fixpoint parse_value (fuel : nat) (l : list N) : option (jsval * list N) :=
  match fuel with
  | O => None
  | S n =>
      match skip_ws l with
      | [] => None
      | c :: r =>
          if (c =? 123)%N then
            match after 125 (skip_ws r) with Some r' => Some (JObj [], r') | None => parse_members n [] r end
          else if (c =? 91)%N then
            match after 93 (skip_ws r) with Some r' => Some (JArr [], r') | None => parse_elements n [] r end
          else if (c =? 34)%N then '(s, r') ← parse_string r; Some (JStr (JS s), r')
          else if (c =? 116)%N then expect (units "rue"%js) (JBool true) r
          else if (c =? 102)%N then expect (units "alse"%js) (JBool false) r
          else if (c =? 110)%N then expect (units "ull"%js) JNull r
          else parse_number (c :: r)
      end
  end
with parse_elements (fuel : nat) (acc : list jsval) (l : list N) : option (jsval * list N) :=
  match fuel with
  | O => None
  | S n =>
      '(v, r) ← parse_value n l;
      match after 44 (skip_ws r), after 93 (skip_ws r) with
      | Some r', _ => parse_elements n (acc ++ [v]) r'
      | _, Some r' => Some (JArr (acc ++ [v]), r')
      | None, None => None
      end
  end
with parse_members (fuel : nat) (acc : list (jstring * jsval)) (l : list N) : option (jsval * list N) :=
  match fuel with
  | O => None
  | S n =>
      r ← after 34 (skip_ws l);
      '(k, r1) ← parse_string r;
      r2 ← after 58 (skip_ws r1);
      '(v, r3) ← parse_value n r2;
      match after 44 (skip_ws r3), after 125 (skip_ws r3) with
      | Some r', _ => parse_members n (assoc_set (JS k) v acc) r'
      | _, Some r' => Some (JObj (assoc_set (JS k) v acc), r')
      | None, None => None
      end
  end.
(** The nesting of a text is at most its length. *)
Definition JSON_parse (s : jstring) : option jsval :=
  '(v, r) ← parse_value (2 * length (units s) + 2) (units s);
  match skip_ws r with [] => Some v | _ => None end.

(** [JSON.stringify] of a value built from these; [None] for the others. *)
Definition json_pair (k : jstring) (v : list N) : list N := json_string k ++ 58%N :: v.
Definition json_object (l : list (list N)) : list N := 123%N :: comma_join l ++ [125%N].
Fixpoint json_text (v : jsval) : option (list N) :=
  match v with
  | JNull => Some (units "null"%js)
  | JBool true => Some (units "true"%js)
  | JBool false => Some (units "false"%js)
  | JNum (Fin q) => if (Qden q =? 1)%positive && (Z.abs (Qnum q) <? 2 ^ 53) then Some (json_int (Qnum q)) else None
  | JStr s => if forallb (λ c, (c <? 65536)%N) (units s) then Some (json_string s) else None
  | JArr l => json_array <$> mapM json_text l
  | JObj fields =>
      json_object <$> mapM (λ '(k, v), if forallb (λ c, (c <? 65536)%N) (units k)
                                       then json_pair k <$> json_text v else None) fields
  | _ => None
  end.
Definition JSON_stringify (v : jsval) : option jstring := JS <$> json_text v.

Example parse_sample : JSON_parse (JS (units "{"%js ++ json_string "a"%js ++ units ": [1, -2.5e1,null ]}"%js)) =
  Some (JObj [("a"%js, JArr [JNum (of_Z 1); JNum (of_Z (-25)); JNull])]).
Proof. vm_compute. reflexivity. Qed.

(** ** What is printed parses back *)

(** A value is followed by the end, a comma or a closing bracket. *)
Definition ends (r : list N) : Prop :=
  match r with [] => True | c :: _ => c = 44%N ∨ c = 93%N ∨ c = 125%N end.

Lemma hex_value_digit n : (n < 16)%N → hex_value (hex_digit n) = Some n.
Proof.
  intros Hn. unfold hex_value, hex_digit, digit_value. destruct (N.ltb_spec n 10).
  - destruct (N.leb_spec 48 (48 + n)); [|lia]. destruct (N.leb_spec (48 + n) 57); [|lia]. cbn.
    destruct (Z.ltb_spec (Z.of_N (48 + n) - 48) 16); [|lia]. f_equal. lia.
  - destruct (N.leb_spec 48 (87 + n)); [|lia]. destruct (N.leb_spec (87 + n) 57); [lia|].
    destruct (N.leb_spec 97 (87 + n)); [|lia]. destruct (N.leb_spec (87 + n) 102); [|lia]. cbn.
    destruct (Z.ltb_spec (Z.of_N (87 + n) - 87) 16); [|lia]. f_equal. lia.
Qed.
Lemma hex4_value c : (c < 65536)%N →
  (((c / 4096 mod 16 * 16 + c / 256 mod 16) * 16 + c / 16 mod 16) * 16 + c mod 16)%N = c.
Proof.
  intros Hc. pose proof (N.div_mod c 16 ltac:(done)). pose proof (N.div_mod (c / 16) 16 ltac:(done)).
  pose proof (N.div_mod (c / 16 / 16) 16 ltac:(done)).
  rewrite !N.Div0.div_div in *. change (16 * 16)%N with 256%N in *. change (256 * 16)%N with 4096%N in *.
  assert (c / 4096 < 16)%N by (apply N.Div0.div_lt_upper_bound; lia).
  rewrite (N.mod_small (c / 4096) 16) by done.
  generalize dependent (c / 4096)%N. intros. lia.
Qed.
Lemma unescape_short c e : short_escape c = Some e → unescape e = Some c ∧ e ≠ 117%N.
Proof.
  unfold short_escape. intros H.
  repeat (match type of H with context [match ?p with _ => _ end] => destruct p end; try done);
    injection H as <-; done.
Qed.

Lemma parse_quoted_unit lone c l : (c < 65536)%N →
  parse_string (quote_unit lone c ++ l) = '(s, r) ← parse_string l; Some (c :: s, r).
Proof.
  intros Hc. unfold quote_unit. destruct (short_escape c) as [e|] eqn:E.
  - destruct (unescape_short c e E) as [Hu Hne]. cbn [app parse_string].
    change (92 =? 34)%N with false. change (92 =? 92)%N with true. cbn iota.
    rewrite (proj2 (N.eqb_neq e 117)) by done. by rewrite Hu.
  - destruct (N.ltb_spec c 32) as [Hlt|Hge]; [|destruct lone]; cbn [orb].
    1, 2: unfold hex4; cbn [app parse_string]; change (92 =? 34)%N with false; change (92 =? 92)%N with true;
      change (117 =? 117)%N with true; cbn iota; rewrite !hex_value_digit by (apply N.mod_lt; done);
      cbn [mbind option_bind]; by rewrite hex4_value.
    cbn [app parse_string].
    destruct (N.eqb_spec c 34) as [-> |]; [done|]. destruct (N.eqb_spec c 92) as [-> |]; [done|].
    by rewrite (proj2 (N.ltb_ge c 32)).
Qed.
Lemma parse_quoted p l r : Forall (λ c, c < 65536)%N l →
  parse_string (quote_units p l ++ 34%N :: r) = Some (l, r).
Proof.
  intros Hl. revert p. induction Hl as [|c l Hc Hl IH]; intros p; [done|]. cbn [quote_units].
  rewrite <- app_assoc, parse_quoted_unit by done. by rewrite IH.
Qed.

(** *** Numbers *)

Lemma dec_digit_true c : is_digit c → dec_digit c = true.
Proof. unfold is_digit, dec_digit. intros [? ?]. by rewrite !(proj2 (N.leb_le _ _)). Qed.
Lemma span_digits_app d r : Forall is_digit d → ends r → span_digits (d ++ r) = (d, r).
Proof.
  intros Hd Hr. induction Hd as [|c d Hc _ IH]; cbn [app span_digits].
  - destruct r as [|c r]; [done|]. cbn in Hr |- *. by destruct Hr as [-> |[-> | ->]].
  - by rewrite dec_digit_true, IH.
Qed.
Lemma ends_after r c : ends r → c ≠ 44%N → c ≠ 93%N → c ≠ 125%N → after c r = None.
Proof.
  destruct r as [|d r]; [done|]. cbn. intros Hd ? ? ?.
  destruct (N.eqb_spec d c) as [-> |]; [|done]. naive_solver.
Qed.
Lemma decimal_units_head f n : (n ≠ 0)%N → (n < 2 ^ N.of_nat f)%N →
  ∃ c d, decimal_units f n = c :: d ∧ c ≠ 48%N.
Proof.
  revert n. induction f as [|f IH]; intros n H0 Hn; [cbn in Hn; lia|]. cbn [decimal_units].
  destruct (N.ltb_spec n 10); [exists (48 + n)%N, []; split; [done|lia]|].
  destruct (IH (n / 10)%N) as (c & d & -> & Hc).
  - intros E%N.div_small_iff; [lia|done].
  - rewrite Nat2N.inj_succ, N.pow_succ_r' in Hn. apply N.Div0.div_lt_upper_bound. lia.
  - by eexists _, _.
Qed.
Lemma decimal_head n : n = 0%N ∨ ∃ c d, units (decimal n) = c :: d ∧ c ≠ 48%N.
Proof.
  destruct (decide (n = 0)%N) as [-> |H0]; [by left|]. right. apply decimal_units_head; [done|].
  rewrite Nat2N.inj_succ, N2Nat.id. apply N.log2_spec. lia.
Qed.
Lemma int_part_decimal n r : ends r → int_part (units (decimal n) ++ r) = Some (units (decimal n), r).
Proof.
  intros Hr. unfold int_part. rewrite span_digits_app by (try apply decimal_digits; done).
  destruct (decimal_head n) as [-> |(c & d & -> & Hc)]; [done|]. by rewrite (proj2 (N.eqb_neq c 48)).
Qed.
Lemma js_trim_minus l : Forall is_digit l → l ≠ [] → js_trim (JS (45%N :: l)) = JS (45%N :: l).
Proof.
  intros Hl Hne. unfold js_trim. cbn [units drop_spaces]. change (is_space 45) with false. cbn iota.
  assert (Hrev : Forall is_digit (rev l)) by (rewrite rev_alt, rev_append_rev, app_nil_r; by apply Forall_rev).
  destruct (rev l) as [|c k] eqn:E; [by apply (f_equal (@rev N)) in E; rewrite rev_involutive in E|].
  apply Forall_cons in Hrev as [Hc _]. cbn [rev]. rewrite E. cbn [app drop_spaces].
  rewrite is_digit_not_space by done. rewrite app_comm_cons, <- E, rev_app_distr, rev_involutive. done.
Qed.
Lemma js_Number_minus n : (n < 2 ^ 53)%N → js_Number (JS (45%N :: units (decimal n))) = of_Z (- Z.of_N n).
Proof.
  intros Hn. unfold js_Number. rewrite js_trim_minus by (apply decimal_digits || apply decimal_nonempty).
  cbn [units]. rewrite <- (decimal_value_eq n).
  pose proof (unsigned_decimal_digits (units (decimal n)) (decimal_nonempty n) (decimal_digits n)) as Hu.
  pose proof (decimal_nonempty n). destruct (units (decimal n)) as [|c l] eqn:E; [done|].
  change (45 =? 48)%N with false. change (45 =? 43)%N with false. change (45 =? 45)%N with true. cbn [andb].
  rewrite Hu, fl_int; [done|]. rewrite <- E, decimal_value_eq. lia.
Qed.
Lemma parse_int z r : Z.abs z < 2 ^ 53 → ends r → parse_number (json_int z ++ r) = Some (JNum (of_Z z), r).
Proof.
  intros Hz Hr. unfold parse_number, json_int.
  assert (Htail : ∀ m n, (i ← int_part (units (decimal n) ++ r);
      f ← frac_part i.2; e ← exp_part f.2; Some (JNum (js_Number (JS (m ++ i.1 ++ f.1 ++ e.1))), e.2))
    = Some (JNum (js_Number (JS (m ++ units (decimal n)))), r)).
  { intros m n. rewrite int_part_decimal by done. cbn [mbind option_bind fst snd].
    unfold frac_part. rewrite ends_after by done. cbn [mbind option_bind fst snd].
    assert (exp_part r = Some ([], r)) as ->.
    { destruct r as [|c r]; [done|]. cbn in Hr |- *. by destruct Hr as [-> |[-> | ->]]. }
    cbn. by rewrite app_nil_r. }
  destruct (Z.ltb_spec z 0) as [Hneg|Hpos].
  - cbn [app after]. change (45 =? 45)%N with true. cbn iota. etrans; [|etrans; [apply (Htail [45%N] (Z.to_N (- z)))|]].
    + destruct (int_part _) as [[i l2]|]; [|done]. cbn. destruct (frac_part l2) as [[f l3]|]; [|done]. cbn.
      by destruct (exp_part l3) as [[e l4]|].
    + cbn [app]. rewrite js_Number_minus by lia. do 4 f_equal. lia.
  - assert (after 45 (units (decimal (Z.to_N z)) ++ r) = None) as ->.
    { pose proof (decimal_digits (Z.to_N z)) as Hd. pose proof (decimal_nonempty (Z.to_N z)).
      destruct (units (decimal (Z.to_N z))) as [|c l]; [done|]. apply Forall_cons in Hd as [Hc _].
      cbn. destruct (N.eqb_spec c 45); [|done]. unfold is_digit in Hc. lia. }
    etrans; [|etrans; [apply (Htail [] (Z.to_N z))|]].
    + destruct (int_part _) as [[i l2]|]; [|done]. cbn. destruct (frac_part l2) as [[f l3]|]; [|done]. cbn.
      by destruct (exp_part l3) as [[e l4]|].
    + cbn [app]. change (JS (units (decimal (Z.to_N z)))) with (decimal (Z.to_N z)).
      rewrite js_Number_decimal by lia. do 4 f_equal. lia.
Qed.

(** *** Values *)

Section JsvalInd.
Context (P : jsval → Prop) (Hundef : P JUndef) (Hnull : P JNull) (Hbool : ∀ b, P (JBool b))
  (Hnum : ∀ n, P (JNum n)) (Hstr : ∀ s, P (JStr s)) (Harr : ∀ l, Forall P l → P (JArr l))
  (Hobj : ∀ fields, Forall (λ kv, P kv.2) fields → P (JObj fields)).
Fixpoint jsval_nested_ind (v : jsval) : P v :=
  match v with
  | JUndef => Hundef
  | JNull => Hnull
  | JBool b => Hbool b
  | JNum n => Hnum n
  | JStr s => Hstr s
  | JArr l => Harr l ((fix go l := match l return Forall P l with
      | [] => Forall_nil_2 _
      | v :: l' => Forall_cons_2 _ v l' (jsval_nested_ind v) (go l')
      end) l)
  | JObj fields => Hobj fields ((fix go l := match l return Forall (λ kv, P kv.2) l with
      | [] => Forall_nil_2 _
      | kv :: l' => Forall_cons_2 (λ kv, P kv.2) kv l' (jsval_nested_ind kv.2) (go l')
      end) fields)
  end.
End JsvalInd.

(** No object of the value has a key twice. *)
Fixpoint distinct_keys (v : jsval) : bool :=
  match v with
  | JArr l => forallb distinct_keys l
  | JObj fields => bool_decide (NoDup fields.*1) && forallb (λ kv, distinct_keys kv.2) fields
  | _ => true
  end.

Definition starts (t : list N) : Prop := ∃ c t', t = c :: t' ∧ is_ws c = false ∧ c ≠ 93%N ∧ c ≠ 125%N.
Definition reads_as (v : jsval) (t : list N) : Prop :=
  starts t ∧ ∀ n r, (2 * length t ≤ n)%nat → ends r → parse_value n (t ++ r) = Some (v, r).

Lemma starts_skip t r : starts t → skip_ws (t ++ r) = t ++ r.
Proof. intros (c & t' & -> & Hc & _). cbn. by rewrite Hc. Qed.
Lemma starts_after t r c : starts t → c = 93%N ∨ c = 125%N → after c (t ++ r) = None.
Proof.
  intros (d & t' & -> & _ & H1 & H2) Hc. cbn. destruct (N.eqb_spec d c); [|done]. destruct Hc; congruence.
Qed.
Lemma comma_join_cons2 (a : list N) l r :
  comma_join (a :: l) ++ r = a ++ match l with [] => r | _ => 44%N :: comma_join l ++ r end.
Proof. destruct l; cbn [comma_join]; [done|]. by rewrite <- app_assoc. Qed.

Lemma elements_read vs ts acc n r : Forall2 reads_as vs ts → vs ≠ [] →
  (2 * length (comma_join ts) + 1 ≤ n)%nat →
  parse_elements n acc (comma_join ts ++ 93%N :: r) = Some (JArr (acc ++ vs), r).
Proof.
  intros Hall Hne. revert acc n. induction Hall as [|v t vs ts [Hst Hv] Hall IH]; intros acc n Hn; [done|].
  destruct n as [|n]; [lia|]. cbn [parse_elements]. rewrite comma_join_cons2.
  destruct Hall as [|v' t' vs ts Hv' Hall].
  - cbn [comma_join] in Hn. rewrite Hv; [done|lia|by right; left].
  - change (comma_join (t :: t' :: ts)) with (t ++ 44%N :: comma_join (t' :: ts)) in Hn.
    rewrite length_app in Hn. cbn [length] in Hn. rewrite Hv; [|lia|by left]. cbn -[parse_elements comma_join].
    rewrite IH by (done || lia). by rewrite <- app_assoc.
Qed.
Lemma members_read (kvs : list (jstring * jsval)) (ts : list (list N)) acc n r :
  Forall2 (λ kv t, ∃ u, t = json_pair kv.1 u ∧ Forall (λ c, c < 65536)%N (units kv.1) ∧ reads_as kv.2 u) kvs ts →
  kvs ≠ [] → NoDup (acc ++ kvs).*1 → (2 * length (comma_join ts) + 1 ≤ n)%nat →
  parse_members n acc (comma_join ts ++ 125%N :: r) = Some (JObj (acc ++ kvs), r).
Proof.
  intros Hall Hne. revert acc n.
  induction Hall as [|[k v] t kvs ts (u & -> & Hk & Hst & Hv) Hall IH]; intros acc n Hnd Hn; [done|].
  destruct n as [|n]; [lia|]. rewrite comma_join_cons2. cbn [fst snd] in *.
  assert (Hfresh : assoc_set k v acc = acc ++ [(k, v)]).
  { apply assoc_set_fresh. rewrite fmap_app in Hnd. apply NoDup_app in Hnd as (_ & Hnd & _).
    intros Hin. apply (Hnd k Hin). by left. }
  assert (Hn' : (2 * length u ≤ n)%nat ∧ (kvs ≠ [] → 2 * length (comma_join ts) + 1 ≤ n)%nat).
  { assert (Hu : (S (length u) ≤ length (json_pair k u))%nat) by (unfold json_pair; rewrite length_app; cbn; lia).
    destruct Hall as [|? t' ? ts]; [cbn [comma_join] in Hn; split; [lia|done]|].
    change (comma_join (json_pair k u :: t' :: ts)) with (json_pair k u ++ 44%N :: comma_join (t' :: ts)) in Hn.
    rewrite length_app in Hn. cbn [length] in Hn. split; [|intros _]; lia. }
  unfold json_pair, json_string. rewrite <- !app_assoc. cbn [app parse_members skip_ws after]. cbn -[parse_value parse_members parse_string].
  rewrite <- app_assoc. cbn [app]. rewrite parse_quoted by done. cbn [mbind option_bind skip_ws after].
  cbn -[parse_value parse_members].
  destruct k as [ku]. cbn [units] in *.
  destruct Hall as [|kv' t' kvs ts Hkv Hall].
  - rewrite Hv; [|lia|by right; right]. cbn -[parse_members]. by rewrite Hfresh.
  - rewrite Hv; [|lia|by left]. cbn -[parse_members comma_join]. rewrite Hfresh.
    rewrite IH; [by rewrite <- app_assoc|done|by rewrite <- app_assoc|by apply Hn'].
Qed.

Lemma units_bound s : forallb (λ c, (c <? 65536)%N) (units s) = true → Forall (λ c, c < 65536)%N (units s).
Proof. rewrite forallb_forall, Forall_forall. intros H c Hc%list_elem_of_In. by apply N.ltb_lt, H. Qed.
Lemma forallb_units s : Forall (λ c, c < 65536)%N (units s) → forallb (λ c, (c <? 65536)%N) (units s) = true.
Proof.
  intros Hs. apply forallb_forall. intros c Hc. apply N.ltb_lt. rewrite Forall_forall in Hs.
  by apply Hs, list_elem_of_In.
Qed.
Lemma json_string_reads s : Forall (λ c, c < 65536)%N (units s) → reads_as (JStr s) (json_string s).
Proof.
  intros Hs. split; [by eexists _, _|]. intros [|n] r Hn Hr; [cbn in Hn; lia|].
  unfold json_string. cbn [app parse_value skip_ws]. cbn -[parse_string]. rewrite <- app_assoc. cbn [app].
  rewrite parse_quoted by done. by destruct s.
Qed.
Lemma json_int_starts z : ∃ c t, json_int z = c :: t ∧ (is_digit c ∨ c = 45%N).
Proof.
  unfold json_int. destruct (z <? 0); [eexists _, _; by split; [|right]|].
  pose proof (decimal_digits (Z.to_N z)) as Hd. pose proof (decimal_nonempty (Z.to_N z)).
  destruct (units (decimal (Z.to_N z))) as [|c l]; [done|]. apply Forall_cons in Hd as [? _].
  exists c, l. auto.
Qed.
Lemma number_lead c : is_digit c ∨ c = 45%N →
  is_ws c = false ∧ (c =? 123)%N = false ∧ (c =? 91)%N = false ∧ (c =? 34)%N = false ∧ (c =? 116)%N = false ∧
  (c =? 102)%N = false ∧ (c =? 110)%N = false ∧ c ≠ 93%N ∧ c ≠ 125%N.
Proof.
  unfold is_digit, is_ws. intros H. rewrite !orb_false_iff, !N.eqb_neq. lia.
Qed.
Lemma json_int_reads z : Z.abs z < 2 ^ 53 → reads_as (JNum (of_Z z)) (json_int z).
Proof.
  intros Hz. destruct (json_int_starts z) as (c & t & E & Hc).
  destruct (number_lead c Hc) as (H1 & H2 & H3 & H4 & H5 & H6 & H7 & H8 & H9).
  split; [by exists c, t|]. intros [|n] r Hn Hr; [rewrite E in Hn; cbn in Hn; lia|].
  pose proof (parse_int z r Hz Hr) as Hp. rewrite E in *. cbn [app parse_value skip_ws].
  by rewrite H1, H2, H3, H4, H5, H6, H7.
Qed.

Lemma Forall2_member_impl {A B} (P Q : A → B → Prop) l k :
  Forall2 P l k → (∀ a b, a ∈ l → P a b → Q a b) → Forall2 Q l k.
Proof.
  induction 1 as [|a b l k Hab _ IH]; intros HQ; constructor; [apply HQ; [by left|done]|].
  apply IH. intros. apply HQ; [by right|done].
Qed.
Lemma printed_reads v : ∀ t, json_text v = Some t → distinct_keys v = true → reads_as v t.
Proof.
  induction v as [| |b|n|s|l IH|fields IH] using jsval_nested_ind; intros t Ht Hk; cbn [json_text] in Ht.
  - done.
  - injection Ht as <-. split; [by eexists _, _|]. by intros [|n] r Hn Hr; [cbn in Hn; lia|].
  - destruct b; injection Ht as <-; (split; [by eexists _, _|]; by intros [|n] r Hn Hr; [cbn in Hn; lia|]).
  - destruct n as [| |[z d]]; try done. cbn [Qnum Qden] in Ht.
    destruct (Pos.eqb_spec d 1) as [-> |]; [|done]. destruct (Z.ltb_spec (Z.abs z) (2 ^ 53)); [|done].
    injection Ht as <-. by apply json_int_reads.
  - destruct (forallb _ _) eqn:E; [|done]. injection Ht as <-. by apply json_string_reads, units_bound.
  - apply fmap_Some in Ht as (ts & Hts & ->). apply mapM_Some in Hts. cbn [distinct_keys] in Hk.
    rewrite forallb_forall in Hk.
    assert (Hall : Forall2 reads_as l ts).
    { eapply Forall2_member_impl; [exact Hts|]. intros v t Hv Ht. rewrite Forall_forall in IH.
      apply IH; [done|done|]. by apply Hk, list_elem_of_In. }
    split; [by eexists _, _|]. intros [|n] r Hn Hr; [cbn in Hn; lia|].
    unfold json_array in *. cbn [app parse_value skip_ws]. cbn -[parse_elements]. rewrite <- app_assoc. cbn [app].
    destruct Hall as [|v u vs us Hv Hall]; [done|].
    assert (Hstart : after 93 (skip_ws (comma_join (u :: us) ++ 93%N :: r)) = None).
    { rewrite comma_join_cons2. destruct Hv as [Hst _]. rewrite starts_skip by done. apply starts_after; auto. }
    rewrite Hstart. rewrite elements_read with (vs := v :: vs); [done|by constructor|done|].
    cbn [length] in Hn. rewrite length_app in Hn. cbn [length] in Hn. lia.
  - apply fmap_Some in Ht as (ts & Hts & ->). apply mapM_Some in Hts. cbn [distinct_keys] in Hk.
    apply andb_true_iff in Hk as [Hnd%bool_decide_eq_true Hk]. rewrite forallb_forall in Hk.
    assert (Hall : Forall2 (λ kv t, ∃ u, t = json_pair kv.1 u ∧ Forall (λ c, c < 65536)%N (units kv.1) ∧
      reads_as kv.2 u) fields ts).
    { eapply Forall2_member_impl; [exact Hts|]. intros [k v] t Hv Ht. cbn [fst snd].
      destruct (forallb _ (units k)) eqn:Eu; [|done]. apply fmap_Some in Ht as (u & Hu & ->).
      exists u. split_and!; [done|by apply units_bound|]. rewrite Forall_forall in IH.
      apply (IH (k, v) Hv); [done|]. by apply (Hk (k, v)), list_elem_of_In. }
    split; [by eexists _, _|]. intros [|n] r Hn Hr; [cbn in Hn; lia|].
    unfold json_object in *. cbn [app parse_value skip_ws]. cbn -[parse_members]. rewrite <- app_assoc. cbn [app].
    destruct Hall as [|kv u kvs us Hkv Hall]; [done|].
    assert (Hstart : after 125 (skip_ws (comma_join (u :: us) ++ 125%N :: r)) = None).
    { rewrite comma_join_cons2. destruct Hkv as (w & -> & _). done. }
    rewrite Hstart. rewrite members_read with (kvs := kv :: kvs); [done|by constructor|done|done|].
    cbn [length] in Hn. rewrite length_app in Hn. cbn [length] in Hn. lia.
Qed.

(** What is printed parses back to what was printed. *)
Theorem JSON_roundtrip v s : JSON_stringify v = Some s → distinct_keys v = true → JSON_parse s = Some v.
Proof.
  intros (t & Ht & ->)%fmap_Some Hk. destruct (printed_reads v t Ht Hk) as [_ Hr].
  unfold JSON_parse. cbn [units]. rewrite <- (app_nil_r t) at 2. rewrite Hr; [done|lia|done].
Qed.

(** ** The fuel is enough: no text is refused for want of it *)

Lemma skip_ws_length l : (length (skip_ws l) ≤ length l)%nat.
Proof. induction l as [|c l IH]; cbn; [done|]. destruct (is_ws c); cbn; lia. Qed.
Lemma after_length c l r : after c l = Some r → length l = S (length r).
Proof. destruct l as [|d l]; [done|]. cbn. destruct (d =? c)%N; [|done]. by intros [= ->]. Qed.
Lemma span_digits_length l d r : span_digits l = (d, r) → (length d + length r = length l)%nat.
Proof.
  revert d r. induction l as [|c l IH]; intros d r; cbn; [by intros [= <- <-]|].
  destruct (dec_digit c); [|by intros [= <- <-]]. destruct (span_digits l) as [d' r'] eqn:E.
  intros [= <- <-]. cbn. by rewrite (IH d' r').
Qed.
Lemma parse_string_length n l s r : (length l ≤ n)%nat → parse_string l = Some (s, r) → (length r < length l)%nat.
Proof.
  revert l s r. induction n as [|n IH]; intros l s r Hn; [by destruct l; [|cbn in Hn; lia]|].
  destruct l as [|c l]; [done|]. cbn [parse_string length] in *.
  assert (Hrec : ∀ k (f : list N * list N → list N), (length k ≤ n)%nat →
    ('(s', r') ← parse_string k; Some (f (s', r'), r')) = Some (s, r) → (length r < length k)%nat).
  { intros k f Hk. destruct (parse_string k) as [[s' r']|] eqn:E; [|done]. cbn. intros [= _ <-]. by eapply IH. }
  destruct (c =? 34)%N; [intros [= _ <-]; lia|]. destruct (c =? 92)%N.
  - destruct l as [|e l]; [done|]. cbn [length] in *. destruct (e =? 117)%N.
    + destruct l as [|a [|b [|c' [|d l]]]]; try done. cbn [length] in *.
      destruct (hex_value a); [|done]. destruct (hex_value b); [|done]. destruct (hex_value c'); [|done].
      destruct (hex_value d); [|done]. intros H. eapply (Hrec l (λ p, _ :: p.1)) in H; lia.
    + destruct (unescape e); [|done]. intros H. eapply (Hrec l (λ p, _ :: p.1)) in H; lia.
  - destruct (c <? 32)%N; [done|]. intros H. eapply (Hrec l (λ p, _ :: p.1)) in H; lia.
Qed.
Lemma parse_number_length l v r : parse_number l = Some (v, r) → (length r < length l)%nat.
Proof.
  unfold parse_number. destruct (match after 45 l with Some r => ([45%N], r) | None => ([], l) end) as [m l1] eqn:Em.
  assert (length l1 ≤ length l)%nat.
  { destruct (after 45 l) eqn:Ea; injection Em as <- <-; [apply after_length in Ea|]; lia. }
  destruct (int_part l1) as [[i l2]|] eqn:Ei; [|done]. cbn.
  destruct (frac_part l2) as [[f l3]|] eqn:Ef; [|done]. cbn.
  destruct (exp_part l3) as [[e l4]|] eqn:Ee; [|done]. cbn. intros [= _ <-].
  assert (length l2 < length l1)%nat.
  { unfold int_part in Ei. destruct (span_digits l1) as [[|c d] k] eqn:E; [done|].
    apply span_digits_length in E. destruct (_ && _); [done|]. injection Ei as <- <-. cbn in E. lia. }
  assert (length l3 ≤ length l2)%nat.
  { unfold frac_part in Ef. destruct (after 46 l2) as [k|] eqn:Ea; [|by injection Ef as <- <-].
    apply after_length in Ea. destruct (span_digits k) as [[|c d] k'] eqn:E; [done|].
    apply span_digits_length in E. injection Ef as <- <-. cbn in E. lia. }
  assert (length l4 ≤ length l3)%nat; [|lia].
  unfold exp_part in Ee. destruct l3 as [|c l3]; [by injection Ee as <- <-|].
  destruct (_ || _); [|by injection Ee as <- <-].
  destruct (exp_sign l3) as [s k] eqn:Es. assert (length k ≤ length l3)%nat.
  { unfold exp_sign in Es. destruct (after 43 l3) eqn:E1; [injection Es as <- <-; apply after_length in E1; lia|].
    destruct (after 45 l3) eqn:E2; injection Es as <- <-; [apply after_length in E2|]; lia. }
  destruct (span_digits k) as [[|c' d] k'] eqn:E; [done|]. apply span_digits_length in E.
  injection Ee as <- <-. cbn in *. lia.
Qed.
Lemma expect_length t v l w r : expect t v l = Some (w, r) → (length r ≤ length l)%nat.
Proof.
  revert l. induction t as [|c t IH]; intros l; cbn; [by intros [= _ <-]|].
  destruct (after c l) as [k|] eqn:E; [|done]. cbn. intros H%IH. apply after_length in E. lia.
Qed.
Lemma parse_consumes n :
  (∀ l v r, parse_value n l = Some (v, r) → (length r < length l)%nat) ∧
  (∀ acc l v r, parse_elements n acc l = Some (v, r) → (length r < length l)%nat) ∧
  (∀ acc l v r, parse_members n acc l = Some (v, r) → (length r < length l)%nat).
Proof.
  induction n as [|n (IHv & IHe & IHm)]; [done|]. split_and!.
  - intros l v r. cbn [parse_value]. pose proof (skip_ws_length l). destruct (skip_ws l) as [|c k]; [done|].
    cbn [length] in *. pose proof (skip_ws_length k).
    destruct (c =? 123)%N.
    { destruct (after 125 _) eqn:E; [intros [= _ <-]; apply after_length in E; lia|]. intros ?%IHm. lia. }
    destruct (c =? 91)%N.
    { destruct (after 93 _) eqn:E; [intros [= _ <-]; apply after_length in E; lia|]. intros ?%IHe. lia. }
    destruct (c =? 34)%N.
    { destruct (parse_string k) as [[s r']|] eqn:E; [|done]. cbn. intros [= _ <-].
      apply (parse_string_length (length k)) in E; [lia|done]. }
    destruct (c =? 116)%N; [intros ?%expect_length; lia|]. destruct (c =? 102)%N; [intros ?%expect_length; lia|].
    destruct (c =? 110)%N; [intros ?%expect_length; lia|]. intros E%parse_number_length. cbn in E. lia.
  - intros acc l v r. cbn [parse_elements]. destruct (parse_value n l) as [[w k]|] eqn:E; [|done]. cbn.
    apply IHv in E. pose proof (skip_ws_length k).
    destruct (after 44 _) eqn:E1; [intros ?%IHe; apply after_length in E1; lia|].
    destruct (after 93 _) eqn:E2; [|done]. intros [= _ <-]. apply after_length in E2. lia.
  - intros acc l v r. cbn [parse_members]. pose proof (skip_ws_length l).
    destruct (after 34 _) as [k|] eqn:E0; [|done]. cbn. apply after_length in E0.
    destruct (parse_string k) as [[s k1]|] eqn:Es; [|done]. cbn. apply (parse_string_length (length k)) in Es; [|done].
    pose proof (skip_ws_length k1). destruct (after 58 _) as [k2|] eqn:Ec; [|done]. cbn. apply after_length in Ec.
    destruct (parse_value n k2) as [[w k3]|] eqn:E; [|done]. cbn. apply IHv in E. pose proof (skip_ws_length k3).
    destruct (after 44 _) eqn:E1; [intros ?%IHm; apply after_length in E1; lia|].
    destruct (after 125 _) eqn:E2; [|done]. intros [= _ <-]. apply after_length in E2. lia.
Qed.
Lemma parse_fuel k l : (length l ≤ k)%nat →
  (∀ n m, (2 * length l + 1 ≤ n)%nat → (2 * length l + 1 ≤ m)%nat → parse_value n l = parse_value m l) ∧
  (∀ n m acc, (2 * length l + 2 ≤ n)%nat → (2 * length l + 2 ≤ m)%nat →
     parse_elements n acc l = parse_elements m acc l) ∧
  (∀ n m acc, (2 * length l + 2 ≤ n)%nat → (2 * length l + 2 ≤ m)%nat →
     parse_members n acc l = parse_members m acc l).
Proof.
  revert l. induction k as [|k IH]; intros l Hk.
  { destruct l; [|cbn in Hk; lia]. split_and!.
    - by intros [|n] [|m] Hn Hm.
    - by intros [|[|n]] [|[|m]] acc Hn Hm; cbn in *; try lia.
    - by intros [|n] [|m] acc Hn Hm. }
  assert (Hv : ∀ n m, (2 * length l + 1 ≤ n)%nat → (2 * length l + 1 ≤ m)%nat → parse_value n l = parse_value m l).
  { intros [|n] [|m] Hn Hm; try lia. cbn [parse_value]. pose proof (skip_ws_length l).
    destruct (skip_ws l) as [|c r]; [done|]. cbn [length] in *.
    destruct (IH r ltac:(lia)) as (_ & He & Hm').
    destruct (c =? 123)%N; [destruct (after 125 _); [done|]; apply Hm'; lia|].
    destruct (c =? 91)%N; [destruct (after 93 _); [done|]; apply He; lia|]. done. }
  split_and!; [done|..].
  - intros [|n] [|m] acc Hn Hm; try lia. cbn [parse_elements]. rewrite (Hv n m) by lia.
    destruct (parse_value m l) as [[v r]|] eqn:E; [|done]. cbn. apply parse_consumes in E.
    pose proof (skip_ws_length r). destruct (after 44 _) as [r'|] eqn:E1; [|done]. apply after_length in E1.
    apply (IH r'); lia.
  - intros [|n] [|m] acc Hn Hm; try lia. cbn [parse_members]. pose proof (skip_ws_length l).
    destruct (after 34 _) as [r|] eqn:E0; [|done]. cbn. apply after_length in E0.
    destruct (parse_string r) as [[s r1]|] eqn:Es; [|done]. cbn.
    apply (parse_string_length (length r)) in Es; [|done]. pose proof (skip_ws_length r1).
    destruct (after 58 _) as [r2|] eqn:Ec; [|done]. cbn. apply after_length in Ec.
    destruct (IH r2 ltac:(lia)) as (Hv2 & _ & _). rewrite (Hv2 n m) by lia.
    destruct (parse_value m r2) as [[v r3]|] eqn:E; [|done]. cbn. apply parse_consumes in E.
    pose proof (skip_ws_length r3). destruct (after 44 _) as [r'|] eqn:E1; [|done]. apply after_length in E1.
    apply (IH r'); lia.
Qed.
(** With any more fuel [JSON_parse] would answer the same. *)
Lemma JSON_parse_total s n : (2 * length (units s) + 2 ≤ n)%nat →
  JSON_parse s = '(v, r) ← parse_value n (units s); match skip_ws r with [] => Some v | _ => None end.
Proof.
  intros Hn. unfold JSON_parse. by rewrite (proj1 (parse_fuel (length (units s)) (units s) ltac:(done)) _ n) by lia.
Qed.
