(* ===== verification/PendingApply.v ===== *)
(** * The unknown-outcome apply that survives a reload: pending-apply.ts

    An apply whose answer was lost keeps its operation id in [sessionStorage],
    under the SHA-256 of the request it was sent for, so that a retry after a
    remount or a reload continues the same operation. The request itself, which
    may carry secrets, is never stored. *)

From stdpp Require Import base list strings gmap.
From Stdlib Require Import ZArith NArith QArith Lia.
From S2P Require Import Prelude JsValue Uri Sha256 JsonText JsonParse.

Open Scope Z_scope.

(** ** Definitions *)

Record PendingAttempt := { att_id : jstring; requestKey : jstring; att_at : number }.
Definition PENDING_ATTEMPT_TTL_MS : number := of_Z (10 * 60 * 1000).
Definition PENDING_STORAGE_PREFIX : jstring := "kubecenter:pending-apply:"%js.

(** [sessionStorage]: its entries in order; [st_open] is false when every access
    throws (a private window, blocked site data), [st_full] when [setItem]
    alone does. *)
Record Storage := { st_items : list (jstring * jstring); st_open : bool; st_full : bool }.
Definition with_items (st : Storage) (l : list (jstring * jstring)) : Storage :=
  {| st_items := l; st_open := st_open st; st_full := st_full st |}.

Definition storageKey (key : jstring) : jstring := (PENDING_STORAGE_PREFIX +++ sha256Hex key)%js.

(** The fields an entry must have to be continued. *)
Definition stored_attempt (parsed : jsval) (key digest : jstring) (now : number) : option PendingAttempt :=
  match parsed with
  | JObj fields =>
      match field fields "id", field fields "at", field fields "digest" with
      | JStr id, JNum at_, JStr stored =>
          if negb (js_eqb id ""%js) && js_eqb stored digest
             && num_leb (of_Z 0) (num_sub now at_)
             && num_ltb (num_sub now at_) PENDING_ATTEMPT_TTL_MS
          then Some {| att_id := id; requestKey := key; att_at := at_ |} else None
      | _, _, _ => None
      end
  | _ => None
  end.
Definition readStoredAttempt (key : jstring) (now : number) (st : Storage)
    : option PendingAttempt * Storage :=
  let digest := sha256Hex key in
  if negb (st_open st) then (None, st) else
  match assoc (storageKey key) (st_items st) with
  | None => (None, st)
  | Some raw =>
      match stored_attempt (default JNull (JSON_parse raw)) key digest now with
      | Some a => (Some a, st)
      | None => (None, with_items st (remove_key (storageKey key) (st_items st)))
      end
  end.

Section Write.
(** [JSON.stringify] where the printer of JsonParse.v does not reach: a
    timestamp that is not a whole number of milliseconds. *)
Context (print_other : jsval → jstring).

Definition stringify (v : jsval) : jstring := default (print_other v) (JSON_stringify v).
Definition attempt_value (a : PendingAttempt) : jsval :=
  JObj [("id"%js, JStr (att_id a)); ("at"%js, JNum (att_at a)); ("digest"%js, JStr (sha256Hex (requestKey a)))].
Definition writeStoredAttempt (a : PendingAttempt) (st : Storage) : Storage :=
  if negb (st_open st) || st_full st then st
  else with_items st (assoc_set (storageKey (requestKey a)) (stringify (attempt_value a)) (st_items st)).
End Write.

Definition clearStoredAttempt (key : jstring) (st : Storage) : Storage :=
  if negb (st_open st) then st else with_items st (remove_key (storageKey key) (st_items st)).
Definition clearPendingApplies (st : Storage) : Storage :=
  if negb (st_open st) then st else
  let doomed := filter (λ k, js_startsWith k PENDING_STORAGE_PREFIX = true) (st_items st).*1 in
  with_items st (foldl (λ l k, remove_key k l) (st_items st) doomed).

(** ** Lemmas *)

#[global] Opaque sha256Hex.

Lemma storageKey_inj a b : storageKey a = storageKey b → sha256Hex a = sha256Hex b.
Proof.
  unfold storageKey, js_app. intros H%(f_equal (λ s, drop (length (units PENDING_STORAGE_PREFIX)) (units s))).
  cbv beta in H. cbn [units] in H. rewrite !drop_app_length in H.
  destruct (sha256Hex a) as [x], (sha256Hex b) as [y]. cbn [units] in H. by subst.
Qed.
Lemma storageKey_prefix a : js_startsWith (storageKey a) PENDING_STORAGE_PREFIX = true.
Proof. apply bool_decide_eq_true. unfold storageKey, js_app. cbn [units]. apply take_app_length. Qed.

Lemma hex_char_bound d : 0 <= d < 16 → (hex_char d < 65536)%N.
Proof. unfold hex_char. intros. destruct (Z.ltb_spec d 10); lia. Qed.
Lemma digest_units s : Forall (λ c, c < 65536)%N (units (sha256Hex s)).
Proof.
  with_strategy transparent [sha256Hex] unfold sha256Hex. cbn [units]. apply Forall_bind, Forall_true. intros x. unfold hex8.
  apply Forall_fmap, Forall_true. intros k. apply hex_char_bound, Z.mod_pos_bound. lia.
Qed.

(** The text of an attempt minted at a whole millisecond. *)
Definition minted (a : PendingAttempt) : Prop :=
  att_id a ≠ ""%js ∧ js_units (att_id a) ∧ ∃ ms, att_at a = of_Z ms ∧ 0 <= ms < 2 ^ 53.
Lemma attempt_text_parses print_other a : minted a →
  JSON_parse (stringify print_other (attempt_value a)) = Some (attempt_value a).
Proof.
  intros (_ & Hid & ms & Hat & Hms). unfold stringify.
  assert (∃ t, JSON_stringify (attempt_value a) = Some t) as [t Ht].
  { unfold JSON_stringify, attempt_value. rewrite Hat. unfold of_Z. cbn [json_text mapM].
    rewrite (forallb_units (att_id a)) by done. rewrite (forallb_units (sha256Hex _)) by apply digest_units.
    cbn [Qnum Qden inject_Z]. rewrite (proj2 (Z.ltb_lt (Z.abs ms) (2 ^ 53))) by lia. eexists. reflexivity. }
  rewrite Ht. cbn [default id]. eapply JSON_roundtrip; [exact Ht|]. done.
Qed.

Lemma num_sub_int a b : Z.abs (a - b) < 2 ^ 53 → num_sub (of_Z a) (of_Z b) = of_Z (a - b).
Proof.
  intros H. cbn. rewrite <- fl_int by done. f_equal. unfold inject_Z, Qplus, Qopp. cbn. by rewrite !Z.mul_1_r.
Qed.
Lemma num_leb_int a b : num_leb (of_Z a) (of_Z b) = (a <=? b).
Proof.
  unfold num_leb, of_Z. cbn [num_compare].
  destruct (Qcompare_spec (inject_Z a) (inject_Z b)) as [H|H|H]; unfold Qeq, Qlt in H; cbn in H;
    destruct (Z.leb_spec a b); done || lia.
Qed.
Lemma num_ltb_int' a b : num_ltb (of_Z a) (of_Z b) = (a <? b).
Proof.
  unfold num_ltb, of_Z. cbn [num_compare].
  destruct (Qcompare_spec (inject_Z a) (inject_Z b)) as [H|H|H]; unfold Qeq, Qlt in H; cbn in H;
    destruct (Z.ltb_spec a b); done || lia.
Qed.

(** Within its window, at [n] milliseconds. *)
Definition fresh_at (a : PendingAttempt) (n : Z) : bool :=
  match att_at a with Fin q => (Qnum q <=? n) && (n - Qnum q <? 600000) | _ => false end.
Lemma stored_attempt_minted a n : minted a → 0 <= n < 2 ^ 53 →
  stored_attempt (attempt_value a) (requestKey a) (sha256Hex (requestKey a)) (of_Z n) =
    if fresh_at a n then Some a else None.
Proof.
  intros (Hid & _ & ms & Hat & Hms) Hn. unfold stored_attempt, attempt_value, fresh_at.
  change (field _ "id") with (JStr (att_id a)). change (field _ "at") with (JNum (att_at a)).
  change (field _ "digest") with (JStr (sha256Hex (requestKey a))). cbn iota. rewrite Hat.
  rewrite (proj2 (js_eqb_neq (att_id a) ""%js)) by done. rewrite (proj2 (js_eqb_eq _ _) eq_refl).
  rewrite num_sub_int by lia. unfold PENDING_ATTEMPT_TTL_MS. rewrite num_leb_int, num_ltb_int'.
  cbn [negb andb of_Z Qnum inject_Z]. replace (0 <=? n - ms) with (ms <=? n) by (destruct (Z.leb_spec ms n), (Z.leb_spec 0 (n - ms)); lia).
  change (10 * 60 * 1000) with 600000. destruct (_ && _); [|done]. f_equal. destruct a. cbn in *. by subst.
Qed.
Lemma read_other print_other a key st : sha256Hex key ≠ sha256Hex (requestKey a) →
  assoc (storageKey key) (st_items (writeStoredAttempt print_other a st)) = assoc (storageKey key) (st_items st).
Proof.
  intros Hne. unfold writeStoredAttempt. destruct (_ || _); [done|]. cbn [with_items st_items].
  apply assoc_set_ne. intros E. by apply storageKey_inj in E.
Qed.
Lemma remove_keys_assoc {V} ks k (l : list (jstring * V)) :
  assoc k (foldl (λ l k, remove_key k l) l ks) = if decide (k ∈ ks) then None else assoc k l.
Proof.
  revert l. induction ks as [|j ks IH]; intros l; [done|]. cbn [foldl]. rewrite IH, remove_key_assoc.
  repeat case_decide; set_solver.
Qed.
Lemma assoc_keys {V} k (l : list (jstring * V)) : k ∉ l.*1 → assoc k l = None.
Proof. by apply assoc_None. Qed.

(** ** Properties *)

(** C40. A stored attempt reads back as itself for exactly its ten minutes, and past
    them it is removed; writing it does not disturb the entry of any request
    with another digest; clearing one request or signing out forgets it, and
    signing out leaves everything that is not a pending apply alone; and what
    is stored depends on the request only through its digest, so the manifest
    itself never reaches the storage. *)
Theorem pending_store_exact print_other a st n :
  minted a → st_open st = true → st_full st = false → 0 <= n < 2 ^ 53 →
  let st' := writeStoredAttempt print_other a st in
  readStoredAttempt (requestKey a) (of_Z n) st' =
    (if fresh_at a n then (Some a, st')
     else (None, with_items st' (remove_key (storageKey (requestKey a)) (st_items st')))) ∧
  (∀ key now, sha256Hex key ≠ sha256Hex (requestKey a) →
     fst (readStoredAttempt key now st') = fst (readStoredAttempt key now st)) ∧
  (∀ now, fst (readStoredAttempt (requestKey a) now (clearStoredAttempt (requestKey a) st')) = None) ∧
  (∀ key now, fst (readStoredAttempt key now (clearPendingApplies st')) = None) ∧
  (∀ k, js_startsWith k PENDING_STORAGE_PREFIX = false →
     assoc k (st_items (clearPendingApplies st')) = assoc k (st_items st)) ∧
  (∀ b, att_id b = att_id a → att_at b = att_at a → sha256Hex (requestKey b) = sha256Hex (requestKey a) →
     writeStoredAttempt print_other b st = st').
Proof.
  intros Hm Ho Hf Hn st'.
  assert (Est : st' = with_items st (assoc_set (storageKey (requestKey a))
    (stringify print_other (attempt_value a)) (st_items st))).
  { subst st'. unfold writeStoredAttempt. by rewrite Ho, Hf. }
  assert (Ho' : st_open st' = true) by (by rewrite Est).
  split_and!.
  - unfold readStoredAttempt. rewrite Ho', Est. cbn [negb with_items st_items]. rewrite assoc_set_eq.
    rewrite attempt_text_parses by done. cbn [default id]. rewrite stored_attempt_minted by done.
    by destruct (fresh_at a n).
  - intros key now Hne. unfold readStoredAttempt. rewrite Ho, Ho'. cbn [negb].
    subst st'. rewrite (read_other print_other a key st Hne).
    destruct (assoc _ _); [|done]. by destruct (stored_attempt _ _ _ _).
  - intros now. unfold readStoredAttempt, clearStoredAttempt. rewrite Ho'. cbn [negb with_items st_open st_items].
    rewrite Ho', remove_key_assoc, decide_True by done. done.
  - intros key now. unfold readStoredAttempt, clearPendingApplies. rewrite Ho'. cbn [negb with_items st_open st_items].
    rewrite Ho', remove_keys_assoc. case_decide as Hd; [done|].
    rewrite assoc_keys; [done|]. intros Hin. apply Hd, list_elem_of_filter.
    split; [apply storageKey_prefix|done].
  - intros k Hk. unfold clearPendingApplies. rewrite Ho'. cbn [negb with_items st_items].
    rewrite remove_keys_assoc, decide_False by (intros [Hp _]%list_elem_of_filter; congruence).
    rewrite Est. cbn [with_items st_items]. apply assoc_set_ne. intros E.
    rewrite <- E, storageKey_prefix in Hk. done.
  - intros b Hid Hat Hsha. rewrite Est. unfold writeStoredAttempt, attempt_value, storageKey.
    by rewrite Ho, Hf, Hid, Hat, Hsha.
Qed.

(** ** Witness *)

Definition demo_attempt : PendingAttempt :=
  {| att_id := "7c0e"%js; requestKey := "[false]"%js; att_at := of_Z 1000 |}.
Definition demo_storage : Storage :=
  {| st_items := [("theme"%js, "dark"%js)]; st_open := true; st_full := false |}.
Lemma demo_minted : minted demo_attempt.
Proof. split_and!; [done|repeat constructor|by exists 1000]. Qed.
Lemma pending_store_exact_witness :
  let st' := writeStoredAttempt (λ _, ""%js) demo_attempt demo_storage in
  readStoredAttempt "[false]"%js (of_Z 2000) st' = (Some demo_attempt, st') ∧
  assoc "theme"%js (st_items (clearPendingApplies st')) = Some "dark"%js.
Proof.
  destruct (pending_store_exact (λ _, ""%js) demo_attempt demo_storage 2000 demo_minted eq_refl eq_refl
    ltac:(lia)) as (H & _ & _ & _ & C & _).
  split; [exact H|]. exact (C "theme"%js eq_refl).
Defined.
