(* ===== verification/Params.v ===== *)
(** * Widget parameters: params.ts

    What a parameter value has to satisfy, when two placements are the same,
    and the cache key a parameterized read is issued under. A lookup of a
    caller-chosen key in an object literal goes through [table_get], so the
    members of [Object.prototype] are accounted for; [None] in an [option]
    result of a function that cannot otherwise fail is a thrown [TypeError]. *)

From stdpp Require Import base list strings gmap sorting.
From Stdlib Require Import ZArith QArith Qround Lia Permutation.
From S2P Require Import Prelude JsValue Types.

Open Scope Z_scope.

(** ** Definitions *)

Definition PARAM_KEY_NAMESPACE : jstring := "namespace"%js.
Definition PARAM_KEY_SERVICE : jstring := "service"%js.
Definition KNOWN_PARAM_KEYS : list jstring := [PARAM_KEY_NAMESPACE; PARAM_KEY_SERVICE].

(** [/^[a-z]([-a-z0-9]{0,61}[a-z0-9])?$/] *)
Definition is_lower (c : N) : bool := ((97 <=? c) && (c <=? 122))%N.
Definition is_alnum (c : N) : bool := is_lower c || ((48 <=? c) && (c <=? 57))%N.
Definition is_label_unit (c : N) : bool := is_alnum c || (c =? 45)%N.
Definition service_shape (s : jstring) : bool :=
  match units s with
  | [] => false
  | c :: rest =>
      is_lower c &&
      match rev rest with
      | [] => true
      | z :: middle => is_alnum z && forallb is_label_unit middle && (length middle <=? 61)%nat
      end
  end.
Definition PARAM_VALUE_SHAPE : list (jstring * (jstring → bool)) :=
  [(PARAM_KEY_SERVICE, service_shape)].

Definition PARAM_KEY_PARENT : list (jstring * jstring) :=
  [(PARAM_KEY_SERVICE, PARAM_KEY_NAMESPACE)].
(** [Missing] is the [null] of [?? null]. *)
Definition paramParentKey (key : jstring) : prop jstring := table_get PARAM_KEY_PARENT key.

Inductive ParamFieldBlock := awaiting_parent | no_options.
Record ParamFieldState := { enabled : bool; blocked : option ParamFieldBlock }.

(** [(values[k] ?? "") === ""] *)
Definition is_blank (values : list (jstring * jstring)) (k : jstring) : bool :=
  match table_get values k with
  | Own s => js_eqb s ""
  | Inherited => false
  | Missing => true
  end.

(** An inherited parent is a function; stringified, it names no value. *)
Definition paramFieldState (key : jstring) (values : list (jstring * jstring))
    (options : list jstring) : ParamFieldState :=
  let awaiting := match paramParentKey key with
    | Own parent => is_blank values parent
    | Inherited => true
    | Missing => false
    end in
  if awaiting then {| enabled := false; blocked := Some awaiting_parent |}
  else match options with
    | [] => {| enabled := false; blocked := Some no_options |}
    | _ => {| enabled := true; blocked := None |}
    end.

Definition withParamValue (values : list (jstring * jstring)) (key value : jstring)
    : list (jstring * jstring) :=
  foldl (λ next '(child, parent),
      if js_eqb parent key && bool_decide (child ∈ next.*1) then assoc_set child ""%js next else next)
    (assoc_set key value values) PARAM_KEY_PARENT.

Definition MAX_PARAM_KEY_LEN : N := 32.
Definition MAX_PARAM_VALUE_LEN : N := 253.

Definition PARAMETERIZED_SOURCE_PARAMS : list (jstring * list jstring) :=
  [("diagnostics-summary"%js, [PARAM_KEY_NAMESPACE]);
   ("vulnerability-reports"%js, [PARAM_KEY_NAMESPACE]);
   ("mesh-golden-signals"%js, [PARAM_KEY_NAMESPACE; PARAM_KEY_SERVICE]);
   ("hubble-flows"%js, [PARAM_KEY_NAMESPACE])].

(** [/\p{Cc}/u] *)
Definition is_control (c : N) : bool := ((c <=? 31) || (127 <=? c) && (c <=? 159))%N.
Definition CONTROL_CHARS (s : jstring) : bool := existsb is_control (units s).

Definition is_high_surrogate (c : N) : bool := ((55296 <=? c) && (c <=? 56319))%N.
Definition is_low_surrogate (c : N) : bool := ((56320 <=? c) && (c <=? 57343))%N.
(** [[...value].length]: a surrogate pair is one code point. *)
Fixpoint count_runes (high_before : bool) (l : list N) : N :=
  match l with
  | [] => 0
  | c :: l' =>
      if high_before && is_low_surrogate c then count_runes false l'
      else 1 + count_runes (is_high_surrogate c) l'
  end%N.
Definition runeCount (value : jstring) : N := count_runes false (units value).

Definition msg_choose : jstring := "Choose a value."%js.
Definition msg_length : jstring := "Use 253 characters or fewer."%js.
Definition msg_control : jstring := "Control characters are not allowed."%js.
Definition msg_offered : jstring := "Choose one of the offered values."%js.

(** [Some None] accepts, [Some (Some message)] refuses, [None] throws. *)
Definition paramValueError (key value : jstring) (allowed : list jstring)
    : option (option jstring) :=
  if js_eqb value "" then Some (Some msg_choose)
  else if (MAX_PARAM_VALUE_LEN <? runeCount value)%N then Some (Some msg_length)
  else if CONTROL_CHARS value then Some (Some msg_control)
  else match allowed with
  | _ :: _ => Some (if bool_decide (value ∈ allowed) then None else Some msg_offered)
  | [] =>
      match table_get PARAM_VALUE_SHAPE key with
      | Own shape => Some (if shape value then None else Some msg_offered)
      | Missing => Some None
      | Inherited => None
      end
  end.

Definition missingParamKeys (declared : option (list (jstring * list jstring)))
    (values : list (jstring * jstring)) : list jstring :=
  match declared with
  | None => []
  | Some d => filter (λ k, is_blank values k = true) (object_keys d)
  end.

Definition lenPrefixed (s : jstring) : jstring := (decimal (js_length s) +++ ":" +++ s)%js.

Definition own_value (params : list (jstring * jstring)) (k : jstring) : jstring :=
  default ""%js (assoc k params).
Definition encode_pair (kv : jstring * jstring) : jstring :=
  (lenPrefixed kv.1 +++ lenPrefixed kv.2)%js.
Definition canonicalParams (params : option (list (jstring * jstring))) : jstring :=
  match params with
  | None => ""%js
  | Some p =>
      js_concat ((λ k, encode_pair (k, own_value p k)) <$> js_sort js_compare (object_keys p))
  end.

Definition duplicatePlacementOf (items : list LayoutItem) (widgetId : jstring)
    (values : list (jstring * jstring)) (exceptInstanceId : option jstring)
    : option LayoutItem :=
  let identity := canonicalParams (Some values) in
  head (filter (λ i, id i = widgetId ∧ Some (instanceId i) ≠ exceptInstanceId ∧
                     canonicalParams (params i) = identity) items).

(** The declared keys with a value, sorted, with that value. *)
Definition carried_params (declared : list jstring) (params : list (jstring * jstring))
    : list (jstring * jstring) :=
  (λ k, (k, own_value params k)) <$>
    filter (λ k, is_blank params k = false) (js_sort js_compare declared).

(** Spreading an inherited member throws. *)
Definition sourceKeyFor (base : jstring) (params : list (jstring * jstring)) : option jstring :=
  match table_get PARAMETERIZED_SOURCE_PARAMS base with
  | Missing => Some base
  | Inherited => None
  | Own declared =>
      match carried_params declared params with
      | [] => Some base
      | parts => Some (base +++ ":" +++ js_concat (encode_pair <$> parts))%js
      end
  end.

(** [o[k] = v] on a plain object: assigning a string to [__proto__] does
    nothing. *)
Definition assign {V} (k : jstring) (v : V) (l : list (jstring * V)) : list (jstring * V) :=
  if decide (k = "__proto__"%js) then l else assoc_set k v l.

(** [Number(s)] as a non-negative integer, the one use [decodeSourceKey] has. *)
Definition to_length (s : jstring) : option nat :=
  match js_Number s with
  | Fin q => if Qeq_bool q (inject_Z (Qfloor q)) && (0 <=? Qfloor q)
             then Some (Z.to_nat (Qfloor q)) else None
  | _ => None
  end.
(** One [n:s] off the front, or [None] where the code gives up. *)
Definition take_prefixed (rest : jstring) : option (jstring * jstring) :=
  match js_indexOf 58 rest with
  | Some (S c) =>
      let colon := S c in
      len ← to_length (js_take colon rest);
      let after := js_drop (S colon) rest in
      if (length (units after) <? len)%nat then None
      else Some (js_take len after, js_drop len after)
  | _ => None
  end.
(** The [while] loop. [Some None] is the early return with no parameters,
    [None] is "more turns than [fuel]". *)
Fixpoint decode_pairs (fuel : nat) (rest : jstring) (params : list (jstring * jstring))
    : option (option (list (jstring * jstring))) :=
  match units rest with
  | [] => Some (Some params)
  | _ =>
      match fuel with
      | O => None
      | S f =>
          match take_prefixed rest with
          | None => Some None
          | Some (k, rest1) =>
              match take_prefixed rest1 with
              | None => Some None
              | Some (v, rest2) => decode_pairs f rest2 (assign k v params)
              end
          end
      end
  end.
Definition decodeSourceKey (key : jstring) : jstring * list (jstring * jstring) :=
  match js_indexOf 58 key with
  | None => (key, [])
  | Some at_ =>
      let rest := js_drop (S at_) key in
      let ps := match decode_pairs (length (units rest)) rest [] with
        | Some (Some ps) => ps
        | _ => []
        end in
      (js_take at_ key, ps)
  end.

(** [[...new Set(l)]]: first occurrences, in order. *)
Fixpoint dedupe (seen l : list jstring) : list jstring :=
  match l with
  | [] => []
  | a :: l' => if decide (a ∈ seen) then dedupe seen l' else a :: dedupe (a :: seen) l'
  end.
Definition widgetSourceKeys (sources : list jstring) (params : list (jstring * jstring))
    : option (list jstring) :=
  dedupe [] <$> mapM (λ s, sourceKeyFor s params) sources.

(** ** The length-prefixed encoding *)

Lemma unit_index_app c l r : c ∉ l → unit_index c (l ++ c :: r) = Some (length l).
Proof.
  induction l as [|a l IH]; intros Hni; simpl; [by rewrite N.eqb_refl|].
  destruct (N.eqb_spec a c) as [->|]; [by exfalso; apply Hni; left|].
  rewrite IH; [done|]. intros ?. apply Hni. by right.
Qed.
Lemma unit_index_Some c l i :
  unit_index c l = Some i → ∃ pre post, l = pre ++ c :: post ∧ length pre = i ∧ c ∉ pre.
Proof.
  revert i. induction l as [|a l IH]; intros i; simpl; [done|].
  destruct (N.eqb_spec a c) as [->|Hne].
  - intros [= <-]. exists [], l. split; [done|]. split; [done|]. by intros ?%elem_of_nil.
  - destruct (unit_index c l) as [j|]; [|done]. intros [= <-].
    destruct (IH j eq_refl) as (pre & post & -> & <- & Hni). exists (a :: pre), post.
    split; [done|]. split; [done|]. intros [?|?]%elem_of_cons; congruence.
Qed.
Lemma split_unique c (l l' r r' : list N) :
  c ∉ l → c ∉ l' → l ++ c :: r = l' ++ c :: r' → l = l' ∧ r = r'.
Proof.
  intros H H' E. assert (Hi : length l = length l').
  { assert (Some (length l) = Some (length l')) as [= ?]; [|done].
    rewrite <- (unit_index_app c l r H), <- (unit_index_app c l' r' H'). by rewrite E. }
  apply app_inj_1 in E as [-> [= ->]]; done.
Qed.

Lemma digits_no_colon l : Forall is_digit l → 58%N ∉ l.
Proof. rewrite Forall_forall. intros H Hin. specialize (H _ Hin). unfold is_digit in H. lia. Qed.

Lemma lenPrefixed_units s r :
  units (lenPrefixed s +++ r)%js = units (decimal (js_length s)) ++ 58%N :: units s ++ units r.
Proof. simpl. rewrite <- !app_assoc. done. Qed.

(** Injective whatever the strings contain, and self-delimiting. *)
Lemma lenPrefixed_inj a b r r' :
  (lenPrefixed a +++ r = lenPrefixed b +++ r')%js → a = b ∧ r = r'.
Proof.
  intros E. apply (f_equal units) in E. rewrite !lenPrefixed_units in E.
  apply split_unique in E as [E1 E2]; [|apply digits_no_colon, decimal_digits..].
  assert (js_length a = js_length b) as Hl.
  { apply N2Z.inj. rewrite <- !decimal_value_eq. by rewrite E1. }
  unfold js_length in Hl. apply Nat2N.inj in Hl.
  apply app_inj_1 in E2 as [Ea Er]; [|done]. destruct a, b, r, r'. simpl in *. by subst.
Qed.

Lemma js_concat_cons a l : js_concat (a :: l) = (a +++ js_concat l)%js.
Proof. done. Qed.
Lemma encode_pair_nonempty kv r : units (encode_pair kv +++ r)%js ≠ [].
Proof.
  intros E. apply (f_equal length) in E. unfold encode_pair in E. simpl in E.
  rewrite !length_app in E. simpl in E. lia.
Qed.
Lemma encode_pairs_inj l l' :
  js_concat (encode_pair <$> l) = js_concat (encode_pair <$> l') → l = l'.
Proof.
  revert l'. induction l as [|kv l IH]; intros [|kv' l']; rewrite ?fmap_cons, ?js_concat_cons;
    try done; intros E.
  - by destruct (encode_pair_nonempty kv' (js_concat (encode_pair <$> l')));
      apply (f_equal units) in E.
  - by destruct (encode_pair_nonempty kv (js_concat (encode_pair <$> l)));
      apply (f_equal units) in E.
  - unfold encode_pair in E at 1 3. rewrite <- !js_app_assoc in E.
    apply lenPrefixed_inj in E as [E1 E]. apply lenPrefixed_inj in E as [E2 E].
    apply IH in E as ->. destruct kv, kv'. simpl in *. by subst.
Qed.

(** Reading one component back. The bound is the largest string length there
    is: ECMA-262 strings have fewer than 2^53 code units. *)
Lemma to_length_decimal n : (n < 2 ^ 53)%N → to_length (decimal n) = Some (N.to_nat n).
Proof.
  intros Hn. unfold to_length. rewrite js_Number_decimal by done. unfold of_Z.
  rewrite Qfloor_Z. rewrite (proj2 (Qeq_bool_iff _ _)) by done.
  destruct (Z.leb_spec 0 (Z.of_N n)); [|lia]. simpl. f_equal. lia.
Qed.
Lemma take_prefixed_lenPrefixed s r :
  (js_length s < 2 ^ 53)%N → take_prefixed (lenPrefixed s +++ r)%js = Some (s, r).
Proof.
  intros Hs. set (d := decimal (js_length s)).
  assert (E : (lenPrefixed s +++ r)%js = JS (units d ++ 58%N :: units s ++ units r)).
  { transitivity (JS (units (lenPrefixed s +++ r)%js)); [done|].
    by rewrite lenPrefixed_units. }
  assert (Hdig : 58%N ∉ units d) by apply digits_no_colon, decimal_digits.
  assert (Hne : units d ≠ []) by apply decimal_nonempty.
  assert (Hto : to_length d = Some (length (units s))).
  { unfold d. rewrite to_length_decimal by done. unfold js_length. by rewrite Nat2N.id. }
  rewrite E. clearbody d. unfold take_prefixed, js_indexOf. cbn [units].
  rewrite unit_index_app by done.
  destruct (length (units d)) as [|c] eqn:Hd; [by apply length_zero_iff_nil in Hd|].
  cbn iota zeta. rewrite <- Hd. unfold js_take, js_drop. cbn [units].
  rewrite take_app_length. replace (JS (units d)) with d by (by destruct d).
  rewrite Hto. cbn [mbind option_bind].
  replace (drop (S (length (units d))) (units d ++ 58%N :: units s ++ units r))
    with (units s ++ units r).
  2:{ symmetry. rewrite cons_middle, (assoc_L (++)).
      rewrite <- (drop_app_length (units d ++ [58%N]) (units s ++ units r)) at 2.
      f_equal. rewrite length_app. simpl. lia. }
  rewrite length_app.
  destruct (Nat.ltb_spec (length (units s) + length (units r)) (length (units s))); [lia|].
  rewrite take_app_length, drop_app_length. by destruct s, r.
Qed.
Lemma take_prefixed_shrinks rest a rest' :
  take_prefixed rest = Some (a, rest') → (length (units rest') < length (units rest))%nat.
Proof.
  unfold take_prefixed, js_indexOf. destruct (unit_index 58 (units rest)) as [[|c]|] eqn:Hi; try done.
  apply unit_index_Some in Hi as (pre & post & Hu & Hlen & _).
  destruct (to_length _) as [len|]; [|done]. cbn [mbind option_bind].
  destruct (_ <? len)%nat; [done|]. intros [= _ <-]. unfold js_drop. simpl units.
  rewrite !length_drop, Hu, length_app. simpl. lia.
Qed.

(** The decoding loop always finishes within its fuel. *)
Lemma decode_pairs_total fuel rest ps :
  (length (units rest) ≤ fuel)%nat → is_Some (decode_pairs fuel rest ps).
Proof.
  revert rest ps. induction fuel as [|f IH]; intros rest ps Hf; simpl.
  - destruct (units rest); [by eauto|simpl in Hf; lia].
  - destruct (units rest) eqn:Hu; [by eauto|].
    destruct (take_prefixed rest) as [[k rest1]|] eqn:E1; [|by eauto].
    destruct (take_prefixed rest1) as [[v rest2]|] eqn:E2; [|by eauto].
    apply IH. apply take_prefixed_shrinks in E1, E2. rewrite Hu in *. lia.
Qed.

Definition short_pair (kv : jstring * jstring) : Prop :=
  (js_length kv.1 < 2 ^ 53)%N ∧ (js_length kv.2 < 2 ^ 53)%N.

Lemma decode_pairs_encode l fuel acc :
  Forall short_pair l → (length l ≤ fuel)%nat →
  decode_pairs fuel (js_concat (encode_pair <$> l)) acc
    = Some (Some (foldl (λ ps kv, assign kv.1 kv.2 ps) acc l)).
Proof.
  intros Hl. revert fuel acc. induction Hl as [|kv l [Hk Hv] Hl IH]; intros fuel acc Hf.
  { by destruct fuel. }
  destruct fuel as [|fuel]; simpl in Hf; [lia|].
  rewrite fmap_cons, js_concat_cons. cbn [decode_pairs].
  destruct (units (encode_pair kv +++ js_concat (encode_pair <$> l))%js) eqn:Hu;
    [by apply encode_pair_nonempty in Hu|].
  unfold encode_pair at 1. rewrite <- js_app_assoc, take_prefixed_lenPrefixed by done.
  rewrite take_prefixed_lenPrefixed by done. rewrite IH by lia. done.
Qed.

Lemma assign_all acc l :
  NoDup (acc.*1 ++ l.*1) → "__proto__"%js ∉ l.*1 →
  foldl (λ ps (kv : jstring * jstring), assign kv.1 kv.2 ps) acc l = acc ++ l.
Proof.
  revert acc. induction l as [|[k v] l IH]; intros acc Hnd Hp; simpl; [by rewrite app_nil_r|].
  assert (Hset : assign k v acc = acc ++ [(k, v)]).
  { unfold assign. rewrite decide_False; [|intros ->; apply Hp; by left].
    apply assoc_set_fresh. apply NoDup_app in Hnd as (_ & Hd & _).
    intros Hin. apply (Hd k Hin). by left. }
  rewrite Hset, IH.
  - by rewrite <- app_assoc.
  - rewrite fmap_app, <- app_assoc. done.
  - intros ?. apply Hp. by right.
Qed.
Lemma length_le_concat l : (length l ≤ length (units (js_concat (encode_pair <$> l))))%nat.
Proof.
  induction l as [|kv l IH]; [done|]. rewrite fmap_cons, js_concat_cons. simpl.
  rewrite !length_app. simpl in *. lia.
Qed.

(** ** Parameter maps up to key order *)

Lemma own_value_pairs (p : list (jstring * jstring)) :
  NoDup p.*1 → (λ k, (k, own_value p k)) <$> p.*1 = p.
Proof.
  intros Hnd. rewrite <- list_fmap_compose. rewrite <- (list_fmap_id p) at 2.
  apply list_fmap_ext. intros i [k v] Hi. simpl. unfold own_value.
  by rewrite (assoc_NoDup k v) by (done || by eapply list_elem_of_lookup_2).
Qed.
(** The pairs [canonicalParams] encodes, in key order. *)
Definition sorted_params (p : list (jstring * jstring)) : list (jstring * jstring) :=
  (λ k, (k, own_value p k)) <$> js_sort js_compare (object_keys p).
Lemma canonicalParams_encode p :
  canonicalParams (Some p) = js_concat (encode_pair <$> sorted_params p).
Proof. unfold canonicalParams, sorted_params. by rewrite <- list_fmap_compose. Qed.
Lemma sorted_params_perm p : NoDup p.*1 → sorted_params p ≡ₚ p.
Proof.
  intros Hnd. unfold sorted_params. rewrite js_sort_perm, object_keys_perm.
  by rewrite own_value_pairs.
Qed.
#[export] Instance js_compare_antisymm : AntiSymm (=) (cmp_le js_compare).
Proof.
  intros a b Hab Hba. apply js_compare_eq. unfold cmp_le in *.
  pose proof (cmp_sym (cmp:=js_compare) a b). by destruct (js_compare a b), (js_compare b a).
Qed.
Lemma js_sort_strings_perm l l' : l ≡ₚ l' → js_sort js_compare l = js_sort js_compare l'.
Proof.
  intros Hp. apply (StronglySorted_unique (cmp_le js_compare)).
  1-2: apply js_sort_sorted; apply _.
  by rewrite !js_sort_perm.
Qed.
Lemma assoc_perm {V} (p q : list (jstring * V)) k :
  NoDup p.*1 → p ≡ₚ q → assoc k p = assoc k q.
Proof.
  intros Hnd Hp. assert (Hnd' : NoDup q.*1) by (by rewrite <- Hp).
  destruct (assoc k q) as [v|] eqn:E.
  - apply assoc_NoDup; [done|]. rewrite Hp. by apply assoc_elem_of.
  - apply assoc_None in E. apply assoc_None. by rewrite Hp.
Qed.
Lemma sorted_params_proper p q : NoDup p.*1 → p ≡ₚ q → sorted_params p = sorted_params q.
Proof.
  intros Hnd Hp. unfold sorted_params.
  rewrite (js_sort_strings_perm (object_keys p) (object_keys q))
    by (by rewrite !object_keys_perm, Hp).
  apply list_fmap_ext. intros i k _. unfold own_value. by rewrite (assoc_perm p q).
Qed.

Lemma canonicalParams_eq_iff p q :
  NoDup p.*1 → NoDup q.*1 →
  canonicalParams (Some p) = canonicalParams (Some q) ↔ p ≡ₚ q.
Proof.
  intros Hp Hq. rewrite !canonicalParams_encode. split.
  - intros E%encode_pairs_inj. rewrite <- (sorted_params_perm p), <- (sorted_params_perm q) by done.
    by rewrite E.
  - intros Hpq. by rewrite (sorted_params_proper p q).
Qed.

(** ** Properties *)

(** [canonicalParams] is an identity: two parameter maps get the same
    string exactly when they hold the same pairs, whatever the key order and
    whatever characters the values contain. *)
Theorem canonicalParams_identity p q :
  NoDup p.*1 → NoDup q.*1 →
  canonicalParams (Some p) = canonicalParams (Some q) ↔ p ≡ₚ q.
Proof. apply canonicalParams_eq_iff. Qed.

Lemma carried_params_keys declared ps :
  (carried_params declared ps).*1 = filter (λ k, is_blank ps k = false) (js_sort js_compare declared).
Proof.
  unfold carried_params. rewrite <- list_fmap_compose.
  rewrite <- (list_fmap_id (filter _ _)) at 2. by apply list_fmap_ext.
Qed.
(** What the table declares: distinct, short, ordinary keys. *)
Definition declared_ok (declared : list jstring) : Prop :=
  NoDup declared ∧ ("__proto__"%js ∉ declared) ∧
  Forall (λ k, (js_length k < 2 ^ 53)%N) declared.
Lemma table_declared_ok base declared :
  table_get PARAMETERIZED_SOURCE_PARAMS base = Own declared → declared_ok declared.
Proof.
  unfold table_get. destruct (assoc base _) as [d|] eqn:E; [|by case_decide].
  intros [= ->]. apply assoc_elem_of in E. revert E.
  unfold PARAMETERIZED_SOURCE_PARAMS. rewrite !elem_of_cons, elem_of_nil.
  intros [[= _ ->]|[[= _ ->]|[[= _ ->]|[[= _ ->]|[]]]]];
    (split; [by apply (bool_decide_unpack _)|];
     split; [by apply (bool_decide_unpack _)|]; repeat constructor; done).
Qed.

(** The parameters of [params] that the source [base] reads. *)
Definition relevant_params (base : jstring) (params : list (jstring * jstring))
    : list (jstring * jstring) :=
  match table_get PARAMETERIZED_SOURCE_PARAMS base with
  | Own declared => carried_params declared params
  | _ => []
  end.
Lemma carried_params_short declared ps :
  declared_ok declared → Forall short_pair ps →
  Forall short_pair (carried_params declared ps) ∧
  NoDup (carried_params declared ps).*1 ∧ "__proto__"%js ∉ (carried_params declared ps).*1.
Proof.
  intros (Hnd & Hproto & Hlen) Hps. rewrite carried_params_keys. split; [|split].
  - unfold carried_params. apply Forall_forall.
    pose proof (proj1 (Forall_forall _ _) Hps) as Hps'.
    pose proof (proj1 (Forall_forall _ _) Hlen) as Hlen'. simpl in Hlen'.
    intros kv (k & -> & Hk)%list_elem_of_fmap. apply list_elem_of_filter in Hk as [_ Hk].
    rewrite elem_of_js_sort in Hk. split; simpl; [by apply Hlen'|].
    unfold own_value. destruct (assoc k ps) eqn:E; [|done]. simpl.
    apply assoc_elem_of in E. by apply Hps' in E as [_ ?].
  - eapply sublist_NoDup; [|apply sublist_filter]. by rewrite js_sort_perm.
  - intros [_ Hin]%list_elem_of_filter. by rewrite elem_of_js_sort in Hin.
Qed.

Lemma decode_encode_key base l :
  58%N ∉ units base → Forall short_pair l → NoDup l.*1 → "__proto__"%js ∉ l.*1 →
  decodeSourceKey (base +++ ":" +++ js_concat (encode_pair <$> l))%js = (base, l).
Proof.
  intros Hb Hl Hnd Hp. unfold decodeSourceKey, js_indexOf.
  change (units (base +++ ":" +++ js_concat (encode_pair <$> l))%js)
    with (units base ++ 58%N :: units (js_concat (encode_pair <$> l))).
  rewrite unit_index_app by done.
  assert (Hdrop : js_drop (S (length (units base)))
    (base +++ ":" +++ js_concat (encode_pair <$> l))%js = js_concat (encode_pair <$> l)).
  { rewrite js_app_assoc. replace (S (length (units base))) with
      (length (units (base +++ ":")%js)) by (simpl; rewrite length_app; simpl; lia).
    apply js_drop_app. }
  rewrite Hdrop, js_take_app. rewrite decode_pairs_encode by (done || apply length_le_concat).
  by rewrite (assign_all [] l).
Qed.

Lemma sourceKey_decodes base ps key :
  58%N ∉ units base → Forall short_pair ps → sourceKeyFor base ps = Some key →
  decodeSourceKey key = (base, relevant_params base ps).
Proof.
  intros Hb Hps. unfold sourceKeyFor, relevant_params.
  assert (Hbare : decodeSourceKey base = (base, [])).
  { unfold decodeSourceKey, js_indexOf. destruct (unit_index 58 (units base)) eqn:E; [|done].
    apply unit_index_Some in E as (pre & post & E & _). exfalso. apply Hb. rewrite E.
    apply elem_of_app. right. by left. }
  destruct (table_get _ base) as [declared| |] eqn:Ht; [|done|by intros [= <-]].
  apply table_declared_ok in Ht.
  destruct (carried_params_short declared ps Ht Hps) as (Hsh & Hnd & Hp).
  destruct (carried_params declared ps) as [|kv l] eqn:E; intros [= <-]; [done|].
  by apply (decode_encode_key base (kv :: l)).
Qed.

(** A cache key decodes to what it was built from: the source's name and
    exactly the parameters that source reads, blanks dropped. *)
Theorem sourceKey_roundtrip base ps key :
  58%N ∉ units base → Forall short_pair ps → sourceKeyFor base ps = Some key →
  decodeSourceKey key = (base, relevant_params base ps).
Proof. apply sourceKey_decodes. Qed.

(** Two widgets read a source alike: every parameter it declares has the same value,
    or none, with both. *)
Definition reads_alike (base : jstring) (ps ps' : list (jstring * jstring)) : Prop :=
  ∀ declared k, table_get PARAMETERIZED_SOURCE_PARAMS base = Own declared → k ∈ declared →
    own_value ps k = own_value ps' k.
Lemma declared_not_inherited base declared k :
  table_get PARAMETERIZED_SOURCE_PARAMS base = Own declared → k ∈ declared → k ∉ OBJECT_PROTOTYPE.
Proof.
  unfold table_get. destruct (assoc base _) as [d|] eqn:E; [|by case_decide].
  intros [= ->] Hk. apply assoc_elem_of in E. revert k Hk. apply Forall_forall. revert E.
  unfold PARAMETERIZED_SOURCE_PARAMS. rewrite !elem_of_cons, elem_of_nil.
  intros [[= _ ->]|[[= _ ->]|[[= _ ->]|[[= _ ->]|[]]]]]; by apply (bool_decide_unpack _).
Qed.
Lemma is_blank_value ps k : k ∉ OBJECT_PROTOTYPE → is_blank ps k = js_eqb (own_value ps k) ""%js.
Proof.
  intros Hk. unfold is_blank, table_get, own_value. destruct (assoc k ps); cbn; [done|]. by rewrite decide_False.
Qed.
Lemma carried_value declared ps k : k ∈ declared → k ∉ OBJECT_PROTOTYPE →
  own_value ps k = default ""%js (assoc k (carried_params declared ps)).
Proof.
  intros Hk Hp. destruct (assoc k (carried_params declared ps)) as [v|] eqn:E; cbn.
  - apply assoc_elem_of, list_elem_of_fmap in E as (j & [= <- ->] & _). done.
  - destruct (is_blank ps k) eqn:Eb; [by rewrite is_blank_value, js_eqb_eq in Eb|]. exfalso.
    apply assoc_None in E. apply E. rewrite carried_params_keys. apply list_elem_of_filter. by rewrite elem_of_js_sort.
Qed.
Lemma reads_alike_iff base ps ps' : reads_alike base ps ps' ↔ relevant_params base ps = relevant_params base ps'.
Proof.
  unfold reads_alike, relevant_params. destruct (table_get _ base) as [d| |] eqn:E; [|split; [done|by intros _ ? ? [=]]..].
  split.
  - intros H. unfold carried_params.
    assert (Hd : ∀ k, k ∈ js_sort js_compare d → own_value ps k = own_value ps' k ∧ is_blank ps k = is_blank ps' k).
    { intros k Hk. rewrite elem_of_js_sort in Hk. rewrite !is_blank_value by (by eapply declared_not_inherited).
      by rewrite (H d k). }
    revert Hd. generalize (js_sort js_compare d). intros l. induction l as [|k l IH]; intros Hd; [done|].
    destruct (Hd k (list_elem_of_here _ _)) as [E1 E2]. rewrite !filter_cons, E2.
    assert (IH' := IH (λ j Hj, Hd j (list_elem_of_further _ _ _ Hj))). case_decide; [|done]. cbn. by rewrite E1, IH'.
  - intros H d' k [= <-] Hk. rewrite (carried_value d ps), (carried_value d ps'), H by (done || by eapply declared_not_inherited). done.
Qed.

(** C18. Two reads share a cache entry exactly when they read the same source and
    every parameter that source declares has the same value with both, or none:
    distinct namespaces or services never collapse into one entry, and a
    parameter the source does not declare never splits one. *)
Theorem sourceKey_cache_identity base ps key base' ps' key' :
  58%N ∉ units base → 58%N ∉ units base' → Forall short_pair ps → Forall short_pair ps' →
  sourceKeyFor base ps = Some key → sourceKeyFor base' ps' = Some key' →
  key = key' ↔ base = base' ∧ reads_alike base ps ps'.
Proof.
  intros Hb Hb' Hps Hps' Hk Hk'. split.
  - intros <-. pose proof (sourceKey_decodes _ _ _ Hb Hps Hk) as E.
    pose proof (sourceKey_decodes _ _ _ Hb' Hps' Hk') as E'.
    assert (Eb : base = base') by congruence. subst base'. split; [done|]. apply reads_alike_iff. congruence.
  - intros [<- E%reads_alike_iff]. unfold relevant_params, sourceKeyFor in *.
    destruct (table_get _ base) as [d| |]; [rewrite E in Hk|..]; congruence.
Qed.

(** Decoding is total on every string: the loop's fuel, the number of code
    units left, is never exhausted. *)
Theorem decodeSourceKey_total rest ps :
  ∃ r, decode_pairs (length (units rest)) rest ps = Some r.
Proof. destruct (decode_pairs_total (length (units rest)) rest ps) as [r Hr]; [done|]. by exists r. Qed.

Definition cluster_reads : list (jstring * jstring) :=
  [("service"%js, "api:8080"%js); ("namespace"%js, "prod"%js); ("theme"%js, "dark"%js)].
Lemma canonicalParams_identity_witness :
  canonicalParams (Some cluster_reads) = canonicalParams (Some (rev cluster_reads)).
Proof.
  apply (canonicalParams_identity cluster_reads (rev cluster_reads)).
  - by apply (bool_decide_unpack _).
  - by apply (bool_decide_unpack _).
  - symmetry. apply Permutation_rev.
Defined.
Lemma sourceKey_roundtrip_witness :
  decodeSourceKey "mesh-golden-signals:9:namespace4:prod7:service8:api:8080"%js
  = ("mesh-golden-signals"%js, [("namespace"%js, "prod"%js); ("service"%js, "api:8080"%js)]).
Proof.
  apply (sourceKey_roundtrip "mesh-golden-signals"%js cluster_reads).
  - by apply (bool_decide_unpack _).
  - repeat constructor.
  - vm_compute. reflexivity.
Defined.
Lemma sourceKey_cache_identity_witness :
  "mesh-golden-signals:9:namespace4:prod7:service8:api:8080"%js
  ≠ "mesh-golden-signals:9:namespace4:prod"%js.
Proof.
  intros E.
  apply (sourceKey_cache_identity "mesh-golden-signals"%js cluster_reads _
    "mesh-golden-signals"%js [("namespace"%js, "prod"%js)]) in E as [_ E].
  - specialize (E ["namespace"%js; "service"%js] "service"%js). vm_compute in E. discriminate E; [reflexivity|].
    right. left.
  - by apply (bool_decide_unpack _).
  - by apply (bool_decide_unpack _).
  - repeat constructor.
  - repeat constructor.
  - vm_compute. reflexivity.
  - vm_compute. reflexivity.
Defined.

(** ** What the dialog accepts *)

(** A DNS-1035 label, as the comment on [PARAM_VALUE_SHAPE] states it. *)
Definition dns_1035_label (v : jstring) : Prop :=
  (1 ≤ length (units v) ≤ 63)%nat ∧
  (∃ c, head (units v) = Some c ∧ is_lower c = true) ∧
  (∃ c, last (units v) = Some c ∧ is_alnum c = true) ∧
  Forall (λ c, is_label_unit c = true) (units v).

Lemma is_lower_label c : is_lower c = true → is_alnum c = true ∧ is_label_unit c = true.
Proof. intros H. unfold is_alnum, is_label_unit, is_alnum. by rewrite H. Qed.
Lemma is_alnum_label c : is_alnum c = true → is_label_unit c = true.
Proof. intros H. unfold is_label_unit. by rewrite H. Qed.

Lemma service_shape_spec v : service_shape v = true ↔ dns_1035_label v.
Proof.
  unfold service_shape, dns_1035_label. destruct (units v) as [|c rest]; simpl.
  { split; [done|]. intros [? _]. lia. }
  rewrite andb_true_iff. destruct (rev rest) as [|z middle] eqn:Hrev.
  - apply (f_equal (@rev N)) in Hrev. rewrite rev_involutive in Hrev. simpl in Hrev. subst. simpl.
    split.
    + intros [Hc _]. destruct (is_lower_label c Hc). repeat split; eauto with lia.
    + intros (_ & (c' & [= <-] & Hc) & _). done.
  - apply (f_equal (@rev N)) in Hrev. rewrite rev_involutive in Hrev. simpl in Hrev. subst.
    change (c :: rev middle ++ [z]) with ((c :: rev middle) ++ [z]).
    rewrite !andb_true_iff, Nat.leb_le, forallb_forall, last_snoc, !Forall_forall, length_app.
    cbn [length]. rewrite length_rev. split.
    + intros (Hc & (Hz & Hm) & Hl). split; [lia|]. split; [by eauto|]. split; [by eauto|].
      intros u. rewrite elem_of_app, elem_of_cons, list_elem_of_singleton, list_elem_of_In, <- in_rev.
      intros [[->|Hu]| ->]; [by apply is_lower_label|by auto|by apply is_alnum_label].
    + intros (Hl & (? & [= <-] & Hc) & (? & [= <-] & Hz) & Hall).
      split; [done|]. split; [split; [done|]|lia]. intros u Hu. apply Hall.
      rewrite elem_of_app, elem_of_cons, list_elem_of_In, <- in_rev. auto.
Qed.

Lemma count_runes_le b l : (count_runes b l ≤ N.of_nat (length l))%N.
Proof.
  revert b. induction l as [|c l IH]; intros b; simpl; [done|].
  case_match; [specialize (IH false)|specialize (IH (is_high_surrogate c))]; lia.
Qed.
Lemma label_no_control c : is_label_unit c = true → is_control c = false.
Proof. unfold is_label_unit, is_alnum, is_lower, is_control.
  rewrite !orb_true_iff, !andb_true_iff, orb_false_iff, andb_false_iff, !N.leb_le, !N.eqb_eq, !N.leb_gt.
  lia.
Qed.

(** With no offered list, the dialog accepts a service name exactly when it
    is a DNS-1035 label: one to 63 lowercase alphanumerics and dashes, first a
    letter, last not a dash. No URL, path or query passes. *)
Theorem paramValueError_service v :
  paramValueError PARAM_KEY_SERVICE v [] = Some None ↔ dns_1035_label v.
Proof.
  rewrite <- service_shape_spec. unfold paramValueError.
  change (table_get PARAM_VALUE_SHAPE PARAM_KEY_SERVICE) with (Own service_shape). cbn iota.
  split.
  - destruct (js_eqb v ""); [done|]. destruct (_ <? _)%N; [done|].
    destruct (CONTROL_CHARS v); [done|]. by destruct (service_shape v).
  - intros H. rewrite H. apply service_shape_spec in H as (Hlen & _ & _ & Hall).
    destruct (js_eqb v "") eqn:E.
    { exfalso. apply js_eqb_eq in E. subst. simpl in Hlen. lia. }
    pose proof (count_runes_le false (units v)).
    destruct (N.ltb_spec MAX_PARAM_VALUE_LEN (runeCount v)).
    { unfold MAX_PARAM_VALUE_LEN, runeCount in *. lia. }
    destruct (CONTROL_CHARS v) eqn:E2; [|done].
    apply existsb_exists in E2 as (c & Hc & Hcc). apply list_elem_of_In in Hc.
    rewrite Forall_forall in Hall. apply Hall, label_no_control in Hc. congruence.
Qed.

#[export] Instance prop_eq_dec {V} `{EqDecision V} : EqDecision (prop V).
Proof. solve_decision. Defined.

(** Setting a key stores the new value, blanks every field that depends on
    it, the same value included, and leaves every other field alone. *)
Theorem withParamValue_spec values key value k :
  assoc k (withParamValue values key value) =
    if decide (k = key) then Some value
    else if decide (paramParentKey k = Own key ∧ is_Some (assoc k values)) then Some ""%js
    else assoc k values.
Proof.
  unfold withParamValue. cbn [foldl PARAM_KEY_PARENT].
  assert (Hparent : paramParentKey k = Own key ↔ k = PARAM_KEY_SERVICE ∧ key = PARAM_KEY_NAMESPACE).
  { unfold paramParentKey, table_get, PARAM_KEY_PARENT. cbn [assoc]. case_decide as Hk.
    - split; [by intros [= <-]|by intros [_ ->]].
    - split; [by case_decide|by intros [-> _]]. }
  destruct (decide (k = key)) as [->|Hne].
  - case_match; [|apply assoc_set_eq]. rewrite andb_true_iff, js_eqb_eq in *.
    destruct_and!. subst. by rewrite assoc_set_ne, assoc_set_eq.
  - assert (Hset : assoc k (assoc_set key value values) = assoc k values)
      by (by apply assoc_set_ne).
    destruct (js_eqb PARAM_KEY_NAMESPACE key) eqn:Ekey; cbn [andb].
    + apply js_eqb_eq in Ekey. subst key. case_bool_decide as Hin.
      * destruct (decide (k = PARAM_KEY_SERVICE)) as [->|Hk].
        -- rewrite assoc_set_eq, decide_True; [done|]. split; [by apply Hparent|].
           by rewrite <- Hset, assoc_is_Some.
        -- rewrite assoc_set_ne by congruence. rewrite Hset, decide_False; [done|].
           by intros [[-> _]%Hparent _].
      * rewrite Hset, decide_False; [done|]. intros [[-> _]%Hparent Hs].
        apply Hin. by rewrite <- assoc_is_Some, Hset.
    + rewrite Hset, decide_False; [done|]. intros [[_ ->]%Hparent _]. done.
Qed.

(** The dialog reports a duplicate exactly when another placement of the
    same widget holds the same parameters, key order aside. *)
Theorem duplicatePlacementOf_spec items widgetId values except :
  NoDup values.*1 → Forall (λ i, NoDup (default [] (params i)).*1) items →
  duplicatePlacementOf items widgetId values except = None ↔
  Forall (λ i, id i = widgetId → Some (instanceId i) ≠ except →
               ¬ default [] (params i) ≡ₚ values) items.
Proof.
  intros Hv Hps. unfold duplicatePlacementOf.
  assert (Hid : ∀ i, NoDup (default [] (params i)).*1 →
    canonicalParams (params i) = canonicalParams (Some values) ↔ default [] (params i) ≡ₚ values).
  { intros i Hi. rewrite <- canonicalParams_eq_iff by done. by destruct (params i). }
  induction Hps as [|i items Hi Hps IH]; [done|]. rewrite filter_cons, Forall_cons, <- IH.
  case_decide as Hd; cbn [head].
  - split; [done|]. intros [Hn _]. exfalso. destruct Hd as (H1 & H2 & H3).
    apply Hn; [done..|]. by apply Hid.
  - split; [|by intros [_ ?]]. intros Hn. split; [|done]. intros H1 H2 H3. apply Hd.
    repeat split; [done..|]. by apply Hid.
Qed.

Definition mesh_card (i : jstring) (ps : list (jstring * jstring)) : LayoutItem :=
  {| instanceId := i; id := "golden-signals"%js; x := 0; y := 0; w := 4; h := 4;
     params := Some ps |}.
Lemma duplicatePlacementOf_spec_witness :
  duplicatePlacementOf [mesh_card "a"%js cluster_reads; mesh_card "b"%js []] "golden-signals"%js
    (rev cluster_reads) (Some "a"%js) = None.
Proof.
  apply (duplicatePlacementOf_spec
    [mesh_card "a"%js cluster_reads; mesh_card "b"%js []] "golden-signals"%js).
  - by apply (bool_decide_unpack _).
  - repeat constructor; by apply (bool_decide_unpack _).
  - repeat constructor; simpl; [done|]. intros _ _ E. by apply Permutation_nil_l in E.
Defined.
