(* ===== verification/Grid.v ===== *)
(** * Dashboard grid geometry: grid.ts

    Collision resolution and compaction over the layout array: vertical
    gravity ([compact]), downward displacement ([resolve]), the pass loop that
    repeats a request until the layout stops changing ([settle]), and the
    pointer and keyboard operations built from them. *)

From stdpp Require Import base list strings gmap sorting.
From Stdlib Require Import ZArith QArith Qround Lia Permutation Sorted.
From S2P Require Import Prelude JsValue Types.

Open Scope Z_scope.

(** ** Definitions *)

Record Cell := { cx : number; cy : number }.
Record Bounds := { bound_minW : Z; bound_minH : Z }.
Record GridMetrics := {
  left : number; top : number; cellWidth : number; rowHeight : number; gap : number
}.

Definition clamp (v lo hi : Z) : Z := Z.min hi (Z.max lo v).

Definition byReadingOrder (p q : LayoutItem) : comparison :=
  (y p ?= y q) <||> (x p ?= x q).

Definition sharesColumn (a b : LayoutItem) : bool :=
  negb ((x a + w a <=? x b) || (x b + w b <=? x a)).
Definition sharesRow (a b : LayoutItem) : bool :=
  negb ((y a + h a <=? y b) || (y b + h b <=? y a)).
Definition overlaps (a b : LayoutItem) : bool := sharesColumn a b && sharesRow a b.

(** The inner loop of [compact]: the row below everything settled in [it]'s
    columns. *)
Definition settle_y (settled : list LayoutItem) (it : LayoutItem) : Z :=
  foldl (λ v s, if sharesColumn it s then Z.max v (y s + h s) else v) 0 settled.
Definition compact_step (settled : list LayoutItem) (it : LayoutItem) : list LayoutItem :=
  settled ++ [with_y it (settle_y settled it)].
Definition compact (items : list LayoutItem) : list LayoutItem :=
  js_sort byReadingOrder (foldl compact_step [] (js_sort byReadingOrder items)).

(** One turn of the [while (moved)] loop of [resolve]. *)
Definition push_pass (candidate : LayoutItem) (placed : list LayoutItem) : LayoutItem * bool :=
  foldl (λ '(c, moved) p, if overlaps c p then (with_y c (y p + h p), true) else (c, moved))
    (candidate, false) placed.
(** The loop itself; [None] is "still moving after [fuel] turns". *)
Fixpoint push (fuel : nat) (candidate : LayoutItem) (placed : list LayoutItem) : option LayoutItem :=
  match fuel with
  | O => None
  | S f =>
      let '(c, moved) := push_pass candidate placed in
      if moved then push f c placed else Some c
  end.
(** [S (length placed)] turns are enough: see [push_total]. *)
Fixpoint place_others (placed others : list LayoutItem) : option (list LayoutItem) :=
  match others with
  | [] => Some placed
  | it :: others' =>
      c ← push (S (length placed)) it placed;
      place_others (placed ++ [c]) others'
  end.
Definition other_items (items : list LayoutItem) (iid : jstring) : list LayoutItem :=
  filter (λ i, instanceId i ≠ iid) items.
Definition resolve (items : list LayoutItem) (anchor : LayoutItem) : option (list LayoutItem) :=
  compact <$> place_others [anchor]
    (js_sort byReadingOrder (other_items items (instanceId anchor))).

Definition same_placement (p q : LayoutItem) : bool :=
  js_eqb (instanceId p) (instanceId q) &&
  (x p =? x q) && (y p =? y q) && (w p =? w q) && (h p =? h q).
Fixpoint sameLayout (a b : list LayoutItem) : bool :=
  match a, b with
  | [], [] => true
  | p :: a', q :: b' => same_placement p q && sameLayout a' b'
  | _, _ => false
  end.

(** [items.find(...)]; in [findTarget], [None] is the thrown error. *)
Definition findTarget (items : list LayoutItem) (iid : jstring) : option LayoutItem :=
  head (filter (λ i, instanceId i = iid) items).

Fixpoint settle_passes (n : nat) (iid : jstring) (place : LayoutItem → LayoutItem)
    (current : list LayoutItem) : option (list LayoutItem) :=
  match n with
  | O => Some current
  | S n' =>
      t ← findTarget current iid;
      next ← resolve current (place t);
      if sameLayout next current then Some next
      else settle_passes n' iid place next
  end.
Definition settle (items : list LayoutItem) (iid : jstring)
    (place : LayoutItem → LayoutItem) : option (list LayoutItem) :=
  t ← findTarget items iid;
  current ← resolve items (place t);
  settle_passes (length items) iid place current.

Definition move_place (col row : Z) (t : LayoutItem) : LayoutItem :=
  with_pos t (clamp col 0 (Z.max 0 (DASHBOARD_COLUMNS - w t)))
             (clamp row 0 (Z.max 0 (DASHBOARD_MAX_ROWS - h t))).
Definition moveItem (items : list LayoutItem) (iid : jstring) (nx ny : number)
    : option (list LayoutItem) :=
  match findTarget items iid, nx, ny with
  | Some _, Fin qx, Fin qy =>
      let col := math_round qx in
      let row := Z.max 0 (math_round qy) in
      settle items iid (move_place col row)
  | _, _, _ => Some items
  end.

Definition layoutHeight (items : list LayoutItem) : Z :=
  foldl (λ m i, Z.max m (y i + h i)) 0 items.

(** The downward scan of [stepItem]: rows [r], [r+1], ... while [n] remain. *)
Fixpoint step_scan (n : nat) (items : list LayoutItem) (iid : jstring) (tx ty r : Z)
    (first : list LayoutItem) : option (list LayoutItem) :=
  match n with
  | O => Some first
  | S n' =>
      next ← moveItem items iid (of_Z tx) (of_Z r);
      landed ← findTarget next iid;
      if ty <? y landed then Some next
      else step_scan n' items iid tx ty (r + 1) first
  end.
Definition stepItem (items : list LayoutItem) (iid : jstring) (dx dy : number)
    : option (list LayoutItem) :=
  match findTarget items iid, dx, dy with
  | Some target, Fin qx, Fin qy =>
      let col := math_round qx in
      let row := math_round qy in
      first ← moveItem items iid (of_Z (x target + col)) (of_Z (y target + row));
      if negb (col =? 0) || (row <=? 0) then Some first else
      landed ← findTarget first iid;
      if y target <? y landed then Some first else
      let start := y target + row + 1 in
      step_scan (Z.to_nat (layoutHeight items - start + 1)) items iid
        (x target) (y target) start first
  | _, _, _ => Some items
  end.

Definition resize_place (width height : Z) (bounds : Bounds) (t : LayoutItem) : LayoutItem :=
  with_size t (Z.max 1 (clamp width (bound_minW bounds) (DASHBOARD_COLUMNS - x t)))
              (Z.max 1 (Z.min height (DASHBOARD_MAX_ROWS - y t))).
Definition resizeItem (items : list LayoutItem) (iid : jstring) (nw nh : number)
    (bounds : Bounds) : option (list LayoutItem) :=
  match findTarget items iid, nw, nh with
  | Some _, Fin qw, Fin qh =>
      let width := math_round qw in
      let height := Z.max (Z.max 1 (bound_minH bounds)) (math_round qh) in
      settle items iid (resize_place width height bounds)
  | _, _, _ => Some items
  end.

Definition resizeItemBy (items : list LayoutItem) (iid : jstring) (dw dh : number)
    (bounds : Bounds) : option (list LayoutItem) :=
  match findTarget items iid with
  | None => Some items
  | Some target =>
      resizeItem items iid (num_add (of_Z (w target)) dw) (num_add (of_Z (h target)) dh) bounds
  end.

Definition RESIZE_AIM_PASSES : nat := 4.
Definition aim (items : list LayoutItem) (iid : jstring) (cell : Cell) (current : LayoutItem)
    (bounds : Bounds) : option (list LayoutItem) :=
  resizeItem items iid
    (num_add (num_sub (cx cell) (of_Z (x current))) (of_Z 1))
    (num_add (num_sub (cy cell) (of_Z (y current))) (of_Z 1)) bounds.
Fixpoint aim_passes (n : nat) (out : list LayoutItem) (iid : jstring) (cell : Cell)
    (current : LayoutItem) (bounds : Bounds) : option (list LayoutItem) :=
  match n with
  | O => Some out
  | S n' =>
      settled ← findTarget out iid;
      if y settled =? y current then Some out else
      out' ← aim out iid cell settled bounds;
      aim_passes n' out' iid cell settled bounds
  end.
Definition resizeItemToCell (items : list LayoutItem) (iid : jstring) (cell : Cell)
    (bounds : Bounds) : option (list LayoutItem) :=
  match findTarget items iid with
  | None => Some items
  | Some current =>
      out ← aim items iid cell current bounds;
      aim_passes (RESIZE_AIM_PASSES - 1) out iid cell current bounds
  end.

Definition positive_finite (n : number) : bool := isFinite n && num_ltb (of_Z 0) n.
Definition cellFromPoint (px py : number) (m : GridMetrics) : Cell :=
  if negb (positive_finite (cellWidth m)) || negb (positive_finite (rowHeight m))
     || negb (isFinite (left m)) || negb (isFinite (top m)) || negb (isFinite (gap m))
  then {| cx := of_Z 0; cy := of_Z 0 |}
  else
    let colStride := num_add (cellWidth m) (gap m) in
    let rowStride := num_add (rowHeight m) (gap m) in
    {| cx := num_min (of_Z (DASHBOARD_COLUMNS - 1))
               (num_max (of_Z 0) (num_floor (num_quot (num_sub px (left m)) colStride)));
       cy := num_max (of_Z 0) (num_floor (num_quot (num_sub py (top m)) rowStride)) |}.

Definition metricsFrom (rect_left rect_top rect_width : number) : GridMetrics :=
  {| left := rect_left; top := rect_top;
     cellWidth := num_quot (num_sub rect_width (of_Z (DASHBOARD_GRID_GAP * (DASHBOARD_COLUMNS - 1))))
                    (of_Z DASHBOARD_COLUMNS);
     rowHeight := of_Z DASHBOARD_ROW_HEIGHT;
     gap := of_Z DASHBOARD_GRID_GAP |}.

Definition dragTarget (start origin cell : Cell) : Cell :=
  {| cx := num_add (cx start) (num_sub (cx cell) (cx origin));
     cy := num_add (cy start) (num_sub (cy cell) (cy origin)) |}.

Record Renderable (TDef : Type) := { item : LayoutItem; def : TDef }.
Arguments item {TDef} _.
Arguments def {TDef} _.

(** [byInstance] is a [Map]: a later [set] of a key wins. *)
Definition resolveRenderable {TDef} (lookup : jstring → option TDef)
    (items : list LayoutItem) : list (Renderable TDef) :=
  let '(byInstance, known) := foldl (λ '(m, ks) it,
      match lookup (id it) with
      | None => (m, ks)
      | Some d => (<[instanceId it := d]> m, ks ++ [it])
      end) ((∅ : gmap jstring TDef), []) items in
  omap (λ it, match byInstance !! instanceId it with
              | Some d => Some {| item := it; def := d |}
              | None => None
              end) (compact known).

(** ** Geometry lemmas *)

#[export] Instance byReadingOrder_comparator : Comparator byReadingOrder.
Proof. unfold byReadingOrder. solve_comparator. Qed.

Lemma reading_le a b : cmp_le byReadingOrder a b → y a <= y b.
Proof.
  unfold cmp_le, byReadingOrder, cmp_or.
  destruct (y a ?= y b) eqn:E; rewrite ?Z.compare_eq_iff, ?Z.compare_lt_iff in E; [lia..|done].
Qed.

(** A placement a layout may hold: a non-empty box on or below the top edge. *)
Definition item_wf (it : LayoutItem) : Prop := 1 <= w it ∧ 1 <= h it.
(** Inside the grid's columns. *)
Definition in_columns (it : LayoutItem) : Prop := 0 <= x it ∧ x it + w it <= DASHBOARD_COLUMNS.
(** What gravity and displacement never change: everything but the row. *)
Definition shape (it : LayoutItem) : LayoutItem := with_y it 0.
Definition disjoint_items (a b : LayoutItem) : Prop := overlaps a b = false.
Definition NoOverlap : list LayoutItem → Prop := ForallOrdPairs disjoint_items.

Lemma sharesColumn_sym a b : sharesColumn a b = sharesColumn b a.
Proof. unfold sharesColumn. by rewrite orb_comm. Qed.
Lemma sharesRow_sym a b : sharesRow a b = sharesRow b a.
Proof. unfold sharesRow. by rewrite orb_comm. Qed.
Lemma overlaps_sym a b : overlaps a b = overlaps b a.
Proof. unfold overlaps. by rewrite sharesColumn_sym, sharesRow_sym. Qed.
Lemma disjoint_items_sym a b : disjoint_items a b → disjoint_items b a.
Proof. unfold disjoint_items. by rewrite overlaps_sym. Qed.

Lemma sharesColumn_with_y a v b : sharesColumn (with_y a v) b = sharesColumn a b.
Proof. done. Qed.
Lemma sharesColumn_with_y_r a b v : sharesColumn a (with_y b v) = sharesColumn a b.
Proof. done. Qed.
Lemma shape_with_y it v : shape (with_y it v) = shape it.
Proof. done. Qed.
Lemma with_y_id it : with_y it (y it) = it.
Proof. by destruct it. Qed.
Lemma shape_eq a b : shape a = shape b → a = with_y b (y a).
Proof. destruct a, b. unfold shape, with_y. simpl. by intros [= -> -> -> -> -> ->]. Qed.
Lemma shape_instanceId a b : shape a = shape b → instanceId a = instanceId b.
Proof. by intros ->%shape_eq. Qed.

(** Two items disjoint by rows, one column shared. *)
Lemma disjoint_below a b :
  disjoint_items a b → sharesColumn a b = true → y a <= y b → 1 <= h b → y a + h a <= y b.
Proof.
  unfold disjoint_items, overlaps. intros Ho Hc Hle Hh. rewrite Hc in Ho. simpl in Ho.
  unfold sharesRow in Ho. apply negb_false_iff, orb_true_iff in Ho as [Ho|Ho];
    apply Z.leb_le in Ho; lia.
Qed.
Lemma below_disjoint a b : y a + h a <= y b → disjoint_items a b.
Proof.
  intros H. unfold disjoint_items, overlaps, sharesRow.
  apply Z.leb_le in H. rewrite H. simpl. by rewrite andb_false_r.
Qed.
Lemma overlaps_self a : item_wf a → overlaps a a = true.
Proof.
  intros [? ?]. unfold overlaps, sharesColumn, sharesRow.
  repeat match goal with |- context [?p <=? ?q] => destruct (Z.leb_spec p q) end; done || lia.
Qed.

#[export] Instance disjoint_items_symmetric : Symmetric disjoint_items.
Proof. exact disjoint_items_sym. Qed.
Lemma NoOverlap_perm l l' : l ≡ₚ l' → NoOverlap l → NoOverlap l'.
Proof. apply ForallOrdPairs_perm. apply _. Qed.
Lemma NoOverlap_snoc l a : NoOverlap (l ++ [a]) ↔ NoOverlap l ∧ Forall (disjoint_items a) l.
Proof.
  split.
  - intros H. apply (NoOverlap_perm _ (a :: l)) in H; [|by rewrite Permutation_app_comm].
    by inversion H.
  - intros [H1 H2]. apply (NoOverlap_perm (a :: l)); [by rewrite Permutation_app_comm|].
    by constructor.
Qed.
Lemma NoOverlap_elem l a b : NoOverlap l → a ∈ l → b ∈ l → a ≠ b → disjoint_items a b.
Proof.
  induction 1 as [|c l Hall Hrec IH]; [by intros ?%elem_of_nil|].
  rewrite Forall_forall in Hall.
  intros [->|Ha]%elem_of_cons [->|Hb]%elem_of_cons Hne; [done|by apply Hall|..|by apply IH].
  by apply disjoint_items_sym, Hall.
Qed.
Lemma NoOverlap_NoDup l : Forall item_wf l → NoOverlap l → NoDup l.
Proof.
  intros Hwf. induction 1 as [|a l Hall Hrec IH]; [constructor|].
  apply Forall_cons in Hwf as [Ha Hwf]. constructor; [|by apply IH].
  intros Hin. rewrite Forall_forall in Hall. pose proof (Hall a Hin) as Hd.
  unfold disjoint_items in Hd. by rewrite overlaps_self in Hd.
Qed.
#[export] Hint Resolve disjoint_items_sym below_disjoint : dash.

(** ** Gravity *)

(** [settle_y] is the least row at or below the top edge that clears every
    settled item sharing a column. *)
Lemma settle_y_le_iff l it v :
  settle_y l it <= v ↔
  0 <= v ∧ ∀ s, s ∈ l → sharesColumn it s = true → y s + h s <= v.
Proof.
  unfold settle_y. generalize 0 as z. induction l as [|s l IH]; intros z; simpl.
  - split; [|tauto]. intros. split; [done|]. by intros ? ?%elem_of_nil.
  - rewrite IH. setoid_rewrite elem_of_cons. destruct (sharesColumn it s) eqn:E.
    + split.
      * intros [Hz Hall]. split; [lia|]. intros s' [->|Hs'] Hc; [lia|by apply Hall].
      * intros [Hz Hall]. split; [|by auto]. pose proof (Hall s (or_introl eq_refl) E). lia.
    + split.
      * intros [Hz Hall]. split; [done|]. intros s' [->|Hs'] Hc; [congruence|by apply Hall].
      * intros [Hz Hall]. by auto.
Qed.
Lemma settle_y_nonneg l it : 0 <= settle_y l it.
Proof. by destruct (proj1 (settle_y_le_iff l it _) (Z.le_refl _)). Qed.
Lemma settle_y_ge l it s :
  s ∈ l → sharesColumn it s = true → y s + h s <= settle_y l it.
Proof.
  intros Hs Hc. destruct (proj1 (settle_y_le_iff l it _) (Z.le_refl _)) as [_ H]. by apply H.
Qed.
Lemma settle_y_ext l l' it :
  (∀ s, sharesColumn it s = true → s ∈ l ↔ s ∈ l') → settle_y l it = settle_y l' it.
Proof.
  intros H. apply Z.le_antisymm; apply settle_y_le_iff; split; try apply settle_y_nonneg;
    intros s Hs Hc; apply settle_y_ge; try done; by apply H.
Qed.
(** It is attained: the top edge, or the bottom edge of some settled item. *)
Lemma settle_y_attained l it :
  settle_y l it = 0 ∨ ∃ s, s ∈ l ∧ sharesColumn it s = true ∧ settle_y l it = y s + h s.
Proof.
  unfold settle_y. assert (G : ∀ z, 0 <= z →
    foldl (λ v s, if sharesColumn it s then Z.max v (y s + h s) else v) z l = z ∨
    ∃ s, s ∈ l ∧ sharesColumn it s = true ∧
      foldl (λ v s, if sharesColumn it s then Z.max v (y s + h s) else v) z l = y s + h s).
  { induction l as [|s l IH]; intros z Hz; simpl; [by left|].
    destruct (sharesColumn it s) eqn:E.
    - destruct (IH (Z.max z (y s + h s))) as [->|(s' & ? & ? & ->)]; [lia|..].
      + destruct (Z.max_spec z (y s + h s)) as [[_ ->]|[_ ->]]; [right|by left].
        exists s. split; [by left|done].
      + right. exists s'. split; [by right|done].
    - destruct (IH z Hz) as [->|(s' & ? & ? & ->)]; [by left|].
      right. exists s'. split; [by right|done]. }
  by apply G.
Qed.

(** The items in the order [compact] settles them. *)
Definition settle_all (l : list LayoutItem) : list LayoutItem := foldl compact_step [] l.

Lemma settle_all_snoc l it :
  settle_all (l ++ [it]) = settle_all l ++ [with_y it (settle_y (settle_all l) it)].
Proof. unfold settle_all. by rewrite foldl_app. Qed.

Lemma settle_all_shape l : shape <$> settle_all l = shape <$> l.
Proof.
  induction l as [|it l IH] using rev_ind; [done|].
  by rewrite settle_all_snoc, !fmap_app, IH.
Qed.
Lemma compact_shape l : shape <$> compact l ≡ₚ shape <$> l.
Proof.
  unfold compact. rewrite js_sort_perm. fold (settle_all (js_sort byReadingOrder l)).
  rewrite settle_all_shape. by rewrite js_sort_perm.
Qed.

Lemma settle_all_no_overlap l : NoOverlap (settle_all l).
Proof.
  induction l as [|it l IH] using rev_ind; [constructor|].
  rewrite settle_all_snoc, NoOverlap_snoc. split; [done|]. apply Forall_forall.
  intros s Hs. destruct (sharesColumn it s) eqn:E.
  - apply disjoint_items_sym, below_disjoint. by apply settle_y_ge.
  - unfold disjoint_items, overlaps. by rewrite sharesColumn_with_y, E.
Qed.

Lemma settle_all_nonneg l : Forall (λ it, 0 <= y it) (settle_all l).
Proof.
  induction l as [|it l IH] using rev_ind; [constructor|].
  rewrite settle_all_snoc, Forall_app. split; [done|].
  apply Forall_singleton, settle_y_nonneg.
Qed.

(** [a] rests on the top edge or exactly on an item of [l] below which it
    shares a column. *)
Definition supported (l : list LayoutItem) (a : LayoutItem) : Prop :=
  y a = 0 ∨ ∃ b, b ∈ l ∧ sharesColumn a b = true ∧ y a = y b + h b.

Lemma settle_all_supported l : Forall (supported (settle_all l)) (settle_all l).
Proof.
  induction l as [|it l IH] using rev_ind; [constructor|].
  rewrite settle_all_snoc. apply Forall_app. split.
  - apply (Forall_impl _ _ _ IH). intros a [?|(b & ? & ?)]; [by left|right].
    exists b. split; [apply elem_of_app; by left | done].
  - apply Forall_singleton. destruct (settle_y_attained (settle_all l) it) as [?|(s & ? & ?)];
      [by left|right]. exists s. split; [apply elem_of_app; by left | done].
Qed.

(** [l] settles onto itself: every item sits where gravity would put it. *)
Definition canonical (l : list LayoutItem) : Prop :=
  ∀ pre it post, l = pre ++ it :: post → settle_y pre it = y it.

Lemma canonical_app l l' : canonical (l ++ l') → canonical l.
Proof. intros H pre it post ->. apply (H pre it (post ++ l')). by rewrite <- app_assoc. Qed.

Lemma settle_all_canonical l : canonical (settle_all l).
Proof.
  induction l as [|it l IH] using rev_ind; [by intros [|? []] ? ?|].
  rewrite settle_all_snoc. intros pre a post E.
  destruct post as [|b post _] using rev_ind.
  - apply app_inj_tail in E as [<- <-]. done.
  - rewrite app_comm_cons, (assoc_L (++)) in E. apply app_inj_tail in E as [E _].
    by apply (IH pre a post).
Qed.
Lemma canonical_settle_all l : canonical l → settle_all l = l.
Proof.
  induction l as [|it l IH] using rev_ind; intros H; [done|].
  rewrite settle_all_snoc, IH by (by eapply canonical_app).
  by rewrite (H l it []), with_y_id.
Qed.

(** In a canonical layout, the later of two items sharing a column lies below. *)
Lemma canonical_order l pre s post it :
  canonical l → l = pre ++ it :: post → s ∈ post → sharesColumn it s = true →
  y it + h it <= y s.
Proof.
  intros Hc -> [p1 [p2 ->]]%list_elem_of_split Hs.
  rewrite <- (Hc (pre ++ it :: p1) s p2) by (by rewrite <- app_assoc).
  apply settle_y_ge; [|by rewrite sharesColumn_sym]. apply elem_of_app. right. by left.
Qed.
Lemma canonical_before l pre s post it :
  canonical l → l = pre ++ it :: post → s ∈ pre → sharesColumn it s = true →
  y s + h s <= y it.
Proof. intros Hc E Hs Hsc. rewrite <- (Hc _ _ _ E). by apply settle_y_ge. Qed.

Lemma sorted_split (l pre post : list LayoutItem) it :
  StronglySorted (cmp_le byReadingOrder) l → l = pre ++ it :: post →
  (∀ s, s ∈ pre → y s <= y it) ∧ (∀ s, s ∈ post → y it <= y s).
Proof.
  intros Hs ->. split; intros s Hin; apply reading_le.
  - apply (sorted_take_drop byReadingOrder (length pre) _ s it Hs);
      [by rewrite take_app_length|]. rewrite drop_app_length. by left.
  - replace (pre ++ it :: post) with ((pre ++ [it]) ++ post) in Hs by (by rewrite <- app_assoc).
    apply (sorted_take_drop byReadingOrder (length (pre ++ [it])) _ it s Hs);
      [|by rewrite drop_app_length]. rewrite take_app_length, elem_of_app.
    right. by apply list_elem_of_singleton.
Qed.

(** Re-reading a canonical layout in reading order keeps it canonical. *)
Lemma canonical_reorder l l' :
  Forall item_wf l → NoOverlap l → canonical l → l' ≡ₚ l →
  StronglySorted (cmp_le byReadingOrder) l' → canonical l'.
Proof.
  intros Hwf Hno Hc Hp Hs a it b E.
  assert (Hnd : NoDup l') by (rewrite Hp; by apply NoOverlap_NoDup).
  assert (Hl : ∀ s, s ∈ l ↔ s ∈ a ∨ s = it ∨ s ∈ b)
    by (intros s; rewrite <- Hp, E, elem_of_app, elem_of_cons; done).
  destruct (list_elem_of_split l it) as (pre & post & El);
    [apply Hl; tauto|].
  rewrite <- (Hc pre it post El).
  destruct (sorted_split _ _ _ _ Hs E) as [Hbefore Hafter].
  rewrite Forall_forall in Hwf.
  rewrite E in Hnd. apply NoDup_app in Hnd as (_ & Hna & Hnb).
  apply NoDup_cons in Hnb as [Hnb _].
  apply settle_y_ext. intros s Hsc. split; intros Hin.
  - assert (Hsl : s ∈ l) by (apply Hl; tauto).
    rewrite El, elem_of_app, elem_of_cons in Hsl. destruct Hsl as [?|[->|Hpost]]; [done|..].
    + exfalso. apply (Hna it Hin). by left.
    + exfalso. pose proof (canonical_order _ _ _ _ _ Hc El Hpost Hsc).
      pose proof (Hbefore s Hin). destruct (Hwf it) as [_ ?]; [apply Hl; tauto|]. lia.
  - assert (Hsl : s ∈ l) by (rewrite El; apply elem_of_app; by left).
    pose proof (canonical_before _ _ _ _ _ Hc El Hin Hsc) as Hlt.
    destruct (Hwf s Hsl) as [_ ?].
    apply Hl in Hsl as [?|[->|Hb]]; [done|lia|]. pose proof (Hafter s Hb). lia.
Qed.

Lemma Forall_shape (P : LayoutItem → Prop) l l' :
  (∀ a b, shape a = shape b → P a → P b) →
  shape <$> l ≡ₚ shape <$> l' → Forall P l' → Forall P l.
Proof.
  intros HP Hs. rewrite !Forall_forall. intros H a Ha.
  assert (Hin : shape a ∈ shape <$> l') by (rewrite <- Hs; by apply list_elem_of_fmap_2).
  apply list_elem_of_fmap in Hin as (b & Hab & Hb). by apply (HP b a), H.
Qed.
Lemma item_wf_shape a b : shape a = shape b → item_wf a → item_wf b.
Proof. by intros ->%shape_eq. Qed.
Lemma in_columns_shape a b : shape a = shape b → in_columns a → in_columns b.
Proof. by intros ->%shape_eq. Qed.

(** Gravity only lifts: in a layout without overlaps no item moves down. *)
Lemma settle_all_lifts l :
  StronglySorted (cmp_le byReadingOrder) l → NoOverlap l → Forall item_wf l →
  Forall (λ it, 0 <= y it) l →
  Forall2 (λ a b, shape b = shape a ∧ y b <= y a) l (settle_all l).
Proof.
  induction l as [|it l IH] using rev_ind; intros Hs Hno Hwf Hy; [constructor|].
  destruct (sorted_split _ l [] it Hs eq_refl) as [Hbefore _].
  apply NoOverlap_snoc in Hno as [Hno Hit].
  apply Forall_app in Hwf as [Hwf Hwfit]. apply Forall_app in Hy as [Hy Hyit].
  rewrite Forall_singleton in Hwfit, Hyit. rewrite Forall_forall in Hit.
  apply StronglySorted_app_1_l in Hs. specialize (IH Hs Hno Hwf Hy).
  rewrite settle_all_snoc. apply Forall2_app; [done|]. constructor; [|constructor].
  split; [done|]. simpl. apply settle_y_le_iff. split; [done|].
  intros s' (s & Hin & Hsh & Hle)%(Forall2_elem_r _ _ _ _ IH) Hsc.
  rewrite (shape_eq _ _ Hsh) in Hsc |- *. simpl in *.
  pose proof (disjoint_below s it (disjoint_items_sym _ _ (Hit s Hin))) as Hd.
  rewrite sharesColumn_sym in Hd. destruct Hwfit. specialize (Hd Hsc (Hbefore s Hin)). lia.
Qed.

Lemma compact_lifts l a :
  NoOverlap l → Forall item_wf l → Forall (λ it, 0 <= y it) l → a ∈ l →
  ∃ b, b ∈ compact l ∧ shape b = shape a ∧ y b <= y a.
Proof.
  intros Hno Hwf Hy Ha. set (l' := js_sort byReadingOrder l).
  assert (Hp : l ≡ₚ l') by (subst l'; by rewrite js_sort_perm).
  assert (HF : Forall2 (λ a b, shape b = shape a ∧ y b <= y a) l' (settle_all l')).
  { apply settle_all_lifts; [apply js_sort_sorted; apply _|..].
    - by apply (NoOverlap_perm l).
    - by rewrite <- Hp.
    - by rewrite <- Hp. }
  destruct (Forall2_elem_l _ _ _ a HF) as (b & Hb & Hsh & Hle); [by rewrite <- Hp|].
  exists b. split; [|done]. unfold compact. by apply elem_of_js_sort.
Qed.

Lemma compact_no_overlap_all l : NoOverlap (compact l).
Proof.
  eapply NoOverlap_perm; [|apply settle_all_no_overlap].
  unfold compact. symmetry. apply js_sort_perm.
Qed.
Lemma compact_nonneg l : Forall (λ it, 0 <= y it) (compact l).
Proof. unfold compact. rewrite js_sort_perm. apply settle_all_nonneg. Qed.
Lemma compact_sorted l : StronglySorted (cmp_le byReadingOrder) (compact l).
Proof. apply js_sort_sorted. apply _. Qed.
Lemma compact_supported_all l : Forall (supported (compact l)) (compact l).
Proof.
  pose proof (settle_all_supported (js_sort byReadingOrder l)) as H.
  rewrite Forall_forall in H |- *. unfold compact. setoid_rewrite elem_of_js_sort.
  intros a Ha. destruct (H a Ha) as [?|(b & ? & ?)]; [by left|right].
  exists b. by rewrite elem_of_js_sort.
Qed.
Lemma compact_wf l : Forall item_wf l → Forall item_wf (compact l).
Proof. apply Forall_shape; [apply item_wf_shape|apply compact_shape]. Qed.
Lemma compact_idemp_wf l : Forall item_wf l → compact (compact l) = compact l.
Proof.
  intros Hwf. set (p := settle_all (js_sort byReadingOrder l)).
  assert (Hc : canonical (compact l)).
  { apply (canonical_reorder p); [|apply settle_all_no_overlap|apply settle_all_canonical|..].
    - eapply Forall_shape; [apply item_wf_shape| |exact Hwf].
      unfold p. rewrite settle_all_shape. by rewrite js_sort_perm.
    - unfold compact. apply js_sort_perm.
    - apply compact_sorted. }
  unfold compact at 1. rewrite (js_sort_sorted_id byReadingOrder (compact l)) by apply compact_sorted.
  fold (settle_all (compact l)). rewrite (canonical_settle_all _ Hc).
  apply js_sort_sorted_id, compact_sorted.
Qed.

(** ** Displacement *)

Lemma push_pass_spec c placed c' moved :
  push_pass c placed = (c', moved) →
  shape c' = shape c ∧ y c <= y c' ∧
  (if moved then y c < y c' ∧ ∃ p, p ∈ placed ∧ y c' = y p + h p
   else c' = c ∧ Forall (disjoint_items c) placed).
Proof.
  unfold push_pass. revert c' moved.
  induction placed as [|p placed IH] using rev_ind; simpl; intros c' moved.
  { intros [= <- <-]. repeat split; try lia. constructor. }
  rewrite foldl_app. simpl. destruct (foldl _ _ placed) as [c1 m1].
  destruct (IH c1 m1 eq_refl) as (Hsh & Hle & Hm). destruct (overlaps c1 p) eqn:Ho.
  - intros [= <- <-]. rewrite shape_with_y. simpl.
    assert (y c1 < y p + h p).
    { unfold overlaps, sharesRow in Ho. reflect_bools. lia. }
    repeat split; [done|lia|lia|]. exists p. split; [|done].
    apply elem_of_app. right. by apply list_elem_of_singleton.
  - intros [= <- <-]. split; [done|]. split; [done|]. destruct m1.
    + destruct Hm as [Hlt (q & Hq & E)]. split; [done|]. exists q.
      split; [apply elem_of_app; by left|done].
    + destruct Hm as [-> Hall]. split; [done|]. apply Forall_app. split; [done|].
      by apply Forall_singleton.
Qed.

(** How many placed items still have their bottom edge below [c]'s top edge;
    every turn of the loop that moves [c] makes it smaller. *)
Definition bottoms_below (c : LayoutItem) (placed : list LayoutItem) : nat :=
  length (filter (λ p, y c < y p + h p) placed).

Lemma bottoms_below_lt c c' placed p :
  y c < y c' → p ∈ placed → y c' = y p + h p →
  (bottoms_below c' placed < bottoms_below c placed)%nat.
Proof.
  intros Hlt Hp E. unfold bottoms_below. induction placed as [|q placed IH];
    [by apply elem_of_nil in Hp|].
  assert (Hmono : ∀ l, (length (filter (λ p, (y c' < y p + h p)%Z) l)
                        ≤ length (filter (λ p, (y c < y p + h p)%Z) l))%nat).
  { induction l as [|r l IHl]; [done|]. rewrite !filter_cons.
    destruct (decide (y c' < y r + h r)), (decide (y c < y r + h r)); simpl; lia. }
  rewrite !filter_cons. apply elem_of_cons in Hp as [<-|Hp].
  - rewrite decide_False by lia. rewrite decide_True by lia. specialize (Hmono placed). simpl. lia.
  - specialize (IH Hp).
    destruct (decide (y c' < y q + h q)), (decide (y c < y q + h q)); simpl; lia.
Qed.

Lemma push_total fuel c placed :
  (bottoms_below c placed < fuel)%nat → is_Some (push fuel c placed).
Proof.
  revert c. induction fuel as [|f IH]; intros c Hf; [lia|]. simpl.
  destruct (push_pass c placed) as [c' moved] eqn:E.
  destruct (push_pass_spec _ _ _ _ E) as (_ & _ & Hm). destruct moved; [|by eauto].
  destruct Hm as [Hlt (p & Hp & Ey)]. apply IH.
  pose proof (bottoms_below_lt _ _ _ _ Hlt Hp Ey). lia.
Qed.

Lemma push_spec fuel c placed c' :
  push fuel c placed = Some c' →
  shape c' = shape c ∧ y c <= y c' ∧ Forall (disjoint_items c') placed.
Proof.
  revert c. induction fuel as [|f IH]; intros c; [done|]. simpl.
  destruct (push_pass c placed) as [c1 moved] eqn:E.
  destruct (push_pass_spec _ _ _ _ E) as (Hsh & Hle & Hm). destruct moved.
  - intros (Hsh' & Hle' & Hall)%IH. split; [congruence|]. split; [lia|done].
  - destruct Hm as [-> Hall]. by intros [= <-].
Qed.

Lemma place_others_total placed others : is_Some (place_others placed others).
Proof.
  revert placed. induction others as [|it others IH]; intros placed;
    cbn [place_others]; [by eauto|].
  destruct (push_total (S (length placed)) it placed) as [c Hc].
  { unfold bottoms_below. pose proof (length_filter (λ p, y it < y p + h p) placed). lia. }
  rewrite Hc. apply IH.
Qed.

Lemma place_others_spec placed others r :
  NoOverlap placed → place_others placed others = Some r →
  NoOverlap r ∧ ∃ tail, r = placed ++ tail ∧
    Forall2 (λ o c, shape c = shape o ∧ y o <= y c) others tail.
Proof.
  revert placed. induction others as [|it others IH]; intros placed Hno; cbn [place_others].
  { intros [= <-]. split; [done|]. exists []. by rewrite app_nil_r. }
  destruct (push (S (length placed)) it placed) as [c|] eqn:Hc; [|done].
  cbn [mbind option_bind]. intros Hr.
  destruct (push_spec _ _ _ _ Hc) as (Hsh & Hle & Hall).
  destruct (IH (placed ++ [c])) as [Hnor (tail & -> & Htail)]; [|done|].
  { by apply NoOverlap_snoc. }
  split; [done|]. exists (c :: tail). split; [by rewrite <- app_assoc|]. by constructor.
Qed.

(** ** One resolve pass *)

Definition ids (l : list LayoutItem) : list jstring := instanceId <$> l.

Lemma resolve_total items anchor : is_Some (resolve items anchor).
Proof.
  unfold resolve. destruct (place_others_total [anchor]
    (js_sort byReadingOrder (other_items items (instanceId anchor)))) as [r ->]. by eauto.
Qed.

Lemma resolve_inv items anchor r :
  resolve items anchor = Some r →
  ∃ placed, r = compact placed ∧ NoOverlap placed ∧
    ∃ tail, placed = anchor :: tail ∧
      Forall2 (λ o c, shape c = shape o ∧ y o <= y c)
        (js_sort byReadingOrder (other_items items (instanceId anchor))) tail.
Proof.
  unfold resolve. destruct (place_others _ _) as [placed|] eqn:E; [|done].
  intros [= <-]. apply place_others_spec in E as [Hno (tail & -> & Ht)];
    [|by repeat constructor]. exists ([anchor] ++ tail). by eauto.
Qed.

Lemma resolve_shape items anchor r :
  resolve items anchor = Some r →
  shape <$> r ≡ₚ shape anchor :: (shape <$> other_items items (instanceId anchor)).
Proof.
  intros (placed & -> & _ & tail & -> & HF)%resolve_inv.
  rewrite compact_shape, fmap_cons. constructor.
  transitivity (shape <$> js_sort byReadingOrder (other_items items (instanceId anchor)));
    [|by rewrite js_sort_perm].
  enough (E : shape <$> tail = shape <$> js_sort byReadingOrder
    (other_items items (instanceId anchor))) by (by rewrite E).
  clear -HF. induction HF as [|? ? ? ? [? _] ? IH]; [done|]. simpl. by f_equal.
Qed.

Lemma resolve_layout items anchor r :
  resolve items anchor = Some r →
  NoOverlap r ∧ Forall (supported r) r ∧ Forall (λ it, 0 <= y it) r ∧
  StronglySorted (cmp_le byReadingOrder) r.
Proof.
  intros (placed & -> & _)%resolve_inv.
  split; [apply compact_no_overlap_all|]. split; [apply compact_supported_all|].
  split; [apply compact_nonneg|apply compact_sorted].
Qed.

(** Rule 3 then gravity: the anchor ends no lower than where it was put. *)
Lemma resolve_anchor items anchor r :
  Forall item_wf items → Forall (λ it, 0 <= y it) items → item_wf anchor → 0 <= y anchor →
  resolve items anchor = Some r →
  ∃ a, a ∈ r ∧ shape a = shape anchor ∧ y a <= y anchor.
Proof.
  intros Hwf Hy Hwfa Hya (placed & -> & Hno & tail & -> & HF)%resolve_inv.
  assert (Hoth : ∀ o, o ∈ js_sort byReadingOrder (other_items items (instanceId anchor)) →
            item_wf o ∧ 0 <= y o).
  { intros o Ho%elem_of_js_sort. apply list_elem_of_filter in Ho as [_ Ho].
    rewrite Forall_forall in Hwf, Hy. by auto. }
  apply compact_lifts; [done|..|by left]; constructor; try done; apply Forall_forall;
    intros c Hc; destruct (Forall2_elem_r _ _ _ _ HF Hc) as (o & Ho & Hsh & Hle);
    destruct (Hoth o Ho).
  - by apply (item_wf_shape o).
  - lia.
Qed.

(** ** Identity *)

Lemma findTarget_Some l iid t : findTarget l iid = Some t → t ∈ l ∧ instanceId t = iid.
Proof.
  unfold findTarget. intros Ht.
  assert (Hin : t ∈ filter (λ i, instanceId i = iid) l).
  { destruct (filter _ l); [done|]. simpl in Ht. simplify_eq. by left. }
  by apply list_elem_of_filter in Hin as [? ?].
Qed.
Lemma findTarget_is_Some l iid : iid ∈ ids l → is_Some (findTarget l iid).
Proof.
  unfold ids. intros (t & -> & Ht)%list_elem_of_fmap. unfold findTarget.
  assert (Hin : t ∈ filter (λ i, instanceId i = instanceId t) l)
    by (by apply list_elem_of_filter).
  destruct (filter _ l); [by apply elem_of_nil in Hin|]. by eauto.
Qed.
Lemma findTarget_unique l iid t :
  NoDup (ids l) → t ∈ l → instanceId t = iid → findTarget l iid = Some t.
Proof.
  intros Hnd Ht <-. destruct (findTarget_is_Some l (instanceId t)) as [t' Ht'].
  { by apply list_elem_of_fmap_2. }
  rewrite Ht'. f_equal. apply findTarget_Some in Ht' as [Hin' Heq].
  apply list_elem_of_lookup in Ht as [i Hi]. apply list_elem_of_lookup in Hin' as [j Hj].
  assert (i = j) as ->; [|congruence].
  eapply (NoDup_lookup (ids l)); [done|..]; unfold ids; rewrite list_lookup_fmap.
  - by rewrite Hi.
  - rewrite Hj. simpl. by rewrite Heq.
Qed.

Lemma ids_shape l : ids l = instanceId <$> (shape <$> l).
Proof. unfold ids. by rewrite <- list_fmap_compose. Qed.
Lemma other_items_shape l iid :
  shape <$> other_items l iid = filter (λ s, instanceId s ≠ iid) (shape <$> l).
Proof. unfold other_items. by rewrite filter_fmap. Qed.
Lemma other_items_notin l iid : iid ∉ ids (other_items l iid).
Proof. by intros (t & -> & [Ht _]%list_elem_of_filter)%list_elem_of_fmap. Qed.
Lemma other_items_notin_id l iid : iid ∉ ids l → other_items l iid = l.
Proof.
  intros H. apply filter_all, Forall_forall. intros a Ha <-.
  apply H. by apply list_elem_of_fmap_2.
Qed.
#[export] Instance other_items_proper :
  Proper ((≡ₚ) ==> eq ==> (≡ₚ)) other_items.
Proof. intros l l' Hp iid _ <-. unfold other_items. by rewrite Hp. Qed.
Lemma other_items_perm l t :
  NoDup (ids l) → t ∈ l → l ≡ₚ t :: other_items l (instanceId t).
Proof.
  intros Hnd (l1 & l2 & ->)%list_elem_of_split.
  unfold ids in Hnd. rewrite fmap_app, fmap_cons in Hnd.
  rewrite <- Permutation_middle in Hnd |- *.
  apply NoDup_cons in Hnd as [Hni _]. rewrite <- fmap_app in Hni. constructor.
  unfold other_items. rewrite filter_cons_False by naive_solver.
  fold (other_items (l1 ++ l2) (instanceId t)). by rewrite other_items_notin_id.
Qed.
Lemma NoDup_other_items l iid : NoDup (ids l) → NoDup (ids (other_items l iid)).
Proof.
  intros H. unfold ids, other_items. eapply sublist_NoDup; [exact H|].
  apply fmap_sublist, sublist_filter.
Qed.

Lemma resolve_ids items anchor r :
  NoDup (ids items) → resolve items anchor = Some r →
  NoDup (ids r) ∧ instanceId anchor ∈ ids r.
Proof.
  intros Hnd Hr%resolve_shape.
  assert (Hp : ids r ≡ₚ instanceId anchor :: ids (other_items items (instanceId anchor))).
  { rewrite (ids_shape r), Hr, fmap_cons. by rewrite <- ids_shape. }
  rewrite Hp. split; [|by left]. constructor; [apply other_items_notin|].
  by apply NoDup_other_items.
Qed.
Lemma resolve_others items anchor r :
  resolve items anchor = Some r →
  shape <$> other_items r (instanceId anchor) ≡ₚ
  shape <$> other_items items (instanceId anchor).
Proof.
  intros Hr%resolve_shape. rewrite (other_items_shape r), Hr.
  rewrite filter_cons_False by naive_solver.
  rewrite <- other_items_shape. by rewrite (other_items_notin_id (other_items _ _))
    by apply other_items_notin.
Qed.
Lemma resolve_target items anchor r t :
  NoDup (ids items) → resolve items anchor = Some r →
  findTarget r (instanceId anchor) = Some t → shape t = shape anchor.
Proof.
  intros Hnd Hr [Ht Hid]%findTarget_Some.
  destruct (resolve_ids _ _ _ Hnd Hr) as [Hndr _]. apply resolve_shape in Hr.
  assert (Hin : shape t ∈ shape <$> r) by (by apply list_elem_of_fmap_2).
  rewrite Hr, elem_of_cons in Hin. destruct Hin as [?|Hin]; [done|].
  exfalso. apply list_elem_of_fmap in Hin as (o & E & Ho).
  apply list_elem_of_filter in Ho as [Ho _]. apply Ho.
  by rewrite <- (shape_instanceId _ _ E).
Qed.

(** ** The pass loop *)

Section Settle.
Context (iid : jstring) (place : LayoutItem → LayoutItem) (T : LayoutItem → Prop).
Hypothesis place_id : ∀ t, instanceId (place t) = instanceId t.
Hypothesis place_wf : ∀ t, item_wf t → item_wf (place t).
Hypothesis place_top : ∀ t, 0 <= y t → 0 <= y (place t).
Hypothesis place_T : ∀ t a, T t → shape a = shape (place t) → y a <= y (place t) → T a.

(** What every pass keeps: distinct ids, boxes, the other items' shapes, and
    the invariant [T] of the target. *)
Definition pass_inv (items l : list LayoutItem) : Prop :=
  NoDup (ids l) ∧ Forall item_wf l ∧ Forall (λ it, 0 <= y it) l ∧
  shape <$> other_items l iid ≡ₚ shape <$> other_items items iid ∧
  ∃ t, findTarget l iid = Some t ∧ T t.
(** [r] came out of one resolve pass over such a layout. *)
Definition pass_outcome (items r : list LayoutItem) : Prop :=
  ∃ l t, pass_inv items l ∧ findTarget l iid = Some t ∧ T t ∧
    resolve l (place t) = Some r.

Lemma pass_inv_step items l t r :
  pass_inv items l → findTarget l iid = Some t → resolve l (place t) = Some r →
  pass_inv items r ∧ T t.
Proof using place_id place_wf place_top place_T.
  intros (Hnd & Hwf & Hy & Hoth & t' & Ht' & HT) Ht Hr.
  assert (t' = t) as -> by congruence. split; [|done].
  destruct (findTarget_Some _ _ _ Ht) as [Hin Hid]. rewrite <- (place_id t) in Hid.
  destruct (resolve_ids _ _ _ Hnd Hr) as [Hndr Hidr].
  destruct (resolve_layout _ _ _ Hr) as (_ & _ & Hyr & _).
  split; [done|]. split.
  { eapply (Forall_shape _ r (place t :: other_items l (instanceId (place t))));
      [apply item_wf_shape|by rewrite (resolve_shape _ _ _ Hr)|].
    constructor.
    - apply place_wf. rewrite Forall_forall in Hwf. by apply Hwf.
    - by apply Forall_filter_1. }
  split; [done|]. rewrite <- Hid in Hoth |- *.
  split; [by rewrite (resolve_others _ _ _ Hr)|].
  rewrite Forall_forall in Hwf, Hy.
  destruct (resolve_anchor l (place t) r) as (a & Ha & Hsh & Hle);
    [by apply Forall_forall|by apply Forall_forall|by auto|by auto|done|].
  exists a. split; [|by apply (place_T t)].
  apply findTarget_unique; [done..|]. by apply shape_instanceId.
Qed.

Lemma settle_passes_outcome n items cur :
  pass_inv items cur → pass_outcome items cur →
  ∃ r, settle_passes n iid place cur = Some r ∧ pass_outcome items r.
Proof using place_id place_wf place_top place_T.
  revert cur. induction n as [|n IH]; intros cur Hinv Hout; simpl; [by eauto|].
  assert (Ht : ∃ t, findTarget cur iid = Some t) by (destruct Hinv as (_&_&_&_&t&?&_); eauto).
  destruct Ht as [t Ht]. rewrite Ht. simpl.
  destruct (resolve_total cur (place t)) as [next Hn]. rewrite Hn. simpl.
  destruct (pass_inv_step _ _ _ _ Hinv Ht Hn) as [Hinv' HT].
  assert (pass_outcome items next) by (exists cur, t; done).
  destruct (sameLayout next cur); [by eauto|by apply IH].
Qed.

Lemma settle_outcome items :
  pass_inv items items → ∃ r, settle items iid place = Some r ∧ pass_outcome items r.
Proof using place_id place_wf place_top place_T.
  intros Hinv. unfold settle.
  assert (Ht : ∃ t, findTarget items iid = Some t)
    by (destruct Hinv as (_&_&_&_&t&?&_); eauto).
  destruct Ht as [t Ht]. rewrite Ht. simpl.
  destruct (resolve_total items (place t)) as [cur Hc]. rewrite Hc. simpl.
  destruct (pass_inv_step _ _ _ _ Hinv Ht Hc) as [Hinv' HT].
  apply settle_passes_outcome; [done|]. by exists items, t.
Qed.
End Settle.

(** A layout the server would accept, row cap aside. *)
Definition layout_wf (items : list LayoutItem) : Prop :=
  NoDup (ids items) ∧ Forall item_wf items ∧ Forall (λ it, 0 <= y it) items ∧
  Forall in_columns items.

Lemma layout_wf_pass_inv items iid t (T : LayoutItem → Prop) :
  layout_wf items → findTarget items iid = Some t → T t → pass_inv iid T items items.
Proof. intros (? & ? & ? & _) Ht HT. repeat split; try done. by exists t. Qed.

(** Two items that differ at most in position. *)
Definition same_box (t0 t : LayoutItem) : Prop :=
  instanceId t = instanceId t0 ∧ id t = id t0 ∧ w t = w t0 ∧ h t = h t0 ∧ params t = params t0.

Lemma move_place_same_box col row t0 t :
  same_box t0 t → move_place col row t = move_place col row t0.
Proof. destruct t, t0. unfold same_box, move_place, with_pos. simpl. by intros (-> & -> & -> & -> & ->). Qed.

Lemma clamp_bounds v lo hi : lo <= hi → lo <= clamp v lo hi <= hi.
Proof. unfold clamp. lia. Qed.

(** Every finite request on a present item is one [resolve] of that request
    over a layout with the same other items. *)
Lemma moveItem_outcome items iid t qx qy :
  layout_wf items → findTarget items iid = Some t →
  let a := move_place (math_round qx) (Z.max 0 (math_round qy)) t in
  ∃ r l, moveItem items iid (Fin qx) (Fin qy) = Some r ∧
    pass_inv iid (same_box t) items l ∧ resolve l a = Some r.
Proof.
  intros Hwf Ht a. unfold moveItem. rewrite Ht.
  set (place := move_place (math_round qx) (Z.max 0 (math_round qy))) in *.
  destruct (settle_outcome iid place (same_box t)) with (items := items)
    as (r & Hr & l & t' & Hinv & Ht' & HT & Hres).
  - done.
  - done.
  - intros u _. subst place. unfold move_place, with_pos. simpl.
    apply clamp_bounds. lia.
  - intros u b Hu Hb _. unfold same_box in *. rewrite (shape_eq _ _ Hb). simpl. done.
  - by apply (layout_wf_pass_inv _ _ t).
  - exists r, l. split; [done|]. split; [done|].
    unfold place in Hres. by rewrite (move_place_same_box _ _ t) in Hres.
Qed.

Lemma move_place_wf col row t : item_wf t → item_wf (move_place col row t).
Proof. done. Qed.
Lemma move_place_in_columns col row t :
  in_columns t → in_columns (move_place col row t).
Proof.
  unfold in_columns, move_place, with_pos. simpl. intros [? ?].
  pose proof (clamp_bounds col 0 (Z.max 0 (DASHBOARD_COLUMNS - w t))). lia.
Qed.

Lemma pass_inv_others iid T items l r a :
  pass_inv iid T items l → instanceId a = iid → resolve l a = Some r →
  shape <$> r ≡ₚ shape a :: (shape <$> other_items items iid).
Proof. intros (_ & _ & _ & Hoth & _) <- Hr. by rewrite (resolve_shape _ _ _ Hr), Hoth. Qed.

Lemma resolve_lands iid T items l r a :
  pass_inv iid T items l → instanceId a = iid → item_wf a → 0 <= y a →
  resolve l a = Some r →
  ∃ t, findTarget r iid = Some t ∧ shape t = shape a ∧ 0 <= y t <= y a.
Proof.
  intros (Hnd & Hwf & Hy & _) <- Hwfa Hya Hr.
  destruct (resolve_anchor _ _ _ Hwf Hy Hwfa Hya Hr) as (t & Ht & Hsh & Hle).
  destruct (resolve_ids _ _ _ Hnd Hr) as [Hndr _].
  destruct (resolve_layout _ _ _ Hr) as (_ & _ & Hyr & _). rewrite Forall_forall in Hyr.
  exists t. split; [apply findTarget_unique; [done..|by apply shape_instanceId]|].
  split; [done|]. pose proof (Hyr t Ht). lia.
Qed.

Lemma findTarget_wf items iid t :
  layout_wf items → findTarget items iid = Some t →
  item_wf t ∧ 0 <= y t ∧ in_columns t ∧ instanceId t = iid.
Proof.
  intros (_ & Hwf & Hy & Hc) [Ht Hid]%findTarget_Some.
  rewrite Forall_forall in Hwf, Hy, Hc. by auto.
Qed.

(** ** Re-applying a request *)

Lemma same_placement_eq a b : same_placement a b = true → shape a = shape b → a = b.
Proof.
  unfold same_placement. intros. reflect_bools.
  rewrite (shape_eq a b) by done. replace (y a) with (y b) by done. apply with_y_id.
Qed.
Lemma sameLayout_refl l : sameLayout l l = true.
Proof.
  induction l as [|a l IH]; [done|]. simpl. rewrite IH. unfold same_placement, js_eqb.
  by rewrite bool_decide_true, !Z.eqb_refl.
Qed.
(** For layouts over the same items, the index-wise comparison is equality. *)
Lemma sameLayout_eq a b :
  NoDup (ids a) → shape <$> a ≡ₚ shape <$> b → sameLayout a b = true → a = b.
Proof.
  intros Hnd Hp Hs.
  assert (Hall : ∀ i p q, a !! i = Some p → b !! i = Some q → same_placement p q = true).
  { clear -Hs. revert b Hs. induction a as [|p a IH]; intros [|q b]; simpl; try done.
    intros [? ?]%andb_true_iff [|i] p' q'; simpl; [congruence|]. by apply IH. }
  assert (Hlen : length a = length b) by (apply Permutation_length in Hp; by rewrite !length_fmap in Hp).
  apply list_eq. intros i. destruct (a !! i) as [p|] eqn:Hpi.
  2:{ apply lookup_ge_None in Hpi. symmetry. apply lookup_ge_None. lia. }
  destruct (lookup_lt_is_Some_2 b i) as [q Hq]; [apply lookup_lt_Some in Hpi; lia|].
  rewrite Hq. f_equal. apply same_placement_eq; [by eapply Hall|].
  pose proof (Hall i p q Hpi Hq) as Hpq. unfold same_placement in Hpq. reflect_bools.
  unfold js_eqb in *. reflect_bools.
  assert (Hin : shape q ∈ shape <$> a).
  { rewrite Hp. apply list_elem_of_fmap_2. by eapply list_elem_of_lookup_2. }
  apply list_elem_of_fmap in Hin as (p' & E & Hp'). rewrite E.
  assert (Hu : ∀ u, u ∈ a → instanceId u = instanceId q → findTarget a (instanceId q) = Some u)
    by (intros; by apply findTarget_unique).
  assert (instanceId p' = instanceId q) by (symmetry; by apply shape_instanceId).
  pose proof (Hu p' Hp'). pose proof (Hu p (list_elem_of_lookup_2 _ _ _ Hpi)). naive_solver.
Qed.

(** One pass of the loop, and "[n] passes in a row each change the layout". *)
Definition pass (iid : jstring) (place : LayoutItem → LayoutItem) (l : list LayoutItem)
    : option (list LayoutItem) :=
  t ← findTarget l iid; resolve l (place t).
Fixpoint passes_all_change (n : nat) (iid : jstring) (place : LayoutItem → LayoutItem)
    (l : list LayoutItem) : Prop :=
  match n with
  | O => True
  | S n' => ∃ next, pass iid place l = Some next ∧ next ≠ l ∧
              passes_all_change n' iid place next
  end.

Lemma settle_passes_exit n iid place (P : list LayoutItem → Prop) cur r :
  (∀ l l', P l → pass iid place l = Some l' → P l' ∧ NoDup (ids l') ∧ shape <$> l' ≡ₚ shape <$> l) →
  P cur → settle_passes n iid place cur = Some r →
  pass iid place r = Some r ∨ passes_all_change n iid place cur.
Proof.
  intros Hstep. revert cur. induction n as [|n IH]; intros cur HP; simpl; [by right|].
  destruct (findTarget cur iid) as [t|] eqn:Ht; [|done]. simpl.
  destruct (resolve cur (place t)) as [next|] eqn:Hn; [|done]. simpl.
  assert (Hpass : pass iid place cur = Some next) by (unfold pass; by rewrite Ht).
  destruct (Hstep _ _ HP Hpass) as (HP' & Hnd & Hsh).
  destruct (sameLayout next cur) eqn:Hs.
  - apply sameLayout_eq in Hs; [|done..]. subst. intros [= <-]. by left.
  - intros Hr. destruct (IH _ HP' Hr) as [?|?]; [by left|right].
    exists next. split; [done|]. split; [|done]. intros ->. by rewrite sameLayout_refl in Hs.
Qed.

(** A layout over the items of a move request: what each pass keeps. *)
Lemma move_pass_step items iid t col row l l' :
  0 <= row → item_wf t →
  pass_inv iid (same_box t) items l ∧
    shape <$> l ≡ₚ shape (move_place col row t) :: (shape <$> other_items items iid) →
  pass iid (move_place col row) l = Some l' →
  (pass_inv iid (same_box t) items l' ∧
    shape <$> l' ≡ₚ shape (move_place col row t) :: (shape <$> other_items items iid)) ∧
  NoDup (ids l') ∧ shape <$> l' ≡ₚ shape <$> l.
Proof.
  intros Hrow Hwf [Hinv Hsh] Hp. unfold pass in Hp.
  destruct (findTarget l iid) as [u|] eqn:Hu; [|done]. simpl in Hp.
  destruct (pass_inv_step iid (move_place col row) (same_box t)) with
    (items := items) (l := l) (t := u) (r := l') as [Hinv' HT]; try done.
  { intros v _. unfold move_place, with_pos. simpl. apply clamp_bounds. lia. }
  { intros v b Hv Hb _. unfold same_box in *. rewrite (shape_eq _ _ Hb). simpl. done. }
  rewrite (move_place_same_box _ _ _ _ HT) in Hp.
  assert (Hid : instanceId t = iid).
  { destruct HT as (E & _). rewrite <- E. by apply findTarget_Some in Hu as [_ ?]. }
  pose proof (pass_inv_others _ _ _ _ _ (move_place col row t) Hinv Hid Hp) as Hsh'.
  split; [done|]. split; [by destruct Hinv'|by rewrite Hsh', Hsh].
Qed.

Lemma moveItem_keeps items iid t qx qy :
  layout_wf items → findTarget items iid = Some t →
  ∃ r, moveItem items iid (Fin qx) (Fin qy) = Some r ∧ layout_wf r ∧ NoOverlap r ∧
    Forall (supported r) r ∧
    shape <$> r ≡ₚ shape (move_place (math_round qx) (Z.max 0 (math_round qy)) t)
                   :: (shape <$> other_items items iid).
Proof.
  intros Hwf Ht. destruct (moveItem_outcome items iid t qx qy Hwf Ht) as (r & l & Hm & Hinv & Hr).
  set (a := move_place _ _ t) in *.
  destruct (findTarget_wf _ _ _ Hwf Ht) as (Hwft & _ & Hct & Hid).
  destruct (resolve_layout _ _ _ Hr) as (Hno & Hsup & Hy & _).
  pose proof (pass_inv_others _ _ _ _ _ a Hinv Hid Hr) as Hsh.
  destruct (resolve_ids l a r) as [Hndr _]; [by destruct Hinv|done|].
  exists r. split; [done|]. split; [|done]. split; [done|].
  assert (HF : ∀ P : LayoutItem → Prop, (∀ a b, shape a = shape b → P a → P b) →
             P a → Forall P items → Forall P r).
  { intros P HP Ha Hall. apply (Forall_shape P r (a :: other_items items iid)); [done..|].
    constructor; [done|]. by apply Forall_filter_1. }
  destruct Hwf as (_ & Hwf & _ & Hc).
  split; [by apply HF; [apply item_wf_shape|..]|]. split; [done|].
  apply HF; [apply in_columns_shape|by apply move_place_in_columns|done].
Qed.

(** ** Resizing *)

(** A target during a resize: same identity and column, no lower than it was. *)
Definition same_corner (t0 t : LayoutItem) : Prop :=
  instanceId t = instanceId t0 ∧ id t = id t0 ∧ x t = x t0 ∧ params t = params t0 ∧ y t <= y t0.

Lemma resizeItem_outcome items iid t qw qh bounds :
  layout_wf items → findTarget items iid = Some t →
  let place := resize_place (math_round qw)
    (Z.max (Z.max 1 (bound_minH bounds)) (math_round qh)) bounds in
  ∃ r l u, resizeItem items iid (Fin qw) (Fin qh) bounds = Some r ∧
    pass_inv iid (same_corner t) items l ∧ findTarget l iid = Some u ∧ same_corner t u ∧
    resolve l (place u) = Some r.
Proof.
  intros Hwf Ht place. unfold resizeItem. rewrite Ht. fold place.
  destruct (settle_outcome iid place (same_corner t)) with (items := items)
    as (r & Hr & l & u & Hinv & Hu & HT & Hres).
  - done.
  - intros v _. unfold place, resize_place, with_size, item_wf. simpl. lia.
  - done.
  - intros v b (? & ? & ? & ? & ?) Hb Hle. unfold same_corner. simpl in Hle.
    rewrite (shape_eq _ _ Hb). simpl. repeat split; congruence || lia.
  - by apply (layout_wf_pass_inv _ _ t).
  - by exists r, l, u.
Qed.

(** ** The keyboard step *)

Lemma math_round_int z : math_round (inject_Z z) = z.
Proof.
  unfold math_round. assert (E : (inject_Z z + (1 # 2) == (2 * z + 1) # 2)%Q).
  { unfold Qeq. simpl. lia. }
  rewrite E. unfold Qfloor. symmetry. apply (Z.div_unique _ 2 _ 1); lia.
Qed.

Definition lowered (iid : jstring) (ty : Z) (l : list LayoutItem) : Prop :=
  ∃ u, findTarget l iid = Some u ∧ ty < y u.

Lemma moveItem_total items iid t qx qy :
  layout_wf items → findTarget items iid = Some t →
  ∃ r u, moveItem items iid (Fin qx) (Fin qy) = Some r ∧ findTarget r iid = Some u.
Proof.
  intros Hwf Ht. destruct (moveItem_outcome items iid t qx qy Hwf Ht) as (r & l & Hm & Hinv & Hr).
  destruct (findTarget_wf _ _ _ Hwf Ht) as (_ & _ & _ & Hid).
  destruct (resolve_ids l _ r ltac:(by destruct Hinv) Hr) as [_ Hin].
  destruct (findTarget_is_Some r iid) as [u Hu]; [by rewrite <- Hid|]. by exists r, u.
Qed.

Lemma step_scan_spec n items iid t tx ty r0 first :
  layout_wf items → findTarget items iid = Some t →
  ∃ r, step_scan n items iid tx ty r0 first = Some r ∧
    ((∃ k, r0 <= k < r0 + Z.of_nat n ∧ moveItem items iid (of_Z tx) (of_Z k) = Some r ∧
           lowered iid ty r) ∨
     (r = first ∧ ∀ k r', r0 <= k < r0 + Z.of_nat n →
        moveItem items iid (of_Z tx) (of_Z k) = Some r' → ¬ lowered iid ty r')).
Proof.
  intros Hwf Ht. revert r0. induction n as [|n IH]; intros r0; simpl step_scan.
  { exists first. split; [done|]. right. split; [done|]. lia. }
  destruct (moveItem_total items iid t (inject_Z tx) (inject_Z r0) Hwf Ht) as (r & u & Hm & Hu).
  fold (of_Z tx) (of_Z r0) in Hm. rewrite Hm. simpl. rewrite Hu. simpl.
  destruct (Z.ltb_spec ty (y u)).
  - exists r. split; [done|]. left. exists r0. split; [lia|]. split; [done|]. by exists u.
  - destruct (IH (r0 + 1)) as (r' & Hr' & [(k & Hk & Hmk & Hl)|[-> Hno]]); exists r' || exists first.
    + split; [done|]. left. exists k. split; [lia|done].
    + split; [done|]. right. split; [done|]. intros k r' Hk Hmk.
      destruct (decide (k = r0)) as [->|]; [|apply (Hno k); [lia|done]].
      intros (v & Hv & Hlt). assert (r = r') as <- by congruence.
      assert (u = v) as <- by congruence. lia.
Qed.

(** ** Pairing items with widgets *)

Lemma resolveRenderable_fold {TDef} (lookup : jstring → option TDef) items :
  NoDup (ids items) →
  let '(m, known) := foldl (λ '(m, ks) it,
      match lookup (id it) with
      | None => (m, ks)
      | Some d => (<[instanceId it := d]> m, ks ++ [it])
      end) ((∅ : gmap jstring TDef), []) items in
  known = filter (λ it, is_Some (lookup (id it))) items ∧
  ∀ it, it ∈ known → m !! instanceId it = lookup (id it).
Proof.
  induction items as [|it items IH] using rev_ind; intros Hnd; simpl.
  { split; [done|]. by intros ? ?%elem_of_nil. }
  unfold ids in *. rewrite fmap_app in Hnd. apply NoDup_app in Hnd as (Hnd & Hni & _).
  specialize (IH Hnd). rewrite foldl_app. destruct (foldl _ _ items) as [m known].
  destruct IH as [-> Hm]. simpl. rewrite filter_app, filter_cons, filter_nil.
  destruct (lookup (id it)) as [d|] eqn:E.
  - rewrite decide_True by eauto. split; [done|].
    intros a [Ha| ->%list_elem_of_singleton]%elem_of_app; [|by rewrite lookup_insert_eq].
    rewrite lookup_insert_ne; [by apply Hm|].
    intros Heq. apply (Hni (instanceId a)); [|rewrite <- Heq; by left].
    apply list_elem_of_fmap_2. by apply list_elem_of_filter in Ha as [_ ?].
  - rewrite decide_False by (by intros [? ?]). by rewrite app_nil_r.
Qed.

Lemma resolveRenderable_items {TDef} (lookup : jstring → option TDef) items :
  NoDup (ids items) →
  item <$> resolveRenderable lookup items
    = compact (filter (λ it, is_Some (lookup (id it))) items) ∧
  Forall (λ p, lookup (id (item p)) = Some (def p)) (resolveRenderable lookup items).
Proof.
  intros Hnd. unfold resolveRenderable.
  pose proof (resolveRenderable_fold lookup items Hnd) as Hfold.
  destruct (foldl _ _ items) as [m known]. destruct Hfold as [-> Hm].
  set (known := filter _ items) in *.
  assert (Hc : ∀ a, a ∈ compact known → m !! instanceId a = lookup (id a) ∧ is_Some (lookup (id a))).
  { intros a Ha.
    assert (Hin : shape a ∈ shape <$> known)
      by (rewrite <- compact_shape; by apply list_elem_of_fmap_2).
    apply list_elem_of_fmap in Hin as (b & Hab & Hb). pose proof (Hm b Hb) as Hmb.
    rewrite (shape_eq _ _ Hab). simpl. split; [done|].
    by apply list_elem_of_filter in Hb as [? _]. }
  generalize dependent (compact known). intros l Hc. clear Hm.
  induction l as [|a l IH]; [by split|].
  destruct (Hc a) as [E [d Hd]]; [by left|]. simpl. rewrite E, Hd. simpl.
  destruct IH as [IH1 IH2]; [intros; apply Hc; by right|]. split; [by f_equal|].
  by constructor.
Qed.

(** ** Properties *)

(** Compaction separates: whatever it is given, overlapping stored layouts
    included, the result has no two overlapping items, is in reading order, and
    holds exactly the input's items with only their rows changed. *)
Theorem compact_separates items :
  NoOverlap (compact items) ∧
  StronglySorted (cmp_le byReadingOrder) (compact items) ∧
  shape <$> compact items ≡ₚ shape <$> items.
Proof.
  split; [apply compact_no_overlap_all|]. split; [apply compact_sorted|apply compact_shape].
Qed.

(** Compaction leaves no hole: every item of the result rests on the top
    edge or exactly on the bottom edge of another item sharing a column. *)
Theorem compact_gravity items :
  Forall (λ a, 0 <= y a ∧ supported (compact items) a) (compact items).
Proof.
  apply Forall_and. split; [apply compact_nonneg|apply compact_supported_all].
Qed.

(** One compaction pass suffices: compacting a compacted layout changes
    nothing, for items of at least one cell. *)
Theorem compact_idempotent items :
  Forall item_wf items → compact (compact items) = compact items.
Proof. apply compact_idemp_wf. Qed.

(** The displacement loop terminates: one [resolve] pass always answers,
    for any layout and any anchor, and what it answers is the anchor plus the
    other items, none overlapping. *)
Theorem resolve_terminates items anchor :
  ∃ r, resolve items anchor = Some r ∧ NoOverlap r ∧
    shape <$> r ≡ₚ shape anchor :: (shape <$> other_items items (instanceId anchor)).
Proof.
  destruct (resolve_total items anchor) as [r Hr]. exists r. split; [done|].
  split; [by eapply resolve_layout|by apply resolve_shape].
Qed.

(** C9. A move never throws and never loses, duplicates, reshapes or overlaps
    anything: on a well-formed layout every finite request for a present item
    yields a hole-free, non-overlapping layout inside the grid's columns in
    which only the dragged item changed column. *)
Theorem moveItem_sound items iid t qx qy :
  layout_wf items → findTarget items iid = Some t →
  ∃ r, moveItem items iid (Fin qx) (Fin qy) = Some r ∧ layout_wf r ∧ NoOverlap r ∧
    Forall (supported r) r ∧
    shape <$> r ≡ₚ shape (move_place (math_round qx) (Z.max 0 (math_round qy)) t)
                   :: (shape <$> other_items items iid).
Proof. apply moveItem_keeps. Qed.

(** A move lands where it was asked, gravity aside: the item ends in the
    requested column clamped to the grid, keeps its size, and is never lower
    than the requested row clamped under the row cap. *)
Theorem moveItem_lands items iid t qx qy r :
  layout_wf items → findTarget items iid = Some t →
  moveItem items iid (Fin qx) (Fin qy) = Some r →
  ∃ t', findTarget r iid = Some t' ∧ w t' = w t ∧ h t' = h t ∧
    x t' = clamp (math_round qx) 0 (DASHBOARD_COLUMNS - w t) ∧
    0 <= y t' <= clamp (Z.max 0 (math_round qy)) 0 (Z.max 0 (DASHBOARD_MAX_ROWS - h t)).
Proof.
  intros Hwf Ht Hm.
  destruct (moveItem_outcome items iid t qx qy Hwf Ht) as (r' & l & Hm' & Hinv & Hr).
  assert (r' = r) as -> by congruence.
  destruct (findTarget_wf _ _ _ Hwf Ht) as (Hwft & _ & [Hx0 Hx1] & Hid).
  set (a := move_place _ _ t) in *.
  destruct (resolve_lands _ _ _ _ r a Hinv Hid) as (t' & Ht' & Hsh & Hy); [done|..|done|].
  { unfold a, move_place, with_pos. simpl. apply clamp_bounds. lia. }
  exists t'. split; [done|]. rewrite (shape_eq _ _ Hsh) at 1 2 3.
  unfold a, move_place, with_pos in *. simpl in *.
  rewrite (Z.max_r 0 (DASHBOARD_COLUMNS - w t)) by lia. done.
Qed.

(** A request the pointer cannot mean leaves the layout alone: a NaN or
    infinite coordinate, or an item that is not there, is a no-op. *)
Theorem moveItem_ignores items iid nx ny :
  findTarget items iid = None ∨ isFinite nx = false ∨ isFinite ny = false →
  moveItem items iid nx ny = Some items.
Proof.
  unfold moveItem. intros [->|[Hx|Hy]]; [done|..].
  - destruct (findTarget items iid), nx; done.
  - destruct (findTarget items iid), nx, ny; done.
Qed.

(** C21. A drag is stable under a standing pointer: re-applying the request to
    its own result returns that result, unless every one of the [length items]
    guarded passes still changed the layout. *)
Theorem moveItem_fixed_point items iid t qx qy r :
  layout_wf items → findTarget items iid = Some t →
  moveItem items iid (Fin qx) (Fin qy) = Some r →
  let place := move_place (math_round qx) (Z.max 0 (math_round qy)) in
  moveItem r iid (Fin qx) (Fin qy) = Some r ∨
  ∃ first, resolve items (place t) = Some first ∧
    passes_all_change (length items) iid place first.
Proof.
  intros Hwf Ht Hm place.
  pose proof (findTarget_wf _ _ _ Hwf Ht) as (Hwft & _ & _ & Hid).
  unfold moveItem in Hm. rewrite Ht in Hm. unfold settle in Hm. rewrite Ht in Hm. simpl in Hm.
  fold place in Hm. destruct (resolve items (place t)) as [first|] eqn:Hf; [|done].
  simpl in Hm.
  assert (Hinv0 : pass_inv iid (same_box t) items items) by by apply (layout_wf_pass_inv _ _ t).
  destruct (pass_inv_step iid place (same_box t)) with (items := items) (l := items)
    (t := t) (r := first) as [Hinv _]; try done.
  { intros v _. unfold place, move_place, with_pos. simpl. apply clamp_bounds. lia. }
  { intros v b Hv Hb _. unfold same_box in *. rewrite (shape_eq _ _ Hb). done. }
  pose proof (pass_inv_others _ _ _ _ _ (place t) Hinv0 Hid Hf) as Hsh.
  destruct (settle_passes_exit (length items) iid place _ first r
    (λ l l', move_pass_step items iid t _ _ l l' (Z.le_max_l 0 _) Hwft) (conj Hinv Hsh) Hm)
    as [Hfix|Hall]; [left|right; exists first; done].
  unfold pass in Hfix. unfold moveItem, settle. fold place.
  destruct (findTarget r iid) as [u|] eqn:Hu; [|done]. simpl in *. rewrite Hfix. simpl.
  destruct r as [|b r]; [done|]. cbn [length settle_passes]. rewrite Hu.
  cbn [mbind option_bind]. rewrite Hfix. cbn [mbind option_bind]. by rewrite sameLayout_refl.
Qed.

(** A resize keeps the grid sound: it answers for every finite request on a
    present item, moves no column, gives exactly the clamped width, never lets
    the item cross the right edge or (from inside the cap) the row cap, and
    leaves every other item's shape alone without overlaps. *)
Theorem resizeItem_sound items iid t qw qh bounds :
  layout_wf items → findTarget items iid = Some t →
  ∃ r t', resizeItem items iid (Fin qw) (Fin qh) bounds = Some r ∧ NoOverlap r ∧
    findTarget r iid = Some t' ∧ x t' = x t ∧
    w t' = Z.max 1 (clamp (math_round qw) (bound_minW bounds) (DASHBOARD_COLUMNS - x t)) ∧
    x t' + w t' <= DASHBOARD_COLUMNS ∧ 1 <= h t' ∧
    (y t < DASHBOARD_MAX_ROWS → y t' + h t' <= DASHBOARD_MAX_ROWS) ∧
    shape <$> other_items r iid ≡ₚ shape <$> other_items items iid.
Proof.
  intros Hwf Ht.
  destruct (resizeItem_outcome items iid t qw qh bounds Hwf Ht)
    as (r & l & u & Hm & Hinv & Hu & (Hidu & _ & Hxu & _ & Hyu) & Hr).
  set (a := resize_place _ _ bounds u) in *.
  destruct (findTarget_wf _ _ _ Hwf Ht) as (_ & _ & [Hx0 Hx1] & Hid).
  assert (Hy0 : 0 <= y u).
  { apply findTarget_Some in Hu as [Hu _]. destruct Hinv as (_ & _ & Hy & _).
    rewrite Forall_forall in Hy. by apply Hy. }
  assert (Hida : instanceId a = iid) by (simpl; congruence).
  assert (Hwfa : item_wf a) by (unfold a, resize_place, with_size, item_wf; simpl; lia).
  destruct (resolve_lands _ _ _ _ _ a Hinv Hida Hwfa Hy0 Hr) as (t' & Ht' & Hsh & Hle).
  pose proof (shape_eq _ _ Hsh) as E. destruct (resolve_layout _ _ _ Hr) as (Hno & _).
  destruct Hwf as (_ & Hwf & _). apply findTarget_Some in Ht as [Ht _].
  rewrite Forall_forall in Hwf. destruct (Hwf t Ht) as [Hw _].
  exists r, t'. split; [done|]. split; [done|]. split; [done|].
  rewrite E. unfold a, resize_place, with_size, clamp in *. simpl in *. rewrite Hxu.
  repeat split; try lia. rewrite <- Hida, (resolve_others _ _ _ Hr). rewrite Hida.
  by destruct Hinv as (_ & _ & _ & ? & _).
Qed.

(** A downward key press is not absorbed: if any row from the one asked
    for down to the bottom of the layout would lower the item, the step lowers
    it; and the step always answers. *)
Theorem stepItem_progress items iid t dy :
  layout_wf items → findTarget items iid = Some t → 0 < dy →
  ∃ r, stepItem items iid (of_Z 0) (of_Z dy) = Some r ∧
    ((∃ k r', y t + dy <= k <= layoutHeight items ∧
        moveItem items iid (of_Z (x t)) (of_Z k) = Some r' ∧ lowered iid (y t) r') →
     lowered iid (y t) r).
Proof.
  intros Hwf Ht Hdy. unfold stepItem. rewrite Ht. unfold of_Z at 1 2. rewrite !math_round_int.
  rewrite Z.add_0_r.
  destruct (moveItem_total items iid t (inject_Z (x t)) (inject_Z (y t + dy)) Hwf Ht)
    as (first & u & Hf & Hu).
  fold (of_Z (x t)) (of_Z (y t + dy)) in Hf. rewrite Hf. simpl.
  destruct (Z.leb_spec dy 0); [lia|]. simpl. rewrite Hu. simpl.
  destruct (Z.ltb_spec (y t) (y u)).
  { exists first. split; [done|]. intros _. by exists u. }
  destruct (step_scan_spec (Z.to_nat (layoutHeight items - (y t + dy + 1) + 1)) items iid t
    (x t) (y t) (y t + dy + 1) first Hwf Ht) as (r & Hr & Hcase).
  exists r. split; [done|]. intros (k & r' & Hk & Hmk & Hl).
  destruct Hcase as [(k' & _ & _ & ?)|[-> Hno]]; [done|].
  destruct (decide (k = y t + dy)) as [->|].
  - by assert (r' = first) as -> by congruence.
  - exfalso. apply (Hno k r'); [lia|done..].
Qed.

(** Rendering drops exactly the items no widget answers for, pairs every
    other item with its own definition, and compacts what is left. *)
Theorem resolveRenderable_complete {TDef} (lookup : jstring → option TDef) items :
  NoDup (ids items) →
  item <$> resolveRenderable lookup items
    = compact (filter (λ it, is_Some (lookup (id it))) items) ∧
  Forall (λ p, lookup (id (item p)) = Some (def p)) (resolveRenderable lookup items).
Proof. apply resolveRenderable_items. Qed.

(** The row cap bounds the dragged item only: a single drag inside a layout
    that respects the cap can push a neighbour past it. *)
Example moveItem_pushes_past_cap :
  ∃ items r t,
    layout_wf items ∧ Forall (λ it, y it + h it <= DASHBOARD_MAX_ROWS) items ∧
    moveItem items "b"%js (of_Z 0) (of_Z 0) = Some r ∧
    findTarget r "a"%js = Some t ∧ y t + h t = 400.
Proof.
  exists [{| instanceId := "a"%js; id := "p"%js; x := 0; y := 0; w := 6; h := 200; params := None |};
          {| instanceId := "b"%js; id := "q"%js; x := 6; y := 0; w := 6; h := 200; params := None |}].
  eexists _, _. split.
  - split; [by apply (bool_decide_unpack _)|]. repeat constructor; done.
  - split; [repeat constructor; done|]. by repeat split; vm_compute.
Qed.

(** ** Witnesses *)

Definition demo_a : LayoutItem :=
  {| instanceId := "a"%js; id := "nodes"%js; x := 0; y := 0; w := 4; h := 2; params := None |}.
Definition demo_b : LayoutItem :=
  {| instanceId := "b"%js; id := "alerts"%js; x := 0; y := 2; w := 4; h := 3; params := None |}.
Definition demo_c : LayoutItem :=
  {| instanceId := "c"%js; id := "events"%js; x := 4; y := 0; w := 5; h := 4; params := None |}.
Definition demo : list LayoutItem := [demo_a; demo_b; demo_c].

Lemma demo_wf : layout_wf demo.
Proof.
  split; [by apply (bool_decide_unpack _)|].
  split; [|split]; repeat constructor; done.
Qed.

Lemma compact_idempotent_witness :
  Forall item_wf demo ∧ compact (compact demo) = compact demo.
Proof.
  assert (H : Forall item_wf demo) by apply demo_wf.
  split; [exact H|]. exact (compact_idempotent demo H).
Defined.

Lemma moveItem_sound_witness :
  ∃ r, moveItem demo "a"%js (Fin 3) (Fin 7) = Some r ∧ NoOverlap r.
Proof.
  destruct (moveItem_sound demo "a"%js demo_a 3 7 demo_wf eq_refl) as (r & Hr & _ & Hno & _).
  exists r. by split.
Defined.

Lemma moveItem_lands_witness :
  ∃ r t', moveItem demo "a"%js (Fin 20) (Fin 7) = Some r ∧
    findTarget r "a"%js = Some t' ∧ x t' = 8.
Proof.
  destruct (moveItem_total demo "a"%js demo_a 20 7 demo_wf eq_refl) as (r & u & Hr & _).
  destruct (moveItem_lands demo "a"%js demo_a 20 7 r demo_wf eq_refl Hr) as (t' & Ht & _ & _ & Hx & _).
  exists r, t'. by repeat split.
Defined.

Lemma moveItem_ignores_witness : moveItem demo "a"%js NaN (Fin 1) = Some demo.
Proof. apply moveItem_ignores. right. left. reflexivity. Defined.

Lemma moveItem_fixed_point_witness :
  ∃ r, moveItem demo "a"%js (Fin 0) (Fin 6) = Some r ∧
       moveItem r "a"%js (Fin 0) (Fin 6) = Some r.
Proof.
  destruct (moveItem demo "a"%js (Fin 0) (Fin 6)) as [r|] eqn:Hr; [|by vm_compute in Hr].
  exists r. split; [reflexivity|].
  destruct (moveItem_fixed_point demo "a"%js demo_a 0 6 r demo_wf eq_refl Hr) as [H|_]; [exact H|].
  vm_compute in Hr. injection Hr as <-. vm_compute. reflexivity.
Defined.

Lemma resizeItem_sound_witness :
  ∃ r t', resizeItem demo "a"%js (Fin 6) (Fin 3) {| bound_minW := 2; bound_minH := 2 |} = Some r ∧
    findTarget r "a"%js = Some t' ∧ w t' = 6.
Proof.
  destruct (resizeItem_sound demo "a"%js demo_a 6 3 {| bound_minW := 2; bound_minH := 2 |}
    demo_wf eq_refl) as (r & t' & Hr & _ & Ht & _ & Hw & _).
  exists r, t'. by repeat split.
Defined.

Lemma stepItem_progress_witness :
  ∃ r, stepItem demo "a"%js (of_Z 0) (of_Z 1) = Some r ∧ lowered "a"%js 0 r.
Proof.
  destruct (stepItem_progress demo "a"%js demo_a 1 demo_wf eq_refl eq_refl) as (r & Hr & Hl).
  exists r. split; [exact Hr|]. apply Hl. eexists 5, _. split; [by vm_compute|].
  split; [vm_compute; reflexivity|]. eexists. split; [vm_compute; reflexivity|done].
Defined.

Lemma resolveRenderable_complete_witness :
  item <$> resolveRenderable (λ i, if js_eqb i "alerts" then None else Some i) demo
    = compact [demo_a; demo_c].
Proof.
  destruct (resolveRenderable_complete (λ i, if js_eqb i "alerts" then None else Some i) demo
    (proj1 demo_wf)) as [H _].
  rewrite H. vm_compute. reflexivity.
Defined.
