(* ===== verification/Placement.v ===== *)
(** * Where a new widget lands: placement.ts

    First fit in reading order, a fresh instance id, and the parameters a
    placement carries. [Math.random().toString(36)] is the only outside input:
    the draws a page makes are an infinite sequence [draws], and a function
    that draws takes the index of the next one and returns the index after the
    last one it used. *)

From stdpp Require Import base list strings gmap sorting.
From Stdlib Require Import ZArith Lia Permutation.
From S2P Require Import Prelude JsValue Types Params Grid.

Open Scope Z_scope.

(** ** Definitions *)

Definition INSTANCE_SUFFIX_LEN : nat := 8.

Section Draws.
Variable draws : nat → jstring.

(** The [while] loop; [None] is "still short after [fuel] draws". *)
Fixpoint draw_suffix (fuel n : nat) (suffix : jstring) : option (jstring * nat) :=
  if (length (units suffix) <? INSTANCE_SUFFIX_LEN)%nat then
    match fuel with
    | O => None
    | S f => draw_suffix f (S n) (suffix +++ js_drop 2 (draws n))%js
    end
  else Some (suffix, n).
Definition randomSuffix (fuel n : nat) : option (jstring * nat) :=
  '(suffix, n') ← draw_suffix fuel n ""%js;
  Some (js_take INSTANCE_SUFFIX_LEN suffix, n').
Definition newInstanceId (fuel n : nat) (widgetId : jstring) : option (jstring * nat) :=
  '(suffix, n') ← randomSuffix fuel n;
  Some (widgetId +++ "-" +++ suffix, n')%js.

Definition candidate (cx cy cw ch : Z) : LayoutItem :=
  {| instanceId := ""%js; id := ""%js; x := cx; y := cy; w := cw; h := ch; params := None |}.
Definition fits (items : list LayoutItem) (cw ch cx cy : Z) : bool :=
  negb (existsb (overlaps (candidate cx cy cw ch)) items).
(** The two [for] loops, [n] the turns their bounds leave. *)
Fixpoint scan_columns (n : nat) (items : list LayoutItem) (cw ch cx cy : Z) : option (Z * Z) :=
  match n with
  | O => None
  | S n' => if fits items cw ch cx cy then Some (cx, cy)
            else scan_columns n' items cw ch (cx + 1) cy
  end.
Fixpoint scan_rows (n : nat) (items : list LayoutItem) (cw ch cols cy : Z) : option (Z * Z) :=
  match n with
  | O => None
  | S n' =>
      match scan_columns (Z.to_nat (cols - cw + 1)) items cw ch 0 cy with
      | Some cell => Some cell
      | None => scan_rows n' items cw ch cols (cy + 1)
      end
  end.
Definition firstFit (items : list LayoutItem) (cw ch cols : Z) : option (Z * Z) :=
  scan_rows (Z.to_nat (DASHBOARD_MAX_ROWS - ch + 1)) items cw ch cols 0.

(** [None]: [params[key]] is a member of [Object.prototype], not a string. *)
Definition narrow_step (ps : list (jstring * jstring))
    (out : option (list (jstring * jstring))) (key : jstring) : option (list (jstring * jstring)) :=
  o ← out;
  match table_get ps key with
  | Own v => Some (if js_eqb v "" then o else assign key v o)
  | Missing => Some o
  | Inherited => None
  end.
Definition narrowParams (d : WidgetDef) (ps : list (jstring * jstring))
    : option (list (jstring * jstring)) :=
  match def_params d with
  | None => Some []
  | Some declared => foldl (narrow_step ps) (Some []) (object_keys declared)
  end.

Definition placed_width (d : WidgetDef) (cols : Z) : Z :=
  Z.max 1 (Z.min (Z.max (defaultW d) (minW d)) cols).
Definition placed_height (d : WidgetDef) : Z := Z.max 1 (Z.max (defaultH d) (minH d)).

(** [Some (None, _)] is the code's [null]; [None] is outside the model: the
    draws ran out, or a declared key names a member of [Object.prototype]. *)
Definition placeNewWidget (fuel n : nat) (items : list LayoutItem) (d : WidgetDef) (cols : Z)
    (ps : list (jstring * jstring)) : option (option LayoutItem * nat) :=
  let cw := placed_width d cols in
  let ch := placed_height d in
  match firstFit items cw ch cols with
  | None => Some (None, n)
  | Some (cx, cy) =>
      carried ← narrowParams d ps;
      '(iid, n') ← newInstanceId fuel n (def_id d);
      Some (Some {| instanceId := iid; id := def_id d; x := cx; y := cy; w := cw; h := ch;
                    params := match carried with [] => None | _ => Some carried end |}, n')
  end.

(** ** The suffix *)

Lemma draw_suffix_mono fuel n s s' n' : draw_suffix fuel n s = Some (s', n') → (n ≤ n')%nat.
Proof.
  revert n s. induction fuel as [|f IH]; intros m s0; cbn [draw_suffix]; destruct (_ <? _)%nat;
    try done; [by intros [= _ <-]|intros ?%IH; lia|by intros [= _ <-]].
Qed.
Lemma draw_suffix_spec fuel n s s' n' :
  draw_suffix fuel n s = Some (s', n') →
  (INSTANCE_SUFFIX_LEN ≤ length (units s'))%nat ∧
  ∃ t, s' = (s +++ t)%js ∧
       Forall (λ c, ∃ i, (n ≤ i < n')%nat ∧ c ∈ drop 2 (units (draws i))) (units t).
Proof.
  revert n s. induction fuel as [|f IH]; intros n s; cbn [draw_suffix];
    destruct (Nat.ltb_spec (length (units s)) INSTANCE_SUFFIX_LEN) as [Hlt|Hge]; try done.
  1,3: intros [= <- <-]; split; [done|]; exists ""%js; by rewrite js_app_nil_r.
  intros H. pose proof H as Hn. apply IH in H as (Hl & t & -> & Ht). split; [done|].
  exists (js_drop 2 (draws n) +++ t)%js. split; [by rewrite js_app_assoc|].
  apply draw_suffix_mono in Hn.
  apply Forall_app. split.
  - apply Forall_forall. intros c Hc. exists n. split; [lia|done].
  - eapply Forall_impl; [done|]. intros c (i & Hi & Hc). exists i. split; [lia|done].
Qed.
Lemma draw_suffix_total fuel n s k :
  (INSTANCE_SUFFIX_LEN ≤ length (units s) + k)%nat →
  (k ≤ length (filter (λ i, 3 ≤ length (units (draws i)))%nat (seq n fuel)))%nat →
  is_Some (draw_suffix fuel n s).
Proof.
  revert n s k. induction fuel as [|f IH]; intros n s k Hk Hf; cbn [draw_suffix];
    destruct (Nat.ltb_spec (length (units s)) INSTANCE_SUFFIX_LEN) as [Hlt|Hge]; try (by eauto).
  - simpl in Hf. lia.
  - cbn [seq] in Hf. rewrite filter_cons in Hf. case_decide as Hd.
    + apply (IH _ _ (k - 1)%nat); cbn [length] in Hf; [|lia].
      simpl. rewrite length_app, length_drop. lia.
    + apply (IH _ _ k); [|done]. simpl. rewrite length_app. lia.
Qed.

(** ** First fit *)

Lemma fits_spec items cw ch cx cy :
  fits items cw ch cx cy = true ↔ Forall (disjoint_items (candidate cx cy cw ch)) items.
Proof.
  unfold fits, disjoint_items. rewrite negb_true_iff. induction items as [|i items IH]; simpl.
  - split; [constructor|done].
  - by rewrite orb_false_iff, Forall_cons, IH.
Qed.

Lemma scan_columns_Some n items cw ch cx cy cell :
  scan_columns n items cw ch cx cy = Some cell →
  ∃ k, cell = (cx + k, cy) ∧ 0 <= k < Z.of_nat n ∧ fits items cw ch (cx + k) cy = true ∧
       ∀ j, 0 <= j < k → fits items cw ch (cx + j) cy = false.
Proof.
  revert cx. induction n as [|n IH]; intros cx; cbn [scan_columns]; [done|].
  destruct (fits items cw ch cx cy) eqn:E.
  - intros [= <-]. exists 0. rewrite Z.add_0_r. split; [done|]. split; [lia|]. split; [done|]. lia.
  - intros (k & -> & Hk & Hf & Hb)%IH. exists (k + 1).
    replace (cx + (k + 1)) with (cx + 1 + k) by lia. split; [done|]. split; [lia|]. split; [done|].
    intros j Hj. destruct (decide (j = 0)) as [->|]; [by rewrite Z.add_0_r|].
    replace (cx + j) with (cx + 1 + (j - 1)) by lia. apply Hb. lia.
Qed.
Lemma scan_columns_None n items cw ch cx cy :
  scan_columns n items cw ch cx cy = None →
  ∀ j, 0 <= j < Z.of_nat n → fits items cw ch (cx + j) cy = false.
Proof.
  revert cx. induction n as [|n IH]; intros cx; cbn [scan_columns]; [lia|].
  destruct (fits items cw ch cx cy) eqn:E; [done|]. intros H j Hj. pose proof (IH _ H) as Hrest. clear H.
  destruct (decide (j = 0)) as [->|]; [by rewrite Z.add_0_r|].
  replace (cx + j) with (cx + 1 + (j - 1)) by lia. apply Hrest. lia.
Qed.

(** A cell the scan may answer with. *)
Definition free_cell (items : list LayoutItem) (cw ch cols : Z) (cell : Z * Z) : Prop :=
  0 <= cell.1 ∧ cell.1 + cw <= cols ∧ 0 <= cell.2 ∧ cell.2 + ch <= DASHBOARD_MAX_ROWS ∧
  Forall (disjoint_items (candidate cell.1 cell.2 cw ch)) items.
(** Reading order on cells. *)
Definition reads_before (c c' : Z * Z) : Prop := c.2 < c'.2 ∨ c.2 = c'.2 ∧ c.1 < c'.1.

Lemma scan_rows_spec n items cw ch cols cy :
  Z.of_nat n = Z.max 0 (DASHBOARD_MAX_ROWS - ch - cy + 1) → 0 <= cy →
  match scan_rows n items cw ch cols cy with
  | Some cell => free_cell items cw ch cols cell ∧
                 ∀ c', cy <= c'.2 → reads_before c' cell → ¬ free_cell items cw ch cols c'
  | None => ∀ c', cy <= c'.2 → ¬ free_cell items cw ch cols c'
  end.
Proof.
  revert cy. induction n as [|n IH]; intros cy Hn Hcy; cbn [scan_rows].
  { intros c' Hc (_ & _ & _ & ? & _). lia. }
  destruct (scan_columns _ _ _ _ _ _) as [cell|] eqn:E.
  - apply scan_columns_Some in E as (k & -> & Hk & Hf & Hb). apply fits_spec in Hf.
    split; [repeat split; simpl; done || lia|].
    intros [cx' cy']; unfold reads_before; simpl. intros Hy Hr (H1 & H2 & H3 & H4 & H5); simpl in *.
    destruct Hr as [Hr|[-> Hr]]; [lia|]. apply fits_spec in H5.
    specialize (Hb cx'). rewrite Z.add_0_l in Hb. rewrite Hb in H5; [done|lia].
  - assert (Hrow : ∀ cx', ¬ free_cell items cw ch cols (cx', cy)).
    { intros cx' (H1 & H2 & _ & _ & H5). simpl in *. apply fits_spec in H5.
      rewrite <- (Z.add_0_l cx'), (scan_columns_None _ _ _ _ _ _ E) in H5; [done|lia]. }
    specialize (IH (cy + 1)). destruct (scan_rows _ _ _ _ _ _) as [cell|].
    + destruct IH as [Hcell Hb]; [lia..|]. split; [done|]. intros [cx' cy'] Hy Hr.
      destruct (decide (cy' = cy)) as [->|]; [apply Hrow|]. apply Hb; [simpl in *; lia|done].
    + intros [cx' cy'] Hy. destruct (decide (cy' = cy)) as [->|]; [apply Hrow|].
      apply IH; simpl in *; lia.
Qed.
Lemma firstFit_spec items cw ch cols :
  match firstFit items cw ch cols with
  | Some cell => free_cell items cw ch cols cell ∧
                 ∀ c', reads_before c' cell → ¬ free_cell items cw ch cols c'
  | None => ∀ c', ¬ free_cell items cw ch cols c'
  end.
Proof.
  pose proof (scan_rows_spec (Z.to_nat (DASHBOARD_MAX_ROWS - ch + 1)) items cw ch cols 0) as H.
  unfold firstFit. destruct (scan_rows _ _ _ _ _ _) as [cell|].
  - destruct H as [H1 H2]; [lia..|]. split; [done|]. intros c' Hr Hf. by apply (H2 c'); [apply Hf|..].
  - intros c' Hf. by apply (H ltac:(lia) ltac:(lia) c'); [apply Hf|].
Qed.

(** ** Parameters *)

Lemma narrow_fold ps out keys r :
  NoDup (out.*1 ++ keys) → foldl (narrow_step ps) (Some out) keys = Some r →
  Forall (λ k, k ∉ OBJECT_PROTOTYPE) keys →
  ∀ k, assoc k r = if decide (k ∈ keys)
                   then match assoc k ps with
                        | Some v => if js_eqb v "" then None else Some v
                        | None => None
                        end
                   else assoc k out.
Proof.
  revert out. induction keys as [|key keys IH]; intros out Hnd Hr Hp k; cbn [foldl] in Hr.
  { injection Hr as <-. rewrite decide_False; [done|]. by intros ?%elem_of_nil. }
  apply Forall_cons in Hp as [Hkey Hp]. unfold narrow_step at 2 in Hr. cbn [mbind option_bind] in Hr.
  assert (Hout : (key ∉ out.*1) ∧ (key ∉ keys) ∧ NoDup (out.*1 ++ keys)).
  { apply NoDup_app in Hnd as (Ho & Hd & [Hk Hks]%NoDup_cons). split; [|split; [done|]].
    - intros Hin. apply (Hd key Hin). by left.
    - apply NoDup_app. split; [done|]. split; [|done]. intros a Ha ?. apply (Hd a Ha). by right. }
  destruct Hout as (Hko & Hkk & Hnd').
  assert (Hne : key ≠ "__proto__"%js).
  { intros ->. apply Hkey. by apply (bool_decide_unpack _). }
  assert (Hskip : ∀ r', foldl (narrow_step ps) (Some out) keys = Some r' →
    assoc key ps = None ∨ assoc key ps = Some ""%js → r' = r → assoc k r =
    if decide (k ∈ key :: keys) then
      match assoc k ps with Some v => if js_eqb v "" then None else Some v | None => None end
    else assoc k out).
  { intros r' Hr' Hps <-. rewrite (IH out Hnd' Hr' Hp k). destruct (decide (k = key)) as [->|Hkne].
    - rewrite decide_False by done. rewrite decide_True by left.
      apply assoc_None in Hko. rewrite Hko. by destruct Hps as [-> | ->].
    - apply decide_ext. rewrite elem_of_cons. tauto. }
  unfold table_get in Hr. destruct (assoc key ps) as [v|] eqn:Ev.
  - destruct (js_eqb v "") eqn:Eb; [apply js_eqb_eq in Eb; subst v; by eauto|].
    unfold assign in Hr. rewrite decide_False in Hr by done.
    rewrite assoc_set_fresh in Hr by done.
    assert (Hnd2 : NoDup ((out ++ [(key, v)]).*1 ++ keys))
      by (by rewrite fmap_app, <- app_assoc).
    rewrite (IH _ Hnd2 Hr Hp), <- (assoc_set_fresh key v out) by done.
    destruct (decide (k = key)) as [->|Hkne].
    + rewrite decide_False by done. rewrite decide_True by left.
      by rewrite assoc_set_eq, Ev, Eb.
    + rewrite assoc_set_ne by done. apply decide_ext. rewrite elem_of_cons. tauto.
  - rewrite decide_False in Hr by done. eauto.
Qed.
Lemma narrow_total ps out keys :
  Forall (λ k, k ∉ OBJECT_PROTOTYPE) keys → is_Some (foldl (narrow_step ps) (Some out) keys).
Proof.
  intros Hk. revert out. induction Hk as [|k keys Hk _ IH]; intros out; cbn [foldl]; [by eauto|].
  unfold narrow_step at 2, table_get. cbn [mbind option_bind].
  destruct (assoc k ps); [by eauto|]. rewrite decide_False by done. eauto.
Qed.
Lemma assoc_In_keys {V} (l : list (jstring * V)) k v : (k, v) ∈ l → k ∈ l.*1.
Proof. intros H. by apply (list_elem_of_fmap_2 fst _ (k, v)). Qed.
End Draws.

Lemma layoutHeight_spec items i : i ∈ items → y i + h i <= layoutHeight items.
Proof.
  unfold layoutHeight. assert (Hmono : ∀ l m, m <= foldl (λ m i, Z.max m (y i + h i)) m l).
  { induction l as [|j l IH]; intros m; simpl; [lia|]. etrans; [|apply IH]. lia. }
  generalize 0. induction items as [|j items IH]; intros m; [by intros ?%elem_of_nil|].
  intros [->|Hi]%elem_of_cons; simpl; [|by apply IH]. etrans; [|apply Hmono]. lia.
Qed.
Lemma layoutHeight_nonneg items : 0 <= layoutHeight items.
Proof.
  unfold layoutHeight. generalize (Z.le_refl 0). generalize 0 at 2 4. induction items as [|j l IH];
    intros m Hm; simpl; [done|]. apply IH. lia.
Qed.

(** The row past the bottom is free while it is above the cap. *)
Lemma bottom_row_free items cw ch cols :
  cw <= cols → layoutHeight items + ch <= DASHBOARD_MAX_ROWS →
  free_cell items cw ch cols (0, layoutHeight items).
Proof.
  intros Hw Hroom. pose proof (layoutHeight_nonneg items).
  repeat split; simpl; [lia..|]. apply Forall_forall. intros i Hi.
  apply disjoint_items_sym, below_disjoint, layoutHeight_spec, Hi.
Qed.

Lemma newInstanceId_inv draws fuel n wid iid n' :
  newInstanceId draws fuel n wid = Some (iid, n') →
  ∃ suffix, iid = (wid +++ "-" +++ suffix)%js ∧
    length (units suffix) = INSTANCE_SUFFIX_LEN ∧
    Forall (λ c, ∃ i, c ∈ drop 2 (units (draws i))) (units suffix).
Proof.
  unfold newInstanceId, randomSuffix.
  destruct (draw_suffix draws fuel n ""%js) as [[s m]|] eqn:E; [|done].
  cbn [mbind option_bind]. intros [= <- <-].
  apply draw_suffix_spec in E as (Hlen & t & Hs & Ht). exists (js_take INSTANCE_SUFFIX_LEN s).
  split; [done|]. split; [unfold js_take; simpl; rewrite length_take; unfold INSTANCE_SUFFIX_LEN in *; lia|].
  assert (units s = units t) as Hu by (by subst s). unfold js_take. simpl. rewrite Hu.
  apply Forall_take. eapply Forall_impl; [done|]. intros c (i & _ & Hc). by exists i.
Qed.
Lemma newInstanceId_total draws fuel n wid :
  (INSTANCE_SUFFIX_LEN ≤ length (filter (λ i, 3 ≤ length (units (draws i)))%nat (seq n fuel)))%nat →
  is_Some (newInstanceId draws fuel n wid).
Proof.
  intros H. unfold newInstanceId, randomSuffix.
  destruct (draw_suffix_total draws fuel n ""%js INSTANCE_SUFFIX_LEN) as [[s m] ->]; [done..|].
  by eauto.
Qed.

(** A widget whose parameter keys are ordinary and distinct, which is what the
    registry admits. *)
Definition declared_keys (d : WidgetDef) : list jstring := (default [] (def_params d)).*1.
Definition ordinary_params (d : WidgetDef) : Prop :=
  NoDup (declared_keys d) ∧ Forall (λ k, k ∉ OBJECT_PROTOTYPE) (declared_keys d).

Lemma narrowParams_total d ps : ordinary_params d → is_Some (narrowParams d ps).
Proof.
  unfold ordinary_params, declared_keys, narrowParams. intros [_ Hp].
  destruct (def_params d) as [declared|]; [|by eauto]. simpl in Hp.
  apply narrow_total. by rewrite object_keys_perm.
Qed.
Lemma narrowParams_lookup d ps r k :
  ordinary_params d → narrowParams d ps = Some r →
  assoc k r = if decide (k ∈ declared_keys d)
              then match assoc k ps with
                   | Some v => if js_eqb v "" then None else Some v
                   | None => None
                   end
              else None.
Proof.
  unfold ordinary_params, declared_keys, narrowParams. intros [Hnd Hp].
  destruct (def_params d) as [declared|]; cbn [default from_option] in *.
  - intros Hr. rewrite (narrow_fold ps [] (object_keys declared) r).
    + apply decide_ext. by rewrite object_keys_perm.
    + simpl. by rewrite object_keys_perm.
    + done.
    + by rewrite object_keys_perm.
  - intros [= <-]. rewrite decide_False; [done|]. by intros ?%elem_of_nil.
Qed.

Lemma narrowParams_NoDup d ps r : narrowParams d ps = Some r → NoDup r.*1.
Proof.
  unfold narrowParams. destruct (def_params d) as [declared|]; [|intros [= <-]; constructor].
  assert (H : ∀ keys out, (∀ o, out = Some o → NoDup o.*1) →
    foldl (narrow_step ps) out keys = Some r → NoDup r.*1).
  2:{ apply H. intros o [= <-]. constructor. }
  induction keys as [|k keys IH]; intros out Ho; cbn [foldl]; [by apply Ho|]. apply IH.
  intros o. unfold narrow_step. destruct out as [o'|]; [|done]. cbn [mbind option_bind].
  specialize (Ho o' eq_refl). destruct (table_get ps k); try done; intros [= <-]; [|done].
  destruct (js_eqb v ""); [done|]. unfold assign. case_decide; [done|]. by apply assoc_set_keys_NoDup.
Qed.
Lemma placeNewWidget_inv draws fuel n items d cols ps it n' :
  placeNewWidget draws fuel n items d cols ps = Some (Some it, n') →
  firstFit items (placed_width d cols) (placed_height d) cols = Some (x it, y it) ∧
  w it = placed_width d cols ∧ h it = placed_height d ∧ id it = def_id d ∧
  narrowParams d ps = Some (default [] (params it)) ∧
  newInstanceId draws fuel n (def_id d) = Some (instanceId it, n').
Proof.
  unfold placeNewWidget. destruct (firstFit _ _ _ _) as [[cx cy]|] eqn:Ef; [|done].
  destruct (narrowParams d ps) as [carried|]; [|done]. cbn [mbind option_bind].
  destruct (newInstanceId _ _ _ _) as [[iid m]|] eqn:Ei; [|done]. intros [= <- <-]. simpl.
  repeat split; try done. by destruct carried.
Qed.

Lemma placeNewWidget_fits draws fuel n items d cols ps it n' :
  1 <= cols → NoOverlap items →
  placeNewWidget draws fuel n items d cols ps = Some (Some it, n') →
  NoOverlap (items ++ [it]) ∧
  0 <= x it ∧ x it + w it <= cols ∧ 0 <= y it ∧ y it + h it <= DASHBOARD_MAX_ROWS ∧
  1 <= w it ∧ 1 <= h it ∧ minH d <= h it ∧ (minW d <= cols → minW d <= w it).
Proof.
  intros Hc Hno (Hf & Hw & Hh & _)%placeNewWidget_inv.
  pose proof (firstFit_spec items (placed_width d cols) (placed_height d) cols) as Hs.
  rewrite Hf, <- Hw, <- Hh in Hs. destruct Hs as [(H1 & H2 & H3 & H4 & H5) _]. simpl in *.
  assert (1 <= w it ∧ 1 <= h it ∧ minH d <= h it ∧ (minW d <= cols → minW d <= w it)) as Hsize.
  { rewrite Hw, Hh. unfold placed_width, placed_height. lia. }
  split; [|tauto]. apply NoOverlap_snoc. by split.
Qed.

(** A widget added from the palette can be saved: it overlaps nothing, it
    stays inside the layout's own columns and under the row cap, it respects
    the widget's minimum size, and nothing already placed moves. *)
Theorem placeNewWidget_sound draws fuel n items d cols ps it n' :
  1 <= cols → NoOverlap items →
  placeNewWidget draws fuel n items d cols ps = Some (Some it, n') →
  NoOverlap (items ++ [it]) ∧
  0 <= x it ∧ x it + w it <= cols ∧ 0 <= y it ∧ y it + h it <= DASHBOARD_MAX_ROWS ∧
  1 <= w it ∧ 1 <= h it ∧ minH d <= h it ∧ (minW d <= cols → minW d <= w it).
Proof. apply placeNewWidget_fits. Qed.

(** C22. The palette answers [null] only when there is no room: with enough
    random draws the call returns, the widget is placed exactly when some cell
    under the cap is free, its cell is the first such cell in reading order,
    and a layout that ends high enough always has one. *)
Theorem placeNewWidget_complete draws fuel n items d cols ps :
  1 <= cols → ordinary_params d →
  (INSTANCE_SUFFIX_LEN ≤ length (filter (λ i, 3 ≤ length (units (draws i)))%nat (seq n fuel)))%nat →
  ∃ r n', placeNewWidget draws fuel n items d cols ps = Some (r, n') ∧
  let free := free_cell items (placed_width d cols) (placed_height d) cols in
  (r = None ↔ ∀ cell, ¬ free cell) ∧
  (∀ it, r = Some it → free (x it, y it) ∧ ∀ cell, reads_before cell (x it, y it) → ¬ free cell) ∧
  (layoutHeight items + placed_height d <= DASHBOARD_MAX_ROWS → r ≠ None).
Proof.
  intros Hc Hord Hdraws.
  destruct (narrowParams_total d ps Hord) as [carried Hcar].
  destruct (newInstanceId_total draws fuel n (def_id d) Hdraws) as [[iid m] Hiid].
  pose proof (firstFit_spec items (placed_width d cols) (placed_height d) cols) as Hs.
  pose proof (bottom_row_free items (placed_width d cols) (placed_height d) cols) as Hb.
  unfold placeNewWidget. destruct (firstFit _ _ _ _) as [[cx cy]|].
  - rewrite Hcar. cbn [mbind option_bind]. rewrite Hiid.
    do 2 eexists. split; [done|]. split; [|split]; [|by intros it [= <-]|done].
    split; [done|]. intros Hn. by destruct (Hn (cx, cy)), Hs.
  - exists None, n. split; [done|]. split; [done|]. split; [done|].
    intros Hroom. edestruct Hs. apply Hb; [unfold placed_width; lia|done].
Qed.

(** A placement carries exactly the declared parameters that have a value:
    an undeclared key and a blank value never reach the stored layout. *)
Theorem placeNewWidget_params draws fuel n items d cols ps it n' k v :
  ordinary_params d →
  placeNewWidget draws fuel n items d cols ps = Some (Some it, n') →
  assoc k (default [] (params it)) = Some v ↔
  k ∈ declared_keys d ∧ assoc k ps = Some v ∧ v ≠ ""%js.
Proof.
  intros Hord (_ & _ & _ & _ & Hn & _)%placeNewWidget_inv.
  rewrite (narrowParams_lookup d ps _ k Hord Hn). case_decide as Hk; [|split; [done|tauto]].
  destruct (assoc k ps) as [v'|]; [|split; [done|by intros (_ & ? & _)]].
  destruct (js_eqb v' "") eqn:E.
  - apply js_eqb_eq in E. subst v'. split; [done|]. by intros (_ & [= <-] & ?).
  - assert (v' ≠ ""%js) by (intros ->; done). split; [by intros [= <-]|by intros (_ & [= <-] & _)].
Qed.

(** Whatever the draws are, an instance id is the widget id, a dash and
    exactly eight characters; with base-36 draws those are lowercase
    alphanumerics, so the id never ends in a dash. *)
Theorem newInstanceId_shape draws fuel n wid iid n' :
  (∀ i, Forall (λ c, is_alnum c = true) (drop 2 (units (draws i)))) →
  newInstanceId draws fuel n wid = Some (iid, n') →
  ∃ suffix, iid = (wid +++ "-" +++ suffix)%js ∧ length (units suffix) = INSTANCE_SUFFIX_LEN ∧
            Forall (λ c, is_alnum c = true) (units suffix).
Proof.
  intros Hd (suffix & -> & Hlen & Hall)%newInstanceId_inv. exists suffix.
  split; [done|]. split; [done|]. eapply Forall_impl; [done|]. intros c (i & Hc).
  specialize (Hd i). rewrite Forall_forall in Hd. by apply Hd.
Qed.

(** ** Witnesses *)

(** A page whose draws alternate between a degenerate and an ordinary one. *)
Definition demo_draws (i : nat) : jstring :=
  if Nat.even i then "0"%js else "0.k3x9"%js.
Definition demo_def : WidgetDef :=
  {| def_id := "golden-signals"%js; scopes := [overview]; sources := ["mesh-golden-signals"%js];
     optionalSources := None; familyStatus := None; adminOnly := false;
     minW := 3; minH := 4; defaultW := 4; defaultH := 4;
     def_params := Some [(PARAM_KEY_NAMESPACE, []); (PARAM_KEY_SERVICE, [])]; modes := [] |}.
Definition demo_placed : LayoutItem :=
  {| instanceId := "golden-signals-k3x9k3x9"%js; id := "golden-signals"%js;
     x := 4; y := 4; w := 4; h := 4;
     params := Some [("namespace"%js, "prod"%js); ("service"%js, "api:8080"%js)] |}.
Lemma demo_ordinary : ordinary_params demo_def.
Proof. split; by apply (bool_decide_unpack _). Qed.
Example demo_place :
  placeNewWidget demo_draws 20 0 demo demo_def 12 cluster_reads = Some (Some demo_placed, 4%nat).
Proof. vm_compute. reflexivity. Qed.
Lemma demo_no_overlap : NoOverlap demo.
Proof. repeat constructor. Qed.
Lemma placeNewWidget_sound_witness : NoOverlap (demo ++ [demo_placed]).
Proof.
  refine (proj1 (placeNewWidget_sound demo_draws 20 0 demo demo_def 12 cluster_reads
    demo_placed 4 _ demo_no_overlap demo_place)). lia.
Defined.
Lemma placeNewWidget_complete_witness :
  ∃ r n', placeNewWidget demo_draws 20 0 demo demo_def 12 cluster_reads = Some (r, n') ∧ r ≠ None.
Proof.
  destruct (placeNewWidget_complete demo_draws 20 0 demo demo_def 12 cluster_reads)
    as (r & n' & Hr & _ & _ & Hroom).
  - lia.
  - exact demo_ordinary.
  - vm_compute. lia.
  - exists r, n'. split; [done|]. apply Hroom. vm_compute. discriminate.
Defined.
Lemma placeNewWidget_params_witness :
  assoc "theme"%js (default [] (params demo_placed)) ≠ Some "dark"%js.
Proof.
  intros H. apply (placeNewWidget_params demo_draws 20 0 demo demo_def 12 cluster_reads
    demo_placed 4 _ _ demo_ordinary demo_place) in H as [H _].
  revert H. by apply (bool_decide_unpack _).
Defined.
Lemma newInstanceId_shape_witness :
  ∃ suffix, "nodes-k3x9k3x9"%js = ("nodes" +++ "-" +++ suffix)%js ∧
            length (units suffix) = INSTANCE_SUFFIX_LEN ∧
            Forall (λ c, is_alnum c = true) (units suffix).
Proof.
  apply (newInstanceId_shape demo_draws 20 0 "nodes"%js "nodes-k3x9k3x9"%js 4).
  - intros i. unfold demo_draws. destruct (Nat.even i); repeat constructor.
  - vm_compute. reflexivity.
Defined.
