(* ===== verification/EditSession.v ===== *)
(** * The editor's session: edit-session.ts, default-layout.ts

    What the module promises is about aliasing: Cancel restores the layout as
    loaded because no object reachable from [baseline] is reachable from
    anywhere else. So the objects live in a heap here. A layout is a
    configuration object, its [items] array, the item objects and their
    [params] objects; the functions allocate the way the spreads and [map]s of
    the source do. The rest of the page is a set of objects it holds: it may
    overwrite any of them with anything. It starts with all there was before the
    session, the layout [beginEdit] is given included, and comes to hold what
    [discard] and [commit] return, what it allocates, and, where the working copy
    is rendered, every object of that copy. That none of these is an object of
    the baseline is what the clones are for, and is proved. *)

From stdpp Require Import base list strings gmap sorting.
From Stdlib Require Import ZArith NArith Lia Permutation.
From S2P Require Import Prelude JsValue JsonText Types Params Grid.

(** ** The heap *)

Inductive obj :=
  | OConfig (schemaVersion : Z) (scope : jstring) (columns : Z) (items : N)
  | OArray (elems : list N)
  | OItem (instanceId id : jstring) (x y w h : Z) (params : option N)
  | OParams (entries : list (jstring * jstring)).
Record Heap := { cells : gmap N obj; next : N }.

(** State passing with failure: [None] is a read of a value that is not the
    object the type says. *)
Definition M (A : Type) : Type := Heap → option (A * Heap).
Definition ret {A} (a : A) : M A := λ hp, Some (a, hp).
Definition bind {A B} (m : M A) (f : A → M B) : M B :=
  λ hp, match m hp with Some (a, hp') => f a hp' | None => None end.
Notation "'let!' a := m 'in' k" := (bind m (λ a, k))
  (at level 10, a pattern, m at level 100, k at level 200, only parsing).
Definition get (l : N) : M obj := λ hp, o ← cells hp !! l; Some (o, hp).
Definition alloc (o : obj) : M N :=
  λ hp, Some (next hp, {| cells := <[next hp := o]> (cells hp); next := N.succ (next hp) |}).
Fixpoint map_M {A B} (f : A → M B) (l : list A) : M (list B) :=
  match l with
  | [] => ret []
  | a :: l' => let! b := f a in let! bs := map_M f l' in ret (b :: bs)
  end.
Definition fail {A} : M A := λ _, None.

(** ** Definitions *)

Record EditSession := { baseline : N; working : N; revision : Z }.

Definition cloneItem (item : N) : M N :=
  let! o := get item in
  match o with
  | OItem iid wid ix iy iw ih None => alloc (OItem iid wid ix iy iw ih None)
  | OItem iid wid ix iy iw ih (Some p) =>
      let! po := get p in
      match po with
      | OParams e => let! p' := alloc (OParams e) in alloc (OItem iid wid ix iy iw ih (Some p'))
      | _ => fail
      end
  | _ => fail
  end.
(** [items.map(cloneItem)] *)
Definition cloneItems (items : N) : M N :=
  let! a := get items in
  match a with
  | OArray elems => let! elems' := map_M cloneItem elems in alloc (OArray elems')
  | _ => fail
  end.
Definition cloneConfig (config : N) : M N :=
  let! o := get config in
  match o with
  | OConfig sv sc cols items => let! items' := cloneItems items in alloc (OConfig sv sc cols items')
  | _ => fail
  end.

Definition beginEdit (config : N) (rev : Z) : M EditSession :=
  let! b := cloneConfig config in
  let! wk := cloneConfig config in
  ret {| baseline := b; working := wk; revision := rev |}.

Definition applyChange (session : EditSession) (items : N) : M EditSession :=
  let! o := get (baseline session) in
  match o with
  | OConfig sv sc cols _ =>
      let! items' := cloneItems items in
      let! wk := alloc (OConfig sv sc cols items') in
      ret {| baseline := baseline session; working := wk; revision := revision session |}
  | _ => fail
  end.

Definition discard (session : EditSession) : M N := cloneConfig (baseline session).
Definition commit (session : EditSession) : M (N * Z) :=
  let! c := cloneConfig (working session) in ret (c, revision session).

(** What an object graph says, and the objects it is made of. *)
Definition read_params (hp : Heap) (l : option N) : option (option (list (jstring * jstring)) * list N) :=
  match l with
  | None => Some (None, [])
  | Some p => match cells hp !! p with Some (OParams e) => Some (Some e, [p]) | _ => None end
  end.
Definition read_item (hp : Heap) (l : N) : option (LayoutItem * list N) :=
  match cells hp !! l with
  | Some (OItem iid wid ix iy iw ih pl) =>
      '(ps, fp) ← read_params hp pl;
      Some ({| Types.instanceId := iid; Types.id := wid; Types.x := ix; Types.y := iy;
               Types.w := iw; Types.h := ih; Types.params := ps |}, l :: fp)
  | _ => None
  end.
Fixpoint read_elems (hp : Heap) (elems : list N) : option (list LayoutItem * list N) :=
  match elems with
  | [] => Some ([], [])
  | l :: elems' =>
      '(it, fp) ← read_item hp l;
      '(its, fps) ← read_elems hp elems';
      Some (it :: its, fp ++ fps)
  end.
Definition read_items (hp : Heap) (l : N) : option (list LayoutItem * list N) :=
  match cells hp !! l with
  | Some (OArray elems) => '(its, fp) ← read_elems hp elems; Some (its, l :: fp)
  | _ => None
  end.
Definition read_config (hp : Heap) (l : N) : option (DashboardLayoutConfig * list N) :=
  match cells hp !! l with
  | Some (OConfig sv sc cols items) =>
      '(its, fp) ← read_items hp items;
      Some ({| Types.schemaVersion := sv; Types.scope := sc; Types.columns := cols;
               Types.config_items := its |}, l :: fp)
  | _ => None
  end.

(** [String.prototype.localeCompare] depends on the host's locale data. *)
Section Dirty.
Variable localeCompare : jstring → jstring → comparison.

(** One row of the array that is stringified. *)
Record Row := {
  r_instanceId : jstring; r_id : jstring; r_x : Z; r_y : Z; r_w : Z; r_h : Z;
  r_params : list (jstring * jstring)
}.
Definition item_row (i : LayoutItem) : Row :=
  {| r_instanceId := Types.instanceId i; r_id := Types.id i; r_x := Types.x i; r_y := Types.y i;
     r_w := Types.w i; r_h := Types.h i; r_params := sorted_params (default [] (Types.params i)) |}.
Definition json_pair (kv : jstring * jstring) : list N :=
  json_array [json_string kv.1; json_string kv.2].
Definition json_row (r : Row) : list N :=
  json_array [json_string (r_instanceId r); json_string (r_id r);
              json_int (r_x r); json_int (r_y r); json_int (r_w r); json_int (r_h r);
              json_array (json_pair <$> r_params r)].
Definition row_order (a b : Row) : comparison := localeCompare (r_instanceId a) (r_instanceId b).
Definition canonicalItems (items : list LayoutItem) : jstring :=
  JS (json_array (json_row <$> js_sort row_order (item_row <$> items))).
Definition isDirty (session : EditSession) : M bool := λ hp,
  '(wk, _) ← read_config hp (working session);
  '(b, _) ← read_config hp (baseline session);
  Some (negb (js_eqb (canonicalItems (config_items wk)) (canonicalItems (config_items b))), hp).
End Dirty.

Definition default_item (iid wid : jstring) (ix iy iw ih : Z) : LayoutItem :=
  {| Types.instanceId := iid; Types.id := wid; Types.x := ix; Types.y := iy;
     Types.w := iw; Types.h := ih; Types.params := None |}.
Definition DEFAULT_OVERVIEW_LAYOUT : DashboardLayoutConfig :=
  {| Types.schemaVersion := DASHBOARD_LAYOUT_SCHEMA_VERSION;
     Types.scope := scope_text overview;
     Types.columns := DASHBOARD_COLUMNS;
     Types.config_items :=
       [default_item "d-cluster-health"%js "cluster-health"%js 0 0 6 6;
        default_item "d-cpu-tile"%js "cpu-tile"%js 6 0 3 3;
        default_item "d-memory-tile"%js "memory-tile"%js 9 0 3 3;
        default_item "d-pods-tile"%js "pods-tile"%js 6 3 3 3;
        default_item "d-network-tile"%js "network-tile"%js 9 3 3 3;
        default_item "d-resource-utilization"%js "resource-utilization"%js 0 6 7 4;
        default_item "d-pod-status"%js "pod-status"%js 7 6 5 4;
        default_item "d-nodes"%js "nodes"%js 0 10 4 5;
        default_item "d-recent-events"%js "recent-events"%js 4 10 5 10;
        default_item "d-active-alerts"%js "active-alerts"%js 9 10 3 5] |}%Z.

(** ** Reading and cloning *)

Definition heap_wf (hp : Heap) : Prop := ∀ l, (next hp ≤ l)%N → cells hp !! l = None.
(** Nothing that existed before changed. *)
Definition extends (hp hp' : Heap) : Prop :=
  (next hp ≤ next hp')%N ∧ ∀ l, (l < next hp)%N → cells hp' !! l = cells hp !! l.
Definition agree (fp : list N) (hp hp' : Heap) : Prop :=
  ∀ l, l ∈ fp → cells hp' !! l = cells hp !! l.
Definition fresh_in (hp hp' : Heap) (fp : list N) : Prop :=
  Forall (λ l, next hp ≤ l < next hp')%N fp.

#[export] Instance extends_preorder : PreOrder extends.
Proof.
  split; [by intros hp; split|]. intros a b c [H1 H2] [H3 H4]. split; [lia|].
  intros l Hl. rewrite H4, H2 by lia. done.
Qed.
Lemma agree_app fp fp' hp hp' : agree (fp ++ fp') hp hp' → agree fp hp hp' ∧ agree fp' hp hp'.
Proof. intros H. split; intros l Hl; apply H, elem_of_app; auto. Qed.
Lemma agree_cons l fp hp hp' :
  agree (l :: fp) hp hp' → cells hp' !! l = cells hp !! l ∧ agree fp hp hp'.
Proof. intros H. split; [apply H; by left|]. intros k Hk. apply H. by right. Qed.

Lemma read_params_local hp hp' l r :
  read_params hp l = Some r → agree r.2 hp hp' → read_params hp' l = Some r.
Proof.
  unfold read_params. destruct l as [p|]; [|done].
  destruct (cells hp !! p) as [[]|] eqn:E; try done. intros [= <-] H%agree_cons.
  by rewrite (proj1 H), E.
Qed.
Lemma read_item_local hp hp' l r :
  read_item hp l = Some r → agree r.2 hp hp' → read_item hp' l = Some r.
Proof.
  unfold read_item. destruct (cells hp !! l) as [[]|] eqn:E; try done.
  destruct (read_params hp params) as [[ps fp]|] eqn:Ep; [|done]. cbn [mbind option_bind].
  intros [= <-] [H1 H2]%agree_cons. rewrite H1, E, (read_params_local _ _ _ _ Ep H2). done.
Qed.
Lemma read_elems_local hp hp' elems r :
  read_elems hp elems = Some r → agree r.2 hp hp' → read_elems hp' elems = Some r.
Proof.
  revert r. induction elems as [|l elems IH]; intros r; cbn [read_elems]; [done|].
  destruct (read_item hp l) as [[it fp]|] eqn:Ei; [|done]. cbn [mbind option_bind].
  destruct (read_elems hp elems) as [[its fps]|] eqn:Ee; [|done]. cbn [mbind option_bind].
  intros [= <-] [H1 H2]%agree_app. rewrite (read_item_local _ _ _ _ Ei H1). cbn [mbind option_bind].
  by rewrite (IH _ eq_refl H2).
Qed.
Lemma read_items_local hp hp' l r :
  read_items hp l = Some r → agree r.2 hp hp' → read_items hp' l = Some r.
Proof.
  unfold read_items. destruct (cells hp !! l) as [[]|] eqn:E; try done.
  destruct (read_elems hp elems) as [[its fp]|] eqn:Ee; [|done]. cbn [mbind option_bind].
  intros [= <-] [H1 H2]%agree_cons. by rewrite H1, E, (read_elems_local _ _ _ _ Ee H2).
Qed.
Lemma read_config_local hp hp' l r :
  read_config hp l = Some r → agree r.2 hp hp' → read_config hp' l = Some r.
Proof.
  unfold read_config. destruct (cells hp !! l) as [[]|] eqn:E; try done.
  destruct (read_items hp items) as [[its fp]|] eqn:Ei; [|done]. cbn [mbind option_bind].
  intros [= <-] [H1 H2]%agree_cons. by rewrite H1, E, (read_items_local _ _ _ _ Ei H2).
Qed.

Lemma extends_agree hp hp' fp : extends hp hp' → Forall (λ l, l < next hp)%N fp → agree fp hp hp'.
Proof. intros [_ H] Hfp l Hl. rewrite Forall_forall in Hfp. by apply H, Hfp. Qed.
Lemma fresh_in_grow hp hp' hp'' fp :
  extends hp' hp'' → fresh_in hp hp' fp → fresh_in hp hp'' fp.
Proof. intros [H _] Hf. eapply Forall_impl; [done|]. simpl. intros. lia. Qed.
Lemma fresh_in_later hp hp' hp'' fp :
  extends hp hp' → fresh_in hp' hp'' fp → fresh_in hp hp'' fp.
Proof. intros [H _] Hf. eapply Forall_impl; [done|]. simpl. intros. lia. Qed.
Lemma fresh_in_agree hp hp' hp'' fp :
  extends hp' hp'' → fresh_in hp hp' fp → agree fp hp' hp''.
Proof.
  intros He Hf. apply extends_agree; [done|]. eapply Forall_impl; [done|]. simpl. intros. lia.
Qed.
Lemma fresh_in_app hp hp' f1 f2 :
  fresh_in hp hp' f1 → fresh_in hp hp' f2 → fresh_in hp hp' (f1 ++ f2).
Proof. intros. by apply Forall_app. Qed.
#[export] Hint Resolve fresh_in_grow fresh_in_later fresh_in_app : dash.

Lemma alloc_spec hp o :
  heap_wf hp → ∃ hp', alloc o hp = Some (next hp, hp') ∧ heap_wf hp' ∧ extends hp hp' ∧
    cells hp' !! next hp = Some o ∧ next hp' = N.succ (next hp).
Proof.
  intros Hwf. eexists. split; [done|]. split; [|split; [split|split]]; simpl.
  - intros l Hl. simpl in *. rewrite lookup_insert_ne by lia. apply Hwf. lia.
  - lia.
  - intros l Hl. rewrite lookup_insert_ne by lia. done.
  - by rewrite lookup_insert_eq.
  - done.
Qed.

(** [r] is a run that ends in a deep copy of [v]: same value, every object of
    it new, nothing old touched. *)
Definition copies {A} (read : Heap → N → option (A * list N)) (v : A) (hp : Heap)
    (r : option (N * Heap)) : Prop :=
  ∃ l' hp' fp', r = Some (l', hp') ∧ read hp' l' = Some (v, fp') ∧
    heap_wf hp' ∧ extends hp hp' ∧ fresh_in hp hp' fp'.

(** The objects of a graph that can be read exist. *)
Lemma wf_lookup_lt hp l o : heap_wf hp → cells hp !! l = Some o → (l < next hp)%N.
Proof. intros Hwf Hl. destruct (N.le_gt_cases (next hp) l) as [H|]; [|done]. by rewrite Hwf in Hl. Qed.
Lemma read_item_old hp l v fp :
  heap_wf hp → read_item hp l = Some (v, fp) → Forall (λ a, a < next hp)%N fp.
Proof.
  intros Hwf. unfold read_item, read_params. destruct (cells hp !! l) as [[]|] eqn:E; try done.
  apply wf_lookup_lt in E; [|done]. destruct params as [p|]; cbn [mbind option_bind].
  - destruct (cells hp !! p) as [[]|] eqn:Ep; try done. apply wf_lookup_lt in Ep; [|done].
    intros [= _ <-]. by repeat constructor.
  - intros [= _ <-]. by repeat constructor.
Qed.
Lemma read_elems_old hp elems v fp :
  heap_wf hp → read_elems hp elems = Some (v, fp) → Forall (λ a, a < next hp)%N fp.
Proof.
  intros Hwf. revert v fp. induction elems as [|l elems IH]; intros v fp; cbn [read_elems].
  { intros [= _ <-]. constructor. }
  destruct (read_item hp l) as [[it f]|] eqn:Ei; [|done]. cbn [mbind option_bind].
  destruct (read_elems hp elems) as [[its fs]|]; [|done]. intros [= _ <-].
  apply Forall_app. split; [by eapply read_item_old|by eapply IH].
Qed.
Lemma read_items_old hp l v fp :
  heap_wf hp → read_items hp l = Some (v, fp) → Forall (λ a, a < next hp)%N fp.
Proof.
  intros Hwf. unfold read_items. destruct (cells hp !! l) as [[]|] eqn:E; try done.
  apply wf_lookup_lt in E; [|done]. destruct (read_elems hp elems) as [[its f]|] eqn:Ee; [|done].
  intros [= _ <-]. constructor; [done|]. by eapply read_elems_old.
Qed.
Lemma read_config_old hp l v fp :
  heap_wf hp → read_config hp l = Some (v, fp) → Forall (λ a, a < next hp)%N fp.
Proof.
  intros Hwf. unfold read_config. destruct (cells hp !! l) as [[]|] eqn:E; try done.
  apply wf_lookup_lt in E; [|done]. destruct (read_items hp items) as [[its f]|] eqn:Ei; [|done].
  intros [= _ <-]. constructor; [done|]. by eapply read_items_old.
Qed.

Lemma cloneItem_copies hp l v fp :
  heap_wf hp → read_item hp l = Some (v, fp) → copies read_item v hp (cloneItem l hp).
Proof.
  intros Hwf Hr. unfold read_item in Hr. unfold cloneItem, bind, get.
  destruct (cells hp !! l) as [[]|] eqn:E; try done. cbn [mbind option_bind].
  unfold read_params in Hr. destruct params as [p|]; cbn [mbind option_bind] in Hr.
  - destruct (cells hp !! p) as [[]|] eqn:Ep; try done. cbn [mbind option_bind].
    injection Hr as <- <-.
    destruct (alloc_spec hp (OParams entries) Hwf) as (h1 & -> & Hwf1 & He1 & Hl1 & Hn1).
    cbn beta iota.
    destruct (alloc_spec h1 (OItem instanceId id x y w h (Some (next hp))) Hwf1)
      as (h2 & -> & Hwf2 & He2 & Hl2 & Hn2).
    exists (next h1), h2, [next h1; next hp]. split; [done|].
    split; [|split; [done|split; [by etrans|]]].
    + unfold read_item. rewrite Hl2. unfold read_params.
      rewrite (proj2 He2) by lia. by rewrite Hl1.
    + repeat constructor; lia.
  - injection Hr as <- <-.
    destruct (alloc_spec hp (OItem instanceId id x y w h None) Hwf) as (h1 & -> & Hwf1 & He1 & Hl1 & Hn1).
    exists (next hp), h1, [next hp]. split; [done|]. split; [|split; [done|split; [done|]]].
    + unfold read_item. by rewrite Hl1.
    + repeat constructor; lia.
Qed.
Lemma map_cloneItem_copies hp elems v fp :
  heap_wf hp → read_elems hp elems = Some (v, fp) →
  ∃ elems' hp' fp', map_M cloneItem elems hp = Some (elems', hp') ∧
    read_elems hp' elems' = Some (v, fp') ∧ heap_wf hp' ∧ extends hp hp' ∧ fresh_in hp hp' fp'.
Proof.
  revert hp v fp. induction elems as [|l elems IH]; intros hp v fp Hwf; cbn [read_elems map_M].
  { intros [= <- <-]. exists [], hp, []. repeat split; try done. constructor. }
  destruct (read_item hp l) as [[it f]|] eqn:Ei; [|done]. cbn [mbind option_bind].
  destruct (read_elems hp elems) as [[its fs]|] eqn:Ee; [|done]. intros [= <- <-].
  unfold bind at 1. destruct (cloneItem_copies hp l it f Hwf Ei) as (l' & h1 & f1 & -> & Hr1 & Hwf1 & He1 & Hf1).
  cbn beta iota.
  unfold bind at 1. destruct (IH h1 its fs Hwf1) as (es & h2 & f2 & -> & Hr2 & Hwf2 & He2 & Hf2).
  all: cbn beta iota.
  { eapply read_elems_local; [done|]. apply extends_agree; [done|]. by eapply read_elems_old. }
  exists (l' :: es), h2, (f1 ++ f2). split; [done|]. split; [|split; [done|split; [by etrans|]]].
  - cbn [read_elems]. rewrite (read_item_local h1 h2 l' (it, f1) Hr1) by (by eapply fresh_in_agree).
    cbn [mbind option_bind]. by rewrite Hr2.
  - eauto with dash.
Qed.
Lemma cloneItems_copies hp l v fp :
  heap_wf hp → read_items hp l = Some (v, fp) → copies read_items v hp (cloneItems l hp).
Proof.
  intros Hwf. unfold read_items at 1, cloneItems, bind at 1, get.
  destruct (cells hp !! l) as [[]|] eqn:E; try done. cbn [mbind option_bind].
  destruct (read_elems hp elems) as [[its f]|] eqn:Ee; [|done]. intros [= <- <-]. unfold bind.
  destruct (map_cloneItem_copies hp elems its f Hwf Ee) as (es & h1 & f1 & -> & Hr1 & Hwf1 & He1 & Hf1).
  cbn beta iota.
  destruct (alloc_spec h1 (OArray es) Hwf1) as (h2 & -> & Hwf2 & He2 & Hl2 & Hn2).
  exists (next h1), h2, (next h1 :: f1). split; [done|]. split; [|split; [done|split; [by etrans|]]].
  - unfold read_items. rewrite Hl2. by rewrite (read_elems_local h1 h2 es _ Hr1) by (by eapply fresh_in_agree).
  - destruct He1. constructor; [lia|]. by eapply fresh_in_grow.
Qed.
Lemma cloneConfig_copies hp l v fp :
  heap_wf hp → read_config hp l = Some (v, fp) → copies read_config v hp (cloneConfig l hp).
Proof.
  intros Hwf. unfold read_config at 1, cloneConfig, bind at 1, get.
  destruct (cells hp !! l) as [[]|] eqn:E; try done. cbn [mbind option_bind].
  destruct (read_items hp items) as [[its f]|] eqn:Ei; [|done]. intros [= <- <-]. unfold bind.
  destruct (cloneItems_copies hp items its f Hwf Ei) as (a & h1 & f1 & -> & Hr1 & Hwf1 & He1 & Hf1).
  cbn beta iota.
  destruct (alloc_spec h1 (OConfig schemaVersion scope columns a) Hwf1) as (h2 & -> & Hwf2 & He2 & Hl2 & Hn2).
  exists (next h1), h2, (next h1 :: f1). split; [done|]. split; [|split; [done|split; [by etrans|]]].
  - unfold read_config. rewrite Hl2. by rewrite (read_items_local h1 h2 a _ Hr1) by (by eapply fresh_in_agree).
  - destruct He1. constructor; [lia|]. by eapply fresh_in_grow.
Qed.

(** ** Runs of the editor *)

(** The objects a session is made of. *)
Definition session_objects (hp : Heap) (s : EditSession) : list N :=
  match read_config hp (baseline s), read_config hp (working s) with
  | Some (_, f), Some (_, g) => f ++ g
  | _, _ => []
  end.
Definition with_items (c : DashboardLayoutConfig) (its : list LayoutItem) : DashboardLayoutConfig :=
  {| Types.schemaVersion := Types.schemaVersion c; Types.scope := Types.scope c;
     Types.columns := Types.columns c; Types.config_items := its |}.

(** The objects of a layout. *)
Definition objects (hp : Heap) (l : N) : list N := match read_config hp l with Some (_, fp) => fp | None => [] end.

(** A page with an open session: the heap, the session, the arrangement last
    applied and the objects the rest of the page holds. *)
Record EditPage := { heap : Heap; open : EditSession; applied : list LayoutItem; held : gset N }.
(** One step of an edit. [rendered] says whether the page holds the working copy,
    as the editor that draws it does. *)
Inductive edit_step (rendered : bool) : EditPage → EditPage → Prop :=
  | do_apply p items v fp s' hp' K :
      read_items (heap p) items = Some (v, fp) → applyChange (open p) items (heap p) = Some (s', hp') →
      (∀ l, l ∈ K → l ∈ held p ∨ rendered = true ∧ l ∈ objects hp' (working s')) →
      edit_step rendered p {| heap := hp'; open := s'; applied := v; held := K |}
  | do_discard p l' hp' K :
      discard (open p) (heap p) = Some (l', hp') → (∀ l, l ∈ K → l ∈ held p ∨ l ∈ objects hp' l') →
      edit_step rendered p {| heap := hp'; open := open p; applied := applied p; held := K |}
  | do_commit p l' r hp' K :
      commit (open p) (heap p) = Some ((l', r), hp') → (∀ l, l ∈ K → l ∈ held p ∨ l ∈ objects hp' l') →
      edit_step rendered p {| heap := hp'; open := open p; applied := applied p; held := K |}
  | outside p hp' K :
      heap_wf hp' → (next (heap p) ≤ next hp')%N →
      (∀ l, (l < next (heap p))%N → l ∉ held p → cells hp' !! l = cells (heap p) !! l) →
      (∀ l, l ∈ K → l ∈ held p ∨ (next (heap p) ≤ l < next hp')%N) →
      edit_step rendered p {| heap := hp'; open := open p; applied := applied p; held := K |}.
(** The page just after [beginEdit] ran in [hp0]. *)
Definition begins (rendered : bool) (hp0 : Heap) (config : N) (rev : Z) (p : EditPage) : Prop :=
  beginEdit config rev hp0 = Some (open p, heap p) ∧
  (∀ l, l ∈ held p → (l < next hp0)%N ∨ rendered = true ∧ l ∈ objects (heap p) (working (open p))).

Section Run.
Context (c : DashboardLayoutConfig) (rev : Z).

Definition session_inv (st : Heap * EditSession * list LayoutItem) : Prop :=
  let '(hp, s, last) := st in
  heap_wf hp ∧ revision s = rev ∧
  ∃ fb fw, read_config hp (baseline s) = Some (c, fb) ∧
           read_config hp (working s) = Some (with_items c last, fw).

Lemma session_inv_extends hp hp' s last :
  session_inv (hp, s, last) → heap_wf hp' → extends hp hp' → session_inv (hp', s, last).
Proof.
  intros (Hwf & Hrev & fb & fw & Hb & Hw) Hwf' He. split; [done|]. split; [done|].
  exists fb, fw. split; (eapply read_config_local; [done|]); simpl;
    (apply extends_agree; [done|]); by eapply read_config_old.
Qed.

(** [applyChange] asks only for the baseline and the new items. *)
Lemma applyChange_base hp s fb items v fp :
  heap_wf hp → read_config hp (baseline s) = Some (c, fb) → read_items hp items = Some (v, fp) →
  ∃ s' hp' fw, applyChange s items hp = Some (s', hp') ∧ baseline s' = baseline s ∧ revision s' = revision s ∧
    heap_wf hp' ∧ extends hp hp' ∧ read_config hp' (working s') = Some (with_items c v, fw) ∧ fresh_in hp hp' fw.
Proof.
  intros Hwf Hb Hr. unfold read_config in Hb. unfold applyChange, bind at 1, get.
  destruct (cells hp !! baseline s) as [[]|] eqn:E; try done.
  cbn [mbind option_bind]. destruct (read_items hp items0) as [[its f]|]; [|done].
  cbn [mbind option_bind] in Hb. injection Hb as Hc _. unfold bind.
  destruct (cloneItems_copies hp items v fp Hwf Hr) as (a & h1 & f1 & -> & Hr1 & Hwf1 & He1 & Hf1).
  cbn beta iota.
  destruct (alloc_spec h1 (OConfig schemaVersion scope columns a) Hwf1)
    as (h2 & -> & Hwf2 & He2 & Hl2 & Hn2).
  do 2 eexists. exists (next h1 :: f1). do 3 (split; [done|]). split_and!; [done|by etrans| |].
  - cbn [working]. unfold read_config. rewrite Hl2, (read_items_local h1 h2 a _ Hr1) by (by eapply fresh_in_agree).
    subst c. done.
  - destruct He1. constructor; [lia|]. by eapply fresh_in_grow.
Qed.
Lemma applyChange_runs hp s last items v fp :
  session_inv (hp, s, last) → read_items hp items = Some (v, fp) →
  ∃ s' hp', applyChange s items hp = Some (s', hp') ∧ session_inv (hp', s', v).
Proof.
  intros (Hwf & Hrev & fb & fw & Hb & Hw) Hr.
  destruct (applyChange_base hp s fb items v fp Hwf Hb Hr) as (s' & hp' & fw' & E & Eb & Er & Hwf' & He & Hw' & _).
  exists s', hp'. split; [done|]. split; [done|]. split; [congruence|]. exists fb, fw'. split; [|done]. rewrite Eb.
  eapply read_config_local; [done|]. apply extends_agree; [done|]. by eapply read_config_old.
Qed.

Lemma beginEdit_runs hp config fp :
  heap_wf hp → read_config hp config = Some (c, fp) →
  ∃ s hp', beginEdit config rev hp = Some (s, hp') ∧
    session_inv (hp', s, config_items c) ∧ extends hp hp' ∧
    fresh_in hp hp' (session_objects hp' s) ∧
    ∀ x, x ∈ objects hp' (baseline s) → x ∉ objects hp' (working s).
Proof.
  intros Hwf Hr. unfold beginEdit, bind.
  destruct (cloneConfig_copies hp config c fp Hwf Hr) as (b & h1 & f1 & -> & Hr1 & Hwf1 & He1 & Hf1).
  cbn beta iota. destruct (cloneConfig_copies h1 config c fp Hwf1)
    as (w & h2 & f2 & -> & Hr2 & Hwf2 & He2 & Hf2).
  { eapply read_config_local; [done|]. apply extends_agree; [done|]. by eapply read_config_old. }
  cbn beta iota. do 2 eexists. split; [done|].
  assert (Hb : read_config h2 b = Some (c, f1)).
  { eapply read_config_local; [done|]. by eapply fresh_in_agree. }
  split_and!.
  - split; [done|]. split; [done|]. simpl. exists f1, f2. split; [done|]. by destruct c.
  - by etrans.
  - unfold session_objects. simpl. rewrite Hb, Hr2. eauto with dash.
  - unfold objects. cbn [baseline working]. rewrite Hb, Hr2. unfold fresh_in in Hf1, Hf2. rewrite Forall_forall in Hf1, Hf2.
    intros x H1%Hf1 H2%Hf2. cbn in H1, H2. lia.
Qed.
End Run.

(** A clone that succeeds is made of new objects, whatever it was made from. *)
Lemma cloneItem_clones hp l r : heap_wf hp → cloneItem l hp = Some r → ∃ v, copies read_item v hp (Some r).
Proof.
  intros Hwf. destruct (read_item hp l) as [[v fp]|] eqn:E.
  - intros <-. exists v. by eapply cloneItem_copies.
  - unfold read_item in E. unfold cloneItem, bind, get. destruct (cells hp !! l) as [[]|]; try done. cbn [mbind option_bind].
    unfold read_params in E. destruct params as [q|]; [|done]. cbn [mbind option_bind] in *. by destruct (cells hp !! q) as [[]|].
Qed.
Lemma map_cloneItem_clones hp elems r : heap_wf hp → map_M cloneItem elems hp = Some r →
  ∃ v fp, read_elems r.2 r.1 = Some (v, fp) ∧ heap_wf r.2 ∧ extends hp r.2 ∧ fresh_in hp r.2 fp.
Proof.
  revert hp r. induction elems as [|l elems IH]; intros hp r Hwf; cbn [map_M].
  { intros [= <-]. exists [], []. repeat split; try done. constructor. }
  unfold bind at 1. destruct (cloneItem l hp) as [r1|] eqn:E1; [|done].
  destruct (cloneItem_clones hp l r1 Hwf E1) as (it & l' & h1 & f1 & [= ->] & Hr1 & Hwf1 & He1 & Hf1). cbn beta iota.
  unfold bind at 1. destruct (map_M cloneItem elems h1) as [[es h2]|] eqn:E2; [|done]. intros [= <-]. cbn [fst snd].
  destruct (IH h1 _ Hwf1 E2) as (its & f2 & Hr2 & Hwf2 & He2 & Hf2). cbn [fst snd] in *.
  exists (it :: its), (f1 ++ f2). split_and!; [|done|by etrans|eauto with dash].
  cbn [read_elems]. rewrite (read_item_local h1 h2 l' (it, f1) Hr1) by (by eapply fresh_in_agree). cbn [mbind option_bind]. by rewrite Hr2.
Qed.
Lemma cloneItems_clones hp l r : heap_wf hp → cloneItems l hp = Some r → ∃ v, copies read_items v hp (Some r).
Proof.
  intros Hwf. unfold cloneItems, bind at 1, get. destruct (cells hp !! l) as [[]|]; try done. cbn [mbind option_bind]. unfold bind.
  destruct (map_M cloneItem elems hp) as [[es h1]|] eqn:E1; [|done].
  destruct (map_cloneItem_clones hp elems _ Hwf E1) as (its & f1 & Hr1 & Hwf1 & He1 & Hf1). cbn [fst snd] in *.
  destruct (alloc_spec h1 (OArray es) Hwf1) as (h2 & -> & Hwf2 & He2 & Hl2 & Hn2). intros [= <-].
  exists its, (next h1), h2, (next h1 :: f1). split; [done|]. split; [|split; [done|split; [by etrans|]]].
  - unfold read_items. rewrite Hl2. by rewrite (read_elems_local h1 h2 es _ Hr1) by (by eapply fresh_in_agree).
  - destruct He1. constructor; [lia|]. by eapply fresh_in_grow.
Qed.
Lemma cloneConfig_clones hp l r : heap_wf hp → cloneConfig l hp = Some r → ∃ v, copies read_config v hp (Some r).
Proof.
  intros Hwf. unfold cloneConfig, bind at 1, get. destruct (cells hp !! l) as [[]|]; try done. cbn [mbind option_bind]. unfold bind.
  destruct (cloneItems items hp) as [r1|] eqn:E1; [|done].
  destruct (cloneItems_clones hp items r1 Hwf E1) as (its & a & h1 & f1 & [= ->] & Hr1 & Hwf1 & He1 & Hf1).
  destruct (alloc_spec h1 (OConfig schemaVersion scope columns a) Hwf1) as (h2 & -> & Hwf2 & He2 & Hl2 & Hn2). intros [= <-].
  eexists _, (next h1), h2, (next h1 :: f1). split; [done|]. split; [|split; [done|split; [by etrans|]]].
  - unfold read_config. rewrite Hl2. by rewrite (read_items_local h1 h2 a _ Hr1) by (by eapply fresh_in_agree).
  - destruct He1. constructor; [lia|]. by eapply fresh_in_grow.
Qed.
Lemma objects_read hp l v fp : read_config hp l = Some (v, fp) → objects hp l = fp.
Proof. unfold objects. by intros ->. Qed.

(** *** Nobody else holds the baseline *)

Section Isolation.
Context (rendered : bool) (c : DashboardLayoutConfig) (rev : Z).

(** A layout with this value whose objects the page does not hold. *)
Definition private (hp : Heap) (K : gset N) (l : N) (v : DashboardLayoutConfig) : Prop :=
  ∃ fp, read_config hp l = Some (v, fp) ∧ ∀ x, x ∈ fp → x ∉ K.
Record page_inv (p : EditPage) : Prop := {
  pi_wf : heap_wf (heap p);
  pi_rev : revision (open p) = rev;
  pi_held : ∀ x, x ∈ held p → (x < next (heap p))%N;
  pi_base : private (heap p) (held p) (baseline (open p)) c;
  pi_work : rendered = false → private (heap p) (held p) (working (open p)) (with_items c (applied p))
}.
(** What was private stays so when the heap grows and the page gets new objects. *)
Lemma private_grows hp hp' (K K' : gset N) l v : heap_wf hp → extends hp hp' →
  (∀ x, x ∈ K' → x ∈ K ∨ (next hp ≤ x)%N) → private hp K l v → private hp' K' l v.
Proof.
  intros Hwf He HK (fp & Hr & Hp). pose proof (read_config_old _ _ _ _ Hwf Hr) as Hold. exists fp. split.
  - eapply read_config_local; [done|]. by apply extends_agree.
  - intros x Hx [Hk|Hk]%HK; [by apply (Hp x)|]. rewrite Forall_forall in Hold. specialize (Hold x Hx). cbn in Hold. lia.
Qed.
Lemma fresh_ge hp hp' fp x : fresh_in hp hp' fp → x ∈ fp → (next hp ≤ x < next hp')%N.
Proof. unfold fresh_in. rewrite Forall_forall. auto. Qed.
Lemma grown_inv p hp' (K : gset N) : page_inv p → heap_wf hp' → extends (heap p) hp' →
  (∀ x, x ∈ K → x ∈ held p ∨ (next (heap p) ≤ x < next hp')%N) →
  page_inv {| heap := hp'; open := open p; applied := applied p; held := K |}.
Proof.
  intros [Hwf Hrev Hheld Hb Hw] Hwf' He HK. assert (HK' : ∀ x, x ∈ K → x ∈ held p ∨ (next (heap p) ≤ x)%N).
  { intros x [?|[? _]]%HK; auto. }
  split; cbn [heap open applied held]; [done|done| |exact (private_grows _ _ _ _ _ _ Hwf He HK' Hb)|intros Hrd; exact (private_grows _ _ _ _ _ _ Hwf He HK' (Hw Hrd))].
  intros x [Hx%Hheld|Hx]%HK; destruct He; lia.
Qed.
Lemma edit_step_inv p p' : page_inv p → edit_step rendered p p' → page_inv p'.
Proof.
  intros [Hwf Hrev Hheld Hb Hw] Hstep. destruct Hstep as [p items v fp s' hp' K Hr Ha HK|p l' hp' K Hd HK|p l' r hp' K Hc HK|p hp' K Hwf' Hn Hag HK].
  - destruct Hb as (fb & Hb & Hpb). destruct (applyChange_base c (heap p) (open p) fb items v fp Hwf Hb Hr)
      as (s2 & h2 & fw & E & Eb & Er & Hwf2 & He & Hrw & Hf). rewrite Ha in E. injection E as <- <-.
    assert (Hnew : ∀ x, x ∈ K → x ∈ held p ∨ (next (heap p) ≤ x < next hp')%N).
    { intros x [Hx|[_ Hx]]%HK; [by left|]. rewrite (objects_read _ _ _ _ Hrw) in Hx. right. by eapply fresh_ge. }
    split; cbn [heap open applied held]; [done|congruence| | |].
    + intros x [Hx%Hheld|Hx]%Hnew; destruct He; lia.
    + rewrite Eb. eapply private_grows; [exact Hwf|exact He| |exists fb; split; [exact Hb|exact Hpb]]. intros x [?|[? _]]%Hnew; auto.
    + intros Hrd. exists fw. split; [done|]. intros x Hx [Hk%Hheld|[Hk _]]%HK; [|congruence].
      destruct (fresh_ge _ _ _ _ Hf Hx). lia.
  - destruct (cloneConfig_clones (heap p) _ _ Hwf Hd) as (v & l2 & h2 & f2 & [= -> ->] & Hr2 & Hwf2 & He & Hf).
    rewrite (objects_read _ _ _ _ Hr2) in HK. apply (grown_inv p h2 K); [by split|done|done|].
    intros x [?|Hx]%HK; [by left|right; by eapply fresh_ge].
  - unfold commit, bind in Hc. destruct (cloneConfig (working (open p)) (heap p)) as [[l1 h1]|] eqn:E1; [|done]. injection Hc as <- <- <-.
    destruct (cloneConfig_clones (heap p) _ _ Hwf E1) as (v & l2 & h2 & f2 & [= -> ->] & Hr2 & Hwf2 & He & Hf).
    rewrite (objects_read _ _ _ _ Hr2) in HK. apply (grown_inv p h2 K); [by split|done|done|].
    intros x [?|Hx]%HK; [by left|right; by eapply fresh_ge].
  - assert (Hkeep : ∀ l v, private (heap p) (held p) l v → private hp' K l v).
    { intros l v (fp & Hr & Hp). pose proof (read_config_old _ _ _ _ Hwf Hr) as Hold. rewrite Forall_forall in Hold.
      exists fp. split.
      - eapply read_config_local; [done|]. intros x Hx. apply Hag; [by apply Hold|by apply Hp].
      - intros x Hx [Hk|[Hk _]]%HK; [by apply (Hp x)|]. specialize (Hold x Hx). cbn in Hold. lia. }
    split; cbn [heap open applied held]; [done|done| |by apply Hkeep|intros Hrd; by apply Hkeep, Hw].
    intros x [Hx%Hheld|Hx]%HK; lia.
Qed.
Lemma edit_run_inv p p' : page_inv p → rtc (edit_step rendered) p p' → page_inv p'.
Proof. intros H Hrun. induction Hrun; [done|]. eauto using edit_step_inv. Qed.
Lemma begins_inv hp0 config fp p : heap_wf hp0 → read_config hp0 config = Some (c, fp) → begins rendered hp0 config rev p →
  applied p = config_items c → page_inv p.
Proof.
  intros Hwf Hr [Hb HK] Ha. destruct (beginEdit_runs c rev hp0 config fp Hwf Hr) as (s & hp' & E & Hinv & He & Hf & Hd).
  rewrite Hb in E. injection E as <- <-. destruct Hinv as (Hwf' & Hrev & fb & fw & Hrb & Hrw).
  unfold session_objects in Hf. rewrite Hrb, Hrw in Hf. apply Forall_app in Hf as [Hfb Hfw].
  rewrite (objects_read _ _ _ _ Hrw) in Hd, HK. rewrite (objects_read _ _ _ _ Hrb) in Hd. split; [done|done| | |].
  - intros x [Hx|[_ Hx]]%HK; [destruct He; lia|]. by destruct (fresh_ge _ _ _ _ Hfw Hx).
  - exists fb. split; [done|]. intros x Hx [Hk|[_ Hk]]%HK; [destruct (fresh_ge _ _ _ _ Hfb Hx); lia|]. by apply (Hd x).
  - intros Hrd. rewrite Ha. exists fw. split; [exact Hrw|]. intros x Hx [Hk|[Hk _]]%HK; [|congruence].
    destruct (fresh_ge _ _ _ _ Hfw Hx). lia.
Qed.
End Isolation.

(** ** What is stringified determines the rows *)

Lemma json_pair_code : prefix_code (λ _, True) json_pair.
Proof.
  intros [k v] [k' v'] r r' _ _ Hr Hr' E.
  pose proof (json_array_code _ json_string json_string_code json_string_opens [k; v] [k'; v'] r r')
    as H. destruct H as [[= -> ->] ->]; [by repeat constructor..|done|done|exact E|done].
Qed.
Lemma json_pair_opens : opens json_pair.
Proof. intros a. by eexists _, _. Qed.
(** Drops the punctuation both sides start with, then one value. *)
Ltac peel code E H :=
  apply (f_equal (@tl N)) in E; cbn [tl rest_of_array] in E;
  apply code in E as [H E]; [|done|done|by simpl; auto|by simpl; auto].
Lemma json_row_code : prefix_code (λ _, True) json_row.
Proof.
  intros a b r r' _ _ _ _. unfold json_row. rewrite !json_array_fields. intros E.
  peel json_string_code E E1. peel json_string_code E E2.
  peel json_int_code E E3. peel json_int_code E E4.
  peel json_int_code E E5. peel json_int_code E E6.
  apply (f_equal (@tl N)) in E; cbn [tl rest_of_array] in E.
  apply (json_array_code _ json_pair json_pair_code json_pair_opens) in E as [E7 E];
    [|by apply Forall_true|by apply Forall_true|by simpl; auto..].
  injection E as ->. destruct a, b. simpl in *. by subst.
Qed.
Lemma json_row_opens : opens json_row.
Proof. intros a. by eexists _, _. Qed.

Lemma canonicalItems_rows lc l l' :
  canonicalItems lc l = canonicalItems lc l' ↔
  js_sort (row_order lc) (item_row <$> l) = js_sort (row_order lc) (item_row <$> l').
Proof.
  unfold canonicalItems. split; [|by intros ->]. intros [= E].
  destruct (json_array_code _ json_row json_row_code json_row_opens
    (js_sort (row_order lc) (item_row <$> l)) (js_sort (row_order lc) (item_row <$> l')) [] [])
    as [H _]; [by apply Forall_true..|done|done|by rewrite !app_nil_r; unfold json_array; rewrite E|done].
Qed.
Lemma row_order_comparator lc : Comparator lc → Comparator (row_order lc).
Proof. intros H. exact (cmp_on_comparator r_instanceId lc H). Qed.

(** Two arrangements stringify alike exactly when they hold the same rows,
    provided the locale tells the instance ids in them apart. *)
Lemma canonicalItems_eq lc l l' :
  Comparator lc → NoDup (ids l) →
  (∀ i j, i ∈ ids l → j ∈ ids l → lc i j = Eq → i = j) →
  canonicalItems lc l = canonicalItems lc l' ↔ (item_row <$> l) ≡ₚ (item_row <$> l').
Proof.
  intros Hlc Hnd Hdist. pose proof (row_order_comparator lc Hlc) as Hcmp.
  rewrite canonicalItems_rows. split.
  - intros E. rewrite <- (js_sort_perm (row_order lc) (item_row <$> l)), E. by rewrite js_sort_perm.
  - intros Hp. apply (StronglySorted_unique_strong (cmp_le (row_order lc))).
    + intros r1 r2. rewrite !elem_of_js_sort, <- Hp.
      intros (i1 & -> & Hi1)%list_elem_of_fmap (i2 & -> & Hi2)%list_elem_of_fmap H12 H21.
      assert (Heq : lc (Types.instanceId i1) (Types.instanceId i2) = Eq).
      { unfold cmp_le, row_order in *. simpl in *.
        pose proof (cmp_sym (cmp:=lc) (Types.instanceId i1) (Types.instanceId i2)).
        by destruct (lc (Types.instanceId i1) (Types.instanceId i2)),
          (lc (Types.instanceId i2) (Types.instanceId i1)). }
      apply Hdist in Heq; [|by apply list_elem_of_fmap_2..].
      assert (Some i1 = Some i2) as [= ->]; [|done].
      rewrite <- (findTarget_unique l (Types.instanceId i1) i1) by done.
      by apply findTarget_unique.
    + by apply js_sort_sorted.
    + by apply js_sort_sorted.
    + by rewrite !js_sort_perm.
Qed.

(** ** Properties *)

(** Opening the editor always works and takes deep copies: every object of
    the session is new, so none of them is reachable from the layout the store
    holds, and the session starts at the loaded layout and revision. *)
Theorem beginEdit_isolated hp config c fp rev :
  heap_wf hp → read_config hp config = Some (c, fp) →
  ∃ s hp', beginEdit config rev hp = Some (s, hp') ∧ extends hp hp' ∧
    fresh_in hp hp' (session_objects hp' s) ∧ revision s = rev ∧
    (∃ fb, read_config hp' (baseline s) = Some (c, fb)) ∧
    (∃ fw, read_config hp' (working s) = Some (c, fw)).
Proof.
  intros Hwf Hr.
  destruct (beginEdit_runs c rev hp config fp Hwf Hr) as (s & hp' & E & Hinv & He & Hf & _).
  destruct Hinv as (_ & Hrev & fb & fw & Hb & Hw). destruct c.
  exists s, hp'. repeat split; [done|by apply He..|done|done|by exists fb|by exists fw].
Qed.

(** C10. Cancel restores what was loaded. The rest of the page may hold everything there was
    before the session, the layout [beginEdit] is given included, the copies [discard] and
    [commit] hand out and, where the working copy is rendered, all of its objects, and may
    overwrite any of them at any time. After any number of changes and such writes, [discard]
    still returns a fresh deep copy of the layout as it was when [beginEdit] was called. *)
Theorem discard_restores rendered hp0 config c fp rev p0 p :
  heap_wf hp0 → read_config hp0 config = Some (c, fp) →
  begins rendered hp0 config rev p0 → applied p0 = config_items c →
  rtc (edit_step rendered) p0 p →
  copies read_config c (heap p) (discard (open p) (heap p)).
Proof.
  intros Hwf Hr Hb Ha Hrun. pose proof (begins_inv rendered c rev hp0 config fp p0 Hwf Hr Hb Ha) as Hinv.
  apply (edit_run_inv rendered c rev _ _ Hinv) in Hrun as [Hwf' _ _ (fb & Hbase & _) _]. by eapply cloneConfig_copies.
Qed.

(** Save writes the last arrangement applied, under the loaded scope, column count and
    schema version, and claims the revision that was loaded, whatever the rest of the page
    does to the objects it holds, as long as the working copy is not among them. *)
Theorem commit_pins hp0 config c fp rev p0 p :
  heap_wf hp0 → read_config hp0 config = Some (c, fp) →
  begins false hp0 config rev p0 → applied p0 = config_items c →
  rtc (edit_step false) p0 p →
  ∃ l hp' fp', commit (open p) (heap p) = Some ((l, rev), hp') ∧
    read_config hp' l = Some (with_items c (applied p), fp') ∧ fresh_in (heap p) hp' fp'.
Proof.
  intros Hwf Hr Hb Ha Hrun. pose proof (begins_inv false c rev hp0 config fp p0 Hwf Hr Hb Ha) as Hinv.
  apply (edit_run_inv false c rev _ _ Hinv) in Hrun as [Hwf' Hrev _ _ Hw]. destruct (Hw eq_refl) as (fw & Hrw & _).
  destruct (cloneConfig_copies (heap p) _ _ fw Hwf' Hrw) as (l & h2 & f2 & Ec & Hr2 & _ & _ & Hf2).
  exists l, h2, f2. unfold commit, bind. by rewrite Ec, <- Hrev.
Qed.

(** Save is armed exactly when the placements differ: the order of the
    array, the order of a placement's parameter keys and the two spellings of
    "no parameters" are not changes. The locale has to tell the layout's
    instance ids apart. *)
Theorem isDirty_spec lc hp s wk fw b fb :
  Comparator lc →
  read_config hp (working s) = Some (wk, fw) → read_config hp (baseline s) = Some (b, fb) →
  NoDup (ids (config_items wk)) →
  (∀ i j, i ∈ ids (config_items wk) → j ∈ ids (config_items wk) → lc i j = Eq → i = j) →
  ∃ d, isDirty lc s hp = Some (d, hp) ∧
    (d = false ↔ (item_row <$> config_items wk) ≡ₚ (item_row <$> config_items b)).
Proof.
  intros Hlc Hw Hb Hnd Hdist. unfold isDirty. rewrite Hw. cbn [mbind option_bind]. rewrite Hb.
  eexists. split; [done|]. rewrite negb_false_iff, js_eqb_eq. by apply canonicalItems_eq.
Qed.

(** The layout every user starts with is one the editor keeps: twelve
    columns, distinct instance ids, no overlap, nothing over an edge, and
    compaction leaves it as it is. *)
Theorem default_layout_settled :
  let items := config_items DEFAULT_OVERVIEW_LAYOUT in
  layout_wf items ∧ NoOverlap items ∧ Forall in_columns items ∧
  Forall (λ i, y i + h i <= DASHBOARD_MAX_ROWS)%Z items ∧ compact items = items.
Proof.
  split; [split; [by apply (bool_decide_unpack _)|split; [|split]; repeat constructor; done]|].
  split; [repeat constructor|]. split; [repeat constructor; done|].
  split; [repeat constructor; done|]. vm_compute. reflexivity.
Qed.

(** ** Witnesses *)

(** The store's layout as objects: one placement with parameters, one without. *)
Definition store_heap : Heap :=
  {| cells := list_to_map
       [(0%N, OParams [("namespace"%js, "prod"%js)]);
        (1%N, OItem "a"%js "diagnostics"%js 0 0 4 4 (Some 0%N));
        (2%N, OItem "b"%js "nodes"%js 4 0 4 4 None);
        (3%N, OArray [1%N; 2%N]);
        (4%N, OConfig 1 (scope_text overview) 12 3%N);
        (5%N, OArray [2%N; 1%N])];
     next := 6 |}.
Definition store_config : DashboardLayoutConfig :=
  {| Types.schemaVersion := 1; Types.scope := scope_text overview; Types.columns := 12;
     Types.config_items :=
       [{| Types.instanceId := "a"%js; Types.id := "diagnostics"%js; Types.x := 0; Types.y := 0;
           Types.w := 4; Types.h := 4; Types.params := Some [("namespace"%js, "prod"%js)] |};
        {| Types.instanceId := "b"%js; Types.id := "nodes"%js; Types.x := 4; Types.y := 0;
           Types.w := 4; Types.h := 4; Types.params := None |}] |}.
Lemma heap_wf_intro hp :
  Forall (λ kv, (kv.1 < next hp)%N) (map_to_list (cells hp)) → heap_wf hp.
Proof.
  intros H l Hl. destruct (cells hp !! l) as [o|] eqn:E; [|done].
  apply elem_of_map_to_list in E. rewrite Forall_forall in H. apply H in E. simpl in E. lia.
Qed.
Lemma store_heap_wf : heap_wf store_heap.
Proof. apply heap_wf_intro. vm_compute. repeat constructor. Qed.
Lemma store_reads : read_config store_heap 4 = Some (store_config, [4; 3; 1; 0; 2]%N).
Proof. vm_compute. reflexivity. Qed.

(** The session over it, a change that only reorders the array, and a write by
    the rest of the page to the store's own placement. *)
Definition opened : option (EditSession * Heap) := beginEdit 4 7 store_heap.
Definition opened_session : EditSession := {| baseline := 10; working := 15; revision := 7 |}.
Definition opened_heap : Heap := match opened with Some (_, hp) => hp | None => store_heap end.
Lemma opened_eq : beginEdit 4 7 store_heap = Some (opened_session, opened_heap).
Proof. vm_compute. reflexivity. Qed.
Definition changed_session : EditSession := {| baseline := 10; working := 20; revision := 7 |}.
Definition changed_heap : Heap :=
  match applyChange opened_session 5 opened_heap with Some (_, hp) => hp | None => store_heap end.
Definition scribbled : Heap :=
  {| cells := <[1%N := OItem "a"%js "diagnostics"%js 8 9 1 1 None]> (cells changed_heap);
     next := next changed_heap |}.
Definition reordered : list LayoutItem := rev (config_items store_config).
(** The page holds all that was in the store. With [drawn] it also holds the
    working copies, and writes to a placement of the last one. *)
Definition store_objects : gset N := list_to_set [0; 1; 2; 3; 4; 5]%N.
Definition drawn_objects : gset N := store_objects ∪ list_to_set [20; 19; 16; 18; 17]%N.
Definition demo_page (hp : Heap) (s : EditSession) (last : list LayoutItem) (K : gset N) : EditPage :=
  {| heap := hp; open := s; applied := last; held := K |}.
Definition demo_open : EditPage := demo_page opened_heap opened_session (config_items store_config) store_objects.
Definition over_drawn : Heap :=
  {| cells := <[16%N := OParams []]> (cells scribbled); next := next scribbled |}.
Lemma store_held l : l ∈ store_objects → (l < 6)%N.
Proof.
  intros Hl%elem_of_list_to_set. repeat (apply elem_of_cons in Hl as [->|Hl]; [lia|]). by apply elem_of_nil in Hl.
Qed.
Lemma demo_begins rendered : begins rendered store_heap 4 7 demo_open.
Proof. split; [exact opened_eq|]. intros l Hl%store_held. by left. Qed.
Lemma demo_applies rendered K : (∀ l, l ∈ K → l ∈ store_objects ∨ rendered = true ∧ l ∈ objects changed_heap 20) →
  edit_step rendered demo_open (demo_page changed_heap changed_session reordered K).
Proof. intros HK. apply (do_apply rendered demo_open 5 reordered [5; 2; 1; 0]%N); [vm_compute; reflexivity..|exact HK]. Qed.
(** Writes to objects the page holds. *)
Lemma demo_scribbles rendered K hp' : heap_wf hp' → next hp' = next changed_heap →
  (∀ l, l ∉ K → cells hp' !! l = cells changed_heap !! l) →
  edit_step rendered (demo_page changed_heap changed_session reordered K) (demo_page hp' changed_session reordered K).
Proof.
  intros Hwf En Hc. apply (outside rendered (demo_page changed_heap changed_session reordered K) hp' K); [done|cbn; by rewrite En| |by left].
  intros l _ Hl. by apply Hc.
Qed.
Lemma demo_run : rtc (edit_step false) demo_open (demo_page scribbled changed_session reordered store_objects).
Proof.
  eapply rtc_l; [apply (demo_applies false store_objects); by left|]. apply rtc_once, demo_scribbles; [|done|].
  - apply heap_wf_intro. vm_compute. repeat constructor.
  - intros l Hl. cbn [cells scribbled]. apply lookup_insert_ne. intros <-. apply Hl. apply elem_of_list_to_set. right. left.
Qed.
Lemma demo_run_drawn : rtc (edit_step true) demo_open (demo_page over_drawn changed_session reordered drawn_objects).
Proof.
  eapply rtc_l; [apply (demo_applies true drawn_objects)|apply rtc_once, demo_scribbles; [|done|]].
  - intros l [Hl|Hl%elem_of_list_to_set]%elem_of_union; [by left|right]. split; [done|]. vm_compute. exact Hl.
  - apply heap_wf_intro. vm_compute. repeat constructor.
  - intros l Hl. cbn [cells over_drawn scribbled]. rewrite !lookup_insert_ne; [done|..]; intros <-; apply Hl, elem_of_union.
    + left. apply elem_of_list_to_set. right. left.
    + right. apply elem_of_list_to_set. do 2 right. left.
Qed.

Lemma beginEdit_isolated_witness :
  ∃ s hp', beginEdit 4 7 store_heap = Some (s, hp') ∧
    fresh_in store_heap hp' (session_objects hp' s).
Proof.
  destruct (beginEdit_isolated store_heap 4 store_config _ 7 store_heap_wf store_reads)
    as (s & hp' & E & _ & H & _). by exists s, hp'.
Defined.
Lemma discard_restores_witness :
  copies read_config store_config over_drawn (discard changed_session over_drawn).
Proof.
  exact (discard_restores true store_heap 4 store_config _ 7 demo_open _ store_heap_wf store_reads (demo_begins true) eq_refl demo_run_drawn).
Defined.
Lemma commit_pins_witness :
  ∃ l hp' fp', commit changed_session scribbled = Some ((l, 7%Z), hp') ∧
    read_config hp' l = Some (with_items store_config reordered, fp') ∧ fresh_in scribbled hp' fp'.
Proof.
  exact (commit_pins store_heap 4 store_config _ 7 demo_open _ store_heap_wf store_reads (demo_begins false) eq_refl demo_run).
Defined.
Lemma isDirty_spec_witness : isDirty js_compare changed_session scribbled = Some (false, scribbled).
Proof.
  destruct (isDirty_spec js_compare scribbled changed_session (with_items store_config reordered)
    [20; 19; 16; 18; 17]%N store_config [10; 9; 7; 6; 8]%N) as (d & -> & Hd).
  - apply js_compare_comparator.
  - vm_compute. reflexivity.
  - vm_compute. reflexivity.
  - by apply (bool_decide_unpack _).
  - intros i j _ _. apply js_compare_eq.
  - assert (d = false) as ->; [|done]. apply Hd. simpl. apply perm_swap.
Defined.
