(* ===== verification/Registry.v ===== *)
(** * The widget catalog and the small pure modules widgets are drawn with:
    registry.ts, display-mode.ts, pod-status.ts, event-format.ts

    The catalog is a [Map] filled by [registerWidget] while the page's modules
    load: here the list of definitions in insertion order. *)

From stdpp Require Import base list strings gmap sorting.
From Stdlib Require Import ZArith QArith Lia.
From S2P Require Import Prelude JsValue Types Params Placement.

Open Scope Z_scope.

(** ** Definitions *)

Definition RETIRED_WIDGET_IDS : list jstring := [].
Definition isRetiredWidgetId (wid : jstring) : bool := bool_decide (wid ∈ RETIRED_WIDGET_IDS).

Definition getWidget (widgets : list WidgetDef) (wid : jstring) : option WidgetDef :=
  head (filter (λ d, def_id d = wid) widgets).

Inductive RegisterError :=
  | duplicate_id (wid : jstring)
  | retired_id (wid : jstring)
  | no_normal_mode (wid : jstring)
  | unknown_parameter (wid key : jstring).

Definition registerWidget (widgets : list WidgetDef) (d : WidgetDef) : RegisterError + list WidgetDef :=
  match getWidget widgets (def_id d) with
  | Some _ => inl (duplicate_id (def_id d))
  | None =>
      if isRetiredWidgetId (def_id d) then inl (retired_id (def_id d))
      else if negb (bool_decide (normal_mode ∈ modes d)) then inl (no_normal_mode (def_id d))
      else match filter (λ k, k ∉ KNOWN_PARAM_KEYS) (object_keys (default [] (def_params d))) with
           | key :: _ => inl (unknown_parameter (def_id d) key)
           | [] => inr (widgets ++ [d])
           end
  end.

Definition allWidgets (widgets : list WidgetDef) : list WidgetDef := widgets.
Definition widgetsForScope (widgets : list WidgetDef) (s : DashboardScope) : list WidgetDef :=
  filter (λ d, s ∈ scopes d) (allWidgets widgets).

(** Module load: the registrations in order; the first error is the throw. *)
Fixpoint register_all (widgets : list WidgetDef) (ds : list WidgetDef) : RegisterError + list WidgetDef :=
  match ds with
  | [] => inr widgets
  | d :: ds' =>
      match registerWidget widgets d with
      | inl e => inl e
      | inr widgets' => register_all widgets' ds'
      end
  end.

Definition THRESHOLDS (m : DisplayMode) : Z * Z :=
  match m with
  | compact_mode => (0, 0)
  | normal_mode => (280, 160)
  | expanded_mode => (520, 320)
  end.
Definition mode_fits (width height : number) (m : DisplayMode) : bool :=
  num_leb (of_Z (THRESHOLDS m).1) width && num_leb (of_Z (THRESHOLDS m).2) height.
Definition wanted_mode (width height : number) : DisplayMode :=
  foldl (λ wanted m, if mode_fits width height m then m else wanted) compact_mode DISPLAY_MODES.
Definition mode_index (m : DisplayMode) : nat :=
  match m with compact_mode => 0 | normal_mode => 1 | expanded_mode => 2 end.
(** The downward search from [wanted], then the upward one. *)
Definition pickMode (ms : list DisplayMode) (width height : number) : DisplayMode :=
  match ms with
  | [] => normal_mode
  | _ =>
      let i := mode_index (wanted_mode width height) in
      match filter (λ m, m ∈ ms) (rev (take (S i) DISPLAY_MODES) ++ drop (S i) DISPLAY_MODES) with
      | m :: _ => m
      | [] => normal_mode
      end
  end.

Record DonutSegment := { value : number; color : jstring }.
Definition podStatusSegments (running pending failed : number) : list DonutSegment :=
  if num_ltb (of_Z 0) (num_add (num_add running pending) failed) then
    [{| value := running; color := "var(--success)"%js |};
     {| value := pending; color := "var(--warning)"%js |};
     {| value := failed; color := "var(--error)"%js |}]
  else [{| value := of_Z 1; color := "var(--border-subtle)"%js |}].

Definition KIND_ABBR : list (jstring * jstring) :=
  [("deployment", "deploy"); ("service", "svc"); ("replicaset", "rs");
   ("statefulset", "sts"); ("daemonset", "ds"); ("persistentvolumeclaim", "pvc");
   ("horizontalpodautoscaler", "hpa"); ("configmap", "cm"); ("serviceaccount", "sa");
   ("networkpolicy", "netpol")]%js.
(** The object an event names; the event, its object and the object's fields
    may each be absent. [toLowerCase] is the host's; [None]: the kind is the
    name of a member of [Object.prototype]. *)
Record InvolvedObject := { obj_kind : option jstring; obj_name : option jstring }.
Definition formatEventLabel (toLowerCase : jstring → jstring) (o : option InvolvedObject)
    : option jstring :=
  match o ≫= obj_name with
  | None => Some ""%js
  | Some name =>
      if js_eqb name "" then Some ""%js else
      let kind := from_option toLowerCase ""%js (o ≫= obj_kind) in
      match table_get KIND_ABBR kind with
      | Own abbr => Some (abbr +++ "/" +++ name)%js
      | Missing => Some (kind +++ "/" +++ name)%js
      | Inherited => None
      end
  end.
Definition asEventList (raw : jsval) : list jsval :=
  match raw with JArr l => l | _ => [] end.

(** ** The catalog *)

Definition registry_wf (widgets : list WidgetDef) : Prop :=
  NoDup (def_id <$> widgets) ∧
  Forall (λ d, normal_mode ∈ modes d ∧ ordinary_params d ∧
               declared_keys d ⊆ KNOWN_PARAM_KEYS) widgets.

Lemma getWidget_None widgets wid : getWidget widgets wid = None ↔ wid ∉ def_id <$> widgets.
Proof.
  unfold getWidget. induction widgets as [|d widgets IH].
  - split; [by intros _ ?%elem_of_nil|done].
  - rewrite filter_cons, fmap_cons, elem_of_cons. case_decide as Hd; simpl; [|rewrite IH; naive_solver].
    split; [done|]. intros []. by left.
Qed.
Lemma getWidget_Some widgets wid d :
  getWidget widgets wid = Some d → d ∈ widgets ∧ def_id d = wid.
Proof.
  unfold getWidget. intros H%head_Some_elem_of. apply list_elem_of_filter in H. tauto.
Qed.
Lemma known_keys_ordinary d :
  NoDup (declared_keys d) → declared_keys d ⊆ KNOWN_PARAM_KEYS → ordinary_params d.
Proof.
  intros Hnd Hsub. split; [done|]. apply Forall_forall. intros k Hk%Hsub. revert Hk.
  unfold KNOWN_PARAM_KEYS. rewrite !elem_of_cons, elem_of_nil.
  intros [->|[->|[]]]; by apply (bool_decide_unpack _).
Qed.
Lemma registerWidget_wf widgets d widgets' :
  registry_wf widgets → NoDup (declared_keys d) →
  registerWidget widgets d = inr widgets' → registry_wf widgets' ∧ widgets' = widgets ++ [d].
Proof.
  intros [Hnd Hall] Hkeys. unfold registerWidget.
  destruct (getWidget widgets (def_id d)) eqn:Eg; [done|]. apply getWidget_None in Eg.
  destruct (isRetiredWidgetId (def_id d)); [done|].
  case_bool_decide as Hm; [|done]. cbn [negb].
  destruct (filter _ (object_keys _)) as [|k l] eqn:Ef; [|done]. intros [= <-]. split; [|done].
  assert (Hsub : declared_keys d ⊆ KNOWN_PARAM_KEYS).
  { intros k Hk. destruct (decide (k ∈ KNOWN_PARAM_KEYS)) as [|Hn]; [done|]. exfalso.
    apply (elem_of_nil (A:=jstring) k). rewrite <- Ef. apply list_elem_of_filter. split; [done|].
    by rewrite object_keys_perm. }
  split.
  - rewrite fmap_app. apply NoDup_app. split; [done|]. split; [|apply NoDup_singleton].
    intros w Hw ->%list_elem_of_singleton. done.
  - apply Forall_app. split; [done|]. constructor; [|constructor].
    auto using known_keys_ordinary.
Qed.
Lemma register_all_inv widgets ds widgets' :
  registry_wf widgets → Forall (λ d, NoDup (declared_keys d)) ds →
  register_all widgets ds = inr widgets' → registry_wf widgets' ∧ widgets' = widgets ++ ds.
Proof.
  revert widgets. induction ds as [|d ds IH]; intros widgets Hwf Hds; cbn [register_all].
  { intros [= <-]. by rewrite app_nil_r. }
  apply Forall_cons in Hds as [Hd Hds]. destruct (registerWidget widgets d) as [|w1] eqn:E; [done|].
  apply registerWidget_wf in E as [Hwf1 ->]; [|done..]. intros [H1 H2]%IH; [|done..].
  split; [done|]. by rewrite H2, <- app_assoc.
Qed.
Lemma registry_lookup widgets d :
  NoDup (def_id <$> widgets) → d ∈ widgets → getWidget widgets (def_id d) = Some d.
Proof.
  unfold getWidget. induction widgets as [|d' widgets IH]; [by intros _ ?%elem_of_nil|].
  rewrite fmap_cons, filter_cons. intros [Hn Hnd]%NoDup_cons [->|Hin]%elem_of_cons.
  - by rewrite decide_True.
  - rewrite decide_False; [by apply IH|]. intros E. apply Hn. rewrite E.
    by apply list_elem_of_fmap_2.
Qed.

(** ** Sizes *)

(** A mode's threshold is at most that of any larger mode. *)
Lemma num_leb_trans_int a b n : a <= b → num_leb (of_Z b) n = true → num_leb (of_Z a) n = true.
Proof.
  intros Hab. unfold num_leb, num_compare, of_Z. destruct n as [|[]|q]; try done.
  assert (inject_Z a <= inject_Z b)%Q by (by rewrite <- Zle_Qle).
  destruct (inject_Z b ?= q)%Q eqn:E; try done; intros _;
    [apply Qeq_alt in E|apply Qlt_alt in E];
    (destruct (inject_Z a ?= q)%Q eqn:E2; try done; apply Qgt_alt in E2; exfalso).
  - apply (Qlt_irrefl q). eapply Qlt_le_trans; [done|]. by rewrite <- E.
  - apply (Qlt_irrefl q). eapply Qlt_le_trans; [done|]. eapply Qle_trans; [done|]. by apply Qlt_le_weak.
Qed.
Lemma mode_fits_mono width height m m' :
  (mode_index m ≤ mode_index m')%nat → mode_fits width height m' = true →
  mode_fits width height m = true.
Proof.
  unfold mode_fits. rewrite !andb_true_iff. intros Hle [H1 H2].
  split; [eapply num_leb_trans_int, H1|eapply num_leb_trans_int, H2];
    destruct m, m'; simpl in *; lia.
Qed.

(** ** Properties *)

(** The catalog a page ends up with holds exactly what was registered, each
    under its own id: a lookup answers with the definition that was registered
    under that id, every definition implements "normal", and every parameter
    key is one the server re-authorizes. *)
Theorem registry_sound ds widgets :
  Forall (λ d, NoDup (declared_keys d)) ds → register_all [] ds = inr widgets →
  widgets = ds ∧ registry_wf widgets ∧
  (∀ d, d ∈ ds → getWidget widgets (def_id d) = Some d) ∧
  (∀ wid d, getWidget widgets wid = Some d → d ∈ ds ∧ def_id d = wid).
Proof.
  intros Hds Hr. apply register_all_inv in Hr as [Hwf ->]; [|by repeat constructor|done].
  cbn [app] in *. split; [done|]. split; [done|]. split.
  - intros d Hd. apply registry_lookup; [apply Hwf|done].
  - intros wid d. apply getWidget_Some.
Qed.

(** A widget is never handed a mode it does not implement: [pickMode]
    answers the largest implemented mode that fits the box, and the smallest
    implemented one when none fits, whatever the box (a negative, infinite or
    NaN measurement included). *)
Theorem pickMode_best ms width height :
  ms ≠ [] →
  let m := pickMode ms width height in
  m ∈ ms ∧
  (∀ m', m' ∈ ms → mode_fits width height m' = true →
     mode_fits width height m = true ∧ (mode_index m' ≤ mode_index m)%nat) ∧
  ((∀ m', m' ∈ ms → mode_fits width height m' = false) →
     ∀ m', m' ∈ ms → (mode_index m ≤ mode_index m')%nat).
Proof.
  intros Hne. unfold pickMode. destruct ms as [|m0 ms0] eqn:Ems; [done|]. rewrite <- Ems in *.
  assert (Hin : compact_mode ∈ ms ∨ normal_mode ∈ ms ∨ expanded_mode ∈ ms).
  { rewrite Ems. destruct m0; rewrite !elem_of_cons; tauto. }
  clear Ems Hne m0 ms0. unfold wanted_mode. cbn [foldl DISPLAY_MODES].
  pose proof (mode_fits_mono width height compact_mode normal_mode ltac:(simpl; lia)) as M1.
  pose proof (mode_fits_mono width height normal_mode expanded_mode ltac:(simpl; lia)) as M2.
  destruct (mode_fits width height expanded_mode) eqn:F2,
    (mode_fits width height normal_mode) eqn:F1, (mode_fits width height compact_mode) eqn:F0;
    try (by specialize (M1 eq_refl)); try (by specialize (M2 eq_refl)); clear M1 M2;
    cbn [mode_index take drop rev app DISPLAY_MODES]; rewrite !filter_cons, filter_nil;
    repeat case_decide; try tauto;
    (split; [done|split]);
    try (intros m' Hm' Hf; destruct m'; simpl; (done || (split; [congruence|lia]) || congruence));
    intros Hno m' Hm'; specialize (Hno m' Hm') as Hf; destruct m'; simpl; (lia || congruence || done).
Qed.

(** ** Witnesses *)

Lemma demo_registered : register_all [] [demo_def] = inl (no_normal_mode "golden-signals"%js).
Proof. reflexivity. Qed.
Definition nodes_def : WidgetDef :=
  {| def_id := "nodes"%js; scopes := [overview]; sources := ["dashboard-summary"%js];
     optionalSources := None; familyStatus := None; adminOnly := false;
     minW := 3; minH := 3; defaultW := 4; defaultH := 5; def_params := None;
     modes := [normal_mode; expanded_mode] |}.
Definition signals_def : WidgetDef :=
  {| def_id := "golden-signals"%js; scopes := [overview]; sources := ["mesh-golden-signals"%js];
     optionalSources := None; familyStatus := Some "mesh-status"%js; adminOnly := false;
     minW := 3; minH := 4; defaultW := 4; defaultH := 4;
     def_params := Some [(PARAM_KEY_NAMESPACE, []); (PARAM_KEY_SERVICE, [])];
     modes := [compact_mode; normal_mode] |}.
Lemma registry_sound_witness :
  getWidget [nodes_def; signals_def] "golden-signals"%js = Some signals_def.
Proof.
  destruct (registry_sound [nodes_def; signals_def] [nodes_def; signals_def]) as (_ & _ & H & _).
  - repeat constructor; by apply (bool_decide_unpack _).
  - vm_compute. reflexivity.
  - apply (H signals_def). right. left.
Defined.
Lemma pickMode_best_witness :
  pickMode [compact_mode; normal_mode] NaN (of_Z 900) ∈ [compact_mode; normal_mode].
Proof. apply (pickMode_best [compact_mode; normal_mode] NaN (of_Z 900)). discriminate. Defined.
