(* ===== verification/LayoutValidate.v ===== *)
(** * What the server will store: backend/internal/preferences/dashboard.go

    The validator every save passes through, with the string and integer
    checks of types.go it calls. A request body reaches it as JSON, so strings
    are Go strings (UTF-8, a lone surrogate of the sender's replaced) and
    coordinates are 64-bit integers whose sums wrap. The declarative
    specification is [layout_valid]; the validator is proved to accept exactly
    the layouts that satisfy it and to store them in a normal form. *)

From stdpp Require Import base list strings gmap sorting.
From Stdlib Require Import ZArith NArith Lia.
From S2P Require Import Prelude JsValue Uri Types Params Grid EditSession.

Open Scope Z_scope.

(** ** Strings and integers on the wire *)

(** The code points of a JavaScript string as encoding/json decodes them: a
    surrogate without its partner becomes U+FFFD. *)
Fixpoint runes (l : list N) : list N :=
  match l with
  | [] => []
  | c :: l' =>
      if high_surrogate c then
        match l' with
        | d :: l'' => if low_surrogate d then code_point c d :: runes l'' else 65533%N :: runes l'
        | [] => [65533%N]
        end
      else if low_surrogate c then 65533%N :: runes l'
      else c :: runes l'
  end.
Definition to_utf16 (rs : list N) : list N :=
  rs ≫= λ r, if (r <? 65536)%N then [r]
             else [55296 + (r - 65536) / 1024; 56320 + (r - 65536) mod 1024]%N.
(** A string after the trip through JSON, as the client would read it back. *)
Definition wire_string (s : jstring) : jstring := JS (to_utf16 (runes (units s))).
(** The bytes Go holds it as. *)
Definition go_bytes (s : jstring) : jstring := JS (runes (units s) ≫= utf8_bytes).
(** [utf8.RuneCountInString] *)
Definition rune_count (s : jstring) : nat := length (runes (units s)).

Definition int64_min : Z := - 2 ^ 63.
Definition int64_max : Z := 2 ^ 63 - 1.
(** A JSON number that does not fit fails the decoding. *)
Definition fits_int64 (z : Z) : bool := (int64_min <=? z) && (z <=? int64_max).
(** [+] on 64-bit integers. *)
Definition add64 (a b : Z) : Z := (a + b + 2 ^ 63) mod 2 ^ 64 - 2 ^ 63.

(** ** The catalog *)

Record widgetSpec := { MinW : Z; MinH : Z; Params : list (jstring * list jstring) }.
Definition sized (mw mh : Z) : widgetSpec := {| MinW := mw; MinH := mh; Params := [] |}.
Definition allowedWidgets : list (jstring * widgetSpec) :=
  [("cluster-health", sized 3 4); ("cluster-topology", sized 6 4); ("cpu-tile", sized 2 2);
   ("memory-tile", sized 2 2); ("pods-tile", sized 2 2); ("network-tile", sized 2 2);
   ("resource-utilization", sized 4 4); ("pod-status", sized 3 4); ("nodes", sized 3 4);
   ("recent-events", sized 3 3); ("active-alerts", sized 2 3); ("workload-health", sized 3 3);
   ("pending-pods", sized 3 3); ("pod-restarts", sized 3 3); ("hpa-status", sized 3 3);
   ("pdb-risk", sized 3 3); ("quota-pressure", sized 3 3); ("node-conditions", sized 4 3);
   ("storage-capacity", sized 4 4); ("top-consumers", sized 4 4);
   ("diagnostics-summary", {| MinW := 3; MinH := 3; Params := [(PARAM_KEY_NAMESPACE, [])] |});
   ("policy-compliance", sized 3 4); ("policy-violations", sized 4 3);
   ("vulnerability-severity", {| MinW := 4; MinH := 3; Params := [(PARAM_KEY_NAMESPACE, [])] |});
   ("certs-expiring", sized 4 3); ("eso-health", sized 4 3); ("velero-backups", sized 4 3);
   ("snapshot-health", sized 4 3); ("gitops-app-health", sized 4 3);
   ("gitops-recent-syncs", sized 4 3); ("mtls-coverage", sized 4 3); ("gateway-routes", sized 4 3);
   ("hubble-flows", {| MinW := 4; MinH := 3; Params := [(PARAM_KEY_NAMESPACE, [])] |});
   ("cluster-status", sized 4 3); ("notifications-feed", sized 4 3); ("audit-activity", sized 5 3);
   ("saved-views", sized 3 3); ("pinned-resources", sized 3 3);
   ("mesh-golden-signals",
     {| MinW := 3; MinH := 3; Params := [(PARAM_KEY_NAMESPACE, []); (PARAM_KEY_SERVICE, [])] |})]%js.
Definition allowedDashboardScopes : list jstring := ["overview"%js].
Definition paramValueShapes : list (jstring * (jstring → bool)) := [(PARAM_KEY_SERVICE, service_shape)].

Definition dashboardColumns : Z := 12.
Definition maxDashboardItems : nat := 40.
Definition maxWidgetIDLen : nat := 64.
Definition maxInstanceIDLen : nat := 64.
Definition maxDashboardParams : nat := 8.
Definition maxParamKeyLen : nat := 32.
Definition maxParamValueLen : nat := 253.
Definition maxDashboardRows : Z := 200.

(** ** The checks of types.go *)

Definition hasControlChars (s : jstring) : bool := existsb is_control (runes (units s)).
(** The loop of [isDNS1123Label] from position [i] of a string of [n] units. *)
Fixpoint label_loop (i n : nat) (l : list N) : bool :=
  match l with
  | [] => true
  | c :: l' =>
      (if is_alnum c then true
       else if (c =? 45)%N then negb ((i =? 0)%nat || (i =? n - 1)%nat)
       else false) && label_loop (S i) n l'
  end.
Definition isDNS1123Label (l : list N) : bool :=
  match l with [] => false | _ => label_loop 0 (length l) l end.
(** [strings.Split(s, ".")] *)
Fixpoint split_dots (l : list N) : list (list N) :=
  match l with
  | [] => [[]]
  | c :: l' =>
      if (c =? 46)%N then [] :: split_dots l'
      else match split_dots l' with
           | part :: parts => (c :: part) :: parts
           | [] => [[c]]
           end
  end.
Definition isDNS1123Subdomain (s : jstring) : bool :=
  match units s with [] => false | l => forallb isDNS1123Label (split_dots l) end.

(** ** The validator *)

Definition itemsOverlap (a b : LayoutItem) : bool :=
  negb ((add64 (x a) (w a) <=? x b) || (add64 (x b) (w b) <=? x a)
        || (add64 (y a) (h a) <=? y b) || (add64 (y b) (h b) <=? y a)).

(** The bytes of the identity, the keys in byte order. *)
Definition go_compare (a b : jstring) : comparison := js_compare (go_bytes a) (go_bytes b).
Definition go_canonicalParams (p : list (jstring * jstring)) : jstring :=
  js_concat ((λ k, encode_pair (go_bytes k, go_bytes (own_value p k))) <$> js_sort go_compare p.*1).
Definition identity (it : LayoutItem) : jstring :=
  (go_bytes (id it) +++ JS [0%N] +++ go_canonicalParams (default [] (params it)))%js.

(** [json.Unmarshal]: [None] when a number does not fit. A map is a list of
    entries with distinct keys; a nil one is empty. *)
Definition decode_params (p : option (list (jstring * jstring))) : list (jstring * jstring) :=
  foldl (λ m kv, assoc_set (wire_string kv.1) (wire_string kv.2) m) [] (default [] p).
Definition decode_item (it : LayoutItem) : option LayoutItem :=
  if fits_int64 (x it) && fits_int64 (y it) && fits_int64 (w it) && fits_int64 (h it) then
    Some {| instanceId := wire_string (instanceId it); id := wire_string (id it);
            x := x it; y := y it; w := w it; h := h it; params := Some (decode_params (params it)) |}
  else None.
Definition decode_layout (raw : DashboardLayoutConfig) : option DashboardLayoutConfig :=
  if fits_int64 (schemaVersion raw) && fits_int64 (columns raw) then
    items ← mapM decode_item (config_items raw);
    Some {| schemaVersion := schemaVersion raw; scope := wire_string (scope raw);
            columns := columns raw; config_items := items |}
  else None.

(** [json.Marshal]: an empty map is omitted, keys come out sorted. *)
Definition marshal_item (it : LayoutItem) : LayoutItem :=
  let p := default [] (params it) in
  {| instanceId := instanceId it; id := id it; x := x it; y := y it; w := w it; h := h it;
     params := match p with
               | [] => None
               | _ => Some ((λ k, (k, own_value p k)) <$> js_sort go_compare p.*1)
               end |}.
Definition marshal_layout (cfg : DashboardLayoutConfig) : DashboardLayoutConfig :=
  with_items cfg (marshal_item <$> config_items cfg).

Definition invalid_config : jstring := "invalid_config"%js.
Definition unknown_widget_id : jstring := "unknown_widget_id"%js.
Definition unsupported_schema_version : jstring := "unsupported_schema_version"%js.

(** One entry of the map: [true] when it is refused. *)
Definition param_refused (declared : list (jstring * list jstring)) (kv : jstring * jstring) : bool :=
  let '(k, v) := kv in
  js_eqb k "" || (maxParamKeyLen <? rune_count k)%nat || hasControlChars k
  || (maxParamValueLen <? rune_count v)%nat || hasControlChars v
  || js_eqb v ""
  || match assoc k declared with
     | None => true
     | Some allowed =>
         match allowed with
         | [] => match assoc k paramValueShapes with
                 | Some shape => negb (shape v)
                 | None => false
                 end
         | _ => negb (bool_decide (v ∈ allowed))
         end
     end.

(** The body of the loop over the placements. A refused parameter has the same
    reason whichever entry of the map is met first. *)
Definition validate_item (cols : Z) (seen : list jstring * list jstring) (it : LayoutItem)
    : jstring + list jstring * list jstring :=
  let '(seenInstance, seenIdentity) := seen in
  if js_eqb (instanceId it) "" || (maxInstanceIDLen <? rune_count (instanceId it))%nat
     || negb (isDNS1123Subdomain (instanceId it)) then inl invalid_config
  else if bool_decide (instanceId it ∈ seenInstance) then inl invalid_config
  else if (maxWidgetIDLen <? rune_count (id it))%nat then inl invalid_config
  else match assoc (id it) allowedWidgets with
  | None => inl unknown_widget_id
  | Some spec =>
      let mw := if MinW spec <? 1 then 1 else MinW spec in
      let mh := if MinH spec <? 1 then 1 else MinH spec in
      let p := default [] (params it) in
      if (w it <? mw) || (cols <? w it) then inl invalid_config
      else if (h it <? mh) || (maxDashboardRows <? h it) then inl invalid_config
      else if (x it <? 0) || (cols <=? x it) then inl invalid_config
      else if cols <? add64 (x it) (w it) then inl invalid_config
      else if (y it <? 0) || (maxDashboardRows <=? y it) then inl invalid_config
      else if maxDashboardRows <? add64 (y it) (h it) then inl invalid_config
      else if (maxDashboardParams <? length p)%nat then inl invalid_config
      else if (length (Params spec) =? 0)%nat && (0 <? length p)%nat then inl invalid_config
      else if existsb (param_refused (Params spec)) p then inl invalid_config
      else if existsb (λ k, negb (bool_decide (k ∈ p.*1))) (Params spec).*1 then inl invalid_config
      else if bool_decide (identity it ∈ seenIdentity) then inl invalid_config
      else inr (instanceId it :: seenInstance, identity it :: seenIdentity)
  end.
Fixpoint validate_items (cols : Z) (seen : list jstring * list jstring) (items : list LayoutItem)
    : option jstring :=
  match items with
  | [] => None
  | it :: items' =>
      match validate_item cols seen it with
      | inl reason => Some reason
      | inr seen' => validate_items cols seen' items'
      end
  end.
(** The two nested loops at the end. *)
Fixpoint overlap_found (items : list LayoutItem) : bool :=
  match items with
  | [] => false
  | a :: items' => existsb (itemsOverlap a) items' || overlap_found items'
  end.

(** [inl] is the reason of the refusal, [inr] what is stored. *)
Definition ValidateDashboardLayout (raw : DashboardLayoutConfig) : jstring + DashboardLayoutConfig :=
  match decode_layout raw with
  | None => inl invalid_config
  | Some cfg =>
      if negb (schemaVersion cfg =? DASHBOARD_LAYOUT_SCHEMA_VERSION) then inl unsupported_schema_version
      else if negb (bool_decide (scope cfg ∈ allowedDashboardScopes)) then inl invalid_config
      else if negb (columns cfg =? dashboardColumns) then inl invalid_config
      else if (maxDashboardItems <? length (config_items cfg))%nat then inl invalid_config
      else match validate_items (columns cfg) ([], []) (config_items cfg) with
      | Some reason => inl reason
      | None =>
          if overlap_found (config_items cfg) then inl invalid_config
          else inr (marshal_layout cfg)
      end
  end.

(** ** Strings after the trip *)

Definition scalar (r : N) : Prop := (r < 1114112)%N ∧ (r < 55296 ∨ 57343 < r)%N.
Definition wire_ok (s : jstring) : Prop := js_units s ∧ wire_string s = s.

Lemma high_surrogate_spec c : high_surrogate c = true ↔ (55296 <= c <= 56319)%N.
Proof. unfold high_surrogate, in_range. rewrite andb_true_iff, !N.leb_le. lia. Qed.
Lemma low_surrogate_spec c : low_surrogate c = true ↔ (56320 <= c <= 57343)%N.
Proof. unfold low_surrogate, in_range. rewrite andb_true_iff, !N.leb_le. lia. Qed.
Lemma high_surrogate_false c : high_surrogate c = false ↔ (c < 55296 ∨ 56319 < c)%N.
Proof. rewrite <- not_true_iff_false, high_surrogate_spec. lia. Qed.
Lemma low_surrogate_false c : low_surrogate c = false ↔ (c < 56320 ∨ 57343 < c)%N.
Proof. rewrite <- not_true_iff_false, low_surrogate_spec. lia. Qed.
Ltac surrogates :=
  rewrite ?high_surrogate_spec, ?low_surrogate_spec, ?high_surrogate_false, ?low_surrogate_false in *.

Lemma runes_scalar l : Forall is_unit l → Forall scalar (runes l).
Proof.
  remember (length l) as n eqn:Hn. revert l Hn.
  induction n as [n IH] using (well_founded_induction lt_wf). intros l -> Hu.
  destruct Hu as [|c l Hc Hu]; [constructor|]. cbn [runes].
  assert (IHl : Forall scalar (runes l)) by (eapply IH; [|done|done]; simpl; lia).
  unfold is_unit in Hc. destruct (high_surrogate c) eqn:Eh.
  - destruct l as [|d l]; [by repeat constructor|]. destruct (low_surrogate d) eqn:El.
    + apply Forall_cons in Hu as [Hd Hu]. constructor.
      * pose proof (code_point_range c d Eh El). split; lia.
      * eapply IH; [|done|done]. simpl. lia.
    + constructor; [split; lia|done].
  - destruct (low_surrogate c) eqn:El; constructor; try done; surrogates; split; lia.
Qed.

Lemma to_utf16_cons r rs : to_utf16 (r :: rs) =
  (if (r <? 65536)%N then [r] else [55296 + (r - 65536) / 1024; 56320 + (r - 65536) mod 1024]%N)
  ++ to_utf16 rs.
Proof. done. Qed.
Lemma pair_parts r : (65536 <= r)%N → (r < 1114112)%N →
  ((r - 65536) / 1024 <= 1023 ∧ (r - 65536) mod 1024 <= 1023 ∧
   (r - 65536) / 1024 * 1024 + (r - 65536) mod 1024 = r - 65536)%N.
Proof. intros. zify. Z.to_euclidean_division_equations. lia. Qed.
Lemma runes_to_utf16 rs : Forall scalar rs → runes (to_utf16 rs) = rs.
Proof.
  induction 1 as [|r rs [Hr Hs] Hrs IH]; [done|]. rewrite to_utf16_cons.
  destruct (N.ltb_spec r 65536) as [Hlt|Hge]; cbn [app runes].
  - assert (high_surrogate r = false) as -> by (surrogates; lia).
    assert (low_surrogate r = false) as -> by (surrogates; lia). by rewrite IH.
  - pose proof (pair_parts r Hge Hr) as Hp. revert Hp.
    generalize ((r - 65536) / 1024)%N, ((r - 65536) mod 1024)%N. intros q m (Hq & Hm & E).
    assert (high_surrogate (55296 + q) = true) as -> by (apply high_surrogate_spec; lia).
    assert (low_surrogate (56320 + m) = true) as -> by (apply low_surrogate_spec; lia).
    rewrite IH. f_equal. unfold code_point. lia.
Qed.
Lemma to_utf16_units rs : Forall scalar rs → Forall is_unit (to_utf16 rs).
Proof.
  induction 1 as [|r rs [Hr Hs] Hrs IH]; [constructor|]. rewrite to_utf16_cons.
  apply Forall_app. split; [|done]. unfold is_unit.
  destruct (N.ltb_spec r 65536) as [|Hge]; [by repeat constructor|].
  pose proof (pair_parts r Hge Hr) as Hp. revert Hp.
  generalize ((r - 65536) / 1024)%N, ((r - 65536) mod 1024)%N. intros q m (Hq & Hm & _).
  repeat constructor; lia.
Qed.
Lemma wire_string_ok s : js_units s → wire_ok (wire_string s).
Proof.
  intros Hs. pose proof (runes_scalar _ Hs) as Hr. split.
  - by apply to_utf16_units.
  - unfold wire_string. cbn [units]. by rewrite runes_to_utf16.
Qed.

Lemma utf8_inj rs rs' : Forall scalar rs → Forall scalar rs' →
  rs ≫= utf8_bytes = rs' ≫= utf8_bytes → rs = rs'.
Proof.
  intros Hrs. revert rs'. induction Hrs as [|r rs [Hr _] Hrs IH]; intros rs' Hrs'.
  - destruct Hrs' as [|r' rs' [Hr' _] _]; [done|]. cbn.
    by destruct (utf8_bytes_head r' Hr') as (b & l & -> & _).
  - destruct Hrs' as [|r' rs' [Hr' _] Hrs']; cbn.
    { by destruct (utf8_bytes_head r Hr) as (b & l & -> & _). }
    intros E. destruct (utf8_bytes_head r Hr) as (b & l & El & Ll).
    destruct (utf8_bytes_head r' Hr') as (b' & l' & El' & Ll').
    assert (b = b') as <- by (rewrite El, El' in E; by injection E as <- _).
    apply app_inj_1 in E as [E1 E2]; [|congruence].
    apply utf8_bytes_inj in E1; [|done..]. subst. f_equal. by apply IH.
Qed.
Lemma go_bytes_inj s t : wire_ok s → wire_ok t → go_bytes s = go_bytes t → s = t.
Proof.
  intros [Hs Es] [Ht Et] E. injection E as E. apply utf8_inj in E; [|by apply runes_scalar..].
  rewrite <- Es, <- Et. unfold wire_string. by rewrite E.
Qed.

(** A decoded map, and a decoded placement. *)
Definition wire_params (p : list (jstring * jstring)) : Prop :=
  NoDup p.*1 ∧ Forall (λ kv, wire_ok kv.1 ∧ wire_ok kv.2) p.
Definition params_of (it : LayoutItem) : list (jstring * jstring) := default [] (params it).
Definition wire_item (it : LayoutItem) : Prop :=
  wire_ok (instanceId it) ∧ wire_ok (id it) ∧ wire_params (params_of it).
(** A JavaScript string is a sequence of 16-bit units; so are the strings of a
    layout the client holds. *)
Definition sendable (it : LayoutItem) : Prop :=
  js_units (instanceId it) ∧ js_units (id it) ∧
  Forall (λ kv, js_units kv.1 ∧ js_units kv.2) (params_of it).

Lemma assoc_set_Forall {V} (P : jstring * V → Prop) k v l :
  P (k, v) → Forall P l → Forall P (assoc_set k v l).
Proof.
  intros Hk. induction 1 as [|[k' v'] l H Hl IH]; cbn [assoc_set]; [by repeat constructor|].
  case_decide; by constructor.
Qed.
Lemma decode_params_ok p :
  Forall (λ kv, js_units kv.1 ∧ js_units kv.2) (default [] p) → wire_params (decode_params p).
Proof.
  unfold decode_params. generalize (default [] p). intros l Hl.
  assert (H : ∀ m, wire_params m →
    wire_params (foldl (λ m kv, assoc_set (wire_string kv.1) (wire_string kv.2) m) m l)).
  2:{ apply H. split; constructor. }
  induction Hl as [|[k v] l [Hk Hv] Hl IH]; intros m [Hnd Hm]; [done|]. cbn [foldl fst snd] in *.
  apply IH. split; [by apply assoc_set_keys_NoDup|].
  apply wire_string_ok in Hk, Hv. by apply assoc_set_Forall.
Qed.

#[export] Instance go_compare_comparator : Comparator go_compare.
Proof. apply (cmp_on_comparator go_bytes js_compare). apply _. Qed.

Lemma map_bytes_inj l k :
  Forall wire_ok l → Forall wire_ok k → go_bytes <$> l = go_bytes <$> k → l = k.
Proof.
  intros Hl. revert k. induction Hl as [|a l Ha Hl IH]; intros [|b k] Hk E; try done.
  apply Forall_cons in Hk as [Hb Hk]. rewrite !fmap_cons in E. apply (inj2 cons) in E as [E1 E2].
  f_equal; [by apply go_bytes_inj|by apply IH].
Qed.
(** Sorting by bytes is sorting the bytes. *)
Lemma sort_insert_fmap {A B} (f : A → B) (c : B → B → comparison) a l :
  f <$> sort_insert (λ u v, c (f u) (f v)) a l = sort_insert c (f a) (f <$> l).
Proof. induction l as [|b l IH]; [done|]. cbn. destruct (c (f a) (f b)); cbn; by rewrite ?IH. Qed.
Lemma js_sort_fmap {A B} (f : A → B) (c : B → B → comparison) l :
  f <$> js_sort (λ u v, c (f u) (f v)) l = js_sort c (f <$> l).
Proof.
  unfold js_sort. induction l as [|a l IH]; [done|]. rewrite fmap_cons. cbn [foldr].
  by rewrite sort_insert_fmap, IH.
Qed.
Lemma wire_keys p : wire_params p → Forall wire_ok p.*1.
Proof. intros [_ H]. induction H as [|kv p [? _] _ IH]; constructor; done. Qed.
Lemma go_sort_perm l k : Forall wire_ok l → l ≡ₚ k → js_sort go_compare l = js_sort go_compare k.
Proof.
  intros Hl Hp. apply map_bytes_inj.
  1-2: by rewrite js_sort_perm, <- ?Hp.
  unfold go_compare. rewrite !(js_sort_fmap go_bytes js_compare).
  apply js_sort_strings_perm. by rewrite Hp.
Qed.

(** The pairs of a map in the order they are written. *)
Definition go_sorted (p : list (jstring * jstring)) : list (jstring * jstring) :=
  (λ k, (k, own_value p k)) <$> js_sort go_compare p.*1.
Lemma go_sorted_perm p : NoDup p.*1 → go_sorted p ≡ₚ p.
Proof. intros Hnd. unfold go_sorted. by rewrite js_sort_perm, own_value_pairs. Qed.
Lemma go_sorted_proper p q : wire_params p → p ≡ₚ q → go_sorted p = go_sorted q.
Proof.
  intros Hp Hpq. unfold go_sorted. rewrite (go_sort_perm p.*1 q.*1); [|by apply wire_keys|by rewrite Hpq].
  apply list_fmap_ext. intros i k _. unfold own_value. rewrite (assoc_perm p q); [done|apply Hp|done].
Qed.
Lemma wire_params_perm p q : p ≡ₚ q → wire_params p → wire_params q.
Proof. intros E [H1 H2]. split; by rewrite <- E. Qed.

Lemma go_canonicalParams_eq p q : wire_params p → wire_params q →
  go_canonicalParams p = go_canonicalParams q ↔ p ≡ₚ q.
Proof.
  intros Hp Hq.
  assert (E : ∀ r, go_canonicalParams r =
    js_concat (encode_pair <$> (prod_map go_bytes go_bytes <$> go_sorted r))).
  { intros r. unfold go_canonicalParams, go_sorted. by rewrite <- !list_fmap_compose. }
  rewrite !E. split; [|by intros Hpq; rewrite (go_sorted_proper p q)].
  intros H%encode_pairs_inj. rewrite <- (go_sorted_perm p), <- (go_sorted_perm q) by (apply Hp || apply Hq).
  assert (Hw : ∀ r, wire_params r → Forall (λ kv, wire_ok kv.1 ∧ wire_ok kv.2) (go_sorted r)).
  { intros r Hr. rewrite go_sorted_perm by apply Hr. apply Hr. }
  apply Hw in Hp, Hq. clear Hw E. revert H Hp Hq. generalize (go_sorted p), (go_sorted q). clear p q.
  intros l. induction l as [|[k v] l IH]; intros [|[k' v'] l'] H Hp Hq; try done.
  apply Forall_cons in Hp as [[Wk Wv] Hp], Hq as [[Wk' Wv'] Hq]. rewrite !fmap_cons in H.
  apply (inj2 cons) in H as [H0 H]. apply (inj2 pair) in H0 as [H1 H2]. cbn [fst snd] in *.
  apply go_bytes_inj in H1, H2; [|done..]. subst. f_equiv. by apply IH.
Qed.

(** [\x00] ends the id: no id of the catalog contains it. *)
Lemma allowed_no_nul k spec : assoc k allowedWidgets = Some spec → 0%N ∉ units (go_bytes k).
Proof.
  intros H%assoc_elem_of.
  assert (Forall (λ kv, 0%N ∉ units (go_bytes kv.1)) allowedWidgets) as Hall
    by (apply (bool_decide_unpack _); vm_compute; exact I).
  rewrite Forall_forall in Hall. apply (Hall _ H).
Qed.
Lemma identity_eq a b sa sb :
  wire_item a → wire_item b →
  assoc (id a) allowedWidgets = Some sa → assoc (id b) allowedWidgets = Some sb →
  identity a = identity b ↔ id a = id b ∧ params_of a ≡ₚ params_of b.
Proof.
  intros (_ & Ha & Hpa) (_ & Hb & Hpb) Hsa%allowed_no_nul Hsb%allowed_no_nul.
  unfold identity. split.
  - intros E. apply (f_equal units) in E. cbn [units js_app] in E.
    apply split_unique in E as [E1 E2]; [|done..].
    split; [apply go_bytes_inj; [done..|]; destruct (go_bytes (id a)), (go_bytes (id b)); cbn in *; congruence|].
    apply (go_canonicalParams_eq _ _ Hpa Hpb). unfold params_of.
    destruct (go_canonicalParams (default [] (params a))), (go_canonicalParams (default [] (params b))).
    cbn in *. congruence.
  - intros [-> E]. do 2 f_equal. by apply go_canonicalParams_eq.
Qed.

(** ** What a stored layout is *)

(** What a value of a parameter may be. *)
Definition value_ok (k v : jstring) : Prop :=
  v ≠ ""%js ∧ (rune_count v ≤ maxParamValueLen)%nat ∧ hasControlChars v = false ∧
  (k = PARAM_KEY_SERVICE → service_shape v = true).
Definition id_ok (i : jstring) : Prop :=
  (rune_count i ≤ maxInstanceIDLen)%nat ∧ isDNS1123Subdomain i = true.
(** A placement of a widget of the catalog, at its minimum size or larger,
    inside the grid, carrying a value for exactly the parameters it declares. *)
Definition box_ok (spec : widgetSpec) (it : LayoutItem) : Prop :=
  MinW spec <= w it ∧ MinH spec <= h it ∧ 0 <= x it ∧ x it + w it <= dashboardColumns ∧
  0 <= y it ∧ y it + h it <= maxDashboardRows.
Definition params_ok (spec : widgetSpec) (p : list (jstring * jstring)) : Prop :=
  p.*1 ≡ₚ (Params spec).*1 ∧ Forall (λ kv, value_ok kv.1 kv.2) p.
Definition placement_ok (it : LayoutItem) : Prop :=
  id_ok (instanceId it) ∧
  ∃ spec, assoc (id it) allowedWidgets = Some spec ∧ box_ok spec it ∧ params_ok spec (params_of it).
(** The same card twice. *)
Definition same_card (a b : LayoutItem) : Prop := id a = id b ∧ params_of a ≡ₚ params_of b.
Definition layout_valid (cfg : DashboardLayoutConfig) : Prop :=
  schemaVersion cfg = DASHBOARD_LAYOUT_SCHEMA_VERSION ∧ scope cfg = scope_text overview ∧
  columns cfg = dashboardColumns ∧ (length (config_items cfg) ≤ maxDashboardItems)%nat ∧
  NoDup (ids (config_items cfg)) ∧ Forall placement_ok (config_items cfg) ∧
  NoOverlap (config_items cfg) ∧ ForallOrdPairs (λ a b, ¬ same_card a b) (config_items cfg).

(** What every entry of the catalog satisfies. *)
Definition spec_sane (kv : jstring * widgetSpec) : Prop :=
  (rune_count kv.1 ≤ maxWidgetIDLen)%nat ∧ 1 <= MinW kv.2 ∧ 1 <= MinH kv.2 ∧
  NoDup (Params kv.2).*1 ∧ (length (Params kv.2) ≤ maxDashboardParams)%nat ∧
  Forall (λ d, d.2 = [] ∧ d.1 ≠ ""%js ∧ (rune_count d.1 ≤ maxParamKeyLen)%nat ∧
               hasControlChars d.1 = false) (Params kv.2).
Lemma allowed_sane k spec : assoc k allowedWidgets = Some spec → spec_sane (k, spec).
Proof.
  intros H%assoc_elem_of. revert H.
  assert (Forall spec_sane allowedWidgets) as Hall.
  { unfold spec_sane. apply (bool_decide_unpack _). vm_compute. exact I. }
  rewrite Forall_forall in Hall. apply Hall.
Qed.

Lemma add64_exact a b : 0 <= a <= 2 ^ 62 → 0 <= b < 2 ^ 62 → add64 a b = a + b.
Proof.
  intros. unfold add64. rewrite Z.mod_small; [lia|].
  change (2 ^ 62) with 4611686018427387904 in *. change (2 ^ 63) with 9223372036854775808.
  change (2 ^ 64) with 18446744073709551616. lia.
Qed.

(** One entry of the map, once its key is known to be declared. *)
Lemma param_refused_spec (spec : widgetSpec) wid k v :
  spec_sane (wid, spec) → param_refused (Params spec) (k, v) = false ↔
    k ∈ (Params spec).*1 ∧ value_ok k v.
Proof.
  intros (_ & _ & _ & _ & _ & Hd). cbn [snd] in Hd. unfold param_refused, value_ok.
  destruct (assoc k (Params spec)) as [allowed|] eqn:Ek.
  2:{ apply assoc_None in Ek. rewrite !orb_true_r. split; [done|tauto]. }
  assert (Hin : k ∈ (Params spec).*1) by (apply assoc_is_Some; by eexists).
  apply assoc_elem_of in Ek. rewrite Forall_forall in Hd. destruct (Hd _ Ek) as (Ea & Hk & Hkl & Hkc).
  cbn [fst snd] in *. subst allowed. rewrite (proj2 (js_eqb_neq k _)), Hkc by done.
  rewrite (proj2 (Nat.ltb_ge _ _) Hkl). cbn [orb].
  rewrite !orb_false_iff, Nat.ltb_ge, js_eqb_neq. cbn [assoc paramValueShapes].
  case_decide as E; [rewrite negb_false_iff|]; naive_solver.
Qed.

(** ** The validator decides it *)

Lemma guard_inr {A B} (c : bool) (e : A) (k : A + B) s :
  (if c then inl e else k) = inr s ↔ c = false ∧ k = inr s.
Proof. destruct c; naive_solver. Qed.
Lemma existsb_false {A} (f : A → bool) l : existsb f l = false ↔ Forall (λ a, f a = false) l.
Proof.
  induction l as [|a l IH]; [done|]. cbn [existsb]. by rewrite orb_false_iff, IH, Forall_cons.
Qed.

Lemma params_check spec wid p : spec_sane (wid, spec) → NoDup p.*1 →
  ((maxDashboardParams <? length p)%nat = false ∧
   (length (Params spec) =? 0)%nat && (0 <? length p)%nat = false ∧
   existsb (param_refused (Params spec)) p = false ∧
   existsb (λ k, negb (bool_decide (k ∈ p.*1))) (Params spec).*1 = false) ↔ params_ok spec p.
Proof.
  intros Hs Hnd. assert (Hs' := Hs). destruct Hs' as (_ & _ & _ & Hsd & Hlen & _). cbn [snd] in *.
  rewrite !existsb_false. unfold params_ok.
  assert (Hf : Forall (λ kv, param_refused (Params spec) kv = false) p ↔
    Forall (λ kv, kv.1 ∈ (Params spec).*1 ∧ value_ok kv.1 kv.2) p).
  { apply Forall_iff. intros [k v]. by apply (param_refused_spec spec wid). }
  rewrite Hf, Forall_and. clear Hf. split.
  - intros (_ & _ & [Hin Hv] & Hall). split; [|done]. apply NoDup_Permutation; [exact Hnd|exact Hsd|]. intros k. split.
    + intros ([k' v'] & -> & Hkv)%list_elem_of_fmap. rewrite Forall_forall in Hin. by apply Hin.
    + rewrite Forall_forall in Hall. intros Hk%Hall. reflect_bools. done.
  - intros [Hp Hv]. assert (Hl : length p = length (Params spec)).
    { apply Permutation_length in Hp. by rewrite !length_fmap in Hp. }
    rewrite Hl. split; [by apply Nat.ltb_ge|]. split; [destruct (Params spec); done|].
    split; [split; [|done]|]; rewrite Forall_forall.
    + intros kv Hkv. rewrite <- Hp. apply list_elem_of_fmap. by exists kv.
    + intros k Hk. rewrite <- Hp in Hk. by rewrite bool_decide_eq_true_2.
Qed.

Lemma box_check spec wid it : spec_sane (wid, spec) →
  let mw := if MinW spec <? 1 then 1 else MinW spec in
  let mh := if MinH spec <? 1 then 1 else MinH spec in
  ((w it <? mw) || (dashboardColumns <? w it) = false ∧
   (h it <? mh) || (maxDashboardRows <? h it) = false ∧
   (x it <? 0) || (dashboardColumns <=? x it) = false ∧
   (dashboardColumns <? add64 (x it) (w it)) = false ∧
   (y it <? 0) || (maxDashboardRows <=? y it) = false ∧
   (maxDashboardRows <? add64 (y it) (h it)) = false) ↔ box_ok spec it.
Proof.
  intros (_ & Hw & Hh & _) mw mh. cbn [snd] in *. unfold box_ok, dashboardColumns, maxDashboardRows in *.
  assert (mw = MinW spec) as -> by (unfold mw; destruct (Z.ltb_spec (MinW spec) 1); lia).
  assert (mh = MinH spec) as -> by (unfold mh; destruct (Z.ltb_spec (MinH spec) 1); lia).
  rewrite !orb_false_iff, !Z.ltb_ge, !Z.leb_gt. split.
  - intros ((? & ?) & (? & ?) & (? & ?) & Hx & (? & ?) & Hy).
    rewrite add64_exact in Hx, Hy by lia. lia.
  - intros. rewrite !add64_exact by lia. lia.
Qed.

Lemma validate_item_spec seen it seen' : wire_item it →
  validate_item dashboardColumns seen it = inr seen' ↔
  placement_ok it ∧ (instanceId it ∉ seen.1) ∧ (identity it ∉ seen.2) ∧
  seen' = (instanceId it :: seen.1, identity it :: seen.2).
Proof.
  intros (_ & _ & Hnd & _). destruct seen as [s1 s2]. unfold validate_item, placement_ok.
  fold (params_of it). rewrite !guard_inr. cbn [fst snd].
  assert (Hid : ((js_eqb (instanceId it) "" || (maxInstanceIDLen <? rune_count (instanceId it))%nat)
     || negb (isDNS1123Subdomain (instanceId it))) = false ↔ id_ok (instanceId it)).
  { unfold id_ok. rewrite !orb_false_iff, js_eqb_neq, Nat.ltb_ge, negb_false_iff.
    split; [tauto|]. intros [? Hd]. split; [split; [|done]|done]. by intros E; rewrite E in Hd. }
  rewrite Hid, bool_decide_eq_false. clear Hid.
  destruct (assoc (id it) allowedWidgets) as [spec|] eqn:Es; [|naive_solver].
  pose proof (allowed_sane _ _ Es) as Hs. rewrite Nat.ltb_ge.
  rewrite !guard_inr. cbn zeta. rewrite bool_decide_eq_false.
  pose proof (box_check spec _ it Hs) as Hbox. pose proof (params_check spec _ (params_of it) Hs Hnd) as Hpar.
  cbn zeta in Hbox. destruct Hs as (Hlen & _). cbn [fst] in Hlen. split.
  - intros (H1 & H2 & _ & B1 & B2 & B3 & B4 & B5 & B6 & P1 & P2 & P3 & P4 & Hi & [= <-]).
    split_and!; try done. exists spec. split; [done|]. tauto.
  - intros ((H1 & spec' & [= <-] & Hb & Hp) & H2 & H3 & ->).
    apply Hbox in Hb. apply Hpar in Hp. tauto.
Qed.

Lemma Forall_not_seen (a : jstring) s l :
  Forall (λ i, i ∉ a :: s) l ↔ (a ∉ l) ∧ Forall (λ i, i ∉ s) l.
Proof.
  induction l as [|b l IH]; [split; [by repeat constructor; intros ?%elem_of_nil|done]|].
  rewrite !Forall_cons, IH, !not_elem_of_cons. naive_solver.
Qed.
Lemma validate_items_spec seen items : Forall wire_item items →
  validate_items dashboardColumns seen items = None ↔
  Forall placement_ok items ∧
  NoDup (ids items) ∧ Forall (λ i, i ∉ seen.1) (ids items) ∧
  NoDup (identity <$> items) ∧ Forall (λ i, i ∉ seen.2) (identity <$> items).
Proof.
  intros Hw. revert seen. induction Hw as [|it items Hit Hw IH]; intros seen.
  { split; [|done]. intros _. by repeat constructor. }
  unfold ids in *. rewrite !fmap_cons, !Forall_cons, !NoDup_cons. cbn [validate_items].
  destruct (validate_item dashboardColumns seen it) as [reason|seen'] eqn:E.
  - split; [done|]. intros ((H1 & _) & _ & (H2 & _) & _ & H3 & _).
    pose proof (proj2 (validate_item_spec seen it _ Hit) (conj H1 (conj H2 (conj H3 eq_refl)))) as E'.
    by rewrite E in E'.
  - apply (validate_item_spec seen it seen' Hit) in E as (H1 & H2 & H3 & ->).
    rewrite IH. cbn [fst snd]. rewrite !Forall_not_seen. tauto.
Qed.

Lemma itemsOverlap_exact a b : placement_ok a → placement_ok b → itemsOverlap a b = overlaps a b.
Proof.
  intros (_ & sa & Ea%allowed_sane & Ha & _) (_ & sb & Eb%allowed_sane & Hb & _).
  destruct Ea as (_ & ? & ? & _), Eb as (_ & ? & ? & _). cbn [snd] in *.
  unfold box_ok, dashboardColumns, maxDashboardRows in *.
  unfold itemsOverlap, overlaps, sharesColumn, sharesRow. rewrite !add64_exact by lia.
  by rewrite !negb_orb, !andb_assoc.
Qed.
Lemma overlap_found_spec items : Forall placement_ok items →
  overlap_found items = false ↔ NoOverlap items.
Proof.
  induction 1 as [|a items Ha Hi IH]; [split; [constructor|done]|]. cbn [overlap_found].
  rewrite orb_false_iff, IH, existsb_false.
  assert (E : Forall (λ b, itemsOverlap a b = false) items ↔ Forall (disjoint_items a) items).
  { rewrite !Forall_forall in *. unfold disjoint_items. split; intros H b Hb;
      [rewrite <- itemsOverlap_exact|rewrite itemsOverlap_exact]; auto. }
  rewrite E. split; [intros [? ?]; by constructor|by inversion 1].
Qed.
Lemma distinct_cards items : Forall wire_item items → Forall placement_ok items →
  NoDup (identity <$> items) ↔ ForallOrdPairs (λ a b, ¬ same_card a b) items.
Proof.
  intros Hw. induction Hw as [|a items Ha Hw IH]; intros Hp; [split; constructor|].
  apply Forall_cons in Hp as [Hpa Hp]. rewrite fmap_cons, NoDup_cons, IH by done.
  assert (E : identity a ∉ identity <$> items ↔ Forall (λ b, ¬ same_card a b) items).
  { rewrite list_elem_of_fmap, !Forall_forall in *. destruct Hpa as (_ & sa & Ea & _ & _).
    assert (Hid : ∀ b, b ∈ items → identity a = identity b ↔ same_card a b).
    { intros b Hb. destruct (Hp b Hb) as (_ & sb & Eb & _ & _). by eapply identity_eq; eauto. }
    split; [intros H b Hb Hc|intros H (b & Eb & Hb)].
    - apply H. exists b. split; [by apply Hid|done].
    - by apply (H b Hb), Hid. }
  rewrite E. split; [intros [? ?]; by constructor|by inversion 1].
Qed.

Lemma decode_item_wire it it' : sendable it → decode_item it = Some it' → wire_item it'.
Proof.
  intros (H1 & H2 & H3). unfold decode_item. destruct (_ && _); [|done]. intros [= <-].
  split_and!; [by apply wire_string_ok..|]. by apply decode_params_ok.
Qed.
Lemma decode_layout_wire raw cfg : Forall sendable (config_items raw) →
  decode_layout raw = Some cfg → Forall wire_item (config_items cfg).
Proof.
  intros Hs. unfold decode_layout. destruct (_ && _); [|done].
  destruct (mapM decode_item (config_items raw)) as [items|] eqn:E; [|done]. intros [= <-].
  apply mapM_Some in E. cbn [config_items]. revert Hs. induction E as [|a b l k Hab E IH]; intros Hs;
    [constructor|]. apply Forall_cons in Hs as [Ha Hs]. constructor; [by eapply decode_item_wire|auto].
Qed.

Lemma validate_decoded cfg n : Forall wire_item (config_items cfg) →
  (if negb (schemaVersion cfg =? DASHBOARD_LAYOUT_SCHEMA_VERSION) then inl unsupported_schema_version
   else if negb (bool_decide (scope cfg ∈ allowedDashboardScopes)) then inl invalid_config
   else if negb (columns cfg =? dashboardColumns) then inl invalid_config
   else if (maxDashboardItems <? length (config_items cfg))%nat then inl invalid_config
   else match validate_items (columns cfg) ([], []) (config_items cfg) with
        | Some reason => inl reason
        | None => if overlap_found (config_items cfg) then inl invalid_config
                  else inr (marshal_layout cfg)
        end) = inr n ↔ layout_valid cfg ∧ n = marshal_layout cfg.
Proof.
  intros Hw. rewrite !guard_inr, !negb_false_iff, !Z.eqb_eq, bool_decide_eq_true, Nat.ltb_ge.
  unfold allowedDashboardScopes. rewrite list_elem_of_singleton. unfold layout_valid.
  assert (Hloop : ∀ r, columns cfg = dashboardColumns →
    match validate_items (columns cfg) ([], []) (config_items cfg) with
    | Some reason => inl reason
    | None => if overlap_found (config_items cfg) then inl invalid_config else inr (marshal_layout cfg)
    end = inr r ↔
    NoDup (ids (config_items cfg)) ∧ Forall placement_ok (config_items cfg) ∧
    NoOverlap (config_items cfg) ∧ ForallOrdPairs (λ a b, ¬ same_card a b) (config_items cfg) ∧
    r = marshal_layout cfg).
  { intros r ->. pose proof (validate_items_spec ([], []) _ Hw) as Hv. cbn [fst snd] in Hv.
    assert (Hn : ∀ l : list jstring, Forall (λ i, i ∉ []) l)
      by (intros l; apply Forall_forall; by intros ? _ ?%elem_of_nil).
    destruct (validate_items _ _ _) as [reason|].
    - split; [done|]. intros (H1 & H2 & _ & H4 & _). apply distinct_cards in H4; [|done..].
      by assert (Some reason = None) by (apply Hv; auto).
    - destruct (proj1 Hv eq_refl) as (H1 & H2 & _ & H4 & _). rewrite guard_inr, overlap_found_spec by done.
      apply distinct_cards in H4; [|done..]. naive_solver. }
  split; [intros (? & ? & Hc & ? & H)|intros ((? & ? & Hc & ? & H) & ->)];
    [apply Hloop in H; [|done]; naive_solver|rewrite Hloop by done; naive_solver].
Qed.

Lemma validator_decides raw n : Forall sendable (config_items raw) →
  ValidateDashboardLayout raw = inr n ↔
  ∃ cfg, decode_layout raw = Some cfg ∧ layout_valid cfg ∧ n = marshal_layout cfg.
Proof.
  intros Hs. unfold ValidateDashboardLayout. destruct (decode_layout raw) as [cfg|] eqn:E; [|naive_solver].
  rewrite validate_decoded by (by eapply decode_layout_wire). naive_solver.
Qed.

(** ** Placements up to the order of their parameters *)

#[export] Instance LayoutItem_equiv : Equiv LayoutItem := λ a b,
  instanceId a = instanceId b ∧ id a = id b ∧ x a = x b ∧ y a = y b ∧ w a = w b ∧ h a = h b ∧
  params_of a ≡ₚ params_of b.
#[export] Instance LayoutItem_equivalence : Equivalence (≡@{LayoutItem}).
Proof.
  split.
  - intros a. by split_and!.
  - intros a b (? & ? & ? & ? & ? & ? & ?). by split_and!.
  - intros a b c (? & ? & ? & ? & ? & ? & E) (? & ? & ? & ? & ? & ? & E'). rewrite E' in E.
    split_and!; congruence || done.
Qed.
#[export] Instance placement_ok_proper : Proper ((≡) ==> iff) placement_ok.
Proof.
  intros a b (E1 & E2 & E3 & E4 & E5 & E6 & E7). unfold placement_ok, box_ok, params_ok.
  by setoid_rewrite E7; rewrite E1, E2, E3, E4, E5, E6.
Qed.
#[export] Instance overlaps_proper : Proper ((≡) ==> (≡) ==> (=)) overlaps.
Proof.
  intros a b (_ & _ & E3 & E4 & E5 & E6 & _) c d (_ & _ & F3 & F4 & F5 & F6 & _).
  unfold overlaps, sharesColumn, sharesRow. by rewrite E3, E4, E5, E6, F3, F4, F5, F6.
Qed.
#[export] Instance same_card_proper : Proper ((≡) ==> (≡) ==> iff) same_card.
Proof.
  intros a b (_ & E & _ & _ & _ & _ & P) c d (_ & F & _ & _ & _ & _ & Q).
  unfold same_card. by rewrite E, F, P, Q.
Qed.
Lemma ForallOrdPairs_proper {A} `{Equiv A} (R : A → A → Prop) l k :
  Proper ((≡) ==> (≡) ==> iff) R → l ≡ k → ForallOrdPairs R l → ForallOrdPairs R k.
Proof.
  intros HR E. induction E as [|a b l k Hab E IH]; intros Hl; [constructor|].
  inversion Hl as [|? ? Ha Hl']; subst. constructor; [|by apply IH].
  clear -HR Hab E Ha. revert Ha. induction E as [|c d l k Hcd E IH]; intros Ha; [constructor|].
  apply Forall_cons in Ha as [Hc Ha]. constructor; [by apply (HR a b Hab c d Hcd)|by apply IH].
Qed.
Lemma layout_valid_equiv cfg items : config_items cfg ≡ items → layout_valid cfg →
  layout_valid (with_items cfg items).
Proof.
  intros E (H1 & H2 & H3 & H4 & H5 & H6 & H7 & H8). split_and!; try done; cbn [config_items with_items].
  - by rewrite <- E.
  - assert (ids items = ids (config_items cfg)) as ->; [|done]. clear -E.
    induction E as [|a b l k (Hi & _) E IH]; [done|]. unfold ids in *. rewrite !fmap_cons. congruence.
  - clear -E H6. induction E as [|a b l k Hab E IH]; [constructor|]. apply Forall_cons in H6 as [? ?].
    constructor; [by rewrite <- Hab|auto].
  - eapply ForallOrdPairs_proper; [|done..]. intros a b Hab c d Hcd. unfold disjoint_items. by rewrite Hab, Hcd.
  - eapply ForallOrdPairs_proper; [|done..]. intros a b Hab c d Hcd. by rewrite Hab, Hcd.
Qed.

(** ** What is stored reads back *)

(** A decoded placement with its parameters in the order they are written. *)
Definition ordered_item (it : LayoutItem) : LayoutItem :=
  {| instanceId := instanceId it; id := id it; x := x it; y := y it; w := w it; h := h it;
     params := Some (go_sorted (params_of it)) |}.
Lemma marshal_params it : params_of (marshal_item it) = go_sorted (params_of it).
Proof. unfold params_of, marshal_item. cbn [params]. by destruct (default [] (params it)). Qed.
Lemma marshal_equiv it : NoDup (params_of it).*1 → marshal_item it ≡ it.
Proof. intros H. split_and!; try done. rewrite marshal_params. by apply go_sorted_perm. Qed.
Lemma ordered_equiv it : NoDup (params_of it).*1 → ordered_item it ≡ it.
Proof. intros H. split_and!; try done. by apply go_sorted_perm. Qed.

Lemma assoc_set_all {V} acc (l : list (jstring * V)) : NoDup (acc.*1 ++ l.*1) →
  foldl (λ m kv, assoc_set kv.1 kv.2 m) acc l = acc ++ l.
Proof.
  revert acc. induction l as [|[k v] l IH]; intros acc Hnd; cbn [foldl fst snd]; [by rewrite app_nil_r|].
  rewrite assoc_set_fresh.
  - rewrite IH; [by rewrite <- app_assoc|]. by rewrite fmap_app, <- app_assoc.
  - apply NoDup_app in Hnd as (_ & Hd & _). intros Hin. apply (Hd k Hin). by left.
Qed.
Lemma decode_params_id p : wire_params (default [] p) → decode_params p = default [] p.
Proof.
  unfold decode_params. generalize (default [] p). intros l [Hnd Hw].
  rewrite <- (assoc_set_all [] l) at 2 by done. generalize (@nil (jstring * jstring)). clear Hnd.
  induction Hw as [|kv l [[_ Hk] [_ Hv]] Hw IH]; intros acc; [done|]. cbn [foldl]. by rewrite Hk, Hv, IH.
Qed.

Lemma fits_small z : 0 <= z <= 200 → fits_int64 z = true.
Proof.
  intros. unfold fits_int64, int64_min, int64_max.
  apply andb_true_iff. rewrite !Z.leb_le. lia.
Qed.
Lemma decode_valid_item it : wire_item it → placement_ok it →
  decode_item it = Some {| instanceId := instanceId it; id := id it; x := x it; y := y it;
                           w := w it; h := h it; params := Some (params_of it) |}.
Proof.
  intros ((_ & H1) & (_ & H2) & Hp) (_ & spec & Es%allowed_sane & Hb & _).
  destruct Es as (_ & ? & ? & _). cbn [snd] in *. unfold box_ok, dashboardColumns, maxDashboardRows in Hb.
  unfold decode_item. rewrite !fits_small by lia. by rewrite H1, H2, decode_params_id.
Qed.
Lemma decode_valid_layout cfg : Forall wire_item (config_items cfg) → layout_valid cfg →
  decode_layout cfg = Some (with_items cfg
    ((λ it, {| instanceId := instanceId it; id := id it; x := x it; y := y it;
               w := w it; h := h it; params := Some (params_of it) |}) <$> config_items cfg)).
Proof.
  intros Hw (H1 & H2 & H3 & _ & _ & H6 & _). unfold decode_layout.
  rewrite H1, H3. cbn [andb fits_int64]. unfold DASHBOARD_LAYOUT_SCHEMA_VERSION, dashboardColumns.
  rewrite !fits_small by lia. cbn [andb].
  assert (mapM decode_item (config_items cfg) = Some ((λ it,
    {| instanceId := instanceId it; id := id it; x := x it; y := y it;
       w := w it; h := h it; params := Some (params_of it) |}) <$> config_items cfg)) as ->.
  { apply mapM_Some. clear -Hw H6. induction Hw as [|a l Ha Hw IH]; [constructor|].
    apply Forall_cons in H6 as [? ?]. rewrite fmap_cons. constructor; [by apply decode_valid_item|auto]. }
  cbn [mbind option_bind]. unfold with_items. by rewrite H1, H2, H3.
Qed.

Lemma wire_sendable it : wire_item it → sendable it.
Proof.
  intros ((H1 & _) & (H2 & _) & _ & H3). split_and!; [done..|].
  eapply Forall_impl; [done|]. by intros kv [[? _] [? _]].
Qed.
Lemma wire_items_sendable items : Forall wire_item items → Forall sendable items.
Proof. intros H. eapply Forall_impl; [done|]. apply wire_sendable. Qed.
(** A valid layout is accepted as it is. *)
Lemma valid_accepted cfg : Forall wire_item (config_items cfg) → layout_valid cfg →
  ValidateDashboardLayout cfg = inr (marshal_layout cfg).
Proof.
  intros Hw Hv. apply validator_decides; [by apply wire_items_sendable|]. eexists.
  split; [by apply decode_valid_layout|]. split.
  - apply layout_valid_equiv; [|done]. clear. induction (config_items cfg); constructor; [by split_and!|done].
  - unfold marshal_layout, with_items. cbn [config_items]. f_equal. by rewrite <- list_fmap_compose.
Qed.
Lemma marshal_wire it : wire_item it → wire_item (marshal_item it).
Proof.
  intros (H1 & H2 & H3). split_and!; [done..|]. rewrite marshal_params.
  eapply wire_params_perm; [|done]. symmetry. apply go_sorted_perm, H3.
Qed.
Lemma marshal_idemp it : wire_item it → marshal_item (marshal_item it) = marshal_item it.
Proof.
  intros (_ & _ & Hp). assert (E : go_sorted (params_of (marshal_item it)) = go_sorted (params_of it)).
  { rewrite marshal_params. symmetry. apply go_sorted_proper; [done|].
    symmetry. apply go_sorted_perm, Hp. }
  assert (Hn : length (params_of (marshal_item it)) = length (params_of it)).
  { rewrite marshal_params. apply Permutation_length, go_sorted_perm, Hp. }
  unfold marshal_item at 1 3. f_equal. fold (params_of it) (params_of (marshal_item it)).
  unfold go_sorted in E. rewrite E.
  by destruct (params_of (marshal_item it)), (params_of it).
Qed.
Lemma marshal_layout_equiv cfg : Forall wire_item (config_items cfg) →
  config_items (marshal_layout cfg) ≡ config_items cfg.
Proof.
  cbn [config_items marshal_layout with_items]. induction 1 as [|a l (_ & _ & Ha & _) Hl IH]; [constructor|].
  rewrite fmap_cons. constructor; [by apply marshal_equiv|done].
Qed.

Lemma decode_wire raw cfg : wire_ok (scope raw) → Forall wire_item (config_items raw) →
  decode_layout raw = Some cfg →
  config_items cfg ≡ config_items raw ∧ cfg = with_items raw (config_items cfg).
Proof.
  intros [_ Hsc] Hw. unfold decode_layout. destruct (_ && _); [|done].
  destruct (mapM decode_item (config_items raw)) as [items|] eqn:Em; [|done]. intros [= <-].
  unfold with_items. cbn. rewrite Hsc. split; [|done].
  apply mapM_Some in Em. clear -Em Hw. induction Em as [|a b l k Hab Em IH]; [constructor|].
  apply Forall_cons in Hw as [((_ & H1) & (_ & H2) & H3) Hw]. constructor; [|auto].
  revert Hab. unfold decode_item. destruct (_ && _); [|done]. intros [= <-].
  split_and!; try done. unfold params_of. cbn. by rewrite decode_params_id.
Qed.
(** With nothing lost on the way, the layout itself is what is judged. *)
Lemma validator_wire raw : wire_ok (scope raw) → Forall wire_item (config_items raw) →
  (∃ n, ValidateDashboardLayout raw = inr n) ↔ layout_valid raw.
Proof.
  intros Hsc Hw. split; [|by intros; eexists; apply valid_accepted].
  intros (n & (cfg & Hd & Hv & _)%validator_decides); [|by apply wire_items_sendable].
  destruct (decode_wire raw cfg Hsc Hw Hd) as [E E'].
  apply (layout_valid_equiv cfg (config_items raw) E) in Hv. rewrite E' in Hv. by destruct raw.
Qed.

(** C3. The server stores a layout exactly when it describes one: a supported
    envelope of at most forty placements, each of a known widget at its minimum
    size or larger and inside the grid (the sums do not wrap), with a value for
    exactly the parameters the widget declares, no two of the same name, of the
    same card or in the same cell. What it stores is that layout. *)
Theorem validator_exact raw n : Forall sendable (config_items raw) →
  ValidateDashboardLayout raw = inr n ↔
  ∃ cfg, decode_layout raw = Some cfg ∧ layout_valid cfg ∧ n = marshal_layout cfg.
Proof. apply validator_decides. Qed.

(** What is stored is a fixed point: sent again as it was answered, it is
    accepted and stored unchanged. *)
Theorem validator_normal_form raw n : Forall sendable (config_items raw) →
  ValidateDashboardLayout raw = inr n → ValidateDashboardLayout n = inr n.
Proof.
  intros Hs (cfg & Hd & Hv & ->)%validator_decides; [|done].
  pose proof (decode_layout_wire _ _ Hs Hd) as Hw. rewrite valid_accepted.
  - f_equal. unfold marshal_layout, with_items. cbn [config_items]. f_equal. clear -Hw.
    induction Hw as [|a l Ha Hw IH]; [done|]. rewrite !fmap_cons. f_equal; [by apply marshal_idemp|done].
  - cbn. clear -Hw. induction Hw; rewrite ?fmap_cons; constructor; [by apply marshal_wire|done].
  - apply layout_valid_equiv; [|done]. symmetry. by apply marshal_layout_equiv.
Qed.

(** When no string holds a lone surrogate, the stored layout is the one sent,
    placement by placement, up to the order of a placement's parameters. *)
Lemma stored_is_sent raw n : wire_ok (scope raw) → Forall wire_item (config_items raw) →
  ValidateDashboardLayout raw = inr n →
  config_items n ≡ config_items raw ∧ n = with_items raw (config_items n).
Proof.
  intros Hsc Hw (cfg & Hd & Hv & ->)%validator_decides; [|by apply wire_items_sendable].
  pose proof (decode_layout_wire _ _ (wire_items_sendable _ Hw) Hd) as Hw'.
  destruct (decode_wire raw cfg Hsc Hw Hd) as [E E'].
  split; [by rewrite marshal_layout_equiv|]. rewrite E' at 1. done.
Qed.

(** ** Witnesses *)

#[export] Instance sendable_dec it : Decision (sendable it).
Proof. unfold sendable, js_units, is_unit. apply _. Defined.
#[export] Instance wire_ok_dec s : Decision (wire_ok s).
Proof. unfold wire_ok, js_units, is_unit. apply _. Defined.
#[export] Instance wire_item_dec it : Decision (wire_item it).
Proof. unfold wire_item, wire_params. apply _. Defined.

Definition signals_item : LayoutItem :=
  {| instanceId := "mesh-golden-signals-k3x9k3x9"%js; id := "mesh-golden-signals"%js;
     x := 0; y := 15; w := 3; h := 4;
     params := Some [("service"%js, "checkout"%js); ("namespace"%js, "prod"%js)] |}.
Definition demo_layout : DashboardLayoutConfig :=
  with_items DEFAULT_OVERVIEW_LAYOUT (config_items DEFAULT_OVERVIEW_LAYOUT ++ [signals_item]).
Definition demo_stored : DashboardLayoutConfig :=
  marshal_layout (with_items DEFAULT_OVERVIEW_LAYOUT
    (config_items DEFAULT_OVERVIEW_LAYOUT ++ [signals_item])).
Lemma demo_accepted : ValidateDashboardLayout demo_layout = inr demo_stored.
Proof. vm_compute. reflexivity. Qed.
Lemma demo_sendable : Forall sendable (config_items demo_layout).
Proof. apply (bool_decide_unpack _). vm_compute. exact I. Qed.
Lemma validator_exact_witness : ∃ cfg, decode_layout demo_layout = Some cfg ∧ layout_valid cfg.
Proof.
  destruct (proj1 (validator_exact demo_layout demo_stored demo_sendable) demo_accepted)
    as (cfg & H1 & H2 & _). by exists cfg.
Defined.
Lemma validator_normal_form_witness : ValidateDashboardLayout demo_stored = inr demo_stored.
Proof. apply (validator_normal_form demo_layout demo_stored demo_sendable demo_accepted). Defined.
