(* ===== verification/WidgetState.v ===== *)
(** * What a widget's box shows: widget-state.ts

    The state of one source as the cache publishes it (the types at the top of
    data.ts), and the decision over the sources a widget declares. *)

From stdpp Require Import base list strings gmap sorting.
From Stdlib Require Import ZArith Lia.
From S2P Require Import Prelude JsValue Types Params.

(** ** Definitions *)

Inductive SourceErrorKind := kind_permission | kind_failure | kind_absent | kind_unsupported.
#[export] Instance SourceErrorKind_eq_dec : EqDecision SourceErrorKind.
Proof. solve_decision. Defined.

(** [data] is [JNull] before anything landed; a response without a body leaves
    it [JUndef]. *)
Record SourceState := {
  data : jsval;
  error : option jstring;
  errorKind : option SourceErrorKind;
  loading : bool;
  range : option jstring
}.
Definition IDLE : SourceState :=
  {| data := JNull; error := None; errorKind := None; loading := false; range := None |}.
(** [s.data !== null] *)
Definition landed (s : SourceState) : bool := match data s with JNull => false | _ => true end.

Inductive WidgetStateName :=
  | st_loading | st_permission | st_error | st_unavailable | st_unreachable | st_unsupported
  | st_ready.
Record WidgetResolution := {
  state : WidgetStateName;
  blocking : option SourceState;
  stale : option SourceState
}.

Definition sourcesOf (d : WidgetDef) : list jstring :=
  match familyStatus d with
  | Some f => if decide (f ∈ sources d) then sources d else sources d ++ [f]
  | None => sources d
  end.

(** A field of a parsed JSON object; arrays have none of these names. *)
Definition detected_of (v : jsval) : jsval :=
  match v with JObj fields => field fields "detected" | _ => JUndef end.
Definition featurePresent (v : jsval) : bool :=
  match v with
  | JObj _ | JArr _ =>
      match detected_of v with
      | JUndef | JNull | JBool false => false
      | JStr s => negb (js_eqb s "")
      | _ => true
      end
  | _ => false
  end.
Definition PRESENCE_UNKNOWN_REASONS : list jstring :=
  ["unreachable"; "discovery_unavailable"; "credentials_invalid"; "cluster_unknown";
   "db_unavailable"]%js.
Definition presenceUnknown (v : jsval) : bool :=
  negb (featurePresent v) &&
  match v with
  | JObj fields =>
      match field fields "reason" with
      | JStr r => bool_decide (r ∈ PRESENCE_UNKNOWN_REASONS)
      | _ => false
      end
  | _ => false
  end.

Definition find_kind (k : SourceErrorKind) (l : list SourceState) : option SourceState :=
  head (filter (λ s, errorKind s = Some k) l).
Definition has_error (s : SourceState) : bool := match error s with Some _ => true | None => false end.

Definition found {A} (o : option A) : bool := match o with Some _ => true | None => false end.

(** The decision once the source states are read: the family's state if one is
    declared, the required states and all of them, in declaration order. *)
Definition decide_state (family : option SourceState) (required all : list SourceState)
    : WidgetResolution :=
  let outcome st b := {| state := st; blocking := b; stale := None |} in
  let absent_family :=
    f ← family;
    if landed f && negb (featurePresent (data f)) then
      Some (outcome (if presenceUnknown (data f) then st_unreachable else st_unavailable) None)
    else None in
  let unserved := find_kind kind_absent required in
  let unanswerable := find_kind kind_unsupported required in
  let refused := find_kind kind_permission required in
  let failed := head (filter (λ s, has_error s = true) required) in
  match absent_family with
  | Some r => r
  | None =>
      if forallb landed required then
        {| state := st_ready; blocking := None;
           stale := head (filter (λ s, has_error s = true ∧ landed s = true) all) |}
      else if found unserved then outcome st_unavailable None
      else if found unanswerable then outcome st_unsupported unanswerable
      else if found refused then outcome st_permission refused
      else if found failed then outcome st_error failed
      else outcome st_loading None
  end.
(** Names that are not in the tables of params.ts are their own key; [None] is
    [sourceKeyFor]'s throw. *)
Definition resolveWidgetState (d : WidgetDef) (stateOf : jstring → SourceState)
    (ps : list (jstring * jstring)) : option WidgetResolution :=
  let optional := default [] (optionalSources d) in
  let declared := sourcesOf d in
  all ← mapM (λ k, stateOf <$> sourceKeyFor k ps) declared;
  required ← mapM (λ k, stateOf <$> sourceKeyFor k ps)
    (filter (λ k, Some k = familyStatus d ∨ k ∉ optional) declared);
  family ← match familyStatus d with
           | None => Some None
           | Some f => (λ k, Some (stateOf k)) <$> sourceKeyFor f ps
           end;
  Some (decide_state family required all).

(** ** The decision *)

(** What the cache guarantees of a state: an error has a kind. *)
Definition source_ok (s : SourceState) : Prop := error s = None ↔ errorKind s = None.

Lemma found_kind k l s :
  find_kind k l = Some s → s ∈ l ∧ errorKind s = Some k.
Proof. unfold find_kind. intros H%head_Some_elem_of. apply list_elem_of_filter in H. tauto. Qed.
Lemma mapM_ext_strong {A B} (f g : A → option B) l :
  (∀ a, a ∈ l → f a = g a) → mapM f l = mapM g l.
Proof.
  induction l as [|a l IH]; intros H; [done|]. cbn [mapM]. rewrite (H a) by left.
  rewrite IH; [done|]. intros b Hb. apply H. by right.
Qed.
Lemma not_found_filter {A} (P : A → Prop) `{!∀ a, Decision (P a)} l :
  found (head (filter P l)) = false → Forall (λ a, ¬ P a) l.
Proof.
  induction l as [|a l IH]; [constructor|]. rewrite filter_cons. case_decide; [done|].
  intros ?. constructor; auto.
Qed.
Lemma has_error_spec s : has_error s = true ↔ error s ≠ None.
Proof. unfold has_error. by destruct (error s). Qed.

(** What each outcome says about the required sources. *)
Definition explains (required : list SourceState) (r : WidgetResolution) : Prop :=
  let none k := Forall (λ s, errorKind s ≠ Some k) required in
  match state r with
  | st_ready => Forall (λ s, landed s = true) required ∧ blocking r = None
  | st_unavailable | st_unreachable => blocking r = None ∧ stale r = None
  | st_unsupported =>
      none kind_absent ∧
      ∃ s, s ∈ required ∧ blocking r = Some s ∧ errorKind s = Some kind_unsupported
  | st_permission =>
      none kind_absent ∧ none kind_unsupported ∧
      ∃ s, s ∈ required ∧ blocking r = Some s ∧ errorKind s = Some kind_permission
  | st_error =>
      none kind_absent ∧ none kind_unsupported ∧ none kind_permission ∧
      ∃ s, s ∈ required ∧ blocking r = Some s ∧ error s ≠ None
  | st_loading =>
      Forall (λ s, error s = None) required ∧ Exists (λ s, landed s = false) required ∧
      blocking r = None
  end.

Lemma decide_state_explains family required all :
  explains required (decide_state family required all).
Proof.
  unfold decide_state.
  set (af := f ← family; _). assert (Haf : ∀ r, af = Some r → explains required r).
  { unfold af. destruct family as [f|]; [|done]. cbn [mbind option_bind].
    destruct (landed f && _); [|done]. intros r [= <-]. by destruct (presenceUnknown (data f)). }
  destruct af as [r|]; [by apply Haf|]. clear Haf.
  destruct (forallb landed required) eqn:El.
  { split; [|done]. by apply Forall_forall; intros s Hs; apply (proj1 (forallb_forall _ _) El), list_elem_of_In. }
  destruct (find_kind kind_absent required) as [s1|] eqn:E1; [done|]. cbn [found].
  assert (N1 : Forall (λ s, errorKind s ≠ Some kind_absent) required).
  { apply (not_found_filter (λ s, errorKind s = Some kind_absent)). unfold find_kind in E1. by rewrite E1. }
  destruct (find_kind kind_unsupported required) as [s2|] eqn:E2; cbn [found].
  { apply found_kind in E2 as [? ?]. split; [done|]. by exists s2. }
  assert (N2 : Forall (λ s, errorKind s ≠ Some kind_unsupported) required).
  { apply (not_found_filter (λ s, errorKind s = Some kind_unsupported)). unfold find_kind in E2. by rewrite E2. }
  destruct (find_kind kind_permission required) as [s3|] eqn:E3; cbn [found].
  { apply found_kind in E3 as [? ?]. split; [done|]. split; [done|]. by exists s3. }
  assert (N3 : Forall (λ s, errorKind s ≠ Some kind_permission) required).
  { apply (not_found_filter (λ s, errorKind s = Some kind_permission)). unfold find_kind in E3. by rewrite E3. }
  destruct (head (filter (λ s, has_error s = true) required)) as [s4|] eqn:E4; cbn [found].
  { apply head_Some_elem_of, list_elem_of_filter in E4 as [He Hin]. apply has_error_spec in He.
    do 3 (split; [done|]). by exists s4. }
  split; [|split; [|done]].
  - eapply Forall_impl; [apply (not_found_filter (λ s, has_error s = true)); by rewrite E4|].
    intros s Hs. simpl in Hs. rewrite has_error_spec in Hs. by destruct (error s); [destruct Hs|].
  - clear -El. induction required as [|s l IH]; [done|]. simpl in El.
    destruct (landed s) eqn:E; [right; by apply IH|by left].
Qed.

Lemma decide_state_family f required all :
  f ∈ required →
  state (decide_state (Some f) required all) = st_ready → featurePresent (data f) = true.
Proof.
  intros Hf Hr. pose proof (decide_state_explains (Some f) required all) as He.
  unfold explains in He. rewrite Hr in He. destruct He as [He _].
  rewrite Forall_forall in He. apply He in Hf. revert Hr. unfold decide_state. cbn [mbind option_bind].
  rewrite Hf. destruct (featurePresent (data f)); [done|]. simpl.
  by destruct (presenceUnknown (data f)).
Qed.

(** The names whose sources gate the widget. *)
Definition required_sources (d : WidgetDef) : list jstring :=
  filter (λ k, Some k = familyStatus d ∨ k ∉ default [] (optionalSources d)) (sourcesOf d).
Lemma family_required d f : familyStatus d = Some f → f ∈ required_sources d.
Proof.
  intros Hf. apply list_elem_of_filter. split; [by left|]. unfold sourcesOf. rewrite Hf.
  case_decide; [done|]. apply elem_of_app. right. by left.
Qed.

Lemma resolveWidgetState_inv d stateOf ps r :
  resolveWidgetState d stateOf ps = Some r →
  ∃ all required family,
    mapM (λ k, stateOf <$> sourceKeyFor k ps) (sourcesOf d) = Some all ∧
    mapM (λ k, stateOf <$> sourceKeyFor k ps) (required_sources d) = Some required ∧
    family = (familyStatus d ≫= λ f, stateOf <$> sourceKeyFor f ps) ∧
    (∀ f, familyStatus d = Some f → is_Some family) ∧
    r = decide_state family required all.
Proof.
  unfold resolveWidgetState.
  destruct (mapM _ (sourcesOf d)) as [all|] eqn:Ea; [|done]. cbn [mbind option_bind].
  fold (required_sources d).
  destruct (mapM _ (required_sources d)) as [required|] eqn:Er; [|done]. cbn [mbind option_bind].
  destruct (familyStatus d) as [f|] eqn:Ef; cbn [mbind option_bind].
  - destruct (sourceKeyFor f ps) as [k|] eqn:Ek; [|done]. cbn [fmap option_fmap option_map mbind option_bind].
    intros [= <-]. exists all, required, (Some (stateOf k)). repeat split; try done.
  - intros [= <-]. by exists all, required, None.
Qed.
Lemma required_state d (stateOf : jstring → SourceState) ps required k key :
  mapM (λ k, stateOf <$> sourceKeyFor k ps) (required_sources d) = Some required →
  k ∈ required_sources d → sourceKeyFor k ps = Some key → stateOf key ∈ required.
Proof.
  intros H%mapM_Some_1 Hk Hkey. eapply Forall2_elem_l in H as (s & Hs & E); [|exact Hk].
  rewrite Hkey in E. by injection E as <-.
Qed.

(** ** Properties *)

(** C16. Absence never renders as good news, and stale data outranks an error: a
    widget renders exactly when every source that gates it has landed, a failed
    refresh or not, and, if it declares a feature family, that family's status
    reports the feature present. *)
Theorem ready_means_present d stateOf ps r :
  resolveWidgetState d stateOf ps = Some r →
  state r = st_ready ↔
  (∀ k key, k ∈ required_sources d → sourceKeyFor k ps = Some key →
     landed (stateOf key) = true) ∧
  (∀ f key, familyStatus d = Some f → sourceKeyFor f ps = Some key →
     featurePresent (data (stateOf key)) = true).
Proof.
  intros (all & required & family & _ & Hreq & Hfam & Hsome & ->)%resolveWidgetState_inv. split.
  - intros Hr. split.
    + intros k key Hk Hkey. pose proof (decide_state_explains family required all) as He.
      unfold explains in He. rewrite Hr in He. destruct He as [He _].
      rewrite Forall_forall in He. apply He. by eapply required_state.
    + intros f key Hf Hkey. rewrite Hf in Hfam. simpl in Hfam. rewrite Hkey in Hfam. subst family.
      apply (decide_state_family _ required all); [|done].
      eapply required_state; [done|by apply family_required|done].
  - intros [Hland Hpres]. unfold decide_state.
    assert (Hall : forallb landed required = true).
    { apply forallb_forall. intros s Hs%list_elem_of_In. apply mapM_Some_1 in Hreq.
      eapply Forall2_elem_r in Hreq as (k & Hk & E); [|exact Hs].
      destruct (sourceKeyFor k ps) as [key|] eqn:Ek; [|done]. injection E as <-. by eapply Hland. }
    rewrite Hall. destruct (familyStatus d) as [f|] eqn:Ef; subst family; [|done]. simpl.
    destruct (sourceKeyFor f ps) as [key|] eqn:Ek; [|done]. simpl.
    rewrite (Hpres f key eq_refl Ek). by rewrite andb_false_r.
Qed.

(** Whatever a widget shows, it says why, and in the order the shell
    relies on: a retry is offered only when no required source was refused,
    unsupported or absent; a refusal only when none was unsupported or absent;
    the skeleton only when nothing failed and something is still missing; and
    the message shown is that of a required source that failed that way. *)
Theorem resolveWidgetState_explains d stateOf ps r :
  resolveWidgetState d stateOf ps = Some r →
  ∃ required, mapM (λ k, stateOf <$> sourceKeyFor k ps) (required_sources d) = Some required ∧
              explains required r.
Proof.
  intros (all & required & family & _ & Hreq & _ & _ & ->)%resolveWidgetState_inv.
  exists required. split; [done|]. apply decide_state_explains.
Qed.

(** An optional source never gates a widget: two readings of the cache that
    agree on the sources that do give the same outcome and the same message,
    whatever the optional ones did. *)
Theorem optional_sources_never_gate d stateOf stateOf' ps r r' :
  (∀ k key, k ∈ required_sources d → sourceKeyFor k ps = Some key → stateOf key = stateOf' key) →
  resolveWidgetState d stateOf ps = Some r → resolveWidgetState d stateOf' ps = Some r' →
  state r = state r' ∧ blocking r = blocking r'.
Proof.
  intros Hag (all & required & family & _ & Hreq & Hfam & _ & ->)%resolveWidgetState_inv
    (all' & required' & family' & _ & Hreq' & Hfam' & _ & ->)%resolveWidgetState_inv.
  assert (required = required') as <-.
  { assert (Some required = Some required') as [= ->]; [|done]. rewrite <- Hreq, <- Hreq'.
    apply mapM_ext_strong. intros k Hk. destruct (sourceKeyFor k ps) as [key|] eqn:Ek; [|done].
    simpl. by rewrite (Hag k key). }
  assert (family = family') as <-.
  { subst. destruct (familyStatus d) as [f|] eqn:Ef; [|done]. simpl.
    destruct (sourceKeyFor f ps) as [key|] eqn:Ek; [|done]. simpl.
    by rewrite (Hag f key) by (done || by apply family_required). }
  unfold decide_state. destruct (f ← family; _); [done|].
  destruct (forallb landed required); [done|].
  by repeat match goal with |- context [if found ?o then _ else _] => destruct (found o) end.
Qed.

(** ** Witnesses *)

Definition card : WidgetDef :=
  {| def_id := "certificates"%js; scopes := [overview];
     sources := ["certificates-list"; "dashboard-trends"]%js;
     optionalSources := Some ["dashboard-trends"%js]; familyStatus := Some "certificates-status"%js;
     adminOnly := false; minW := 3; minH := 3; defaultW := 4; defaultH := 4; def_params := None;
     modes := [normal_mode] |}.
(** The list is stale, the operator is there, the trend never loaded. *)
Definition reading (k : jstring) : SourceState :=
  if js_eqb k "certificates-list" then
    {| data := JArr []; error := Some "502"%js; errorKind := Some kind_failure;
       loading := false; range := Some "1h"%js |}
  else if js_eqb k "certificates-status" then
    {| data := JObj [("detected"%js, JBool true)]; error := None; errorKind := None;
       loading := false; range := Some "1h"%js |}
  else IDLE.
Definition shown : WidgetResolution :=
  {| state := st_ready; blocking := None; stale := Some (reading "certificates-list"%js) |}.
Lemma ready_means_present_witness :
  landed (reading "certificates-list"%js) = true.
Proof.
  apply (proj1 (ready_means_present card reading [] shown ltac:(vm_compute; reflexivity)) eq_refl)
    with (k := "certificates-list"%js).
  - by apply (bool_decide_unpack _).
  - vm_compute. reflexivity.
Defined.
Lemma resolveWidgetState_explains_witness :
  ∃ required, mapM (λ k, reading <$> sourceKeyFor k []) (required_sources card) = Some required ∧
              explains required shown.
Proof. apply (resolveWidgetState_explains card reading [] shown). vm_compute. reflexivity. Defined.
Definition reading' (k : jstring) : SourceState :=
  if js_eqb k "dashboard-trends" then
    {| data := JNull; error := Some "403"%js; errorKind := Some kind_permission;
       loading := false; range := None |}
  else reading k.
Lemma card_required : required_sources card = ["certificates-list"; "certificates-status"]%js.
Proof. vm_compute. reflexivity. Qed.
Lemma optional_sources_never_gate_witness :
  ∃ r', resolveWidgetState card reading' [] = Some r' ∧ state r' = st_ready.
Proof.
  eexists. split; [vm_compute; reflexivity|]. symmetry.
  refine (proj1 (optional_sources_never_gate card reading reading' [] shown _ _ _ _)).
  - intros k key Hk. rewrite card_required, !elem_of_cons, elem_of_nil in Hk.
    destruct Hk as [->|[->|[]]]; (vm_compute (sourceKeyFor _ _); intros [= <-]; vm_compute; reflexivity).
  - vm_compute. reflexivity.
  - vm_compute. reflexivity.
Defined.
