(* ===== verification/Widgets.v ===== *)
(** * The shipped widgets and the palette that offers them:
    components/dashboard/widgets/*.tsx, catalog.ts

    One definition per widget module: what its [registerWidget] call declares.
    [WIDGETS] is the manifest (widgets/index.ts), in import order. The palette's
    decision reads the catalog, the layout being edited, the family statuses
    and the session. *)

From stdpp Require Import base list strings gmap sorting.
From Stdlib Require Import ZArith NArith Lia.
From S2P Require Import Prelude JsValue Uri Types Params Grid Placement EditSession Registry.
From S2P Require Import LayoutValidate WidgetState.

Open Scope Z_scope.

(** ** The widgets *)

Definition ActiveAlertsWidget : WidgetDef :=
  {| def_id := "active-alerts"%js; scopes := [overview];
     sources := ["dashboard-summary"]%js;
     optionalSources := None;
     familyStatus := None; adminOnly := false;
     minW := 2; minH := 3; defaultW := 3; defaultH := 6;
     def_params := None; modes := [normal_mode] |}.
Definition AuditActivityWidget : WidgetDef :=
  {| def_id := "audit-activity"%js; scopes := [overview];
     sources := ["audit-log"]%js;
     optionalSources := None;
     familyStatus := None; adminOnly := true;
     minW := 5; minH := 3; defaultW := 5; defaultH := 5;
     def_params := None; modes := [normal_mode] |}.
Definition CertsExpiringWidget : WidgetDef :=
  {| def_id := "certs-expiring"%js; scopes := [overview];
     sources := ["certificates-list"]%js;
     optionalSources := None;
     familyStatus := Some "certificates-status"%js; adminOnly := false;
     minW := 4; minH := 3; defaultW := 4; defaultH := 5;
     def_params := None; modes := [normal_mode] |}.
Definition ClusterHealthWidget : WidgetDef :=
  {| def_id := "cluster-health"%js; scopes := [overview];
     sources := ["dashboard-summary"]%js;
     optionalSources := None;
     familyStatus := None; adminOnly := false;
     minW := 3; minH := 4; defaultW := 4; defaultH := 6;
     def_params := None; modes := [compact_mode; normal_mode] |}.
Definition ClusterStatusWidget : WidgetDef :=
  {| def_id := "cluster-status"%js; scopes := [overview];
     sources := ["clusters-list"]%js;
     optionalSources := None;
     familyStatus := None; adminOnly := true;
     minW := 4; minH := 3; defaultW := 4; defaultH := 5;
     def_params := None; modes := [normal_mode] |}.
Definition ClusterTopologyWidget : WidgetDef :=
  {| def_id := "cluster-topology"%js; scopes := [overview];
     sources := ["pods-list"; "nodes-list"; "services-list"; "deployments-list";
       "statefulsets-list"; "daemonsets-list"; "pvcs-list"]%js;
     optionalSources := Some ["nodes-list"; "services-list"; "deployments-list";
       "statefulsets-list"; "daemonsets-list"; "pvcs-list"]%js;
     familyStatus := None; adminOnly := false;
     minW := 6; minH := 4; defaultW := 8; defaultH := 6;
     def_params := None; modes := [normal_mode] |}.
Definition CpuTileWidget : WidgetDef :=
  {| def_id := "cpu-tile"%js; scopes := [overview];
     sources := ["dashboard-summary"; "dashboard-trends"]%js;
     optionalSources := Some ["dashboard-trends"]%js;
     familyStatus := None; adminOnly := false;
     minW := 2; minH := 2; defaultW := 3; defaultH := 3;
     def_params := None; modes := [compact_mode; normal_mode] |}.
Definition DiagnosticsSummaryWidget : WidgetDef :=
  {| def_id := "diagnostics-summary"%js; scopes := [overview];
     sources := ["diagnostics-summary"]%js;
     optionalSources := None;
     familyStatus := None; adminOnly := false;
     minW := 3; minH := 3; defaultW := 4; defaultH := 4;
     def_params := Some [(PARAM_KEY_NAMESPACE, [])]; modes := [normal_mode] |}.
Definition EsoHealthWidget : WidgetDef :=
  {| def_id := "eso-health"%js; scopes := [overview];
     sources := ["external-secrets-list"]%js;
     optionalSources := None;
     familyStatus := Some "external-secrets-status"%js; adminOnly := false;
     minW := 4; minH := 3; defaultW := 4; defaultH := 5;
     def_params := None; modes := [normal_mode] |}.
Definition GatewayRoutesWidget : WidgetDef :=
  {| def_id := "gateway-routes"%js; scopes := [overview];
     sources := ["gateway-gateways"; "gateway-httproutes"]%js;
     optionalSources := None;
     familyStatus := Some "gateway-status"%js; adminOnly := false;
     minW := 4; minH := 3; defaultW := 4; defaultH := 5;
     def_params := None; modes := [normal_mode] |}.
Definition GitOpsAppHealthWidget : WidgetDef :=
  {| def_id := "gitops-app-health"%js; scopes := [overview];
     sources := ["gitops-applications"]%js;
     optionalSources := None;
     familyStatus := Some "gitops-status"%js; adminOnly := false;
     minW := 4; minH := 3; defaultW := 4; defaultH := 5;
     def_params := None; modes := [normal_mode] |}.
Definition GitOpsRecentSyncsWidget : WidgetDef :=
  {| def_id := "gitops-recent-syncs"%js; scopes := [overview];
     sources := ["gitops-applications"]%js;
     optionalSources := None;
     familyStatus := Some "gitops-status"%js; adminOnly := false;
     minW := 4; minH := 3; defaultW := 4; defaultH := 5;
     def_params := None; modes := [normal_mode] |}.
Definition HPAStatusWidget : WidgetDef :=
  {| def_id := "hpa-status"%js; scopes := [overview];
     sources := ["hpas-list"]%js;
     optionalSources := None;
     familyStatus := None; adminOnly := false;
     minW := 3; minH := 3; defaultW := 4; defaultH := 5;
     def_params := None; modes := [normal_mode] |}.
Definition HubbleFlowsWidget : WidgetDef :=
  {| def_id := "hubble-flows"%js; scopes := [overview];
     sources := ["hubble-flows"]%js;
     optionalSources := None;
     familyStatus := Some "hubble-status"%js; adminOnly := false;
     minW := 4; minH := 3; defaultW := 4; defaultH := 5;
     def_params := Some [(PARAM_KEY_NAMESPACE, [])]; modes := [normal_mode] |}.
Definition MemoryTileWidget : WidgetDef :=
  {| def_id := "memory-tile"%js; scopes := [overview];
     sources := ["dashboard-summary"; "dashboard-trends"]%js;
     optionalSources := Some ["dashboard-trends"]%js;
     familyStatus := None; adminOnly := false;
     minW := 2; minH := 2; defaultW := 3; defaultH := 3;
     def_params := None; modes := [compact_mode; normal_mode] |}.
Definition MeshGoldenSignalsWidget : WidgetDef :=
  {| def_id := "mesh-golden-signals"%js; scopes := [overview];
     sources := ["mesh-golden-signals"]%js;
     optionalSources := None;
     familyStatus := Some "mesh-status"%js; adminOnly := false;
     minW := 3; minH := 3; defaultW := 3; defaultH := 4;
     def_params := Some [(PARAM_KEY_NAMESPACE, []); (PARAM_KEY_SERVICE, [])]; modes := [normal_mode] |}.
Definition MtlsCoverageWidget : WidgetDef :=
  {| def_id := "mtls-coverage"%js; scopes := [overview];
     sources := ["mesh-mtls"]%js;
     optionalSources := None;
     familyStatus := Some "mesh-status"%js; adminOnly := false;
     minW := 4; minH := 3; defaultW := 4; defaultH := 5;
     def_params := None; modes := [normal_mode] |}.
Definition NetworkTileWidget : WidgetDef :=
  {| def_id := "network-tile"%js; scopes := [overview];
     sources := ["dashboard-trends"]%js;
     optionalSources := None;
     familyStatus := None; adminOnly := false;
     minW := 2; minH := 2; defaultW := 3; defaultH := 3;
     def_params := None; modes := [compact_mode; normal_mode] |}.
Definition NodeConditionsWidget : WidgetDef :=
  {| def_id := "node-conditions"%js; scopes := [overview];
     sources := ["nodes-list"]%js;
     optionalSources := None;
     familyStatus := None; adminOnly := false;
     minW := 4; minH := 3; defaultW := 6; defaultH := 5;
     def_params := None; modes := [normal_mode] |}.
Definition NodesWidget : WidgetDef :=
  {| def_id := "nodes"%js; scopes := [overview];
     sources := ["dashboard-summary"]%js;
     optionalSources := None;
     familyStatus := None; adminOnly := false;
     minW := 3; minH := 4; defaultW := 4; defaultH := 6;
     def_params := None; modes := [normal_mode] |}.
Definition NotificationsFeedWidget : WidgetDef :=
  {| def_id := "notifications-feed"%js; scopes := [overview];
     sources := ["unread-notifications"]%js;
     optionalSources := None;
     familyStatus := None; adminOnly := false;
     minW := 4; minH := 3; defaultW := 4; defaultH := 6;
     def_params := None; modes := [compact_mode; normal_mode] |}.
Definition PDBRiskWidget : WidgetDef :=
  {| def_id := "pdb-risk"%js; scopes := [overview];
     sources := ["pdbs-list"]%js;
     optionalSources := None;
     familyStatus := None; adminOnly := false;
     minW := 3; minH := 3; defaultW := 4; defaultH := 5;
     def_params := None; modes := [normal_mode] |}.
Definition PendingPodsWidget : WidgetDef :=
  {| def_id := "pending-pods"%js; scopes := [overview];
     sources := ["pods-list"]%js;
     optionalSources := None;
     familyStatus := None; adminOnly := false;
     minW := 3; minH := 3; defaultW := 4; defaultH := 5;
     def_params := None; modes := [normal_mode] |}.
Definition PinnedResourcesWidget : WidgetDef :=
  {| def_id := "pinned-resources"%js; scopes := [overview];
     sources := ["preference-pins"]%js;
     optionalSources := None;
     familyStatus := None; adminOnly := false;
     minW := 3; minH := 3; defaultW := 3; defaultH := 5;
     def_params := None; modes := [normal_mode] |}.
Definition PodRestartsWidget : WidgetDef :=
  {| def_id := "pod-restarts"%js; scopes := [overview];
     sources := ["pods-list"]%js;
     optionalSources := None;
     familyStatus := None; adminOnly := false;
     minW := 3; minH := 3; defaultW := 4; defaultH := 5;
     def_params := None; modes := [normal_mode] |}.
Definition PodStatusWidget : WidgetDef :=
  {| def_id := "pod-status"%js; scopes := [overview];
     sources := ["dashboard-summary"]%js;
     optionalSources := None;
     familyStatus := None; adminOnly := false;
     minW := 3; minH := 4; defaultW := 5; defaultH := 6;
     def_params := None; modes := [normal_mode] |}.
Definition PodsTileWidget : WidgetDef :=
  {| def_id := "pods-tile"%js; scopes := [overview];
     sources := ["dashboard-summary"; "dashboard-trends"]%js;
     optionalSources := Some ["dashboard-trends"]%js;
     familyStatus := None; adminOnly := false;
     minW := 2; minH := 2; defaultW := 3; defaultH := 3;
     def_params := None; modes := [compact_mode; normal_mode] |}.
Definition PolicyComplianceWidget : WidgetDef :=
  {| def_id := "policy-compliance"%js; scopes := [overview];
     sources := ["policy-compliance-score"; "policy-compliance-history"]%js;
     optionalSources := Some ["policy-compliance-history"]%js;
     familyStatus := Some "policies-status"%js; adminOnly := false;
     minW := 3; minH := 4; defaultW := 4; defaultH := 5;
     def_params := None; modes := [normal_mode] |}.
Definition PolicyViolationsWidget : WidgetDef :=
  {| def_id := "policy-violations"%js; scopes := [overview];
     sources := ["policy-violations-list"]%js;
     optionalSources := None;
     familyStatus := Some "policies-status"%js; adminOnly := false;
     minW := 4; minH := 3; defaultW := 4; defaultH := 5;
     def_params := None; modes := [normal_mode] |}.
Definition QuotaPressureWidget : WidgetDef :=
  {| def_id := "quota-pressure"%js; scopes := [overview];
     sources := ["limits-namespaces"]%js;
     optionalSources := None;
     familyStatus := None; adminOnly := false;
     minW := 3; minH := 3; defaultW := 4; defaultH := 6;
     def_params := None; modes := [normal_mode] |}.
Definition RecentEventsWidget : WidgetDef :=
  {| def_id := "recent-events"%js; scopes := [overview];
     sources := ["recent-events"]%js;
     optionalSources := None;
     familyStatus := None; adminOnly := false;
     minW := 3; minH := 3; defaultW := 5; defaultH := 6;
     def_params := None; modes := [normal_mode] |}.
Definition ResourceUtilizationWidget : WidgetDef :=
  {| def_id := "resource-utilization"%js; scopes := [overview];
     sources := ["dashboard-trends"]%js;
     optionalSources := Some ["dashboard-trends"]%js;
     familyStatus := None; adminOnly := false;
     minW := 4; minH := 4; defaultW := 7; defaultH := 6;
     def_params := None; modes := [normal_mode] |}.
Definition SavedViewsWidget : WidgetDef :=
  {| def_id := "saved-views"%js; scopes := [overview];
     sources := ["preference-views"]%js;
     optionalSources := None;
     familyStatus := None; adminOnly := false;
     minW := 3; minH := 3; defaultW := 3; defaultH := 5;
     def_params := None; modes := [normal_mode] |}.
Definition SnapshotHealthWidget : WidgetDef :=
  {| def_id := "snapshot-health"%js; scopes := [overview];
     sources := ["snapshots-list"]%js;
     optionalSources := None;
     familyStatus := Some "snapshots-status"%js; adminOnly := false;
     minW := 4; minH := 3; defaultW := 4; defaultH := 5;
     def_params := None; modes := [normal_mode] |}.
Definition StorageCapacityWidget : WidgetDef :=
  {| def_id := "storage-capacity"%js; scopes := [overview];
     sources := ["storage-classes"; "volume-capacity"]%js;
     optionalSources := Some ["volume-capacity"]%js;
     familyStatus := None; adminOnly := false;
     minW := 4; minH := 4; defaultW := 4; defaultH := 7;
     def_params := None; modes := [normal_mode] |}.
Definition TopConsumersWidget : WidgetDef :=
  {| def_id := "top-consumers"%js; scopes := [overview];
     sources := ["top-consumers-cpu"; "top-consumers-memory"]%js;
     optionalSources := Some ["top-consumers-memory"]%js;
     familyStatus := None; adminOnly := false;
     minW := 4; minH := 4; defaultW := 4; defaultH := 6;
     def_params := None; modes := [normal_mode] |}.
Definition VeleroBackupsWidget : WidgetDef :=
  {| def_id := "velero-backups"%js; scopes := [overview];
     sources := ["velero-backups-list"]%js;
     optionalSources := None;
     familyStatus := Some "velero-status"%js; adminOnly := false;
     minW := 4; minH := 3; defaultW := 4; defaultH := 5;
     def_params := None; modes := [normal_mode] |}.
Definition VulnerabilitySeverityWidget : WidgetDef :=
  {| def_id := "vulnerability-severity"%js; scopes := [overview];
     sources := ["vulnerability-reports"]%js;
     optionalSources := None;
     familyStatus := Some "scanning-status"%js; adminOnly := false;
     minW := 4; minH := 3; defaultW := 4; defaultH := 5;
     def_params := Some [(PARAM_KEY_NAMESPACE, [])]; modes := [normal_mode] |}.
Definition WorkloadHealthWidget : WidgetDef :=
  {| def_id := "workload-health"%js; scopes := [overview];
     sources := ["resource-counts"; "deployments-list"; "statefulsets-list"; "daemonsets-list"]%js;
     optionalSources := Some ["deployments-list"; "statefulsets-list"; "daemonsets-list"]%js;
     familyStatus := None; adminOnly := false;
     minW := 3; minH := 3; defaultW := 4; defaultH := 5;
     def_params := None; modes := [normal_mode] |}.
Definition WIDGETS : list WidgetDef :=
  [ActiveAlertsWidget; AuditActivityWidget; CertsExpiringWidget; ClusterHealthWidget;
   ClusterStatusWidget; ClusterTopologyWidget; CpuTileWidget; DiagnosticsSummaryWidget;
   EsoHealthWidget; GatewayRoutesWidget; GitOpsAppHealthWidget; GitOpsRecentSyncsWidget;
   HPAStatusWidget; HubbleFlowsWidget; MemoryTileWidget; MeshGoldenSignalsWidget;
   MtlsCoverageWidget; NetworkTileWidget; NodeConditionsWidget; NodesWidget;
   NotificationsFeedWidget; PDBRiskWidget; PendingPodsWidget; PinnedResourcesWidget;
   PodRestartsWidget; PodStatusWidget; PodsTileWidget; PolicyComplianceWidget;
   PolicyViolationsWidget; QuotaPressureWidget; RecentEventsWidget; ResourceUtilizationWidget;
   SavedViewsWidget; SnapshotHealthWidget; StorageCapacityWidget; TopConsumersWidget;
   VeleroBackupsWidget; VulnerabilitySeverityWidget; WorkloadHealthWidget].

(** ** The palette *)

Inductive DisabledReason := DASHBOARD_FULL | ALREADY_PLACED | NO_ROOM | NOT_INSTALLED | NOT_PERMITTED.
#[export] Instance DisabledReason_eq_dec : EqDecision DisabledReason.
Proof. solve_decision. Defined.

(** [viewerIsAdmin] is [None] before the session has answered. *)
Definition availabilityReason (d : WidgetDef) (statuses : list (jstring * SourceState))
    (viewerIsAdmin : option bool) : option DisabledReason :=
  if adminOnly d && bool_decide (viewerIsAdmin = Some false) then Some NOT_PERMITTED else
  match familyStatus d with
  | None => None
  | Some f =>
      match assoc f statuses with
      | None => None
      | Some status =>
          if bool_decide (errorKind status = Some kind_permission) then Some NOT_PERMITTED
          else if negb (landed status) then None
          else if presenceUnknown (data status) then None
          else if featurePresent (data status) then None else Some NOT_INSTALLED
      end
  end.
(** [None]: [placeNewWidget] is outside its model. *)
Definition disabledReasonFor (draws : nat → jstring) (fuel n : nat) (d : WidgetDef)
    (placed : list LayoutItem) (cols : Z) (statuses : list (jstring * SourceState))
    (viewerIsAdmin : option bool) : option (option DisabledReason) :=
  if DASHBOARD_MAX_ITEMS <=? Z.of_nat (length placed) then Some (Some DASHBOARD_FULL) else
  match availabilityReason d statuses viewerIsAdmin with
  | Some r => Some (Some r)
  | None =>
      if bool_decide (def_params d = None) && bool_decide (def_id d ∈ id <$> placed)
      then Some (Some ALREADY_PLACED) else
      '(p, _) ← placeNewWidget draws fuel n placed d cols [];
      Some (match p with None => Some NO_ROOM | Some _ => None end)
  end.
(** [-1] when nothing can be added. *)
Fixpoint index_of_true (l : list bool) (i : Z) : Z :=
  match l with
  | [] => -1
  | b :: l' => if b then i else index_of_true l' (i + 1)
  end.
Definition selectionAfterEntriesChange (addable : list bool) (cur : Z) : Z :=
  if (0 <=? cur) && (cur <? Z.of_nat (length addable)) && default false (addable !! Z.to_nat cur)
  then cur else index_of_true addable 0.

(** ** The catalog as shipped *)

#[export] Instance widgetSpec_eq_dec : EqDecision widgetSpec.
Proof. solve_decision. Defined.
(** The server's entry for a widget of the client. *)
Definition server_spec (d : WidgetDef) : widgetSpec :=
  {| MinW := minW d; MinH := minH d; Params := default [] (def_params d) |}.
(** What the widget's own declaration has to satisfy: its sources exist, a
    parameterized source finds its parameters declared, and it starts no
    smaller than its minimum and no wider than the grid. *)
Definition declaration_ok (d : WidgetDef) : Prop :=
  sources d ⊆ DATA_SOURCE_KEYS ∧ sources d ≠ [] ∧
  default [] (optionalSources d) ⊆ sources d ∧
  (∀ f, familyStatus d = Some f → f ∈ FAMILY_STATUS_KEYS) ∧
  Forall (λ s, default [] (assoc s PARAMETERIZED_SOURCE_PARAMS) ⊆ declared_keys d) (sources d) ∧
  minW d <= defaultW d <= dashboardColumns ∧ minH d <= defaultH d.
Definition declaration_check (d : WidgetDef) : bool :=
  forallb (λ s, bool_decide (s ∈ DATA_SOURCE_KEYS)) (sources d) &&
  negb (bool_decide (sources d = [])) &&
  forallb (λ s, bool_decide (s ∈ sources d)) (default [] (optionalSources d)) &&
  match familyStatus d with Some f => bool_decide (f ∈ FAMILY_STATUS_KEYS) | None => true end &&
  forallb (λ s, forallb (λ k, bool_decide (k ∈ declared_keys d))
                  (default [] (assoc s PARAMETERIZED_SOURCE_PARAMS))) (sources d) &&
  (minW d <=? defaultW d) && (defaultW d <=? dashboardColumns) && (minH d <=? defaultH d).
Lemma forallb_subset {A} `{EqDecision A} (l k : list A) :
  forallb (λ a, bool_decide (a ∈ k)) l = true → l ⊆ k.
Proof. intros H a Ha. rewrite forallb_forall in H. apply list_elem_of_In, H in Ha. by reflect_bools. Qed.
Lemma declaration_check_ok d : declaration_check d = true → declaration_ok d.
Proof.
  unfold declaration_check, declaration_ok. rewrite !andb_true_iff.
  intros [[[[[[[H1 H2] H3] H4] H5] H6] H7] H8]. reflect_bools. split_and!; try done.
  - by apply forallb_subset.
  - by apply forallb_subset.
  - intros f E. rewrite E in H4. by reflect_bools.
  - apply Forall_forall. intros s Hs%list_elem_of_In. rewrite forallb_forall in H5.
    by apply forallb_subset, (H5 s).
Qed.

Lemma widget_known d : d ∈ WIDGETS → assoc (def_id d) allowedWidgets = Some (server_spec d).
Proof.
  intros Hd. assert (forallb (λ d, bool_decide (assoc (def_id d) allowedWidgets = Some (server_spec d)))
    WIDGETS = true) as H by (vm_compute; reflexivity).
  rewrite forallb_forall in H. apply list_elem_of_In, H in Hd. by reflect_bools.
Qed.
Lemma widget_declared d : d ∈ WIDGETS → declaration_ok d.
Proof.
  intros Hd. apply declaration_check_ok.
  assert (forallb declaration_check WIDGETS = true) as H by (vm_compute; reflexivity).
  rewrite forallb_forall in H. by apply H, list_elem_of_In.
Qed.
Lemma widgets_registered : register_all [] WIDGETS = inr WIDGETS.
Proof. vm_compute. reflexivity. Qed.

(** C20. The two halves of the catalog agree: every module registers, in any case
    without throwing; the server knows exactly the widgets that ship, with the
    same minimum size and the same parameters; and every declaration is sound,
    so no shipped card waits for a source or a parameter that does not exist. *)
Theorem catalog_parity :
  register_all [] WIDGETS = inr WIDGETS ∧
  def_id <$> WIDGETS ≡ₚ allowedWidgets.*1 ∧
  Forall (λ d, assoc (def_id d) allowedWidgets = Some (server_spec d) ∧ declaration_ok d) WIDGETS.
Proof.
  split; [apply widgets_registered|]. split.
  - apply NoDup_Permutation; [apply (bool_decide_unpack _); vm_compute; exact I..|].
    intros k. split; apply forallb_subset; vm_compute; reflexivity.
  - apply Forall_and. split; [apply Forall_forall; apply widget_known|].
    apply Forall_forall. apply widget_declared.
Qed.

(** ** The two checks of a parameter value *)

Lemma count_runes_spec l : count_runes false l = N.of_nat (length (runes l)).
Proof.
  remember (length l) as n eqn:Hn. revert l Hn.
  induction n as [n IH] using (well_founded_induction lt_wf). intros l ->.
  destruct l as [|c l]; [done|]. cbn [count_runes runes andb].
  change (is_high_surrogate c) with (high_surrogate c).
  destruct (high_surrogate c) eqn:Eh.
  - destruct l as [|d l]; [done|]. cbn [count_runes andb].
    change (is_low_surrogate d) with (low_surrogate d). destruct (low_surrogate d) eqn:El.
    + rewrite (IH (length l)) by (simpl; lia || done). cbn [length]. lia.
    + assert (count_runes false (d :: l) = N.of_nat (length (runes (d :: l)))) as E
        by (apply (IH (length (d :: l))); simpl; lia || done).
      cbn [count_runes andb] in E. rewrite E. cbn [length]. lia.
  - rewrite (IH (length l)) by (simpl; lia || done). destruct (low_surrogate c); cbn [length]; lia.
Qed.
Lemma control_runes l : existsb is_control l = existsb is_control (runes l).
Proof.
  remember (length l) as n eqn:Hn. revert l Hn.
  induction n as [n IH] using (well_founded_induction lt_wf). intros l ->.
  destruct l as [|c l]; [done|]. cbn [existsb runes].
  assert (Hc : ∀ k, (160 <= k)%N → is_control k = false).
  { intros k Hk. unfold is_control. apply orb_false_iff. rewrite andb_false_iff, !N.leb_gt. lia. }
  assert (El := IH (length l) ltac:(simpl; lia) l eq_refl).
  destruct (high_surrogate c) eqn:Eh.
  - rewrite (Hc c) by (apply high_surrogate_spec in Eh; lia). cbn [orb].
    destruct l as [|d l]; [done|]. destruct (low_surrogate d) eqn:Ed.
    + cbn [existsb]. rewrite (Hc d) by (apply low_surrogate_spec in Ed; lia).
      pose proof (code_point_range c d Eh Ed). rewrite (Hc (code_point c d)) by lia. cbn [orb].
      apply (IH (length l)); [simpl; lia|done].
    + rewrite El. done.
  - destruct (low_surrogate c) eqn:El'; cbn [existsb]; rewrite El; [|done].
    by rewrite (Hc c) by (apply low_surrogate_spec in El'; lia).
Qed.

Lemma paramValueError_value k v : k ∈ KNOWN_PARAM_KEYS →
  paramValueError k v [] = Some None ↔ value_ok k v.
Proof.
  intros Hk. unfold paramValueError, value_ok, runeCount, CONTROL_CHARS, hasControlChars, rune_count.
  rewrite count_runes_spec, control_runes.
  destruct (js_eqb v "") eqn:Ev; [apply js_eqb_eq in Ev; naive_solver|]. apply js_eqb_neq in Ev.
  unfold MAX_PARAM_VALUE_LEN, maxParamValueLen.
  destruct (N.ltb_spec 253 (N.of_nat (length (runes (units v))))); [split; [done|lia]|].
  destruct (existsb is_control (runes (units v))); [naive_solver|].
  assert (length (runes (units v)) ≤ 253)%nat by lia.
  unfold KNOWN_PARAM_KEYS in Hk. rewrite !elem_of_cons, elem_of_nil in Hk.
  destruct Hk as [->|[->|[]]].
  - change (table_get PARAM_VALUE_SHAPE PARAM_KEY_NAMESPACE) with (@Missing (jstring → bool)).
    split; [|done]. intros _. by split_and!.
  - change (table_get PARAM_VALUE_SHAPE PARAM_KEY_SERVICE) with (Own service_shape). cbv beta iota.
    destruct (service_shape v) eqn:Es; [split; [intros _; by split_and!|done]|].
    split; [done|]. intros (_ & _ & _ & H'). by specialize (H' eq_refl).
Qed.
(** The dialog and the server draw the same line: a value of a known parameter
    is accepted by the one exactly when it is acceptable to the other, whatever
    the value is. *)
Theorem param_check_parity k v : k ∈ KNOWN_PARAM_KEYS →
  paramValueError k v [] = Some None ↔ value_ok k v.
Proof. apply paramValueError_value. Qed.

(** ** What the palette adds can be stored *)

Definition ascii (l : list N) : Prop := Forall (λ c, c < 128)%N l.
Lemma runes_ascii l : ascii l → runes l = l.
Proof.
  induction 1 as [|c l Hc Hl IH]; [done|]. cbn [runes].
  assert (high_surrogate c = false) as -> by (apply high_surrogate_false; lia).
  assert (low_surrogate c = false) as -> by (apply low_surrogate_false; lia). by rewrite IH.
Qed.
Lemma ascii_wire s : ascii (units s) → wire_ok s.
Proof.
  intros H. split; [eapply Forall_impl; [done|]; unfold is_unit; simpl; lia|].
  destruct s as [l]. cbn [units] in H. unfold wire_string. cbn [units]. rewrite runes_ascii by done. f_equal.
  induction H as [|c l Hc Hl IH]; [done|]. rewrite to_utf16_cons, IH.
  by destruct (N.ltb_spec c 65536); [|lia].
Qed.
Lemma label_ascii l : Forall (λ c, is_label_unit c = true) l → ascii l.
Proof.
  intros H. eapply Forall_impl; [done|]. intros c Hc. unfold is_label_unit, is_alnum, is_lower in Hc.
  rewrite !orb_true_iff, !andb_true_iff, !N.leb_le, N.eqb_eq in Hc. lia.
Qed.

Lemma label_loop_ok i n l :
  (∀ j c, l !! j = Some c → is_alnum c = true ∨ c = 45%N ∧ (i + j ≠ 0)%nat ∧ (i + j ≠ n - 1)%nat) →
  label_loop i n l = true.
Proof.
  revert i. induction l as [|c l IH]; intros i H; [done|]. cbn [label_loop].
  rewrite IH; [rewrite andb_true_r|].
  2:{ intros j d Hj. destruct (H (S j) d Hj) as [?|(? & ? & ?)]; [by left|right]. split_and!; [done|lia|lia]. }
  destruct (H 0%nat c eq_refl) as [->|(-> & H1 & H2)]; [done|]. rewrite Nat.add_0_r in *.
  rewrite (proj2 (Nat.eqb_neq _ _) H1), (proj2 (Nat.eqb_neq _ _) H2). done.
Qed.
Lemma split_dots_none l : 46%N ∉ l → split_dots l = [l].
Proof.
  induction l as [|c l IH]; intros H; [done|]. rewrite not_elem_of_cons in H. destruct H as [Hc H].
  cbn [split_dots]. destruct (N.eqb_spec c 46); [congruence|]. by rewrite IH.
Qed.

(** A widget id is a DNS label with room for a suffix. *)
Lemma widget_id_label d : d ∈ WIDGETS →
  Forall (λ c, is_label_unit c = true) (units (def_id d)) ∧
  (1 ≤ length (units (def_id d)) ≤ 55)%nat ∧
  (∀ c, units (def_id d) !! 0%nat = Some c → is_alnum c = true).
Proof.
  intros Hd. assert (H : forallb (λ d, forallb is_label_unit (units (def_id d)) &&
    bool_decide (1 ≤ length (units (def_id d)) ≤ 55)%nat &&
    match units (def_id d) with c :: _ => is_alnum c | [] => true end) WIDGETS = true)
    by (vm_compute; reflexivity).
  rewrite forallb_forall in H. apply list_elem_of_In, H in Hd. reflect_bools.
  split_and!; try tauto.
  - apply Forall_forall. intros c Hc%list_elem_of_In. by eapply forallb_forall.
  - intros c. destruct (units (def_id d)); [done|]. by intros [= <-].
Qed.
Lemma new_id_ok draws fuel n d iid n' : d ∈ WIDGETS →
  (∀ i, Forall (λ c, is_alnum c = true) (drop 2 (units (draws i)))) →
  newInstanceId draws fuel n (def_id d) = Some (iid, n') → id_ok iid ∧ wire_ok iid.
Proof.
  intros Hd Hdraws (suffix & -> & Hlen & Hall)%newInstanceId_inv.
  destruct (widget_id_label d Hd) as (Hl & Hn & Hfirst).
  assert (Hs : Forall (λ c, is_alnum c = true) (units suffix)).
  { eapply Forall_impl; [done|]. intros c (i & Hc). specialize (Hdraws i).
    rewrite Forall_forall in Hdraws. by apply Hdraws. }
  set (u := units (def_id d)) in *. set (l := u ++ 45%N :: units suffix).
  assert (El : units (def_id d +++ "-" +++ suffix)%js = l) by done.
  assert (Hlab : Forall (λ c, is_label_unit c = true) l).
  { apply Forall_app. split; [done|]. constructor; [done|]. eapply Forall_impl; [done|].
    intros c Hc. unfold is_label_unit. by rewrite Hc. }
  assert (Hlen' : length l = (length u + 9)%nat).
  { unfold l. rewrite length_app. cbn [length]. unfold INSTANCE_SUFFIX_LEN in Hlen. lia. }
  split; [|apply ascii_wire; rewrite El; by apply label_ascii].
  unfold id_ok, rune_count, maxInstanceIDLen, isDNS1123Subdomain. rewrite El.
  rewrite runes_ascii by (by apply label_ascii). split; [lia|].
  destruct l as [|c0 l0] eqn:El0; [simpl in Hlen'; lia|]. rewrite <- El0 in *.
  rewrite split_dots_none.
  2:{ intros Hin. rewrite Forall_forall in Hlab. by specialize (Hlab _ Hin). }
  cbn [forallb]. rewrite andb_true_r. unfold isDNS1123Label. rewrite El0, <- El0.
  apply label_loop_ok. intros j c Hj. cbn [Nat.add].
  destruct (decide (j < length u)%nat) as [Hju|Hju].
  - unfold l in Hj. rewrite lookup_app_l in Hj by done.
    rewrite Forall_lookup in Hl. specialize (Hl _ _ Hj). unfold is_label_unit in Hl.
    apply orb_true_iff in Hl as [Ha|Ha%N.eqb_eq]; [by left|]. subst c.
    destruct (decide (j = 0%nat)) as [->|]; [left; by apply Hfirst|]. right. split_and!; [done|lia|lia].
  - unfold l in Hj. rewrite lookup_app_r in Hj by lia.
    destruct (decide (j = length u)) as [->|]; [rewrite Nat.sub_diag in Hj; injection Hj as <-; right; split_and!; [done|lia|lia]|].
    left. rewrite Forall_lookup in Hs. apply (Hs (j - length u - 1)%nat).
    rewrite lookup_cons_ne_0 in Hj by lia. by rewrite <- Nat.sub_1_r in Hj.
Qed.

(** ** What the palette offers *)

Lemma placeNewWidget_answers draws fuel n items d cols ps :
  ordinary_params d →
  (INSTANCE_SUFFIX_LEN ≤ length (filter (λ i, 3 ≤ length (units (draws i)))%nat (seq n fuel)))%nat →
  ∃ r n', placeNewWidget draws fuel n items d cols ps = Some (r, n') ∧
    (r = None ↔ ∀ cell, ¬ free_cell items (placed_width d cols) (placed_height d) cols cell).
Proof.
  intros Hord Hdraws. destruct (narrowParams_total d ps Hord) as [carried Hcar].
  destruct (newInstanceId_total draws fuel n (def_id d) Hdraws) as [[iid m] Hiid].
  pose proof (firstFit_spec items (placed_width d cols) (placed_height d) cols) as Hs.
  unfold placeNewWidget. destruct (firstFit _ _ _ _) as [[cx cy]|].
  - rewrite Hcar. cbn [mbind option_bind]. rewrite Hiid. do 2 eexists. split; [done|].
    split; [done|]. intros Hn. by destruct (Hn (cx, cy)), Hs.
  - by exists None, n.
Qed.
(** A row of the palette can be added exactly when nothing stands in its way:
    the dashboard is not full, the widget works here for this account, it is
    not already there unless it takes parameters, and some cell under the row
    cap is free for it. *)
Theorem palette_offers_iff draws fuel n d placed cols statuses admin :
  ordinary_params d →
  (INSTANCE_SUFFIX_LEN ≤ length (filter (λ i, 3 ≤ length (units (draws i)))%nat (seq n fuel)))%nat →
  ∃ r, disabledReasonFor draws fuel n d placed cols statuses admin = Some r ∧
    (r = None ↔
     Z.of_nat (length placed) < DASHBOARD_MAX_ITEMS ∧ availabilityReason d statuses admin = None ∧
     (def_params d = None → def_id d ∉ id <$> placed) ∧
     ∃ cell, free_cell placed (placed_width d cols) (placed_height d) cols cell).
Proof.
  intros Hord Hdraws. unfold disabledReasonFor.
  destruct (Z.leb_spec DASHBOARD_MAX_ITEMS (Z.of_nat (length placed))) as [Hf|Hf].
  { eexists. split; [done|]. split; [done|]. intros [? _]. lia. }
  destruct (availabilityReason d statuses admin) as [a|].
  { eexists. split; [done|]. split; [done|]. by intros (_ & ? & _). }
  destruct (placeNewWidget_answers draws fuel n placed d cols [] Hord Hdraws) as (p & n' & -> & Hp).
  destruct (bool_decide (def_params d = None) && bool_decide (def_id d ∈ id <$> placed)) eqn:Eb.
  { reflect_bools. eexists. split; [done|]. split; [done|]. intros (_ & _ & Hs & _). by destruct Hs. }
  cbn [mbind option_bind]. eexists. split; [done|].
  assert (Hs : def_params d = None → def_id d ∉ id <$> placed).
  { intros E Hin. by rewrite !bool_decide_eq_true_2 in Eb. }
  destruct p as [it|].
  - split; [|done]. intros _. split_and!; try done.
    destruct (firstFit placed (placed_width d cols) (placed_height d) cols) as [cell|] eqn:Ef.
    + exists cell. pose proof (firstFit_spec placed (placed_width d cols) (placed_height d) cols) as Hsp.
      rewrite Ef in Hsp. apply Hsp.
    + exfalso. assert (Some it = None); [|done]. apply Hp.
      pose proof (firstFit_spec placed (placed_width d cols) (placed_height d) cols) as Hsp. by rewrite Ef in Hsp.
  - split; [done|]. intros (_ & _ & _ & cell & Hc). by destruct (proj1 Hp eq_refl cell).
Qed.

Lemma index_of_true_spec l i : 0 <= i →
  index_of_true l i = -1 ∧ Forall (λ b, b = false) l ∨
  ∃ k, index_of_true l i = i + Z.of_nat k ∧ l !! k = Some true ∧ ∀ j, (j < k)%nat → l !! j = Some false.
Proof.
  revert i. induction l as [|b l IH]; intros i Hi; cbn [index_of_true]; [by left|].
  destruct b.
  - right. exists 0%nat. split; [lia|]. split; [done|]. lia.
  - destruct (IH (i + 1)) as [[-> Hl]|(k & -> & Hk & Hj)]; [lia|left; by split; [|constructor]|].
    right. exists (S k). split; [lia|]. split; [done|]. intros [|j] Hlt; [done|]. apply Hj. lia.
Qed.
(** The palette's selection never sits on a row that cannot be added: it stays
    where it is while that row can be, moves to the first one that can, and is
    nowhere exactly when none can. *)
Theorem selection_sits_on_addable addable cur :
  let s := selectionAfterEntriesChange addable cur in
  (s = -1 ↔ Forall (λ b, b = false) addable) ∧
  (s ≠ -1 → 0 <= s ∧ addable !! Z.to_nat s = Some true) ∧
  (0 <= cur → addable !! Z.to_nat cur = Some true → s = cur).
Proof.
  intros s. unfold s, selectionAfterEntriesChange.
  destruct ((0 <=? cur) && (cur <? Z.of_nat (length addable)) && default false (addable !! Z.to_nat cur)) eqn:E.
  - reflect_bools. destruct (addable !! Z.to_nat cur) as [[]|] eqn:Ec; try done. split; [|by auto].
    split; [lia|]. intros Hall. rewrite Forall_lookup in Hall. by specialize (Hall _ _ Ec).
  - assert (Hno : 0 <= cur → addable !! Z.to_nat cur ≠ Some true).
    { intros Hc Ec. rewrite Ec in E. cbn [default from_option] in E. rewrite andb_true_r in E.
      apply lookup_lt_Some in Ec. rewrite (proj2 (Z.leb_le _ _) Hc) in E. cbn [andb] in E. reflect_bools. lia. }
    destruct (index_of_true_spec addable 0) as [[-> Hl]|(k & -> & Hk & _)]; [lia|..].
    + split_and!; [done|done|]. intros Hc He. by destruct (Hno Hc).
    + split_and!.
      * split; [lia|]. intros Hall. rewrite Forall_lookup in Hall. by specialize (Hall _ _ Hk).
      * intros _. split; [lia|]. by replace (Z.to_nat (0 + Z.of_nat k)) with k by lia.
      * intros Hc He. by destruct (Hno Hc).
Qed.

(** ** Witnesses *)

Lemma param_check_parity_witness : value_ok PARAM_KEY_SERVICE "checkout"%js.
Proof.
  apply (proj1 (param_check_parity PARAM_KEY_SERVICE "checkout"%js ltac:(right; left))).
  vm_compute. reflexivity.
Defined.
Lemma palette_offers_iff_witness :
  ∃ r, disabledReasonFor demo_draws 20 0 NodesWidget [] 12 [] None = Some r ∧ r = None.
Proof.
  destruct (palette_offers_iff demo_draws 20 0 NodesWidget [] 12 [] None) as (r & Hr & Hiff).
  - split; by apply (bool_decide_unpack _).
  - vm_compute. lia.
  - exists r. split; [exact Hr|]. apply Hiff. split; [vm_compute; reflexivity|].
    split; [vm_compute; reflexivity|]. split.
    + intros _ H. by apply elem_of_nil in H.
    + exists (0, 0). repeat split; try (vm_compute; discriminate). constructor.
Defined.
Lemma selection_sits_on_addable_witness : selectionAfterEntriesChange [false; true; true] 2 = 2.
Proof.
  destruct (selection_sits_on_addable [false; true; true] 2) as (_ & _ & H). apply H; [lia|reflexivity].
Defined.
