(* ===== verification/Cluster.v ===== *)
(** * The selected cluster: src/lib/cluster.ts

    The three signals as one record, the switch protocol, and the pair kept in
    [localStorage]. A storage is what its two accessors do: [get] and [set]
    are [None] where the accessor throws. *)

From stdpp Require Import base list strings gmap.
From Stdlib Require Import ZArith Lia.
From S2P Require Import Prelude JsValue Uri JsonText JsonParse.

(** ** Definitions *)

Definition LOCAL_CLUSTER_ID : jstring := "local"%js.
Definition LOCAL_GENERATION : jstring := "local"%js.
Definition UNKNOWN_GENERATION : jstring := "unknown"%js.
Definition TARGET_KEY : jstring := "k8scenter.clusterTarget"%js.
Definition LEGACY_CLUSTER_KEY : jstring := "k8scenter.selectedCluster"%js.

Record ClusterTarget := { clusterId : jstring; generation : jstring; epoch : N }.
(** The signals hold the same three values. *)
Definition ClusterState : Type := ClusterTarget.

Section Storage.
(** [storage.getItem(key)]: throws, [null], or the value. *)
Variable getItem : jstring → option (option jstring).

Definition fallback : jstring * jstring := (LOCAL_CLUSTER_ID, LOCAL_GENERATION).
(** [typeof v === "string" && v] *)
Definition nonempty_string (v : jsval) : option jstring :=
  match v with JStr s => if js_eqb s "" then None else Some s | _ => None end.
(** The pair a parsed value holds, or the fall-through to [fallback]. Reading a
    field of an array finds nothing. *)
Definition target_of (v : jsval) : jstring * jstring :=
  match v with
  | JObj fields =>
      match nonempty_string (field fields "clusterId") with
      | Some c =>
          if js_eqb c LOCAL_CLUSTER_ID then fallback
          else (c, default UNKNOWN_GENERATION (nonempty_string (field fields "generation")))
      | None => fallback
      end
  | _ => fallback
  end.
Definition readPersistedTarget (has_storage : bool) : jstring * jstring :=
  if negb has_storage then fallback else
  match getItem TARGET_KEY with
  | None => fallback
  | Some raw =>
      let legacy :=
        match getItem LEGACY_CLUSTER_KEY with
        | Some (Some l) =>
            if js_eqb l "" || js_eqb l LOCAL_CLUSTER_ID then fallback else (l, UNKNOWN_GENERATION)
        | _ => fallback
        end in
      match raw with
      | None => legacy
      | Some r =>
          if js_eqb r "" then legacy
          else match JSON_parse r with Some v => target_of v | None => fallback end
      end
  end.
End Storage.

(** [JSON.stringify({ clusterId, generation })] *)
Definition target_text (c g : jstring) : jstring :=
  JS ([123%N] ++ json_string "clusterId"%js ++ [58%N] ++ json_string c ++ [44%N]
      ++ json_string "generation"%js ++ [58%N] ++ json_string g ++ [125%N]).
(** A storage as a map; a write that throws leaves it alone. *)
Definition persistTarget (storage : option (gmap jstring jstring)) (full : bool)
    (c g : jstring) : option (gmap jstring jstring) :=
  match storage with
  | None => None
  | Some m => Some (if full then m else <[TARGET_KEY := target_text c g]> m)
  end.

Definition js_or (a b : jstring) : jstring := if js_eqb a "" then b else a.
Definition switchCluster (st : ClusterState) (cid gen0 : jstring) : ClusterState :=
  let c := js_or cid LOCAL_CLUSTER_ID in
  let gen := if js_eqb c LOCAL_CLUSTER_ID then LOCAL_GENERATION
             else js_or gen0 UNKNOWN_GENERATION in
  let moved := {| clusterId := c; generation := gen; epoch := epoch st + 1 |} in
  if js_eqb c (clusterId st) then
    if js_eqb gen (generation st) then st
    else if js_eqb (generation st) UNKNOWN_GENERATION
    then {| clusterId := clusterId st; generation := gen; epoch := epoch st |}
    else moved
  else moved.
Definition currentTarget (st : ClusterState) : ClusterTarget := st.
(** Module load: the restored pair at epoch 0. *)
Definition restored (target : jstring * jstring) : ClusterState :=
  {| clusterId := target.1; generation := target.2; epoch := 0 |}.

(** ** The switch protocol *)

(** A pair that names a registration: the local cluster carries the local
    generation, and neither half is empty. *)
Definition target_ok (st : ClusterState) : Prop :=
  clusterId st ≠ ""%js ∧ generation st ≠ ""%js ∧
  (clusterId st = LOCAL_CLUSTER_ID → generation st = LOCAL_GENERATION).

Lemma js_or_nonempty a b : b ≠ ""%js → js_or a b ≠ ""%js.
Proof. unfold js_or. intros Hb. destruct (js_eqb a "") eqn:E; [done|]. intros ->. done. Qed.

Lemma target_of_ok v : target_ok (restored (target_of v)).
Proof.
  assert (target_ok (restored fallback)) by done.
  destruct v; try done. unfold target_of. destruct (nonempty_string _) as [c|] eqn:Ec; [|done].
  destruct (js_eqb c LOCAL_CLUSTER_ID) eqn:El; [done|]. apply js_eqb_neq in El.
  assert (Hn : ∀ w s, nonempty_string w = Some s → s ≠ ""%js).
  { intros [] t; simpl; try done. destruct (js_eqb _ "") eqn:E; [done|]. intros [= <-].
    by apply js_eqb_neq in E. }
  apply Hn in Ec. split; [done|]. simpl. split; [|done].
  destruct (nonempty_string (field _ _)) eqn:Eg; [by apply Hn in Eg|done].
Qed.
Lemma switchCluster_ok st c g : target_ok st → target_ok (switchCluster st c g).
Proof.
  intros (H1 & H2 & H3). unfold switchCluster.
  set (c' := js_or c LOCAL_CLUSTER_ID). assert (Hc : c' ≠ ""%js) by (by apply js_or_nonempty).
  set (g' := if js_eqb c' LOCAL_CLUSTER_ID then LOCAL_GENERATION else js_or g UNKNOWN_GENERATION).
  assert (Hg : g' ≠ ""%js ∧ (c' = LOCAL_CLUSTER_ID → g' = LOCAL_GENERATION)).
  { unfold g'. destruct (js_eqb c' LOCAL_CLUSTER_ID) eqn:E; [done|].
    apply js_eqb_neq in E. split; [by apply js_or_nonempty|done]. }
  destruct (js_eqb c' (clusterId st)) eqn:Ec; [|by split].
  apply js_eqb_eq in Ec. destruct (js_eqb g' (generation st)); [done|].
  destruct (js_eqb (generation st) UNKNOWN_GENERATION); split; simpl; try done;
    rewrite <- Ec; apply Hg.
Qed.

(** The signals after a sequence of switches. *)
Definition switches (st : ClusterState) (ops : list (jstring * jstring)) : ClusterState :=
  foldl (λ s op, switchCluster s op.1 op.2) st ops.
Lemma switchCluster_epoch st c g :
  (epoch st ≤ epoch (switchCluster st c g) ≤ epoch st + 1)%N ∧
  (clusterId (switchCluster st c g) ≠ clusterId st →
   epoch (switchCluster st c g) = epoch st + 1)%N.
Proof.
  unfold switchCluster. set (c' := js_or c LOCAL_CLUSTER_ID).
  destruct (js_eqb c' (clusterId st)); [|simpl; split; [lia|done]].
  destruct (js_eqb _ (generation st)); [split; [lia|done]|].
  destruct (js_eqb (generation st) UNKNOWN_GENERATION); simpl; (split; [lia|done]).
Qed.
Lemma switches_epoch st ops : (epoch st ≤ epoch (switches st ops))%N.
Proof.
  revert st. induction ops as [|op ops IH]; intros st; [done|]. cbn [switches foldl].
  pose proof (switchCluster_epoch st op.1 op.2) as [? _]. specialize (IH (switchCluster st op.1 op.2)).
  unfold switches in IH. lia.
Qed.
Lemma switches_ok st ops : target_ok st → target_ok (switches st ops).
Proof.
  revert st. induction ops as [|op ops IH]; intros st H; [done|]. by apply IH, switchCluster_ok.
Qed.

(** Coming back is still a move: if a sequence of switches visits any other
    cluster, the epoch at its end differs from the one a request captured, even
    when the selection is back where it was, so the late reply is discarded. *)
Theorem epoch_detects_roundtrip st ops1 ops2 :
  clusterId (switches st ops1) ≠ clusterId st →
  epoch (currentTarget (switches st (ops1 ++ ops2))) ≠ epoch (currentTarget st).
Proof.
  unfold currentTarget. intros Hne. unfold switches. rewrite foldl_app.
  fold (switches st ops1) (switches (switches st ops1) ops2).
  pose proof (switches_epoch (switches st ops1) ops2).
  enough (epoch st < epoch (switches st ops1))%N by lia. clear -Hne.
  revert st Hne. induction ops1 as [|op ops IH]; intros st Hne; [done|].
  cbn [switches foldl] in *. fold (switches (switchCluster st op.1 op.2) ops) in *.
  destruct (switchCluster_epoch st op.1 op.2) as [He Hmove].
  pose proof (switches_epoch (switchCluster st op.1 op.2) ops).
  destruct (decide (clusterId (switchCluster st op.1 op.2) = clusterId st)) as [E|E].
  - rewrite <- E in Hne. apply IH in Hne. lia.
  - apply Hmove in E. lia.
Qed.

(** What is written parses back. *)
Lemma target_text_parses c g : js_units c → js_units g →
  JSON_parse (target_text c g) = Some (JObj [("clusterId"%js, JStr c); ("generation"%js, JStr g)]).
Proof.
  intros Hc Hg. eapply JSON_roundtrip; [|done]. unfold JSON_stringify. cbn [json_text mapM].
  rewrite (forallb_units c), (forallb_units g) by done.
  cbn [mbind option_bind mret option_ret fmap option_fmap option_map forallb]. unfold target_text.
  change (forallb _ (units "clusterId"%js)) with true. change (forallb _ (units "generation"%js)) with true.
  cbn [mbind option_bind mret option_ret fmap option_fmap option_map]. unfold json_object, json_pair.
  cbn [comma_join]. do 2 f_equal. cbn [app]. f_equal. by rewrite <- !app_assoc.
Qed.

(** A reload restores the target: whatever the storage held at startup and
    whatever switches followed, the selection is always a pair naming one
    registration, and the pair written for it reads back as itself. *)
Theorem persisted_target_roundtrip get0 has_storage ops m get :
  let st := switches (restored (readPersistedTarget get0 has_storage)) ops in
  js_units (clusterId st) → js_units (generation st) →
  persistTarget (Some m) false (clusterId st) (generation st) = Some get →
  target_ok st ∧
  readPersistedTarget (λ k, Some (get !! k)) true = (clusterId st, generation st).
Proof.
  intros st Hc Hg Hget. pose proof (target_text_parses _ _ Hc Hg) as Hparse.
  assert (Hok : target_ok st).
  { apply switches_ok. unfold readPersistedTarget. destruct has_storage; [|done]. simpl.
    destruct (get0 TARGET_KEY) as [raw|]; [|done].
    assert (Hleg : target_ok (restored match get0 LEGACY_CLUSTER_KEY with
      | Some (Some l) => if js_eqb l "" || js_eqb l LOCAL_CLUSTER_ID then fallback
                         else (l, UNKNOWN_GENERATION)
      | _ => fallback end)).
    { destruct (get0 LEGACY_CLUSTER_KEY) as [[l|]|]; try done.
      destruct (js_eqb l "") eqn:E1; [done|]. destruct (js_eqb l LOCAL_CLUSTER_ID) eqn:E2; [done|].
      apply js_eqb_neq in E1, E2. done. }
    destruct raw as [r|]; [|done]. destruct (js_eqb r ""); [done|].
    destruct (JSON_parse r); [apply target_of_ok|done]. }
  split; [done|]. injection Hget as <-. unfold readPersistedTarget. cbn [negb].
  rewrite lookup_insert_eq. cbn iota.
  destruct (js_eqb (target_text _ _) "") eqn:E; [by apply js_eqb_eq in E|].
  rewrite Hparse. unfold target_of. change (field _ "clusterId") with (JStr (clusterId st)).
  change (field _ "generation") with (JStr (generation st)). unfold nonempty_string.
  destruct Hok as (H1 & H2 & H3). apply js_eqb_neq in H1, H2. rewrite H1, H2.
  destruct (js_eqb (clusterId st) LOCAL_CLUSTER_ID) eqn:El; [|done].
  apply js_eqb_eq in El. by rewrite (H3 El), El.
Qed.

(** ** Witnesses *)

Definition local_state : ClusterState := restored fallback.
Definition there : list (jstring * jstring) := [("c1"%js, "2026-01-02T03:04:05Z"%js)].
Definition back : list (jstring * jstring) := [("local"%js, ""%js)].
Lemma epoch_detects_roundtrip_witness :
  clusterId (switches local_state (there ++ back)) = clusterId local_state ∧
  epoch (currentTarget (switches local_state (there ++ back))) ≠ epoch (currentTarget local_state).
Proof.
  split; [vm_compute; reflexivity|].
  apply (epoch_detects_roundtrip local_state there back). vm_compute. discriminate.
Defined.
Definition demo_text : jstring := target_text "c1"%js "2026-01-02T03:04:05Z"%js.
Lemma persisted_target_roundtrip_witness :
  readPersistedTarget
    (λ k, Some ((<[TARGET_KEY := demo_text]> (∅ : gmap jstring jstring)) !! k)) true
  = ("c1"%js, "2026-01-02T03:04:05Z"%js).
Proof.
  apply (persisted_target_roundtrip (λ _, Some None) true there ∅
    (<[TARGET_KEY := demo_text]> ∅)).
  - repeat constructor.
  - repeat constructor.
  - vm_compute. reflexivity.
Defined.
