(* ===== verification/Api.v ===== *)
(** * The HTTP transport: api.ts

    Every request of the page goes through [send]: it decides the cluster once,
    carries the access token, and answers a 401 with one token refresh and one
    retry. The refresh is shared: a call that needs one joins the one in flight.
    The module's variables are one record; an [async] function is split at its
    [await]s, each pending call keeping what it captured and where it stands. A
    run is any list of events, so it covers every interleaving of calls,
    answers, refreshes and cluster switches. *)

From stdpp Require Import base list strings gmap.
From Stdlib Require Import ZArith NArith Lia.
From S2P Require Import Prelude JsValue.

Open Scope Z_scope.

(** ** Definitions *)

(** *** Errors *)

(** [v?.k] of a parsed body. *)
Definition prop_of (v : jsval) (k : jstring) : jsval :=
  match v with JObj fields => field fields k | _ => JUndef end.
(** [a ?? b] *)
Definition nullish (a b : jsval) : jsval := match a with JUndef | JNull => b | _ => a end.
Definition is_string (v : jsval) : option jstring := match v with JStr s => Some s | _ => None end.
Definition is_boolean (v : jsval) : option bool := match v with JBool b => Some b | _ => None end.

Record ApiError := { err_status : Z; err_code : jsval; err_detail : jsval; err_body : jsval }.
(** [this.reason = body?.error?.reason] *)
Definition err_reason (e : ApiError) : jsval := prop_of (prop_of (err_body e) "error") "reason".
Definition error_extra (e : ApiError) (key : jstring) : jsval :=
  prop_of (prop_of (prop_of (err_body e) "error") "extra") key.
Definition errorExtra (e : ApiError) (key : jstring) : option jstring := is_string (error_extra e key).
Definition errorExtraFlag (e : ApiError) (key : jstring) : option bool := is_boolean (error_extra e key).

(** What a call ends with: the response, an [ApiError], or whatever [fetch]
    rejected with. *)
Inductive Outcome := Resolved (status : Z) (body : jsval) | Refused (e : ApiError) | Failed.

(** *** Requests *)

(** The options of [api]: [RequestInit] as far as [send] looks at it. *)
Record Options := {
  o_method : option jstring;
  o_body : bool;
  o_contentType : bool;
  o_cluster : option jstring
}.
(** One request on the wire. *)
Record Request := {
  r_call : nat;
  r_path : jstring;
  r_auth : option jstring;
  r_cluster : jstring;
  r_contentType : bool;
  r_csrf : bool
}.
(** An answer: a status with its text and the body it parses to ([JUndef] when
    it is not JSON), or no answer. *)
Inductive Answer := Status (status : Z) (text : jstring) (body : jsval) | NoAnswer.

(** Where a call stands: joining a refresh before its first request, awaiting
    the first answer, awaiting a refresh after a 401, awaiting the second. *)
Inductive Phase := Joining | First | Refreshing | Second.
Record Call := {
  c_path : jstring;
  c_opts : Options;
  c_cluster : jstring;
  c_joined : option bool;
  c_phase : Phase
}.

Record Transport := {
  accessToken : option jstring;
  refreshing : bool;
  waiters : list nat;
  calls : gmap nat Call;
  next_call : nat;
  selected : jstring;
  has_callback : bool;
  wire : list Request;
  refreshes : nat;
  redirects : nat;
  callbacks : list nat;
  settled : list (nat * Outcome)
}.

Definition set_token (t : option jstring) (st : Transport) : Transport :=
  {| accessToken := t; refreshing := refreshing st; waiters := waiters st; calls := calls st;
     next_call := next_call st; selected := selected st; has_callback := has_callback st; wire := wire st;
     refreshes := refreshes st; redirects := redirects st; callbacks := callbacks st; settled := settled st |}.
Definition set_calls (m : gmap nat Call) (st : Transport) : Transport :=
  {| accessToken := accessToken st; refreshing := refreshing st; waiters := waiters st; calls := m;
     next_call := next_call st; selected := selected st; has_callback := has_callback st; wire := wire st;
     refreshes := refreshes st; redirects := redirects st; callbacks := callbacks st; settled := settled st |}.
Definition set_refresh (b : bool) (ws : list nat) (n : nat) (st : Transport) : Transport :=
  {| accessToken := accessToken st; refreshing := b; waiters := ws; calls := calls st;
     next_call := next_call st; selected := selected st; has_callback := has_callback st; wire := wire st;
     refreshes := n; redirects := redirects st; callbacks := callbacks st; settled := settled st |}.

(** A token that is not [null] and not empty. *)
Definition truthy_token (t : option jstring) : option jstring :=
  match t with Some s => if js_eqb s ""%js then None else Some s | None => None end.

(** [doFetch] of a call, which then awaits the answer in phase [ph]. *)
Definition doFetch (id : nat) (c : Call) (joined : option bool) (ph : Phase) (st : Transport) : Transport :=
  let o := c_opts c in
  let req := {| r_call := id; r_path := c_path c; r_auth := truthy_token (accessToken st);
    r_cluster := c_cluster c; r_contentType := o_contentType o || o_body o;
    r_csrf := match o_method o with
      | Some m => negb (js_eqb m ""%js) && negb (js_eqb m "GET"%js) | None => false end |} in
  {| accessToken := accessToken st; refreshing := refreshing st; waiters := waiters st;
     calls := <[id := {| c_path := c_path c; c_opts := c_opts c; c_cluster := c_cluster c;
                         c_joined := joined; c_phase := ph |}]> (calls st);
     next_call := next_call st; selected := selected st; has_callback := has_callback st;
     wire := wire st ++ [req]; refreshes := refreshes st; redirects := redirects st;
     callbacks := callbacks st; settled := settled st |}.
(** The call returns or throws. *)
Definition settle (id : nat) (o : Outcome) (st : Transport) : Transport :=
  {| accessToken := accessToken st; refreshing := refreshing st; waiters := waiters st;
     calls := delete id (calls st); next_call := next_call st; selected := selected st;
     has_callback := has_callback st; wire := wire st; refreshes := refreshes st; redirects := redirects st;
     callbacks := callbacks st; settled := settled st ++ [(id, o)] |}.
Definition SESSION_EXPIRED : ApiError :=
  {| err_status := 401; err_code := JNum (of_Z 401); err_detail := JStr "Session expired"%js; err_body := JUndef |}.
(** The refresh failed: the token is cleared and the page leaves for [/login]. *)
Definition expire (id : nat) (st : Transport) : Transport :=
  settle id (Refused SESSION_EXPIRED)
    {| accessToken := None; refreshing := refreshing st; waiters := waiters st; calls := calls st;
       next_call := next_call st; selected := selected st; has_callback := has_callback st; wire := wire st;
       refreshes := refreshes st; redirects := S (redirects st); callbacks := callbacks st;
       settled := settled st |}.

(** [send] up to its first [await]. *)
Definition call_send (path : jstring) (o : Options) (st : Transport) : Transport :=
  let id := next_call st in
  let c := {| c_path := path; c_opts := o; c_cluster := default (selected st) (o_cluster o);
              c_joined := None; c_phase := Joining |} in
  let st1 := {| accessToken := accessToken st; refreshing := refreshing st; waiters := waiters st;
    calls := calls st; next_call := S id; selected := selected st; has_callback := has_callback st;
    wire := wire st; refreshes := refreshes st; redirects := redirects st; callbacks := callbacks st;
    settled := settled st |} in
  match truthy_token (accessToken st) with
  | None =>
      if refreshing st
      then set_refresh true (waiters st ++ [id]) (refreshes st) (set_calls (<[id := c]> (calls st)) st1)
      else doFetch id c None First st1
  | Some _ => doFetch id c None First st1
  end.

(** [await refreshSession()]: joins the refresh in flight or starts one. *)
Definition await_refresh (id : nat) (c : Call) (st : Transport) : Transport :=
  set_refresh true (waiters st ++ [id]) (if refreshing st then refreshes st else S (refreshes st))
    (set_calls (<[id := {| c_path := c_path c; c_opts := c_opts c; c_cluster := c_cluster c;
                           c_joined := c_joined c; c_phase := Refreshing |}]> (calls st)) st).
(** [refreshSession()] called for its own sake, as on page load. *)
Definition refreshSession (st : Transport) : Transport :=
  if refreshing st then st else set_refresh true (waiters st) (S (refreshes st)) st.

Definition AUTH_PREFIX : jstring := "/v1/auth/"%js.
(** A status that is not OK: the [ApiError], after the 403 callback. *)
Definition refuse (id : nat) (c : Call) (status : Z) (text : jstring) (body : jsval) (st : Transport) : Transport :=
  let error := prop_of body "error" in
  let e := {| err_status := status; err_code := nullish (prop_of error "code") (JNum (of_Z status));
              err_detail := nullish (prop_of error "message") (JStr text); err_body := body |} in
  let cb := (status =? 403) && has_callback st && negb (js_startsWith (c_path c) AUTH_PREFIX) in
  settle id (Refused e)
    {| accessToken := accessToken st; refreshing := refreshing st; waiters := waiters st; calls := calls st;
       next_call := next_call st; selected := selected st; has_callback := has_callback st; wire := wire st;
       refreshes := refreshes st; redirects := redirects st;
       callbacks := if cb then callbacks st ++ [id] else callbacks st; settled := settled st |}.
Definition is_ok (status : Z) : bool := (200 <=? status) && (status <=? 299).
(** [send] from an answer on. *)
Definition on_answer (id : nat) (a : Answer) (st : Transport) : Transport :=
  match calls st !! id with
  | None => st
  | Some c =>
      match c_phase c, a with
      | Joining, _ | Refreshing, _ => st
      | _, NoAnswer => settle id Failed st
      | First, Status status text body =>
          if status =? 401 then
            match c_joined c with
            | Some false => expire id st
            | _ => await_refresh id c st
            end
          else if is_ok status then settle id (Resolved status body) st
          else refuse id c status text body st
      | Second, Status status text body =>
          if is_ok status then settle id (Resolved status body) st else refuse id c status text body st
      end
  end.

(** [send] from the settling of the refresh it awaits on. *)
Definition resume (ok : bool) (st : Transport) (id : nat) : Transport :=
  match calls st !! id with
  | None => st
  | Some c =>
      match c_phase c with
      | Joining => doFetch id c (Some ok) First st
      | Refreshing => if ok then doFetch id c (c_joined c) Second st else expire id st
      | First | Second => st
      end
  end.
(** [refreshAccessToken] settles: a token, or none (a status that is not OK, a
    body without one, a network error, or the deadline), and [refreshPromise] is
    [null] again. *)
Definition refresh_done (token : option jstring) (st : Transport) : Transport :=
  let st1 := match truthy_token token with Some t => set_token (Some t) st | None => st end in
  set_refresh false [] (refreshes st1) st1.
(** Its waiters then continue, in the order they joined. *)
Definition on_refresh (token : option jstring) (st : Transport) : Transport :=
  if negb (refreshing st) then st else
  foldl (resume (match truthy_token token with Some _ => true | None => false end))
    (refresh_done token st) (waiters st).

(** What [api] makes of the response: an empty envelope for a 204, else the
    body, whose parsing throws when it is not JSON. *)
Definition api (o : Outcome) : Outcome :=
  match o with
  | Resolved status body =>
      if status =? 204 then Resolved status (JObj [("data"%js, JUndef)])
      else match body with JUndef => Failed | _ => o end
  | _ => o
  end.

Inductive Event :=
  | ECall (path : jstring) (o : Options)
  | EAnswer (id : nat) (a : Answer)
  | ERefresh (token : option jstring)
  | EBoot
  | ESelect (cluster : jstring)
  | EToken (token : option jstring)
  | EOnForbidden.
Definition step (st : Transport) (e : Event) : Transport :=
  match e with
  | ECall path o => call_send path o st
  | EAnswer id a => on_answer id a st
  | ERefresh t => on_refresh t st
  | EBoot => refreshSession st
  | ESelect c =>
      {| accessToken := accessToken st; refreshing := refreshing st; waiters := waiters st; calls := calls st;
         next_call := next_call st; selected := c; has_callback := has_callback st; wire := wire st;
         refreshes := refreshes st; redirects := redirects st; callbacks := callbacks st; settled := settled st |}
  | EToken t => set_token t st
  | EOnForbidden =>
      {| accessToken := accessToken st; refreshing := refreshing st; waiters := waiters st; calls := calls st;
         next_call := next_call st; selected := selected st; has_callback := true; wire := wire st;
         refreshes := refreshes st; redirects := redirects st; callbacks := callbacks st; settled := settled st |}
  end.
Definition initial (cluster : jstring) : Transport :=
  {| accessToken := None; refreshing := false; waiters := []; calls := ∅; next_call := 0;
     selected := cluster; has_callback := false; wire := []; refreshes := 0; redirects := 0; callbacks := [];
     settled := [] |}.
Definition run (st : Transport) (es : list Event) : Transport := foldl step st es.

(** ** The books of the transport *)

Definition attempts (id : nat) (st : Transport) : nat := length (filter (λ r, r_call r = id) (wire st)).
Definition phase_attempts (ph : Phase) : nat :=
  match ph with Joining => 0 | First | Refreshing => 1 | Second => 2 end.
Definition waiting (ph : Phase) : Prop := ph = Joining ∨ ph = Refreshing.
(** A call that has not asked for a refresh of its own yet. *)
Definition early (ph : Phase) : bool := match ph with Joining | First => true | _ => false end.
Definition early_calls (m : gmap nat Call) : nat := size (filter (λ ic, early (c_phase ic.2) = true) m).

(** What holds between events, with [ws] the calls that await a refresh and
    [b] the refreshes the page asked for itself. *)
Record books (b : nat) (ws : list nat) (st : Transport) : Prop := {
  bk_ids : ∀ id c, calls st !! id = Some c → (id < next_call st)%nat;
  bk_wire : Forall (λ r, (r_call r < next_call st)%nat) (wire st);
  bk_settled : ∀ id, id ∈ (settled st).*1 → (id < next_call st)%nat ∧ calls st !! id = None;
  bk_once : NoDup (settled st).*1;
  bk_open : ∀ id, (id < next_call st)%nat → calls st !! id = None → id ∈ (settled st).*1;
  bk_attempts : ∀ id c, calls st !! id = Some c → attempts id st = phase_attempts (c_phase c);
  bk_two : ∀ id, (attempts id st ≤ 2)%nat;
  bk_waits : ∀ id, id ∈ ws ↔ ∃ c, calls st !! id = Some c ∧ waiting (c_phase c);
  bk_nodup : NoDup ws;
  bk_budget : (refreshes st + early_calls (calls st) ≤ b + next_call st)%nat
}.

Lemma attempts_app id l r (st st' : Transport) : wire st = l → wire st' = l ++ [r] →
  attempts id st' = (attempts id st + if decide (r_call r = id) then 1 else 0)%nat.
Proof.
  unfold attempts. intros -> ->. rewrite filter_app, length_app, filter_cons, filter_nil. by case_decide.
Qed.
Lemma early_insert id c (m : gmap nat Call) : early_calls (<[id := c]> m) =
  (early_calls (delete id m) + if early (c_phase c) then 1 else 0)%nat.
Proof.
  unfold early_calls. rewrite <- insert_delete_eq. destruct (early (c_phase c)) eqn:E.
  - rewrite map_filter_insert_True by done. rewrite map_size_insert_None; [lia|].
    apply map_lookup_filter_None. left. by rewrite lookup_delete_eq.
  - rewrite map_filter_insert_False by (cbn; congruence). rewrite delete_delete_eq. lia.
Qed.
Lemma early_delete id c (m : gmap nat Call) : m !! id = Some c →
  early_calls m = (early_calls (delete id m) + if early (c_phase c) then 1 else 0)%nat.
Proof. intros H. rewrite <- early_insert. by rewrite insert_id. Qed.
Lemma early_absent id (m : gmap nat Call) : m !! id = None → delete id m = m.
Proof. apply delete_id. Qed.

(** One call moves to another phase, with the requests it sends on the way;
    the rest of the record may change freely. *)
Lemma books_put b b' ws ws' st st' id c (reqs : list Request) : books b ws st →
  calls st' = <[id := c]> (calls st) → wire st' = wire st ++ reqs → settled st' = settled st →
  (next_call st ≤ next_call st')%nat → (id < next_call st')%nat →
  (∀ x, x < next_call st' → x < next_call st ∨ x = id)%nat → id ∉ (settled st).*1 →
  Forall (λ r, r_call r = id) reqs → (attempts id st + length reqs)%nat = phase_attempts (c_phase c) →
  (∀ x, x ∈ ws' ↔ (x ∈ ws ∧ x ≠ id) ∨ (x = id ∧ waiting (c_phase c))) → NoDup ws' →
  (refreshes st' + early_calls (<[id := c]> (calls st)) ≤ b' + next_call st')%nat →
  books b' ws' st'.
Proof.
  intros Hb Ec Ew Es En Hid Hgrow Hns Hr Ha Hws Hnd Hbud.
  assert (Hatt : ∀ x, attempts x st' = (attempts x st + if decide (x = id) then length reqs else 0)%nat).
  { intros x. unfold attempts. rewrite Ew, filter_app, length_app. f_equal.
    clear - Hr. induction Hr as [|r rs Hr0 _ IH]; [by case_decide|].
    rewrite filter_cons. destruct (decide (r_call r = x)); destruct (decide (x = id)); cbn [length]; try congruence; lia. }
  assert (Htwo : (phase_attempts (c_phase c) ≤ 2)%nat) by (destruct (c_phase c); cbn; lia).
  split; rewrite ?Ec, ?Es.
  - intros x cx. rewrite lookup_insert_Some. intros [[<- _]|[_ H]]; [done|]. apply (bk_ids _ _ _ Hb) in H. lia.
  - rewrite Ew. apply Forall_app. split.
    + eapply Forall_impl; [apply Hb|]. cbn. lia.
    + eapply Forall_impl; [exact Hr|]. cbn. intros r ->. done.
  - intros x Hx. destruct (bk_settled _ _ _ Hb x Hx) as [? ?]. split; [lia|]. rewrite lookup_insert_ne; [done|].
    intros <-. done.
  - apply Hb.
  - intros x Hx [H Hne]%lookup_insert_None. apply (bk_open _ _ _ Hb); [|done]. destruct (Hgrow x Hx); congruence.
  - intros x cx. rewrite lookup_insert_Some, Hatt. intros [[<- <-]|[Hne H]].
    + by rewrite decide_True.
    + rewrite decide_False by done. rewrite Nat.add_0_r. by apply (bk_attempts _ _ _ Hb).
  - intros x. rewrite Hatt. case_decide as E; [subst x; lia|]. rewrite Nat.add_0_r. apply Hb.
  - intros x. rewrite Hws, (bk_waits _ _ _ Hb). split.
    + intros [[(cx & Hx & Hwx) Hne]|[-> Hw]].
      * exists cx. by rewrite lookup_insert_ne by congruence.
      * exists c. by rewrite lookup_insert_eq.
    + intros (cx & Hx & Hwx). apply lookup_insert_Some in Hx as [[-> ->]|[Hne Hx]]; [by right|].
      left. split; [by exists cx|congruence].
  - done.
  - done.
Qed.

(** A call ends. *)
Lemma books_end b ws ws' st st' id c o : books b ws st → calls st !! id = Some c →
  next_call st' = next_call st → calls st' = delete id (calls st) → wire st' = wire st →
  settled st' = settled st ++ [(id, o)] → refreshes st' = refreshes st →
  (∀ x, x ∈ ws' ↔ x ∈ ws ∧ x ≠ id) → NoDup ws' → books b ws' st'.
Proof.
  intros Hb Hc En Ec Ew Es Er Hws Hnd.
  assert (Hatt : ∀ x, attempts x st' = attempts x st) by (intros x; unfold attempts; by rewrite Ew).
  assert (Hns : id ∉ (settled st).*1) by (intros H; apply (bk_settled _ _ _ Hb) in H as [_ H]; congruence).
  split; rewrite ?En, ?Ec, ?Es, ?Ew, ?Er.
  - intros x cx [_ H]%lookup_delete_Some. by apply (bk_ids _ _ _ Hb) in H.
  - apply Hb.
  - intros x. rewrite fmap_app, elem_of_app. intros [H|H].
    + destruct (bk_settled _ _ _ Hb x H) as [? ?]. split; [done|]. apply lookup_delete_None. by right.
    + apply list_elem_of_singleton in H as ->. cbn. split; [by apply (bk_ids _ _ _ Hb) in Hc|].
      by rewrite lookup_delete_eq.
  - rewrite fmap_app. apply NoDup_app. split; [apply Hb|]. split.
    + intros x Hx H%list_elem_of_singleton. cbn in H. by subst.
    + apply NoDup_singleton.
  - intros x Hx. rewrite lookup_delete_None, fmap_app, elem_of_app. intros [<-|H]; [right; by left|left].
    by apply (bk_open _ _ _ Hb).
  - intros x cx [_ H]%lookup_delete_Some. rewrite Hatt. by apply (bk_attempts _ _ _ Hb).
  - intros x. rewrite Hatt. apply Hb.
  - intros x. rewrite Hws, (bk_waits _ _ _ Hb). split.
    + intros [(cx & Hx & Hwx) Hne]. exists cx. by rewrite lookup_delete_ne by congruence.
    + intros (cx & [Hne Hx]%lookup_delete_Some & Hwx). split; [by exists cx|congruence].
  - done.
  - pose proof (bk_budget _ _ _ Hb). rewrite (early_delete _ _ _ Hc) in H. lia.
Qed.
(** Nothing the books record changes. *)
Lemma books_frame b b' ws st st' : books b ws st → next_call st' = next_call st → calls st' = calls st →
  wire st' = wire st → settled st' = settled st → (refreshes st' + b ≤ b' + refreshes st)%nat → books b' ws st'.
Proof.
  intros [] En Ec Ew Es Er. split; unfold attempts in *; rewrite ?En, ?Ec, ?Ew, ?Es; try done. lia.
Qed.
(** The number of the next call is not in the books. *)
Lemma next_fresh b ws st : books b ws st → calls st !! next_call st = None ∧ (next_call st ∉ (settled st).*1) ∧
  attempts (next_call st) st = 0%nat ∧ (next_call st ∉ ws).
Proof.
  intros Hb. split_and!.
  - destruct (calls st !! next_call st) eqn:E; [|done]. apply (bk_ids _ _ _ Hb) in E. lia.
  - intros H. apply (bk_settled _ _ _ Hb) in H. lia.
  - unfold attempts. pose proof (bk_wire _ _ _ Hb) as H. clear - H.
    induction H as [|r rs Hr _ IH]; [done|]. rewrite filter_cons. rewrite decide_False by lia. done.
  - intros H. apply (bk_waits _ _ _ Hb) in H as (c' & H & _). apply (bk_ids _ _ _ Hb) in H. lia.
Qed.

Lemma fresh_of b ws st id c : books b ws st → calls st !! id = Some c → id ∉ (settled st).*1.
Proof. intros Hb Hc H. apply (bk_settled _ _ _ Hb) in H as [_ H]. congruence. Qed.
Lemma not_waiting b ws st id c : books b ws st → calls st !! id = Some c → ¬ waiting (c_phase c) → id ∉ ws.
Proof. intros Hb Hc Hw H. apply (bk_waits _ _ _ Hb) in H as (c' & H & ?). congruence. Qed.
Lemma elem_of_without {A} (ws : list A) id x : id ∉ ws → x ∈ ws ↔ x ∈ ws ∧ x ≠ id.
Proof. intros H. split; [|tauto]. intros Hx. split; [done|]. by intros ->. Qed.

(** A refresh in flight is what a waiting call waits for. *)
Definition in_flight (st : Transport) : Prop := waiters st ≠ [] → refreshing st = true.
Definition well (b : nat) (st : Transport) : Prop := books b (waiters st) st ∧ in_flight st.

Lemma settle_books b st id c o st0 : well b st → calls st !! id = Some c → ¬ waiting (c_phase c) →
  next_call st0 = next_call st → calls st0 = calls st → wire st0 = wire st → settled st0 = settled st →
  refreshes st0 = refreshes st → waiters st0 = waiters st → refreshing st0 = refreshing st →
  well b (settle id o st0).
Proof.
  intros [Hb Hf] Hc Hw En Ec Ew Es Er Ewt Erf. split.
  - cbn [waiters settle]. rewrite Ewt. apply (books_end b (waiters st) _ st _ id c o Hb Hc); cbn; try congruence.
    + intros x. apply elem_of_without. by eapply not_waiting.
    + apply Hb.
  - unfold in_flight. cbn. rewrite Ewt, Erf. exact Hf.
Qed.
Lemma call_send_well b path o st : well b st → well b (call_send path o st).
Proof.
  intros [Hb Hf]. unfold call_send. cbn zeta.
  set (c := {| c_phase := Joining |}).
  destruct (next_fresh _ _ _ Hb) as (Hnone & Hns & Hat & Hnw). pose proof (bk_budget _ _ _ Hb) as Hbud.
  assert (Hput : ∀ c' reqs ws' st', calls st' = <[next_call st := c']> (calls st) → wire st' = wire st ++ reqs →
    settled st' = settled st → next_call st' = S (next_call st) → refreshes st' = refreshes st →
    Forall (λ r, r_call r = next_call st) reqs → length reqs = phase_attempts (c_phase c') →
    (∀ x, x ∈ ws' ↔ (x ∈ waiters st ∧ x ≠ next_call st) ∨ (x = next_call st ∧ waiting (c_phase c'))) →
    NoDup ws' → books b ws' st').
  { intros c' reqs ws' st' Ec Ew Es En Er Hr Hl Hws Hnd.
    eapply (books_put b b (waiters st) ws' st st' (next_call st) c' reqs); try done; try lia.
    rewrite early_insert, early_absent by done. destruct (early (c_phase c')); lia. }
  assert (Hgo : ∀ st1, next_call st1 = S (next_call st) → calls st1 = calls st → wire st1 = wire st →
    settled st1 = settled st → refreshes st1 = refreshes st → waiters st1 = waiters st →
    refreshing st1 = refreshing st → well b (doFetch (next_call st) c None First st1)).
  { intros st1 E1 E2 E3 E4 E5 E6 E7. split; [|unfold in_flight; cbn; by rewrite E6, E7].
    cbn [waiters doFetch]. rewrite E6. eapply Hput; cbn [calls wire settled next_call refreshes doFetch];
      rewrite ?E1, ?E2, ?E3, ?E4, ?E5; try reflexivity.
    - by repeat constructor.
    - intros x. rewrite (elem_of_without (waiters st) (next_call st) x Hnw). unfold waiting. naive_solver.
    - apply Hb. }
  destruct (truthy_token (accessToken st)); [by apply Hgo|]. destruct (refreshing st) eqn:E; [|by apply Hgo].
  split; [|done]. eapply (Hput _ []); try reflexivity.
  - cbn. by rewrite app_nil_r.
  - constructor.
  - intros x. cbn. rewrite elem_of_app, list_elem_of_singleton, (elem_of_without (waiters st) (next_call st) x Hnw).
    unfold waiting. naive_solver.
  - cbn. apply NoDup_app. split; [apply Hb|]. split; [|apply NoDup_singleton].
    by intros x Hx ->%list_elem_of_singleton.
Qed.
Lemma await_refresh_well b st id c : well b st → calls st !! id = Some c → c_phase c = First →
  well b (await_refresh id c st).
Proof.
  intros [Hb Hf] Hc Hp. split; [|done].
  assert (Hnw : id ∉ waiters st) by (eapply not_waiting; [done..|rewrite Hp; intros []; done]).
  eapply (books_put b b _ _ st _ id _ []); [exact Hb|done| |done|..].
  all: cbn -[early_calls attempts].
  - by rewrite app_nil_r.
  - done.
  - by eapply bk_ids.
  - by left.
  - by eapply fresh_of.
  - done.
  - rewrite (bk_attempts _ _ _ Hb id c Hc), Hp. done.
  - intros x. rewrite elem_of_app, list_elem_of_singleton, (elem_of_without (waiters st) id x Hnw).
    unfold waiting. naive_solver.
  - apply NoDup_app. split; [apply Hb|]. split; [|apply NoDup_singleton].
    by intros x Hx ->%list_elem_of_singleton.
  - rewrite early_insert. pose proof (bk_budget _ _ _ Hb) as H. rewrite (early_delete _ _ _ Hc), Hp in H.
    cbn -[early_calls] in *. destruct (refreshing st); lia.
Qed.
Lemma on_answer_well b st id a : well b st → well b (on_answer id a st).
Proof.
  intros Hw. unfold on_answer. destruct (calls st !! id) as [c|] eqn:Hc; [|done].
  assert (Hset : ∀ o st0, ¬ waiting (c_phase c) → next_call st0 = next_call st → calls st0 = calls st →
    wire st0 = wire st → settled st0 = settled st → refreshes st0 = refreshes st → waiters st0 = waiters st →
    refreshing st0 = refreshing st → well b (settle id o st0)) by (intros; by eapply settle_books).
  destruct (c_phase c) eqn:Hp; try done.
  all: assert (Hnw : ¬ waiting (c_phase c)) by (rewrite Hp; intros []; done); rewrite Hp in Hnw.
  all: destruct a as [status text body|]; [|by apply Hset].
  - destruct (status =? 401).
    + destruct (c_joined c) as [[]|]; try by apply await_refresh_well. by apply Hset.
    + destruct (is_ok status); by apply Hset.
  - destruct (is_ok status); by apply Hset.
Qed.

Lemma resume_books b ok st id ws : books b (id :: ws) st → books b ws (resume ok st id).
Proof.
  intros Hb. unfold resume.
  assert (Hwt : id ∈ id :: ws) by left. apply (bk_waits _ _ _ Hb) in Hwt as (c & Hc & Hw). rewrite Hc.
  pose proof (bk_nodup _ _ _ Hb) as [Hni Hnd]%NoDup_cons.
  assert (Hrest : ∀ x, x ∈ ws ↔ x ∈ id :: ws ∧ x ≠ id).
  { intros x. rewrite (elem_of_without ws id x Hni), elem_of_cons. naive_solver. }
  pose proof (bk_attempts _ _ _ Hb id c Hc) as Hat. pose proof (bk_budget _ _ _ Hb) as Hbud.
  rewrite (early_delete _ _ _ Hc) in Hbud.
  assert (Hgo : ∀ j ph, ¬ waiting ph → early ph = early (c_phase c) → phase_attempts ph = S (phase_attempts (c_phase c)) →
    books b ws (doFetch id c j ph st)).
  { intros j ph Hph He Hpa. eapply (books_put b b _ _ st _ id); [exact Hb|reflexivity..| | | | | | | |].
    all: cbn -[early_calls attempts].
    - by eapply bk_ids.
    - by left.
    - by eapply fresh_of.
    - by repeat constructor.
    - rewrite Hat, Hpa. lia.
    - intros x. rewrite Hrest. tauto.
    - done.
    - rewrite early_insert. cbn -[early_calls]. rewrite He. done. }
  destruct Hw as [Hp|Hp]; rewrite Hp in *; [apply Hgo; [intros []; done|done|done]|].
  destruct ok; [apply Hgo; [intros []; done|done|done]|].
  by eapply (books_end b _ _ st _ id c).
Qed.
Lemma resume_frame ok st id : waiters (resume ok st id) = waiters st ∧ refreshing (resume ok st id) = refreshing st.
Proof. unfold resume. repeat case_match; done. Qed.
Lemma resume_all b ok ws st : books b ws st → waiters st = [] → refreshing st = false →
  books b [] (foldl (resume ok) st ws) ∧ waiters (foldl (resume ok) st ws) = [] ∧
  refreshing (foldl (resume ok) st ws) = false.
Proof.
  revert st. induction ws as [|id ws IH]; intros st Hb Hw Hr; [done|]. cbn [foldl].
  destruct (resume_frame ok st id) as [E1 E2]. apply IH; [by apply resume_books|congruence..].
Qed.
Lemma on_refresh_well b t st : well b st →
  well b (on_refresh t st) ∧ waiters (on_refresh t st) = [] ∧ refreshing (on_refresh t st) = false.
Proof.
  intros Hwell. pose proof Hwell as [Hb Hf]. unfold on_refresh. destruct (refreshing st) eqn:E; cbn [negb].
  - destruct (resume_all b (match truthy_token t with Some _ => true | None => false end) (waiters st)
      (refresh_done t st)) as (Hb' & Hw' & Hr'); [|done..|].
    + eapply books_frame; [exact Hb|..]; unfold refresh_done; destruct (truthy_token t); try done; cbn; lia.
    + split_and!; [|done..]. split; [by rewrite Hw'|]. intros []. done.
  - unfold in_flight in Hf. rewrite E in Hf. split; [done|]. split; [|done].
    destruct (waiters st); [done|]. by discriminate Hf.
Qed.
Definition boot_of (e : Event) : nat := match e with EBoot => 1 | _ => 0 end.
Lemma step_well b st e : well b st → well (boot_of e + b) (step st e).
Proof.
  intros Hw. destruct e; cbn [boot_of Nat.add step].
  - by apply call_send_well.
  - by apply on_answer_well.
  - by apply on_refresh_well.
  - destruct Hw as [Hb Hf]. unfold refreshSession. destruct (refreshing st) eqn:E; split.
    + eapply books_frame; [exact Hb|done..|]; lia.
    + done.
    + cbn. eapply books_frame; [exact Hb|done..|]. cbn. lia.
    + done.
  - destruct Hw as [Hb Hf]. split; [|exact Hf]. eapply books_frame; [exact Hb|try done..]; cbn; lia.
  - destruct Hw as [Hb Hf]. split; [|exact Hf]. eapply books_frame; [exact Hb|try done..]; cbn; lia.
  - destruct Hw as [Hb Hf]. split; [|exact Hf]. eapply books_frame; [exact Hb|try done..]; cbn; lia.
Qed.
Fixpoint boot_count (es : list Event) : nat :=
  match es with [] => 0 | e :: rest => boot_of e + boot_count rest end.
Lemma run_well b st es : well b st → well (boot_count es + b) (run st es).
Proof.
  revert b st. induction es as [|e es IH]; intros b st Hw; [done|].
  cbn [run foldl boot_count]. replace (boot_of e + boot_count es + b)%nat with (boot_count es + (boot_of e + b))%nat by lia.
  apply IH. by apply step_well.
Qed.
Lemma initial_well cl : well 0 (initial cl).
Proof.
  split; [|by intros []]. split; cbn; try done; try lia; try (intros ? H; by inversion H); try constructor.
  - intros H. inversion H.
  - intros (c & H & _). done.
Qed.

(** ** A call keeps its target *)

(** What call [id] sends, and will send, is addressed to [cl]. *)
Definition addressed (id : nat) (path cl : jstring) (st : Transport) : Prop :=
  (id < next_call st)%nat ∧
  (∀ c, calls st !! id = Some c → c_cluster c = cl ∧ c_path c = path) ∧
  Forall (λ r, r_call r = id → r_cluster r = cl ∧ r_path r = path) (wire st).
Lemma addressed_frame id path cl st st' : addressed id path cl st → next_call st' = next_call st →
  (calls st' !! id = calls st !! id ∨ calls st' !! id = None) → wire st' = wire st → addressed id path cl st'.
Proof.
  intros (Hn & Hc & Hw) En Ec Ew. split_and!; [lia| |by rewrite Ew].
  intros c. destruct Ec as [-> | ->]; [apply Hc|done].
Qed.
Lemma addressed_put id path cl st st' i c reqs : addressed id path cl st → (next_call st ≤ next_call st')%nat →
  calls st' = <[i := c]> (calls st) → wire st' = wire st ++ reqs →
  (i = id → c_cluster c = cl ∧ c_path c = path) →
  Forall (λ r, r_call r = i ∧ r_cluster r = c_cluster c ∧ r_path r = c_path c) reqs → addressed id path cl st'.
Proof.
  intros (Hn & Hc & Hw) En Ec Ew Hi Hr. split_and!; [lia| |].
  - intros c'. rewrite Ec, lookup_insert_Some. intros [[<- <-]|[_ H]]; [by apply Hi|by apply Hc].
  - rewrite Ew. apply Forall_app. split; [done|]. eapply Forall_impl; [exact Hr|].
    intros r (<- & -> & ->) E. by apply Hi.
Qed.
Lemma addressed_resume id path cl ok st i : addressed id path cl st → addressed id path cl (resume ok st i).
Proof.
  intros H. unfold resume. destruct (calls st !! i) as [c|] eqn:Hc; [|done].
  assert (Hi : i = id → c_cluster c = cl ∧ c_path c = path) by (intros ->; by apply H).
  assert (Hgo : ∀ j ph, addressed id path cl (doFetch i c j ph st)).
  { intros j ph. eapply (addressed_put _ _ _ st _ i); [done|cbn; lia|reflexivity..|exact Hi|by repeat constructor]. }
  destruct (c_phase c); try done. destruct ok; [done|].
  eapply addressed_frame; [exact H|done| |done]. cbn. rewrite lookup_delete. case_decide; auto.
Qed.
Lemma addressed_step id path cl st e : addressed id path cl st → addressed id path cl (step st e).
Proof.
  intros H. destruct e as [p o|i a|t| |s|t|]; cbn [step].
  - unfold call_send. cbn zeta. pose proof H as (Hn & _).
    destruct (truthy_token (accessToken st)); [|destruct (refreshing st)].
    2: eapply (addressed_put _ _ _ st _ (next_call st) _ []); [done|cbn; lia|reflexivity|cbn; by rewrite app_nil_r|lia|by constructor].
    all: eapply (addressed_put _ _ _ st _ (next_call st)); [done|cbn; lia|reflexivity..|lia|by repeat constructor].
  - unfold on_answer. destruct (calls st !! i) as [c|] eqn:Hc; [|done].
    assert (Hi : i = id → c_cluster c = cl ∧ c_path c = path) by (intros ->; by apply H).
    assert (Hset : ∀ o st0, next_call st0 = next_call st → calls st0 = calls st → wire st0 = wire st →
      addressed id path cl (settle i o st0)).
    { intros o st0 E1 E2 E3. eapply addressed_frame; [exact H|done| |done]. cbn. rewrite E2, lookup_delete.
      case_decide; auto. }
    assert (Haw : addressed id path cl (await_refresh i c st)).
    { eapply (addressed_put _ _ _ st _ i _ []); [done|cbn; lia|reflexivity|cbn; by rewrite app_nil_r|exact Hi|by constructor]. }
    destruct (c_phase c), a as [status text body|]; try done; try (by apply Hset); repeat case_match; try done; by apply Hset.
  - unfold on_refresh. destruct (refreshing st); [|done]. cbn [negb].
    assert (H0 : addressed id path cl (refresh_done t st))
      by (unfold refresh_done; eapply addressed_frame; [exact H|destruct (truthy_token t)..]; auto).
    revert H0. generalize (waiters st). intros ws. generalize (refresh_done t st).
    induction ws as [|i ws IH]; intros st0 H0; [done|]. cbn [foldl]. apply IH. by apply addressed_resume.
  - unfold refreshSession. by destruct (refreshing st).
  - exact H.
  - exact H.
  - exact H.
Qed.
Lemma addressed_run id path cl es st : addressed id path cl st → addressed id path cl (run st es).
Proof. revert st. induction es as [|e es IH]; intros st H; [done|]. apply IH. by apply addressed_step. Qed.
Lemma addressed_new b path o st : well b st →
  addressed (next_call st) path (default (selected st) (o_cluster o)) (call_send path o st).
Proof.
  intros [Hb _]. destruct (next_fresh _ _ _ Hb) as (Hnone & _ & Hat & _).
  assert (Hw : Forall (λ r, r_call r = next_call st →
    r_cluster r = default (selected st) (o_cluster o) ∧ r_path r = path) (wire st)).
  { eapply Forall_impl; [apply Hb|]. cbn. intros r Hr E. lia. }
  unfold call_send. cbn zeta. destruct (truthy_token (accessToken st)); [|destruct (refreshing st)].
  2: { split_and!; [cbn; lia| |exact Hw]. cbn. intros c. rewrite lookup_insert_eq. by intros [= <-]. }
  all: split_and!; [cbn; lia| |cbn; apply Forall_app; split; [exact Hw|by repeat constructor]].
  all: cbn; intros c; rewrite lookup_insert_eq; by intros [= <-].
Qed.

(** C34. Whatever the page has done before, and whatever happens afterwards (cluster
    switches, refreshes, other calls), every request a call puts on the wire goes
    to the path it named and to the cluster decided when it was issued: the one
    it names, or else the one selected at that moment. *)
Theorem call_keeps_its_cluster cl0 pre path o es :
  let st := run (initial cl0) pre in
  Forall (λ r, r_call r = next_call st → r_cluster r = default (selected st) (o_cluster o) ∧ r_path r = path)
    (wire (run (call_send path o st) es)).
Proof.
  intros st.
  assert (H : addressed (next_call st) path (default (selected st) (o_cluster o)) (run (call_send path o st) es)).
  { apply addressed_run. eapply addressed_new. apply run_well, initial_well. }
  apply H.
Qed.

(** ** Every call settles, once *)

(** In every reachable state a call that was issued is pending or has settled,
    never both and never twice; it has put at most two requests on the wire; the
    calls that wait for a refresh are exactly those listed as its waiters, and
    then one is in flight; and no more refreshes were made than the page asked
    for itself plus one per call. *)
Theorem transport_books cl es :
  let st := run (initial cl) es in
  NoDup (settled st).*1 ∧
  (∀ id, (id < next_call st)%nat ↔ is_Some (calls st !! id) ∨ id ∈ (settled st).*1) ∧
  (∀ id, ¬ (is_Some (calls st !! id) ∧ id ∈ (settled st).*1)) ∧
  (∀ id, attempts id st ≤ 2)%nat ∧
  (∀ id, id ∈ waiters st ↔ ∃ c, calls st !! id = Some c ∧ waiting (c_phase c)) ∧
  (waiters st ≠ [] → refreshing st = true) ∧
  (refreshes st ≤ boot_count es + next_call st)%nat.
Proof.
  intros st. destruct (run_well 0 (initial cl) es (initial_well cl)) as [Hb Hf]. fold st in Hb, Hf.
  rewrite Nat.add_0_r in Hb. split_and!; try apply Hb; [..|exact Hf|].
  - intros id. split.
    + intros Hid. destruct (calls st !! id) eqn:E; [by left; eauto|right]. by apply (bk_open _ _ _ Hb).
    + intros [[c Hc]|H]; [by apply (bk_ids _ _ _ Hb) in Hc|by apply (bk_settled _ _ _ Hb) in H as [? _]].
  - intros id [[c Hc] H]. apply (bk_settled _ _ _ Hb) in H as [_ H]. congruence.
  - pose proof (bk_budget _ _ _ Hb). lia.
Qed.

(** Every pending call is in a phase of [P], or is [id]s that [ids] still lists. *)
Definition phases (P : Phase → Prop) (ids : list nat) (Q : Phase → Prop) (st : Transport) : Prop :=
  ∀ id c, calls st !! id = Some c → P (c_phase c) ∨ (id ∈ ids ∧ Q (c_phase c)).
Definition answered : Phase → Prop := λ ph, ph = First ∨ ph = Second.
Lemma on_answer_cases id a st : calls (on_answer id a st) = calls st ∧ (∀ c, calls st !! id = Some c → ¬ answered (c_phase c)) ∨
  calls (on_answer id a st) = delete id (calls st) ∨
  (∃ c c', calls st !! id = Some c ∧ c_phase c = First ∧ c_phase c' = Refreshing ∧
     calls (on_answer id a st) = <[id := c']> (calls st)).
Proof.
  unfold on_answer, answered. destruct (calls st !! id) as [c|] eqn:Hc; [|left; by split].
  destruct (c_phase c) eqn:Hp; [left; split; [done|]; intros c' [= <-]; rewrite Hp; naive_solver| |
    left; split; [done|]; intros c' [= <-]; rewrite Hp; naive_solver|].
  - destruct a as [status text body|]; [|by right; left].
    destruct (status =? 401); [|destruct (is_ok status); by right; left].
    destruct (c_joined c) as [[]|]; [|by right; left|].
    all: right; right; eexists c, _; split_and!; [done|exact Hp| |reflexivity]; done.
  - right; left. destruct a as [status text body|]; [|done]. by destruct (is_ok status).
Qed.
Lemma answers_phases P Q a ids st : (∀ ph, Q ph → answered ph) → (∀ ph, P ph → ¬ answered ph) →
  (Q First → P Refreshing) → phases P ids Q st → phases P [] Q (run st ((λ id, EAnswer id (a id)) <$> ids)).
Proof.
  intros HQ HP HR. revert st. induction ids as [|i ids IH]; intros st H; [done|]. apply IH.
  cbn [step]. intros id c Hc.
  destruct (on_answer_cases i (a i) st) as [[E Hn]|[E|(c0 & c1 & Hc0 & Hf & Hr & E)]]; rewrite E in Hc.
  - destruct (H id c Hc) as [?|[[-> |?]%elem_of_cons Ha]]; [by left|destruct (Hn _ Hc); by apply HQ|by right].
  - apply lookup_delete_Some in Hc as [Hne Hc].
    destruct (H id c Hc) as [?|[[-> |?]%elem_of_cons Ha]]; [by left|done|by right].
  - apply lookup_insert_Some in Hc as [[-> ->]|[Hne Hc]].
    + left. rewrite Hr. apply HR. destruct (H id c0 Hc0) as [HP0|[Hin Ha]]; rewrite Hf in *; [|done].
      destruct (HP First HP0). by left.
    + destruct (H id c Hc) as [?|[[-> |?]%elem_of_cons Ha]]; [by left|done|by right].
Qed.
(** With no call waiting but for a refresh after a 401, the end of the refresh
    leaves only second attempts. *)
Lemma resume_phases ok ws st : phases (λ ph, ph = Second) ws (λ ph, ph = Refreshing) st →
  phases (λ ph, ph = Second) [] (λ ph, ph = Refreshing) (foldl (resume ok) st ws).
Proof.
  revert st. induction ws as [|i ws IH]; intros st H; [done|]. cbn [foldl]. apply IH.
  intros id c. unfold resume. destruct (calls st !! i) as [ci|] eqn:Hi.
  2: { intros Hc. destruct (H id c Hc) as [?|[[-> |?]%elem_of_cons ?]]; [by left|congruence|by right]. }
  assert (Hother : i ≠ id → calls st !! id = Some c → c_phase c = Second ∨ id ∈ ws ∧ c_phase c = Refreshing).
  { intros Hne Hc. destruct (H id c Hc) as [?|[[-> |?]%elem_of_cons ?]]; [by left|done|by right]. }
  destruct (H i ci Hi) as [E|[_ E]]; rewrite E.
  - intros Hc. destruct (decide (i = id)) as [<-|Hne]; [left; congruence|by apply Hother].
  - destruct ok; cbn.
    + rewrite lookup_insert_Some. intros [[<- <-]|[Hne Hc]]; [by left|by apply Hother].
    + rewrite lookup_delete_Some. intros [Hne Hc]. by apply Hother.
Qed.
Lemma after_refresh_phases b t st : well b st → phases (λ _, False) (seq 0 (next_call (on_refresh t st))) answered (on_refresh t st).
Proof.
  intros Hw. destruct (on_refresh_well b t st Hw) as ([Hb _] & Hwt & _). intros id c Hc. right. split.
  - apply elem_of_seq. apply (bk_ids _ _ _ Hb) in Hc. lia.
  - destruct (c_phase c) eqn:E; unfold answered; auto.
    all: assert (H : id ∈ waiters (on_refresh t st)) by (apply (bk_waits _ _ _ Hb); exists c; rewrite E; unfold waiting; auto).
    all: rewrite Hwt in H; inversion H.
Qed.
Lemma next_call_resume ok st id : next_call (resume ok st id) = next_call st.
Proof. unfold resume. by repeat case_match. Qed.
Lemma next_call_refresh t st : next_call (on_refresh t st) = next_call st.
Proof.
  unfold on_refresh. destruct (refreshing st); [|done]. cbn [negb].
  assert (E : next_call st = next_call (refresh_done t st)) by (unfold refresh_done; by destruct (truthy_token t)).
  rewrite E. generalize (waiters st). intros ws. generalize (refresh_done t st).
  clear. intros st0. revert st0. induction ws as [|i ws IH]; intros st0; [done|]. cbn [foldl]. rewrite IH. apply next_call_resume.
Qed.
Lemma next_call_answers a ids st : next_call (run st ((λ id, EAnswer id (a id)) <$> ids)) = next_call st.
Proof.
  revert st. induction ids as [|i ids IH]; intros st; [done|]. rewrite fmap_cons. cbn [run foldl step].
  etransitivity; [apply IH|]. unfold on_answer, await_refresh. by repeat case_match.
Qed.
Lemma on_refresh_phases b t st : well b st → phases (λ ph, ph = Refreshing) [] answered st →
  phases (λ _, False) (seq 0 (next_call st)) (λ ph, ph = Second) (on_refresh t st).
Proof.
  intros Hw H. destruct (on_refresh_well b t st Hw) as ([Hb' _] & Hwt & _).
  assert (Hall : phases (λ ph, ph = Second) [] (λ ph, ph = Refreshing) (on_refresh t st)).
  { unfold on_refresh. destruct (refreshing st) eqn:E; cbn [negb].
    - apply resume_phases. intros id c Hc. right.
      assert (Hc' : calls st !! id = Some c) by (revert Hc; unfold refresh_done; by destruct (truthy_token t)).
      destruct (H id c Hc') as [Hr|[Hin _]]; [|inversion Hin].
      split; [|done]. apply (bk_waits _ _ _ (proj1 Hw)). exists c. split; [done|by right].
    - intros id c Hc. destruct (H id c Hc) as [Hr|[Hin _]]; [|inversion Hin].
      assert (Hin : id ∈ waiters st) by (apply (bk_waits _ _ _ (proj1 Hw)); exists c; split; [done|by right]).
      destruct Hw as [_ Hf]. unfold in_flight in Hf. rewrite E in Hf. destruct (waiters st); [inversion Hin|].
      by discriminate Hf. }
  intros id c Hc. right. split.
  - apply elem_of_seq. pose proof (bk_ids _ _ _ Hb' _ _ Hc) as Hid. rewrite next_call_refresh in Hid. lia.
  - destruct (Hall id c Hc) as [?|[Hin _]]; [done|inversion Hin].
Qed.

(** C35. Every call ends: from any reachable state, once the refresh in flight has
    settled, each pending request has been answered, the refresh those answers
    may have started has settled and its retries have been answered, whatever the
    answers, no call is left pending and each one ever issued has settled. *)
Theorem calls_all_settle cl es t1 a1 t2 a2 :
  let st := run (initial cl) es in
  let ids := seq 0 (next_call st) in
  let st' := run st ([ERefresh t1] ++ ((λ id, EAnswer id (a1 id)) <$> ids) ++
                     [ERefresh t2] ++ ((λ id, EAnswer id (a2 id)) <$> ids)) in
  calls st' = ∅ ∧ ∀ id, (id < next_call st)%nat → id ∈ (settled st').*1.
Proof.
  intros st ids st'. assert (Hw : well (boot_count es + 0) st) by apply run_well, initial_well.
  assert (Hst : st' = run (on_refresh t2 (run (on_refresh t1 st) ((λ id, EAnswer id (a1 id)) <$> ids)))
    ((λ id, EAnswer id (a2 id)) <$> ids)) by (unfold st', run; by rewrite !foldl_app).
  set (s1 := on_refresh t1 st) in *. set (s2 := run s1 ((λ id, EAnswer id (a1 id)) <$> ids)) in *.
  assert (E1 : next_call s1 = next_call st) by apply next_call_refresh.
  assert (E2 : next_call s2 = next_call st) by (unfold s2; by rewrite next_call_answers).
  destruct (on_refresh_well _ t1 st Hw) as (Hw1 & _ & _). fold s1 in Hw1.
  pose proof (run_well _ _ ((λ id, EAnswer id (a1 id)) <$> ids) Hw1) as Hw2. fold s2 in Hw2.
  destruct (on_refresh_well _ t2 s2 Hw2) as (Hw3 & _ & _).
  assert (P1 : phases (λ ph, ph = Refreshing) ids answered s1).
  { intros id c Hc. destruct (after_refresh_phases _ t1 st Hw id c Hc) as [[]|[Hin Ha]]. right. split; [|done].
    fold s1 in Hin. by rewrite E1 in Hin. }
  assert (P2 : phases (λ ph, ph = Refreshing) [] answered s2).
  { apply answers_phases; [done| |done|done]. intros ph -> [H|H]; done. }
  pose proof (on_refresh_phases _ t2 s2 Hw2 P2) as P3. rewrite E2 in P3. fold ids in P3.
  assert (P4 : phases (λ _, False) [] (λ ph, ph = Second) st').
  { rewrite Hst. apply answers_phases; [intros ph ->; by right|done|done|done]. }
  assert (He : calls st' = ∅).
  { apply map_empty. intros id. destruct (calls st' !! id) as [c|] eqn:E; [|done].
    destruct (P4 id c E) as [[]|[Hin _]]. inversion Hin. }
  split; [done|]. intros id Hid.
  assert (Hw4 : ∃ b, well b st') by (rewrite Hst; eexists; by eapply run_well).
  destruct Hw4 as [b [Hb _]]. apply (bk_open _ _ _ Hb); [|by rewrite He].
  rewrite Hst, next_call_answers, next_call_refresh, E2. done.
Qed.

(** ** The 401 of a login *)

(** A wrong password, which the server answers with a 401 and a message: [send]
    takes it for an expired session, tries a refresh, and when that fails leaves
    for [/login] and throws "Session expired", so the caller never sees the
    answer's message. *)
Definition login_events (text : jstring) (body : jsval) : list Event :=
  [ECall "/v1/auth/login"%js {| o_method := Some "POST"%js; o_body := true; o_contentType := false; o_cluster := None |};
   EAnswer 0 (Status 401 text body); ERefresh None].
Theorem login_refusal_is_session_expired cl text body :
  let st := run (initial cl) (login_events text body) in
  settled st = [(0%nat, Refused SESSION_EXPIRED)] ∧ redirects st = 1%nat ∧ refreshes st = 1%nat.
Proof. split_and!; reflexivity. Qed.
