(* ===== verification/YamlApply.v ===== *)
(** * Validate and apply: yaml-apply.ts and YamlApplyPage.tsx

    The hook behind the YAML editor. A preview records the cluster it ran
    against, a pinned apply is held to it, and an apply whose answer was lost
    keeps its operation id so that pressing Apply again continues it.

    One page is a record: the hook's signals and refs, the cluster selection,
    the session storage, the signed-in user, the page's checkboxes, the applies
    on the wire, and the applies still in flight whose hook was unmounted. The
    two [async] handlers are split at their one [await]. [previews] is a ghost:
    the successful previews with the text each ran on. *)

From stdpp Require Import base list strings gmap.
From Stdlib Require Import ZArith NArith QArith Lia.
From S2P Require Import Prelude JsValue Uri Sha256 JsonText JsonParse PendingApply Cluster Api.

Open Scope Z_scope.

(** ** Definitions *)

(** *** Data *)

Record ValidateResponse := { v_targetCluster : jstring; v_targetGeneration : jstring; v_body : jsval }.
Record YamlApplyPin := {
  p_target : ClusterTarget;
  p_targetCluster : jstring;
  p_targetGeneration : jstring;
  pinnedAt : number
}.
Record ApplyQueryInput := {
  q_force : bool;
  q_pin : option (jstring * jstring);
  q_trackedOperationId : option jstring;
  q_repairOf : option jstring
}.
Inductive RefusalReason :=
  receipt_store_unavailable | operation_id_conflict | operation_in_flight | operation_id_reused.
Record TrackedApplyRefusal := {
  rf_reason : RefusalReason;
  rf_message : jstring;
  rf_receiptId : option jstring;
  rf_applied : option bool;
  rf_retrySame : option bool
}.
(** What the error banner shows: a text of the hook's own, or the [message] of
    what was thrown ([None]: not an [ApiError]). *)
Inductive Notice := Text (s : jstring) | MessageOf (err : option ApiError).

(** *** The query string *)

(** The application/x-www-form-urlencoded serializer of [URLSearchParams]. *)
Definition form_safe (c : N) : bool :=
  in_range 48 57 c || in_range 65 90 c || in_range 97 122 c || (c =? 42)%N || (c =? 45)%N || (c =? 46)%N || (c =? 95)%N.
Definition form_point (cp : N) : list N :=
  if form_safe cp then [cp] else if (cp =? 32)%N then [43%N] else percent_utf8 cp.
(** A lone surrogate becomes U+FFFD. *)
Fixpoint form_units (l : list N) : list N :=
  match l with
  | [] => []
  | c :: rest =>
      if high_surrogate c then
        match rest with
        | d :: rest' => if low_surrogate d then form_point (code_point c d) ++ form_units rest'
                        else form_point 65533 ++ form_units rest
        | [] => form_point 65533
        end
      else if low_surrogate c then form_point 65533 ++ form_units rest
      else form_point c ++ form_units rest
  end.
Fixpoint query_units (ps : list (jstring * jstring)) : list N :=
  match ps with
  | [] => []
  | [(k, v)] => form_units (units k) ++ 61%N :: form_units (units v)
  | (k, v) :: rest => form_units (units k) ++ 61%N :: form_units (units v) ++ 38%N :: query_units rest
  end.
(** [if (s)] on an optional string. *)
Definition truthy_str (s : option jstring) : option jstring := truthy_token s.
(** The parameters, in the order they are set; no name is set twice. *)
Definition apply_params (i : ApplyQueryInput) : list (jstring * jstring) :=
  (if q_force i then [("force"%js, "true"%js)] else []) ++
  (match q_pin i with
   | Some (c, g) => [("targetCluster"%js, c); ("targetGeneration"%js, g)]
   | None => [] end) ++
  (match truthy_str (q_trackedOperationId i) with
   | Some t => ("trackedOperationId"%js, t) ::
       (match truthy_str (q_repairOf i) with Some r => [("repairOf"%js, r)] | None => [] end)
   | None => [] end).
Definition buildApplyQuery (i : ApplyQueryInput) : jstring :=
  match apply_params i with [] => ""%js | ps => JS (63%N :: query_units ps) end.

(** *** Reading a failure; [None] is a failure that is not an [ApiError] *)

Definition reason_is (e : ApiError) (r : jstring) : bool :=
  match err_reason e with JStr s => js_eqb s r | _ => false end.
Definition trackedApplyRefusal (err : option ApiError) : option TrackedApplyRefusal :=
  match err with
  | None => None
  | Some e =>
      if (err_status e =? 503) && reason_is e "receipt_store_unavailable"%js then
        Some {| rf_reason := receipt_store_unavailable;
          rf_message := "The change record could not be saved, so nothing was applied. Try again shortly, or turn off change tracking to apply without a record."%js;
          rf_receiptId := None; rf_applied := errorExtraFlag e "applied"%js;
          rf_retrySame := errorExtraFlag e "retrySameOperationId"%js |}
      else if negb (err_status e =? 409) then None
      else if reason_is e "operation_id_conflict"%js then
        Some {| rf_reason := operation_id_conflict;
          rf_message := "This apply could not be recorded because its operation id is already in use. Nothing was applied. Apply again to start a new change."%js;
          rf_receiptId := None; rf_applied := None; rf_retrySame := None |}
      else if reason_is e "operation_in_flight"%js then
        Some {| rf_reason := operation_in_flight;
          rf_message := "This apply is still running. Check its change receipt instead of applying again."%js;
          rf_receiptId := truthy_str (errorExtra e "receiptId"%js); rf_applied := None; rf_retrySame := None |}
      else if reason_is e "operation_id_reused"%js then
        Some {| rf_reason := operation_id_reused;
          rf_message := "This operation id was already used for different content or a different cluster. Nothing was applied by this request. Validate again and apply as a new change."%js;
          rf_receiptId := None; rf_applied := None; rf_retrySame := None |}
      else None
  end.
Definition isIndeterminateApplyFailure (err : option ApiError) : bool :=
  match err with
  | None => true
  | Some e => (500 <=? err_status e) || ((err_status e =? 409) && reason_is e "operation_in_flight"%js)
  end.
Definition attemptMayHaveApplied (err : option ApiError) (refusal : option TrackedApplyRefusal) : bool :=
  match refusal with
  | Some r =>
      match rf_reason r with
      | receipt_store_unavailable =>
          negb (bool_decide (rf_applied r = Some false)) || bool_decide (rf_retrySame r = Some true)
      | _ => false
      end
  | None =>
      match err with
      | Some e => if err_status e =? 409 then false else isIndeterminateApplyFailure err
      | None => isIndeterminateApplyFailure err
      end
  end.
Definition normalizeClusterId (id : jstring) : jstring := js_or id LOCAL_CLUSTER_ID.
(** A double quote. *)
Definition DQ : jstring := JS [34%N].
Definition pinRefusalMessage (err : option ApiError) : option jstring :=
  match err with
  | None => None
  | Some e =>
      if negb (err_status e =? 409) then None
      else if reason_is e "cluster_pin_mismatch"%js then
        let pinned := default "unknown"%js (errorExtra e "pinnedClusterId"%js) in
        let requested := default "unknown"%js (errorExtra e "requestClusterId"%js) in
        Some ("Apply refused: the preview ran against cluster " +++ DQ +++ pinned +++ DQ +++ ", but this request was sent to " +++ DQ +++ requested +++ DQ +++ ". Nothing was applied. Validate again to apply.")%js
      else if reason_is e "cluster_generation_mismatch"%js then
        Some "Apply refused: the cluster you previewed has been re-registered since the preview. Nothing was applied. Validate again to apply."%js
      else None
  end.

(** *** The hook *)

Record ValidateInFlight := { va_target : ClusterTarget; va_yaml : jstring; va_aborted : bool }.
Record ApplyInFlight := { fl_key : jstring; fl_reused : bool }.
Record Hook := {
  yamlContent : jstring;
  applying : option ApplyInFlight;
  validating : option ValidateInFlight;
  h_error : option Notice;
  h_result : option jsval;
  h_preview : option ValidateResponse;
  h_pin : option YamlApplyPin;
  lastOperationId : option jstring;
  attemptOutcomeUnknown : bool;
  trackedRefusal : option TrackedApplyRefusal;
  pendingAttempt : option PendingAttempt
}.
Definition mounted (initialYaml : jstring) : Hook :=
  {| yamlContent := initialYaml; applying := None; validating := None; h_error := None; h_result := None;
     h_preview := None; h_pin := None; lastOperationId := None; attemptOutcomeUnknown := false;
     trackedRefusal := None; pendingAttempt := None |}.
Definition working (h : Hook) : bool :=
  match applying h, validating h with None, None => false | _, _ => true end.
Definition clearPin (h : Hook) : Hook :=
  {| yamlContent := yamlContent h; applying := applying h; validating := validating h; h_error := h_error h;
     h_result := h_result h; h_preview := None; h_pin := None; lastOperationId := lastOperationId h;
     attemptOutcomeUnknown := attemptOutcomeUnknown h; trackedRefusal := trackedRefusal h;
     pendingAttempt := pendingAttempt h |}.
Definition set_yaml (v : jstring) (h : Hook) : Hook :=
  {| yamlContent := v; applying := applying h; validating := validating h; h_error := h_error h;
     h_result := h_result h; h_preview := h_preview h; h_pin := h_pin h; lastOperationId := lastOperationId h;
     attemptOutcomeUnknown := attemptOutcomeUnknown h; trackedRefusal := trackedRefusal h;
     pendingAttempt := pendingAttempt h |}.
Definition set_error (e : option Notice) (h : Hook) : Hook :=
  {| yamlContent := yamlContent h; applying := applying h; validating := validating h; h_error := e;
     h_result := h_result h; h_preview := h_preview h; h_pin := h_pin h; lastOperationId := lastOperationId h;
     attemptOutcomeUnknown := attemptOutcomeUnknown h; trackedRefusal := trackedRefusal h;
     pendingAttempt := pendingAttempt h |}.
Definition set_result (r : option jsval) (h : Hook) : Hook :=
  {| yamlContent := yamlContent h; applying := applying h; validating := validating h; h_error := h_error h;
     h_result := r; h_preview := h_preview h; h_pin := h_pin h; lastOperationId := lastOperationId h;
     attemptOutcomeUnknown := attemptOutcomeUnknown h; trackedRefusal := trackedRefusal h;
     pendingAttempt := pendingAttempt h |}.
Definition set_validating (v : option ValidateInFlight) (h : Hook) : Hook :=
  {| yamlContent := yamlContent h; applying := applying h; validating := v; h_error := h_error h;
     h_result := h_result h; h_preview := h_preview h; h_pin := h_pin h; lastOperationId := lastOperationId h;
     attemptOutcomeUnknown := attemptOutcomeUnknown h; trackedRefusal := trackedRefusal h;
     pendingAttempt := pendingAttempt h |}.
Definition set_preview (d : ValidateResponse) (p : YamlApplyPin) (h : Hook) : Hook :=
  {| yamlContent := yamlContent h; applying := applying h; validating := validating h; h_error := h_error h;
     h_result := h_result h; h_preview := Some d; h_pin := Some p; lastOperationId := lastOperationId h;
     attemptOutcomeUnknown := attemptOutcomeUnknown h; trackedRefusal := trackedRefusal h;
     pendingAttempt := pendingAttempt h |}.
Definition set_attempt (a : option PendingAttempt) (h : Hook) : Hook :=
  {| yamlContent := yamlContent h; applying := applying h; validating := validating h; h_error := h_error h;
     h_result := h_result h; h_preview := h_preview h; h_pin := h_pin h; lastOperationId := lastOperationId h;
     attemptOutcomeUnknown := attemptOutcomeUnknown h; trackedRefusal := trackedRefusal h;
     pendingAttempt := a |}.

(** [pinStale]: the selection has moved away from the pin. *)
Definition pinStale (h : Hook) (sel : ClusterState) : bool :=
  match h_pin h with
  | None => false
  | Some p =>
      if negb (js_eqb (clusterId (p_target p)) (clusterId sel)) then true
      else negb (js_eqb (generation (p_target p)) UNKNOWN_GENERATION)
           && negb (js_eqb (generation (p_target p)) (generation sel))
  end.

(** [handleValidate] up to its [await]. *)
Definition handleValidate (sel : ClusterState) (h : Hook) : Hook :=
  if working h then h else
  {| yamlContent := yamlContent h; applying := None;
     validating := Some {| va_target := currentTarget sel; va_yaml := yamlContent h; va_aborted := false |};
     h_error := None; h_result := None; h_preview := None; h_pin := None; lastOperationId := None;
     attemptOutcomeUnknown := false; trackedRefusal := None; pendingAttempt := pendingAttempt h |}.
Inductive ValidateOutcome := VOk (data : ValidateResponse) | VErr (err : option ApiError).
(** Whether the answer is taken for a preview of [v]. *)
Definition preview_taken (sel : ClusterState) (v : ValidateInFlight) (data : ValidateResponse) : bool :=
  (epoch sel =? epoch (va_target v))%N &&
  js_eqb (normalizeClusterId (v_targetCluster data)) (normalizeClusterId (clusterId (va_target v))).
Definition pin_of (v : ValidateInFlight) (data : ValidateResponse) (now : number) : YamlApplyPin :=
  {| p_target := va_target v; p_targetCluster := v_targetCluster data;
     p_targetGeneration := v_targetGeneration data; pinnedAt := now |}.
(** The rest of [handleValidate], its [finally] included. *)
Definition validate_answered (sel : ClusterState) (r : ValidateOutcome) (now : number) (h : Hook) : Hook :=
  match validating h with
  | None => h
  | Some v =>
      let h0 := set_validating None h in
      let moved := negb (epoch sel =? epoch (va_target v))%N in
      match r with
      | VOk data =>
          if moved then h0
          else if negb (preview_taken sel v data) then
            set_error (Some (Text ("Validation ran against cluster " +++ DQ +++ v_targetCluster data +++ DQ +++
              " instead of " +++ DQ +++ clusterId (va_target v) +++ DQ +++ ". Validate again.")%js)) h0
          else set_preview data (pin_of v data now) h0
      | VErr err => if va_aborted v || moved then h0 else set_error (Some (MessageOf err)) h0
      end
  end.
(** The effect on a cluster switch: a preview issued in another epoch is aborted. *)
Definition abort_stale (sel : ClusterState) (h : Hook) : Hook :=
  match validating h with
  | Some v => if (epoch (va_target v) =? epoch sel)%N then h
              else set_validating (Some {| va_target := va_target v; va_yaml := va_yaml v; va_aborted := true |}) h
  | None => h
  end.

(** Everything an apply request carries, and who sends it. *)
Record Inputs := {
  in_force : bool;
  in_pin : option (jstring * jstring);
  in_repairOf : option jstring;
  in_cluster : jstring;
  in_user : option jstring;
  in_yaml : jstring
}.
Definition opt_str (s : option jstring) : jsval := match s with Some t => JStr t | None => JNull end.
Definition pin_value (p : option (jstring * jstring)) : jsval :=
  match p with
  | Some (c, g) => JObj [("targetCluster"%js, JStr c); ("targetGeneration"%js, JStr g)]
  | None => JNull
  end.
Definition inputs_value (i : Inputs) : jsval :=
  JArr [JBool (in_force i); pin_value (in_pin i); opt_str (in_repairOf i); JStr (in_cluster i);
        opt_str (in_user i); JStr (in_yaml i)].
(** An apply on the wire. *)
Record Sent := { s_inputs : Inputs; s_id : option jstring; s_path : jstring }.

(** *** The page *)

Record Preview := { pv_pin : YamlApplyPin; pv_yaml : jstring }.
Record Page := {
  hook : Hook;
  orphans : list ApplyInFlight;
  sel : ClusterState;
  storage : Storage;
  user : option jstring;
  forceConflicts : bool;
  tracked : bool;
  repairOf : option jstring;
  sent : list Sent;
  previews : list Preview
}.
Definition with_hook (h : Hook) (p : Page) : Page :=
  {| hook := h; orphans := orphans p; sel := sel p; storage := storage p; user := user p;
     forceConflicts := forceConflicts p; tracked := tracked p; repairOf := repairOf p; sent := sent p;
     previews := previews p |}.
Definition with_storage (s : Storage) (p : Page) : Page :=
  {| hook := hook p; orphans := orphans p; sel := sel p; storage := s; user := user p;
     forceConflicts := forceConflicts p; tracked := tracked p; repairOf := repairOf p; sent := sent p;
     previews := previews p |}.

Section Page.
(** The option [pinApplyToPreview], and [JSON.stringify] where the printer of
    JsonParse.v does not reach. *)
Context (pinApplyToPreview : bool) (print_other : jsval → jstring).

Definition request_key (i : Inputs) : jstring := stringify print_other (inputs_value i).
(** The pin an apply is held to. *)
Definition pinned (h : Hook) : option YamlApplyPin := if pinApplyToPreview then h_pin h else None.
Definition apply_inputs (p : Page) : Inputs :=
  {| in_force := forceConflicts p;
     in_pin := match pinned (hook p) with
       | Some pn => Some (p_targetCluster pn, p_targetGeneration pn) | None => None end;
     in_repairOf := repairOf p;
     in_cluster := match pinned (hook p) with
       | Some pn => clusterId (p_target pn) | None => clusterId (sel p) end;
     in_user := user p;
     in_yaml := yamlContent (hook p) |}.
Definition apply_path (i : Inputs) (id : option jstring) : jstring :=
  ("/v1/yaml/apply" +++ buildApplyQuery {| q_force := in_force i; q_pin := in_pin i;
     q_trackedOperationId := id; q_repairOf := in_repairOf i |})%js.
(** The attempt a tracked apply of [key] continues: the one in memory, or the
    one in the storage. *)
Definition pending_for (key : jstring) (now : number) (mem : option PendingAttempt) (st : Storage)
    : option PendingAttempt * Storage :=
  match mem with
  | Some m => if js_eqb (requestKey m) key && num_ltb (num_sub now (att_at m)) PENDING_ATTEMPT_TTL_MS
              then (Some m, st) else readStoredAttempt key now st
  | None => readStoredAttempt key now st
  end.
Definition send_apply (i : Inputs) (id : option jstring) (p : Page) : Page :=
  {| hook := hook p; orphans := orphans p; sel := sel p; storage := storage p; user := user p;
     forceConflicts := forceConflicts p; tracked := tracked p; repairOf := repairOf p;
     sent := sent p ++ [{| s_inputs := i; s_id := id; s_path := apply_path i id |}]; previews := previews p |}.

(** The [catch] of [handleApply]: does the attempt end? *)
Definition attempt_over (err : option ApiError) (reused : bool) : bool :=
  let releaseStoreFailure :=
    match trackedApplyRefusal err with
    | Some r => match rf_reason r with
        | receipt_store_unavailable =>
            match rf_retrySame r with Some b => negb b | None => negb reused end
        | _ => false end
    | None => false
    end in
  negb (isIndeterminateApplyFailure err) || releaseStoreFailure.
(** The hook's part of the [catch] and the [finally]. *)
Definition failed_hook (err : option ApiError) (reused : bool) (h : Hook) : Hook :=
  let refusal := pinRefusalMessage err in
  let failure := trackedApplyRefusal err in
  let drop_pin := match failure, refusal with None, Some _ => true | _, _ => false end in
  {| yamlContent := yamlContent h; applying := None; validating := validating h;
     h_error := Some (match failure, refusal with
       | Some f, _ => Text (rf_message f) | None, Some m => Text m | None, None => MessageOf err end);
     h_result := h_result h;
     h_preview := if drop_pin then None else h_preview h;
     h_pin := if drop_pin then None else h_pin h;
     lastOperationId := lastOperationId h;
     attemptOutcomeUnknown := match lastOperationId h with
       | Some _ => attemptMayHaveApplied err failure | None => false end;
     trackedRefusal := match failure with Some f => Some f | None => trackedRefusal h end;
     pendingAttempt := if attempt_over err reused then None else pendingAttempt h |}.
Definition failed_storage (err : option ApiError) (a : ApplyInFlight) (st : Storage) : Storage :=
  if attempt_over err (fl_reused a) then clearStoredAttempt (fl_key a) st else st.

(** [handleApply] up to its [await]; [uuid] is what [uuidv4()] returns, [None]
    where it throws. *)
Definition handleApply (uuid : option jstring) (now : number) (p : Page) : Page :=
  let h := hook p in
  if working h then p else
  let h1 := {| yamlContent := yamlContent h; applying := None; validating := None; h_error := h_error h;
    h_result := h_result h; h_preview := h_preview h; h_pin := h_pin h; lastOperationId := None;
    attemptOutcomeUnknown := false; trackedRefusal := trackedRefusal h; pendingAttempt := pendingAttempt h |} in
  if pinApplyToPreview && match h_pin h with None => true | Some _ => false end then
    with_hook (set_error (Some (Text "Validate first, so the apply is tied to a reviewed cluster."%js)) h1) p
  else
  let i := apply_inputs p in
  let key := request_key i in
  let started (reused : bool) (id : option jstring) (att : option PendingAttempt) :=
    {| yamlContent := yamlContent h; applying := Some {| fl_key := key; fl_reused := reused |};
       validating := None; h_error := None; h_result := None; h_preview := h_preview h; h_pin := h_pin h;
       lastOperationId := id; attemptOutcomeUnknown := false; trackedRefusal := None; pendingAttempt := att |} in
  if tracked p then
    let (pending, st1) := pending_for key now (pendingAttempt h) (storage p) in
    match pending with
    | Some a =>
        send_apply i (Some (att_id a))
          (with_hook (started true (Some (att_id a)) (Some a)) (with_storage (writeStoredAttempt print_other a st1) p))
    | None =>
        match uuid with
        | None => with_hook (failed_hook None false (started false None (pendingAttempt h))) (with_storage st1 p)
        | Some u =>
            let a := {| att_id := u; requestKey := key; att_at := now |} in
            send_apply i (Some u)
              (with_hook (started false (Some u) (Some a)) (with_storage (writeStoredAttempt print_other a st1) p))
        end
    end
  else
    send_apply i None (with_hook (started false None None) (with_storage (clearStoredAttempt key (storage p)) p)).
(** The rest of [handleApply]: an answer, or what was thrown. *)
Inductive ApplyOutcome := AOk (data : jsval) | AErr (err : option ApiError).
Definition apply_answered (r : ApplyOutcome) (p : Page) : Page :=
  match applying (hook p) with
  | None => p
  | Some a =>
      match r with
      | AOk data =>
          let h := hook p in
          with_hook
            {| yamlContent := yamlContent h; applying := None; validating := validating h; h_error := h_error h;
               h_result := Some data; h_preview := h_preview h; h_pin := h_pin h;
               lastOperationId := lastOperationId h; attemptOutcomeUnknown := attemptOutcomeUnknown h;
               trackedRefusal := trackedRefusal h; pendingAttempt := None |}
            (with_storage (clearStoredAttempt (fl_key a) (storage p)) p)
      | AErr err =>
          with_hook (failed_hook err (fl_reused a) (hook p)) (with_storage (failed_storage err a (storage p)) p)
      end
  end.
(** The same for an apply whose hook is gone: only the storage still matters. *)
Definition orphan_answered (n : nat) (r : ApplyOutcome) (p : Page) : Page :=
  match orphans p !! n with
  | None => p
  | Some a =>
      {| hook := hook p; orphans := delete n (orphans p); sel := sel p;
         storage := match r with AOk _ => clearStoredAttempt (fl_key a) (storage p)
                               | AErr err => failed_storage err a (storage p) end;
         user := user p; forceConflicts := forceConflicts p; tracked := tracked p; repairOf := repairOf p;
         sent := sent p; previews := previews p |}
  end.

(** What can happen to the page. *)
Inductive Act :=
  | Validate
  | Validated (r : ValidateOutcome) (now : number)
  | Apply (uuid : option jstring) (now : number)
  | Applied (r : ApplyOutcome)
  | OrphanApplied (n : nat) (r : ApplyOutcome)
  | Repreview
  | Edit (v : jstring)
  | Uploaded (text : jstring)
  | UploadRefused (tooLarge : jstring)
  | SwitchCluster (cid gen : jstring)
  | SetForce (b : bool)
  | SetTracked (b : bool)
  | SetRepairOf (r : option jstring)
  | SignedIn (id : option jstring)
  | LoggedOut
  | Remount (initialYaml : jstring)
  | Reload (initialYaml : jstring) (target : jstring * jstring).
Definition with_sel (c : ClusterState) (p : Page) : Page :=
  {| hook := abort_stale c (hook p); orphans := orphans p; sel := c; storage := storage p; user := user p;
     forceConflicts := forceConflicts p; tracked := tracked p; repairOf := repairOf p; sent := sent p;
     previews := previews p |}.
Definition with_options (f t : bool) (r : option jstring) (p : Page) : Page :=
  {| hook := hook p; orphans := orphans p; sel := sel p; storage := storage p; user := user p;
     forceConflicts := f; tracked := t; repairOf := r; sent := sent p; previews := previews p |}.
Definition with_user (u : option jstring) (p : Page) : Page :=
  {| hook := hook p; orphans := orphans p; sel := sel p; storage := storage p; user := u;
     forceConflicts := forceConflicts p; tracked := tracked p; repairOf := repairOf p; sent := sent p;
     previews := previews p |}.
(** A successful preview is recorded with the text it ran on. *)
Definition note_preview (r : ValidateOutcome) (now : number) (p : Page) : list Preview :=
  match validating (hook p), r with
  | Some v, VOk data =>
      if preview_taken (sel p) v data then previews p ++ [{| pv_pin := pin_of v data now; pv_yaml := va_yaml v |}]
      else previews p
  | _, _ => previews p
  end.
Definition act (p : Page) (a : Act) : Page :=
  match a with
  | Validate => with_hook (handleValidate (sel p) (hook p)) p
  | Validated r now =>
      {| hook := validate_answered (sel p) r now (hook p); orphans := orphans p; sel := sel p;
         storage := storage p; user := user p; forceConflicts := forceConflicts p; tracked := tracked p;
         repairOf := repairOf p; sent := sent p; previews := note_preview r now p |}
  | Apply uuid now => handleApply uuid now p
  | Applied r => apply_answered r p
  | OrphanApplied n r => orphan_answered n r p
  | Repreview => with_hook (handleValidate (sel p) (clearPin (hook p))) p
  | Edit v =>
      if working (hook p) || js_eqb v (yamlContent (hook p)) then p
      else with_hook (clearPin (set_yaml v (hook p))) p
  | Uploaded text =>
      with_hook (set_error None (clearPin (set_result None (set_yaml text (hook p))))) p
  | UploadRefused tooLarge => with_hook (set_error (Some (Text tooLarge)) (hook p)) p
  | SwitchCluster cid gen => with_sel (switchCluster (sel p) cid gen) p
  | SetForce b => with_options b (tracked p) (repairOf p) p
  | SetTracked b => with_options (forceConflicts p) b (repairOf p) p
  | SetRepairOf r => with_options (forceConflicts p) (tracked p) r p
  | SignedIn id => with_user id p
  | LoggedOut =>
      with_sel (switchCluster (sel p) LOCAL_CLUSTER_ID LOCAL_GENERATION)
        (with_user None (with_storage (clearPendingApplies (storage p)) p))
  | Remount y =>
      {| hook := mounted y; orphans := orphans p ++ option_list (applying (hook p)); sel := sel p;
         storage := storage p; user := user p; forceConflicts := false; tracked := false; repairOf := None;
         sent := sent p; previews := previews p |}
  | Reload y target =>
      {| hook := mounted y; orphans := []; sel := restored target; storage := storage p; user := None;
         forceConflicts := false; tracked := false; repairOf := None; sent := sent p; previews := previews p |}
  end.
Definition acts (p : Page) (l : list Act) : Page := foldl act p l.
Definition first_page (y : jstring) (target : jstring * jstring) (items : list (jstring * jstring)) (full : bool) : Page :=
  {| hook := mounted y; orphans := []; sel := restored target;
     storage := {| st_items := items; st_open := true; st_full := full |}; user := None;
     forceConflicts := false; tracked := false; repairOf := None; sent := []; previews := [] |}.

(** ** A pinned apply is its preview *)

(** No file's text lands while a validation is in flight. *)
Fixpoint uploads_wait (p : Page) (l : list Act) : bool :=
  match l with
  | [] => true
  | a :: rest =>
      match a, validating (hook p) with Uploaded _, Some _ => false | _, _ => true end
      && uploads_wait (act p a) rest
  end.
(** The apply [s] is the preview [pv]: the same cluster, the identity the server
    gave for it, and, when [T] holds, the same text. *)
Definition applies_preview (T : Prop) (s : Sent) (pv : Preview) : Prop :=
  in_cluster (s_inputs s) = clusterId (p_target (pv_pin pv)) ∧
  in_pin (s_inputs s) = Some (p_targetCluster (pv_pin pv), p_targetGeneration (pv_pin pv)) ∧
  (T → in_yaml (s_inputs s) = pv_yaml pv).
Record pinned_inv (T : Prop) (p : Page) : Prop := {
  pi_sent : Forall (λ s, Exists (applies_preview T s) (previews p)) (sent p);
  pi_pin : ∀ pn, h_pin (hook p) = Some pn →
    Exists (λ pv, pv_pin pv = pn ∧ (T → pv_yaml pv = yamlContent (hook p))) (previews p);
  pi_val : ∀ v, T → validating (hook p) = Some v → va_yaml v = yamlContent (hook p)
}.
(** Steps that send nothing and take no preview. *)
Lemma pinned_frame T p p' : pinned_inv T p → sent p' = sent p → previews p' = previews p →
  (h_pin (hook p') = None ∨ (h_pin (hook p') = h_pin (hook p) ∧ yamlContent (hook p') = yamlContent (hook p))) →
  (∀ v, T → validating (hook p') = Some v → va_yaml v = yamlContent (hook p')) → pinned_inv T p'.
Proof.
  intros [Hs Hp Hv] Es Ep Hpin Hval. split; [by rewrite Es, Ep| |done].
  intros pn. rewrite Ep. destruct Hpin as [-> |[-> ->]]; [done|]. apply Hp.
Qed.
End Page.

Lemma working_false h : working h = false → applying h = None ∧ validating h = None.
Proof. unfold working. destruct (applying h), (validating h); done. Qed.
Lemma abort_stale_val c h v : validating (abort_stale c h) = Some v → ∃ v0, validating h = Some v0 ∧ va_yaml v = va_yaml v0.
Proof.
  unfold abort_stale. destruct (validating h) as [v0|] eqn:E; [|congruence].
  destruct (_ =? _)%N; [rewrite E; intros [= <-]; eauto|]. cbn. intros [= <-]. eauto.
Qed.
Lemma abort_stale_frame c h : h_pin (abort_stale c h) = h_pin h ∧ yamlContent (abort_stale c h) = yamlContent h.
Proof. unfold abort_stale. destruct (validating h); [|done]. by destruct (_ =? _)%N. Qed.
Lemma handleValidate_pinned T p h po : pinned_inv T p →
  (h = hook p ∨ h = clearPin (hook p)) → pinned_inv T (act true po (with_hook h p) Validate).
Proof.
  intros Hi Hh. assert (Hc : pinned_inv T (with_hook h p)).
  { destruct Hh as [-> | ->]; eapply pinned_frame; try exact Hi; try done; [by right|apply Hi|by left|apply Hi]. }
  cbn [act]. unfold handleValidate. cbn [with_hook sel hook]. destruct (working h); [exact Hc|].
  eapply pinned_frame; [exact Hc|done|done|by left|]. cbn. intros v _ [= <-]. done.
Qed.
Lemma validated_pinned T p r now po : pinned_inv T p → pinned_inv T (act true po p (Validated r now)).
Proof.
  intros Hi. destruct (validating (hook p)) as [v|] eqn:Ev.
  2: { eapply pinned_frame; [exact Hi|done|..]; cbn; unfold validate_answered, note_preview; rewrite ?Ev; auto. congruence. }
  destruct Hi as [Hs Hp Hv].
  assert (Hkeep : ∀ h', h_pin h' = h_pin (hook p) → yamlContent h' = yamlContent (hook p) → validating h' = None →
    pinned_inv T (with_hook h' p)).
  { intros h' E1 E2 E3. split; cbn; [done|by rewrite E1, E2|congruence]. }
  cbn [act]. unfold validate_answered, note_preview. rewrite Ev. destruct r as [data|err].
  2: { set (h' := if _ || _ then _ else _).
       assert (H : pinned_inv T (with_hook h' p)) by (apply Hkeep; subst h'; by destruct (_ || _)). exact H. }
  destruct (preview_taken (sel p) v data) eqn:Et.
  - assert (Em : (epoch (sel p) =? epoch (va_target v))%N = true) by (by apply andb_true_iff in Et as [? _]).
    rewrite Em. cbn [negb]. split; cbn.
    + eapply Forall_impl; [exact Hs|]. intros s H. apply Exists_app. by left.
    + intros pn [= <-]. apply Exists_app. right. apply Exists_cons_hd. split; [done|]. cbn. intros HT. by apply Hv.
    + done.
  - set (h' := if negb _ then _ else _).
    assert (H : pinned_inv T (with_hook h' p)) by (apply Hkeep; subst h'; by destruct (negb _)). exact H.
Qed.
Lemma apply_pinned T p uuid now po : pinned_inv T p → pinned_inv T (act true po p (Apply uuid now)).
Proof.
  intros Hi. cbn [act]. unfold handleApply. destruct (working (hook p)) eqn:Ew; [done|].
  apply working_false in Ew as [Ea Ev]. cbn [andb].
  destruct (h_pin (hook p)) as [pn|] eqn:Ep; [|by eapply pinned_frame; [exact Hi|..]; try done; left].
  assert (Hsend : ∀ id p', previews p' = previews p → sent p' = sent p → h_pin (hook p') = Some pn →
    yamlContent (hook p') = yamlContent (hook p) → validating (hook p') = None →
    pinned_inv T (send_apply (apply_inputs true p) id p')).
  { intros id p' E1 E2 E3 E4 E5. split; cbn.
    - rewrite E1, E2. apply Forall_app. split; [apply Hi|]. constructor; [|constructor].
      eapply Exists_impl; [apply (pi_pin _ _ Hi pn Ep)|]. intros pv [Hpv Hy].
      unfold applies_preview, apply_inputs, pinned. cbn. rewrite Ep, Hpv. split_and!; [done|done|].
      intros HT. symmetry. by apply Hy.
    - intros pn' Hpn. rewrite E1, E4. apply Hi. congruence.
    - congruence. }
  destruct (tracked p); [|by apply Hsend].
  destruct (pending_for _ _ _ _) as [[a|] st1]; [by apply Hsend|].
  destruct uuid as [u|]; [by apply Hsend|].
  eapply pinned_frame; [exact Hi|done|done| |done]. right. cbn. by rewrite Ep.
Qed.
Lemma act_pinned T p po a : pinned_inv T p →
  (T → match a, validating (hook p) with Uploaded _, Some _ => false | _, _ => true end = true) →
  pinned_inv T (act true po p a).
Proof.
  intros Hi Hup. destruct a.
  - apply (handleValidate_pinned T p (hook p) po Hi). by left.
  - by apply validated_pinned.
  - by apply apply_pinned.
  - cbn [act]. unfold apply_answered. destruct (applying (hook p)); [|done]. destruct r.
    + eapply pinned_frame; [exact Hi|done|done|by right|apply Hi].
    + eapply pinned_frame; [exact Hi|done|done| |apply Hi]. unfold failed_hook. cbn.
      destruct (trackedApplyRefusal err), (pinRefusalMessage err); auto.
  - cbn [act]. unfold orphan_answered. destruct (orphans p !! n); [|done].
    eapply pinned_frame; [exact Hi|done|done|by right|apply Hi].
  - apply (handleValidate_pinned T p (clearPin (hook p)) po Hi). by right.
  - cbn [act]. destruct (working (hook p)) eqn:Ew; [done|]. apply working_false in Ew as [_ Ev].
    cbn [orb]. destruct (js_eqb v (yamlContent (hook p))); [done|].
    eapply pinned_frame; [exact Hi|done|done|by left|]. cbn. congruence.
  - eapply pinned_frame; [exact Hi|done|done|by left|]. cbn. intros v HT Hv. specialize (Hup HT). by rewrite Hv in Hup.
  - eapply pinned_frame; [exact Hi|done|done|by right|apply Hi].
  - eapply pinned_frame; [exact Hi|done|done|right; apply abort_stale_frame|]. cbn.
    intros v HT (v0 & Hv0 & ->)%abort_stale_val. rewrite (proj2 (abort_stale_frame _ _)). by apply Hi.
  - eapply pinned_frame; [exact Hi|done|done|by right|apply Hi].
  - eapply pinned_frame; [exact Hi|done|done|by right|apply Hi].
  - eapply pinned_frame; [exact Hi|done|done|by right|apply Hi].
  - eapply pinned_frame; [exact Hi|done|done|by right|apply Hi].
  - eapply pinned_frame; [exact Hi|done|done|right; apply abort_stale_frame|]. cbn.
    intros v HT (v0 & Hv0 & ->)%abort_stale_val. rewrite (proj2 (abort_stale_frame _ _)). by apply Hi.
  - eapply pinned_frame; [exact Hi|done|done|by left|done].
  - eapply pinned_frame; [exact Hi|done|done|by left|done].
Qed.
Lemma acts_pinned T po l p : pinned_inv T p → (T → uploads_wait true po p l = true) →
  pinned_inv T (acts true po p l).
Proof.
  revert p. induction l as [|a l IH]; intros p Hi Hup; [done|]. cbn [acts foldl]. apply IH.
  - apply act_pinned; [done|]. intros HT. specialize (Hup HT). cbn [uploads_wait] in Hup.
    by apply andb_true_iff in Hup as [? _].
  - intros HT. specialize (Hup HT). cbn [uploads_wait] in Hup. by apply andb_true_iff in Hup as [_ ?].
Qed.

(** C24. Whatever the operator and the network do (cluster switches during and after
    the preview, edits, remounts, reloads, log outs), every apply the page sends
    goes to the cluster of a preview that succeeded, under the identity the
    server gave for it; and, as long as no file's text lands while a validation
    is in flight, it carries exactly the text that preview ran on. *)
Theorem apply_is_the_preview po y target items full l :
  let p0 := first_page y target items full in
  let p := acts true po p0 l in
  Forall (λ s, Exists (applies_preview (uploads_wait true po p0 l = true) s) (previews p)) (sent p).
Proof.
  intros p0 p. apply (acts_pinned (uploads_wait true po p0 l = true) po l p0); [|done].
  split; cbn; [constructor|done|done].
Qed.

(** A file whose text arrives while a validation of the old text is in flight:
    the validation's answer pins the new text, and Apply sends it although no
    preview ran on it. *)
Definition race_response : ValidateResponse :=
  {| v_targetCluster := "local"%js; v_targetGeneration := "local"%js; v_body := JUndef |}.
Definition race : list Act :=
  [Validate; Uploaded "kind: Secret"%js; Validated (VOk race_response) (of_Z 1); Apply None (of_Z 2)].
Theorem upload_races_preview po :
  let p := acts true po (first_page "kind: ConfigMap"%js fallback [] false) race in
  (λ s, in_yaml (s_inputs s)) <$> sent p = ["kind: Secret"%js] ∧
  pv_yaml <$> previews p = ["kind: ConfigMap"%js].
Proof. split; reflexivity. Qed.

(** ** An operation id names one request *)

(** [L id d]: [id] went out with a request of digest [d]. *)
Definition store_ok (po : jsval → jstring) (L : jstring → jstring → Prop) (st : Storage) : Prop :=
  ∀ key text, assoc (storageKey key) (st_items st) = Some text →
    ∃ a, minted a ∧ text = stringify po (attempt_value a) ∧ L (att_id a) (sha256Hex (requestKey a)).
Lemma store_ok_weaken po (L L' : jstring → jstring → Prop) st : (∀ i d, L i d → L' i d) → store_ok po L st → store_ok po L' st.
Proof. intros HL H key text E. destruct (H key text E) as (a & ? & ? & ?). eauto. Qed.
Lemma store_ok_remove po L k st : store_ok po L st → store_ok po L (with_items st (remove_key k (st_items st))).
Proof. intros H key text. cbn. rewrite remove_key_assoc. case_decide; [done|]. apply H. Qed.
Lemma store_ok_clear po L key st : store_ok po L st → store_ok po L (clearStoredAttempt key st).
Proof. intros H. unfold clearStoredAttempt. destruct (st_open st); [|done]. by apply store_ok_remove. Qed.
Lemma store_ok_logout po L st : store_ok po L st → store_ok po L (clearPendingApplies st).
Proof.
  intros H. unfold clearPendingApplies. destruct (st_open st); [|done]. intros key text. cbn.
  rewrite remove_keys_assoc. case_decide; [done|]. apply H.
Qed.
Lemma store_ok_write po (L : jstring → jstring → Prop) a st : minted a → L (att_id a) (sha256Hex (requestKey a)) →
  store_ok po L st → store_ok po L (writeStoredAttempt po a st).
Proof.
  intros Hm HL H. unfold writeStoredAttempt. destruct (_ || _); [done|]. intros key text. cbn [with_items st_items].
  destruct (decide (storageKey key = storageKey (requestKey a))) as [E|E].
  - rewrite E, assoc_set_eq. intros [= <-]. eauto.
  - rewrite assoc_set_ne by congruence. apply H.
Qed.
Lemma stored_attempt_inv v key d now a : stored_attempt v key d now = Some a →
  requestKey a = key ∧ ∃ fs, v = JObj fs ∧ field fs "id" = JStr (att_id a) ∧ field fs "at" = JNum (att_at a) ∧
    field fs "digest" = JStr d.
Proof.
  unfold stored_attempt. destruct v; try done. destruct (field _ "id") eqn:E1; try done.
  destruct (field _ "at") eqn:E2; try done. destruct (field _ "digest") eqn:E3; try done.
  destruct (negb _ && _ && _ && _) eqn:E; [|done]. intros [= <-]. cbn.
  apply andb_true_iff in E as [[[_ E]%andb_true_iff _]%andb_true_iff _]. apply js_eqb_eq in E. subst. eauto 10.
Qed.
Lemma JStr_inj a b : JStr a = JStr b → a = b.
Proof. by intros [= ->]. Qed.
Lemma store_ok_read po L key now st : store_ok po L st →
  store_ok po L (readStoredAttempt key now st).2 ∧
  ∀ a, (readStoredAttempt key now st).1 = Some a → minted a ∧ requestKey a = key ∧ L (att_id a) (sha256Hex key).
Proof.
  intros H. unfold readStoredAttempt. destruct (st_open st); [|done]. cbn [negb].
  destruct (assoc (storageKey key) (st_items st)) as [raw|] eqn:E; [|done].
  destruct (stored_attempt _ _ _ _) as [a|] eqn:Ea; cbn [fst snd]; [|split; [by apply store_ok_remove|done]].
  split; [done|]. intros a' [= <-]. destruct (H key raw E) as (a0 & Hm & -> & HL).
  rewrite attempt_text_parses in Ea by done. cbn [default id] in Ea.
  apply stored_attempt_inv in Ea as (Hk & fs & [= <-] & Hid & Hat & Hd).
  change (JStr (att_id a0) = JStr (att_id a)) in Hid. change (JNum (att_at a0) = JNum (att_at a)) in Hat.
  change (JStr (sha256Hex (requestKey a0)) = JStr (sha256Hex key)) in Hd.
  apply JStr_inj in Hid. apply JStr_inj in Hd. injection Hat as Hat. rewrite <- Hd, <- Hid. split; [|done].
  destruct Hm as (H1 & H2 & H3). unfold minted. rewrite <- Hid, <- Hat. done.
Qed.

Section Ids.
Context (mode : bool) (po : jsval → jstring).
Definition uuids (l : list Act) : list jstring :=
  omap (λ a, match a with Apply (Some u) _ => Some u | _ => None end) l.
(** [Date.now()] is a whole number of milliseconds. *)
Definition clocked (a : Act) : Prop :=
  match a with Apply _ now => ∃ ms, now = of_Z ms ∧ 0 <= ms < 2 ^ 53 | _ => True end.
Definition digest_of (s : Sent) : jstring := sha256Hex (request_key po (s_inputs s)).
Definition logged (ss : list Sent) (i d : jstring) : Prop := ∃ s, s ∈ ss ∧ s_id s = Some i ∧ digest_of s = d.
Record ids_inv (rest : list jstring) (p : Page) : Prop := {
  ii_once : ∀ i d d', logged (sent p) i d → logged (sent p) i d' → d = d';
  ii_mem : ∀ a, pendingAttempt (hook p) = Some a → minted a ∧ logged (sent p) (att_id a) (sha256Hex (requestKey a));
  ii_store : store_ok po (logged (sent p)) (storage p);
  ii_fresh : ∀ i d, logged (sent p) i d → i ∉ rest
}.
Lemma ids_frame rest p p' : ids_inv rest p → sent p' = sent p →
  (pendingAttempt (hook p') = None ∨ pendingAttempt (hook p') = pendingAttempt (hook p)) →
  store_ok po (logged (sent p)) (storage p') → ids_inv rest p'.
Proof.
  intros [H1 H2 H3 H4] Es Hm Hst. split; rewrite Es; try done.
  intros a. destruct Hm as [-> | ->]; [done|apply H2].
Qed.
Lemma ids_less rest rest' p : (∀ i, i ∈ rest' → i ∈ rest) → ids_inv rest p → ids_inv rest' p.
Proof. intros Hr [H1 H2 H3 H4]. split; try done. intros i d Hl Hi. by eapply H4, Hr. Qed.
Lemma logged_app ss s i d : logged (ss ++ [s]) i d ↔ logged ss i d ∨ (s_id s = Some i ∧ digest_of s = d).
Proof.
  unfold logged. split.
  - intros (s' & [H|H%list_elem_of_singleton]%elem_of_app & Hi & Hd); [left; eauto|right; by subst].
  - intros [(s' & H & Hi & Hd)|[Hi Hd]]; [exists s'|exists s]; (split; [apply elem_of_app|done]); [by left|right; by left].
Qed.
(** A tracked send with an attempt for its own request. *)
Lemma ids_send rest p p' i a : ids_inv rest p → sent p' = sent p → minted a → requestKey a = request_key po i →
  (∀ d, logged (sent p) (att_id a) d → d = sha256Hex (request_key po i)) → att_id a ∉ rest →
  pendingAttempt (hook p') = Some a →
  (∃ st, storage p' = writeStoredAttempt po a st ∧ store_ok po (logged (sent p)) st) →
  ids_inv rest (send_apply i (Some (att_id a)) p').
Proof.
  intros Hi Es Hm Hk Ho Hnr Hp (st & Est & Hst).
  assert (Hlog : ∀ j d, logged (sent (send_apply i (Some (att_id a)) p')) j d ↔
    logged (sent p) j d ∨ (att_id a = j ∧ sha256Hex (request_key po i) = d)).
  { intros j d. cbn [send_apply sent]. rewrite Es, logged_app. cbn. naive_solver. }
  split.
  - intros j d d'. rewrite !Hlog. intros [H|[<- <-]] [H'|[E <-]].
    + by eapply (ii_once _ _ Hi).
    + subst j. by apply Ho.
    + symmetry. by apply Ho.
    + done.
  - cbn [send_apply hook]. intros a' Ha'. rewrite Hp in Ha'. injection Ha' as <-. split; [done|]. apply Hlog.
    right. by rewrite Hk.
  - cbn [send_apply storage]. rewrite Est. apply store_ok_write; [done|apply Hlog; right; by rewrite Hk|].
    eapply store_ok_weaken; [|exact Hst]. intros j d H. apply Hlog. by left.
  - intros j d [H|[<- _]]%Hlog; [by eapply (ii_fresh _ _ Hi)|done].
Qed.
Lemma ids_send_untracked rest p p' i : ids_inv rest p → sent p' = sent p → pendingAttempt (hook p') = None →
  store_ok po (logged (sent p)) (storage p') → ids_inv rest (send_apply i None p').
Proof.
  intros Hi Es Hp Hst.
  assert (Hlog : ∀ j d, logged (sent (send_apply i None p')) j d ↔ logged (sent p) j d).
  { intros j d. cbn [send_apply sent]. rewrite Es, logged_app. cbn. naive_solver. }
  split.
  - intros j d d'. rewrite !Hlog. by apply (ii_once _ _ Hi).
  - cbn [send_apply hook]. rewrite Hp. done.
  - cbn [send_apply storage]. eapply store_ok_weaken; [|exact Hst]. intros j d. apply Hlog.
  - intros j d H%Hlog. by eapply (ii_fresh _ _ Hi).
Qed.
Lemma pending_for_ok key now mem st L : store_ok po L st →
  (∀ a, mem = Some a → minted a ∧ L (att_id a) (sha256Hex (requestKey a))) →
  store_ok po L (pending_for key now mem st).2 ∧
  ∀ a, (pending_for key now mem st).1 = Some a → minted a ∧ requestKey a = key ∧ L (att_id a) (sha256Hex key).
Proof.
  intros Hst Hmem. unfold pending_for. destruct mem as [m|]; [|by apply store_ok_read].
  destruct (js_eqb (requestKey m) key) eqn:E; cbn [andb]; [|by apply store_ok_read].
  destruct (num_ltb _ _); [|by apply store_ok_read]. split; [done|]. intros a [= <-].
  apply js_eqb_eq in E. destruct (Hmem m eq_refl) as [? HL]. rewrite E in HL. done.
Qed.
Definition uuid_of (a : Act) : list jstring := match a with Apply (Some u) _ => [u] | _ => [] end.
Lemma handleApply_ids rest p uuid now : ids_inv (uuid_of (Apply uuid now) ++ rest) p → clocked (Apply uuid now) →
  Forall (λ u, u ≠ ""%js ∧ js_units u) (uuid_of (Apply uuid now)) → NoDup (uuid_of (Apply uuid now) ++ rest) →
  ids_inv rest (handleApply mode po uuid now p).
Proof.
  intros Hi0 (ms & Hnow & Hms) Hu Hnd.
  assert (Hi : ids_inv rest p) by (eapply ids_less; [|exact Hi0]; intros i ?; apply elem_of_app; by right).
  unfold handleApply. destruct (working (hook p)) eqn:Ew; [done|]. cbn zeta.
  destruct (mode && _); [eapply ids_frame; [exact Hi|done|by right|apply Hi]|].
  destruct (tracked p); [|apply ids_send_untracked with (p := p); [done..|apply store_ok_clear, Hi]].
  destruct (pending_for_ok (request_key po (apply_inputs mode p)) now (pendingAttempt (hook p)) (storage p)
    (logged (sent p))) as [Hst Hread]; [apply Hi|apply Hi|].
  destruct (pending_for _ _ _ _) as [pending st1]. cbn [fst snd] in Hst, Hread.
  destruct pending as [a|].
  - destruct (Hread a eq_refl) as (Hm & Hk & HL).
    eapply (ids_send rest p); [done|done|done|done| | |done|by exists st1].
    + intros d Hd. by eapply (ii_once _ _ Hi).
    + by eapply (ii_fresh _ _ Hi).
  - destruct uuid as [u|].
    2: { eapply ids_frame; [exact Hi|done|by right|exact Hst]. }
    cbn [uuid_of app] in *. apply Forall_cons in Hu as [[Hne Hun] _]. apply NoDup_cons in Hnd as [Hnr _].
    eapply (ids_send rest p _ _ {| att_id := u; requestKey := _; att_at := now |}); [done|done| |done| |done|done|by exists st1].
    + split_and!; [done|done|by exists ms].
    + intros d Hd. exfalso. eapply (ii_fresh _ _ Hi0); [exact Hd|]. by left.
Qed.
Lemma act_ids rest p a : ids_inv (uuid_of a ++ rest) p → clocked a →
  Forall (λ u, u ≠ ""%js ∧ js_units u) (uuid_of a) → NoDup (uuid_of a ++ rest) → ids_inv rest (act mode po p a).
Proof.
  intros Hi Hc Hu Hnd. destruct a; cbn [act]; [..|].
  3: by apply handleApply_ids.
  all: cbn [uuid_of app] in Hi.
  - eapply ids_frame; [exact Hi|done| |apply Hi]. right. cbn. unfold handleValidate. by destruct (working _).
  - eapply ids_frame; [exact Hi|done| |apply Hi]. right. cbn. unfold validate_answered. by repeat case_match.
  - unfold apply_answered. destruct (applying (hook p)) as [f|]; [|done]. destruct r.
    + eapply ids_frame; [exact Hi|done|by left|]. apply store_ok_clear, Hi.
    + eapply ids_frame; [exact Hi|done| |].
      * cbn. destruct (attempt_over err (fl_reused f)); auto.
      * cbn. unfold failed_storage. destruct (attempt_over _ _); [apply store_ok_clear|]; apply Hi.
  - unfold orphan_answered. destruct (orphans p !! n) as [f|]; [|done].
    eapply ids_frame; [exact Hi|done|by right|]. cbn. destruct r; [apply store_ok_clear, Hi|].
    unfold failed_storage. destruct (attempt_over _ _); [apply store_ok_clear|]; apply Hi.
  - eapply ids_frame; [exact Hi|done| |apply Hi]. right. cbn. unfold handleValidate. by destruct (working _).
  - destruct (_ || _); [done|]. eapply ids_frame; [exact Hi|done|by right|apply Hi].
  - eapply ids_frame; [exact Hi|done|by right|apply Hi].
  - eapply ids_frame; [exact Hi|done|by right|apply Hi].
  - eapply ids_frame; [exact Hi|done| |apply Hi]. right. cbn. unfold abort_stale. by repeat case_match.
  - eapply ids_frame; [exact Hi|done|by right|apply Hi].
  - eapply ids_frame; [exact Hi|done|by right|apply Hi].
  - eapply ids_frame; [exact Hi|done|by right|apply Hi].
  - eapply ids_frame; [exact Hi|done|by right|apply Hi].
  - eapply ids_frame; [exact Hi|done| |apply store_ok_logout, Hi]. right. cbn. unfold abort_stale. by repeat case_match.
  - eapply ids_frame; [exact Hi|done|by left|apply Hi].
  - eapply ids_frame; [exact Hi|done|by left|apply Hi].
Qed.
Lemma uuids_cons a l : uuids (a :: l) = uuid_of a ++ uuids l.
Proof. by destruct a as [| |[]| | | | | | | | | | | | | | ]. Qed.
Lemma acts_ids l p : ids_inv (uuids l) p → Forall clocked l → Forall (λ u, u ≠ ""%js ∧ js_units u) (uuids l) →
  NoDup (uuids l) → ids_inv [] (acts mode po p l).
Proof.
  revert p. induction l as [|a l IH]; intros p Hi Hc Hu Hnd; [done|]. apply Forall_cons in Hc as [Ha Hc].
  rewrite uuids_cons in *. apply Forall_app in Hu as [Hu1 Hu2]. cbn [acts foldl]. apply IH; [|done|done|].
  - by apply act_ids.
  - by apply NoDup_app in Hnd as (_ & _ & ?).
Qed.

(** Strings of UTF-16 code units. *)
Definition inputs_units (i : Inputs) : Prop :=
  js_units (in_cluster i) ∧ js_units (in_yaml i) ∧
  match in_pin i with Some (c, g) => js_units c ∧ js_units g | None => True end ∧
  match in_repairOf i with Some r => js_units r | None => True end ∧
  match in_user i with Some u => js_units u | None => True end.
Lemma inputs_text i : inputs_units i → ∃ t, JSON_stringify (inputs_value i) = Some t.
Proof.
  intros (H1 & H2 & H3 & H4 & H5). unfold JSON_stringify, inputs_value, pin_value, opt_str.
  cbn [json_text mapM]. rewrite (forallb_units (in_cluster i)), (forallb_units (in_yaml i)) by done.
  destruct (in_force i), (in_pin i) as [[c g]|], (in_repairOf i) as [r|], (in_user i) as [u|]; cbn [json_text mapM];
    rewrite ?(forallb_units c), ?(forallb_units g), ?(forallb_units r), ?(forallb_units u) by tauto;
    eexists; reflexivity.
Qed.
Lemma inputs_value_inj i j : inputs_value i = inputs_value j → i = j.
Proof.
  destruct i as [f p r c u y], j as [f' p' r' c' u' y']. unfold inputs_value, pin_value, opt_str. cbn.
  destruct p as [[? ?]|], p' as [[? ?]|], r, r', u, u'; intros E; try done; injection E; intros; subst; done.
Qed.
Lemma request_key_inj i j : inputs_units i → inputs_units j → request_key po i = request_key po j → i = j.
Proof.
  intros Hi Hj E. destruct (inputs_text i Hi) as [t Ht], (inputs_text j Hj) as [t' Ht'].
  unfold request_key, stringify in E. rewrite Ht, Ht' in E. cbn in E. subst t'.
  apply inputs_value_inj. apply JSON_roundtrip in Ht, Ht'; [congruence|..].
  all: unfold inputs_value, pin_value, opt_str; by repeat case_match.
Qed.
End Ids.

(** C25. Across retries, remounts, reloads, log outs and identity changes, an
    operation id never travels with two different requests: two applies sent
    under the same id carry the same text, cluster, pin, force flag, repair link
    and user. [uuidv4] never repeats itself, and no two of the requests sent have
    the same SHA-256. *)
Theorem operation_id_names_one_request mode po y target items full l :
  (∀ k, js_startsWith k PENDING_STORAGE_PREFIX = true → assoc k items = None) →
  NoDup (uuids l) → Forall (λ u, u ≠ ""%js ∧ js_units u) (uuids l) → Forall clocked l →
  let p := acts mode po (first_page y target items full) l in
  Forall (λ s, inputs_units (s_inputs s)) (sent p) →
  (∀ s s', s ∈ sent p → s' ∈ sent p → digest_of po s = digest_of po s' →
     request_key po (s_inputs s) = request_key po (s_inputs s')) →
  ∀ s s' i, s ∈ sent p → s' ∈ sent p → s_id s = Some i → s_id s' = Some i → s_inputs s = s_inputs s'.
Proof.
  intros Hitems Hnd Hu Hc p Hunits Hcol s s' i Hs Hs' Ei Ei'.
  assert (Hinv : ids_inv po [] p).
  { apply acts_ids; try done. split; cbn; try done; try (by intros ??? (? & H & _); inversion H).
    - intros key text. cbn. by rewrite Hitems by apply storageKey_prefix.
    - intros j d (s0 & H & _). inversion H. }
  rewrite Forall_forall in Hunits. apply (request_key_inj po); [by apply Hunits..|]. apply Hcol; [done..|].
  eapply (ii_once _ _ _ Hinv i); eexists; eauto.
Qed.

(** ** Retrying an apply *)

(** A page on which Apply sends something, tracked. *)
Definition ready (mode : bool) (p : Page) : Prop :=
  working (hook p) = false ∧ tracked p = true ∧ (mode = true → is_Some (h_pin (hook p))).
Definition last_id (p : Page) : option jstring := last (sent p) ≫= s_id.
Lemma handleApply_ready mode po u now p : ready mode p →
  let key := request_key po (apply_inputs mode p) in
  let r := pending_for key now (pendingAttempt (hook p)) (storage p) in
  let a := default {| att_id := u; requestKey := key; att_at := now |} r.1 in
  let p' := handleApply mode po (Some u) now p in
  last_id p' = Some (att_id a) ∧ pendingAttempt (hook p') = Some a ∧
  applying (hook p') = Some {| fl_key := key; fl_reused := match r.1 with Some _ => true | None => false end |} ∧
  lastOperationId (hook p') = Some (att_id a) ∧ storage p' = writeStoredAttempt po a r.2.
Proof.
  intros (Hw & Ht & Hp) key r a p'. subst p'. unfold handleApply. rewrite Hw, Ht. cbn zeta. fold key.
  replace (mode && _) with false; [|destruct mode; [|done]; by destruct (Hp eq_refl) as [pn ->]].
  subst a r. destruct (pending_for _ _ _ _) as [[a|] st1]; cbn [fst snd default id];
    unfold last_id; cbn [send_apply sent with_hook with_storage]; rewrite last_snoc; done.
Qed.
Lemma read_minted po a st n : minted a → st_open st = true → assoc (storageKey (requestKey a)) (st_items st) =
    Some (stringify po (attempt_value a)) → 0 <= n < 2 ^ 53 →
  (readStoredAttempt (requestKey a) (of_Z n) st).1 = if fresh_at a n then Some a else None.
Proof.
  intros Hm Ho E Hn. unfold readStoredAttempt. rewrite Ho, E. cbn [negb].
  rewrite attempt_text_parses by done. cbn [default id]. rewrite stored_attempt_minted by done.
  by destruct (fresh_at a n).
Qed.
Definition outcome_over (r : ApplyOutcome) : bool := match r with AOk _ => true | AErr err => attempt_over err false end.
Lemma answered_parts r p a : applying (hook p) = Some a → fl_reused a = false →
  pendingAttempt (hook (apply_answered r p)) = (if outcome_over r then None else pendingAttempt (hook p)) ∧
  storage (apply_answered r p) = if outcome_over r then clearStoredAttempt (fl_key a) (storage p) else storage p.
Proof.
  intros Ha Hr. unfold apply_answered. rewrite Ha. destruct r as [d|err]; cbn -[attempt_over failed_storage]; [done|].
  unfold failed_storage. rewrite Hr. by destruct (attempt_over err false).
Qed.

(** After a first tracked apply under a new id: an answer that settles it
    releases the id, so the same request pressed again goes out under a new one;
    an answer that leaves the outcome open keeps it, so the same request pressed
    again within ten minutes continues the same operation, from the hook that
    sent it or from one mounted after a navigation or a reload. *)
Theorem retry_continues_the_attempt mode po p u n r q u2 n2 :
  ready mode p → u ≠ ""%js → js_units u → 0 <= n → n <= n2 < 2 ^ 53 →
  st_open (storage p) = true → st_full (storage p) = false →
  let key := request_key po (apply_inputs mode p) in
  (pending_for key (of_Z n) (pendingAttempt (hook p)) (storage p)).1 = None →
  let p2 := apply_answered r (handleApply mode po (Some u) (of_Z n) p) in
  ready mode q → apply_inputs mode q = apply_inputs mode p → storage q = storage p2 →
  (pendingAttempt (hook q) = None ∨ pendingAttempt (hook q) = pendingAttempt (hook p2)) →
  last_id (handleApply mode po (Some u2) (of_Z n2) q) =
    Some (if outcome_over r || (600000 <=? n2 - n) then u2 else u).
Proof.
  intros Hrp Hu Hun Hn Hn2 Ho Hf key Hnone p2 Hrq Hin Hst Hmem.
  destruct (handleApply_ready mode po u (of_Z n) p Hrp) as (_ & H2 & H3 & _ & H5). fold key in H2, H3, H5.
  rewrite Hnone in H2, H3, H5. cbn [default id] in H2, H3, H5.
  set (a := {| att_id := u; requestKey := key; att_at := of_Z n |}) in *.
  assert (Hm : minted a) by (split_and!; [done|done|exists n; split; [done|lia]]).
  destruct (answered_parts r _ _ H3 eq_refl) as [E1 E2]. fold p2 in E1, E2. rewrite H2 in E1. cbn [fl_key] in E2.
  destruct (handleApply_ready mode po u2 (of_Z n2) q Hrq) as (-> & _). rewrite Hin. fold key. do 2 f_equal.
  set (st1 := (pending_for key (of_Z n) (pendingAttempt (hook p)) (storage p)).2) in *.
  assert (Ho1 : st_open st1 = true ∧ st_full st1 = false).
  { subst st1. unfold pending_for, readStoredAttempt. rewrite Ho. by repeat case_match. }
  destruct Ho1 as [Ho1 Hf1].
  assert (Hw : writeStoredAttempt po a st1 = with_items st1 (assoc_set (storageKey key) (stringify po (attempt_value a)) (st_items st1)))
    by (unfold writeStoredAttempt; by rewrite Ho1, Hf1).
  destruct (outcome_over r) eqn:Eo; cbn [orb].
  - assert (Hr : (readStoredAttempt key (of_Z n2) (storage q)).1 = None).
    { rewrite Hst, E2, H5, Hw. unfold clearStoredAttempt, readStoredAttempt. cbn [with_items st_open]. rewrite Ho1.
      cbn [negb with_items st_open st_items]. rewrite Ho1. cbn [negb]. by rewrite remove_key_assoc, decide_True. }
    assert (Hq : pendingAttempt (hook q) = None) by (destruct Hmem; congruence).
    unfold pending_for. rewrite Hq, Hr. done.
  - assert (Hr : (readStoredAttempt key (of_Z n2) (storage q)).1 = if fresh_at a n2 then Some a else None).
    { rewrite Hst, E2, H5, Hw. apply (read_minted po a); [done|done| |lia].
      cbn [with_items st_items]. apply assoc_set_eq. }
    assert (Hfr : fresh_at a n2 = negb (600000 <=? n2 - n)).
    { unfold fresh_at. cbn. destruct (Z.leb_spec n n2), (Z.ltb_spec (n2 - n) 600000), (Z.leb_spec 600000 (n2 - n)); done || lia. }
    assert (Htt : num_ltb (num_sub (of_Z n2) (of_Z n)) PENDING_ATTEMPT_TTL_MS = negb (600000 <=? n2 - n)).
    { rewrite num_sub_int by lia. unfold PENDING_ATTEMPT_TTL_MS. rewrite num_ltb_int'.
      change (10 * 60 * 1000) with 600000. destruct (Z.ltb_spec (n2 - n) 600000), (Z.leb_spec 600000 (n2 - n)); done || lia. }
    unfold pending_for. destruct Hmem as [-> | ->].
    + rewrite Hr, Hfr. by destruct (600000 <=? n2 - n).
    + rewrite E1. subst a. cbn [requestKey att_at]. rewrite (proj2 (js_eqb_eq key key) eq_refl), Htt. cbn [andb].
      destruct (600000 <=? n2 - n) eqn:El; cbn [negb]; [|done]. rewrite Hr, Hfr. done.
Qed.

(** ** What a failed apply tells the operator *)

Lemma reason_exclusive e a b : reason_is e a = true → reason_is e b = true → a = b.
Proof.
  unfold reason_is. destruct (err_reason e); try done. intros H1%js_eqb_eq H2%js_eqb_eq. congruence.
Qed.
Lemma reason_other e a b : a ≠ b → reason_is e a = true → reason_is e b = false.
Proof. intros Hab Ha. destruct (reason_is e b) eqn:Hb; [|done]. by pose proof (reason_exclusive _ _ _ Ha Hb). Qed.
(** How the two readings of an [ApiError] fit together. *)
Lemma refusal_cases e : let t := trackedApplyRefusal (Some e) in let ind := isIndeterminateApplyFailure (Some e) in
  (∃ f, t = Some f ∧ rf_reason f = receipt_store_unavailable ∧ err_status e = 503 ∧ ind = true) ∨
  (∃ f, t = Some f ∧ rf_reason f = operation_in_flight ∧ err_status e = 409 ∧ ind = true) ∨
  (∃ f, t = Some f ∧ (rf_reason f = operation_id_conflict ∨ rf_reason f = operation_id_reused) ∧
        err_status e = 409 ∧ ind = false) ∨
  (t = None ∧ ind = (500 <=? err_status e)).
Proof.
  unfold trackedApplyRefusal, isIndeterminateApplyFailure.
  destruct (Z.eqb_spec (err_status e) 503) as [E|E]; cbn [andb].
  - rewrite E. cbn. destruct (reason_is e _); [left; by eexists|auto].
  - destruct (Z.eqb_spec (err_status e) 409) as [E'|E']; cbn [negb].
    2: { right; right; right. by rewrite orb_false_r. }
    rewrite E'. cbn. destruct (reason_is e "operation_id_conflict"%js) eqn:R1.
    { right; right; left. rewrite (reason_other e "operation_id_conflict"%js "operation_in_flight"%js) by done. eexists. split; [done|]. auto. }
    destruct (reason_is e "operation_in_flight"%js) eqn:R2; [right; left; eexists; split_and!; done|].
    destruct (reason_is e "operation_id_reused"%js); [|by auto].
    right; right; left. eexists. split; [done|]. auto.
Qed.
(** A refused pin is neither of the two. *)
Lemma pin_refusal_definite e : is_Some (pinRefusalMessage (Some e)) →
  trackedApplyRefusal (Some e) = None ∧ isIndeterminateApplyFailure (Some e) = false.
Proof.
  unfold pinRefusalMessage, trackedApplyRefusal, isIndeterminateApplyFailure.
  destruct (Z.eqb_spec (err_status e) 409) as [E|E]; cbn [negb]; [|intros [? H]; done].
  rewrite E. cbn [andb Z.eqb Z.leb Z.compare Pos.eqb].
  destruct (reason_is e "cluster_pin_mismatch"%js) eqn:R.
  { intros _. by rewrite !(reason_other e "cluster_pin_mismatch"%js) by done. }
  destruct (reason_is e "cluster_generation_mismatch"%js) eqn:R'; [|intros [? H]; done].
  intros _. by rewrite !(reason_other e "cluster_generation_mismatch"%js) by done.
Qed.
(** The failure of a tracked apply. When its id is kept for a retry, the page
    points at the receipt (or at the one still running), except for a store
    failure on a reused id that rules out this request alone and says nothing of
    the id; it points at a receipt only when there was no answer or a 5xx; and a
    refused pin is dropped together with the id. *)
Theorem failed_apply_points_at_receipt err reused h i : lastOperationId h = Some i →
  let h' := failed_hook err reused h in
  (attempt_over err reused = false →
     attemptOutcomeUnknown h' = true ∨
     (∃ f, trackedRefusal h' = Some f ∧ rf_reason f = operation_in_flight) ∨
     (∃ f, trackedRefusal h' = Some f ∧ rf_reason f = receipt_store_unavailable ∧
        rf_applied f = Some false ∧ rf_retrySame f = None ∧ reused = true)) ∧
  (attemptOutcomeUnknown h' = true → match err with Some e => 500 <= err_status e | None => True end) ∧
  (is_Some (pinRefusalMessage err) → h_pin h' = None ∧ pendingAttempt h' = None).
Proof.
  intros Hi h'. subst h'. unfold failed_hook, attempt_over. cbn -[trackedApplyRefusal isIndeterminateApplyFailure pinRefusalMessage].
  rewrite Hi. destruct err as [e|]; [|cbn; naive_solver].
  assert (Hpin : is_Some (pinRefusalMessage (Some e)) →
    (match trackedApplyRefusal (Some e), pinRefusalMessage (Some e) with None, Some _ => true | _, _ => false end) = true ∧
    isIndeterminateApplyFailure (Some e) = false).
  { intros H. destruct (pin_refusal_definite e H) as [-> ->]. by destruct H as [m ->]. }
  split_and!; [..|intros H; destruct (Hpin H) as [-> ->]; done]; clear Hpin; unfold attemptMayHaveApplied;
    destruct (refusal_cases e) as [(f & -> & Er & Es & Ei)|[(f & -> & Er & Es & Ei)|[(f & -> & Er & Es & Ei)|[-> Ei]]]].
  - rewrite Er, Ei. cbn. destruct (rf_applied f) as [[]|] eqn:Ea; cbn; auto.
    destruct (rf_retrySame f) as [[]|] eqn:Et; cbn; auto. intros H. right; right. exists f. by destruct reused.
  - intros _. right; left. by exists f.
  - by rewrite Ei.
  - rewrite Ei. destruct (Z.leb_spec 500 (err_status e)) as [Hs|Hs]; [|done]. intros _. left.
    by rewrite (proj2 (Z.eqb_neq _ _)) by lia.
  - lia.
  - by rewrite Er.
  - by destruct Er as [-> | ->].
  - rewrite Ei. destruct (Z.eqb_spec (err_status e) 409); [done|]. lia.
Qed.

(** ** Witnesses *)

Definition no_print : jsval → jstring := λ _, ""%js.
Definition prepare : list Act := [Validate; Validated (VOk race_response) (of_Z 1); SetTracked true].
Definition demo_first : Page := acts true no_print (first_page "kind: Pod"%js fallback [] false) prepare.
(** The answer is lost and Apply is pressed again. *)
Definition demo_acts : list Act :=
  prepare ++ [Apply (Some "u1"%js) (of_Z 2); Applied (AErr None); Apply (Some "u2"%js) (of_Z 3)].
Definition demo_inputs : Inputs :=
  {| in_force := false; in_pin := Some ("local"%js, "local"%js); in_repairOf := None; in_cluster := "local"%js;
     in_user := None; in_yaml := "kind: Pod"%js |}.
Definition demo_apply : Sent :=
  {| s_inputs := demo_inputs; s_id := Some "u1"%js; s_path := apply_path demo_inputs (Some "u1"%js) |}.
Lemma demo_sent : sent (acts true no_print (first_page "kind: Pod"%js fallback [] false) demo_acts) =
  [demo_apply; demo_apply].
Proof. reflexivity. Qed.
Lemma demo_no_collision s s' : s ∈ [demo_apply; demo_apply] → s' ∈ [demo_apply; demo_apply] →
  digest_of no_print s = digest_of no_print s' → request_key no_print (s_inputs s) = request_key no_print (s_inputs s').
Proof. rewrite !elem_of_cons, !elem_of_nil. by intros [-> |[-> |[]]] [-> |[-> |[]]]. Qed.
Lemma demo_all_units : Forall (λ s, inputs_units (s_inputs s)) [demo_apply; demo_apply].
Proof. repeat constructor. Qed.
Lemma demo_uuids : NoDup (uuids demo_acts).
Proof. apply (bool_decide_unpack _). reflexivity. Qed.
Lemma demo_uuids_ok : Forall (λ u, u ≠ ""%js ∧ js_units u) (uuids demo_acts).
Proof. repeat constructor; done. Qed.
Lemma demo_clocked : Forall clocked demo_acts.
Proof. repeat constructor; cbn; eexists; (split; [reflexivity|lia]). Qed.
Lemma operation_id_names_one_request_witness :
  Forall (λ s, s_inputs s = s_inputs demo_apply)
    (sent (acts true no_print (first_page "kind: Pod"%js fallback [] false) demo_acts)).
Proof.
  pose proof (operation_id_names_one_request true no_print "kind: Pod"%js fallback [] false demo_acts
    (λ k _, eq_refl) demo_uuids demo_uuids_ok demo_clocked) as H.
  cbv zeta in H. rewrite demo_sent in *. specialize (H demo_all_units demo_no_collision).
  assert (Hin : demo_apply ∈ [demo_apply; demo_apply]) by left.
  pose proof (H demo_apply demo_apply "u1"%js Hin Hin eq_refl eq_refl) as E.
  exact (Forall_cons_2 _ _ _ E (Forall_cons_2 _ _ _ E (Forall_nil_2 _))).
Defined.

(** The page once the answer is lost. *)
Definition demo_second : Page :=
  apply_answered (AErr None) (handleApply true no_print (Some "u1"%js) (of_Z 2) demo_first).
Lemma demo_ready1 : ready true demo_first.
Proof. split_and!; [done|done|]. intros _. by eexists. Qed.
Lemma demo_ready2 : ready true demo_second.
Proof. split_and!; [reflexivity|reflexivity|]. intros _. eexists. reflexivity. Qed.
Lemma demo_pending : (pending_for (request_key no_print (apply_inputs true demo_first)) (of_Z 2)
  (pendingAttempt (hook demo_first)) (storage demo_first)).1 = None.
Proof. reflexivity. Qed.
Lemma demo_same_inputs : apply_inputs true demo_second = apply_inputs true demo_first.
Proof. reflexivity. Qed.
Lemma retry_continues_the_attempt_witness :
  last_id (handleApply true no_print (Some "u2"%js) (of_Z 3) demo_second) = Some "u1"%js.
Proof.
  exact (retry_continues_the_attempt true no_print demo_first "u1"%js 2 (AErr None) demo_second "u2"%js 3
    demo_ready1 ltac:(discriminate) ltac:(repeat constructor) ltac:(lia) ltac:(lia) eq_refl eq_refl demo_pending
    demo_ready2 demo_same_inputs eq_refl (or_intror eq_refl)).
Defined.

Definition demo_hook : Hook :=
  {| yamlContent := ""%js; applying := Some {| fl_key := ""%js; fl_reused := false |}; validating := None;
     h_error := None; h_result := None; h_preview := None; h_pin := None; lastOperationId := Some "u1"%js;
     attemptOutcomeUnknown := false; trackedRefusal := None; pendingAttempt := None |}.
Lemma failed_apply_points_at_receipt_witness :
  attemptOutcomeUnknown (failed_hook None false demo_hook) = true.
Proof.
  destruct (failed_apply_points_at_receipt None false demo_hook "u1"%js eq_refl) as (H & _ & _).
  destruct (H eq_refl) as [E|[(f & E & _)|(f & E & _)]]; [exact E|discriminate E|discriminate E].
Defined.
