(* ===== verification/Observer.v ===== *)
(** * Force-sync of an ExternalSecret: eso-refresh-observer.ts

    The reducer that decides what became of an accepted force-sync request, the
    poller around it (a chain of polls, a deadline timer, one abort controller
    per poll) and the island's use of both, ESOExternalSecretDetail.tsx.

    Timers run on a monotonic clock, [mono], in milliseconds; every event says
    how long it took to come and what the wall clock, [Date.now()], showed when
    it came, and the two need not agree. *)

From stdpp Require Import base list strings.
From Stdlib Require Import ZArith NArith Lia.
From S2P Require Import Prelude JsValue.

Open Scope Z_scope.

(** ** Definitions *)

(** *** The reducer *)

Inductive Status := Synced | SyncFailed | StRefreshing | Stale | Drifted | StUnknown.
Inductive Correlation := strong | weak.
Record Baseline := {
  b_uid : jstring;
  b_resourceVersion : jstring;
  b_generation : option Z;
  b_refreshTime : option jstring;
  b_readyLastTransitionTime : option jstring;
  b_syncedResourceVersion : option jstring;
  b_requestedAt : jstring
}.
Record Sample := {
  s_uid : jstring;
  s_status : Status;
  s_lastSyncTime : option jstring;
  s_syncedResourceVersion : option jstring;
  s_readyReason : option jstring;
  s_readyMessage : option jstring
}.
Inductive ObserverPhase :=
  idle | requested | awaitingObservation | observedSuccess | observedFailure | timeout | cancelled
  | accessLost | targetChanged.
Record Observed := { oc_reason : option jstring; oc_message : option jstring; attributable : bool }.
Record ObserverState := {
  phase : ObserverPhase;
  baseline : option Baseline;
  correlation : option Correlation;
  priorStatus : option Status;
  attempt : Z;
  consecutiveErrors : Z;
  deadlineMs : option Z;
  observation_unavailable : bool;
  outcome : option Observed
}.
Inductive ObserverEvent :=
  | request
  | requestFailed
  | accepted (b : Baseline) (c : Correlation) (prior : option Status) (nowMs : Z)
  | sample (s : Sample) (nowMs : Z)
  | forbidden
  | notFound
  | error
  | clusterChanged
  | tick (nowMs : Z)
  | cancel.

#[export] Instance Status_eq : EqDecision Status.
Proof. solve_decision. Defined.
#[export] Instance Correlation_eq : EqDecision Correlation.
Proof. solve_decision. Defined.
#[export] Instance Baseline_eq : EqDecision Baseline.
Proof. solve_decision. Defined.
#[export] Instance ObserverPhase_eq : EqDecision ObserverPhase.
Proof. solve_decision. Defined.
#[export] Instance Observed_eq : EqDecision Observed.
Proof. solve_decision. Defined.
#[export] Instance ObserverState_eq : EqDecision ObserverState.
Proof. solve_decision. Defined.

Definition OBSERVE_TIMEOUT_MS : Z := 90000.
Definition MAX_CONSECUTIVE_ERRORS : Z := 3.
Definition INITIAL_OBSERVER_STATE : ObserverState :=
  {| phase := idle; baseline := None; correlation := None; priorStatus := None; attempt := 0;
     consecutiveErrors := 0; deadlineMs := None; observation_unavailable := false; outcome := None |}.
Definition with_phase (ph : ObserverPhase) (st : ObserverState) : ObserverState :=
  {| phase := ph; baseline := baseline st; correlation := correlation st; priorStatus := priorStatus st;
     attempt := attempt st; consecutiveErrors := consecutiveErrors st; deadlineMs := deadlineMs st;
     observation_unavailable := observation_unavailable st; outcome := outcome st |}.
Definition isObserving (ph : ObserverPhase) : bool :=
  match ph with requested | awaitingObservation => true | _ => false end.
Definition isTerminal (ph : ObserverPhase) : bool :=
  match ph with
  | observedSuccess | observedFailure | timeout | cancelled | accessLost | targetChanged => true
  | _ => false end.

Section Reducer.
(** [Date.parse], whose result is [NaN] for what is not a date. *)
Context (Date_parse : jstring → number).

Definition parseMs (t : option jstring) : option number :=
  match t with
  | Some s => if js_eqb s ""%js then None else match Date_parse s with NaN => None | ms => Some ms end
  | None => None
  end.
Definition isNewEvidence (b : Baseline) (s : Sample) (c : Correlation) : bool :=
  match c with
  | strong =>
      match parseMs (b_refreshTime b), parseMs (s_lastSyncTime s) with
      | Some before, Some after => num_ltb before after
      | _, _ => false
      end
  | weak =>
      match s_syncedResourceVersion s with
      | Some v => negb (js_eqb v ""%js) && negb (bool_decide (Some v = b_syncedResourceVersion b))
      | None => false
      end
  end.
Definition isNewFailure (prior : option Status) (s : Sample) : bool :=
  bool_decide (s_status s = SyncFailed) && negb (bool_decide (prior = Some SyncFailed)).
Definition expired (st : ObserverState) (nowMs : Z) : bool :=
  match deadlineMs st with Some d => d <=? nowMs | None => false end.
Definition observed_failure (s : Sample) (att : bool) (st : ObserverState) : ObserverState :=
  {| phase := observedFailure; baseline := baseline st; correlation := correlation st;
     priorStatus := priorStatus st; attempt := attempt st; consecutiveErrors := consecutiveErrors st;
     deadlineMs := deadlineMs st; observation_unavailable := observation_unavailable st;
     outcome := Some {| oc_reason := s_readyReason s; oc_message := s_readyMessage s; attributable := att |} |}.
Definition applySample (st : ObserverState) (s : Sample) (nowMs : Z) : ObserverState :=
  match baseline st, correlation st with
  | Some b, Some c =>
      if negb (js_eqb (s_uid s) (b_uid b)) then with_phase targetChanged st else
      let polled := {| phase := phase st; baseline := baseline st; correlation := correlation st;
        priorStatus := priorStatus st; attempt := attempt st + 1; consecutiveErrors := 0;
        deadlineMs := deadlineMs st; observation_unavailable := observation_unavailable st;
        outcome := outcome st |} in
      if expired polled nowMs then with_phase timeout polled
      else if isNewEvidence b s c then
        if bool_decide (s_status s = SyncFailed) then observed_failure s (bool_decide (c = strong)) polled
        else with_phase observedSuccess polled
      else if isNewFailure (priorStatus st) s then observed_failure s false polled
      else polled
  | _, _ => st
  end.
Definition after_error (st : ObserverState) : ObserverState :=
  let n := consecutiveErrors st + 1 in
  let over := MAX_CONSECUTIVE_ERRORS <=? n in
  {| phase := if over then timeout else phase st; baseline := baseline st; correlation := correlation st;
     priorStatus := priorStatus st; attempt := if over then attempt st else attempt st + 1;
     consecutiveErrors := n; deadlineMs := deadlineMs st;
     observation_unavailable := over || observation_unavailable st; outcome := outcome st |}.
Definition accepted_state (b : Baseline) (c : Correlation) (prior : option Status) (nowMs : Z) : ObserverState :=
  {| phase := awaitingObservation; baseline := Some b; correlation := Some c; priorStatus := prior;
     attempt := 0; consecutiveErrors := 0; deadlineMs := Some (nowMs + OBSERVE_TIMEOUT_MS);
     observation_unavailable := false; outcome := None |}.
Definition reduceObserver (st : ObserverState) (e : ObserverEvent) : ObserverState :=
  match e with
  | request => with_phase requested INITIAL_OBSERVER_STATE
  | _ =>
      if isTerminal (phase st) || bool_decide (phase st = idle) then st else
      match e with
      | requestFailed => if bool_decide (phase st = requested) then INITIAL_OBSERVER_STATE else st
      | accepted b c prior nowMs =>
          if bool_decide (phase st = requested) then accepted_state b c prior nowMs else st
      | cancel => with_phase cancelled st
      | clusterChanged => with_phase targetChanged st
      | _ =>
          if negb (bool_decide (phase st = awaitingObservation)) then st else
          match e with
          | sample s nowMs => applySample st s nowMs
          | forbidden => with_phase accessLost st
          | notFound => with_phase targetChanged st
          | error => after_error st
          | tick nowMs => if expired st nowMs then with_phase timeout st else st
          | _ => st
          end
      end
  end.
Definition observe (es : list ObserverEvent) : ObserverState := foldl reduceObserver INITIAL_OBSERVER_STATE es.
End Reducer.

(** [POLL_DELAYS_MS[attempt] ?? MAX_POLL_DELAY_MS] *)
Definition nextPollDelayMs (n : Z) : Z :=
  if n =? 0 then 1000 else if n =? 1 then 2000 else if n =? 2 then 3000 else 5000.

Inductive ObserverTone := info | success | danger | muted | warning.
(** The ellipsis character. *)
Definition DOTS : jstring := JS [8230%N].
Definition truthy_part (s : option jstring) : list jstring :=
  match s with Some t => if js_eqb t ""%js then [] else [t] | None => [] end.
Definition failureText (st : ObserverState) : jstring :=
  let parts := match outcome st with
    | Some o => truthy_part (oc_reason o) ++ truthy_part (oc_message o) | None => [] end in
  let lead := match outcome st with
    | Some o => if attributable o then "Sync failed after your request"%js
                else "A sync failure was observed after your request"%js
    | None => "A sync failure was observed after your request"%js end in
  match parts with
  | [] => (lead +++ ".")%js
  | _ => (lead +++ ": " +++ js_join ": " parts)%js
  end.
Definition is_strong (st : ObserverState) : bool := bool_decide (correlation st = Some strong).
Definition describeObserver (st : ObserverState) : option (jstring * ObserverTone) :=
  match phase st with
  | requested => Some (("Requesting a sync" +++ DOTS)%js, info)
  | awaitingObservation =>
      Some ((if is_strong st
             then "Sync requested. Waiting for External Secrets Operator to reconcile" +++ DOTS
             else "Sync requested. Waiting for a change to this ExternalSecret" +++ DOTS)%js, info)
  | observedSuccess =>
      Some (if is_strong st then "Synced. External Secrets Operator reconciled after your request."%js
            else "A new sync was observed after your request."%js, success)
  | observedFailure => Some (failureText st, danger)
  | timeout =>
      Some (if observation_unavailable st
            then "Request accepted, but this ExternalSecret could not be read to confirm the outcome."%js
            else "Request accepted. No new reconciliation observed within 90 s."%js, muted)
  | accessLost =>
      Some ("You no longer have access to this ExternalSecret. The refresh may still be in progress."%js, warning)
  | targetChanged =>
      Some ("This ExternalSecret was replaced or the cluster changed. Discarded the pending observation."%js, warning)
  | idle | cancelled => None
  end.

(** *** The poller and the island *)

(** [pollTimer] and [deadlineTimer] hold when they fire; the latter also the
    deadline its callback captured. [polls] counts the reads of this chain. *)
Record Island := {
  observer : ObserverState;
  forceSyncing : bool;
  running : bool;
  pollTimer : option Z;
  deadlineTimer : option (Z * Z);
  inFlight : option nat;
  aborted : list nat;
  mono : Z;
  next_poll : nat;
  polls : Z;
  mounted : bool;
  evidenceEpoch : nat
}.
Definition set_poller (r : bool) (pt : option Z) (dt : option (Z * Z)) (fl : option nat) (ab : list nat)
    (np : nat) (n : Z) (w : Island) : Island :=
  {| observer := observer w; forceSyncing := forceSyncing w; running := r; pollTimer := pt; deadlineTimer := dt;
     inFlight := fl; aborted := ab; mono := mono w; next_poll := np; polls := n; mounted := mounted w;
     evidenceEpoch := evidenceEpoch w |}.
Definition set_observer (st : ObserverState) (ep : nat) (w : Island) : Island :=
  {| observer := st; forceSyncing := forceSyncing w; running := running w; pollTimer := pollTimer w;
     deadlineTimer := deadlineTimer w; inFlight := inFlight w; aborted := aborted w; mono := mono w;
     next_poll := next_poll w; polls := polls w; mounted := mounted w; evidenceEpoch := ep |}.
Definition set_page (fs : bool) (m : bool) (t : Z) (w : Island) : Island :=
  {| observer := observer w; forceSyncing := fs; running := running w; pollTimer := pollTimer w;
     deadlineTimer := deadlineTimer w; inFlight := inFlight w; aborted := aborted w; mono := t;
     next_poll := next_poll w; polls := polls w; mounted := m; evidenceEpoch := evidenceEpoch w |}.

Definition stop (w : Island) : Island :=
  set_poller false None None None (option_list (inFlight w) ++ aborted w) (next_poll w) (polls w) w.

Section Island.
Context (Date_parse : jstring → number).

(** The island's [dispatch]. *)
Definition dispatch (e : ObserverEvent) (w : Island) : Island :=
  let next := reduceObserver Date_parse (observer w) e in
  if decide (next = observer w) then w else
  let seen := match phase next with observedSuccess | observedFailure => true | _ => false end in
  let w1 := set_observer next (evidenceEpoch w + if seen then 1 else 0) w in
  if isTerminal (phase next) then stop w1 else w1.
Definition stillWaiting (w : Island) : Island * bool :=
  if decide (phase (observer w) = awaitingObservation) then (w, true) else (stop w, false).
Definition schedule (n : Z) (w : Island) : Island :=
  set_poller (running w) (Some (mono w + nextPollDelayMs n)) (deadlineTimer w) (inFlight w) (aborted w)
    (next_poll w) (polls w) w.
Definition begin (nowMs : Z) (w : Island) : Island :=
  if running w || negb (bool_decide (phase (observer w) = awaitingObservation)) then w else
  let d := default nowMs (deadlineMs (observer w)) in
  schedule (attempt (observer w))
    (set_poller true (pollTimer w) (Some (mono w + Z.max 0 (d - nowMs), d)) (inFlight w) (aborted w) (next_poll w) 0 w).
(** The poll timer fires: [poll] up to its [await]. *)
Definition poll (nowMs : Z) (w : Island) : Island :=
  let w1 := set_poller (running w) None (deadlineTimer w) (inFlight w) (aborted w) (next_poll w) (polls w) w in
  let (w2, go) := stillWaiting (dispatch (tick nowMs) w1) in
  if go then set_poller (running w2) (pollTimer w2) (deadlineTimer w2) (Some (next_poll w2)) (aborted w2)
               (S (next_poll w2)) (polls w2 + 1) w2
  else w2.
(** What a read brings: an object or nothing, or a failure with its status. *)
Inductive Read := Found (s : option Sample) | ReadFailed (status : option Z).
Definition read_event (r : Read) (nowMs : Z) : ObserverEvent :=
  match r with
  | Found (Some s) => sample s nowMs
  | Found None => error
  | ReadFailed (Some 403) => forbidden
  | ReadFailed (Some 404) => notFound
  | ReadFailed _ => error
  end.
(** The rest of [poll] number [k]. *)
Definition polled (k : nat) (r : Read) (nowMs : Z) (w : Island) : Island :=
  if decide (k ∈ aborted w) then w else
  if negb (bool_decide (inFlight w = Some k)) then w else
  let w1 := dispatch (read_event r nowMs) w in
  let w2 := set_poller (running w1) (pollTimer w1) (deadlineTimer w1) None (aborted w1) (next_poll w1) (polls w1) w1 in
  let (w3, go) := stillWaiting w2 in
  if go then schedule (attempt (observer w3)) w3 else w3.
(** The deadline timer fires. *)
Definition deadline_fired (d nowMs : Z) (w : Island) : Island :=
  let w1 := set_poller (running w) (pollTimer w) None (inFlight w) (option_list (inFlight w) ++ aborted w)
    (next_poll w) (polls w) w in
  fst (stillWaiting (dispatch (tick (Z.max nowMs d)) w1)).

Inductive Happening :=
  | ForceSync
  | Answered (r : option (Baseline * Correlation * option Status))
  | PollTimer
  | DeadlineTimer
  | Polled (k : nat) (r : Read)
  | ClusterEpoch
  | Unmount.
Definition answer (r : option (Baseline * Correlation * option Status)) (nowMs : Z) (w : Island) : Island :=
  let w1 := match r with
    | Some (b, c, prior) => begin nowMs (dispatch (accepted b c prior nowMs) w)
    | None => dispatch requestFailed w
    end in
  set_page false (mounted w1) (mono w1) w1.
(** One event, [dt] milliseconds after the last, the wall clock showing [now].
    A timer fires no earlier than it is due, and of the two the earlier first. *)
Definition happen (w0 : Island) (ev : Happening * N * Z) : Island :=
  let '(h, dt, now) := ev in
  let w := set_page (forceSyncing w0) (mounted w0) (mono w0 + Z.of_N dt) w0 in
  match h with
  | ForceSync =>
      if negb (mounted w) || forceSyncing w || running w then w
      else dispatch request (set_page true (mounted w) (mono w) w)
  | Answered r => if forceSyncing w then answer r now w else w
  | PollTimer =>
      match pollTimer w with
      | Some due => if (due <=? mono w) && match deadlineTimer w with Some (dd, _) => due <=? dd | None => true end
                    then poll now w else w
      | None => w
      end
  | DeadlineTimer =>
      match deadlineTimer w with
      | Some (due, d) => if due <=? mono w then deadline_fired d now w else w
      | None => w
      end
  | Polled k r => polled k r now w
  | ClusterEpoch => if mounted w then dispatch clusterChanged (stop w) else w
  | Unmount => stop (set_page (forceSyncing w) false (mono w) w)
  end.
Definition shown : Island :=
  {| observer := INITIAL_OBSERVER_STATE; forceSyncing := false; running := false; pollTimer := None;
     deadlineTimer := None; inFlight := None; aborted := []; mono := 0; next_poll := 0; polls := 0;
     mounted := true; evidenceEpoch := 0 |}.
Definition life (hs : list (Happening * N * Z)) : Island := foldl happen shown hs.
End Island.

(** ** A verdict has its evidence *)

Section Verdict.
Context (Date_parse : jstring → number).
Implicit Types (es l : list ObserverEvent) (st : ObserverState).

(** The request that [st] is waiting on was accepted in [es]. *)
Definition waits_on es st : Prop :=
  ∃ l1 b c prior t0 l2, es = l1 ++ accepted b c prior t0 :: l2 ∧ baseline st = Some b ∧
    correlation st = Some c ∧ priorStatus st = prior ∧ deadlineMs st = Some (t0 + OBSERVE_TIMEOUT_MS).
(** A sample read in time after the acceptance, of the same object, that [P] holds of. *)
Definition seen_after es (P : Baseline → Correlation → option Status → Sample → Prop) : Prop :=
  ∃ l1 b c prior t0 l2 s t1 l3, es = l1 ++ accepted b c prior t0 :: l2 ++ sample s t1 :: l3 ∧
    s_uid s = b_uid b ∧ t1 < t0 + OBSERVE_TIMEOUT_MS ∧ P b c prior s.
(** The sample shows a reconcile the baseline does not: a later time of the
    operator's own clock, or another synced version. *)
Definition moved_past (b : Baseline) (s : Sample) (c : Correlation) : Prop :=
  match c with
  | strong => ∃ t0 t1, b_refreshTime b = Some t0 ∧ s_lastSyncTime s = Some t1 ∧ t0 ≠ ""%js ∧ t1 ≠ ""%js ∧
      num_ltb (Date_parse t0) (Date_parse t1) = true
  | weak => ∃ v, s_syncedResourceVersion s = Some v ∧ v ≠ ""%js ∧ b_syncedResourceVersion b ≠ Some v
  end.
Lemma parseMs_Some t n : parseMs Date_parse t = Some n →
  ∃ x, t = Some x ∧ x ≠ ""%js ∧ n = Date_parse x.
Proof.
  destruct t as [x|]; [|done]. cbn. destruct (js_eqb x ""%js) eqn:E; [done|]. apply js_eqb_neq in E.
  destruct (Date_parse x) eqn:En; naive_solver.
Qed.
Lemma parseMs_of x : x ≠ ""%js → Date_parse x ≠ NaN → parseMs Date_parse (Some x) = Some (Date_parse x).
Proof. intros E%js_eqb_neq En. cbn. rewrite E. by destruct (Date_parse x). Qed.
Lemma num_ltb_nan x y : num_ltb x y = true → x ≠ NaN ∧ y ≠ NaN.
Proof. by destruct x, y. Qed.
Lemma isNewEvidence_moved b s c : isNewEvidence Date_parse b s c = true ↔ moved_past b s c.
Proof.
  unfold isNewEvidence, moved_past. destruct c.
  - destruct (parseMs Date_parse (b_refreshTime b)) as [n0|] eqn:E0, (parseMs Date_parse (s_lastSyncTime s)) as [n1|] eqn:E1.
    all: split; [try done|intros (t0 & t1 & H0 & H1 & ? & ? & Hlt); destruct (num_ltb_nan _ _ Hlt)].
    all: try (rewrite H0, parseMs_of in E0 by done); try (rewrite H1, parseMs_of in E1 by done); try congruence.
    apply parseMs_Some in E0 as (t0 & -> & ? & ->). apply parseMs_Some in E1 as (t1 & -> & ? & ->). naive_solver.
  - destruct (s_syncedResourceVersion s) as [v|]; [|naive_solver]. rewrite andb_true_iff, !negb_true_iff.
    rewrite js_eqb_neq, bool_decide_eq_false. naive_solver.
Qed.
Definition success_evidence (b : Baseline) (c : Correlation) (prior : option Status) (s : Sample) : Prop :=
  moved_past b s c ∧ s_status s ≠ SyncFailed.
Definition failure_evidence (o : option Observed) (b : Baseline) (c : Correlation) (prior : option Status)
    (s : Sample) : Prop :=
  s_status s = SyncFailed ∧ (moved_past b s c ∨ prior ≠ Some SyncFailed) ∧
  ∃ ob, o = Some ob ∧ oc_reason ob = s_readyReason s ∧ oc_message ob = s_readyMessage s ∧
    (attributable ob = true ↔ c = strong ∧ moved_past b s c).
Definition justified es st : Prop :=
  match phase st with
  | awaitingObservation => waits_on es st
  | observedSuccess => seen_after es success_evidence
  | observedFailure => seen_after es (failure_evidence (outcome st))
  | _ => True
  end.
Lemma waits_more es e st st' : waits_on es st → baseline st' = baseline st → correlation st' = correlation st →
  priorStatus st' = priorStatus st → deadlineMs st' = deadlineMs st → waits_on (es ++ [e]) st'.
Proof.
  intros (l1 & b & c & prior & t0 & l2 & -> & Hb & Hc & Hp & Hd) E1 E2 E3 E4.
  exists l1, b, c, prior, t0, (l2 ++ [e]). rewrite E1, E2, E3, E4. split; [|done].
  by rewrite <- (assoc_L (++)).
Qed.
Lemma seen_more es e P : seen_after es P → seen_after (es ++ [e]) P.
Proof.
  intros (l1 & b & c & prior & t0 & l2 & s & t1 & l3 & -> & H).
  exists l1, b, c, prior, t0, l2, s, t1, (l3 ++ [e]). split; [|exact H].
  rewrite <- (assoc_L (++)). cbn. by rewrite <- (assoc_L (++)).
Qed.
Lemma justified_stays es e st : justified es st → justified (es ++ [e]) st.
Proof.
  unfold justified. destruct (phase st); try done; intros H; [by eapply waits_more|by apply seen_more..].
Qed.
Lemma sample_justified es st s t1 : phase st = awaitingObservation → waits_on es st →
  justified (es ++ [sample s t1]) (applySample Date_parse st s t1).
Proof.
  intros Hph Hw. pose proof Hw as (l1 & b & c & prior & t0 & l2 & Hes & Hb & Hc & Hp & Hd).
  unfold applySample. rewrite Hb, Hc. destruct (js_eqb (s_uid s) (b_uid b)) eqn:Eu; cbn [negb]; [|done].
  apply js_eqb_eq in Eu. unfold expired. cbn [deadlineMs]. rewrite Hd.
  destruct (Z.leb_spec (t0 + OBSERVE_TIMEOUT_MS) t1) as [Ht|Ht]; [done|].
  assert (Hseen : ∀ P, P b c prior s → seen_after (es ++ [sample s t1]) P).
  { intros P HP. exists l1, b, c, prior, t0, l2, s, t1, []. split; [|done]. rewrite Hes. by rewrite <- (assoc_L (++)). }
  pose proof (isNewEvidence_moved b s c) as Hmv.
  destruct (isNewEvidence Date_parse b s c) eqn:En; [apply proj1 in Hmv; specialize (Hmv eq_refl)|].
  - case_bool_decide as Es; unfold justified; cbn; apply Hseen; [|by split].
    split_and!; [done|by left|]. eexists. split_and!; [done..|]. cbn. split.
    + by intros ?%bool_decide_eq_true.
    + intros [? _]. by apply bool_decide_eq_true.
  - unfold isNewFailure. case_bool_decide as Es; cbn [andb].
    2: { unfold justified. cbn. rewrite Hph. by eapply waits_more. }
    case_bool_decide as Ep; cbn [negb].
    { unfold justified. cbn. rewrite Hph. by eapply waits_more. }
    unfold justified. cbn. apply Hseen. split_and!; [done|right; congruence|].
    eexists. split_and!; [done..|]. cbn. split; [done|]. by intros [_ ?%Hmv].
Qed.
Lemma reduce_justified es st e : justified es st → justified (es ++ [e]) (reduceObserver Date_parse st e).
Proof.
  intros Hj. unfold reduceObserver. destruct e as [| |b c prior t0|s t1| | | | |t1|]; [done|..].
  all: destruct (isTerminal (phase st) || bool_decide (phase st = idle)); [by apply justified_stays|].
  all: try (case_bool_decide as Ep; cbn [negb]; [|by apply justified_stays]).
  - done.
  - unfold justified. cbn. by exists es, b, c, prior, t0, [].
  - apply sample_justified; [done|]. unfold justified in Hj. by rewrite Ep in Hj.
  - done.
  - done.
  - unfold justified in *. rewrite Ep in Hj. unfold after_error. cbn. destruct (_ <=? _); [done|]. rewrite Ep.
    by eapply waits_more.
  - done.
  - destruct (expired st t1); [done|]. by apply justified_stays.
  - done.
Qed.
End Verdict.

(** C38. Whatever happens to the observer, in any order, it reports success only for
    a sample of the very object the request was accepted for, read before the
    deadline, whose evidence moved past the baseline taken before the patch: an
    ExternalSecret that was already synced never counts. It reports a failure
    only for a sample that shows one the page did not show before, or a new
    reconcile, and words it as the request's own only under a strong
    correlation. *)
Theorem verdict_has_evidence Date_parse es :
  justified Date_parse es (observe Date_parse es).
Proof.
  induction es as [|e es IH] using rev_ind; [done|]. unfold observe. rewrite foldl_app. cbn [foldl].
  by apply reduce_justified.
Qed.

(** ** One chain of polls, ended by its deadline *)

(** The first [n] delays together. *)
Definition delays (n : Z) : Z :=
  if n <=? 0 then 0 else if n =? 1 then 1000 else if n =? 2 then 3000 else 5000 * n - 9000.
Lemma delays_next n : 0 <= n → delays (n + 1) = delays n + nextPollDelayMs n.
Proof.
  intros Hn. unfold delays, nextPollDelayMs.
  destruct (Z.leb_spec n 0), (Z.leb_spec (n + 1) 0), (Z.eqb_spec (n + 1) 1), (Z.eqb_spec (n + 1) 2), (Z.eqb_spec n 0),
    (Z.eqb_spec n 1), (Z.eqb_spec n 2); lia.
Qed.
Lemma delays_bound n : delays n <= OBSERVE_TIMEOUT_MS → n <= 19.
Proof.
  unfold delays, OBSERVE_TIMEOUT_MS. destruct (Z.leb_spec n 0), (Z.eqb_spec n 1), (Z.eqb_spec n 2); lia.
Qed.

Definition unarmed (w : Island) : Prop := pollTimer w = None ∧ deadlineTimer w = None ∧ inFlight w = None.
(** Where the chain of a running poller is: the next poll is scheduled, or one is out. *)
Definition chain (w : Island) (dd : Z) : Prop :=
  let n := attempt (observer w) in
  (∃ due, pollTimer w = Some due ∧ inFlight w = None ∧ polls w = n ∧
     dd - OBSERVE_TIMEOUT_MS + delays (n + 1) <= due ∧ delays n <= OBSERVE_TIMEOUT_MS) ∨
  (∃ k, pollTimer w = None ∧ inFlight w = Some k ∧ (k ∉ aborted w) ∧ (k < next_poll w)%nat ∧ polls w = n + 1 ∧
     dd - OBSERVE_TIMEOUT_MS + delays (n + 1) <= mono w ∧ delays (n + 1) <= OBSERVE_TIMEOUT_MS).
Definition armed (w : Island) : Prop :=
  phase (observer w) = awaitingObservation ∧
  ∃ dd d, deadlineTimer w = Some (dd, d) ∧ deadlineMs (observer w) = Some d ∧ chain w dd.
Record chained (w : Island) : Prop := {
  ch_numbers : ∀ k, k ∈ aborted w → (k < next_poll w)%nat;
  ch_waits : phase (observer w) = awaitingObservation →
    is_Some (baseline (observer w)) ∧ is_Some (correlation (observer w)) ∧ 0 <= attempt (observer w) ∧
    forceSyncing w = false;
  ch_run : if running w then armed w else unarmed w;
  ch_live : mounted w = true → phase (observer w) = awaitingObservation → running w = true
}.
(** The poller is stopped, its read aborted. *)
Lemma chained_halt w w' : chained w → aborted w' = option_list (inFlight w) ++ aborted w →
  next_poll w' = next_poll w → running w' = false → unarmed w' →
  (phase (observer w') = awaitingObservation →
     observer w' = observer w ∧ mounted w' = false ∧ forceSyncing w' = forceSyncing w) → chained w'.
Proof.
  intros [Hn Hw Hr Hl] Ea En Er Hu Hp. split.
  - rewrite Ea, En. intros k [H|H]%elem_of_app; [|by apply Hn]. destruct (inFlight w) as [j|] eqn:E; [|inversion H].
    apply list_elem_of_singleton in H as ->. destruct (running w); [|destruct Hr as (_ & _ & ?); congruence].
    destruct Hr as (_ & dd & d & _ & _ & [(due & _ & H & _)|(k' & _ & H & _ & H' & _)]); congruence.
  - intros H. destruct (Hp H) as (E & _ & E'). rewrite E, E' in *. by apply Hw.
  - by rewrite Er.
  - intros Hm H. destruct (Hp H) as (_ & ? & _). congruence.
Qed.
Section Chain.
Context (Date_parse : jstring → number).
Lemma dispatch_cases e w : let next := reduceObserver Date_parse (observer w) e in
  (dispatch Date_parse e w = w ∧ next = observer w) ∨
  (isTerminal (phase next) = true ∧ ∃ ep, dispatch Date_parse e w = stop (set_observer next ep w)) ∨
  (isTerminal (phase next) = false ∧ ∃ ep, dispatch Date_parse e w = set_observer next ep w).
Proof.
  intros next. unfold dispatch. fold next. case_decide as E; [by left|right].
  destruct (isTerminal (phase next)) eqn:Et; [left|right]; eauto.
Qed.
(** What a waiting observer makes of a read or of a tick. *)
Lemma waiting_next st e : phase st = awaitingObservation → is_Some (baseline st) → is_Some (correlation st) →
  let next := reduceObserver Date_parse st e in
  match e with
  | sample _ _ | forbidden | notFound | error =>
      isTerminal (phase next) = true ∨
      (phase next = awaitingObservation ∧ baseline next = baseline st ∧ correlation next = correlation st ∧
       deadlineMs next = deadlineMs st ∧ attempt next = attempt st + 1)
  | tick now => if expired st now then phase next = timeout else next = st
  | clusterChanged => phase next = targetChanged
  | _ => True
  end.
Proof.
  intros Hp [b Hb] [c Hc] next. subst next. unfold reduceObserver. rewrite Hp.
  destruct e as [| | |s t| | | | |t|]; cbn -[Z.leb after_error applySample expired]; try done; auto.
  - unfold applySample. rewrite Hb, Hc. destruct (js_eqb _ _); cbn [negb]; [|by left].
    destruct (expired _ _); [by left|]. destruct (isNewEvidence _ _ _ _); [destruct (bool_decide (s_status s = SyncFailed)); by left|].
    destruct (isNewFailure _ _); [by left|]. right. cbn. by rewrite Hp.
  - unfold after_error. cbn -[Z.leb]. destruct (_ <=? _); [by left|]. right. by rewrite Hp.
  - by destruct (expired st t).
Qed.
(** The chain survives time passing and the poller's own bookkeeping. *)
Lemma chained_page w fs m t : chained w → mono w <= t → (m = true → mounted w = true) →
  (fs = forceSyncing w ∨ fs = false ∨ phase (observer w) ≠ awaitingObservation) → chained (set_page fs m t w).
Proof.
  intros [Hn Hw Hr Hl] Ht Hm Hfs. split; cbn; try done; [| |auto].
  { intros Hp. destruct (Hw Hp) as (? & ? & ? & ?). split_and!; try done. destruct Hfs as [-> |[-> |?]]; done. }
  destruct (running w); [|done]. destruct Hr as (Hp & dd & d & Hd & Hdm & Hc).
  split; [done|]. exists dd, d. split_and!; [done|done|].
  destruct Hc as [H|(k & ? & ? & ? & ? & ? & ? & ?)]; [by left|right; exists k; cbn; split_and!; try done; lia].
Qed.
(** A read comes back, or a poll is due: the observer moves on. *)
Lemma chained_read w e : chained w → running w = true →
  match e with sample _ _ | forbidden | notFound | error => True | _ => False end →
  ∃ w1, dispatch Date_parse e w = w1 ∧ mounted w1 = mounted w ∧
   ((phase (observer w1) ≠ awaitingObservation ∧ chained w1 ∧ unarmed w1 ∧ running w1 = false) ∨
    (running w1 = true ∧ phase (observer w1) = awaitingObservation ∧ is_Some (baseline (observer w1)) ∧
     is_Some (correlation (observer w1)) ∧ attempt (observer w1) = attempt (observer w) + 1 ∧
     deadlineMs (observer w1) = deadlineMs (observer w) ∧ pollTimer w1 = pollTimer w ∧
     deadlineTimer w1 = deadlineTimer w ∧ inFlight w1 = inFlight w ∧ aborted w1 = aborted w ∧ mono w1 = mono w ∧
     next_poll w1 = next_poll w ∧ polls w1 = polls w ∧ forceSyncing w1 = false)).
Proof.
  intros Hch Hrun He. pose proof Hch as [Hn Hw Hr Hl]. rewrite Hrun in Hr.
  destruct Hr as (Hp & dd & d & Hd & Hdm & Hc). destruct (Hw Hp) as (Hb & Hco & Ha & Hfs).
  pose proof (waiting_next (observer w) e Hp Hb Hco) as Hnext. cbn zeta in Hnext. eexists. split; [done|].
  assert (Hnext' : let next := reduceObserver Date_parse (observer w) e in isTerminal (phase next) = true ∨
      (phase next = awaitingObservation ∧ baseline next = baseline (observer w) ∧
       correlation next = correlation (observer w) ∧ deadlineMs next = deadlineMs (observer w) ∧
       attempt next = attempt (observer w) + 1)) by (by destruct e). clear Hnext. cbn zeta in Hnext'.
  destruct (dispatch_cases e w) as [[_ E]|[[Et (ep & ->)]|[Et (ep & ->)]]].
  - exfalso. rewrite E in Hnext'. destruct Hnext' as [H|(_ & _ & _ & _ & H)]; [by rewrite Hp in H|lia].
  - split; [done|]. left. cbn -[stop]. destruct Hnext' as [H|(H & _)]; [|by rewrite H in Et].
    assert (Hna : phase (reduceObserver Date_parse (observer w) e) ≠ awaitingObservation) by (intros H'; by rewrite H' in H).
    split_and!; [exact Hna| |done..]. by eapply chained_halt.
  - split; [done|]. right. destruct Hnext' as [H|(H1 & H2 & H3 & H4 & H5)]; [congruence|].
    cbn. rewrite H2, H3, Hfs. done.
Qed.
Lemma chained_polled w k r now : chained w → chained (polled Date_parse k r now w).
Proof.
  intros Hch. unfold polled. case_decide as Ha; [done|]. case_bool_decide as Ef; cbn [negb]; [|done].
  pose proof Hch as [Hn Hw Hr Hl].
  destruct (running w) eqn:Hrun; [|destruct Hr as (_ & _ & ?); congruence].
  destruct Hr as (Hp & dd & d & Hd & Hdm & Hc).
  destruct Hc as [(due & _ & H & _)|(k' & Hpt & Hfl & _ & Hk & Hpl & Hmono & Hdel)]; [congruence|].
  destruct (chained_read w (read_event r now) Hch Hrun) as (w1 & -> & Hm & Hcases);
    [destruct r as [[]|[st|]]; cbn; repeat case_match; done|]. cbn zeta. unfold stillWaiting. cbn [observer set_poller].
  destruct Hcases as [(Hna & Hc1 & Hu & Hr1)|(Hr1 & Hp1 & Hb1 & Hc1 & Ha1 & Hd1 & Et1 & Et2 & Et3 & Et4 & Et5 & Et6 & Et7 & Et8)].
  - rewrite decide_False by done. destruct Hu as (U1 & U2 & U3).
    eapply (chained_halt w1); cbn; [done|by rewrite U3|done..].
  - rewrite decide_True by done. destruct (Hw Hp) as (_ & _ & Hpos & _). split; cbn.
    + rewrite Et4, Et6. done.
    + intros _. split_and!; [done|done|lia|done].
    + rewrite Hr1. split; [done|]. exists dd, d. cbn. rewrite Et2, Hd1. split_and!; [done|done|]. left.
      eexists. cbn. split_and!; [done|done|by rewrite Et7, Hpl, Ha1| |by rewrite Ha1].
      rewrite Ha1, (delays_next (attempt (observer w) + 1)), Et5 by lia. lia.
    + done.
Qed.
Lemma chained_tick w now : chained w → running w = true →
  let w1 := fst (stillWaiting (dispatch Date_parse (tick now) w)) in
  (stillWaiting (dispatch Date_parse (tick now) w) = (w, true) ∧ expired (observer w) now = false) ∨
  ((stillWaiting (dispatch Date_parse (tick now) w)).2 = false ∧ chained w1 ∧ running w1 = false ∧
    phase (observer w1) = timeout).
Proof.
  intros Hch Hrun w1. pose proof Hch as [Hn Hw Hr Hl]. rewrite Hrun in Hr. destruct Hr as (Hp & _).
  destruct (Hw Hp) as (Hb & Hco & _ & _). pose proof (waiting_next (observer w) (tick now) Hp Hb Hco) as Hnext. cbv zeta iota in Hnext.
  subst w1. revert Hnext. destruct (expired (observer w) now) eqn:Ex; intros Hnext.
  - right. destruct (dispatch_cases (tick now) w) as [[_ E]|[[Et (ep & ->)]|[Et (ep & ->)]]].
    + rewrite E in Hnext. congruence.
    + unfold stillWaiting. cbn [observer stop set_poller set_observer]. rewrite decide_False by congruence.
      cbn [fst snd]. split_and!; [done| |done|done].
      eapply (chained_halt w); cbn -[reduceObserver]; try done. by rewrite Hnext.
    + rewrite Hnext in Et. done.
  - left. unfold dispatch. rewrite Hnext, decide_True by done. unfold stillWaiting. by rewrite decide_True.
Qed.
Lemma chained_poll w due now : chained w → pollTimer w = Some due → due <= mono w →
  match deadlineTimer w with Some (dd, _) => due <= dd | None => True end → chained (poll Date_parse now w).
Proof.
  intros Hch Hdue Hmono Hdd. pose proof Hch as [Hn Hw Hr Hl]. unfold poll. cbn zeta.
  destruct (running w) eqn:Hrun; [|destruct Hr as (? & _); congruence].
  destruct Hr as (Hp & dd & d & Hd & Hdm & Hc). rewrite Hd in Hdd.
  destruct Hc as [(due' & Hpt & Hfl & Hpl & Hge & Hle)|(k' & Hpt & _)]; [|congruence].
  assert (due' = due) as -> by congruence.
  set (w1 := set_poller _ _ _ _ _ _ _ w).
  pose proof (dispatch_cases (tick now) w1) as Hcases. cbn zeta in Hcases.
  destruct (Hw Hp) as (Hb & Hco & Hpos & Hfs).
  pose proof (waiting_next (observer w) (tick now) Hp Hb Hco) as Hnext. cbv zeta iota in Hnext. revert Hnext.
  change (observer w) with (observer w1). destruct (expired (observer w1) now) eqn:Ex; intros Hnext.
  - destruct Hcases as [[_ E]|[[Et (ep & ->)]|[Et (ep & ->)]]].
    + rewrite E in Hnext. change (observer w1) with (observer w) in Hnext. congruence.
    + unfold stillWaiting. cbn [observer stop set_poller set_observer]. rewrite decide_False by congruence.
      eapply (chained_halt w); cbn -[reduceObserver]; rewrite ?Hfl; try done.
      change (observer w) with (observer w1). by rewrite Hnext.
    + rewrite Hnext in Et. done.
  - assert (E : dispatch Date_parse (tick now) w1 = w1) by (unfold dispatch; by rewrite Hnext, decide_True by done).
    rewrite E. unfold stillWaiting. rewrite decide_True by done. split; cbn; try done.
    + intros k Hk. apply Hn in Hk. lia.
    + split; [done|]. exists dd, d. cbn. split_and!; [done|done|]. right. exists (next_poll w). cbn.
      split_and!; [done|done| |lia|lia|lia|lia].
      intros Hk. apply Hn in Hk. lia.
Qed.
Lemma chained_deadline w due d now : chained w → deadlineTimer w = Some (due, d) →
  chained (deadline_fired Date_parse d now w) ∧ running (deadline_fired Date_parse d now w) = false ∧
  phase (observer (deadline_fired Date_parse d now w)) = timeout.
Proof.
  intros Hch Hd0. pose proof Hch as [Hn Hw Hr Hl]. unfold deadline_fired. cbn zeta.
  destruct (running w) eqn:Hrun; [|destruct Hr as (_ & ? & _); congruence].
  destruct Hr as (Hp & dd & d' & Hd & Hdm & Hc). assert (dd = due ∧ d' = d) as [-> ->] by (split; congruence).
  set (w1 := set_poller _ _ _ _ _ _ _ w).
  pose proof (dispatch_cases (tick (Z.max now d)) w1) as Hcases. cbn zeta in Hcases.
  destruct (Hw Hp) as (Hb & Hco & Hpos & Hfs).
  pose proof (waiting_next (observer w) (tick (Z.max now d)) Hp Hb Hco) as Hnext. cbv zeta iota in Hnext. revert Hnext.
  assert (Ex : expired (observer w) (Z.max now d) = true) by (unfold expired; rewrite Hdm; apply Z.leb_le; lia).
  rewrite Ex. change (observer w) with (observer w1). intros Hnext.
  destruct Hcases as [[_ E]|[[Et (ep & ->)]|[Et (ep & ->)]]].
  - rewrite E in Hnext. change (observer w1) with (observer w) in Hnext. congruence.
  - unfold stillWaiting. cbn [observer stop set_poller set_observer]. rewrite decide_False by congruence.
    cbn [fst]. split_and!; [|done|done].
    assert (Hna : phase (reduceObserver Date_parse (observer w1) (tick (Z.max now d))) ≠ awaitingObservation) by congruence.
    split; cbn -[reduceObserver]; try done.
    assert (Hx : chained (stop (set_page (forceSyncing w) false (mono w) w))) by (eapply (chained_halt w); try done).
    intros k H. apply (ch_numbers _ Hx). cbn in *. rewrite !elem_of_app in *. naive_solver.
  - by rewrite Hnext in Et.
Qed.
Lemma chained_dispatch_idle e w : chained w → running w = false →
  phase (reduceObserver Date_parse (observer w) e) ≠ awaitingObservation → chained (dispatch Date_parse e w).
Proof.
  intros Hch Hrun Hna. destruct (dispatch_cases e w) as [[-> _]|[[_ (ep & ->)]|[_ (ep & ->)]]]; [done|..].
  - by eapply (chained_halt w).
  - destruct Hch as [Hn Hw Hr Hl]. rewrite Hrun in Hr. split; cbn -[reduceObserver]; try done. by rewrite Hrun.
Qed.
Lemma chained_answer r now w : chained w → forceSyncing w = true → chained (answer Date_parse r now w).
Proof.
  intros Hch Hfs. unfold answer. cbn zeta.
  assert (Hpage : ∀ w1, chained w1 → chained (set_page false (mounted w1) (mono w1) w1))
    by (intros w1 H1; apply chained_page; [done|lia|done|by right; left]).
  pose proof Hch as [Hn Hw Hr Hl].
  assert (Hna : phase (observer w) ≠ awaitingObservation) by (intros H; apply Hw in H as (_ & _ & _ & ?); congruence).
  assert (Hrun : running w = false) by (destruct (running w); [destruct Hr as (? & _); congruence|done]).
  rewrite Hrun in Hr. destruct Hr as (U1 & U2 & U3).
  destruct r as [[[b c] prior]|].
  2: { apply Hpage, chained_dispatch_idle; [done..|]. unfold reduceObserver. destruct (_ || _); [done|].
       by destruct (bool_decide _). }
  assert (Hacc : reduceObserver Date_parse (observer w) (accepted b c prior now) =
    if decide (phase (observer w) = requested) then accepted_state b c prior now else observer w).
  { unfold reduceObserver. case_decide as E; [rewrite E; done|]. destruct (_ || _); [done|].
    by rewrite bool_decide_eq_false_2. }
  unfold dispatch. rewrite Hacc. destruct (decide (phase (observer w) = requested)) as [Hq|Hq].
  2: { rewrite decide_True by done. unfold begin. rewrite Hrun, bool_decide_eq_false_2 by done. by apply Hpage. }
  rewrite decide_False by (intros E; rewrite <- E in Hq; done). cbn [isTerminal phase accepted_state].
  unfold begin. cbn [running set_observer]. rewrite Hrun. cbn -[nextPollDelayMs].
  split; cbn -[nextPollDelayMs]; try done. split; [done|].
  eexists _, _. split_and!; [done|done|]. left. eexists. cbn -[nextPollDelayMs delays].
  split_and!; [done|done|done| |by vm_compute]. cbn -[nextPollDelayMs delays Z.add Z.sub Z.max].
  match goal with |- _ - _ + delays (?n + 1) <= _ => change n with 0 end. change (delays (0 + 1)) with 1000. change (nextPollDelayMs 0) with 1000. unfold OBSERVE_TIMEOUT_MS. lia.
Qed.
Lemma chained_happen w ev : chained w → chained (happen Date_parse w ev).
Proof.
  destruct ev as [[h dt] now]. intros Hch0. unfold happen. set (w0 := w) at 1 2 3 4.
  assert (Hch : chained (set_page (forceSyncing w) (mounted w) (mono w + Z.of_N dt) w))
    by (apply chained_page; [done|lia|done|by left]).
  subst w0. cbv zeta. revert Hch. generalize (set_page (forceSyncing w) (mounted w) (mono w + Z.of_N dt) w).
  clear w Hch0. intros w Hch. destruct h as [|r| | |k r| |].
  - destruct (negb (mounted w) || forceSyncing w || running w) eqn:E; [done|].
    apply orb_false_iff in E as [[Hm%negb_false_iff Hf]%orb_false_iff Hrun].
    assert (Hna : phase (observer w) ≠ awaitingObservation) by (intros H; apply (ch_live _ Hch Hm) in H; congruence).
    apply chained_dispatch_idle; [|done|done]. apply chained_page; [done|lia|done|by right; right].
  - destruct (forceSyncing w) eqn:E; [|done]. by apply chained_answer.
  - destruct (pollTimer w) as [due|] eqn:E; [|done].
    destruct ((due <=? mono w) && _) eqn:Eg; [|done]. apply andb_true_iff in Eg as [H1%Z.leb_le H2].
    eapply chained_poll; [done..|]. destruct (deadlineTimer w) as [[dd d]|]; [lia|done].
  - destruct (deadlineTimer w) as [[due d]|] eqn:E; [|done]. destruct (due <=? mono w); [|done].
    by eapply chained_deadline.
  - by apply chained_polled.
  - destruct (mounted w) eqn:E; [|done]. 
    assert (Hna : phase (reduceObserver Date_parse (observer w) clusterChanged) ≠ awaitingObservation).
    { unfold reduceObserver. destruct (isTerminal (phase (observer w)) || _) eqn:Et; [|done].
      intros H. by rewrite H in Et. }
    destruct (dispatch_cases clusterChanged (stop w)) as [[-> H]|[[Et (ep & ->)]|[Et (ep & ->)]]];
      eapply (chained_halt w); cbn -[reduceObserver]; try done.
    cbn [observer stop set_poller] in H. rewrite <- H. done.
  - eapply (chained_halt w); done.
Qed.
End Chain.

Lemma life_chained Date_parse hs : chained (life Date_parse hs).
Proof.
  unfold life. assert (H : chained shown) by (split; cbn; try done; intros ? H; inversion H).
  revert H. generalize shown. induction hs as [|ev hs IH]; intros w H; [done|]. apply IH. by apply chained_happen.
Qed.

(** Whatever the operator, the timers, the reads and both clocks do: a poller
    that runs is waiting on an accepted request, with its deadline timer set and
    exactly one of the next poll scheduled and a read in flight, and has made at
    most nineteen reads; a poller that does not run holds no timer and no read;
    on a mounted page a waiting observer has a running poller; and once the
    deadline timer fires, whatever the wall clock shows, the wait is over. *)
Theorem one_chain_until_the_deadline Date_parse hs :
  let w := life Date_parse hs in
  (if running w
   then phase (observer w) = awaitingObservation ∧ is_Some (deadlineTimer w) ∧
        (is_Some (pollTimer w) ↔ inFlight w = None) ∧ 0 <= polls w <= 19
   else pollTimer w = None ∧ deadlineTimer w = None ∧ inFlight w = None) ∧
  (mounted w = true → phase (observer w) = awaitingObservation → running w = true) ∧
  (∀ due d dt now, deadlineTimer w = Some (due, d) → due <= mono w + Z.of_N dt →
     let w' := happen Date_parse w (DeadlineTimer, dt, now) in
     phase (observer w') = timeout ∧ running w' = false).
Proof.
  intros w. pose proof (life_chained Date_parse hs) as Hch. fold w in Hch. split_and!.
  - pose proof (ch_run _ Hch) as Hr. destruct (running w); [|exact Hr].
    destruct Hr as (Hp & dd & d & Hd & _ & Hc). destruct (ch_waits _ Hch Hp) as (_ & _ & Ha & _).
    split_and!; [done|by rewrite Hd|..]; destruct Hc as [(due & E1 & E2 & E3 & _ & Hl)|(k & E1 & E2 & _ & _ & E3 & _ & Hl)].
    1,2: rewrite E1, E2; split; [|by eauto]; try done; intros []; done.
    1,2: lia.
    all: apply delays_bound in Hl; lia.
  - apply Hch.
  - intros due d dt now Hd Hdue w'. subst w'. unfold happen. cbn [deadlineTimer set_page mono].
    rewrite Hd, (proj2 (Z.leb_le _ _)) by done.
    edestruct (chained_deadline Date_parse (set_page (forceSyncing w) (mounted w) (mono w + Z.of_N dt) w) due d now)
      as (_ & H1 & H2); [apply chained_page; [done|lia|done|by left]|done|]. done.
Qed.

(** A force-sync whose answer comes after the page was left: [begin] runs all
    the same, and the poller keeps reading for a page that is gone. *)
Definition left_page (b : Baseline) (c : Correlation) : list (Happening * N * Z) :=
  [(ForceSync, 0%N, 0); (Unmount, 1%N, 1); (Answered (Some (b, c, None)), 1%N, 2)].
Theorem poller_outlives_page Date_parse b c :
  let w := life Date_parse (left_page b c) in
  mounted w = false ∧ running w = true ∧ pollTimer w = Some 1002 ∧ deadlineTimer w = Some (90002, 90002).
Proof. split_and!; reflexivity. Qed.
