(* ===== verification/WsBridge.v ===== *)
(** * The WebSocket bridge: server/ws-proxy.ts

    One bridged connection: the browser's socket, the backend's socket, the
    queue of messages the browser sent before the backend leg opened, and the
    three timers. Each listener is one step; a run is any list of events.
    [heard], [said] and the two logs are ghosts: what each side sent to the
    bridge while it was not closed, and what the bridge passed on. *)

From stdpp Require Import base list strings.
From Stdlib Require Import ZArith NArith Lia.
From S2P Require Import Prelude JsValue.

Open Scope Z_scope.

(** ** Definitions *)

(** [readyState] *)
Inductive Ready := CONNECTING | OPEN | CLOSING | CLOSED.
#[export] Instance Ready_eq : EqDecision Ready.
Proof. solve_decision. Defined.
(** A message: its bytes, and whether it is binary. *)
Record Message := { isBinary : bool; bytes : list N }.
Definition byteLength (m : Message) : Z := Z.of_nat (length (bytes m)).

Record BridgeOptions := {
  maxQueueMessages : Z;
  maxQueueBytes : Z;
  handshakeTimeoutMs : Z;
  idleTimeoutMs : Z
}.
Definition DEFAULT_OPTIONS : BridgeOptions :=
  {| maxQueueMessages := 32; maxQueueBytes := 256 * 1024; handshakeTimeoutMs := 10000; idleTimeoutMs := 60000 |}.
Definition KEEPALIVE_PING_MS : Z := 20000.
(** [Math.max(50, Math.min(KEEPALIVE_PING_MS, Math.floor(idle / 3)))] *)
Definition keepalivePeriod (o : BridgeOptions) : Z := Z.max 50 (Z.min KEEPALIVE_PING_MS (idleTimeoutMs o / 3)).

Record Bridge := {
  client : Ready;
  backend : Ready;
  queue : list Message;
  queueBytes : Z;
  closed : bool;
  idleTimer : option Z;
  handshakeTimer : option Z;
  keepaliveTimer : option Z;
  now : Z;
  to_backend : list Message;
  to_client : list Message;
  heard : list Message;
  said : list Message;
  pings : nat;
  client_code : option Z
}.
Definition set_sockets (c b : Ready) (code : option Z) (s : Bridge) : Bridge :=
  {| client := c; backend := b; queue := queue s; queueBytes := queueBytes s; closed := closed s;
     idleTimer := idleTimer s; handshakeTimer := handshakeTimer s; keepaliveTimer := keepaliveTimer s; now := now s;
     to_backend := to_backend s; to_client := to_client s; heard := heard s; said := said s; pings := pings s;
     client_code := code |}.
Definition set_timers (i h k : option Z) (s : Bridge) : Bridge :=
  {| client := client s; backend := backend s; queue := queue s; queueBytes := queueBytes s; closed := closed s;
     idleTimer := i; handshakeTimer := h; keepaliveTimer := k; now := now s;
     to_backend := to_backend s; to_client := to_client s; heard := heard s; said := said s; pings := pings s;
     client_code := client_code s |}.
Definition set_queue (q : list Message) (n : Z) (s : Bridge) : Bridge :=
  {| client := client s; backend := backend s; queue := q; queueBytes := n; closed := closed s;
     idleTimer := idleTimer s; handshakeTimer := handshakeTimer s; keepaliveTimer := keepaliveTimer s; now := now s;
     to_backend := to_backend s; to_client := to_client s; heard := heard s; said := said s; pings := pings s;
     client_code := client_code s |}.
Definition set_traffic (tb tc h sd : list Message) (p : nat) (s : Bridge) : Bridge :=
  {| client := client s; backend := backend s; queue := queue s; queueBytes := queueBytes s; closed := closed s;
     idleTimer := idleTimer s; handshakeTimer := handshakeTimer s; keepaliveTimer := keepaliveTimer s; now := now s;
     to_backend := tb; to_client := tc; heard := h; said := sd; pings := p; client_code := client_code s |}.
Definition set_clock (t : Z) (cl : bool) (s : Bridge) : Bridge :=
  {| client := client s; backend := backend s; queue := queue s; queueBytes := queueBytes s; closed := cl;
     idleTimer := idleTimer s; handshakeTimer := handshakeTimer s; keepaliveTimer := keepaliveTimer s; now := t;
     to_backend := to_backend s; to_client := to_client s; heard := heard s; said := said s; pings := pings s;
     client_code := client_code s |}.

Definition remapCloseCode (code : Z) : Z :=
  if (1000 <=? code) && (code <=? 4999) && negb (code =? 1006) then code else 1000.

Section Bridge.
(** Which close codes the socket library sends; [close] throws on the others. *)
Context (sendable : Z → bool) (opts : BridgeOptions).

(** [resetIdle], which a late control frame also runs on a closed bridge. *)
Definition resetIdle (s : Bridge) : Bridge :=
  set_timers (Some (now s + idleTimeoutMs opts)) (handshakeTimer s) (keepaliveTimer s) s.
Definition clearTimers (s : Bridge) : Bridge := set_timers None None None s.
Definition close_backend (s : Bridge) : Bridge :=
  match backend s with
  | OPEN | CONNECTING => set_sockets (client s) CLOSING (client_code s) s
  | _ => s
  end.
(** [closeBoth]; a throwing [close] is swallowed. *)
Definition closeBoth (code : Z) (s : Bridge) : Bridge :=
  if closed s then s else
  let s1 := clearTimers (set_clock (now s) true s) in
  let c := remapCloseCode code in
  let s2 := match client s1 with
    | OPEN => if sendable c then set_sockets CLOSING (backend s1) (Some c) s1 else s1
    | _ => s1
    end in
  close_backend s2.

(** The connection as [bridgeConnection] leaves it. *)
Definition bridgeConnection (t : Z) : Bridge :=
  {| client := OPEN; backend := CONNECTING; queue := []; queueBytes := 0; closed := false;
     idleTimer := Some (t + idleTimeoutMs opts); handshakeTimer := Some (t + handshakeTimeoutMs opts);
     keepaliveTimer := Some (t + keepalivePeriod opts); now := t; to_backend := []; to_client := []; heard := [];
     said := []; pings := 0; client_code := None |}.

Definition client_message (m : Message) (s : Bridge) : Bridge :=
  if closed s then s else
  let s1 := set_traffic (to_backend s) (to_client s) (heard s ++ [m]) (said s) (pings s) (resetIdle s) in
  match backend s1 with
  | OPEN => set_traffic (to_backend s1 ++ [m]) (to_client s1) (heard s1) (said s1) (pings s1) s1
  | CONNECTING =>
      if (maxQueueMessages opts <? Z.of_nat (length (queue s1)) + 1)
         || (maxQueueBytes opts <? queueBytes s1 + byteLength m)
      then closeBoth 1009 s1
      else set_queue (queue s1 ++ [m]) (queueBytes s1 + byteLength m) s1
  | _ => s1
  end.
Definition backend_open (s : Bridge) : Bridge :=
  if closed s then s else
  let s1 := set_timers (idleTimer s) None (keepaliveTimer s) s in
  set_traffic (to_backend s1 ++ queue s1) (to_client s1) (heard s1) (said s1) (pings s1) (set_queue [] 0 s1).
Definition backend_message (m : Message) (s : Bridge) : Bridge :=
  if closed s then s else
  let s1 := set_traffic (to_backend s) (to_client s) (heard s) (said s ++ [m]) (pings s) (resetIdle s) in
  match client s1 with
  | OPEN => set_traffic (to_backend s1) (to_client s1 ++ [m]) (heard s1) (said s1) (pings s1) s1
  | _ => s1
  end.
Definition backend_close (code : Z) (s : Bridge) : Bridge := closeBoth (remapCloseCode code) s.
Definition client_close (s : Bridge) : Bridge :=
  if closed s then s else close_backend (clearTimers (set_clock (now s) true s)).
Definition client_error (s : Bridge) : Bridge := close_backend s.

(** What happens on the two sockets and the timers, [dt] milliseconds after the
    last event. A socket is in the state its event implies when the listener
    runs; a timer fires once due. *)
Inductive Event :=
  | ClientMessage (m : Message)
  | ClientControl
  | ClientClosed
  | ClientError
  | BackendOpened
  | BackendMessage (m : Message)
  | BackendClosed (code : Z)
  | IdleFired
  | HandshakeFired
  | KeepaliveFired.
Definition due (t : option Z) (s : Bridge) : bool := match t with Some d => d <=? now s | None => false end.
Definition bstep (s0 : Bridge) (ev : Event * N) : Bridge :=
  let '(e, dt) := ev in
  let s := set_clock (now s0 + Z.of_N dt) (closed s0) s0 in
  match e with
  | ClientMessage m => if decide (client s = CLOSED) then s else client_message m s
  | ClientControl => if decide (client s = CLOSED) then s else resetIdle s
  | ClientClosed => if decide (client s = CLOSED) then s else client_close (set_sockets CLOSED (backend s) (client_code s) s)
  | ClientError => client_error s
  | BackendOpened =>
      if decide (backend s = CONNECTING) then backend_open (set_sockets (client s) OPEN (client_code s) s) else s
  | BackendMessage m => if decide (backend s = OPEN) then backend_message m s else s
  | BackendClosed code =>
      if decide (backend s = CLOSED) then s else backend_close code (set_sockets (client s) CLOSED (client_code s) s)
  | IdleFired => if due (idleTimer s) s then closeBoth 1000 (set_timers None (handshakeTimer s) (keepaliveTimer s) s) else s
  | HandshakeFired =>
      if due (handshakeTimer s) s then
        let s1 := set_timers (idleTimer s) None (keepaliveTimer s) s in
        if decide (backend s1 = OPEN) then s1 else closeBoth 1011 s1
      else s
  | KeepaliveFired =>
      if due (keepaliveTimer s) s then
        let s1 := set_timers (idleTimer s) (handshakeTimer s) (Some (now s + keepalivePeriod opts)) s in
        if closed s1 || negb (bool_decide (client s1 = OPEN)) then s1
        else set_traffic (to_backend s1) (to_client s1) (heard s1) (said s1) (S (pings s1)) s1
      else s
  end.
Definition bridge (t : Z) (es : list (Event * N)) : Bridge := foldl bstep (bridgeConnection t) es.
End Bridge.

(** ** Invariants *)

Definition live (r : Ready) : Prop := r = CONNECTING ∨ r = OPEN.
Definition total (q : list Message) : Z := foldr (λ m n, byteLength m + n) 0 q.
Lemma total_app q m : total (q ++ [m]) = total q + byteLength m.
Proof. induction q as [|a q IH]; cbn; [lia|]. fold (total (q ++ [m])) (total q) in *. lia. Qed.

Record sound (o : BridgeOptions) (s : Bridge) : Prop := {
  so_prefix : to_backend s `prefix_of` heard s;
  so_queued : closed s = false → backend s = CONNECTING → to_backend s = [] ∧ heard s = queue s;
  so_passed : closed s = false → backend s = OPEN → heard s = to_backend s ∧ queue s = [];
  so_bytes : queueBytes s = total (queue s);
  so_bound : Z.of_nat (length (queue s)) <= maxQueueMessages o ∧ queueBytes s <= maxQueueBytes o;
  so_back : to_client s `prefix_of` said s;
  so_open : client s = OPEN → to_client s = said s;
  so_closed : closed s = true → ¬ live (backend s);
  so_idle : closed s = false → is_Some (idleTimer s) ∧ is_Some (keepaliveTimer s);
  so_hand : closed s = false → backend s = CONNECTING → is_Some (handshakeTimer s)
}.
(** What the invariant reads of a state, but for its timers. *)
Definition same_traffic (s s' : Bridge) : Prop :=
  to_backend s' = to_backend s ∧ heard s' = heard s ∧ queue s' = queue s ∧ queueBytes s' = queueBytes s ∧
  to_client s' = to_client s ∧ said s' = said s ∧ client s' = client s ∧ backend s' = backend s ∧ closed s' = closed s.
Lemma sound_timers o s s' : sound o s → same_traffic s s' →
  (closed s = false → is_Some (idleTimer s') ∧ is_Some (keepaliveTimer s')) →
  (closed s = false → backend s = CONNECTING → is_Some (handshakeTimer s')) → sound o s'.
Proof.
  intros [] (E1 & E2 & E3 & E4 & E5 & E6 & E7 & E8 & E9) Hi Hh.
  split; rewrite ?E1, ?E2, ?E3, ?E4, ?E5, ?E6, ?E7, ?E8, ?E9; done.
Qed.
(** A bridge that closes: its backend leg is shut, its client leg is not reopened. *)
Lemma sound_shut o s s' : sound o s → closed s' = true → ¬ live (backend s') → (client s' = OPEN → client s = OPEN) →
  to_backend s' = to_backend s → heard s' = heard s → queue s' = queue s → queueBytes s' = queueBytes s →
  to_client s' = to_client s → said s' = said s → sound o s'.
Proof.
  intros [] Ec Hb Hcl E1 E2 E3 E4 E5 E6.
  split; rewrite ?E1, ?E2, ?E3, ?E4, ?E5, ?E6; try done; try congruence; auto.
Qed.
Lemma close_backend_shut s : ¬ live (backend (close_backend s)).
Proof. unfold close_backend. destruct (backend s) eqn:E; cbn; rewrite ?E; intros []; done. Qed.
Lemma close_backend_frame s : let s' := close_backend s in
  client s' = client s ∧ closed s' = closed s ∧ to_backend s' = to_backend s ∧ heard s' = heard s ∧
  queue s' = queue s ∧ queueBytes s' = queueBytes s ∧ to_client s' = to_client s ∧ said s' = said s.
Proof. unfold close_backend. by destruct (backend s). Qed.
Lemma closeBoth_frame sendable code s : closed s = false → let s' := closeBoth sendable code s in
  closed s' = true ∧ ¬ live (backend s') ∧ (client s' = OPEN → client s = OPEN) ∧ to_backend s' = to_backend s ∧
  heard s' = heard s ∧ queue s' = queue s ∧ queueBytes s' = queueBytes s ∧ to_client s' = to_client s ∧
  said s' = said s.
Proof.
  intros Ec. unfold closeBoth. rewrite Ec. cbv zeta.
  set (s2 := match client _ with OPEN => _ | _ => _ end).
  assert (H2 : closed s2 = true ∧ (client s2 = OPEN → client s = OPEN) ∧ to_backend s2 = to_backend s ∧
    heard s2 = heard s ∧ queue s2 = queue s ∧ queueBytes s2 = queueBytes s ∧ to_client s2 = to_client s ∧ said s2 = said s).
  { subst s2. clear. cbn. destruct (client s) eqn:E; cbn; rewrite ?E; try done.
    destruct (sendable (remapCloseCode code)); cbn; rewrite ?E; done. }
  destruct H2 as (A1 & A2 & A3 & A4 & A5 & A6 & A7 & A8).
  destruct (close_backend_frame s2) as (B1 & B2 & B3 & B4 & B5 & B6 & B7 & B8).
  pose proof (close_backend_shut s2). rewrite B1, B2, B3, B4, B5, B6, B7, B8. done.
Qed.
(** Closing from a state whose traffic is sound. *)
Lemma closeBoth_sound o sendable code s s0 : sound o s0 → closed s0 = closed s → backend s0 = backend s →
  (client s = OPEN → client s0 = OPEN) → to_backend s = to_backend s0 → to_backend s `prefix_of` heard s →
  queue s = queue s0 → queueBytes s = queueBytes s0 → to_client s = to_client s0 → said s = said s0 →
  (closed s = true → sound o s) → sound o (closeBoth sendable code s).
Proof.
  intros [H1 H2 H3 H4 H5 H6 H7 H8 H9 H10] Ec Eb Hcl E1 Hp E3 E4 E5 E6 Hc.
  destruct (closed s) eqn:E; [unfold closeBoth; rewrite E; by apply Hc|].
  destruct (closeBoth_frame sendable code s E) as (A1 & A2 & A3 & A4 & A5 & A6 & A7 & A8 & A9).
  split; rewrite ?A4, ?A5, ?A6, ?A7, ?A8, ?A9, ?E3, ?E4, ?E5, ?E6; try done; try congruence.
  intros H. by apply H7, Hcl, A3.
Qed.

Lemma client_message_sound o sendable m s : sound o s → sound o (client_message sendable o m s).
Proof.
  intros Hs. unfold client_message. destruct (closed s) eqn:Ec; [done|]. cbn zeta. cbn [backend set_traffic resetIdle set_timers].
  pose proof Hs as [H1 H2 H3 H4 H5 H6 H7 H8 H9 H10].
  assert (Hidle : is_Some (Some (now s + idleTimeoutMs o)) ∧ is_Some (keepaliveTimer s)) by (split; [eauto|by apply H9]).
  destruct (backend s) eqn:Eb.
  - destruct (H2 Ec eq_refl) as [Q1 Q2].
    match goal with |- sound _ (if ?c then _ else _) => destruct c eqn:Ebound end.
    + eapply (closeBoth_sound o _ _ _ s); cbn; try done; try congruence. by apply prefix_app_r.
    + apply orb_false_iff in Ebound as [Hl Hb]. cbn in Hl, Hb. split; cbn; rewrite ?Ec, ?Eb, ?Q1, ?Q2; try done; auto.
      * apply prefix_nil.
      * rewrite total_app. lia.
      * rewrite length_app. cbn. lia.
  - destruct (H3 Ec eq_refl) as [Q1 Q2]. rewrite Q2 in H4, H5. split; cbn; rewrite ?Ec, ?Eb, ?Q1, ?Q2; try done; auto.
  - split; cbn; rewrite ?Ec, ?Eb; try done; auto. by apply prefix_app_r.
  - split; cbn; rewrite ?Ec, ?Eb; try done; auto. by apply prefix_app_r.
Qed.
Lemma backend_open_sound o s : sound o s → backend s = CONNECTING →
  sound o (backend_open (set_sockets (client s) OPEN (client_code s) s)).
Proof.
  intros Hs Eb. unfold backend_open. cbn [closed set_sockets].
  destruct Hs as [H1 H2 H3 H4 H5 H6 H7 H8 H9 H10]. destruct (closed s) eqn:Ec.
  - destruct (H8 eq_refl). rewrite Eb. by left.
  - destruct (H2 eq_refl Eb) as [Q1 Q2]. split; cbn; rewrite ?Ec, ?Q1, ?Q2; try done; auto.
    split; [|cbn; destruct H5 as [_ H5]; rewrite H4 in H5]; cbn in *; [lia|].
    assert (0 <= total (queue s)); [|lia]. clear. induction (queue s) as [|a q IH]; cbn; [lia|].
    fold (total q) in *. unfold byteLength. lia.
Qed.
Lemma backend_message_sound o m s : sound o s → sound o (backend_message o m s).
Proof.
  intros Hs. unfold backend_message. destruct (closed s) eqn:Ec; [done|]. cbv zeta. cbn [client set_traffic resetIdle set_timers].
  destruct Hs as [H1 H2 H3 H4 H5 H6 H7 H8 H9 H10]. destruct (H9 Ec) as [_ Hk].
  destruct (client s) eqn:Ecl.
  2: { specialize (H7 eq_refl). split; cbn; rewrite ?Ec, ?Ecl, ?H7; try done; eauto. }
  all: split; cbn; rewrite ?Ec, ?Ecl; try done; eauto; by apply prefix_app_r.
Qed.
Lemma clock_sound o s t : sound o s → sound o (set_clock t (closed s) s).
Proof. intros Hs. eapply sound_timers; [exact Hs|done|apply Hs|apply Hs]. Qed.
Lemma bstep_sound o sendable s ev : sound o s → sound o (bstep sendable o s ev).
Proof.
  destruct ev as [e dt]. intros Hs0. unfold bstep. pose proof (clock_sound o s (now s + Z.of_N dt) Hs0) as Hs. revert Hs.
  generalize (set_clock (now s + Z.of_N dt) (closed s) s). clear s Hs0. intros s Hs.
  destruct e as [m| | | | |m|code| | |].
  - case_decide; [done|]. by apply client_message_sound.
  - case_decide; [done|]. destruct Hs as [H1 H2 H3 H4 H5 H6 H7 H8 H9 H10]. split; cbn; try done.
    intros Ec. split; [eauto|by apply H9].
  - case_decide; [done|]. unfold client_close. cbn [closed set_sockets]. destruct (closed s) eqn:Ec.
    + destruct Hs as [H1 H2 H3 H4 H5 H6 H7 H8 H9 H10]. split; cbn; rewrite ?Ec; try done; auto.
    + set (s1 := clearTimers _). destruct (close_backend_frame s1) as (B1 & B2 & B3 & B4 & B5 & B6 & B7 & B8).
      eapply (sound_shut o s); rewrite ?B1, ?B2, ?B3, ?B4, ?B5, ?B6, ?B7, ?B8; try done. apply close_backend_shut.
  - unfold client_error. destruct (close_backend_frame s) as (B1 & B2 & B3 & B4 & B5 & B6 & B7 & B8).
    pose proof (close_backend_shut s) as Hsh. destruct Hs as [H1 H2 H3 H4 H5 H6 H7 H8 H9 H10].
    assert (Ht : idleTimer (close_backend s) = idleTimer s ∧ keepaliveTimer (close_backend s) = keepaliveTimer s)
      by (unfold close_backend; by destruct (backend s)). destruct Ht as [Ht1 Ht2].
    assert (Hno : ∀ r, backend (close_backend s) = r → ¬ live r) by (by intros r <-).
    split; rewrite ?B1, ?B2, ?B3, ?B4, ?B5, ?B6, ?B7, ?B8, ?Ht1, ?Ht2; try done.
    all: intros ? E; destruct (Hno _ E); unfold live; auto.
  - case_decide as E; [|done]. by apply backend_open_sound.
  - case_decide; [|done]. by apply backend_message_sound.
  - case_decide; [done|]. unfold backend_close. destruct (closed s) eqn:Ec.
    + unfold closeBoth. cbn [closed set_sockets]. rewrite Ec.
      destruct Hs as [H1 H2 H3 H4 H5 H6 H7 H8 H9 H10]. split; cbn; rewrite ?Ec; try done. intros _ []; done.
    + set (s1 := set_sockets (client s) CLOSED (client_code s) s).
      destruct (closeBoth_frame sendable (remapCloseCode code) s1 Ec) as (A1 & A2 & A3 & A4 & A5 & A6 & A7 & A8 & A9).
      by eapply (sound_shut o s).
  - destruct (due _ _); [|done]. eapply (closeBoth_sound o _ _ _ s); try done; [apply Hs|].
    intros Ec. eapply sound_timers; [exact Hs|done|..]; cbn in Ec; congruence.
  - destruct (due _ _); [|done]. cbv zeta. case_decide as E.
    + eapply sound_timers; [exact Hs|done|apply Hs|]. cbn in E. congruence.
    + eapply (closeBoth_sound o _ _ _ s); try done; [apply Hs|].
      intros Ec. eapply sound_timers; [exact Hs|done|..]; cbn in Ec; congruence.
  - destruct (due _ _); [|done]. cbv zeta. destruct (_ || _).
    + eapply sound_timers; [exact Hs|done| |apply Hs]. intros Ec. split; [by apply Hs|cbn; eauto].
    + eapply sound_timers; [exact Hs|done| |apply Hs]. intros Ec. split; [by apply Hs|cbn; eauto].
Qed.
Lemma bridge_sound o sendable t es : 0 <= maxQueueMessages o → 0 <= maxQueueBytes o → sound o (bridge sendable o t es).
Proof.
  intros Hm Hb. unfold bridge. assert (H : sound o (bridgeConnection o t)).
  { split; cbn; try done; try lia; eauto. }
  revert H. generalize (bridgeConnection o t). induction es as [|ev es IH]; intros s H; [done|]. apply IH. by apply bstep_sound.
Qed.

(** ** Properties *)

(** C36. The bridge is a pair of channels: what the browser sends reaches the backend
    in order and once (waiting in the queue until that leg opens, so the first
    message, which authenticates, is never lost), what the backend sends reaches
    the browser in order and once, and what waits never exceeds the two limits. *)
Theorem bridge_passes_in_order o sendable t es : 0 <= maxQueueMessages o → 0 <= maxQueueBytes o →
  let s := bridge sendable o t es in
  to_backend s `prefix_of` heard s ∧
  (closed s = false → backend s = OPEN → to_backend s = heard s) ∧
  (closed s = false → backend s = CONNECTING → to_backend s = [] ∧ queue s = heard s) ∧
  to_client s `prefix_of` said s ∧
  (client s = OPEN → to_client s = said s) ∧
  Z.of_nat (length (queue s)) <= maxQueueMessages o ∧ total (queue s) <= maxQueueBytes o.
Proof.
  intros Hm Hb s. destruct (bridge_sound o sendable t es Hm Hb) as [H1 H2 H3 H4 H5 H6 H7 _ _ _]. subst s.
  split_and!; try done; [|..].
  - intros E1 E2. symmetry. by apply H3.
  - intros E1 E2. by destruct (H2 E1 E2).
  - apply H5.
  - rewrite <- H4. apply H5.
Qed.

(** A closed bridge passes nothing more on, and never closes the browser's leg. *)
Lemma closed_stays o sendable s ev : closed s = true → let s' := bstep sendable o s ev in
  closed s' = true ∧ to_backend s' = to_backend s ∧ to_client s' = to_client s ∧
  (client s' = client s ∨ (ev.1 = ClientClosed ∧ client s' = CLOSED)).
Proof.
  intros Ec. destruct ev as [e dt]. cbn [fst]. unfold bstep.
  assert (H : ∀ s', closed s' = true → (closed s' = true ∧ to_backend s' = to_backend s ∧ to_client s' = to_client s ∧
    client s' = client s) → closed s' = true ∧ to_backend s' = to_backend s ∧ to_client s' = to_client s ∧
    (client s' = client s ∨ (e = ClientClosed ∧ client s' = CLOSED))) by naive_solver.
  destruct e as [m| | | | |m|code| | |]; cbv zeta;
    unfold client_message, client_close, client_error, backend_open, backend_message, backend_close, closeBoth, resetIdle, close_backend;
    cbn; rewrite ?Ec; repeat (case_decide || case_match); cbn; rewrite ?Ec; auto 10; try done; split_and!; try done; auto.
Qed.
Definition codes_sendable (sendable : Z → bool) (ev : Event * N) : Prop :=
  match ev.1 with BackendClosed c => sendable (remapCloseCode (remapCloseCode c)) = true | _ => True end.
Lemma closeBoth_client sendable code s : sendable (remapCloseCode code) = true → closed s = false →
  client (closeBoth sendable code s) ≠ OPEN.
Proof.
  intros Hs Ec. unfold closeBoth. rewrite Ec. cbv zeta.
  match goal with |- client (close_backend ?x) ≠ _ => destruct (close_backend_frame x) as (-> & _) end.
  cbn. destruct (client s) eqn:E; cbn; rewrite ?E, ?Hs; done.
Qed.
Lemma bstep_client o sendable s ev : sendable 1000 = true → sendable 1009 = true → sendable 1011 = true →
  codes_sendable sendable ev → (closed s = true → client s ≠ OPEN) →
  closed (bstep sendable o s ev) = true → client (bstep sendable o s ev) ≠ OPEN.
Proof.
  intros S0 S1 S2 Hc Hi Hcl. destruct (closed s) eqn:Ec.
  { destruct (closed_stays o sendable s ev Ec) as (_ & _ & _ & [-> |[_ ->]]); [by apply Hi|done]. }
  clear Hi. revert Hcl. destruct ev as [e dt]. unfold bstep, codes_sendable in *. cbn [fst] in Hc. cbv zeta.
  set (s0 := set_clock _ _ s). assert (E0 : closed s0 = false) by done. revert E0. clearbody s0. clear s Ec. intros Ec.
  destruct e as [m| | | | |m|code| | |].
  - case_decide; [congruence|]. unfold client_message. rewrite Ec. cbv zeta. cbn [backend set_traffic resetIdle set_timers].
    destruct (backend s0); cbn; try congruence. case_match; [intros _; by apply closeBoth_client|cbn; congruence].
  - case_decide; cbn; congruence.
  - case_decide; [congruence|]. intros _. unfold client_close. cbn [closed set_sockets]. rewrite Ec.
    match goal with |- client (close_backend ?x) ≠ _ => destruct (close_backend_frame x) as (-> & _) end. done.
  - unfold client_error. destruct (close_backend_frame s0) as (_ & -> & _). congruence.
  - case_decide; [|congruence]. unfold backend_open. cbn. rewrite Ec. cbn. congruence.
  - case_decide; [|congruence]. unfold backend_message. rewrite Ec. cbv zeta.
    cbn [client set_traffic resetIdle set_timers]. destruct (client s0); cbn; congruence.
  - case_decide; [congruence|]. intros _. by apply closeBoth_client.
  - destruct (due _ _); [|congruence]. intros _. by apply closeBoth_client.
  - destruct (due _ _); [|congruence]. cbv zeta. case_decide; [cbn; congruence|]. intros _. by apply closeBoth_client.
  - destruct (due _ _); [|congruence]. cbv zeta. destruct (_ || _); cbn; congruence.
Qed.

(** C37. A bridge is never left hanging: while it is open its idle and keepalive
    timers run, and its handshake timer as long as the backend leg connects; the
    first of them to find its condition met closes it; once closed it passes
    nothing more on and its backend leg is shut, and so is the browser's, provided
    the socket library can send each close code that reaches it. *)
Theorem bridge_teardown o sendable t es : 0 <= maxQueueMessages o → 0 <= maxQueueBytes o →
  let s := bridge sendable o t es in
  (closed s = false → is_Some (idleTimer s) ∧ is_Some (keepaliveTimer s) ∧
     (backend s = CONNECTING → is_Some (handshakeTimer s))) ∧
  (∀ dt, closed s = false → due (idleTimer s) (set_clock (now s + Z.of_N dt) false s) = true →
     closed (bstep sendable o s (IdleFired, dt)) = true) ∧
  (∀ dt, closed s = false → backend s = CONNECTING →
     due (handshakeTimer s) (set_clock (now s + Z.of_N dt) false s) = true →
     closed (bstep sendable o s (HandshakeFired, dt)) = true) ∧
  (closed s = true → backend s ≠ CONNECTING ∧ backend s ≠ OPEN ∧
     ∀ ev, to_backend (bstep sendable o s ev) = to_backend s ∧ to_client (bstep sendable o s ev) = to_client s) ∧
  (sendable 1000 = true → sendable 1009 = true → sendable 1011 = true → Forall (codes_sendable sendable) es →
     closed s = true → client s ≠ OPEN).
Proof.
  intros Hm Hb s. pose proof (bridge_sound o sendable t es Hm Hb) as Hs. fold s in Hs. split_and!.
  - intros Ec. destruct (so_idle _ _ Hs Ec). split_and!; [done..|]. by apply Hs.
  - intros dt Ec Hd. unfold bstep. cbv zeta. cbn [idleTimer set_clock]. rewrite Ec, Hd. by apply closeBoth_frame.
  - intros dt Ec Eb Hd. unfold bstep. cbv zeta. cbn [handshakeTimer set_clock]. rewrite Ec, Hd.
    rewrite decide_False by (cbn; congruence). by apply closeBoth_frame.
  - intros Ec. pose proof (so_closed _ _ Hs Ec) as Hl. unfold live in Hl. split_and!; [tauto..|].
    intros ev. by destruct (closed_stays o sendable s ev Ec) as (_ & ? & ? & _).
  - intros S0 S1 S2 Hc. subst s. clear Hs. unfold bridge.
    assert (Hi : closed (bridgeConnection o t) = true → client (bridgeConnection o t) ≠ OPEN) by done.
    revert Hi. generalize (bridgeConnection o t). induction Hc as [|ev es Hev _ IH]; intros s Hi; [done|].
    cbn [foldl]. apply IH. intros H. by apply bstep_client.
Qed.

(** A close frame without a status code, which the backend sends when it drops a
    client, reads as code 1005. [remapCloseCode] passes it on, no library may
    send it, the exception is swallowed with the timers already cleared, and from
    then on the browser's socket stays open with nothing behind it, until the
    browser itself gives up. *)
Theorem no_status_close_strands_browser sendable es : sendable 1005 = false →
  Forall (λ ev, ev.1 ≠ ClientClosed) es →
  let s := bridge sendable DEFAULT_OPTIONS 0 [(BackendOpened, 1%N); (BackendClosed 1005, 1%N)] in
  let s' := foldl (bstep sendable DEFAULT_OPTIONS) s es in
  closed s = true ∧ keepaliveTimer s = None ∧ client s' = OPEN ∧ to_client s' = [] ∧ client_code s = None.
Proof.
  intros Hs Hes s s'.
  assert (E : closed s = true ∧ keepaliveTimer s = None ∧ client s = OPEN ∧ to_client s = [] ∧ client_code s = None).
  { subst s. unfold bridge. cbn [foldl]. set (s1 := bstep _ _ _ (BackendOpened, 1%N)).
    assert (F : backend s1 = OPEN ∧ client s1 = OPEN ∧ closed s1 = false ∧ to_client s1 = [] ∧ client_code s1 = None)
      by (split_and!; reflexivity).
    destruct F as (F1 & F2 & F3 & F4 & F5). revert F1 F2 F3 F4 F5. generalize s1. clear s1. intros s1 F1 F2 F3 F4 F5.
    unfold bstep. cbv zeta. rewrite decide_False by (cbn; congruence). unfold backend_close, closeBoth.
    cbn [closed set_sockets set_clock]. rewrite F3. cbv zeta. cbn [client set_sockets set_clock clearTimers set_timers].
    rewrite F2. change (remapCloseCode (remapCloseCode 1005)) with 1005. rewrite Hs. cbn. rewrite ?F2, ?F4, ?F5. done. }
  destruct E as (E1 & E2 & E3 & E4 & E5). split_and!; try done; subst s'; revert E1 E3 E4; clear E2 E5; generalize s; clear s Hs.
  all: induction Hes as [|ev es Hev _ IH]; intros s E1 E3 E4; [done|]; cbn [foldl].
  all: destruct (closed_stays DEFAULT_OPTIONS sendable s ev E1) as (H1 & _ & H2 & [H3|[H3 _]]); [|done].
  all: apply IH; congruence.
Qed.

(** ** Witnesses *)

(** The close codes RFC 6455 lets an endpoint send. *)
Definition rfc_sendable (c : Z) : bool :=
  ((1000 <=? c) && (c <=? 1014) && negb (c =? 1004) && negb (c =? 1005) && negb (c =? 1006))
  || ((3000 <=? c) && (c <=? 4999)).
Definition demo_message : Message := {| isBinary := false; bytes := [123; 125]%N |}.
Definition demo_events : list (Event * N) :=
  [(ClientMessage demo_message, 5%N); (BackendOpened, 20%N); (BackendMessage demo_message, 1%N); (BackendClosed 1000, 9%N)].
Lemma bridge_passes_in_order_witness :
  let s := bridge rfc_sendable DEFAULT_OPTIONS 0 demo_events in to_client s `prefix_of` said s ∧ total (queue s) <= 262144.
Proof.
  destruct (bridge_passes_in_order DEFAULT_OPTIONS rfc_sendable 0 demo_events ltac:(cbn; lia) ltac:(cbn; lia))
    as (_ & _ & _ & H1 & _ & _ & H2).
  split; [exact H1|exact H2].
Defined.
Lemma bridge_teardown_witness : client (bridge rfc_sendable DEFAULT_OPTIONS 0 demo_events) ≠ OPEN.
Proof.
  destruct (bridge_teardown DEFAULT_OPTIONS rfc_sendable 0 demo_events ltac:(cbn; lia) ltac:(cbn; lia))
    as (_ & _ & _ & _ & H).
  apply H; [reflexivity..| |reflexivity]. repeat constructor.
Defined.
Lemma no_status_close_strands_browser_witness :
  client (foldl (bstep rfc_sendable DEFAULT_OPTIONS)
    (bridge rfc_sendable DEFAULT_OPTIONS 0 [(BackendOpened, 1%N); (BackendClosed 1005, 1%N)])
    [(ClientMessage demo_message, 90000%N)]) = OPEN.
Proof.
  destruct (no_status_close_strands_browser rfc_sendable [(ClientMessage demo_message, 90000%N)] eq_refl
    ltac:(constructor; [discriminate|constructor])) as (_ & _ & H & _). exact H.
Defined.
