(* ===== verification/Guards.v ===== *)
(** * The frontend server's guards: path-safety.ts, ws-allowlist.ts,
    api-proxy.ts, rewrites.ts, static.ts, oidc-token-exchange.ts, dispatch.ts

    Every request of the browser passes through one dispatch chain before it
    reaches the backend, the file system or the pages. The file system is a
    parameter: which paths exist, which are files, and where symbolic links
    lead. Strings are handled as their lists of UTF-16 units. *)

From stdpp Require Import base list strings.
From Stdlib Require Import ZArith NArith Lia.
From S2P Require Import Prelude JsValue Uri JsonParse.

Open Scope Z_scope.

(** ** Definitions *)

(** *** decodeURIComponent *)

Inductive Token := Raw (c : N) | Byte (b : N).
Fixpoint tokens (l : list N) : option (list Token) :=
  match l with
  | [] => Some []
  | c :: r =>
      if (c =? 37)%N then
        match r with
        | h :: d :: r' => x ← hex_value h; y ← hex_value d; cons (Byte (x * 16 + y)%N) <$> tokens r'
        | _ => None
        end
      else cons (Raw c) <$> tokens r
  end.
Definition continuation : N → bool := in_range 128 191.
(** The UTF-16 units of a code point. *)
Definition utf16 (cp : N) : list N :=
  if (cp <? 65536)%N then [cp] else [55296 + (cp - 65536) / 1024; 56320 + (cp - 65536) mod 1024]%N.
Definition scalar (lo : N) (cp : N) : bool := (lo <=? cp)%N && (cp <? 1114112)%N && negb (in_range 55296 57343 cp).
Fixpoint detok (ts : list Token) : option (list N) :=
  match ts with
  | [] => Some []
  | Raw c :: r => cons c <$> detok r
  | Byte b :: r =>
      if (b <? 128)%N then cons b <$> detok r
      else if in_range 192 223 b then
        match r with
        | Byte c1 :: r1 =>
            let cp := ((b - 192) * 64 + (c1 - 128))%N in
            if continuation c1 && scalar 128 cp then app (utf16 cp) <$> detok r1 else None
        | _ => None
        end
      else if in_range 224 239 b then
        match r with
        | Byte c1 :: Byte c2 :: r2 =>
            let cp := ((b - 224) * 4096 + (c1 - 128) * 64 + (c2 - 128))%N in
            if continuation c1 && continuation c2 && scalar 2048 cp then app (utf16 cp) <$> detok r2 else None
        | _ => None
        end
      else if in_range 240 247 b then
        match r with
        | Byte c1 :: Byte c2 :: Byte c3 :: r3 =>
            let cp := ((b - 240) * 262144 + (c1 - 128) * 4096 + (c2 - 128) * 64 + (c3 - 128))%N in
            if continuation c1 && continuation c2 && continuation c3 && scalar 65536 cp
            then app (utf16 cp) <$> detok r3 else None
        | _ => None
        end
      else None
  end.
Definition decode_units (l : list N) : option (list N) := tokens l ≫= detok.

(** *** path-safety.ts *)

(** [/\.\.|\/\/|%2e|%2f/i] *)
Definition TRAVERSAL_PATTERN (l : list N) : bool :=
  units_include [46; 46]%N l || units_include [47; 47]%N l
  || units_include [37; 50; 101]%N l || units_include [37; 50; 69]%N l
  || units_include [37; 50; 102]%N l || units_include [37; 50; 70]%N l.
Definition MAX_DECODE_PASSES : nat := 8.
Definition has_percent (l : list N) : bool := units_include [37]%N l.
Fixpoint decode_loop (n : nat) (forms : list (list N)) (current : list N) : option (list (list N)) :=
  match n with
  | O => if has_percent current then None else Some forms
  | S n' =>
      if negb (has_percent current) then Some forms
      else match decode_units current with
        | None => None
        | Some next => if decide (next = current) then Some forms else decode_loop n' (forms ++ [next]) next
        end
  end.
Definition decodedForms (path : list N) : option (list (list N)) := decode_loop MAX_DECODE_PASSES [path] path.
Definition hasTraversal (path : list N) : bool :=
  match decodedForms path with None => true | Some forms => existsb TRAVERSAL_PATTERN forms end.

(** *** Requests *)

(** [s.split("?")[0]] *)
Fixpoint before (c : N) (l : list N) : list N :=
  match l with [] => [] | x :: r => if (x =? c)%N then [] else x :: before c r end.
(** [s.slice(s.indexOf("?"))], empty without one. *)
Fixpoint from (c : N) (l : list N) : list N :=
  match l with [] => [] | x :: r => if (x =? c)%N then l else from c r end.
Definition QUESTION : N := 63%N.
Definition SLASH : N := 47%N.
(** [s.split(c)] *)
Fixpoint split_on (c : N) (l : list N) : list (list N) :=
  match l with
  | [] => [[]]
  | x :: r =>
      if (x =? c)%N then [] :: split_on c r
      else match split_on c r with seg :: segs => (x :: seg) :: segs | [] => [[x]] end
  end.
Definition txt (s : jstring) : list N := units s.
Definition startsWith (l p : list N) : bool := unit_prefix p l.

(** *** ws-allowlist.ts *)

Inductive WsPathCheck := WsOk (path : list N) | WsOutside | WsInvalid | WsUnknown.
Definition line_terminator (c : N) : bool := bool_decide (c ∈ [10; 13; 8232; 8233]%N).
(** [ALLOWED_WS_PATTERNS.some((p) => p.test(path))] *)
Definition allowed_ws (path : list N) : bool :=
  match split_on SLASH path with
  | [a; b; c] =>
      bool_decide (a = txt "v1" ∧ b = txt "ws") &&
      bool_decide (c = txt "resources" ∨ c = txt "alerts" ∨ c = txt "flows" ∨ c = txt "logs-search")
  | [a; b; c; x; y; z] =>
      bool_decide (a = txt "v1" ∧ b = txt "ws" ∧ (c = txt "logs" ∨ c = txt "exec")) &&
      bool_decide (x ≠ [] ∧ y ≠ [] ∧ z ≠ [])
  | _ => false
  end.
Definition checkWsPath (rawUrl : list N) : WsPathCheck :=
  let pathname := before QUESTION rawUrl in
  let path := drop 4 pathname in
  (* /^\/ws\/(.+)$/ *)
  if negb (startsWith pathname (txt "/ws/")) || bool_decide (path = []) || existsb line_terminator path
  then WsOutside
  else if negb (startsWith path (txt "v1/")) || hasTraversal path then WsInvalid
  else if negb (allowed_ws path) then WsUnknown
  else WsOk path.

(** *** api-proxy.ts *)

Definition isApiProxyPath (pathname : list N) : bool :=
  bool_decide (pathname = txt "/api") || startsWith pathname (txt "/api/").
Definition isValidBackendPath (p : list N) : bool := startsWith p (txt "v1/") && negb (hasTraversal p).
(** [/^v1\/auth\/oidc\/[^/]+\/(login|callback)$/] *)
Definition isOIDCRedirectPath (p : list N) : bool :=
  match split_on SLASH p with
  | [a; b; c; x; y] =>
      bool_decide (a = txt "v1" ∧ b = txt "auth" ∧ c = txt "oidc") && bool_decide (x ≠ [])
      && bool_decide (y = txt "login" ∨ y = txt "callback")
  | _ => false
  end.
(** [req.headers]: names in lower case, each once. *)
Definition Headers : Type := list (list N * list N).
Fixpoint header (name : list N) (hs : Headers) : option (list N) :=
  match hs with [] => None | (k, v) :: rest => if decide (k = name) then Some v else header name rest end.
Definition FORWARD_HEADERS : list (list N) :=
  txt <$> ["authorization"; "content-type"; "accept"; "x-requested-with"; "x-cluster-id"; "cookie"]%js.
Definition HOP_BY_HOP_HEADERS : list (list N) :=
  txt <$> ["connection"; "keep-alive"; "proxy-authenticate"; "proxy-authorization"; "te"; "trailers";
           "transfer-encoding"; "upgrade"]%js.
Definition forwarded (hs : Headers) : Headers :=
  omap (λ name, match header name hs with Some (c :: v) => Some (name, c :: v) | _ => None end) FORWARD_HEADERS.
(** The backend's headers that go back ([set-cookie] is copied apart). *)
Definition returned (hs : Headers) : Headers :=
  filter (λ kv, kv.1 ≠ txt "set-cookie" ∧ kv.1 ∉ HOP_BY_HOP_HEADERS) hs.
(** What the proxy does with a request: refuse it, or fetch a URL of the backend. *)
Inductive Proxied := BadPath | Fetch (target : list N) (headers : Headers) (hasBody manualRedirect : bool).
(** A fetch that fails before any header was sent back. *)
Definition proxy_failure (timedOut : bool) : Z := if timedOut then 504 else 502.
Definition handleApiProxy (backendUrl method url : list N) (hs : Headers) : Proxied :=
  let pathname := before QUESTION url in
  let backendPath := if startsWith pathname (txt "/api/") then drop 5 pathname else [] in
  if negb (isValidBackendPath backendPath) then BadPath
  else Fetch (backendUrl ++ txt "/api/" ++ backendPath ++ from QUESTION url) (forwarded hs)
         (bool_decide (method ≠ txt "GET" ∧ method ≠ txt "HEAD")) (isOIDCRedirectPath backendPath).

(** *** rewrites.ts *)

Definition CLUSTER_SCOPED_CRD_SEGMENT : list N := txt "cluster-scoped".
(** Matches [/^\/extensions\/([^/]+)\/([^/]+)\/_\/([^/]+)$/]. *)
Definition rewriteClusterScopedCrdPathname (pathname : list N) : list N :=
  match split_on SLASH pathname with
  | [e; x; g; r; u; n] =>
      if bool_decide (e = [] ∧ x = txt "extensions" ∧ u = txt "_" ∧ g ≠ [] ∧ r ≠ [] ∧ n ≠ [])
      then txt "/extensions/" ++ g ++ [SLASH] ++ r ++ [SLASH] ++ CLUSTER_SCOPED_CRD_SEGMENT ++ [SLASH] ++ n
      else pathname
  | _ => pathname
  end.
Definition applyClusterScopedCrdRewrite (url : list N) : list N :=
  let pathname := before QUESTION url in
  let rewritten := rewriteClusterScopedCrdPathname pathname in
  if decide (rewritten = pathname) then url else rewritten ++ from QUESTION url.

(** *** static.ts *)

(** [node:path] on absolute POSIX paths: empty and [.] segments vanish, [..]
    takes the one before it away. *)
Definition push_segment (acc : list (list N)) (seg : list N) : list (list N) :=
  if decide (seg = [] ∨ seg = [46]%N) then acc
  else if decide (seg = [46; 46]%N) then removelast acc else acc ++ [seg].
Definition normal_segments (p : list N) : list (list N) := foldl push_segment [] (split_on SLASH p).
Definition absolute (segs : list (list N)) : list N :=
  match segs with [] => [SLASH] | _ => segs ≫= cons SLASH end.
(** [resolve(p)] of an absolute path, and [join(dir, p)]. *)
Definition resolve (p : list N) : list N := absolute (normal_segments p).
Definition join (dir p : list N) : list N := resolve (dir ++ [SLASH] ++ p).

Section Static.
(** [existsSync], [statSync(p).isFile()] and [realpathSync], which throws where
    it is [None]. *)
Context (existsSync isFile : list N → bool) (realpath : list N → option (list N)).

Inductive StaticResolution := S403 | S404 | S200 (filePath : list N) (immutable : bool).
Definition inside (dir p : list N) : bool := bool_decide (p = dir) || startsWith p (dir ++ [SLASH]).
Fixpoint strip_slashes (l : list N) : list N :=
  match l with x :: r => if (x =? 47)%N then strip_slashes r else l | [] => [] end.
Definition resolveStaticFile (clientDirAbs url : list N) : StaticResolution :=
  let rawPath := before QUESTION url in
  if units_include [92]%N rawPath || units_include [46; 46]%N rawPath
     || units_include [37; 50; 101]%N rawPath || units_include [37; 50; 69]%N rawPath then S403 else
  match decode_units rawPath with
  | None => S403
  | Some decoded =>
      if units_include [92]%N decoded || units_include [46; 46]%N decoded then S403 else
      let clientDirResolved := resolve clientDirAbs in
      let target := resolve (join clientDirResolved decoded) in
      if negb (inside clientDirResolved target) then S403
      else if negb (existsSync target) then S404
      else if negb (isFile target) then S404
      else match realpath target, realpath clientDirResolved with
        | Some real, Some clientDirReal =>
            if negb (inside clientDirReal real) then S403
            else S200 target (startsWith (strip_slashes decoded) (txt "_astro/"))
        | _, _ => S404
        end
  end.
Inductive StaticAnswer := NotStatic | Forbidden | MethodNotAllowed | File (path : list N) (immutable body : bool).
Definition serveStatic (clientDirAbs method url : list N) : StaticAnswer :=
  if bool_decide (url = txt "/") || startsWith url (txt "/?") then NotStatic else
  match resolveStaticFile clientDirAbs url with
  | S404 => NotStatic
  | S403 => Forbidden
  | S200 p imm =>
      if bool_decide (method ≠ txt "GET" ∧ method ≠ txt "HEAD") then MethodNotAllowed
      else File p imm (bool_decide (method ≠ txt "HEAD"))
  end.

(** *** oidc-token-exchange.ts *)

Definition OIDC_TOKEN_EXCHANGE_PATH : list N := txt "/api/auth/oidc-token-exchange".
Definition COOKIE_NAME : list N := txt "oidc_access_token".
Definition trim_units (l : list N) : list N := units (js_trim (JS l)).
(** [pair.split("=")] and [rest.join("=")]: the name, and all that follows its
    first [=]. *)
Definition parse_pair (pair : list N) : list N * list N :=
  let p := trim_units pair in (before 61 p, drop 1 (from 61 p)).
Definition parseCookies (header : list N) : list (list N * list N) :=
  filter (λ kv, kv.1 ≠ []) (parse_pair <$> split_on 59 header).
(** [cookies[name]]: the last pair of that name, as each one overwrites. *)
Definition cookie (name : list N) (cs : list (list N * list N)) : option (list N) :=
  snd <$> last (filter (λ kv, kv.1 = name) cs).
Inductive Exchange := Ex405 | Ex403 | Ex401 | Ex200 (accessToken : list N).
(** [method] is one the dispatch let through, which are all in capitals. *)
Definition handleOIDCTokenExchange (method : list N) (requestedWith : option (list N)) (cookieHeader : list N)
    : Exchange :=
  if bool_decide (method ≠ txt "POST") then Ex405
  else match requestedWith with
    | None | Some [] => Ex403
    | Some _ =>
        match cookie COOKIE_NAME (parseCookies cookieHeader) with
        | None | Some [] => Ex401
        | Some t => Ex200 t
        end
    end.

(** *** dispatch.ts *)

Definition ALLOWED_METHODS : list (list N) :=
  txt <$> ["GET"; "HEAD"; "POST"; "PUT"; "PATCH"; "DELETE"; "OPTIONS"]%js.
Definition MAX_URL_LENGTH : Z := 8192.
Record Incoming := {
  method : list N;
  url : list N;
  headers : Headers
}.
Definition requestedWith (req : Incoming) : option (list N) := header (txt "x-requested-with") (headers req).
Definition cookieHeader (req : Incoming) : list N := default [] (header (txt "cookie") (headers req)).
Inductive Answered :=
  | Rejected (status : Z)
  | WsAnswer (status : Z)
  | Exchanged (e : Exchange)
  | ProxyAnswer (p : Proxied)
  | StaticServed (a : StaticAnswer)
  | Astro (url : list N).
Definition rejectMalformed (req : Incoming) : option Z :=
  if negb (bool_decide (method req ∈ ALLOWED_METHODS)) then Some 405
  else if MAX_URL_LENGTH <? Z.of_nat (length (url req)) then Some 414 else None.
Definition handleWsHttpRequest (u : list N) : option Z :=
  if negb (bool_decide (u = txt "/ws")) && negb (startsWith u (txt "/ws/")) then None
  else Some (match checkWsPath u with WsOk _ => 426 | WsInvalid => 400 | _ => 404 end).
Definition dispatchApi (backendUrl : list N) (req : Incoming) : option Answered :=
  let pathname := before QUESTION (url req) in
  if bool_decide (pathname = OIDC_TOKEN_EXCHANGE_PATH)
  then Some (Exchanged (handleOIDCTokenExchange (method req) (requestedWith req) (cookieHeader req)))
  else if isApiProxyPath pathname then Some (ProxyAnswer (handleApiProxy backendUrl (method req) (url req) (headers req)))
  else None.
Definition createRequestListener (backendUrl clientDir : list N) (req : Incoming) : Answered :=
  match rejectMalformed req with
  | Some st => Rejected st
  | None =>
      match handleWsHttpRequest (url req) with
      | Some st => WsAnswer st
      | None =>
          match dispatchApi backendUrl req with
          | Some a => a
          | None =>
              match serveStatic clientDir (method req) (url req) with
              | NotStatic => Astro (applyClusterScopedCrdRewrite (url req))
              | a => StaticServed a
              end
          end
      end
  end.
End Static.

(** ** Decoding *)

(** [n] decodings, one after the other. *)
Fixpoint decode_times (n : nat) (l : list N) : option (list N) :=
  match n with O => Some l | S n' => decode_units l ≫= decode_times n' end.

Lemma unit_prefix_app p l : unit_prefix p (p ++ l) = true.
Proof. induction p as [|a p IH]; [done|]. cbn. by rewrite N.eqb_refl, IH. Qed.
Lemma unit_prefix_spec p l : unit_prefix p l = true → ∃ r, l = p ++ r.
Proof.
  revert l. induction p as [|a p IH]; intros l H; [by exists l|]. destruct l as [|b l]; [done|].
  cbn in H. apply andb_true_iff in H as [->%N.eqb_eq H]. destruct (IH l H) as [r ->]. by exists r.
Qed.
Lemma units_include_mid p a b : units_include p (a ++ p ++ b) = true.
Proof.
  induction a as [|x a IH].
  - cbn [app]. pose proof (unit_prefix_app p b) as H. destruct (p ++ b); cbn [units_include]; by rewrite H.
  - cbn. rewrite IH. apply orb_true_r.
Qed.
Lemma no_percent l : has_percent l = false → Forall (λ c, c ≠ 37%N) l.
Proof.
  unfold has_percent. intros H. apply Forall_forall. intros c Hc ->. apply list_elem_of_split in Hc as (a & b & ->).
  pose proof (units_include_mid [37%N] a b) as H'. cbn [app] in H'. congruence.
Qed.
Lemma tokens_raw p l : Forall (λ c, c ≠ 37%N) p → tokens (p ++ l) = app (Raw <$> p) <$> tokens l.
Proof.
  induction 1 as [|c p Hc _ IH]; cbn; [by destruct (tokens l)|].
  rewrite (proj2 (N.eqb_neq c 37) Hc), IH. by destruct (tokens l).
Qed.
Lemma detok_raw p ts : detok ((Raw <$> p) ++ ts) = app p <$> detok ts.
Proof. induction p as [|c p IH]; cbn; [by destruct (detok ts)|]. rewrite IH. by destruct (detok ts). Qed.
(** What has no escape decodes to itself. *)
Lemma decode_prefix p l : Forall (λ c, c ≠ 37%N) p → decode_units (p ++ l) = app p <$> decode_units l.
Proof.
  intros Hp. unfold decode_units. rewrite tokens_raw by done. destruct (tokens l) as [ts|]; [|done].
  cbn [fmap option_fmap option_map mbind option_bind]. apply detok_raw.
Qed.
Lemma decode_plain l : has_percent l = false → decode_units l = Some l.
Proof. intros H. rewrite <- (app_nil_r l) at 1. rewrite decode_prefix by (by apply no_percent). cbn. by rewrite app_nil_r. Qed.
Lemma decode_times_prefix n p l : Forall (λ c, c ≠ 37%N) p → decode_times n (p ++ l) = app p <$> decode_times n l.
Proof.
  intros Hp. revert l. induction n as [|n IH]; intros l; [done|]. cbn. rewrite decode_prefix by done.
  destruct (decode_units l); [|done]. cbn. apply IH.
Qed.
Lemma decode_times_fixed n l : decode_units l = Some l → decode_times n l = Some l.
Proof. intros H. induction n as [|n IH]; [done|]. cbn. by rewrite H. Qed.
(** A loop that ends has seen every decoding there is. *)
Lemma decode_loop_all n forms cur fs : decode_loop n forms cur = Some fs →
  ∃ more, fs = forms ++ more ∧ ∀ k, ∃ s, decode_times k cur = Some s ∧ s ∈ cur :: more.
Proof.
  assert (Hfix : ∀ (forms : list (list N)) c, decode_units c = Some c → ∃ more, forms = forms ++ more ∧
    ∀ k, ∃ s, decode_times k c = Some s ∧ s ∈ c :: more).
  { intros fs' c Hc. exists []. split; [by rewrite app_nil_r|]. intros k. exists c.
    split; [by apply decode_times_fixed|by left]. }
  revert forms cur. induction n as [|n IH]; intros forms cur; cbn [decode_loop].
  - destruct (has_percent cur) eqn:E; [done|]. intros [= <-]. by apply Hfix, decode_plain.
  - destruct (has_percent cur) eqn:E; cbn [negb]; [|intros [= <-]; by apply Hfix, decode_plain].
    destruct (decode_units cur) as [next|] eqn:Ed; [|done]. case_decide as En.
    { intros [= <-]. apply Hfix. by rewrite Ed, En. }
    intros H. apply IH in H as (more & -> & Hall).
    exists (next :: more). split; [by rewrite <- (assoc_L (++))|]. intros [|k].
    + exists cur. split; [done|by left].
    + cbn [decode_times]. rewrite Ed. cbn. destruct (Hall k) as (s & Hs & Hin). exists s. split; [done|by right].
Qed.
(** A path without traversal has none at any depth of decoding. *)
Lemma safe_at_every_depth p : hasTraversal p = false →
  ∀ n, ∃ s, decode_times n p = Some s ∧ TRAVERSAL_PATTERN s = false.
Proof.
  unfold hasTraversal. destruct (decodedForms p) as [forms|] eqn:E; [|done]. intros Hex n.
  unfold decodedForms in E. apply decode_loop_all in E as (more & -> & Hall). destruct (Hall n) as (s & Hs & Hin).
  exists s. split; [done|]. destruct (TRAVERSAL_PATTERN s) eqn:Et; [|done].
  rewrite <- Hex. symmetry. apply existsb_exists. exists s. split; [by apply list_elem_of_In|done].
Qed.

(** ** Segments *)

Lemma split_on_app c seg l : Forall (λ x, x ≠ c) seg → split_on c (seg ++ c :: l) = seg :: split_on c l.
Proof.
  induction 1 as [|x seg Hx _ IH]; cbn; [by rewrite N.eqb_refl|].
  by rewrite (proj2 (N.eqb_neq x c) Hx), IH.
Qed.
Lemma split_on_one c seg : Forall (λ x, x ≠ c) seg → split_on c seg = [seg].
Proof.
  induction 1 as [|x seg Hx _ IH]; [done|]. cbn. by rewrite (proj2 (N.eqb_neq x c) Hx), IH.
Qed.
(** The parts of a list between its separators. *)
Fixpoint glue (c : N) (segs : list (list N)) : list N :=
  match segs with [] => [] | [s] => s | s :: rest => s ++ c :: glue c rest end.
Lemma split_on_cons c l : ∃ s segs, split_on c l = s :: segs.
Proof. induction l as [|x l (s & segs & E)]; cbn; [by eexists _, _|]. rewrite E. destruct (_ =? _)%N; by eexists _, _. Qed.
Lemma split_on_glue c l : glue c (split_on c l) = l.
Proof.
  induction l as [|x l IH]; [done|]. cbn. destruct (split_on_cons c l) as (s & segs & E). rewrite E in *.
  destruct (N.eqb_spec x c) as [-> |Hx].
  - cbn [glue]. cbn in *. by rewrite IH.
  - destruct segs as [|s' segs]; cbn in *; by rewrite IH.
Qed.
Lemma split_on_free c l : Forall (Forall (λ x, x ≠ c)) (split_on c l).
Proof.
  induction l as [|x l IH]; cbn; [by repeat constructor|]. destruct (split_on_cons c l) as (s & segs & E). rewrite E in *.
  destruct (N.eqb_spec x c) as [-> |Hx]; [by constructor|].
  apply Forall_cons in IH as [H1 H2]. by repeat constructor.
Qed.
Lemma split_on_part c l s : s ∈ split_on c l → ∃ a b, l = a ++ s ++ b.
Proof.
  intros Hin. rewrite <- (split_on_glue c l). revert Hin. generalize (split_on c l). clear l. intros segs. induction segs as [|s0 segs IH]; [by intros H%elem_of_nil|].
  intros [-> |H]%elem_of_cons.
  - destruct segs as [|s1 segs]; [exists [], []; cbn; by rewrite app_nil_r|]. by exists [], (c :: glue c (s1 :: segs)).
  - destruct (IH H) as (a & b & E). destruct segs as [|s1 segs]; [by apply elem_of_nil in H|].
    exists (s0 ++ c :: a), b. cbn [glue]. cbn [glue] in E. rewrite E. by rewrite <- (assoc_L (++)).
Qed.
Lemma push_plain acc segs : Forall (λ s, s ≠ [46; 46]%N) segs →
  foldl push_segment acc segs = acc ++ filter (λ s, ¬ (s = [] ∨ s = [46]%N)) segs.
Proof.
  intros H. revert acc. induction H as [|s segs Hs _ IH]; intros acc; [by rewrite app_nil_r|]. cbn [foldl]. rewrite IH, filter_cons.
  unfold push_segment. destruct (decide (s = [] ∨ s = [46]%N)) as [E|E].
  - rewrite decide_False by tauto. done.
  - rewrite (decide_False (P := s = [46; 46]%N)) by done. rewrite decide_True by done. by rewrite <- (assoc_L (++)).
Qed.

(** ** No request escapes *)

(** A URL parser's reading of a path: a backslash counts as a slash. *)
Definition web_slash (c : N) : N := if (c =? 92)%N then SLASH else c.
Definition url_segments (p : list N) : list (list N) := foldl push_segment [] (split_on SLASH (web_slash <$> p)).

Lemma dots_fmap l : units_include [46; 46]%N (web_slash <$> l) = units_include [46; 46]%N l.
Proof.
  assert (H : ∀ c, (46 =? web_slash c)%N = (46 =? c)%N).
  { intros c. unfold web_slash, SLASH. destruct (N.eqb_spec c 92) as [-> |]; done. }
  induction l as [|a l IH]; [done|]. rewrite fmap_cons. cbn [units_include unit_prefix]. rewrite H, IH.
  destruct l as [|b l]; [done|]. rewrite fmap_cons. cbn [unit_prefix]. by rewrite H.
Qed.
Lemma no_dots_segments c l : units_include [46; 46]%N l = false → Forall (λ s, s ≠ [46; 46]%N) (split_on c l).
Proof.
  intros H. apply Forall_forall. intros s Hs ->. apply split_on_part in Hs as (a & b & ->).
  by rewrite units_include_mid in H.
Qed.
Lemma pattern_dots l : TRAVERSAL_PATTERN l = false → units_include [46; 46]%N l = false.
Proof. unfold TRAVERSAL_PATTERN. rewrite !orb_false_iff. tauto. Qed.
(** Under [/api/v1/], however often it is decoded on the way. *)
Definition under_v1 (p : list N) : Prop :=
  ∀ n, ∃ s rest, decode_times n p = Some s ∧ url_segments (txt "/api/" ++ s) = txt "api" :: txt "v1" :: rest.
Lemma valid_under_v1 p : isValidBackendPath p = true → under_v1 p.
Proof.
  unfold isValidBackendPath. rewrite andb_true_iff, negb_true_iff. intros [Hp Hs] n.
  apply unit_prefix_spec in Hp as [r ->].
  destruct (safe_at_every_depth _ Hs n) as (s & Hd & Ht).
  rewrite decode_times_prefix in Hd by (by repeat constructor).
  destruct (decode_times n r) as [r'|] eqn:Er; [|done]. cbn [fmap option_fmap option_map] in Hd.
  injection Hd as <-. exists (txt "v1/" ++ r').
  assert (E : split_on SLASH (web_slash <$> (txt "/api/" ++ txt "v1/" ++ r')) =
    [] :: txt "api" :: txt "v1" :: split_on SLASH (web_slash <$> r')).
  { rewrite !fmap_app. change (web_slash <$> txt "/api/") with (SLASH :: txt "api" ++ [SLASH]).
    change (web_slash <$> txt "v1/") with (txt "v1" ++ [SLASH]). cbn [app]. rewrite <- !(assoc_L (++)). cbn [app].
    change (SLASH :: txt "api" ++ SLASH :: ?x) with ([] ++ SLASH :: txt "api" ++ SLASH :: x).
    rewrite !split_on_app; [done|by repeat constructor..]. }
  eexists. split; [rewrite decode_times_prefix, Er by (by repeat constructor); done|].
  unfold url_segments. rewrite E, push_plain; [reflexivity|].
  repeat (constructor; [done|]). apply no_dots_segments. rewrite dots_fmap.
  apply pattern_dots in Ht. destruct (units_include [46; 46]%N r') eqn:Er'; [|done].
  rewrite <- Ht. cbn. by rewrite Er'.
Qed.

(** A segment as [resolve] leaves it. *)
Definition plain (s : list N) : Prop := s ≠ [] ∧ s ≠ [46]%N ∧ s ≠ [46; 46]%N ∧ Forall (λ x, x ≠ SLASH) s.
Lemma removelast_Forall {A} (P : A → Prop) l : Forall P l → Forall P (removelast l).
Proof.
  induction 1 as [|x l Hx Hl IH]; [constructor|]. cbn. destruct l; [constructor|]. by constructor.
Qed.
Lemma normal_plain p : Forall plain (normal_segments p).
Proof.
  unfold normal_segments. pose proof (split_on_free SLASH p) as Hf. revert Hf. generalize (split_on SLASH p). intros segs.
  assert (H : Forall plain []) by constructor. revert H. generalize (@nil (list N)).
  induction segs as [|s segs IH]; intros acc Ha Hf; [done|]. apply Forall_cons in Hf as [Hs Hf]. cbn [foldl]. apply IH; [|done].
  unfold push_segment. case_decide as E1; [done|]. case_decide as E2; [by apply removelast_Forall|].
  apply Forall_app. split; [done|]. constructor; [|constructor]. split_and!; tauto || done.
Qed.
Lemma split_segments segs d : Forall (Forall (λ x, x ≠ SLASH)) segs →
  split_on SLASH ((segs ≫= cons SLASH) ++ SLASH :: d) = [] :: segs ++ split_on SLASH d.
Proof.
  induction 1 as [|s segs Hs _ IH]; [done|]. cbn [mbind list_bind]. rewrite <- (assoc_L (++)). cbn [app split_on].
  rewrite N.eqb_refl.
  assert (Hsh : ∃ X, (segs ≫= cons SLASH) ++ SLASH :: d = SLASH :: X)
    by (destruct segs; [by eexists|by eexists]).
  destruct Hsh as [X EX]. rewrite EX in *. rewrite split_on_app by done. f_equal. f_equal.
  cbn [split_on] in IH. rewrite N.eqb_refl in IH. by injection IH.
Qed.
Lemma filter_plain segs : Forall plain segs → filter (λ s, ¬ (s = [] ∨ s = [46]%N)) segs = segs.
Proof.
  induction 1 as [|s segs (H1 & H2 & _) _ IH]; [done|]. rewrite filter_cons, decide_True by tauto. by rewrite IH.
Qed.
Lemma normal_below segs d : Forall plain segs → units_include [46; 46]%N d = false →
  normal_segments (absolute segs ++ SLASH :: d) = segs ++ filter (λ s, ¬ (s = [] ∨ s = [46]%N)) (split_on SLASH d).
Proof.
  intros Hp Hd. unfold normal_segments.
  assert (E : ∃ pre, Forall (λ s, s = []) pre ∧ split_on SLASH (absolute segs ++ SLASH :: d) = pre ++ segs ++ split_on SLASH d).
  { destruct segs as [|s segs]; [exists [[]; []]; split; [by repeat constructor|done]|].
    exists [[]]. split; [by repeat constructor|]. apply (split_segments (s :: segs)).
    eapply Forall_impl; [exact Hp|]. by intros x (_ & _ & _ & ?). }
  destruct E as (pre & Hpre & ->). rewrite push_plain.
  - cbn [app]. rewrite !filter_app, (filter_plain segs Hp).
    assert (E : filter (λ s, ¬ (s = [] ∨ s = [46]%N)) pre = []); [|by rewrite E].
    clear - Hpre. induction Hpre as [|s pre -> _ IH]; [done|]. rewrite filter_cons, decide_False by tauto. done.
  - apply Forall_app. split; [eapply Forall_impl; [exact Hpre|]; by intros ? ->|]. apply Forall_app.
    split; [|by apply no_dots_segments]. eapply Forall_impl; [exact Hp|]. by intros x (_ & _ & ? & _).
Qed.
Lemma normal_absolute segs : Forall plain segs → normal_segments (absolute segs) = segs.
Proof.
  intros Hp. destruct (decide (segs = [])) as [-> |Hne]; [done|].
  destruct (exists_last Hne) as (init & lst & ->). apply Forall_app in Hp as [Hi Hl]. apply Forall_cons in Hl as [Hl _].
  assert (E : split_on SLASH (absolute (init ++ [lst])) = [] :: init ++ [lst]).
  { assert (Ea : absolute (init ++ [lst]) = (init ≫= cons SLASH) ++ SLASH :: lst).
    { unfold absolute. destruct (init ++ [lst]) eqn:Ei; [by destruct init|]. rewrite <- Ei, bind_app. cbn. by rewrite app_nil_r. }
    rewrite Ea, split_segments, split_on_one; [done|apply Hl|]. eapply Forall_impl; [exact Hi|]. by intros x (_ & _ & _ & ?). }
  unfold normal_segments. rewrite E, push_plain.
  - cbn [app]. rewrite filter_cons, decide_False by tauto. by apply filter_plain, Forall_app_2; [|constructor].
  - constructor; [done|]. apply Forall_app_2; [|constructor; [apply Hl|constructor]].
    eapply Forall_impl; [exact Hi|]. by intros x (_ & _ & ? & _).
Qed.
Lemma below_inside segs rest : Forall plain segs → inside (absolute segs) (absolute (segs ++ rest)) = true ∨ segs = [].
Proof.
  intros _. destruct segs as [|s segs]; [by right|]. left. unfold inside. apply orb_true_iff.
  destruct rest as [|r rest]; [left; by rewrite app_nil_r, bool_decide_eq_true|right]. unfold startsWith.
  assert (E : absolute ((s :: segs) ++ r :: rest) = (absolute (s :: segs) ++ [SLASH]) ++ r ++ (rest ≫= cons SLASH)).
  { change (absolute (s :: segs)) with ((s :: segs) ≫= cons SLASH).
    change (absolute ((s :: segs) ++ r :: rest)) with (((s :: segs) ++ r :: rest) ≫= cons SLASH).
    by rewrite bind_app, <- !(assoc_L (++)). }
  rewrite E.
  apply unit_prefix_app.
Qed.

(** The file a path of the site resolves to is below the client directory. *)
Lemma static_target dir d : units_include [46; 46]%N d = false →
  ∃ rest, Forall plain rest ∧ resolve (join (resolve dir) d) = absolute (normal_segments dir ++ rest).
Proof.
  intros Hd. exists (filter (λ s, ¬ (s = [] ∨ s = [46]%N)) (split_on SLASH d)).
  assert (Hr : Forall plain (filter (λ s, ¬ (s = [] ∨ s = [46]%N)) (split_on SLASH d))).
  { apply Forall_forall. intros s [H1 H2]%list_elem_of_filter.
    pose proof (no_dots_segments SLASH d Hd) as H3. pose proof (split_on_free SLASH d) as H4.
    rewrite Forall_forall in H3. rewrite Forall_forall in H4. split_and!; [tauto|tauto|by apply H3|by apply H4]. }
  split; [done|]. unfold join, resolve. cbn [app]. rewrite normal_below by (done || apply normal_plain).
  by rewrite normal_absolute by (apply Forall_app_2; [apply normal_plain|done]).
Qed.
(** Only the allowlisted headers go to the backend, as they came. *)
Lemma forwarded_names hs : (forwarded hs).*1 `sublist_of` FORWARD_HEADERS.
Proof.
  unfold forwarded. induction FORWARD_HEADERS as [|n ns IH]; cbn; [constructor|].
  destruct (header n hs) as [[|c v]|]; cbn; constructor; exact IH.
Qed.
Lemma forwarded_values hs name v : (name, v) ∈ forwarded hs → header name hs = Some v.
Proof.
  unfold forwarded. rewrite list_elem_of_omap. intros (n & _ & H). destruct (header n hs) as [[|c w]|] eqn:E; [done| |done].
  by injection H as <- <-.
Qed.
Section Escape.
Context (existsSync isFile : list N → bool) (realpath : list N → option (list N)).
Lemma static_contained dir u p imm : resolveStaticFile existsSync isFile realpath dir u = S200 p imm →
  (∃ rest, Forall plain rest ∧ p = absolute (normal_segments dir ++ rest)) ∧ isFile p = true ∧
  ∃ real root, realpath p = Some real ∧ realpath (resolve dir) = Some root ∧ inside root real = true.
Proof.
  unfold resolveStaticFile. destruct (_ || _ || _ || _); [done|]. destruct (decode_units _) as [d|]; [|done].
  destruct (units_include [92]%N d || units_include [46; 46]%N d) eqn:Ed; [done|]. apply orb_false_iff in Ed as [_ Ed].
  cbv zeta. destruct (inside (resolve dir) _); [|done]. cbn [negb]. destruct (existsSync _); [|done]. cbn [negb].
  destruct (isFile _) eqn:Ef; [|done]. cbn [negb]. destruct (realpath (resolve (join _ _))) as [real|] eqn:Er; [|done].
  destruct (realpath (resolve dir)) as [root|] eqn:Eo; [|done]. destruct (inside root real) eqn:Ei; [|done].
  cbn [negb]. intros [= <- _]. split_and!; [by apply static_target|done|by exists real, root].
Qed.

(** C26. Whatever a browser asks of the frontend server: what it proxies goes to the
    backend under [/api/v1/], however many times anything on the way decodes the
    path, with no header but the allowlisted ones; a file it serves is below the client directory, also once symbolic
    links are followed; a token leaves the cookie only for a POST that carries
    the CSRF header; and nothing under [/ws/] or [/api/] reaches the pages. *)
Theorem no_request_escapes backendUrl dir req :
  match createRequestListener existsSync isFile realpath backendUrl dir req with
  | ProxyAnswer (Fetch target hs _ _) =>
      hs.*1 `sublist_of` FORWARD_HEADERS ∧ (∀ name v, (name, v) ∈ hs → header name (headers req) = Some v) ∧
      ∃ path query, target = backendUrl ++ txt "/api/" ++ path ++ query ∧ under_v1 path ∧
        (query = [] ∨ ∃ q, query = QUESTION :: q)
  | StaticServed (File p _ _) =>
      (∃ rest, Forall plain rest ∧ p = absolute (normal_segments dir ++ rest)) ∧ isFile p = true ∧
      (∃ real root, realpath p = Some real ∧ realpath (resolve dir) = Some root ∧ inside root real = true) ∧
      (method req = txt "GET" ∨ method req = txt "HEAD")
  | Exchanged (Ex200 token) =>
      method req = txt "POST" ∧ (∃ c v, requestedWith req = Some (c :: v)) ∧
      cookie COOKIE_NAME (parseCookies (cookieHeader req)) = Some token ∧ token ≠ []
  | Astro u =>
      method req ∈ ALLOWED_METHODS ∧ Z.of_nat (length (url req)) <= MAX_URL_LENGTH ∧
      startsWith (url req) (txt "/ws/") = false ∧ startsWith (before QUESTION (url req)) (txt "/api/") = false
  | _ => True
  end.
Proof.
  unfold createRequestListener, rejectMalformed.
  case_bool_decide as Hm; cbn [negb]; [|done]. destruct (Z.ltb_spec MAX_URL_LENGTH (Z.of_nat (length (url req)))) as [Hl|Hl]; [done|].
  destruct (handleWsHttpRequest (url req)) as [st|] eqn:Ews; [done|].
  destruct (dispatchApi backendUrl req) as [a|] eqn:Eapi.
  - unfold dispatchApi in Eapi. case_bool_decide.
    + injection Eapi as <-. unfold handleOIDCTokenExchange. case_bool_decide as Hp; [done|].
      destruct (requestedWith req) as [[|c v]|] eqn:Er; [done| |done].
      destruct (cookie _ _) as [[|x t]|] eqn:Ec; [done| |done]. split_and!; [done|by eauto|done|done].
    + destruct (isApiProxyPath _); [|done]. injection Eapi as <-. unfold handleApiProxy.
      destruct (isValidBackendPath _) eqn:Ev; [|done]. cbn [negb]. split; [apply forwarded_names|].
      split; [apply forwarded_values|].
      eexists _, _. split; [reflexivity|]. split; [by apply valid_under_v1|].
      clear. induction (url req) as [|x l IH]; [by left|]. cbn. destruct (N.eqb_spec x QUESTION) as [-> |]; [right; by eexists|done].
  - unfold serveStatic. destruct (bool_decide (url req = txt "/") || _) eqn:Eroot; [|destruct (resolveStaticFile _ _ _ _ _) as [| |p imm] eqn:Es].
    2: done.
    3: { destruct (bool_decide (method req ≠ txt "GET" ∧ method req ≠ txt "HEAD")) eqn:Hme; [done|].
         apply bool_decide_eq_false in Hme. destruct (static_contained _ _ _ _ Es) as (H1 & H2 & H3).
         cbv match. split_and!; [done..|]. destruct (decide (method req = txt "GET")); [by left|right].
         destruct (decide (method req = txt "HEAD")); [done|]. by destruct Hme. }
    all: split_and!; [done|lia| |].
    1,3: unfold handleWsHttpRequest in Ews; destruct (startsWith (url req) (txt "/ws/")); [|done];
      rewrite andb_false_r in Ews; done.
    all: unfold dispatchApi in Eapi; destruct (bool_decide (before QUESTION (url req) = OIDC_TOKEN_EXCHANGE_PATH)); [done|]; unfold isApiProxyPath in Eapi;
      destruct (startsWith (before QUESTION (url req)) (txt "/api/")); [|done]; rewrite orb_true_r in Eapi; done.
Qed.
End Escape.

(** ** The WebSocket allowlist *)

Definition slash_free (s : list N) : Prop := s ≠ [] ∧ Forall (λ x, x ≠ SLASH) s.
(** The six endpoints. *)
Definition ws_endpoint (p : list N) : Prop :=
  p ∈ txt <$> ["v1/ws/resources"; "v1/ws/alerts"; "v1/ws/flows"; "v1/ws/logs-search"]%js ∨
  ∃ verb ns pod container, verb ∈ txt <$> ["v1/ws/logs/"; "v1/ws/exec/"]%js ∧
    slash_free ns ∧ slash_free pod ∧ slash_free container ∧
    p = verb ++ ns ++ [SLASH] ++ pod ++ [SLASH] ++ container.
Lemma allowed_endpoint p : allowed_ws p = true ↔ ws_endpoint p.
Proof.
  unfold ws_endpoint. split.
  - unfold allowed_ws. pose proof (split_on_glue SLASH p) as Hg. pose proof (split_on_free SLASH p) as Hf.
    destruct (split_on SLASH p) as [|a [|b [|c [|x [|y [|z [|? ?]]]]]]]; try done.
    + rewrite andb_true_iff, !bool_decide_eq_true. intros [[-> ->] Hc]. left. subst p. cbn [glue].
      apply list_elem_of_fmap. destruct Hc as [-> |[-> |[-> | ->]]].
      * exists "v1/ws/resources"%js. split; [done|rewrite !elem_of_cons; tauto].
      * exists "v1/ws/alerts"%js. split; [done|rewrite !elem_of_cons; tauto].
      * exists "v1/ws/flows"%js. split; [done|rewrite !elem_of_cons; tauto].
      * exists "v1/ws/logs-search"%js. split; [done|rewrite !elem_of_cons; tauto].
    + rewrite andb_true_iff, !bool_decide_eq_true. intros [(-> & -> & Hc) (Hx & Hy & Hz)]. right.
      repeat match goal with H : Forall _ (_ :: _) |- _ => apply Forall_cons in H as [? H] end. subst p. cbn [glue].
      assert (Hv : ∃ verb, verb ∈ txt <$> ["v1/ws/logs/"; "v1/ws/exec/"]%js ∧ verb = txt "v1/ws/" ++ c ++ [SLASH]).
      { destruct Hc as [-> | ->]; eexists; (split; [|reflexivity]); apply list_elem_of_fmap;
          [exists "v1/ws/logs/"%js|exists "v1/ws/exec/"%js]; (split; [done|rewrite !elem_of_cons; tauto]). }
      destruct Hv as (verb & Hin & Ev). exists verb, x, y, z. split_and!; [done|done..|]. rewrite Ev.
      change (txt "v1/ws/") with (txt "v1" ++ SLASH :: txt "ws" ++ [SLASH]). cbn [app]. by rewrite <- !(assoc_L (++)).
  - intros [H|(verb & ns & pod & ct & Hv & [Hn0 Hn] & [Hp0 Hp] & [Hc0 Hc] & ->)].
    + apply list_elem_of_fmap in H as (s & -> & Hs). rewrite !elem_of_cons, elem_of_nil in Hs.
      destruct Hs as [-> |[-> |[-> |[-> |[]]]]]; by vm_compute.
    + apply list_elem_of_fmap in Hv as (s & -> & Hs). rewrite !elem_of_cons, elem_of_nil in Hs. unfold allowed_ws.
      assert (E : ∃ w, (w = txt "logs" ∨ w = txt "exec") ∧ txt s = txt "v1" ++ SLASH :: txt "ws" ++ SLASH :: w ++ [SLASH]).
      { destruct Hs as [-> |[-> |[]]]; [exists (txt "logs")|exists (txt "exec")]; auto. }
      destruct E as (w & Hw & ->). assert (Hwf : Forall (λ x, x ≠ SLASH) w) by (destruct Hw as [-> | ->]; by repeat constructor).
      rewrite <- !(assoc_L (++)). cbn [app]. rewrite <- !(assoc_L (++)). cbn [app]. rewrite <- !(assoc_L (++)). cbn [app].
      rewrite !split_on_app, split_on_one by (done || by repeat constructor).
      by rewrite !bool_decide_eq_true_2.
Qed.

(** The WebSocket guard lets through exactly the six endpoints, with a namespace,
    a pod and a container that are single segments, in a path that is free of
    traversal at every depth of decoding; what it lets through stays under
    [/api/v1/] on the backend; and a path without escapes is judged by its dots
    and empty segments alone. *)
Theorem ws_allowlist_exact u :
  (∀ p, checkWsPath u = WsOk p ↔
     before QUESTION u = txt "/ws/" ++ p ∧ ws_endpoint p ∧ hasTraversal p = false ∧
     existsb line_terminator p = false) ∧
  (∀ p, checkWsPath u = WsOk p → under_v1 p) ∧
  (∀ p, has_percent p = false →
     hasTraversal p = units_include [46; 46]%N p || units_include [47; 47]%N p).
Proof.
  assert (Hshape : ∀ p, ws_endpoint p → p ≠ [] ∧ startsWith p (txt "v1/") = true).
  { intros p [H|(verb & ns & pod & ct & Hv & _ & _ & _ & ->)].
    - apply list_elem_of_fmap in H as (s & -> & Hs). rewrite !elem_of_cons, elem_of_nil in Hs.
      destruct Hs as [-> |[-> |[-> |[-> |[]]]]]; split; done.
    - apply list_elem_of_fmap in Hv as (s & -> & Hs). rewrite !elem_of_cons, elem_of_nil in Hs.
      destruct Hs as [-> |[-> |[]]]; split; done. }
  assert (Hiff : ∀ p, checkWsPath u = WsOk p ↔
     before QUESTION u = txt "/ws/" ++ p ∧ ws_endpoint p ∧ hasTraversal p = false ∧ existsb line_terminator p = false).
  { intros p. unfold checkWsPath. cbv zeta. split.
    - destruct (startsWith _ (txt "/ws/")) eqn:E1; cbn [negb orb]; [|done]. case_bool_decide as E2; cbn [orb]; [done|].
      destruct (existsb line_terminator _) eqn:E3; [done|]. destruct (startsWith _ (txt "v1/")); cbn [negb orb]; [|done].
      destruct (hasTraversal _) eqn:E4; [done|]. destruct (allowed_ws _) eqn:E5; [|done]. cbn [negb]. intros [= <-].
      apply unit_prefix_spec in E1 as [r Er]. rewrite Er in *. split_and!; [done|by apply allowed_endpoint|done|done].
    - intros (E & He & Ht & Hl). rewrite E. destruct (Hshape p He) as [Hne Hv].
      change (drop 4 (txt "/ws/" ++ p)) with p. unfold startsWith at 1. rewrite unit_prefix_app. cbn [negb orb].
      rewrite bool_decide_eq_false_2, Hl, Hv, Ht, (proj2 (allowed_endpoint p) He) by done. done. }
  split_and!; [done| |].
  - intros p (_ & He & Ht & _)%Hiff. apply valid_under_v1. unfold isValidBackendPath.
    destruct (Hshape p He) as [_ ->]. by rewrite Ht.
  - intros p Hp. unfold hasTraversal, decodedForms, MAX_DECODE_PASSES. cbn [decode_loop]. rewrite Hp. cbn [negb existsb].
    unfold TRAVERSAL_PATTERN. rewrite orb_false_r.
    assert (Hn : ∀ q, units_include (37%N :: q) p = false).
    { intros q. destruct (units_include (37%N :: q) p) eqn:E; [|done]. exfalso.
      apply no_percent in Hp. clear - Hp E. induction Hp as [|x l Hx _ IH]; [done|]. cbn [units_include unit_prefix] in E.
      apply orb_true_iff in E as [E|E]; [|by apply IH]. apply andb_true_iff in E as [E _]. apply N.eqb_eq in E. congruence. }
    rewrite !Hn. by rewrite !orb_false_r.
Qed.
