(* ===== verification/Poll.v ===== *)
(** * The polled panels: use-poll.ts and networking-state.ts

    A panel polls one endpoint with [setInterval], pauses after three failures
    in a row and stops for good after a 403. The hook's signals and refs are one
    record; each run of its effect is a generation, with the url and the options
    its closures captured. [doFetch] is split at its [await]: a request in
    flight keeps the generation that issued it, and settles whenever it likes. A
    run is any list of events, in any order. *)

From stdpp Require Import base list strings.
From Stdlib Require Import ZArith Lia.
From S2P Require Import Prelude JsValue Api.

Open Scope Z_scope.

(** ** What a failure shows: networking-state.ts *)

Record PollFailure := { pf_status : Z; pf_reason : jsval }.
(** What a request is refused with: an [ApiError], another [Error], or any
    value thrown. *)
Inductive Thrown := ThrownApi (e : ApiError) (message : jstring) | ThrownError (message : jstring) | ThrownOther.
Definition failureOf (err : Thrown) : option PollFailure :=
  match err with
  | ThrownApi e _ => Some {| pf_status := err_status e; pf_reason := err_reason e |}
  | _ => None
  end.

Inductive PanelStateKind :=
  pk_forbidden | pk_unavailable | pk_reload | pk_conflict | pk_outcome_unknown | pk_busy | pk_not_installed
| pk_unsupported | pk_ended.
Inductive RecoveryAction := act_retry | act_reload | act_reconnect.
(** The [message] is the kind's own sentence, which the page prints. *)
Record PanelState := { ps_kind : PanelStateKind; ps_message : jstring; ps_action : option RecoveryAction }.
Definition PANEL_RELOAD_REASONS : list jstring :=
  ["cluster_unknown"; "cluster_pin_required"; "cluster_pin_mismatch"; "cluster_generation_mismatch"]%js.
Definition reloadState : PanelState :=
  {| ps_kind := pk_reload;
     ps_message := "This cluster's registration changed since the page loaded. Reload to continue."%js;
     ps_action := Some act_reload |}.
Inductive PanelOperation := op_read | op_save.
Definition is_reason (reason : jsval) (s : jstring) : bool :=
  match reason with JStr r => js_eqb r s | _ => false end.
Definition panelState (failure : option PollFailure) (what : jstring) (op : PanelOperation) : PanelState :=
  let reason := match failure with Some f => pf_reason f | None => JUndef end in
  let status_is (n : Z) := match failure with Some f => pf_status f =? n | None => false end in
  if status_is 403 || is_reason reason "forbidden" then
    {| ps_kind := pk_forbidden;
       ps_message := ("You do not have permission to " +++ match op with op_save => "change" | op_read => "read" end
         +++ " " +++ what +++ " on this cluster.")%js;
       ps_action := None |}
  else if existsb (is_reason reason) PANEL_RELOAD_REASONS then reloadState
  else if is_reason reason "conflict" then
    {| ps_kind := pk_conflict;
       ps_message := "The configuration changed on the cluster since you loaded it. Your edit is kept; review it against the latest values and save again."%js;
       ps_action := None |}
  else if is_reason reason "outcome_unknown" then
    {| ps_kind := pk_outcome_unknown;
       ps_message := "The cluster stopped answering during the save. Reload to check whether the change was applied before trying again."%js;
       ps_action := Some act_reload |}
  else if status_is 429 || is_reason reason "tunnel_limit" then
    {| ps_kind := pk_busy;
       ps_message := ("Too many requests to this cluster right now. Try " +++
         match op with op_save => "saving" | op_read => "loading" end +++ " " +++ what +++ " again shortly.")%js;
       ps_action := Some act_retry |}
  else
    {| ps_kind := pk_unavailable;
       ps_message := match op with
         | op_save => ("Could not save " +++ what +++ " on this cluster. Your edit is kept; try again.")%js
         | op_read => ("Could not read " +++ what +++ " from this cluster.")%js end;
       ps_action := Some act_retry |}.

(** ** The hook: use-poll.ts *)

Definition MAX_CONSECUTIVE_FAILURES : nat := 3.

Section Hook.
Context {T : Type}.

(** What one run of the effect captured. *)
Record Generation := { g_url : jstring; g_continue : option (T → bool) }.
(** A request, with the generation of the [doFetch] that made it. *)
Record Fetch := { f_gen : nat; f_url : jstring }.
Record Signals := {
  pdata : option T;
  ploading : bool;
  perror : option jstring;
  pfailure : option PollFailure;
  lastFetchedAt : option Z
}.
Record Refs := { intervalRef : option nat; failureCount : nat; stoppedRef : bool; doFetchRef : option nat }.
(** The browser: the closures of every run of the effect; the run that is
    mounted, whose listener is on the document and whose [active] is true; the
    live intervals with the run of their callback; every request made, in
    order, and the numbers of those not settled. *)
Record World := {
  gens : list Generation;
  mounted : option nat;
  intervals : list (nat * nat);
  next_interval : nat;
  issued : list Fetch;
  inflight : list nat;
  hidden : bool
}.
Record Poll := { signals : Signals; refs : Refs; world : World }.

Definition set_interval (i : option nat) (r : Refs) : Refs :=
  {| intervalRef := i; failureCount := failureCount r; stoppedRef := stoppedRef r; doFetchRef := doFetchRef r |}.
Definition set_failureCount (n : nat) (r : Refs) : Refs :=
  {| intervalRef := intervalRef r; failureCount := n; stoppedRef := stoppedRef r; doFetchRef := doFetchRef r |}.
Definition set_stopped (b : bool) (r : Refs) : Refs :=
  {| intervalRef := intervalRef r; failureCount := failureCount r; stoppedRef := b; doFetchRef := doFetchRef r |}.
Definition set_doFetch (g : nat) (r : Refs) : Refs :=
  {| intervalRef := intervalRef r; failureCount := failureCount r; stoppedRef := stoppedRef r; doFetchRef := Some g |}.
Definition set_intervals (l : list (nat * nat)) (n : nat) (w : World) : World :=
  {| gens := gens w; mounted := mounted w; intervals := l; next_interval := n; issued := issued w;
     inflight := inflight w; hidden := hidden w |}.
Definition set_mounted (m : option nat) (gs : list Generation) (w : World) : World :=
  {| gens := gs; mounted := m; intervals := intervals w; next_interval := next_interval w; issued := issued w;
     inflight := inflight w; hidden := hidden w |}.
Definition set_flight (reqs : list Fetch) (fl : list nat) (w : World) : World :=
  {| gens := gens w; mounted := mounted w; intervals := intervals w; next_interval := next_interval w; issued := reqs;
     inflight := fl; hidden := hidden w |}.
Definition set_hidden (h : bool) (w : World) : World :=
  {| gens := gens w; mounted := mounted w; intervals := intervals w; next_interval := next_interval w;
     issued := issued w; inflight := inflight w; hidden := h |}.
Definition on_refs (f : Refs → Refs) (p : Poll) : Poll :=
  {| signals := signals p; refs := f (refs p); world := world p |}.
Definition on_world (f : World → World) (p : Poll) : Poll :=
  {| signals := signals p; refs := refs p; world := f (world p) |}.
Definition with_signals (s : Signals) (p : Poll) : Poll := {| signals := s; refs := refs p; world := world p |}.

(** [startPolling], of run [g]. *)
Definition startPolling (g : nat) (p : Poll) : Poll :=
  let id := next_interval (world p) in
  on_refs (set_interval (Some id)) (on_world (set_intervals (intervals (world p) ++ [(id, g)]) (S id)) p).
(** [if (intervalRef.current !== null) { clearInterval(...); ... = null }] *)
Definition stopPolling (p : Poll) : Poll :=
  match intervalRef (refs p) with
  | None => p
  | Some id => on_refs (set_interval None)
      (on_world (λ w, set_intervals (filter (λ x, x.1 ≠ id) (intervals w)) (next_interval w) w) p)
  end.
(** [doFetch] up to its [await]. *)
Definition doFetch (g : nat) (p : Poll) : Poll :=
  match gens (world p) !! g with
  | None => p
  | Some gen => on_world (λ w, set_flight (issued w ++ [{| f_gen := g; f_url := g_url gen |}])
      (inflight w ++ [length (issued w)]) w) p
  end.
Definition settled (n : nat) (p : Poll) : Poll :=
  on_world (λ w, set_flight (issued w) (filter (λ m, m ≠ n) (inflight w)) w) p.
(** [opts.shouldContinuePolling], as run [g] captured it. *)
Definition continue_of (g : nat) (p : Poll) : option (T → bool) :=
  match gens (world p) !! g with Some gen => g_continue gen | None => None end.
(** The answer of a request of run [g]. *)
Definition fetched (g : nat) (d : T) (now : Z) (p : Poll) : Poll :=
  let p1 := on_refs (set_failureCount 0)
    (with_signals {| pdata := Some d; ploading := ploading (signals p); perror := None; pfailure := None;
                     lastFetchedAt := Some now |} p) in
  let p2 := match continue_of g p with
    | Some continue_ => if continue_ d then p1 else stopPolling (on_refs (set_stopped true) p1)
    | None => p1 end in
  let active := bool_decide (mounted (world p2) = Some g) in
  if active && negb (stoppedRef (refs p2)) && bool_decide (intervalRef (refs p2) = None) then startPolling g p2 else p2.
Definition message_of (err : Thrown) : jstring :=
  match err with ThrownApi _ m | ThrownError m => m | ThrownOther => "Failed to fetch data"%js end.
Definition is_refusal (err : Thrown) : bool :=
  match err with ThrownApi e _ => err_status e =? 403 | _ => false end.
Definition failed (err : Thrown) (p : Poll) : Poll :=
  let s := signals p in
  let p1 := on_refs (λ r, set_failureCount (S (failureCount r)) r)
    (with_signals {| pdata := pdata s; ploading := ploading s; perror := Some (message_of err);
                     pfailure := failureOf err; lastFetchedAt := lastFetchedAt s |} p) in
  let p2 := if is_refusal err then on_refs (set_stopped true) p1 else p1 in
  if stoppedRef (refs p2) || bool_decide (MAX_CONSECUTIVE_FAILURES <= failureCount (refs p2))%nat
  then stopPolling p2 else p2.
Definition finally (p : Poll) : Poll :=
  let s := signals p in
  with_signals {| pdata := pdata s; ploading := false; perror := perror s; pfailure := pfailure s;
                  lastFetchedAt := lastFetchedAt s |} p.
(** The cleanup of the effect, and its body for a new run. *)
Definition cleanup (p : Poll) : Poll :=
  match mounted (world p) with
  | None => p
  | Some _ => on_world (λ w, set_mounted None (gens w) w) (stopPolling p)
  end.
Definition effect (gen : Generation) (enabled : bool) (p : Poll) : Poll :=
  if enabled then
    let g := length (gens (world p)) in
    let p1 := on_refs (λ r, set_doFetch g (set_failureCount 0 (set_stopped false r)))
      (on_world (λ w, set_mounted (Some g) (gens w ++ [gen]) w) p) in
    startPolling g (doFetch g p1)
  else p.
Definition onVisibilityChange (g : nat) (p : Poll) : Poll :=
  if negb (hidden (world p)) && bool_decide (intervalRef (refs p) = None) && negb (stoppedRef (refs p))
  then startPolling g (doFetch g (on_refs (set_failureCount 0) p)) else p.

Inductive Event :=
| Effect (gen : Generation) (enabled : bool)   (** mounted, or a dependency changed *)
| Unmount
| Tick (id : nat)                              (** an interval fires *)
| Visibility (h : bool)
| Refetch
| Answered (n : nat) (d : T) (now : Z)
| Threw (n : nat) (err : Thrown).
Definition step (p : Poll) (e : Event) : Poll :=
  match e with
  | Effect gen enabled => effect gen enabled (cleanup p)
  | Unmount => cleanup p
  | Tick id =>
      match find (λ x, (x.1 =? id)%nat) (intervals (world p)) with
      | Some (_, g) => if hidden (world p) || stoppedRef (refs p) then p else doFetch g p
      | None => p
      end
  | Visibility h =>
      let p1 := on_world (set_hidden h) p in
      match mounted (world p1) with Some g => onVisibilityChange g p1 | None => p1 end
  | Refetch => match doFetchRef (refs p) with Some g => doFetch g p | None => p end
  | Answered n d now =>
      match issued (world p) !! n with
      | Some f => if decide (n ∈ inflight (world p)) then finally (fetched (f_gen f) d now (settled n p)) else p
      | None => p
      end
  | Threw n err =>
      match issued (world p) !! n with
      | Some _ => if decide (n ∈ inflight (world p)) then finally (failed err (settled n p)) else p
      | None => p
      end
  end.
Definition initial : Poll :=
  {| signals := {| pdata := None; ploading := true; perror := None; pfailure := None; lastFetchedAt := None |};
     refs := {| intervalRef := None; failureCount := 0; stoppedRef := false; doFetchRef := None |};
     world := {| gens := []; mounted := None; intervals := []; next_interval := 0; issued := []; inflight := [];
                 hidden := false |} |}.
Definition run (es : list Event) : Poll := foldl step initial es.

(** ** One timer *)

(** The books of the timer: at most one interval is alive, the ref names it,
    and it is of the mounted run. *)
Record books (p : Poll) : Prop := {
  bk_one : intervals (world p) = match intervalRef (refs p), mounted (world p) with
    | Some id, Some g => [(id, g)] | _, _ => [] end;
  bk_mounted : mounted (world p) = None → intervalRef (refs p) = None;
  bk_gen : ∀ g, mounted (world p) = Some g → S g = length (gens (world p));
  bk_ref : ∀ g, doFetchRef (refs p) = Some g → (g < length (gens (world p)))%nat
}.
(** A run that polls is neither stopped nor paused. *)
Definition running_ok (p : Poll) : Prop := intervalRef (refs p) ≠ None →
  stoppedRef (refs p) = false ∧ (failureCount (refs p) < MAX_CONSECUTIVE_FAILURES)%nat.
Definition timed (p : Poll) : Prop := books p ∧ running_ok p.

Lemma no_failures : (0 < MAX_CONSECUTIVE_FAILURES)%nat.
Proof. unfold MAX_CONSECUTIVE_FAILURES. lia. Qed.
Lemma stopPolling_spec p : books p → books (stopPolling p) ∧ intervalRef (refs (stopPolling p)) = None.
Proof.
  intros [H1 H2 H3 H4]. unfold stopPolling. destruct (intervalRef (refs p)) as [id|] eqn:E;
    [|split; [split; by rewrite ?E|done]].
  split; [|done]. split; cbn; try done. rewrite H1. destruct (mounted (world p)) as [g|]; [|done].
  rewrite filter_cons. cbn. rewrite decide_False by (intros H; by apply H). done.
Qed.
Lemma stopPolling_timed p : books p → timed (stopPolling p).
Proof. intros [? E]%stopPolling_spec. split; [done|]. by intros []. Qed.
Lemma startPolling_timed g p : books p → mounted (world p) = Some g → intervalRef (refs p) = None →
  stoppedRef (refs p) = false → (failureCount (refs p) < MAX_CONSECUTIVE_FAILURES)%nat → timed (startPolling g p).
Proof.
  intros [H1 H2 H3 H4] Hm Hi Hs Hf. split; [|by intros _].
  split; cbn; try done. { by rewrite H1, Hi, Hm. } congruence.
Qed.
(** What only touches the requests or the signals keeps the timer's books. *)
Definition same_timer (p q : Poll) : Prop :=
  refs q = refs p ∧ gens (world q) = gens (world p) ∧ mounted (world q) = mounted (world p) ∧
  intervals (world q) = intervals (world p).
Lemma books_same p q : same_timer p q → books p → books q.
Proof. intros (Er & Eg & Em & Ei) []. by split; rewrite ?Er, ?Eg, ?Em, ?Ei. Qed.
Lemma timed_same p q : same_timer p q → timed p → timed q.
Proof.
  intros Hs [Hb Hr]. split; [by eapply books_same|]. destruct Hs as (Er & _). unfold running_ok. by rewrite Er.
Qed.
Lemma doFetch_same g p : same_timer p (doFetch g p).
Proof. unfold doFetch. destruct (gens (world p) !! g); done. Qed.
Lemma cleanup_timed p : timed p → timed (cleanup p) ∧ intervalRef (refs (cleanup p)) = None ∧ mounted (world (cleanup p)) = None.
Proof.
  intros [Hb Hr]. unfold cleanup. destruct (mounted (world p)) as [g|] eqn:Em.
  - destruct (stopPolling_spec p Hb) as [[H1 H2 H3 H4] E]. split_and!; [|done|done]. split; [|by intros []].
    split; cbn; try done. by rewrite H1, E.
  - split_and!; [done| |done]. by apply bk_mounted.
Qed.
Lemma effect_timed gen enabled p : timed p → mounted (world p) = None → timed (effect gen enabled p).
Proof.
  intros [[H1 H2 H3 H4] Hr] Hm. unfold effect. destruct enabled; [|done].
  set (p1 := on_refs _ _). pose proof (doFetch_same (length (gens (world p))) p1) as Hs.
  assert (Hb : books p1).
  { split; cbn; try done.
    - by rewrite H1, H2.
    - intros g [= <-]. rewrite length_app. cbn. lia.
    - intros g [= <-]. rewrite length_app. cbn. lia. }
  pose proof Hs as (Er & _ & Em & _).
  apply startPolling_timed; [by eapply books_same|rewrite Em; done|rewrite Er; cbn; by apply H2|by rewrite Er|rewrite Er; apply no_failures].
Qed.
Lemma fetched_timed g d now p : timed p → timed (fetched g d now p).
Proof.
  intros [Hb Hr]. unfold fetched. set (p1 := on_refs _ _).
  assert (Hb1 : books p1) by (destruct Hb; by split).
  assert (Hf1 : failureCount (refs p1) = 0%nat) by done.
  assert (H2 : ∃ p2, match continue_of g p with
    | Some continue_ => if continue_ d then p1 else stopPolling (on_refs (set_stopped true) p1)
    | None => p1 end = p2 ∧ timed p2 ∧ failureCount (refs p2) = 0%nat).
  { assert (Ht1 : timed p1).
    { split; [done|]. intros Hi. destruct (Hr Hi) as [? _]. split; [done|]. rewrite Hf1. apply no_failures. }
    destruct (continue_of g p) as [k|]; [|by eexists].
    destruct (k d); [by eexists|]. eexists. split; [done|]. split.
    - apply stopPolling_timed. destruct Hb1. by split.
    - unfold stopPolling. by destruct (intervalRef _). }
  destruct H2 as (p2 & -> & Ht2 & Hf2).
  destruct (bool_decide (mounted (world p2) = Some g) && negb (stoppedRef (refs p2)) && bool_decide (intervalRef (refs p2) = None))
    eqn:E; [|done].
  apply andb_true_iff in E as [[Ea%bool_decide_eq_true Es%negb_true_iff]%andb_true_iff Ei%bool_decide_eq_true].
  apply startPolling_timed; [apply Ht2|done|done|done|]. rewrite Hf2. apply no_failures.
Qed.
Lemma failed_timed err p : timed p → timed (failed err p).
Proof.
  intros [Hb Hr]. unfold failed. set (p1 := on_refs (λ r, set_failureCount _ r) _).
  set (p2 := if is_refusal err then _ else p1).
  assert (Hb2 : books p2) by (unfold p2; destruct Hb, (is_refusal err); by split).
  destruct (stoppedRef (refs p2)) eqn:Es; cbn [orb]; [by apply stopPolling_timed|].
  case_bool_decide; [by apply stopPolling_timed|]. split; [done|]. intros _. split; [done|lia].
Qed.
Lemma step_timed p e : timed p → timed (step p e).
Proof.
  intros Ht. destruct e as [gen en| |id|h| |n d now|n err]; cbn [step].
  - destruct (cleanup_timed p Ht) as (? & _ & ?). by apply effect_timed.
  - by apply cleanup_timed.
  - destruct (find _ _) as [[? g]|]; [|done]. destruct (_ || _); [done|]. by eapply timed_same; [apply doFetch_same|].
  - set (p1 := on_world _ p). assert (Ht1 : timed p1) by (by eapply timed_same; [|exact Ht]).
    change (mounted (world p1)) with (mounted (world p)). destruct (mounted (world p)) as [g|] eqn:Em; [|done].
    unfold onVisibilityChange. destruct (negb _ && bool_decide (intervalRef (refs p1) = None) && _) eqn:E; [|done].
    apply andb_true_iff in E as [[_ Ei%bool_decide_eq_true]%andb_true_iff Es%negb_true_iff].
    set (p2 := on_refs _ p1). pose proof (doFetch_same g p2) as Hs. pose proof Hs as (Er & _ & Emm & _).
    apply startPolling_timed; [|by rewrite Emm|by rewrite Er|by rewrite Er|rewrite Er; apply no_failures].
    eapply books_same; [exact Hs|]. destruct Ht1 as [[] _]. by split.
  - destruct (doFetchRef _) as [g|]; [|done]. by eapply timed_same; [apply doFetch_same|].
  - destruct (issued _ !! n) as [f|]; [|done]. case_decide; [|done].
    eapply (timed_same (fetched _ _ _ _)); [done|]. apply fetched_timed. by eapply timed_same; [|exact Ht].
  - destruct (issued _ !! n) as [f|]; [|done]. case_decide; [|done].
    eapply (timed_same (failed _ _)); [done|]. apply failed_timed. by eapply timed_same; [|exact Ht].
Qed.
Lemma run_timed es : timed (run es).
Proof.
  induction es as [|e es IH] using rev_ind.
  { split; [split; done|]. by intros []. }
  unfold run. rewrite foldl_app. by apply step_timed.
Qed.
(** At any moment at most one interval polls. It is the one the ref names, it belongs to
    the mounted run of the effect, and that run was neither refused nor told to stop and
    has failed less than three times in a row; a panel that is gone has none. *)
Theorem poll_one_timer es : let p := run es in
  (length (intervals (world p)) <= 1)%nat ∧ (mounted (world p) = None → intervals (world p) = []) ∧
  ∀ id g, (id, g) ∈ intervals (world p) → mounted (world p) = Some g ∧ intervalRef (refs p) = Some id ∧
    stoppedRef (refs p) = false ∧ (failureCount (refs p) < MAX_CONSECUTIVE_FAILURES)%nat.
Proof.
  cbv zeta. destruct (run_timed es) as [[H1 H2 _ _] Hr]. revert H1 H2 Hr. generalize (run es). clear es. intros p H1 H2 Hr.
  unfold running_ok in Hr. destruct (intervalRef (refs p)) as [id|], (mounted (world p)) as [g|]; rewrite H1;
    try (split_and!; [cbn; lia|done|]); try (by intros ? ? ?%elem_of_nil).
  intros ? ? [= -> ->]%list_elem_of_singleton. destruct Hr; done.
Qed.

(** ** A refusal is final *)

Definition untouched (e : Event) : Prop := match e with Effect _ _ | Refetch => False | _ => True end.
(** Stopped, and no request made since. *)
Definition still (reqs : list Fetch) (p : Poll) : Prop := stoppedRef (refs p) = true ∧ issued (world p) = reqs.
Lemma stopPolling_still reqs p : still reqs p → still reqs (stopPolling p).
Proof. unfold still, stopPolling. by destruct (intervalRef _). Qed.
Lemma failed_still reqs err p : still reqs p → still reqs (failed err p).
Proof.
  intros [Hs Hi]. unfold failed. set (p1 := on_refs (λ r, set_failureCount _ r) _). set (p2 := if is_refusal err then _ else p1).
  assert (Hp : still reqs p2) by (unfold p2; destruct (is_refusal err); done).
  destruct (_ || _); [by apply stopPolling_still|done].
Qed.
Lemma fetched_still reqs g d now p : still reqs p → still reqs (fetched g d now p).
Proof.
  intros [Hs Hi]. unfold fetched. set (p1 := on_refs (set_failureCount 0) _).
  set (p2 := match continue_of g p with Some _ => _ | None => _ end).
  assert (Hp : still reqs p2).
  { unfold p2. destruct (continue_of g p) as [k|]; [|done]. destruct (k d); [done|]. by apply stopPolling_still. }
  destruct Hp as [Hp1 Hp2]. rewrite Hp1, andb_false_r. done.
Qed.
Lemma step_still reqs p e : untouched e → still reqs p → still reqs (step p e).
Proof.
  intros Hu [Hs Hi]. destruct e as [gen en| |id|h| |n d now|n err]; try done; cbn [step].
  - unfold cleanup. destruct (mounted _); [|done]. destruct (stopPolling_still reqs p); done.
  - destruct (find _ _) as [[? g]|]; [|done]. by rewrite Hs, orb_true_r.
  - destruct (mounted _) as [g|]; [|done]. unfold onVisibilityChange. cbn [refs on_world world set_hidden].
    rewrite Hs, andb_false_r. done.
  - destruct (issued _ !! n) as [f|]; [|done]. case_decide; [|done]. apply (fetched_still reqs). done.
  - destruct (issued _ !! n) as [f|]; [|done]. case_decide; [|done]. apply (failed_still reqs). done.
Qed.
Lemma steps_still reqs es p : Forall untouched es → still reqs p → still reqs (foldl step p es).
Proof. intros H. revert p. induction H; intros p Hp; [done|]. cbn. eauto using step_still. Qed.
Lemma refused_still n err p : n ∈ inflight (world p) → is_Some (issued (world p) !! n) → is_refusal err = true →
  still (issued (world p)) (step p (Threw n err)).
Proof.
  intros Hn [f Hf] He. cbn [step]. rewrite Hf, decide_True by done. unfold finally, failed. rewrite He.
  set (p2 := on_refs (set_stopped true) _). assert (H2 : still (issued (world p)) p2) by done.
  destruct H2 as [H2 H2']. rewrite H2. cbn [orb]. destruct (stopPolling_still (issued (world p)) p2); done.
Qed.
(** *** The requests *)

Definition flight (p : Poll) : list Fetch * list nat := (issued (world p), inflight (world p)).
Lemma flight_stop p : flight (stopPolling p) = flight p.
Proof. unfold stopPolling. by destruct (intervalRef _). Qed.
Lemma flight_fetched g d now p : flight (fetched g d now p) = flight p.
Proof.
  unfold fetched. set (p1 := on_refs (set_failureCount 0) _). set (p2 := match continue_of g p with Some _ => _ | None => _ end).
  assert (E : flight p2 = flight p).
  { unfold p2. destruct (continue_of g p) as [k|]; [|done]. destruct (k d); [done|]. by rewrite flight_stop. }
  by destruct (_ && _).
Qed.
Lemma flight_failed err p : flight (failed err p) = flight p.
Proof.
  unfold failed. set (p1 := on_refs (λ r, set_failureCount _ r) _). set (p2 := if is_refusal err then _ else p1).
  assert (E : flight p2 = flight p) by (unfold p2; by destruct (is_refusal err)).
  destruct (_ || _); [by rewrite flight_stop|done].
Qed.
Lemma flight_cleanup p : flight (cleanup p) = flight p.
Proof. unfold cleanup. destruct (mounted _); [|done]. exact (flight_stop p). Qed.
(** What one step does to the requests: one more, one settled, or nothing. *)
Lemma flight_step p e : flight (step p e) = flight p ∨
  (∃ g gen, gens (world (step p e)) !! g = Some gen ∧
    flight (step p e) = (issued (world p) ++ [{| f_gen := g; f_url := g_url gen |}], inflight (world p) ++ [length (issued (world p))])) ∨
  ∃ n, flight (step p e) = (issued (world p), filter (λ m, m ≠ n) (inflight (world p))).
Proof.
  assert (Hd : ∀ g q, flight (doFetch g q) = flight q ∨ ∃ gen, gens (world (doFetch g q)) !! g = Some gen ∧
    flight (doFetch g q) = (issued (world q) ++ [{| f_gen := g; f_url := g_url gen |}], inflight (world q) ++ [length (issued (world q))])).
  { intros g q. unfold doFetch. destruct (gens (world q) !! g) as [gen|] eqn:E; [right; eauto|by left]. }
  destruct e as [gen en| |id|h| |n d now|n err]; cbn [step].
  - unfold effect. destruct en; [|left; apply flight_cleanup].
    pose proof (flight_cleanup p) as [= E1 E2]. set (p1 := on_refs _ _). destruct (Hd (length (gens (world (cleanup p)))) p1) as [E|(gen' & Hg & E)].
    + left. etransitivity; [exact E|]. apply flight_cleanup.
    + right. left. exists (length (gens (world (cleanup p)))), gen'. split; [exact Hg|]. etransitivity; [exact E|].
      change (issued (world p1)) with (issued (world (cleanup p))). change (inflight (world p1)) with (inflight (world (cleanup p))).
      by rewrite E1, E2.
  - left. apply flight_cleanup.
  - destruct (find _ _) as [[? g]|]; [|by left]. destruct (_ || _); [by left|].
    destruct (Hd g p) as [?|(? & ? & ?)]; eauto 8.
  - set (p1 := on_world _ p). change (mounted (world p1)) with (mounted (world p)).
    destruct (mounted (world p)) as [g|]; [|by left]. unfold onVisibilityChange. destruct (_ && _); [|by left].
    destruct (Hd g (on_refs (set_failureCount 0) p1)) as [E|(gen & Hg & E)]; [left; exact E|]. right. left. exists g, gen. done.
  - destruct (doFetchRef _) as [g|]; [|by left]. destruct (Hd g p) as [?|(? & ? & ?)]; eauto 8.
  - destruct (issued _ !! n) as [f|]; [|by left]. case_decide; [|by left]. right. right. exists n.
    exact (flight_fetched (f_gen f) d now (settled n p)).
  - destruct (issued _ !! n) as [f|]; [|by left]. case_decide; [|by left]. right. right. exists n.
    exact (flight_failed err (settled n p)).
Qed.
Lemma run_asked es n : n ∈ inflight (world (run es)) → is_Some (issued (world (run es)) !! n).
Proof.
  revert n. induction es as [|e es IH] using rev_ind; [by intros ? ?%elem_of_nil|]. unfold run. rewrite foldl_app. cbn [foldl].
  fold (run es). intros n. destruct (flight_step (run es) e) as [[= -> ->]|[(g & gen & _ & [= -> ->])|(m & [= -> ->])]].
  - apply IH.
  - intros [Hn%IH|Hn%list_elem_of_singleton]%elem_of_app.
    + apply lookup_lt_is_Some. apply lookup_lt_is_Some in Hn. rewrite length_app. lia.
    + subst n. by rewrite lookup_app_r, Nat.sub_diag by lia.
  - intros [_ Hn]%list_elem_of_filter. by apply IH.
Qed.
(** A refusal is final: once a read of the panel is answered with 403, nothing that
    happens (ticks of the timer, the tab shown again, other answers, the panel closed)
    sends another request, until the panel is given another url or asked to refetch. *)
Theorem refusal_is_final es n err es' : n ∈ inflight (world (run es)) → is_refusal err = true → Forall untouched es' →
  issued (world (run (es ++ Threw n err :: es'))) = issued (world (run es)).
Proof.
  intros Hn He Hes. unfold run. rewrite foldl_app. fold (run es). cbn [foldl].
  apply (steps_still (issued (world (run es))) es'); [done|]. apply refused_still; [done|by apply run_asked|done].
Qed.

(** ** One url *)

Definition told (p : Poll) : Prop := stoppedRef (refs p) = true ∨ (MAX_CONSECUTIVE_FAILURES <= failureCount (refs p))%nat.
(** A panel in its one run of the effect. *)
Record steady (gen : Generation) (p : Poll) : Prop := {
  sd_gens : gens (world p) = [gen];
  sd_mounted : mounted (world p) = Some 0%nat;
  sd_own : Forall (λ f, f = {| f_gen := 0; f_url := g_url gen |}) (issued (world p));
  sd_polls : intervalRef (refs p) = None → told p
}.
Definition same_run (e : Event) : Prop := match e with Effect _ _ | Unmount => False | _ => True end.
Lemma stopPolling_world p : gens (world (stopPolling p)) = gens (world p) ∧ mounted (world (stopPolling p)) = mounted (world p) ∧
  issued (world (stopPolling p)) = issued (world p) ∧ stoppedRef (refs (stopPolling p)) = stoppedRef (refs p) ∧
  failureCount (refs (stopPolling p)) = failureCount (refs p).
Proof. unfold stopPolling. by destruct (intervalRef _). Qed.
Lemma steady_stop gen p : steady gen p → told p → steady gen (stopPolling p).
Proof.
  intros [H1 H2 H3 _] Ht. destruct (stopPolling_world p) as (E1 & E2 & E3 & E4 & E5).
  split; rewrite ?E1, ?E2, ?E3; [done..|]. intros _. unfold told. by rewrite E4, E5.
Qed.
Lemma steady_start gen p : gens (world p) = [gen] → mounted (world p) = Some 0%nat →
  Forall (λ f, f = {| f_gen := 0; f_url := g_url gen |}) (issued (world p)) → steady gen (startPolling 0 p).
Proof. by split. Qed.
Lemma steady_doFetch gen g p : steady gen p → steady gen (doFetch g p).
Proof.
  intros [H1 H2 H3 H4]. unfold doFetch. rewrite H1. destruct g as [|[|g]]; cbn [lookup list_lookup]; try done.
  split; try done. cbn. apply Forall_app. by split; [|apply Forall_singleton].
Qed.
Lemma steady_fetched gen d now p : steady gen p → steady gen (fetched 0 d now p).
Proof.
  intros [H1 H2 H3 H4]. unfold fetched. set (p1 := on_refs (set_failureCount 0) _).
  set (p2 := match continue_of 0 p with Some _ => _ | None => _ end).
  assert (Hp : gens (world p2) = [gen] ∧ mounted (world p2) = Some 0%nat ∧ issued (world p2) = issued (world p)).
  { unfold p2. destruct (continue_of 0 p) as [k|]; [|done]. destruct (k d); [done|].
    destruct (stopPolling_world (on_refs (set_stopped true) p1)) as (-> & -> & -> & _). done. }
  destruct Hp as (G & M & I). rewrite M. rewrite bool_decide_eq_true_2 by done. cbn [andb].
  destruct (stoppedRef (refs p2)) eqn:Es; cbn [negb andb].
  - split; try done; [by rewrite I|]. intros _. by left.
  - case_bool_decide as Ei; split; try done; cbn; by rewrite ?I.
Qed.
Lemma steady_failed gen err p : steady gen p → steady gen (failed err p).
Proof.
  intros [H1 H2 H3 H4]. unfold failed. set (p1 := on_refs (λ r, set_failureCount _ r) _).
  set (p2 := if is_refusal err then _ else p1).
  assert (Hp : steady gen p2).
  { unfold p2. destruct (is_refusal err); split; try done; intros Hi.
    - by left.
    - destruct (H4 Hi) as [?|?]; [by left|right]. cbn. lia. }
  destruct (stoppedRef (refs p2)) eqn:Es; cbn [orb]; [by apply steady_stop; [|left]|].
  case_bool_decide; [by apply steady_stop; [|right]|done].
Qed.
Lemma steady_same gen p q : steady gen p → gens (world q) = gens (world p) → mounted (world q) = mounted (world p) →
  issued (world q) = issued (world p) → refs q = refs p → steady gen q.
Proof. intros [H1 H2 H3 H4] E1 E2 E3 E4. split; unfold told; rewrite ?E1, ?E2, ?E3, ?E4; done. Qed.
Lemma steady_step gen p e : same_run e → steady gen p → steady gen (step p e).
Proof.
  intros He Hs. destruct e as [g en| |id|h| |n d now|n err]; try done; cbn [step].
  - destruct (find _ _) as [[? g]|]; [|done]. destruct (_ || _); [done|]. by apply steady_doFetch.
  - set (p1 := on_world _ p). assert (Hp : steady gen p1) by (by eapply steady_same; [exact Hs|..]).
    rewrite (sd_mounted _ _ Hp). unfold onVisibilityChange. destruct (_ && _) eqn:E; [|done].
    destruct (steady_doFetch gen 0 p1 Hp) as [D1 D2 D3 _]. unfold doFetch in *.
    change (gens (world (on_refs _ p1))) with (gens (world p1)). rewrite (sd_gens _ _ Hp) in *. by apply steady_start.
  - destruct (doFetchRef _) as [g|]; [|done]. by apply steady_doFetch.
  - destruct (issued _ !! n) as [f|] eqn:Ef; [|done]. case_decide; [|done].
    rewrite (Forall_lookup_1 _ _ _ _ (sd_own _ _ Hs) Ef). cbn [f_gen].
    eapply (steady_same _ (fetched _ _ _ _)); [|done..]. apply steady_fetched. by eapply steady_same; [exact Hs|..].
  - destruct (issued _ !! n) as [f|]; [|done]. case_decide; [|done].
    eapply (steady_same _ (failed _ _)); [|done..]. apply steady_failed. by eapply steady_same; [exact Hs|..].
Qed.
Lemma steady_first gen : steady gen (step initial (Effect gen true)).
Proof. split; try done. cbn. by apply Forall_singleton. Qed.

Lemma steady_run gen es : Forall same_run es → steady gen (run (Effect gen true :: es)).
Proof.
  intros Hes. unfold run. cbn [foldl]. generalize (steady_first gen). generalize (step initial (Effect gen true)).
  induction Hes as [|e es He Hes IH]; intros q Hq; [done|]. cbn [foldl]. apply IH. by apply steady_step.
Qed.
Lemma timer_off_iff gen es : Forall same_run es → let p := run (Effect gen true :: es) in intervals (world p) = [] ↔ told p.
Proof.
  intros Hes p. destruct (steady_run gen es Hes) as [S1 S2 S3 S4]. fold p in S1, S2, S3, S4.
  destruct (run_timed (Effect gen true :: es)) as [[H1 _ _ _] Hr]. fold p in H1, Hr.
  rewrite H1, S2. unfold running_ok in Hr. destruct (intervalRef (refs p)) as [id|].
  - split; [done|]. destruct Hr as [Hr1 Hr2]; [done|]. intros [?|?]; [congruence|lia].
  - split; [intros _; by apply S4|done].
Qed.

(** *** What the panel was told

    Read off the events alone: the answers of requests that were in flight, and
    the tab being shown. *)

Inductive Heard := HOk (d : T) | HErr (err : Thrown) | HShown.
Definition hears (p : Poll) (e : Event) : list Heard :=
  match e with
  | Answered n d _ => if decide (n ∈ inflight (world p)) then [HOk d] else []
  | Threw n err => if decide (n ∈ inflight (world p)) then [HErr err] else []
  | Visibility false => [HShown]
  | _ => []
  end.
Fixpoint heard_from (p : Poll) (es : list Event) : list Heard :=
  match es with [] => [] | e :: es' => hears p e ++ heard_from (step p e) es' end.
Definition heard (es : list Event) : list Heard := heard_from initial es.
(** A 403 was among the answers. *)
Definition was_refused (hs : list Heard) : Prop := ∃ e m, HErr (ThrownApi e m) ∈ hs ∧ err_status e = 403.
(** The panel said of an answer that it was the last it needs. *)
Definition was_last (gen : Generation) (hs : list Heard) : Prop := ∃ d k, HOk d ∈ hs ∧ g_continue gen = Some k ∧ k d = false.
(** Failures in a row: an answer ends the row, and so does the tab being shown
    after three. *)
Definition in_a_row (n : nat) (x : Heard) : nat :=
  match x with HOk _ => 0 | HErr _ => S n | HShown => if (3 <=? n)%nat then 0 else n end.
Definition failures (hs : list Heard) : nat := foldl in_a_row 0%nat hs.

Lemma heard_snoc p es e : heard_from p (es ++ [e]) = heard_from p es ++ hears (foldl step p es) e.
Proof.
  revert p. induction es as [|x es IH]; intros p; cbn [app heard_from foldl]; [by rewrite app_nil_r|]. by rewrite IH, app_assoc.
Qed.
Lemma failures_snoc hs x : failures (hs ++ [x]) = in_a_row (failures hs) x.
Proof. unfold failures. by rewrite foldl_app. Qed.
Lemma refused_snoc hs x : was_refused (hs ++ [x]) ↔ was_refused hs ∨ ∃ e m, x = HErr (ThrownApi e m) ∧ err_status e = 403.
Proof. unfold was_refused. setoid_rewrite elem_of_app. setoid_rewrite list_elem_of_singleton. naive_solver. Qed.
Lemma last_snoc gen hs x : was_last gen (hs ++ [x]) ↔ was_last gen hs ∨ ∃ d k, x = HOk d ∧ g_continue gen = Some k ∧ k d = false.
Proof. unfold was_last. setoid_rewrite elem_of_app. setoid_rewrite list_elem_of_singleton. naive_solver. Qed.
Lemma is_refusal_iff err : is_refusal err = true ↔ ∃ e m, err = ThrownApi e m ∧ err_status e = 403.
Proof.
  destruct err as [e m| |]; cbn; [|split; [done|by intros (? & ? & ? & _)]..]. rewrite Z.eqb_eq. naive_solver.
Qed.
(** What each kind of answer adds. *)
Lemma refused_err hs err : was_refused (hs ++ [HErr err]) ↔ was_refused hs ∨ is_refusal err = true.
Proof. rewrite refused_snoc, is_refusal_iff. naive_solver. Qed.
Lemma refused_quiet hs x : (∀ err, x ≠ HErr err) → was_refused (hs ++ [x]) ↔ was_refused hs.
Proof. intros Hx. rewrite refused_snoc. split; [|by left]. intros [?|(? & ? & ? & _)]; [done|]. by destruct (Hx _ H). Qed.
Lemma last_quiet gen hs x : (∀ d, x ≠ HOk d) → was_last gen (hs ++ [x]) ↔ was_last gen hs.
Proof. intros Hx. rewrite last_snoc. split; [|by left]. intros [?|(? & ? & ? & _)]; [done|]. by destruct (Hx _ H). Qed.
Lemma last_ok gen hs d : was_last gen (hs ++ [HOk d]) ↔
  was_last gen hs ∨ match g_continue gen with Some k => k d = false | None => False end.
Proof.
  rewrite last_snoc. destruct (g_continue gen) as [k|]; split; (intros [?|H]; [by left|]); try done.
  - destruct H as (d' & k' & [= <-] & [= <-] & ?). by right.
  - right. eauto.
  - by destruct H as (? & ? & _ & ? & _).
Qed.
Lemma told_shown gen hs : was_refused (hs ++ [HShown]) ∨ was_last gen (hs ++ [HShown]) ↔ was_refused hs ∨ was_last gen hs.
Proof. by rewrite refused_quiet, last_quiet. Qed.

(** The refs say what was heard. *)
Record tells (gen : Generation) (hs : list Heard) (r : Refs) : Prop := {
  tl_stopped : stoppedRef r = true ↔ was_refused hs ∨ was_last gen hs;
  tl_count : stoppedRef r = false → failureCount r = failures hs
}.
Lemma tells_fetched gen hs d now p : gens (world p) = [gen] → tells gen hs (refs p) →
  tells gen (hs ++ [HOk d]) (refs (fetched 0 d now p)).
Proof.
  intros Hg [Hs Hc]. unfold fetched. set (p1 := on_refs (set_failureCount 0) _).
  set (p2 := match continue_of 0 p with Some _ => _ | None => _ end).
  assert (H2 : tells gen (hs ++ [HOk d]) (refs p2)).
  { split; rewrite ?refused_quiet, ?last_ok, ?failures_snoc by done; unfold p2, continue_of; rewrite Hg; cbn [lookup list_lookup].
    - destruct (g_continue gen) as [k|]; [destruct (k d)|].
      + change (stoppedRef (refs p1)) with (stoppedRef (refs p)). rewrite Hs. intuition done.
      + destruct (stopPolling_world (on_refs (set_stopped true) p1)) as (_ & _ & _ & -> & _). cbn. intuition done.
      + change (stoppedRef (refs p1)) with (stoppedRef (refs p)). rewrite Hs. intuition done.
    - intros _. destruct (g_continue gen) as [k|]; [|done]. destruct (k d); [done|].
      by destruct (stopPolling_world (on_refs (set_stopped true) p1)) as (_ & _ & _ & _ & ->). }
  destruct (_ && _); [|done]. by destruct H2.
Qed.
Lemma tells_failed gen hs err p : tells gen hs (refs p) → tells gen (hs ++ [HErr err]) (refs (failed err p)).
Proof.
  intros [Hs Hc]. unfold failed. set (p1 := on_refs (λ r, set_failureCount _ r) _). set (p2 := if is_refusal err then _ else p1).
  assert (H2 : tells gen (hs ++ [HErr err]) (refs p2)).
  { split; rewrite ?refused_err, ?last_quiet, ?failures_snoc by done; unfold p2.
    - destruct (is_refusal err); cbn; [|rewrite Hs]; intuition done.
    - destruct (is_refusal err); [done|]. cbn. intros ?. by rewrite Hc. }
  destruct (_ || _); [|done]. destruct (stopPolling_world p2) as (_ & _ & _ & E1 & E2). destruct H2 as [Ht1 Ht2].
  by split; rewrite ?E1, ?E2.
Qed.
Lemma tells_step gen hs p e : same_run e → steady gen p → timed p → (∀ n, n ∈ inflight (world p) → is_Some (issued (world p) !! n)) →
  tells gen hs (refs p) → tells gen (hs ++ hears p e) (refs (step p e)).
Proof.
  intros He Hst [_ Hrun] Hask Ht. destruct e as [g en| |id|h| |n d now|n err]; try done; cbn [step hears]; rewrite ?app_nil_r.
  - destruct (find _ _) as [[? g]|]; [|done]. destruct (_ || _); [done|]. by destruct (doFetch_same g p) as (-> & _).
  - set (p1 := on_world _ p). change (mounted (world p1)) with (mounted (world p)). rewrite (sd_mounted _ _ Hst).
    unfold onVisibilityChange. change (hidden (world p1)) with h. destruct h; cbn [negb andb]; [by rewrite app_nil_r|].
    change (refs p1) with (refs p). destruct Ht as [Hs Hc]. destruct (intervalRef (refs p)) as [i|] eqn:Ei.
    + rewrite (bool_decide_eq_false_2 (Some i = None)) by done. cbn [andb].
      destruct (Hrun ltac:(by rewrite Ei)) as [R1 R2]. split; rewrite ?told_shown, ?failures_snoc; [exact Hs|].
      intros H. specialize (Hc H). rewrite Hc in R2. cbn [in_a_row].
      unfold MAX_CONSECUTIVE_FAILURES in R2. destruct (Nat.leb_spec 3 (failures hs)); [lia|exact Hc].
    + rewrite bool_decide_eq_true_2 by done. cbn [andb]. destruct (stoppedRef (refs p)) eqn:Es; cbn [negb].
      * split; change (refs p1) with (refs p); rewrite ?told_shown, ?Es; [|done]. exact Hs.
      * set (p2 := on_refs (set_failureCount 0) p1). destruct (doFetch_same 0 p2) as (E & _).
        destruct (sd_polls _ _ Hst Ei) as [?|Hf]; [congruence|]. rewrite <- Es in Hs. rewrite Hc in Hf by done. unfold MAX_CONSECUTIVE_FAILURES in Hf.
        assert (Er : ∀ r, refs (startPolling 0 r) = set_interval (Some (next_interval (world r))) (refs r)) by done.
        split; rewrite Er, E, ?told_shown, ?failures_snoc; [exact Hs|]. intros _. cbn [in_a_row]. destruct (Nat.leb_spec 3 (failures hs)); [done|lia].
  - destruct (doFetchRef _) as [g|]; [|done]. by destruct (doFetch_same g p) as (-> & _).
  - destruct (issued _ !! n) as [f|] eqn:Ef.
    + case_decide; [|by rewrite app_nil_r]. rewrite (Forall_lookup_1 _ _ _ _ (sd_own _ _ Hst) Ef). cbn [f_gen].
      apply (tells_fetched gen hs d now (settled n p)); [apply (sd_gens _ _ Hst)|exact Ht].
    + case_decide; [|by rewrite app_nil_r]. by destruct (Hask n) as [? ?]; [|congruence].
  - destruct (issued _ !! n) as [f|] eqn:Ef.
    + case_decide; [|by rewrite app_nil_r]. apply (tells_failed gen hs err (settled n p)). exact Ht.
    + case_decide; [|by rewrite app_nil_r]. by destruct (Hask n) as [? ?]; [|congruence].
Qed.
Lemma tells_run gen es : Forall same_run es → let es' := Effect gen true :: es in tells gen (heard es') (refs (run es')).
Proof.
  induction es as [|e es IH] using rev_ind; intros H.
  { split; cbn; [|done]. split; [done|]. by intros [(? & ? & ?%elem_of_nil & _)|(? & ? & ?%elem_of_nil & _)]. }
  apply Forall_app in H as [H1 [H2 _]%Forall_cons]. cbv zeta. rewrite app_comm_cons. set (es1 := Effect gen true :: es) in *.
  assert (Hst : steady gen (run es1)) by (by apply steady_run). specialize (IH H1). cbv zeta in IH. unfold heard. rewrite heard_snoc.
  assert (Er : run (es1 ++ [e]) = step (run es1) e) by (unfold run; by rewrite foldl_app). rewrite Er.
  apply (tells_step gen (heard es1) (run es1)); [done|done|apply run_timed|apply run_asked|done].
Qed.

End Hook.
Arguments Poll : clear implicits.
Arguments Event : clear implicits.
Arguments Generation : clear implicits.
Arguments Heard : clear implicits.

(** ** Two urls *)

Definition panel (url : jstring) : Generation nat := {| g_url := url; g_continue := None |}.
Definition refused : Thrown :=
  ThrownApi {| err_status := 403; err_code := JUndef; err_detail := JUndef; err_body := JUndef |} "nope"%js.
(** The refusal of the first url lands after the second was given: the second panel is
    stopped for good, though its own read succeeds. *)
Definition stale_refusal : list (Event nat) :=
  [Effect (panel "/a") true; Effect (panel "/b") true; Threw 0 refused; Answered 1 7%nat 10; Visibility true; Visibility false].
Example stale_refusal_stops_new_url : let p := run stale_refusal in
  mounted (world p) = Some 1%nat ∧ pdata (signals p) = Some 7%nat ∧ intervals (world p) = [] ∧ stoppedRef (refs p) = true ∧
  length (issued (world p)) = 2%nat.
Proof. vm_compute. done. Qed.
(** The answer for the first url lands last: the panel of the second shows it. *)
Example stale_answer_shown : let p := run [Effect (panel "/a") true; Effect (panel "/b") true; Answered 1 7%nat 10; Answered 0 3%nat 11] in
  mounted (world p) = Some 1%nat ∧ pdata (signals p) = Some 3%nat.
Proof. vm_compute. done. Qed.

(** ** Witnesses *)

Definition demo_history : list (Event nat) := [Effect (panel "/a") true; Tick 0].
Lemma refusal_is_final_witness :
  length (issued (world (run (demo_history ++ [Threw 0 refused; Tick 0; Answered 1 5%nat 9; Visibility false])))) = 2%nat.
Proof.
  rewrite (refusal_is_final demo_history 0%nat refused [Tick 0; Answered 1 5%nat 9; Visibility false]);
    [reflexivity|vm_compute; by left|reflexivity|by repeat apply Forall_cons_2].
Defined.
(** Three failures in a row, one of them of a manual refetch, and nothing more: the timer is off. *)
Definition demo_failing : list (Event nat) := [Threw 0 ThrownOther; Refetch; Tick 0; Threw 2 ThrownOther; Threw 1 ThrownOther].
