(* ===== verification/Streams.v ===== *)
(** * The live streams: stream-state.ts and networking-state.ts

    What a stream sends first, what its end is shown as, and how a resumed tail
    tells a line it has shown from a new one. Timestamps are compared as digit
    strings, because nanoseconds since the epoch do not fit a JavaScript number;
    the regular expression of a log line's timestamp is a recogniser here. *)

From stdpp Require Import base list strings.
From Stdlib Require Import ZArith NArith Lia.
From S2P Require Import Prelude JsValue JsonParse Cluster Api Poll.

Open Scope Z_scope.

(** ** Definitions *)

(** *** The first frame *)

Record AuthFrame := { af_token : jstring; af_clusterId : jstring; af_generation : option jstring }.
Definition streamAuthFrame (token : jstring) (target : ClusterTarget) : AuthFrame :=
  {| af_token := token; af_clusterId := clusterId target;
     af_generation := if js_eqb (generation target) UNKNOWN_GENERATION then None else Some (generation target) |}.

(** *** Ends *)

Record StreamErrorFrame := { sf_reason : option jstring; sf_message : option jstring; sf_retryable : bool }.
Definition RECONNECT_DELAYS_MS : list Z := [2000; 5000; 10000].
Definition STREAM_RELOAD_REASONS : list jstring :=
  ["cluster_required"; "cluster_invalid"; "cluster_pin_mismatch"; "cluster_generation_mismatch"]%js.
(** A reason that is there and not empty. *)
Definition reason_of (frame : StreamErrorFrame) : option jstring :=
  match sf_reason frame with Some r => if js_eqb r ""%js then None else Some r | None => None end.
Definition streamErrorMessage (toLowerCase : jstring → jstring) (frame : StreamErrorFrame) (what : jstring) : jstring :=
  match reason_of frame with
  | None => default (what +++ " stopped.")%js (sf_message frame)
  | Some reason =>
      if bool_decide (reason ∈ STREAM_RELOAD_REASONS)
      then "The selected cluster changed or could not be confirmed. Reload the page to continue."%js
      else
        let subject := toLowerCase what in
        let on s := js_eqb reason s in
        if on "unsupported_platform"%js then (what +++ " is not available for this cluster yet.")%js
        else if on "forbidden"%js then ("You do not have permission for " +++ subject +++ " on this cluster.")%js
        else if on "token_expired"%js then (what +++ " stopped when your session expired and could not reconnect.")%js
        else if on "server_restarting"%js then (what +++ " stopped while k8sCenter restarted and could not reconnect.")%js
        else if on "cluster_removed"%js then ("The cluster was removed from k8sCenter, so " +++ subject +++ " ended.")%js
        else if on "access_revoked"%js then ("Your access was revoked, so " +++ subject +++ " ended.")%js
        else if on "signed_out"%js then ("You signed out, so " +++ subject +++ " ended.")%js
        else if on "idle_timeout"%js then (what +++ " was idle too long and ended.")%js
        else if on "connect_failed"%js then (what +++ " could not reconnect.")%js
        else if on "unreachable"%js then "The selected cluster could not be reached."%js
        else if on "cluster_unknown"%js then "The selected cluster is no longer registered."%js
        else if on "credentials_invalid"%js
        then "k8sCenter could not connect to the selected cluster with its stored credentials."%js
        else if on "db_unavailable"%js then "The cluster registry is unavailable. Try again shortly."%js
        else if on "loki_not_found"%js
        then ("No Loki was found on the selected cluster, so " +++ subject +++ " is unavailable.")%js
        else if on "loki_unreachable"%js then "Loki on the selected cluster could not be reached."%js
        else (what +++ " stopped unexpectedly.")%js
  end.
Definition panel_state (k : PanelStateKind) (m : jstring) (a : option RecoveryAction) : PanelState :=
  {| ps_kind := k; ps_message := m; ps_action := a |}.
Definition streamState (reason : option jstring) : PanelState :=
  let on s := match reason with Some r => js_eqb r s | None => false end in
  if on "forbidden"%js then panel_state pk_forbidden "You do not have permission to view flows on this cluster."%js None
  else if on "access_revoked"%js
  then panel_state pk_forbidden "Your access to these flows was revoked, so the live stream ended."%js None
  else if on "cluster_removed"%js
  then panel_state pk_reload "This cluster was removed from k8sCenter, so the live stream ended. Reload to continue."%js
         (Some act_reload)
  else if on "relay_not_found"%js
  then panel_state pk_not_installed "Hubble Relay was not found in kube-system or cilium on this cluster."%js None
  else if on "relay_tls_unsupported"%js
  then panel_state pk_unsupported "Hubble Relay on this cluster uses TLS, which k8sCenter cannot connect to yet."%js None
  else if on "hubble_unavailable"%js then panel_state pk_unsupported "Hubble is not available on this cluster."%js None
  else if on "unsupported_platform"%js
  then panel_state pk_unsupported "Live flows are not available for this cluster."%js None
  else if on "cluster_required"%js || bool_decide (default ""%js reason ∈ PANEL_RELOAD_REASONS) then reloadState
  else panel_state pk_ended "The live flow stream ended."%js (Some act_reconnect).

(** *** Order of lines *)

Definition js_gtb (a b : jstring) : bool := match js_compare a b with Gt => true | _ => false end.
Definition lokiLaterThan (a b : jstring) : bool :=
  if (js_length a =? js_length b)%N then js_gtb a b else (js_length b <? js_length a)%N.

Definition is_digitb (c : N) : bool := ((48 <=? c) && (c <=? 57))%N.
(** [\d{4}-\d\d-\d\dT\d\d:\d\d:\d\d]: a digit where the picture has a 0, and
    the character itself elsewhere. *)
Definition STAMP_PICTURE : list N := units "0000-00-00T00:00:00"%js.
Fixpoint matches_picture (pic l : list N) : option (list N * list N) :=
  match pic, l with
  | [], _ => Some ([], l)
  | c :: pic', d :: l' =>
      if (if (c =? 48)%N then is_digitb d else (d =? c)%N)
      then match matches_picture pic' l' with Some (m, rest) => Some (d :: m, rest) | None => None end
      else None
  | _ :: _, [] => None
  end.
(** [\d{1,n}], as many as there are. *)
Fixpoint up_to_digits (n : nat) (l : list N) : list N * list N :=
  match n, l with
  | S n', d :: l' => if is_digitb d then let (m, rest) := up_to_digits n' l' in (d :: m, rest) else ([], l)
  | _, _ => ([], l)
  end.
(** [Z\s], what follows being anything. *)
Definition ends_stamp (l : list N) : bool :=
  match l with 90%N :: c :: _ => is_space c | _ => false end.
Definition padEnd9 (l : list N) : list N := l ++ replicate (9 - length l) 48%N.
Record Timestamp := { ts_second : jstring; ts_nanos : Z }.
Definition logLineTimestamp (line : jstring) : option Timestamp :=
  match matches_picture STAMP_PICTURE (units line) with
  | None => None
  | Some (second, rest) =>
      let stamp f := Some {| ts_second := JS second; ts_nanos := digits_value 0 (padEnd9 f) |} in
      match rest with
      | 46%N :: rest' =>
          match up_to_digits 9 rest' with
          | ([], _) => None
          | (f, rest'') => if ends_stamp rest'' then stamp f else None
          end
      | _ => if ends_stamp rest then stamp [] else None
      end
  end.
Definition laterThan (a b : Timestamp) : bool :=
  if js_eqb (ts_second a) (ts_second b) then ts_nanos b <? ts_nanos a else js_gtb (ts_second a) (ts_second b).
Definition isReplayedLine (line : jstring) (after : option Timestamp) : bool :=
  match after with
  | None => false
  | Some a => match logLineTimestamp line with Some ts => negb (laterThan ts a) | None => false end
  end.

(** ** Digit strings compare as numbers *)

Lemma digits_value_app acc l k : digits_value acc (l ++ k) = digits_value (digits_value acc l) k.
Proof. unfold digits_value. by rewrite foldl_app. Qed.
Lemma digits_value_acc acc l : digits_value acc l = acc * 10 ^ Z.of_nat (length l) + digits_value 0 l.
Proof.
  revert acc. induction l as [|c l IH]; intros acc; [cbn; lia|]. unfold digits_value in *. cbn [foldl length].
  rewrite (IH (acc * 10 + _)), (IH (0 * 10 + _)), Nat2Z.inj_succ, Z.pow_succ_r by lia. lia.
Qed.
Lemma digits_value_bounds l : Forall is_digit l → 0 <= digits_value 0 l < 10 ^ Z.of_nat (length l).
Proof.
  induction 1 as [|c l Hc Hl IH]; [cbn; lia|]. unfold digits_value in *. cbn [foldl length].
  fold (digits_value (0 * 10 + (Z.of_N c - 48)) l). rewrite digits_value_acc, Nat2Z.inj_succ, Z.pow_succ_r by lia.
  unfold digits_value. unfold is_digit in Hc. nia.
Qed.
(** Of two digit strings of one length, the greater text is the greater number. *)
Lemma digits_compare a b : Forall is_digit a → Forall is_digit b → length a = length b →
  units_compare a b = (digits_value 0 a ?= digits_value 0 b).
Proof.
  intros Ha. revert b. induction Ha as [|x a Hx Ha IH]; intros [|y b] Hb Hlen; try done.
  inversion Hb as [|? ? Hy Hb']; subst. injection Hlen as Hlen. cbn [units_compare].
  change (digits_value 0 (x :: a)) with (digits_value (Z.of_N x - 48) a).
  change (digits_value 0 (y :: b)) with (digits_value (Z.of_N y - 48) b).
  rewrite (digits_value_acc _ a), (digits_value_acc _ b), Hlen.
  pose proof (digits_value_bounds a Ha) as Ba. pose proof (digits_value_bounds b Hb') as Bb. rewrite Hlen in Ba.
  set (w := 10 ^ Z.of_nat (length b)) in *. rewrite (IH b Hb' Hlen). unfold is_digit in *.
  destruct (N.compare_spec x y) as [->|Hxy|Hxy]; cbn [cmp_or].
  - destruct (Z.compare_spec (digits_value 0 a) (digits_value 0 b)); symmetry;
      [apply Z.compare_eq_iff|apply Z.compare_lt_iff|apply Z.compare_gt_iff]; lia.
  - symmetry. apply Z.compare_lt_iff. nia.
  - symmetry. apply Z.compare_gt_iff. nia.
Qed.

Lemma decimal_longer m n : (length (units (decimal n)) < length (units (decimal m)))%nat → (n < m)%N.
Proof.
  intros Hlt. destruct (decimal_head m) as [->|(c & d & E & Hc)].
  { exfalso. assert (units (decimal n) ≠ []) by apply decimal_nonempty. destruct (units (decimal n)); cbn in Hlt; [done|lia]. }
  pose proof (decimal_digits m) as Hm. pose proof (digits_value_bounds _ (decimal_digits n)) as Bn.
  rewrite decimal_value_eq in Bn. pose proof (decimal_value_eq m) as Vm. rewrite E in Hm, Vm, Hlt.
  inversion Hm as [|? ? Hcd Hd]; subst. change (digits_value 0 (c :: d)) with (digits_value (Z.of_N c - 48) d) in Vm.
  rewrite digits_value_acc in Vm. pose proof (digits_value_bounds d Hd) as Bd. unfold is_digit in Hcd. cbn [length] in Hlt.
  assert (10 ^ Z.of_nat (length (units (decimal n))) <= 10 ^ Z.of_nat (length d)) by (apply Z.pow_le_mono_r; lia).
  assert (1 <= Z.of_N c - 48) by lia. nia.
Qed.
(** Loki's nanosecond timestamps, longer than what a JavaScript number holds, are ordered
    as the numbers they write, whatever their length. *)
Theorem loki_order_exact m n : lokiLaterThan (decimal m) (decimal n) = (n <? m)%N.
Proof.
  unfold lokiLaterThan, js_gtb, js_compare, js_length. destruct (N.eqb_spec (N.of_nat (length (units (decimal m)))) (N.of_nat (length (units (decimal n))))) as [E|E].
  - rewrite digits_compare; [|apply decimal_digits..|lia]. rewrite !decimal_value_eq.
    destruct (Z.compare_spec (Z.of_N m) (Z.of_N n)); symmetry; [apply N.ltb_ge|apply N.ltb_ge|apply N.ltb_lt]; lia.
  - destruct (N.ltb_spec (N.of_nat (length (units (decimal n)))) (N.of_nat (length (units (decimal m))))) as [Hlt|Hge]; symmetry.
    + apply N.ltb_lt, decimal_longer. lia.
    + apply N.ltb_ge, N.lt_le_incl, decimal_longer. lia.
Qed.

(** ** The timestamp of a log line *)

Definition fits_picture (p d : N) : Prop := if decide (p = 48%N) then is_digit d else d = p.
Definition is_stamp (l : list N) : Prop := Forall2 fits_picture STAMP_PICTURE l.
Lemma is_digitb_spec c : is_digitb c = true ↔ is_digit c.
Proof. unfold is_digitb, is_digit. rewrite andb_true_iff, !N.leb_le. done. Qed.
Lemma fits_picture_test p d : (if (p =? 48)%N then is_digitb d else (d =? p)%N) = true ↔ fits_picture p d.
Proof. unfold fits_picture. destruct (N.eqb_spec p 48) as [->|Hp]; [by rewrite is_digitb_spec|]. rewrite decide_False by done. apply N.eqb_eq. Qed.
Lemma matches_picture_spec pic l m rest : matches_picture pic l = Some (m, rest) ↔ l = m ++ rest ∧ Forall2 fits_picture pic m.
Proof.
  revert l m rest. induction pic as [|p pic IH]; intros l m rest; cbn [matches_picture].
  - split; [intros [= <- <-]; done|]. intros [-> H]. by inversion H.
  - destruct l as [|d l]; [split; [done|]; intros [E H]; inversion H; by subst|].
    destruct (if (p =? 48)%N then is_digitb d else (d =? p)%N) eqn:Et.
    + apply fits_picture_test in Et. destruct (matches_picture pic l) as [[m' rest']|] eqn:Em.
      * apply IH in Em as [-> Hm]. split; [intros [= <- <-]; split; [done|by constructor]|].
        intros [E H]. inversion H as [|? d' ? m0 Hd Hrest Ep Edm]; subst. injection E as -> E.
        destruct (app_inj_1 m' m0 rest' rest) as [-> ->]; [|done|done].
        by rewrite <- (Forall2_length _ _ _ Hm), <- (Forall2_length _ _ _ Hrest).
      * split; [done|]. intros [E H]. inversion H as [|? d' ? m0 Hd Hrest Ep Edm]; subst. injection E as -> E.
        pose proof (proj2 (IH l m0 rest) (conj E Hrest)). congruence.
    + split; [done|]. intros [E H]. inversion H as [|? d' ? m0 Hd Hrest Ep Edm]; subst. injection E as -> E.
      apply fits_picture_test in Hd. congruence.
Qed.
Lemma up_to_digits_spec n l f rest : up_to_digits n l = (f, rest) → l = f ++ rest ∧ Forall is_digit f ∧ (length f <= n)%nat.
Proof.
  revert l f rest. induction n as [|n IH]; intros l f rest; cbn [up_to_digits]; [intros [= <- <-]; split_and!; [done|constructor|done]|].
  destruct l as [|d l]; [intros [= <- <-]; split_and!; [done|constructor|cbn; lia]|].
  destruct (is_digitb d) eqn:Ed; [|intros [= <- <-]; split_and!; [done|constructor|cbn; lia]].
  destruct (up_to_digits n l) as [f' rest'] eqn:E. intros [= <- <-]. destruct (IH _ _ _ E) as (-> & Hf & Hl).
  split_and!; [done|constructor; [by apply is_digitb_spec|done]|cbn; lia].
Qed.
Lemma up_to_digits_all n f rest : Forall is_digit f → (length f <= n)%nat →
  (∀ c r, rest = c :: r → ¬ is_digit c) → up_to_digits n (f ++ rest) = (f, rest).
Proof.
  intros Hf. revert n. induction Hf as [|c f Hc Hf IH]; intros n Hn Hr.
  - destruct n, rest as [|c rest]; try done. cbn. destruct (is_digitb c) eqn:E; [|done].
    apply is_digitb_spec in E. by destruct (Hr c rest).
  - destruct n as [|n]; [cbn in Hn; lia|]. cbn. rewrite (proj2 (is_digitb_spec c) Hc), IH; [done|cbn in Hn; lia|done].
Qed.
Lemma ends_stamp_spec l : ends_stamp l = true ↔ ∃ c r, l = 90%N :: c :: r ∧ is_space c = true.
Proof.
  split.
  - destruct l as [|x [|c r]]; cbn; try (repeat case_match; done). intros H. exists c, r.
    destruct (decide (x = 90%N)) as [->|Hx]; [done|]. repeat case_match; done.
  - intros (c & r & -> & H). done.
Qed.

(** A line that starts with an RFC 3339 time of day, with [f] after the point. *)
Definition stamped (line : jstring) (second f : list N) : Prop := is_stamp second ∧ Forall is_digit f ∧ (length f <= 9)%nat ∧
  ∃ c rest, is_space c = true ∧
    units line = second ++ match f with [] => [] | _ => 46%N :: f end ++ 90%N :: c :: rest.
Lemma timestamp_spec line ts : logLineTimestamp line = Some ts ↔
  ∃ second f, stamped line second f ∧ ts = {| ts_second := JS second; ts_nanos := digits_value 0 (padEnd9 f) |}.
Proof.
  unfold logLineTimestamp. split.
  - destruct (matches_picture _ _) as [[second rest]|] eqn:Em; [|done]. apply matches_picture_spec in Em as [Eu Hs].
    assert (Hno : ends_stamp rest = true → ts = {| ts_second := JS second; ts_nanos := digits_value 0 (padEnd9 []) |} →
      ∃ second f, stamped line second f ∧ ts = {| ts_second := JS second; ts_nanos := digits_value 0 (padEnd9 f) |}).
    { intros (c & r & -> & Hc)%ends_stamp_spec ->. exists second, []. split; [|done]. split_and!; [done|constructor|cbn; lia|].
      exists c, r. done. }
    assert (Hyes : ∀ rest', rest = 46%N :: rest' → match up_to_digits 9 rest' with
      | ([], _) => None
      | (f, rest'') => if ends_stamp rest'' then Some {| ts_second := JS second; ts_nanos := digits_value 0 (padEnd9 f) |} else None
      end = Some ts →
      ∃ second f, stamped line second f ∧ ts = {| ts_second := JS second; ts_nanos := digits_value 0 (padEnd9 f) |}).
    { intros rest' ->. destruct (up_to_digits 9 rest') as [f rest''] eqn:Ed. apply up_to_digits_spec in Ed as (-> & Hf & Hlen).
      destruct f as [|d f]; [done|]. destruct (ends_stamp rest'') eqn:Ee; [|done]. intros [= <-].
      apply ends_stamp_spec in Ee as (c & r & -> & Hc). exists second, (d :: f). split; [|done]. split_and!; [done..|].
      exists c, r. split; [done|]. by rewrite Eu. }
    destruct rest as [|x rest]; [done|]. destruct (decide (x = 46%N)) as [->|Hx]; [by apply Hyes|].
    intros H. apply Hno; repeat case_match; congruence.
  - intros (second & f & (Hs & Hf & Hlen & c & rest & Hc & Eu) & ->).
    rewrite (proj2 (matches_picture_spec _ _ second _) (conj Eu Hs)). destruct f as [|d f].
    + cbn [app]. by rewrite (proj2 (ends_stamp_spec _)) by eauto.
    + cbn [app]. change (d :: f ++ 90%N :: c :: rest) with ((d :: f) ++ 90%N :: c :: rest).
      rewrite up_to_digits_all; [|done|done|]. { by rewrite (proj2 (ends_stamp_spec _)) by eauto. }
      intros ? ? [= <- _]. unfold is_digit. lia.
Qed.

(** *** Order *)

Definition digits_of (l : list N) : list N := filter (λ c, is_digit c) l.
(** The instant a timestamp writes: its digits as one number, then the nanoseconds. *)
Definition instant (ts : Timestamp) : Z := digits_value 0 (digits_of (units (ts_second ts))) * 10 ^ 9 + ts_nanos ts.
Lemma stamp_digits pic a b : Forall2 fits_picture pic a → Forall2 fits_picture pic b → Forall (λ p, p = 48%N ∨ ¬ is_digit p) pic →
  length (digits_of a) = length (digits_of b) ∧ units_compare a b = units_compare (digits_of a) (digits_of b).
Proof.
  intros Ha. revert b. induction Ha as [|p x pic a Hx Ha IH]; intros b Hb Hp; inversion Hb as [|? y ? b' Hy Hb']; subst; [done|].
  inversion Hp as [|? ? Hp0 Hp']; subst. destruct (IH b' Hb' Hp') as [El Ec]. unfold fits_picture in Hx, Hy. unfold digits_of in *.
  rewrite !filter_cons. destruct (decide (p = 48%N)) as [->|Hne].
  - rewrite !decide_True by done. cbn. by rewrite El, Ec.
  - destruct Hp0 as [|Hp0]; [done|]. subst x y. rewrite !decide_False by done. cbn. by rewrite N.compare_refl, Ec.
Qed.
Lemma picture_plain : Forall (λ p, p = 48%N ∨ ¬ is_digit p) STAMP_PICTURE.
Proof. apply (bool_decide_unpack _). vm_compute. exact I. Qed.
Lemma padEnd9_value f : (length f <= 9)%nat → digits_value 0 (padEnd9 f) = digits_value 0 f * 10 ^ (9 - Z.of_nat (length f)).
Proof.
  intros Hf. unfold padEnd9. rewrite digits_value_app, digits_value_acc, length_replicate.
  assert (E : ∀ n, digits_value 0 (replicate n 48%N) = 0) by (intros n; unfold digits_value; induction n; done).
  rewrite E, Nat2Z.inj_sub by done. change (Z.of_nat 9) with 9. lia.
Qed.
Lemma padEnd9_bounds f : Forall is_digit f → (length f <= 9)%nat → 0 <= digits_value 0 (padEnd9 f) < 10 ^ 9.
Proof.
  intros Hf Hlen. assert (Forall is_digit (padEnd9 f)) as Hd.
  { apply Forall_app. split; [done|]. apply Forall_replicate. unfold is_digit. lia. }
  apply digits_value_bounds in Hd. unfold padEnd9 in Hd at 3. rewrite length_app, length_replicate in Hd.
  replace (length f + (9 - length f))%nat with 9%nat in Hd by lia. exact Hd.
Qed.
Lemma later_instant second f second' f' : is_stamp second → is_stamp second' → Forall is_digit f → Forall is_digit f' →
  (length f <= 9)%nat → (length f' <= 9)%nat →
  let ts := {| ts_second := JS second; ts_nanos := digits_value 0 (padEnd9 f) |} in
  let ts' := {| ts_second := JS second'; ts_nanos := digits_value 0 (padEnd9 f') |} in
  laterThan ts ts' = (instant ts' <? instant ts).
Proof.
  intros Hs Hs' Hf Hf' Hl Hl' ts ts'. destruct (stamp_digits _ _ _ Hs Hs' picture_plain) as [El Ec].
  pose proof (padEnd9_bounds f Hf Hl) as B. pose proof (padEnd9_bounds f' Hf' Hl') as B'.
  assert (Hd : ∀ l, Forall is_digit (digits_of l)) by (intros l; apply Forall_forall; by intros ? [? _]%list_elem_of_filter).
  rewrite (digits_compare _ _ (Hd _) (Hd _) El) in Ec. unfold laterThan, instant, ts, ts'. cbn [ts_second ts_nanos units].
  destruct (js_eqb (JS second) (JS second')) eqn:E.
  - apply js_eqb_eq in E as [= <-]. destruct (Z.ltb_spec (digits_value 0 (padEnd9 f')) (digits_value 0 (padEnd9 f))); symmetry;
      [apply Z.ltb_lt|apply Z.ltb_ge]; lia.
  - unfold js_gtb, js_compare. cbn [units]. rewrite Ec.
    destruct (Z.compare_spec (digits_value 0 (digits_of second)) (digits_value 0 (digits_of second'))) as [Eq|Hlt|Hgt]; symmetry.
    + exfalso. apply units_compare_eq in Ec as ->.
      assert (js_eqb (JS second') (JS second') = true) by (by apply js_eqb_eq). congruence.
    + apply Z.ltb_ge. nia.
    + apply Z.ltb_lt. nia.
Qed.
Definition time_of (second f : list N) : Z :=
  digits_value 0 (digits_of second) * 10 ^ 9 + digits_value 0 f * 10 ^ (9 - Z.of_nat (length f)).

(** A resumed tail drops exactly what it has shown. With the last line shown written at
    one time and a line of the resumed stream at another, in RFC 3339 with any number of
    digits after the point, the line is dropped when its time is not later; a line with no
    timestamp is kept. *)
Theorem replay_exact shown second f line : stamped shown second f →
  (∀ second' f', stamped line second' f' →
    isReplayedLine line (logLineTimestamp shown) = true ↔ time_of second' f' <= time_of second f) ∧
  ((∀ second' f', ¬ stamped line second' f') → isReplayedLine line (logLineTimestamp shown) = false).
Proof.
  intros Hst. pose proof (proj2 (timestamp_spec shown _) (ex_intro _ second (ex_intro _ f (conj Hst eq_refl)))) as ->.
  destruct Hst as (Hs & Hf & Hl & _). unfold isReplayedLine. split.
  - intros second' f' Hst'. rewrite (proj2 (timestamp_spec line _) (ex_intro _ second' (ex_intro _ f' (conj Hst' eq_refl)))).
    destruct Hst' as (Hs' & Hf' & Hl' & _). rewrite later_instant by done. rewrite negb_true_iff, Z.ltb_ge.
    unfold instant, time_of. cbn [ts_second ts_nanos units]. rewrite !padEnd9_value by done. done.
  - intros Hno. destruct (logLineTimestamp line) as [ts|] eqn:E; [|done].
    apply timestamp_spec in E as (s' & f' & Hst' & _). by destruct (Hno s' f').
Qed.

(** ** Witness *)

Definition demo_line : jstring := "2026-05-01T10:00:00.25Z first"%js.
Lemma demo_stamped : stamped demo_line (units "2026-05-01T10:00:00"%js) (units "25"%js).
Proof.
  split_and!.
  - unfold is_stamp. repeat (constructor; [vm_compute; done|]). constructor.
  - repeat (constructor; [vm_compute; done|]). constructor.
  - cbn. lia.
  - exists 32%N, (units "first"%js). done.
Qed.
Lemma replay_exact_witness : isReplayedLine demo_line (logLineTimestamp demo_line) = true.
Proof. apply (proj1 (replay_exact demo_line _ _ demo_line demo_stamped) _ _ demo_stamped). apply Z.le_refl. Defined.
Example replay_examples :
  isReplayedLine "2026-05-01T10:00:00.250000001Z next"%js (logLineTimestamp demo_line) = false ∧
  isReplayedLine "2026-05-01T10:00:00Z before"%js (logLineTimestamp demo_line) = true ∧
  isReplayedLine "no time at all"%js (logLineTimestamp demo_line) = false ∧
  lokiLaterThan "10000000000000000001"%js "9999999999999999999"%js = true.
Proof. vm_compute. done. Qed.
