(* ===== verification/LogTail.v ===== *)
(** * The live log tail: LogLiveTail.tsx

    A tail of a Loki query over a WebSocket. An end the server marks retryable
    is resumed after a backoff, from the last line shown, on the cluster the
    tail was opened for. The component's refs and signals, the browser's
    sockets, the one timer and the refreshes awaited are one state; a handler is
    a function of it, and a run is any list of events, so late events of
    replaced sockets and late refreshes are covered. A frame is what its JSON
    says; a log message is what its loops visit before they end or throw. *)

From stdpp Require Import base list strings.
From Stdlib Require Import ZArith NArith Lia.
From S2P Require Import Prelude JsValue Cluster Streams.

Open Scope nat_scope.

(** ** Definitions *)

Inductive TailStatus := connecting | connected | reconnecting | disconnected.
#[export] Instance TailStatus_eq : EqDecision TailStatus.
Proof. solve_decision. Defined.
Record LogLine := { ll_timestamp : jstring; ll_line : jstring; ll_labels : jsval }.
Definition MAX_LINES : nat := 5000.
Definition RECONNECTED_MARKER : LogLine :=
  {| ll_timestamp := ""%js; ll_line := "--- reconnected ---"%js; ll_labels := JObj [] |}.

(** [/^\d{1,19}$/] *)
Definition NANOS (s : jstring) : bool :=
  forallb is_digitb (units s) && negb (js_eqb s ""%js) && (js_length s <=? 19)%N.
Inductive Frame := FAuth (f : AuthFrame) | FSubscribe (query namespace : jstring) (start : option jstring).
Definition subscribeFrame (query namespace : jstring) (start : option jstring) : Frame :=
  FSubscribe query namespace (match start with Some s => if NANOS s then Some s else None | None => None end).

(** A socket with the variables of the [connect] that made it. *)
Record Sock := {
  sk_resume : bool;
  sk_opened : bool;
  sk_subscribed : bool;
  sk_ended : bool;
  sk_streamed : bool;
  sk_closed : bool;
  sk_sent : list Frame
}.
(** A pending resume: whether it refreshes the session first, and the epoch it
    was scheduled in. *)
Record Resume := { rs_refresh : bool; rs_epoch : nat; rs_delay : Z }.
Record Refs := {
  wsRef : option nat;
  triesRef : nat;
  retryTimer : option Resume;
  resumeEpoch : nat;
  lastTimestamp : option jstring;
  resumeAfter : option jstring
}.
Record View := { status : TailStatus; tail_error : jstring; tail_lines : list LogLine }.
Record Props := { active : bool; query : jstring; tail_namespace : jstring }.
(** [shown] is history, not code: the timestamps appended since the tail was
    last opened afresh. *)
Record Tail := {
  refs : Refs;
  view : View;
  props : Props;
  sockets : list Sock;
  awaiting_refresh : list nat;
  awaiting_token : list nat;
  effect_live : bool;
  gone : bool;
  shown : list jstring
}.

Definition set_refs (r : Refs) (t : Tail) : Tail :=
  {| refs := r; view := view t; props := props t; sockets := sockets t; awaiting_refresh := awaiting_refresh t;
     awaiting_token := awaiting_token t; effect_live := effect_live t; gone := gone t; shown := shown t |}.
Definition set_view (v : View) (t : Tail) : Tail :=
  {| refs := refs t; view := v; props := props t; sockets := sockets t; awaiting_refresh := awaiting_refresh t;
     awaiting_token := awaiting_token t; effect_live := effect_live t; gone := gone t; shown := shown t |}.
Definition set_sockets (l : list Sock) (t : Tail) : Tail :=
  {| refs := refs t; view := view t; props := props t; sockets := l; awaiting_refresh := awaiting_refresh t;
     awaiting_token := awaiting_token t; effect_live := effect_live t; gone := gone t; shown := shown t |}.
Definition set_waits (rf tk : list nat) (t : Tail) : Tail :=
  {| refs := refs t; view := view t; props := props t; sockets := sockets t; awaiting_refresh := rf;
     awaiting_token := tk; effect_live := effect_live t; gone := gone t; shown := shown t |}.
Definition set_mount (p : Props) (live g : bool) (t : Tail) : Tail :=
  {| refs := refs t; view := view t; props := p; sockets := sockets t; awaiting_refresh := awaiting_refresh t;
     awaiting_token := awaiting_token t; effect_live := live; gone := g; shown := shown t |}.
Definition set_shown (s : list jstring) (t : Tail) : Tail :=
  {| refs := refs t; view := view t; props := props t; sockets := sockets t; awaiting_refresh := awaiting_refresh t;
     awaiting_token := awaiting_token t; effect_live := effect_live t; gone := gone t; shown := s |}.

Definition with_ws (w : option nat) (r : Refs) : Refs :=
  {| wsRef := w; triesRef := triesRef r; retryTimer := retryTimer r; resumeEpoch := resumeEpoch r;
     lastTimestamp := lastTimestamp r; resumeAfter := resumeAfter r |}.
Definition with_tries (n : nat) (r : Refs) : Refs :=
  {| wsRef := wsRef r; triesRef := n; retryTimer := retryTimer r; resumeEpoch := resumeEpoch r;
     lastTimestamp := lastTimestamp r; resumeAfter := resumeAfter r |}.
Definition with_timer (x : option Resume) (e : nat) (r : Refs) : Refs :=
  {| wsRef := wsRef r; triesRef := triesRef r; retryTimer := x; resumeEpoch := e; lastTimestamp := lastTimestamp r;
     resumeAfter := resumeAfter r |}.
Definition with_marks (last after : option jstring) (r : Refs) : Refs :=
  {| wsRef := wsRef r; triesRef := triesRef r; retryTimer := retryTimer r; resumeEpoch := resumeEpoch r;
     lastTimestamp := last; resumeAfter := after |}.
Definition set_status (s : TailStatus) (t : Tail) : Tail :=
  set_view {| status := s; tail_error := tail_error (view t); tail_lines := tail_lines (view t) |} t.
Definition set_error (e : jstring) (t : Tail) : Tail :=
  set_view {| status := status (view t); tail_error := e; tail_lines := tail_lines (view t) |} t.
Definition on_sock (id : nat) (f : Sock → Sock) (t : Tail) : Tail := set_sockets (alter f id (sockets t)) t.
Definition close_sock (s : Sock) : Sock :=
  {| sk_resume := sk_resume s; sk_opened := sk_opened s; sk_subscribed := sk_subscribed s; sk_ended := sk_ended s;
     sk_streamed := sk_streamed s; sk_closed := true; sk_sent := sk_sent s |}.
Definition open_sock (s : Sock) : Sock :=
  {| sk_resume := sk_resume s; sk_opened := true; sk_subscribed := sk_subscribed s; sk_ended := sk_ended s;
     sk_streamed := sk_streamed s; sk_closed := sk_closed s; sk_sent := sk_sent s |}.
Definition mark_sock (sub en str : bool) (s : Sock) : Sock :=
  {| sk_resume := sk_resume s; sk_opened := sk_opened s; sk_subscribed := sub || sk_subscribed s;
     sk_ended := en || sk_ended s; sk_streamed := str || sk_streamed s; sk_closed := sk_closed s; sk_sent := sk_sent s |}.
Definition send_sock (fs : list Frame) (s : Sock) : Sock :=
  {| sk_resume := sk_resume s; sk_opened := sk_opened s; sk_subscribed := sk_subscribed s; sk_ended := sk_ended s;
     sk_streamed := sk_streamed s; sk_closed := sk_closed s; sk_sent := sk_sent s ++ fs |}.

Definition appendLines (newLines : list LogLine) (t : Tail) : Tail :=
  match newLines with
  | [] => t
  | _ =>
      let updated := tail_lines (view t) ++ newLines in
      set_view {| status := status (view t); tail_error := tail_error (view t);
                  tail_lines := drop (length updated - MAX_LINES) updated |} t
  end.
Definition cancelResume (t : Tail) : Tail := set_refs (with_timer None (S (resumeEpoch (refs t))) (refs t)) t.
Definition closeWS (t : Tail) : Tail :=
  let t1 := cancelResume t in
  match wsRef (refs t1) with
  | None => t1
  | Some id => on_sock id close_sock (set_refs (with_ws None (refs t1)) t1)
  end.

Section Component.
Context (toLowerCase : jstring → jstring) (pin : ClusterTarget).
Definition tail_message (frame : StreamErrorFrame) : jstring := streamErrorMessage toLowerCase frame "Live log search"%js.
Definition endTail (frame : StreamErrorFrame) (t : Tail) : Tail :=
  let t1 := closeWS t in
  match (if sf_retryable frame then RECONNECT_DELAYS_MS !! triesRef (refs t1) else None) with
  | Some delay =>
      let r := refs t1 in
      set_refs (with_timer (Some {| rs_refresh := bool_decide (sf_reason frame = Some "token_expired"%js);
                                    rs_epoch := resumeEpoch r; rs_delay := delay |})
                  (resumeEpoch r) (with_tries (S (triesRef r)) r)) (set_status reconnecting t1)
  | None => set_error (tail_message frame) (set_status disconnected t1)
  end.
Definition connect (resume : bool) (t : Tail) : Tail :=
  let t1 := closeWS t in
  let t2 := if resume then set_refs (with_marks (lastTimestamp (refs t1)) (lastTimestamp (refs t1)) (refs t1)) t1
            else set_shown [] (set_refs (with_marks None None (with_tries 0 (refs t1))) t1) in
  let t3 := set_error ""%js (if resume then t2 else set_status connecting t2) in
  let id := length (sockets t3) in
  set_sockets (sockets t3 ++ [{| sk_resume := resume; sk_opened := false; sk_subscribed := false; sk_ended := false;
                                 sk_streamed := false; sk_closed := false; sk_sent := [] |}])
    (set_refs (with_ws (Some id) (refs t3)) t3).
Definition reconnect (t : Tail) : Tail := connect true (set_refs (with_tries 0 (refs t)) t).

(** [authenticate], of socket [id]. *)
Definition authenticate (id : nat) (s : Sock) (token : option jstring) (t : Tail) : Tail :=
  match token with
  | None => set_error "Not authenticated"%js (set_status disconnected
      (on_sock id (λ s, close_sock (mark_sock false true false s)) (set_refs (with_ws None (refs t)) t)))
  | Some tok => on_sock id (send_sock [FAuth (streamAuthFrame tok pin);
      subscribeFrame (query (props t)) (tail_namespace (props t)) (if sk_resume s then resumeAfter (refs t) else None)]) t
  end.
Definition onopen (id : nat) (s : Sock) (token : option jstring) (t : Tail) : Tail :=
  match token with
  | Some _ => authenticate id s token t
  | None => set_waits (awaiting_refresh t) (awaiting_token t ++ [id]) t
  end.

(** What a message says: an entry of a log batch is a timestamp, a line and its
    labels, and [throws] when the loops run into something malformed. *)
Inductive Message :=
| Subscribed
| ErrorFrame (frame : StreamErrorFrame)
| Log (entries : list (jstring * jstring * jsval)) (throws : bool)
| Ignored.
(** One turn of the inner loop: the last timestamp and the new lines so far. *)
Definition take_entry (after : option jstring) (acc : option jstring * list LogLine) (e : jstring * jstring * jsval) :
    option jstring * list LogLine :=
  let '(timestamp, line, labels) := e in
  if match after with Some a => negb (lokiLaterThan timestamp a) | None => false end then acc
  else (match acc.1 with
        | None => Some timestamp
        | Some l => if lokiLaterThan timestamp l then Some timestamp else acc.1 end,
        acc.2 ++ [{| ll_timestamp := timestamp; ll_line := line; ll_labels := labels |}]).
Definition on_log (id : nat) (s : Sock) (entries : list (jstring * jstring * jsval)) (throws : bool) (t : Tail) : Tail :=
  let t1 := if sk_streamed s then t
            else on_sock id (mark_sock false false true) (set_refs (with_tries 0 (refs t)) t) in
  let after := resumeAfter (refs t1) in
  let '(last, newLines) := foldl (take_entry after) (lastTimestamp (refs t1), []) entries in
  if throws then set_refs (with_marks last after (refs t1)) t1
  else
    let t2 := set_refs (with_marks last (match newLines with [] => after | _ => None end) (refs t1)) t1 in
    appendLines newLines (set_shown (shown t2 ++ (ll_timestamp <$> newLines)) t2).
Definition onmessage (id : nat) (s : Sock) (msg : Message) (t : Tail) : Tail :=
  match msg with
  | Subscribed =>
      let t1 := set_error ""%js (set_status connected (on_sock id (mark_sock true false false) t)) in
      if sk_resume s then appendLines [RECONNECTED_MARKER] t1 else t1
  | ErrorFrame frame =>
      match reason_of frame with
      | Some _ => endTail frame t
      | None => set_error (tail_message frame) (set_status disconnected (on_sock id (mark_sock false true false) t))
      end
  | Log entries throws => on_log id s entries throws t
  | Ignored => t
  end.
(** A resume that never subscribed. *)
Definition failed_resume (s : Sock) : bool := sk_resume s && negb (sk_subscribed s) && negb (sk_ended s).
Definition onclose (id : nat) (s : Sock) (t : Tail) : Tail :=
  let t1 := on_sock id close_sock (set_refs (with_ws None (refs t)) t) in
  if failed_resume s
  then endTail {| sf_reason := Some "connect_failed"%js; sf_message := None; sf_retryable := true |} t1
  else set_status disconnected t1.
Definition onerror (s : Sock) (t : Tail) : Tail := if failed_resume s then t else set_status disconnected t.
(** The callback of the timer, up to its [await], and past it. *)
Definition resume_now (epoch : nat) (t : Tail) : Tail := if (resumeEpoch (refs t) =? epoch)%nat then connect true t else t.
Definition on_timer (t : Tail) : Tail :=
  match retryTimer (refs t) with
  | None => t
  | Some x =>
      let t1 := set_refs (with_timer None (resumeEpoch (refs t)) (refs t)) t in
      if rs_refresh x then set_waits (awaiting_refresh t1 ++ [rs_epoch x]) (awaiting_token t1) t1
      else resume_now (rs_epoch x) t1
  end.
(** The effect of [props.active] and [props.query], its cleanup first. *)
Definition run_effect (p : Props) (t : Tail) : Tail :=
  let t1 := if effect_live t then closeWS t else t in
  if negb (active p) || js_eqb (query p) ""%js
  then set_mount p false (gone t) (set_status disconnected (closeWS t1))
  else set_mount p true (gone t) (connect false (set_mount p false (gone t) t1)).
Definition unmount (t : Tail) : Tail := set_mount (props t) false true (if effect_live t then closeWS t else t).
Definition button_shown (t : Tail) : bool :=
  negb (gone t) && active (props t) && negb (js_eqb (tail_error (view t)) ""%js) &&
  bool_decide (status (view t) = disconnected).

Inductive Event :=
| SetProps (p : Props)
| SetLines (l : list LogLine)          (** the page clears or replaces the lines *)
| Unmount
| ClickReconnect
| TimerFires
| Refreshed (n : nat)                  (** the [n]th awaited refresh lands *)
| TokenReady (n : nat) (token : option jstring)
| Opened (id : nat) (token : option jstring)
| Arrived (id : nat) (msg : Message)
| Closed (id : nat)
| Errored (id : nat).
(** A handler of socket [id] runs its body when the socket is the current one. *)
Definition current (id : nat) (f : Sock → Tail → Tail) (t : Tail) : Tail :=
  if bool_decide (wsRef (refs t) = Some id) then match sockets t !! id with Some s => f s t | None => t end else t.
Definition same_deps (p q : Props) : bool := Bool.eqb (active p) (active q) && js_eqb (query p) (query q).
Definition step (t : Tail) (e : Event) : Tail :=
  match e with
  | SetProps p =>
      if gone t then t
      else if same_deps p (props t) then set_mount p (effect_live t) (gone t) t else run_effect p t
  | SetLines l => set_view {| status := status (view t); tail_error := tail_error (view t); tail_lines := l |} t
  | Unmount => unmount t
  | ClickReconnect => if button_shown t then reconnect t else t
  | TimerFires => on_timer t
  | Refreshed n =>
      match awaiting_refresh t !! n with
      | Some epoch => resume_now epoch (set_waits (delete n (awaiting_refresh t)) (awaiting_token t) t)
      | None => t
      end
  | TokenReady n token =>
      match awaiting_token t !! n with
      | Some id => current id (λ s, authenticate id s token) (set_waits (awaiting_refresh t) (delete n (awaiting_token t)) t)
      | None => t
      end
  | Opened id token =>
      match sockets t !! id with
      | Some s => if sk_opened s then t else current id (λ s, onopen id s token) (on_sock id open_sock t)
      | None => t
      end
  | Arrived id msg => current id (λ s, onmessage id s msg) t
  | Closed id => current id (onclose id) t
  | Errored id => current id onerror t
  end.
Definition fresh : Tail :=
  {| refs := {| wsRef := None; triesRef := 0; retryTimer := None; resumeEpoch := 0; lastTimestamp := None;
                resumeAfter := None |};
     view := {| status := disconnected; tail_error := ""%js; tail_lines := [] |};
     props := {| active := false; query := ""%js; tail_namespace := ""%js |};
     sockets := []; awaiting_refresh := []; awaiting_token := []; effect_live := false; gone := false; shown := [] |}.
Definition run (es : list Event) : Tail := foldl step fresh es.
End Component.

(** ** Closing *)

(** What [closeWS] leaves of the rest. *)
Record closed_from (t t' : Tail) : Prop := {
  cf_ws : wsRef (refs t') = None;
  cf_timer : retryTimer (refs t') = None;
  cf_epoch : resumeEpoch (refs t') = S (resumeEpoch (refs t));
  cf_tries : triesRef (refs t') = triesRef (refs t);
  cf_marks : lastTimestamp (refs t') = lastTimestamp (refs t) ∧ resumeAfter (refs t') = resumeAfter (refs t);
  cf_shown : shown t' = shown t;
  cf_waits : awaiting_refresh t' = awaiting_refresh t ∧ awaiting_token t' = awaiting_token t;
  cf_mount : props t' = props t ∧ effect_live t' = effect_live t ∧ gone t' = gone t ∧ view t' = view t;
  cf_sockets : sockets t' = match wsRef (refs t) with Some id => alter close_sock id (sockets t) | None => sockets t end
}.
Lemma closeWS_spec t : closed_from t (closeWS t).
Proof. unfold closeWS. cbn. destruct (wsRef (refs t)) eqn:E; split; cbn; rewrite ?E; done. Qed.
Lemma close_length t : length (sockets (closeWS t)) = length (sockets t).
Proof. rewrite (cf_sockets _ _ (closeWS_spec t)). destruct (wsRef _); [apply length_alter|done]. Qed.

(** ** The books of the tail *)

(** Only the current socket is open; nothing scheduled in an epoch that is over
    can resume; at most one resume is pending, and none while a socket is
    current. *)
Definition pending (t : Tail) : nat :=
  (if retryTimer (refs t) then 1 else 0) + length (filter (λ e, e = resumeEpoch (refs t)) (awaiting_refresh t)).
Record books (t : Tail) : Prop := {
  bk_open : ∀ id s, sockets t !! id = Some s → sk_closed s = false → wsRef (refs t) = Some id;
  bk_epochs : Forall (λ e, e <= resumeEpoch (refs t)) (awaiting_refresh t);
  bk_timer : ∀ x, retryTimer (refs t) = Some x → rs_epoch x = resumeEpoch (refs t);
  bk_pending : pending t <= (if wsRef (refs t) then 0 else 1);
  bk_tries : triesRef (refs t) <= length RECONNECT_DELAYS_MS
}.
Lemma stale_epochs t e : Forall (λ e, e <= resumeEpoch (refs t)) (awaiting_refresh t) → resumeEpoch (refs t) < e →
  length (filter (λ x, x = e) (awaiting_refresh t)) = 0 ∧ Forall (λ x, x <= e) (awaiting_refresh t).
Proof.
  intros H He. split; [|eapply Forall_impl; [exact H|intros; cbn in *; lia]].
  induction H as [|x l Hx Hl IH]; [done|]. rewrite filter_cons, decide_False by lia. done.
Qed.
Lemma close_books t : books t → books (closeWS t) ∧ pending (closeWS t) = 0.
Proof.
  intros [H1 H2 H3 H4 H5]. destruct (closeWS_spec t) as [C1 C2 C3 C4 _ _ [C5 _] _ C6].
  destruct (stale_epochs t (S (resumeEpoch (refs t))) H2 ltac:(lia)) as [E1 E2].
  assert (Hp : pending (closeWS t) = 0) by (unfold pending; rewrite C2, C3, C5, E1; done).
  split; [|done]. split; rewrite ?C1, ?C2, ?C3, ?C4, ?C5, ?Hp; try done; try lia.
  intros id s. rewrite C6. destruct (wsRef (refs t)) as [w|] eqn:Ew.
  - destruct (decide (id = w)) as [->|Hne].
    + rewrite list_lookup_alter_eq. destruct (sockets t !! w); [|done]. by intros [= <-].
    + rewrite list_lookup_alter_ne by done. intros Hl Hc. specialize (H1 id s Hl Hc). congruence.
  - intros Hl Hc. by specialize (H1 id s Hl Hc).
Qed.
(** Steps that leave the sockets' ends and the pending resumes alone. *)
Record same_books (t t' : Tail) : Prop := {
  sb_refs : wsRef (refs t') = wsRef (refs t) ∧ retryTimer (refs t') = retryTimer (refs t) ∧
    resumeEpoch (refs t') = resumeEpoch (refs t) ∧ triesRef (refs t') = triesRef (refs t);
  sb_waits : awaiting_refresh t' = awaiting_refresh t;
  sb_sockets : sk_closed <$> sockets t' = sk_closed <$> sockets t
}.
Lemma sb_lookup t t' : same_books t t' → ∀ id s', sockets t' !! id = Some s' → ∃ s, sockets t !! id = Some s ∧ sk_closed s = sk_closed s'.
Proof.
  intros [_ _ Hs] id s' Hl. pose proof (f_equal (λ l, l !! id) Hs) as E. cbn in E. rewrite !list_lookup_fmap, Hl in E.
  destruct (sockets t !! id) as [s|]; [|done]. exists s. split; [done|]. cbn in E. congruence.
Qed.
Lemma sb_pending t t' : same_books t t' → pending t' = pending t.
Proof. intros [(_ & E2 & E3 & _) E4 _]. unfold pending. by rewrite E2, E3, E4. Qed.
Lemma tail_books_same t t' : same_books t t' → books t → books t'.
Proof.
  intros Hs [H1 H2 H3 H4 H5]. pose proof (sb_lookup _ _ Hs) as Hl. pose proof (sb_pending _ _ Hs) as Hp.
  destruct Hs as [(E1 & E2 & E3 & E4) E5 _]. split; rewrite ?E1, ?E2, ?E3, ?E4, ?E5, ?Hp; try done.
  intros id s' Hs' Hc. destruct (Hl _ _ Hs') as (s & Hs & Ec). apply (H1 id s); congruence.
Qed.
Lemma sb_refl t : same_books t t.
Proof. by split. Qed.
Lemma sb_trans t t1 t2 : same_books t t1 → same_books t1 t2 → same_books t t2.
Proof.
  intros [(A1 & A2 & A3 & A4) A5 A6] [(B1 & B2 & B3 & B4) B5 B6]. split; [split_and!|..]; congruence.
Qed.
Lemma sb_on_sock id f t : (∀ s, sk_closed (f s) = sk_closed s) → same_books t (on_sock id f t).
Proof.
  intros Hf. split; [done|done|]. cbn. apply list_eq. intros i. rewrite !list_lookup_fmap. destruct (decide (i = id)) as [->|Hne].
  - rewrite list_lookup_alter_eq. destruct (sockets t !! id) as [s|]; [|done]. cbn. by rewrite Hf.
  - by rewrite list_lookup_alter_ne.
Qed.
Lemma sb_view v t : same_books t (set_view v t).
Proof. by split. Qed.
Lemma sb_append l t : same_books t (appendLines l t).
Proof. destruct l; [apply sb_refl|]. by split. Qed.
Lemma sb_length t t' : same_books t t' → length (sockets t') = length (sockets t).
Proof. intros [_ _ H]. apply (f_equal length) in H. by rewrite !length_fmap in H. Qed.
Lemma books_tries0 t : books t → books (set_refs (with_tries 0 (refs t)) t).
Proof. intros [H1 H2 H3 H4 _]. split; try done. cbn. lia. Qed.

(** *** The budget *)

(** Keeping the books, and opening a socket only for a try that was counted. *)
Definition spends (t t' : Tail) : Prop := books t' ∧
  length (sockets t') + pending t' + triesRef (refs t) <= length (sockets t) + pending t + triesRef (refs t').
Lemma spends_same t t' : books t → same_books t t' → spends t t'.
Proof.
  intros Hb Hs. split; [by eapply tail_books_same|]. rewrite (sb_length _ _ Hs), (sb_pending _ _ Hs).
  destruct Hs as [(_ & _ & _ & ->) _ _]. lia.
Qed.
Lemma spends_trans t t1 t2 : spends t t1 → spends t1 t2 → spends t t2.
Proof. intros [_ H1] [Hb H2]. split; [done|lia]. Qed.
Lemma connect_books r t : books t → books (connect r t) ∧ pending (connect r t) = 0 ∧
  length (sockets (connect r t)) = S (length (sockets t)) ∧
  triesRef (refs (connect r t)) = (if r then triesRef (refs t) else 0).
Proof.
  intros Hb. destruct (close_books t Hb) as [[H1 H2 H3 H4 H5] Hp]. pose proof (close_length t) as Hlen.
  destruct (closeWS_spec t) as [C1 C2 C3 C4 _ _ [C5 _] _ C6].
  assert (Hp' : pending (connect r t) = 0) by (unfold pending in *; destruct r; exact Hp).
  split_and!; [|done|destruct r; cbn; rewrite length_app, Hlen; cbn; lia|destruct r; [exact C4|done]].
  assert (Es : sockets (connect r t) = sockets (closeWS t) ++ [{| sk_resume := r; sk_opened := false; sk_subscribed := false;
    sk_ended := false; sk_streamed := false; sk_closed := false; sk_sent := [] |}]) by (by destruct r).
  assert (Ew : wsRef (refs (connect r t)) = Some (length (sockets (closeWS t)))) by (by destruct r).
  split.
  - intros id s. rewrite Es, Ew. intros [Hl|[Hge Hl]]%lookup_app_Some Hc.
    + specialize (H1 id s Hl Hc). rewrite C1 in H1. done.
    + apply list_lookup_singleton_Some in Hl as [Hid _]. f_equal. lia.
  - destruct r; exact H2.
  - intros x. destruct r; cbn; rewrite C2; done.
  - rewrite Hp'. lia.
  - destruct r; cbn; [|lia]. exact H5.
Qed.
Section Books.
Context (toLowerCase : jstring → jstring) (pin : ClusterTarget).
Lemma endTail_spends f t : books t → spends t (endTail toLowerCase f t).
Proof.
  intros Hb. destruct (close_books t Hb) as [[H1 H2 H3 H4 H5] Hp]. pose proof (close_length t) as Hlen.
  destruct (closeWS_spec t) as [C1 C2 C3 C4 _ _ [C5 _] _ C6]. unfold endTail.
  assert (Hq : (if sf_retryable f then RECONNECT_DELAYS_MS !! triesRef (refs (closeWS t)) else None) = None ∨
    ∃ d, (if sf_retryable f then RECONNECT_DELAYS_MS !! triesRef (refs (closeWS t)) else None) = Some d ∧
      triesRef (refs (closeWS t)) < length RECONNECT_DELAYS_MS).
  { destruct (sf_retryable f); [|by left]. destruct (RECONNECT_DELAYS_MS !! _) eqn:E; [right|by left].
    eexists. split; [done|]. by apply lookup_lt_Some in E. }
  destruct Hq as [->|(d & -> & Hlt)].
  - split; [by split|]. cbn. unfold pending in *. cbn. rewrite Hlen, C4. lia.
  - split; [split; cbn; try done|]; unfold pending in *; cbn.
    + by intros x [= <-].
    + rewrite C1, C2 in *. cbn in Hp. lia.
    + cbn. rewrite Hlen, C2, C4 in *. cbn in Hp. lia.
Qed.
Lemma authenticate_spends id s tok t : books t → wsRef (refs t) = Some id → spends t (authenticate pin id s tok t).
Proof.
  intros Hb Hw. destruct tok as [tok|]; [apply spends_same; [done|]; by apply sb_on_sock|].
  destruct Hb as [H1 H2 H3 H4 H5]. rewrite Hw in H4. split; [split|]; cbn; try done.
  - intros i x. destruct (decide (id = i)) as [->|Hne].
    + rewrite list_lookup_alter_eq. destruct (sockets t !! i); [|done]. by intros [= <-].
    + rewrite list_lookup_alter_ne by done. intros Hl Hc. specialize (H1 i x Hl Hc). congruence.
  - unfold pending in *. cbn. lia.
  - rewrite length_alter. unfold pending. cbn. lia.
Qed.
Lemma onclose_spends id s t : books t → wsRef (refs t) = Some id → spends t (onclose toLowerCase id s t).
Proof.
  intros Hb Hw. unfold onclose. set (t1 := on_sock id close_sock _).
  assert (H1 : spends t t1).
  { destruct Hb as [H1 H2 H3 H4 H5]. rewrite Hw in H4. split; [split|]; cbn; try done.
    - intros i x. destruct (decide (id = i)) as [->|Hne].
      + rewrite list_lookup_alter_eq. destruct (sockets t !! i); [|done]. by intros [= <-].
      + rewrite list_lookup_alter_ne by done. intros Hl Hc. specialize (H1 i x Hl Hc). congruence.
    - unfold pending in *. cbn. lia.
    - rewrite length_alter. unfold pending. cbn. lia. }
  destruct (failed_resume s).
  - eapply spends_trans; [exact H1|]. apply endTail_spends, H1.
  - eapply spends_trans; [exact H1|]. apply spends_same; [apply H1|]. apply sb_view.
Qed.
Lemma resume_spends e t t1 : books t1 → sockets t1 = sockets t → triesRef (refs t1) = triesRef (refs t) →
  pending t1 + (if (resumeEpoch (refs t1) =? e)%nat then 1 else 0) <= pending t → spends t (resume_now e t1).
Proof.
  intros Hb Es Et Hp. unfold resume_now. destruct (resumeEpoch (refs t1) =? e)%nat.
  - destruct (connect_books true t1 Hb) as (Hb' & Hp' & Hl & Ht). split; [done|]. rewrite Hl, Hp', Ht, Es, Et. lia.
  - split; [done|]. rewrite Es, Et. lia.
Qed.
Lemma on_timer_spends t : books t → spends t (on_timer t).
Proof.
  intros Hb. unfold on_timer. destruct (retryTimer (refs t)) as [x|] eqn:Ex; [|by apply spends_same, sb_refl].
  destruct Hb as [H1 H2 H3 H4 H5]. pose proof (H3 x Ex) as He. set (t1 := set_refs _ t).
  assert (Hp : pending t = S (pending t1)) by (unfold pending; rewrite Ex; done).
  assert (Hb1 : books t1). { split; try done. change (wsRef (refs t1)) with (wsRef (refs t)). lia. }
  destruct (rs_refresh x); [|apply resume_spends; [done|done|done|]; rewrite Hp; destruct (_ =? _); lia].
  assert (Hp2 : pending (set_waits (awaiting_refresh t1 ++ [rs_epoch x]) (awaiting_token t1) t1) = pending t).
  { rewrite Hp. unfold pending. cbn. rewrite filter_app, length_app, filter_cons. rewrite decide_True by done. cbn. lia. }
  split; [split; try done|].
  - cbn. apply Forall_app. split; [done|]. apply Forall_singleton. lia.
  - rewrite Hp2. done.
  - rewrite Hp2. cbn. lia.
Qed.
Lemma filter_delete n (l : list nat) e x : l !! n = Some x →
  length (filter (λ y, y = e) l) = (if decide (x = e) then 1 else 0) + length (filter (λ y, y = e) (delete n l)).
Proof.
  intros H. rewrite (delete_Permutation _ _ _ H) at 1. rewrite filter_cons. by case_decide.
Qed.
Lemma refreshed_spends n e t : books t → awaiting_refresh t !! n = Some e →
  spends t (resume_now e (set_waits (delete n (awaiting_refresh t)) (awaiting_token t) t)).
Proof.
  intros [H1 H2 H3 H4 H5] He. pose proof (filter_delete n _ (resumeEpoch (refs t)) e He) as Hd.
  set (t1 := set_waits _ _ t).
  assert (Hp : pending t = pending t1 + (if decide (e = resumeEpoch (refs t)) then 1 else 0)).
  { unfold pending, t1. cbn. rewrite Hd. lia. }
  apply resume_spends; [|done|done|].
  - split; try done. { cbn. apply Forall_delete, H2. }
    change (wsRef (refs t1)) with (wsRef (refs t)). lia.
  - change (resumeEpoch (refs t1)) with (resumeEpoch (refs t)). destruct (Nat.eqb_spec (resumeEpoch (refs t)) e);
      case_decide; try lia.
Qed.
Lemma on_log_books id s es b t : books t → books (on_log id s es b t).
Proof.
  intros Hb. unfold on_log. set (t1 := if sk_streamed s then t else _).
  assert (Hb1 : books t1).
  { unfold t1. destruct (sk_streamed s); [done|]. eapply tail_books_same; [by apply sb_on_sock|]. by apply books_tries0. }
  destruct (foldl _ _ _) as [last new]. destruct b.
  - eapply tail_books_same; [|exact Hb1]. by split.
  - eapply tail_books_same; [|exact Hb1]. eapply sb_trans; [|apply sb_append]. by split.
Qed.
(** Events the tail takes on its own: nobody opens, re-points or reconnects it, and no log arrives. *)
Definition automatic (e : Event) : Prop :=
  match e with SetProps _ | ClickReconnect | Arrived _ (Log _ _) => False | _ => True end.
Lemma current_spends id f t : books t → (∀ s, wsRef (refs t) = Some id → spends t (f s t)) → spends t (current id f t).
Proof.
  intros Hb Hf. unfold current. case_bool_decide; [|by apply spends_same, sb_refl].
  destruct (sockets t !! id) as [s|]; [by apply Hf|by apply spends_same, sb_refl].
Qed.
Lemma step_spends t e : books t → automatic e → spends t (step toLowerCase pin t e).
Proof.
  intros Hb Ha. destruct e as [p|l| | | |n|n tok|id tok|id msg|id|id]; try done; cbn [step].
  - by apply spends_same, sb_view.
  - unfold unmount. destruct (effect_live t); [|by apply spends_same].
    destruct (close_books t Hb) as [Hb' Hp]. eapply (spends_trans _ (closeWS t)); [|by apply spends_same].
    split; [done|]. rewrite close_length, Hp, (cf_tries _ _ (closeWS_spec t)). lia.
  - by apply on_timer_spends.
  - destruct (awaiting_refresh t !! n) as [e|] eqn:E; [|by apply spends_same, sb_refl]. by apply refreshed_spends.
  - destruct (awaiting_token t !! n) as [id|]; [|by apply spends_same, sb_refl].
    set (t1 := set_waits _ _ t). assert (H1 : spends t t1) by (by apply spends_same).
    eapply spends_trans; [exact H1|]. apply current_spends; [apply H1|]. intros s Hw. apply authenticate_spends; [apply H1|done].
  - destruct (sockets t !! id) as [s|]; [|by apply spends_same, sb_refl]. destruct (sk_opened s); [by apply spends_same, sb_refl|].
    assert (H1 : spends t (on_sock id open_sock t)) by (by apply spends_same, sb_on_sock).
    eapply spends_trans; [exact H1|]. apply current_spends; [apply H1|]. intros s' Hw. unfold onopen.
    destruct tok; [by apply authenticate_spends; [apply H1|]|]. by apply spends_same; [apply H1|].
  - apply current_spends; [done|]. intros s Hw. destruct msg as [|f|es b|]; try done; cbn [onmessage].
    + set (t1 := set_error _ _). assert (H1 : same_books t t1).
      { eapply sb_trans; [by apply (sb_on_sock id (mark_sock true false false))|]. by split. }
      destruct (sk_resume s); [|by apply spends_same]. apply spends_same; [done|]. eapply sb_trans; [exact H1|]. apply sb_append.
    + destruct (reason_of f); [by apply endTail_spends|]. apply spends_same; [done|].
      eapply sb_trans; [by apply (sb_on_sock id (mark_sock false true false))|]. by split.
  - apply current_spends; [done|]. intros s Hw. by apply onclose_spends.
  - apply current_spends; [done|]. intros s Hw. unfold onerror. destruct (failed_resume s); by apply spends_same.
Qed.
Lemma step_books t e : books t → books (step toLowerCase pin t e).
Proof.
  intros Hb. destruct e as [p|l| | | |n|n tok|id tok|id msg|id|id]; try (by apply step_spends). 3: destruct msg; try (by apply step_spends).
  all: cbn [step].
  - destruct (gone t); [done|]. destruct (same_deps _ _); [by eapply tail_books_same; [|exact Hb]|]. unfold run_effect.
    set (t1 := if effect_live t then closeWS t else t).
    assert (Hb1 : books t1) by (unfold t1; destruct (effect_live t); [by apply close_books|done]).
    destruct (_ || _).
    + eapply tail_books_same; [|by apply (close_books t1)]. by split.
    + eapply (tail_books_same (connect false _)); [by split|]. apply connect_books. by eapply tail_books_same; [|exact Hb1].
  - destruct (button_shown t); [|done]. apply connect_books. by apply books_tries0.
  - unfold current. case_bool_decide; [|done]. destruct (sockets t !! id); [|done]. by apply on_log_books.
Qed.
Lemma run_tail_books es : books (run toLowerCase pin es).
Proof.
  induction es as [|e es IH] using rev_ind.
  - split; try done; cbn; lia.
  - unfold run. rewrite foldl_app. by apply step_books.
Qed.
Lemma steps_spend es t : books t → Forall automatic es → spends t (foldl (step toLowerCase pin) t es).
Proof.
  intros Hb H. revert t Hb. induction H as [|e es He Hes IH]; intros t Hb; [by apply spends_same, sb_refl|].
  pose proof (step_spends t e Hb He) as H1. eapply spends_trans; [exact H1|]. apply IH, H1.
Qed.
End Books.

(** C31. A tail retries a bounded number of times. From any state it can get into, until it is
    opened again, re-pointed, reconnected by the user or sent a log message, whatever the
    server, the network and the session do, it opens no more sockets than the tries it has
    left and the resume already pending; and only one socket is open at a time. *)
Theorem tail_retries_bounded toLowerCase pin es es' : Forall automatic es' →
  let t := run toLowerCase pin es in
  let t' := run toLowerCase pin (es ++ es') in
  length (sockets t') + triesRef (refs t) <= length (sockets t) + pending t + length RECONNECT_DELAYS_MS ∧ pending t <= 1 ∧
  ∀ i j s s', sockets t' !! i = Some s → sockets t' !! j = Some s' → sk_closed s = false → sk_closed s' = false → i = j.
Proof.
  intros Ha t t'. pose proof (run_tail_books toLowerCase pin es) as Hb. fold t in Hb.
  assert (Hs : spends t t') by (unfold t', run; rewrite foldl_app; by apply steps_spend). destruct Hs as [Hb' Hs].
  pose proof (bk_tries _ Hb'). split_and!; [lia| |].
  - pose proof (bk_pending _ Hb) as Hp. destruct (wsRef (refs t)); lia.
  - intros i j s s' Hi Hj Hc Hc'. pose proof (bk_open _ Hb' i s Hi Hc). pose proof (bk_open _ Hb' j s' Hj Hc'). congruence.
Qed.

(** ** A tail that is gone *)

Record over (t : Tail) : Prop := {
  ov_ws : wsRef (refs t) = None;
  ov_timer : retryTimer (refs t) = None;
  ov_epochs : Forall (λ e, e < resumeEpoch (refs t)) (awaiting_refresh t);
  ov_gone : gone t = true
}.
(** What was sent over every socket, and which are closed. *)
Definition traffic (t : Tail) : list (list Frame * bool) := (λ s, (sk_sent s, sk_closed s)) <$> sockets t.
Lemma current_over id f t : over t → current id f t = t.
Proof. intros [H _ _ _]. unfold current. rewrite H. done. Qed.
Lemma step_over toLowerCase pin t e : over t → over (step toLowerCase pin t e) ∧ traffic (step toLowerCase pin t e) = traffic t.
Proof.
  intros Ho. pose proof Ho as [H1 H2 H3 H4].
  destruct e as [p|l| | | |n|n tok|id tok|id msg|id|id]; cbn [step]; try (by rewrite current_over).
  - by rewrite H4.
  - split; [by split|done].
  - unfold unmount. destruct (effect_live t); [|split; [by split|done]].
    destruct (closeWS_spec t) as [C1 C2 C3 _ _ _ [C5 _] _ C6]. rewrite H1 in C6. split; [split; cbn; try done|].
    + rewrite C3, C5. eapply Forall_impl; [exact H3|]. intros; cbn in *; lia.
    + unfold traffic. cbn. by rewrite C6.
  - unfold button_shown. by rewrite H4.
  - unfold on_timer. by rewrite H2.
  - destruct (awaiting_refresh t !! n) as [x|] eqn:E; [|done]. pose proof (Forall_lookup_1 _ _ _ _ H3 E) as Hx. cbn in Hx.
    unfold resume_now. cbn. destruct (Nat.eqb_spec (resumeEpoch (refs t)) x); [lia|]. split; [split; try done|done].
    cbn. by apply Forall_delete.
  - destruct (awaiting_token t !! n) as [id|]; [|done]. rewrite current_over by (by split). split; [by split|done].
  - destruct (sockets t !! id) as [s|] eqn:E; [|done]. destruct (sk_opened s); [done|]. rewrite current_over by (by split).
    split; [by split|]. unfold traffic. cbn. apply list_eq. intros i. rewrite !list_lookup_fmap.
    destruct (decide (id = i)) as [->|Hne]; [|by rewrite list_lookup_alter_ne]. by rewrite list_lookup_alter_eq, E.
Qed.
(** Leaving the page ends the tail: every socket is closed, and nothing that happens
    afterwards (a timer, a session refresh or a token that was awaited, late frames and
    closes) opens another one or sends anything. *)
Theorem gone_tail_is_silent toLowerCase pin es es' : effect_live (run toLowerCase pin es) = true →
  let t := run toLowerCase pin (es ++ [Unmount]) in
  let t' := run toLowerCase pin (es ++ Unmount :: es') in
  traffic t' = traffic t ∧ Forall (λ x, x.2 = true) (traffic t').
Proof.
  intros Hl t t'. assert (E : t' = foldl (step toLowerCase pin) t es') by (unfold t', t, run; by rewrite !foldl_app).
  assert (Et : t = unmount (run toLowerCase pin es)) by (unfold t, run; by rewrite foldl_app).
  pose proof (run_tail_books toLowerCase pin es) as Hb. destruct (closeWS_spec (run toLowerCase pin es)) as [C1 C2 C3 _ _ _ [C5 _] _ _].
  assert (Ho : over t).
  { rewrite Et. unfold unmount. rewrite Hl. split; cbn; try done. rewrite C3, C5.
    eapply Forall_impl; [exact (bk_epochs _ Hb)|]. intros; cbn in *; lia. }
  assert (Htr : traffic t' = traffic t).
  { rewrite E. clear E Et Hb C1 C2 C3 C5. clearbody t. clear t'. revert t Ho. induction es' as [|e es' IH]; intros t Ho; [done|].
    cbn [foldl]. destruct (step_over toLowerCase pin t e Ho) as [Ho' E]. rewrite (IH _ Ho'). done. }
  split; [done|]. rewrite Htr. apply Forall_forall. intros x (s & -> & Hs)%list_elem_of_fmap. cbn.
  apply list_elem_of_lookup in Hs as [i Hi]. destruct (sk_closed s) eqn:Ec; [done|]. exfalso.
  pose proof (run_tail_books toLowerCase pin (es ++ [Unmount])) as Hb2. pose proof (bk_open _ Hb2 i s Hi Ec) as Hw.
  fold t in Hw. rewrite (ov_ws _ Ho) in Hw. done.
Qed.

(** ** The join *)

Definition entry := (jstring * jstring * jsval)%type.
(** Loki's timestamps are decimal. *)
Definition numeric (e : Event) : Prop :=
  match e with Arrived _ (Log entries _) => Forall (λ x : entry, ∃ n, x.1.1 = decimal n) entries | _ => True end.
(** [m] is a timestamp no later one was shown than. *)
Definition bounds (m : option jstring) (l : list jstring) : Prop :=
  match m with None => l = [] | Some a => ∃ k, a = decimal k ∧ Forall (λ ts, ∃ n, ts = decimal n ∧ (n <= k)%N) l end.
Record marked (t : Tail) : Prop := {
  mk_last : bounds (lastTimestamp (refs t)) (shown t);
  mk_after : ∀ a, resumeAfter (refs t) = Some a → bounds (Some a) (shown t)
}.
Lemma take_entries_spec after entries : Forall (λ x : entry, ∃ n, x.1.1 = decimal n) entries → ∀ last new old,
  bounds last (old ++ (ll_timestamp <$> new)) →
  (∀ a, after = Some a → Forall (λ l, lokiLaterThan (ll_timestamp l) a = true) new) →
  let r := foldl (take_entry after) (last, new) entries in
  bounds r.1 (old ++ (ll_timestamp <$> r.2)) ∧
  (∀ a, after = Some a → Forall (λ l, lokiLaterThan (ll_timestamp l) a = true) r.2).
Proof.
  induction 1 as [|[[ts line] labels] entries [n Hn] _ IH]; intros last new old Hb Ha; [done|]. cbn [foldl].
  cbn [fst] in Hn. subst ts. set (acc := take_entry after (last, new) _).
  assert (H : bounds acc.1 (old ++ (ll_timestamp <$> acc.2)) ∧
    ∀ a, after = Some a → Forall (λ l, lokiLaterThan (ll_timestamp l) a = true) acc.2).
  2: { destruct H as [H1 H2], acc as [last' new']. exact (IH last' new' old H1 H2). }
  unfold acc, take_entry. cbn [fst snd].
  destruct (match after with Some a => negb (lokiLaterThan (decimal n) a) | None => false end) eqn:Es; [done|]. cbn [fst snd]. split.
  - rewrite fmap_app, app_assoc. cbn [fmap list_fmap ll_timestamp]. unfold bounds in *. destruct last as [l|].
    + destruct Hb as (k & -> & Hk). rewrite loki_order_exact. destruct (N.ltb_spec k n).
      * exists n. split; [done|]. apply Forall_app. split; [|apply Forall_singleton; exists n; split; [done|lia]].
        eapply Forall_impl; [exact Hk|]. intros ? (m & -> & ?). exists m. split; [done|lia].
      * exists k. split; [done|]. apply Forall_app. split; [done|]. apply Forall_singleton. eauto.
    + rewrite Hb. exists n. split; [done|]. apply Forall_singleton. exists n. split; [done|lia].
  - intros a ->. apply negb_false_iff in Es. apply Forall_app. split; [by apply Ha|by apply Forall_singleton].
Qed.
Lemma marked_same t t' : lastTimestamp (refs t') = lastTimestamp (refs t) → resumeAfter (refs t') = resumeAfter (refs t) →
  shown t' = shown t → marked t → marked t'.
Proof. intros E1 E2 E3 [H1 H2]. split; rewrite ?E1, ?E2, ?E3; done. Qed.
Lemma marked_close t : marked t → marked (closeWS t).
Proof. destruct (closeWS_spec t) as [_ _ _ _ [E1 E2] E3 _ _ _]. by apply marked_same. Qed.
Lemma marked_connect r t : marked t → marked (connect r t).
Proof.
  intros [H1 H2]%marked_close. destruct r; (split; cbn; [done|]); [|done]. intros a Ha. by rewrite Ha in H1.
Qed.
Lemma shown_append l t : shown (appendLines l t) = shown t ∧ refs (appendLines l t) = refs t.
Proof. by destruct l. Qed.
(** The lines a batch appends: those past the mark, in order. *)
Definition line_of (x : entry) : LogLine := {| ll_timestamp := x.1.1; ll_line := x.1.2; ll_labels := x.2 |}.
Definition past (after : option jstring) (x : entry) : bool := match after with Some a => lokiLaterThan x.1.1 a | None => true end.
Lemma foldl_lines after entries acc :
  (foldl (take_entry after) acc entries).2 = acc.2 ++ (line_of <$> List.filter (past after) entries).
Proof.
  revert acc. induction entries as [|[[ts line] labels] entries IH]; intros acc; cbn [foldl List.filter]; [by rewrite app_nil_r|].
  rewrite IH. unfold take_entry, past. cbn [fst snd]. destruct after as [a|]; [destruct (lokiLaterThan ts a)|]; cbn; rewrite <- ?app_assoc; done.
Qed.
Lemma foldl_tight after entries (old : list jstring) acc : (∀ a, acc.1 = Some a → a ∈ old ++ (ll_timestamp <$> acc.2)) →
  ∀ a, (foldl (take_entry after) acc entries).1 = Some a → a ∈ old ++ (ll_timestamp <$> (foldl (take_entry after) acc entries).2).
Proof.
  revert acc. induction entries as [|[[ts line] labels] entries IH]; intros acc Ha; [done|]. cbn [foldl]. apply IH.
  unfold take_entry. destruct (match after with Some a => negb (lokiLaterThan ts a) | None => false end); [done|]. cbn [fst snd].
  intros a. rewrite fmap_app, app_assoc, elem_of_app. cbn [fmap list_fmap ll_timestamp]. rewrite list_elem_of_singleton. destruct acc.1 as [l|]; [destruct (lokiLaterThan ts l)|].
  - intros [= <-]. by right.
  - intros E. left. by apply Ha.
  - intros [= <-]. by right.
Qed.
(** The log batch: what is appended, and where the marks go. *)
Lemma on_log_spec id s entries b t : Forall (λ x : entry, ∃ n, x.1.1 = decimal n) entries → marked t →
  marked (on_log id s entries b t) ∧ ∃ new,
    tail_lines (view (on_log id s entries b t)) = tail_lines (view (appendLines new t)) ∧
    shown (on_log id s entries b t) = shown t ++ (ll_timestamp <$> new) ∧
    (∀ a, resumeAfter (refs t) = Some a → Forall (λ l, lokiLaterThan (ll_timestamp l) a = true) new) ∧
    (b = false → new = line_of <$> List.filter (past (resumeAfter (refs t))) entries).
Proof.
  intros Hn [H1 H2]. unfold on_log. set (t1 := if sk_streamed s then t else _).
  assert (E : lastTimestamp (refs t1) = lastTimestamp (refs t) ∧ resumeAfter (refs t1) = resumeAfter (refs t) ∧
    shown t1 = shown t ∧ view t1 = view t) by (unfold t1; by destruct (sk_streamed s)).
  destruct E as (E1 & E2 & E3 & E4). rewrite E1, E2.
  destruct (take_entries_spec (resumeAfter (refs t)) entries Hn (lastTimestamp (refs t)) [] (shown t)) as [B1 B2].
  { by rewrite app_nil_r. } { by constructor. }
  pose proof (foldl_lines (resumeAfter (refs t)) entries (lastTimestamp (refs t), [])) as B3.
  destruct (foldl _ _ _) as [last new]. cbn [fst snd app] in B1, B2, B3. destruct b.
  - split.
    + split; cbn; rewrite E3; [|done]. unfold bounds in *. destruct last as [l|].
      * destruct B1 as (k & ? & [? _]%Forall_app). eauto.
      * by apply app_eq_nil in B1 as [-> _].
    + exists []. cbn. rewrite E4, E3, app_nil_r. split_and!; [done|done|by constructor|done].
  - set (t2 := set_shown _ _). destruct (shown_append new t2) as [S1 S2]. split.
    + split; rewrite ?S1, ?S2; cbn; rewrite E3; [done|]. intros a. destruct new as [|l new]; [|done]. rewrite app_nil_r. apply H2.
    + exists new. split_and!; [|rewrite S1; cbn; by rewrite E3|done|by intros _]. destruct new; cbn; by rewrite E4.
Qed.
Lemma shown_decimal t : marked t → Forall (λ ts, ∃ m, ts = decimal m) (shown t).
Proof.
  intros [H _]. unfold bounds in H. destruct (lastTimestamp (refs t)); [|rewrite H; constructor].
  destruct H as (k & _ & Hk). eapply Forall_impl; [exact Hk|]. by intros ? (n & -> & _); exists n.
Qed.
Section Marks.
Context (toLowerCase : jstring → jstring) (pin : ClusterTarget).
(** A property of the marks and of what was shown that opening a socket and a
    log batch keep is kept by every event. *)
Section Kept.
Context (Q : Tail → Prop) (good : Event → Prop).
Hypothesis Q_same : ∀ t t', lastTimestamp (refs t') = lastTimestamp (refs t) → resumeAfter (refs t') = resumeAfter (refs t) →
  shown t' = shown t → Q t → Q t'.
Hypothesis Q_connect : ∀ r t, Q t → Q (connect r t).
Hypothesis Q_log : ∀ id s entries b t, good (Arrived id (Log entries b)) → Q t → Q (on_log id s entries b t).
Lemma kept_close t : Q t → Q (closeWS t).
Proof. destruct (closeWS_spec t) as [_ _ _ _ [E1 E2] E3 _ _ _]. by apply Q_same. Qed.
Lemma kept_endTail f t : Q t → Q (endTail toLowerCase f t).
Proof. intros Hm%kept_close. unfold endTail. destruct (if sf_retryable f then _ else _); by eapply Q_same; [..|exact Hm]. Qed.
Lemma kept_current id f t : Q t → (∀ s, Q (f s t)) → Q (current id f t).
Proof. intros Hm Hf. unfold current. case_bool_decide; [|done]. by destruct (sockets t !! id). Qed.
Lemma kept_auth id s tok t : Q t → Q (authenticate pin id s tok t).
Proof. intros Hm. destruct tok; by eapply Q_same; [..|exact Hm]. Qed.
Lemma kept_resume e t : Q t → Q (resume_now e t).
Proof. intros Hm. unfold resume_now. destruct (_ =? _); [by apply Q_connect|done]. Qed.
Lemma kept_step t e : good e → Q t → Q (step toLowerCase pin t e).
Proof.
  intros Hn Hm. assert (Hs : ∀ t', lastTimestamp (refs t') = lastTimestamp (refs t) → resumeAfter (refs t') = resumeAfter (refs t) →
    shown t' = shown t → Q t') by (intros; by eapply Q_same).
  destruct e as [p|l| | | |n|n tok|id tok|id msg|id|id]; cbn [step].
  - destruct (gone t); [done|]. destruct (same_deps _ _); [by apply Hs|]. unfold run_effect.
    set (t1 := if effect_live t then closeWS t else t).
    assert (H1 : Q t1) by (unfold t1; destruct (effect_live t); [by apply kept_close|done]).
    destruct (_ || _); [by eapply Q_same; [..|exact (kept_close _ H1)]|].
    eapply (Q_same (connect false _)); [done..|]. apply Q_connect. by eapply Q_same; [..|exact H1].
  - by apply Hs.
  - unfold unmount. destruct (effect_live t); [|by apply Hs]. eapply Q_same; [..|exact (kept_close _ Hm)]; done.
  - destruct (button_shown t); [|done]. apply Q_connect. by apply Hs.
  - unfold on_timer. destruct (retryTimer (refs t)) as [x|]; [|done]. destruct (rs_refresh x); [by apply Hs|].
    apply kept_resume. by apply Hs.
  - destruct (awaiting_refresh t !! n); [|done]. apply kept_resume. by apply Hs.
  - destruct (awaiting_token t !! n); [|done]. apply kept_current; [by apply Hs|]. intros s. apply kept_auth. by apply Hs.
  - destruct (sockets t !! id) as [s|]; [|done]. destruct (sk_opened s); [done|]. apply kept_current; [by apply Hs|].
    intros s'. unfold onopen. destruct tok; [apply kept_auth; by apply Hs|by apply Hs].
  - apply kept_current; [done|]. intros s. destruct msg as [|f|entries b|]; cbn [onmessage]; [| | |done].
    + destruct (sk_resume s); [|by apply Hs]. by apply Hs.
    + destruct (reason_of f); [by apply kept_endTail|by apply Hs].
    + by apply Q_log.
  - apply kept_current; [done|]. intros s. unfold onclose. destruct (failed_resume s); [|by apply Hs].
    apply kept_endTail. by apply Hs.
  - apply kept_current; [done|]. intros s. unfold onerror. destruct (failed_resume s); [done|by apply Hs].
Qed.
Lemma kept_run es : Q fresh → Forall good es → Q (run toLowerCase pin es).
Proof.
  intros H0. induction es as [|e es IH] using rev_ind; intros H; [done|]. apply Forall_app in H as [H1 [H2 _]%Forall_cons].
  unfold run. rewrite foldl_app. cbn [foldl]. apply kept_step; [exact H2|by apply IH].
Qed.
End Kept.
Lemma run_marked es : Forall numeric es → marked (run toLowerCase pin es).
Proof.
  apply kept_run; [apply marked_same|apply marked_connect|intros id s entries b t Hn Hm; by apply on_log_spec|by split].
Qed.
(** As long as no batch breaks off, the last timestamp is of a line shown. *)
Definition whole (e : Event) : Prop := match e with Arrived _ (Log _ true) => False | _ => True end.
Definition tight (t : Tail) : Prop := ∀ a, lastTimestamp (refs t) = Some a → a ∈ shown t.
Lemma run_tight es : Forall whole es → tight (run toLowerCase pin es).
Proof.
  apply kept_run; unfold tight; [by intros t t' -> _ ->| |intros id s entries b t Hw Ht|done].
  - intros r t Ht a. destruct (closeWS_spec t) as [_ _ _ _ [M _] N _ _ _]. destruct r; cbn; [rewrite M, N; apply Ht|done].
  - destruct b; [done|]. unfold on_log. set (t1 := if sk_streamed s then t else _).
    assert (E : lastTimestamp (refs t1) = lastTimestamp (refs t) ∧ shown t1 = shown t) by (unfold t1; by destruct (sk_streamed s)).
    destruct E as [-> E]. set (r := foldl _ _ entries).
    assert (Hr : ∀ a, r.1 = Some a → a ∈ shown t ++ (ll_timestamp <$> r.2)).
    { unfold r. generalize (resumeAfter (refs t1)). intros after. apply (foldl_tight after); intros a Ha. rewrite app_nil_r. by apply Ht. }
    destruct r as [last new]. intros a. destruct (shown_append new (set_shown (shown (set_refs (with_marks last
      (match new with [] => resumeAfter (refs t1) | _ => None end) (refs t1)) t1) ++ (ll_timestamp <$> new))
      (set_refs (with_marks last (match new with [] => resumeAfter (refs t1) | _ => None end) (refs t1)) t1))) as [-> ->].
    cbn. rewrite E. apply Hr.
Qed.
(** *** The socket of a resume *)

(** Socket [id] stays current only while nothing is opened, and as long as
    nothing is appended on it the mark of the join stays. *)
Definition keeps (id : nat) (t t' : Tail) : Prop := length (sockets t) <= length (sockets t') ∧
  (id < length (sockets t) → wsRef (refs t') = Some id → wsRef (refs t) = Some id ∧
    (resumeAfter (refs t') = resumeAfter (refs t) ∧ shown t' = shown t ∨ length (shown t) < length (shown t'))).
Lemma keeps_same id t t' : length (sockets t') = length (sockets t) → wsRef (refs t') = wsRef (refs t) ∨ wsRef (refs t') = None →
  resumeAfter (refs t') = resumeAfter (refs t) → shown t' = shown t → keeps id t t'.
Proof.
  intros E1 E2 E3 E4. split; [lia|]. intros _ Hw. destruct E2 as [E2|E2]; [|congruence]. rewrite <- E2. by auto.
Qed.
Lemma keeps_ended id t t' : length (sockets t') = length (sockets t) → wsRef (refs t') = None → keeps id t t'.
Proof. intros E1 E2. split; [lia|]. congruence. Qed.
Lemma connect_opens r t : length (sockets (connect r t)) = S (length (sockets t)) ∧ wsRef (refs (connect r t)) = Some (length (sockets t)).
Proof. pose proof (close_length t) as Hl. destruct r; cbn; rewrite length_app, Hl; cbn; split; [lia|done|lia|done]. Qed.
Lemma keeps_connect id r t t1 : length (sockets t1) = length (sockets t) → keeps id t (connect r t1).
Proof. intros El. destruct (connect_opens r t1) as [E1 E2]. split; [lia|]. rewrite E2. intros Hlt [= Hid]. lia. Qed.
Lemma keeps_resume id e t t1 : length (sockets t1) = length (sockets t) → wsRef (refs t1) = wsRef (refs t) →
  resumeAfter (refs t1) = resumeAfter (refs t) → shown t1 = shown t → keeps id t (resume_now e t1).
Proof. intros. unfold resume_now. destruct (_ =? _); [by apply keeps_connect|apply keeps_same; auto]. Qed.
Lemma endTail_ended f t : length (sockets (endTail toLowerCase f t)) = length (sockets t) ∧ wsRef (refs (endTail toLowerCase f t)) = None.
Proof.
  pose proof (close_length t) as Hl. destruct (closeWS_spec t) as [C1 _ _ _ _ _ _ _ _]. unfold endTail.
  destruct (if sf_retryable f then _ else _); cbn; by rewrite C1, Hl.
Qed.
Lemma keeps_current id i f t : keeps id t t → (∀ s, keeps id t (f s t)) → keeps id t (current i f t).
Proof. intros Hs Hf. unfold current. case_bool_decide; [|done]. by destruct (sockets t !! i). Qed.
Lemma keeps_log id i s entries b t : keeps id t (on_log i s entries b t).
Proof.
  unfold on_log. set (t1 := if sk_streamed s then t else _).
  assert (E : length (sockets t1) = length (sockets t) ∧ wsRef (refs t1) = wsRef (refs t) ∧
    resumeAfter (refs t1) = resumeAfter (refs t) ∧ shown t1 = shown t).
  { unfold t1. destruct (sk_streamed s); [done|]. cbn. by rewrite length_alter. }
  destruct E as (E1 & E2 & E3 & E4). destruct (foldl _ _ _) as [last new]. destruct b; [by apply keeps_same; auto|].
  set (t2 := set_shown _ _). assert (Ea : ∀ l x, sockets (appendLines l x) = sockets x) by (by intros [] ?).
  destruct (shown_append new t2) as [S1 S2]. split; [rewrite Ea; cbn; lia|]. rewrite S1, S2. cbn. rewrite E2, E4. intros _ Hw. split; [done|].
  destruct new as [|l new]; [left; by rewrite app_nil_r|right]. rewrite length_app. cbn. lia.
Qed.
Lemma step_keeps id t e : keeps id t (step toLowerCase pin t e).
Proof.
  assert (Hr : keeps id t t) by (apply keeps_same; auto).
  destruct e as [p|l| | | |n|n tok|i tok|i msg|i|i]; cbn [step].
  - destruct (gone t); [done|]. destruct (same_deps _ _); [apply keeps_same; auto|]. unfold run_effect.
    set (t1 := if effect_live t then closeWS t else t).
    assert (El : length (sockets t1) = length (sockets t)) by (unfold t1; destruct (effect_live t); [apply close_length|done]).
    destruct (_ || _); [|by apply (keeps_connect id false t)].
    apply keeps_ended; cbn; [rewrite close_length; exact El|]. by destruct (closeWS_spec t1).
  - apply keeps_same; auto.
  - unfold unmount. destruct (effect_live t); [|apply keeps_same; auto].
    apply keeps_ended; cbn; [apply close_length|]. by destruct (closeWS_spec t).
  - destruct (button_shown t); [|done]. by apply keeps_connect.
  - unfold on_timer. destruct (retryTimer (refs t)) as [x|]; [|done]. destruct (rs_refresh x); [apply keeps_same; auto|by apply keeps_resume].
  - destruct (awaiting_refresh t !! n); [|done]. by apply keeps_resume.
  - destruct (awaiting_token t !! n) as [i|]; [|done]. set (t1 := set_waits _ _ t). change (keeps id t1 (current i (λ s, authenticate pin i s tok) t1)).
    apply keeps_current; [apply keeps_same; auto|]. intros s. destruct tok; apply keeps_same; cbn; rewrite ?length_alter; auto.
  - destruct (sockets t !! i) as [s|]; [|done]. destruct (sk_opened s); [done|]. set (t1 := on_sock i open_sock t).
    assert (E1 : length (sockets t1) = length (sockets t)) by (unfold t1; cbn; by rewrite length_alter).
    assert (Hk : keeps id t1 (current i (λ s, onopen pin i s tok) t1)).
    { apply keeps_current; [apply keeps_same; auto|]. intros s'. unfold onopen. destruct tok; apply keeps_same; cbn; rewrite ?length_alter; auto. }
    destruct Hk as [Hk1 Hk2]. rewrite E1 in *. by split.
  - apply keeps_current; [done|]. intros s. destruct msg as [|f|entries b|]; cbn [onmessage]; [| |apply keeps_log|done].
    + destruct (sk_resume s); apply keeps_same; cbn; rewrite ?length_alter; auto.
    + destruct (reason_of f); [|apply keeps_same; cbn; rewrite ?length_alter; auto].
      destruct (endTail_ended f t) as [? ?]. by apply keeps_ended.
  - apply keeps_current; [done|]. intros s. unfold onclose. destruct (failed_resume s); [|apply keeps_ended; cbn; by rewrite ?length_alter].
    set (fr := {| sf_reason := _ |}). set (t1 := on_sock i close_sock _). destruct (endTail_ended fr t1) as [E1 E2].
    apply keeps_ended; [|done]. rewrite E1. unfold t1. cbn. by rewrite length_alter.
  - apply keeps_current; [done|]. intros s. unfold onerror. destruct (failed_resume s); [done|apply keeps_same; auto].
Qed.
Lemma steps_length es t : length (sockets t) <= length (sockets (foldl (step toLowerCase pin) t es)).
Proof. revert t. induction es as [|e es IH]; intros t; [done|]. cbn [foldl]. destruct (step_keeps 0 t e) as [? _]. etrans; [|apply IH]. done. Qed.
(** From the opening of socket [id] on: while it is current, either the mark is
    the one it was opened with and nothing was appended, or something was. *)
Lemma steps_keep id after S0 es t : id < length (sockets t) →
  (wsRef (refs t) = Some id → resumeAfter (refs t) = after ∧ shown t = S0 ∨ length S0 < length (shown t)) →
  let t' := foldl (step toLowerCase pin) t es in
  wsRef (refs t') = Some id → resumeAfter (refs t') = after ∧ shown t' = S0 ∨ length S0 < length (shown t').
Proof.
  revert t. induction es as [|e es IH]; intros t Hlt Ht; [done|]. cbn [foldl]. destruct (step_keeps id t e) as [K1 K2].
  apply IH; [lia|]. intros Hw. destruct (K2 Hlt Hw) as [Hw' [[E1 E2]|Hl]]; specialize (Ht Hw'); [|right; destruct Ht as [[_ <-]|?]; lia].
  rewrite E1, E2. exact Ht.
Qed.
(** The events that resume a tail: its timer, the refresh it waited for, the button. *)
Definition resumes (e : Event) : Prop := match e with TimerFires | Refreshed _ | ClickReconnect => True | _ => False end.
Lemma resumed_join t e : resumes e → length (sockets t) < length (sockets (step toLowerCase pin t e)) →
  let t' := step toLowerCase pin t e in
  wsRef (refs t') = Some (length (sockets t)) ∧ resumeAfter (refs t') = lastTimestamp (refs t) ∧
  lastTimestamp (refs t') = lastTimestamp (refs t) ∧ shown t' = shown t.
Proof.
  assert (Hc : ∀ t1, sockets t1 = sockets t → lastTimestamp (refs t1) = lastTimestamp (refs t) → shown t1 = shown t →
    wsRef (refs (connect true t1)) = Some (length (sockets t)) ∧ resumeAfter (refs (connect true t1)) = lastTimestamp (refs t) ∧
    lastTimestamp (refs (connect true t1)) = lastTimestamp (refs t) ∧ shown (connect true t1) = shown t).
  { intros t1 E1 E2 E3. rewrite (proj2 (connect_opens true t1)), E1. destruct (closeWS_spec t1) as [_ _ _ _ [M _] N _ _ _].
    cbn. by rewrite M, N. }
  intros He Hlt. destruct e as [| | | | |n| | | | |]; try done; cbn [step] in *.
  - destruct (button_shown t); [|lia]. by apply Hc.
  - unfold on_timer in *. destruct (retryTimer (refs t)) as [x|]; [|lia]. destruct (rs_refresh x); [cbn in Hlt; lia|].
    unfold resume_now in *. destruct (_ =? _); [by apply Hc|cbn in Hlt; lia].
  - destruct (awaiting_refresh t !! n) as [x|]; [|lia]. unfold resume_now in *. destruct (_ =? _); [by apply Hc|cbn in Hlt; lia].
Qed.
End Marks.

(** C32. A resume shows no line twice and loses none. Let an event resume the tail and open a
    socket, and let anything happen after it, as long as nothing new was shown. A batch of log
    lines on that socket then appends only lines later than every line shown since the tail
    was opened, so the replay with which the resumed stream starts is dropped; and unless a
    malformed batch broke off earlier, it appends every line that is later than all of those. *)
Theorem resume_shows_nothing_twice toLowerCase pin es e es' entries b :
  let id := length (sockets (run toLowerCase pin es)) in
  let batch := Arrived id (Log entries b) in
  let t := run toLowerCase pin (es ++ e :: es') in
  let t' := run toLowerCase pin ((es ++ e :: es') ++ [batch]) in
  resumes e → id < length (sockets (run toLowerCase pin (es ++ [e]))) → Forall numeric ((es ++ e :: es') ++ [batch]) →
  shown t = shown (run toLowerCase pin (es ++ [e])) →
  ∃ new, tail_lines (view t') = tail_lines (view (appendLines new t)) ∧ shown t' = shown t ++ (ll_timestamp <$> new) ∧
    (∀ l u, l ∈ new → u ∈ shown t → lokiLaterThan (ll_timestamp l) u = true) ∧
    (wsRef (refs t) = Some id → Forall whole ((es ++ e :: es') ++ [batch]) →
      ∀ x, x ∈ entries → (∀ u, u ∈ shown t → lokiLaterThan x.1.1 u = true) → line_of x ∈ new).
Proof.
  intros id batch t t' He Hlt [H1 [H2 _]%Forall_cons]%Forall_app Hsh.
  assert (Et : t' = current id (λ s, on_log id s entries b) t) by (unfold t', batch, run; by rewrite foldl_app).
  assert (E0 : run toLowerCase pin (es ++ [e]) = step toLowerCase pin (run toLowerCase pin es) e) by (unfold run; by rewrite foldl_app).
  assert (E1 : t = foldl (step toLowerCase pin) (run toLowerCase pin (es ++ [e])) es').
  { unfold t. rewrite cons_middle, app_assoc. unfold run. by rewrite !foldl_app. }
  rewrite E0 in *. set (t0 := run toLowerCase pin es) in *. destruct (resumed_join toLowerCase pin t0 e He Hlt) as (J1 & J2 & J3 & J4).
  pose proof (run_marked toLowerCase pin _ H1) as Hm. fold t in Hm. unfold current in Et.
  case_bool_decide as Hw; [destruct (sockets t !! id) as [s|] eqn:Es|].
  2,3: exists []; rewrite Et, app_nil_r; split_and!; [done|done|by intros ? ? ?%elem_of_nil|].
  2: { intros _ _ x _ _. exfalso. apply lookup_ge_None in Es. pose proof (steps_length toLowerCase pin es' (step toLowerCase pin t0 e)) as Hl.
       rewrite <- E1 in Hl. lia. }
  2: { by intros. }
  destruct (steps_keep toLowerCase pin id (lastTimestamp (refs t0)) (shown t0) es' (step toLowerCase pin t0 e)) as [[A1 A2]|Hgt];
    [done|intros _; left; by rewrite J2, J4|by rewrite <- E1|rewrite <- E1 in *|rewrite <- E1, Hsh, J4 in Hgt; lia].
  destruct (on_log_spec id s entries b t H2 Hm) as (Hm' & new & N1 & N2 & Hn & Hall). rewrite Et. exists new. split_and!; [done|done| |].
  - intros l u Hl Hu. destruct (lastTimestamp (refs t0)) as [a|] eqn:Ea.
    + destruct (mk_after _ Hm a A1) as (k & -> & Hk). pose proof (proj1 (Forall_forall _ _) (Hn _ A1) l Hl) as Hn'. cbv beta in Hn'.
      destruct (proj1 (Forall_forall _ _) Hk u Hu) as (n & -> & Hle).
      destruct (proj1 (Forall_forall _ _) (shown_decimal _ Hm') (ll_timestamp l)) as [m Em].
      { rewrite N2. apply elem_of_app. right. by apply list_elem_of_fmap_2. }
      rewrite Em in *. rewrite loki_order_exact in *. apply N.ltb_lt. apply N.ltb_lt in Hn'. lia.
    + exfalso. pose proof (run_marked toLowerCase pin es) as M0. rewrite <- A2 in *. rewrite A2 in Hu.
      destruct (M0 ltac:(by apply Forall_app in H1 as [? _])) as [B _]. fold t0 in B. unfold bounds in B. rewrite Ea in B.
      rewrite B in Hu. by apply elem_of_nil in Hu.
  - intros _ [Hwh [Hb _]%Forall_cons]%Forall_app x Hx Hlater. destruct b; [done|]. rewrite Hall by done. rewrite A1.
    apply list_elem_of_fmap_2, list_elem_of_In, filter_In. split; [by apply list_elem_of_In|]. unfold past.
    destruct (lastTimestamp (refs t0)) as [a|] eqn:Ea; [|done]. apply Hlater. rewrite A2.
    apply Forall_app in Hwh as [Hwh _]. by apply (run_tight toLowerCase pin es Hwh).
Qed.

(** ** A budget that is never spent *)

Definition demo_stamp : jstring := "1762300800000000002"%js.
Definition lost : StreamErrorFrame :=
  {| sf_reason := Some "loki_unreachable"%js; sf_message := None; sf_retryable := true |}.
Definition demo_batch : list entry := [(demo_stamp, "two"%js, JUndef)].
(** Loki drops the tail, takes it again, and replays the line at its inclusive start. *)
Definition cycle (k : nat) : list Event :=
  [Arrived k (ErrorFrame lost); TimerFires; Opened (S k) (Some "token"%js); Arrived (S k) Subscribed;
   Arrived (S k) (Log demo_batch false)].
Definition opening : list Event :=
  [SetProps {| active := true; query := "{}"%js; tail_namespace := ""%js |}; Opened 0 (Some "token"%js);
   Arrived 0 Subscribed; Arrived 0 (Log demo_batch false)].
Fixpoint cycles (k n : nat) : list Event :=
  match n with 0 => [] | S n' => cycle k ++ cycles (S k) n' end.
Record looping (l : list Sock) (t : Tail) : Prop := {
  lp_ws : wsRef (refs t) = Some (length l);
  lp_tries : triesRef (refs t) = 0;
  lp_last : lastTimestamp (refs t) = Some demo_stamp;
  lp_shown : shown t = [demo_stamp];
  lp_sockets : ∃ s, sockets t = l ++ [s]
}.
Lemma lookup_end {A} (l : list A) s : (l ++ [s]) !! length l = Some s.
Proof. by rewrite lookup_app_r, Nat.sub_diag. Qed.
Lemma alter_end {A} (f : A → A) (l : list A) s : alter f (length l) (l ++ [s]) = l ++ [f s].
Proof. by rewrite alter_app_r_alt, Nat.sub_diag by lia. Qed.
Lemma current_at id f s t : wsRef (refs t) = Some id → sockets t !! id = Some s → current id f t = f s t.
Proof. intros H1 H2. unfold current. rewrite H1, H2. by rewrite bool_decide_eq_true_2. Qed.
Lemma cycle_loops toLowerCase pin l t : looping l t →
  ∃ l', length l' = S (length l) ∧ looping l' (foldl (step toLowerCase pin) t (cycle (length l))).
Proof.
  intros [H1 H2 H3 H4 [s H5]]. unfold cycle. cbn [foldl].
  (* the end of the stream schedules a resume *)
  set (t1 := step _ _ t _).
  assert (E1 : t1 = endTail toLowerCase lost t).
  { unfold t1. cbn [step]. rewrite (current_at _ _ s) by (rewrite ?H5, ?lookup_end; done). done. }
  destruct (closeWS_spec t) as [C1 C2 C3 C4 [C5 C6] C7 [C8 C9] _ C10]. rewrite H1, H5, alter_end in C10. rewrite H2 in C4.
  assert (F1 : retryTimer (refs t1) = Some {| rs_refresh := false; rs_epoch := resumeEpoch (refs (closeWS t)); rs_delay := 2000 |} ∧
    resumeEpoch (refs t1) = resumeEpoch (refs (closeWS t)) ∧ sockets t1 = l ++ [close_sock s] ∧
    lastTimestamp (refs t1) = Some demo_stamp ∧ shown t1 = [demo_stamp] ∧ wsRef (refs t1) = None).
  { rewrite E1. unfold endTail. rewrite C4. cbn. rewrite C5, C7, H3, H4, C10. done. }
  clearbody t1. clear E1 C1 C2 C3 C4 C5 C6 C7 C8 C9 C10. destruct F1 as (G1 & G2 & G3 & G4 & G5 & G6).
  (* the timer resumes *)
  set (t2 := step _ _ t1 TimerFires).
  assert (F2 : ∃ s2, sockets t2 = (l ++ [close_sock s]) ++ [s2] ∧ sk_opened s2 = false ∧ sk_streamed s2 = false ∧ sk_resume s2 = true ∧
    wsRef (refs t2) = Some (S (length l)) ∧ lastTimestamp (refs t2) = Some demo_stamp ∧ resumeAfter (refs t2) = Some demo_stamp ∧
    shown t2 = [demo_stamp]).
  { unfold t2. cbn [step]. unfold on_timer. rewrite G1. cbn [rs_refresh rs_epoch]. unfold resume_now. cbn [refs set_refs with_timer resumeEpoch].
    rewrite G2, Nat.eqb_refl. set (t1' := set_refs _ t1).
    destruct (closeWS_spec t1') as [C1 C2 C3 C4 [C5 C6] C7 _ _ C10]. change (wsRef (refs t1')) with (wsRef (refs t1)) in C10.
    rewrite G6 in C10. change (sockets t1') with (sockets t1) in C10. eexists. cbn. rewrite C10, C5, C7, G3. cbn.
    rewrite G4, G5, length_app, Nat.add_1_r. done. }
  clearbody t2. clear G1 G2 G3 G4 G5 G6 t1. destruct F2 as (s2 & A1 & A2 & A3 & A4 & A5 & A6 & A7 & A8).
  set (l' := l ++ [close_sock s]) in *. assert (El : S (length l) = length l') by (unfold l'; rewrite length_app; cbn; lia).
  rewrite El in *. exists l'. split; [done|]. clearbody l'. clear El.
  cbn [step]. rewrite A1, lookup_end, A2. set (t3 := on_sock _ _ t2).
  assert (B1 : sockets t3 = l' ++ [open_sock s2]) by (unfold t3; cbn; by rewrite A1, alter_end).
  rewrite (current_at _ _ (open_sock s2) t3) by (rewrite ?B1, ?lookup_end; done). cbn [onopen authenticate].
  set (t4 := on_sock _ _ t3). assert (B2 : ∃ s4, sockets t4 = l' ++ [s4] ∧ sk_streamed s4 = false ∧ refs t4 = refs t2 ∧ shown t4 = shown t2).
  { unfold t4. cbn. rewrite A1, !alter_end. eauto. }
  destruct B2 as (s4 & B2 & B3 & R4 & S4). clearbody t4. rewrite (current_at _ _ s4 t4) by (rewrite ?B2, ?R4, ?lookup_end; done). cbn [onmessage].
  set (t5 := if sk_resume s4 then _ else _).
  assert (B4 : ∃ s5, sockets t5 = l' ++ [s5] ∧ sk_streamed s5 = false ∧ refs t5 = refs t2 ∧ shown t5 = shown t2).
  { unfold t5. destruct (sk_resume s4); cbn; rewrite B2, alter_end, R4, S4; eauto. }
  clearbody t5. clear B1 B2 B3 R4 S4. clear t4 t3. destruct B4 as (s5 & B4 & B5 & B6 & B7).
  rewrite (current_at _ _ s5 t5) by (rewrite ?B4, ?B6, ?lookup_end; done). cbn [onmessage]. unfold on_log. rewrite B5.
  cbn [refs set_refs with_tries on_sock set_sockets resumeAfter lastTimestamp]. rewrite B6, A6, A7. cbn [foldl demo_batch take_entry].
  assert (Enl : lokiLaterThan demo_stamp demo_stamp = false) by (vm_compute; done). rewrite Enl. cbn [negb].
  split; cbn; rewrite ?B6, ?B7, ?A8; try done. rewrite B4, alter_end. eauto.
Qed.
Lemma cycles_loop toLowerCase pin n l t : looping l t →
  ∃ l', length l' = n + length l ∧ looping l' (foldl (step toLowerCase pin) t (cycles (length l) n)).
Proof.
  revert l t. induction n as [|n IH]; intros l t Hl; [by exists l|]. cbn [cycles]. rewrite foldl_app.
  destruct (cycle_loops toLowerCase pin l t Hl) as (l' & El & Hl'). rewrite <- El. destruct (IH l' _ Hl') as (l'' & El' & Hl'').
  exists l''. split; [lia|done].
Qed.
Lemma opening_loops toLowerCase pin : looping [] (run toLowerCase pin opening).
Proof.
  split; [vm_compute; reflexivity..|].
  exists {| sk_resume := false; sk_opened := true; sk_subscribed := true; sk_ended := false; sk_streamed := true; sk_closed := false;
    sk_sent := [FAuth (streamAuthFrame "token"%js pin); subscribeFrame "{}"%js ""%js None] |}.
  vm_compute. reflexivity.
Qed.
Lemma run_app toLowerCase pin es es' : run toLowerCase pin (es ++ es') = foldl (step toLowerCase pin) (run toLowerCase pin es) es'.
Proof. apply foldl_app. Qed.
(** A Loki that takes the tail, replays the last line (its start is inclusive) and drops
    the connection is retried for ever: for every number there is a run with more sockets
    in which one line was ever shown and nobody touched the page. *)
Theorem replay_refills_the_budget toLowerCase pin n :
  let t := run toLowerCase pin (opening ++ cycles 0 n) in
  length (sockets t) = S n ∧ shown t = [demo_stamp] ∧ triesRef (refs t) = 0.
Proof.
  cbv zeta. rewrite run_app. pose proof (opening_loops toLowerCase pin) as H0.
  destruct (cycles_loop toLowerCase pin n [] _ H0) as (l' & El & [_ L2 _ L4 [s L5]]). cbn [length] in L2, L4, L5, El.
  split_and!; [|exact L4|exact L2].
  rewrite L5, length_app, El. cbn. lia.
Qed.

(** ** Witnesses *)

Definition demo_pin : ClusterTarget := {| clusterId := "local"%js; generation := UNKNOWN_GENERATION; epoch := 0 |}.
Lemma tail_retries_bounded_witness : length (sockets (run id demo_pin (opening ++ [Arrived 0 (ErrorFrame lost); TimerFires]))) <= 4.
Proof.
  pose proof (tail_retries_bounded id demo_pin opening [Arrived 0 (ErrorFrame lost); TimerFires]
    ltac:(by repeat apply Forall_cons_2)) as [H _].
  assert (E : length (sockets (run id demo_pin opening)) = 1 ∧ pending (run id demo_pin opening) = 0 ∧
    triesRef (refs (run id demo_pin opening)) = 0) by (vm_compute; done).
  destruct E as (E1 & E2 & E3). rewrite E1, E2, E3 in H. cbn [length RECONNECT_DELAYS_MS] in H. lia.
Defined.
Lemma gone_tail_is_silent_witness :
  traffic (run id demo_pin ((opening ++ [Arrived 0 (ErrorFrame lost)]) ++ Unmount :: [TimerFires; Closed 0])) =
  traffic (run id demo_pin ((opening ++ [Arrived 0 (ErrorFrame lost)]) ++ [Unmount])).
Proof.
  apply (gone_tail_is_silent id demo_pin (opening ++ [Arrived 0 (ErrorFrame lost)]) [TimerFires; Closed 0]).
  vm_compute. reflexivity.
Defined.
(** The batch after the resume holds the line at the inclusive start and a new one. *)
Definition demo_later : jstring := "1762300800000000003"%js.
Definition demo_second : list entry := demo_batch ++ [(demo_later, "three"%js, JUndef)].
Definition demo_ended : list Event := opening ++ [Arrived 0 (ErrorFrame lost)].
Definition demo_joined : list Event := [Opened 1 (Some "token"%js); Arrived 1 Subscribed].
Definition demo_resumed : list Event := (demo_ended ++ TimerFires :: demo_joined) ++ [Arrived 1 (Log demo_second false)].
Lemma demo_numeric : Forall numeric demo_resumed.
Proof.
  repeat (apply Forall_cons_2; [first [exact I|
    repeat (apply Forall_cons_2; [first [exists 1762300800000000002%N; vm_compute; reflexivity|exists 1762300800000000003%N; vm_compute; reflexivity]|]);
    apply Forall_nil_2]|]). apply Forall_nil_2.
Qed.
Lemma demo_whole : Forall whole demo_resumed.
Proof. by repeat apply Forall_cons_2. Qed.
Lemma resume_shows_nothing_twice_witness : ∃ new, shown (run id demo_pin demo_resumed) = [demo_stamp] ++ (ll_timestamp <$> new) ∧
  (∀ l, l ∈ new → lokiLaterThan (ll_timestamp l) demo_stamp = true) ∧ line_of (demo_later, "three"%js, JUndef) ∈ new.
Proof.
  assert (E : shown (run id demo_pin (demo_ended ++ TimerFires :: demo_joined)) = [demo_stamp]) by (vm_compute; reflexivity).
  destruct (resume_shows_nothing_twice id demo_pin demo_ended TimerFires demo_joined demo_second false) as (new & _ & H1 & H2 & H3);
    [exact I|vm_compute; lia|exact demo_numeric|vm_compute; reflexivity|].
  rewrite E in H1, H2, H3. exists new. split_and!.
  - exact H1.
  - intros l Hl. apply (H2 l demo_stamp); [exact Hl|apply list_elem_of_here].
  - apply H3; [vm_compute; reflexivity|exact demo_whole|right; left|]. intros u ->%list_elem_of_singleton. vm_compute. reflexivity.
Defined.
