(* ===== verification/LiveUpdates.v ===== *)
(** * Live updates: src/lib/ws.ts

    One WebSocket of the page carries every subscription to resource events. The
    client authenticates each connection with its first frame, subscribes again
    whatever is still wanted once the server has accepted it, reconnects with a
    bounded number of attempts, and lets go of everything on a disconnect.

    The module's variables are one record of three parts: the connection, the
    retries, and the subscriptions with what the page around them shows. Every
    callback of a socket, every timer and every promise is an event; a run is
    any list of them. The server's side is LiveHub. *)

From stdpp Require Import base list strings gmap.
From Stdlib Require Import ZArith NArith Lia.
From S2P Require Import Prelude JsValue JsonText JsonParse Api WsBridge.

Open Scope Z_scope.

(** ** The client *)

Inductive WSStatus := connecting | connected | disconnected.
#[export] Instance WSStatus_eq : EqDecision WSStatus.
Proof. solve_decision. Defined.
Definition EVENT_RBAC_DENIED : jstring := "RBAC_DENIED"%js.
Definition EVENT_RESYNC : jstring := "RESYNC"%js.
Definition AUTH_FAILURE_CODES : list Z := [4001; 4003].
Definition MAX_RECONNECT_ATTEMPTS : Z := 15.

(** A subscription; [sub_cb] names the callback. *)
Record Subscription := { sub_kind : jstring; sub_ns : jstring; sub_cb : nat }.
(** What the client sends. *)
Inductive Frame :=
  | FAuth (token : jstring)
  | FSubscribe (id kind ns : jstring)
  | FUnsubscribe (id : jstring).
(** A socket the page opened, with the frames sent on it; [acked] is a ghost:
    the server's auth_ok arrived on it. *)
Record Sock := { ready : Ready; frames : list Frame; acked : bool }.
(** [opening] are the sockets whose [onopen] awaits [readyAccessToken];
    [gave_up] is a ghost: the last close was one the client does not retry. *)
Record Conn := {
  ws : option nat;
  socks : gmap nat Sock;
  next_sock : nat;
  authenticated : bool;
  wsStatus : WSStatus;
  opening : list nat;
  gave_up : bool
}.
(** A cancel token is its number; it is cancelled once it is not the current
    one. [onVisible] counts the visibility listeners, [refreshing] are the
    tokens captured by the timers that are refreshing the access token. *)
Record Retry := {
  reconnectAttempt : Z;
  reconnectTimer : option nat;
  reconnectCancelToken : nat;
  onVisible : nat;
  refreshing : list nat
}.
Record Delivery := { d_id : jstring; d_cb : nat; d_type : jsval; d_object : jsval }.
Record Client := {
  conn : Conn;
  retry : Retry;
  subscriptions : list (jstring * Subscription);
  hidden : bool;
  token : option jstring;
  delivered : list Delivery
}.
Definition set_conn (cn : Conn) (c : Client) : Client :=
  {| conn := cn; retry := retry c; subscriptions := subscriptions c; hidden := hidden c; token := token c;
     delivered := delivered c |}.
Definition set_retry (r : Retry) (c : Client) : Client :=
  {| conn := conn c; retry := r; subscriptions := subscriptions c; hidden := hidden c; token := token c;
     delivered := delivered c |}.
Definition set_subs (l : list (jstring * Subscription)) (c : Client) : Client :=
  {| conn := conn c; retry := retry c; subscriptions := l; hidden := hidden c; token := token c;
     delivered := delivered c |}.
Definition set_env (h : bool) (t : option jstring) (d : list Delivery) (c : Client) : Client :=
  {| conn := conn c; retry := retry c; subscriptions := subscriptions c; hidden := h; token := t;
     delivered := d |}.
Definition set_sock (k : nat) (s : Sock) (cn : Conn) : Conn :=
  {| ws := ws cn; socks := <[k := s]> (socks cn); next_sock := next_sock cn; authenticated := authenticated cn;
     wsStatus := wsStatus cn; opening := opening cn; gave_up := gave_up cn |}.
Definition set_status (w : option nat) (auth : bool) (st : WSStatus) (gu : bool) (cn : Conn) : Conn :=
  {| ws := w; socks := socks cn; next_sock := next_sock cn; authenticated := auth; wsStatus := st;
     opening := opening cn; gave_up := gu |}.
Definition set_opening (l : list nat) (cn : Conn) : Conn :=
  {| ws := ws cn; socks := socks cn; next_sock := next_sock cn; authenticated := authenticated cn;
     wsStatus := wsStatus cn; opening := l; gave_up := gave_up cn |}.

(** [sock.send]: dropped unless the socket is open. *)
Definition sock_send (k : nat) (f : Frame) (cn : Conn) : Conn :=
  match socks cn !! k with
  | Some s => match ready s with
      | OPEN => set_sock k {| ready := OPEN; frames := frames s ++ [f]; acked := acked s |} cn
      | _ => cn end
  | None => cn
  end.
(** [sock.close()] *)
Definition sock_close (k : nat) (cn : Conn) : Conn :=
  match socks cn !! k with
  | Some s => match ready s with
      | OPEN | CONNECTING => set_sock k {| ready := CLOSING; frames := frames s; acked := acked s |} cn
      | _ => cn end
  | None => cn
  end.
Definition live (r : Ready) : bool := match r with OPEN | CONNECTING => true | _ => false end.
(** The state of the current socket. *)
Definition current_ready (cn : Conn) : option Ready := k ← ws cn; s ← socks cn !! k; Some (ready s).

Definition scheduleReconnect (hid : bool) (r : Retry) : Retry :=
  match reconnectTimer r with
  | Some _ => r
  | None =>
      if hid then
        {| reconnectAttempt := reconnectAttempt r; reconnectTimer := None;
           reconnectCancelToken := reconnectCancelToken r; onVisible := S (onVisible r); refreshing := refreshing r |}
      else
        {| reconnectAttempt := reconnectAttempt r + 1; reconnectTimer := Some (reconnectCancelToken r);
           reconnectCancelToken := reconnectCancelToken r; onVisible := onVisible r; refreshing := refreshing r |}
  end.
(** [connectWS]; [ok] is false where [new WebSocket] throws. *)
Definition connectWS (ok : bool) (c : Client) : Client :=
  if match current_ready (conn c) with Some r => live r | None => false end then c else
  let cn := conn c in
  if ok then
    set_conn {| ws := Some (next_sock cn);
      socks := <[next_sock cn := {| ready := CONNECTING; frames := []; acked := false |}]> (socks cn);
      next_sock := S (next_sock cn); authenticated := false; wsStatus := connecting; opening := opening cn;
      gave_up := false |} c
  else
    set_retry (scheduleReconnect (hidden c) (retry c))
      (set_conn (set_status (ws cn) false connecting (gave_up cn) cn) c).
Definition authenticate (k : nat) (tok : option jstring) (cn : Conn) : Conn :=
  if bool_decide (ws cn = Some k) then
    match truthy_token tok with
    | Some t => sock_send k (FAuth t) cn
    | None => set_status (ws cn) (authenticated cn) disconnected (gave_up cn) (sock_close k cn)
    end
  else sock_close k cn.
(** [onopen] *)
Definition opened (k : nat) (c : Client) : Client :=
  match socks (conn c) !! k with
  | Some s =>
      if bool_decide (ready s = CONNECTING) then
        let cn := set_sock k {| ready := OPEN; frames := frames s; acked := acked s |} (conn c) in
        match truthy_token (token c) with
        | Some t => set_conn (authenticate k (Some t) cn) c
        | None => set_conn (set_opening (opening cn ++ [k]) cn) c
        end
      else c
  | None => c
  end.
(** [readyAccessToken().then(authenticate)] *)
Definition token_ready (k : nat) (c : Client) : Client :=
  if bool_decide (k ∈ opening (conn c)) then
    set_conn (authenticate k (token c) (set_opening (filter (λ j, j ≠ k) (opening (conn c))) (conn c))) c
  else c.
Definition can_send (cn : Conn) : option nat :=
  match ws cn with
  | Some k => if bool_decide (ready <$> socks cn !! k = Some OPEN) && authenticated cn then Some k else None
  | None => None
  end.
Definition sendSubscribe (id : jstring) (s : Subscription) (cn : Conn) : Conn :=
  match can_send cn with Some k => sock_send k (FSubscribe id (sub_kind s) (sub_ns s)) cn | None => cn end.
Definition resubscribe (cn : Conn) (l : list (jstring * Subscription)) : Conn :=
  foldl (λ cn' e, sendSubscribe e.1 e.2 cn') cn l.
(** [sub.onEvent(...)] *)
Definition notify (id : jstring) (ty obj : jsval) (c : Client) : Client :=
  match assoc id (subscriptions c) with
  | Some s => set_env (hidden c) (token c)
      (delivered c ++ [{| d_id := id; d_cb := sub_cb s; d_type := ty; d_object := obj |}]) c
  | None => c
  end.
(** [msg.id], where it is truthy and can be a key. *)
Definition msg_id (msg : jsval) : option jstring := truthy_token (is_string (prop_of msg "id"%js)).
Definition type_is (msg : jsval) (t : jstring) : bool :=
  match prop_of msg "type"%js with JStr s => js_eqb s t | _ => false end.
Definition code_is (msg : jsval) (n : Z) : bool :=
  match prop_of msg "code"%js with JNum m => num_eqb m (of_Z n) | _ => false end.
Definition defined (v : jsval) : bool := match v with JUndef => false | _ => true end.
Definition handleMessage (k : nat) (msg : jsval) (c : Client) : Client :=
  if type_is msg "auth_ok"%js then
    let cn := conn c in
    let cn1 := match socks cn !! k with
      | Some s => set_sock k {| ready := ready s; frames := frames s; acked := true |} cn | None => cn end in
    set_retry {| reconnectAttempt := 0; reconnectTimer := reconnectTimer (retry c);
        reconnectCancelToken := reconnectCancelToken (retry c); onVisible := onVisible (retry c);
        refreshing := refreshing (retry c) |}
      (set_conn (resubscribe (set_status (ws cn1) true connected (gave_up cn1) cn1) (subscriptions c)) c)
  else if type_is msg "event"%js then
    match msg_id msg with
    | Some id =>
        if js_truthy (prop_of msg "eventType"%js) && defined (prop_of msg "object"%js)
        then notify id (prop_of msg "eventType"%js) (prop_of msg "object"%js) c else c
    | None => c
    end
  else if type_is msg "error"%js then
    match msg_id msg with
    | Some id => if code_is msg 403 then notify id (JStr EVENT_RBAC_DENIED) JNull c else c
    | None => c
    end
  else if type_is msg "resync_required"%js then
    match msg_id msg with Some id => notify id (JStr EVENT_RESYNC) JNull c | None => c end
  else c.
(** [onmessage] on an open socket. *)
Definition on_message (k : nat) (text : jstring) (c : Client) : Client :=
  if bool_decide (ready <$> socks (conn c) !! k = Some OPEN) && bool_decide (ws (conn c) = Some k) then
    match JSON_parse text with Some msg => handleMessage k msg c | None => c end
  else c.
(** [onclose] *)
Definition on_close (k : nat) (code : Z) (c : Client) : Client :=
  match socks (conn c) !! k with
  | Some s =>
      if bool_decide (ready s = CLOSED) then c else
      let cn := set_sock k {| ready := CLOSED; frames := frames s; acked := acked s |} (conn c) in
      if negb (bool_decide (ws cn = Some k)) then set_conn cn c
      else if bool_decide (code ∈ AUTH_FAILURE_CODES) || (MAX_RECONNECT_ATTEMPTS <=? reconnectAttempt (retry c))
      then set_conn (set_status None false disconnected true cn) c
      else set_retry (scheduleReconnect (hidden c) (retry c))
             (set_conn (set_status None false disconnected (gave_up cn) cn) c)
  | None => c
  end.
(** The timer of [scheduleReconnect], up to its [await]. *)
Definition timer_fired (c : Client) : Client :=
  let r := retry c in
  match reconnectTimer r with
  | Some t =>
      set_retry {| reconnectAttempt := reconnectAttempt r; reconnectTimer := None;
        reconnectCancelToken := reconnectCancelToken r; onVisible := onVisible r;
        refreshing := if bool_decide (t = reconnectCancelToken r) then refreshing r ++ [t] else refreshing r |} c
  | None => c
  end.
(** The rest of it: [refreshTokenForWS] stored [tok], or failed. *)
Definition refreshed (n : nat) (tok : option jstring) (ok : bool) (c : Client) : Client :=
  let r := retry c in
  match refreshing r !! n with
  | Some t =>
      let c1 := set_retry {| reconnectAttempt := reconnectAttempt r; reconnectTimer := reconnectTimer r;
        reconnectCancelToken := reconnectCancelToken r; onVisible := onVisible r;
        refreshing := delete n (refreshing r) |} c in
      let c2 := match truthy_token tok with Some x => set_env (hidden c1) (Some x) (delivered c1) c1 | None => c1 end in
      if bool_decide (t = reconnectCancelToken r) then connectWS ok c2 else c2
  | None => c
  end.
(** A visibilitychange: the listeners registered so far run, each once. *)
Definition visibility (h : bool) (c : Client) : Client :=
  let r := retry c in
  let r0 := {| reconnectAttempt := reconnectAttempt r; reconnectTimer := reconnectTimer r;
    reconnectCancelToken := reconnectCancelToken r; onVisible := 0; refreshing := refreshing r |} in
  set_retry (Nat.iter (onVisible r) (scheduleReconnect h) r0) (set_env h (token c) (delivered c) c).
Definition subscribe (id kind ns : jstring) (cb : nat) (ok : bool) (c : Client) : Client :=
  let sub := {| sub_kind := kind; sub_ns := ns; sub_cb := cb |} in
  let c1 := connectWS ok (set_subs (assoc_set id sub (subscriptions c)) c) in
  set_conn (sendSubscribe id sub (conn c1)) c1.
(** The function [subscribe] returns. *)
Definition unsubscribe (id : jstring) (c : Client) : Client :=
  let c1 := set_subs (remove_key id (subscriptions c)) c in
  match can_send (conn c1) with
  | Some k => set_conn (sock_send k (FUnsubscribe id) (conn c1)) c1
  | None => c1
  end.
Definition disconnectWS (c : Client) : Client :=
  let r := retry c in
  let cn := conn c in
  let cn1 := match ws cn with Some k => sock_close k cn | None => cn end in
  set_subs [] (set_retry
    {| reconnectAttempt := 0; reconnectTimer := None; reconnectCancelToken := S (reconnectCancelToken r);
       onVisible := onVisible r; refreshing := refreshing r |}
    (set_conn (set_status None (authenticated cn1) disconnected (gave_up cn1) cn1) c)).

(** What can happen to the client. *)
Inductive Happening :=
  | Subscribe (id kind ns : jstring) (cb : nat) (ok : bool)
  | Unsubscribe (id : jstring)
  | Connect (ok : bool)
  | Disconnect
  | SetToken (t : option jstring)
  | Opened (k : nat)
  | TokenReady (k : nat)
  | OnMessage (k : nat) (text : jstring)
  | OnClose (k : nat) (code : Z)
  | TimerFired
  | Refreshed (n : nat) (tok : option jstring) (ok : bool)
  | Visibility (h : bool).
Definition step (c : Client) (e : Happening) : Client :=
  match e with
  | Subscribe id kind ns cb ok => subscribe id kind ns cb ok c
  | Unsubscribe id => unsubscribe id c
  | Connect ok => connectWS ok c
  | Disconnect => disconnectWS c
  | SetToken t => set_env (hidden c) t (delivered c) c
  | Opened k => opened k c
  | TokenReady k => token_ready k c
  | OnMessage k text => on_message k text c
  | OnClose k code => on_close k code c
  | TimerFired => timer_fired c
  | Refreshed n tok ok => refreshed n tok ok c
  | Visibility h => visibility h c
  end.
Definition loaded (h : bool) (t : option jstring) : Client :=
  {| conn := {| ws := None; socks := ∅; next_sock := 0; authenticated := false; wsStatus := disconnected;
       opening := []; gave_up := false |};
     retry := {| reconnectAttempt := 0; reconnectTimer := None; reconnectCancelToken := 0; onVisible := 0;
       refreshing := [] |};
     subscriptions := []; hidden := h; token := t; delivered := [] |}.
Definition run (c : Client) (es : list Happening) : Client := foldl step c es.

(** ** The connection carries the subscriptions *)

(** What the server is asked for on a connection, by the frames it was sent. *)
Definition ask (v : gmap jstring (jstring * jstring)) (f : Frame) : gmap jstring (jstring * jstring) :=
  match f with
  | FAuth _ => v
  | FSubscribe id kind ns => <[id := (kind, ns)]> v
  | FUnsubscribe id => delete id v
  end.
Definition asked (fs : list Frame) : gmap jstring (jstring * jstring) := foldl ask ∅ fs.
(** What the page wants. *)
Definition topic (s : Subscription) : jstring * jstring := (sub_kind s, sub_ns s).
Definition wanted (l : list (jstring * Subscription)) : gmap jstring (jstring * jstring) :=
  list_to_map (prod_map id topic <$> l).
(** A connection on which nothing but the token was sent. *)
Definition silent (fs : list Frame) : Prop := fs = [] ∨ ∃ t, fs = [FAuth t].

Record carries (cn : Conn) (l : list (jstring * Subscription)) : Prop := {
  ca_fresh : ∀ k, (next_sock cn ≤ k)%nat → socks cn !! k = None;
  ca_ws : ∀ k, ws cn = Some k → is_Some (socks cn !! k);
  ca_live : ∀ k s, socks cn !! k = Some s → live (ready s) = true → ws cn = Some k;
  ca_silent : ∀ k s, socks cn !! k = Some s → acked s = false → silent (frames s);
  ca_connecting : ∀ k s, socks cn !! k = Some s → ready s = CONNECTING → frames s = [] ∧ acked s = false;
  ca_opening : ∀ k, k ∈ opening cn → ∃ s, socks cn !! k = Some s ∧ ready s ≠ CONNECTING ∧
    (acked s = false → frames s = []);
  ca_auth : ∀ k s, ws cn = Some k → socks cn !! k = Some s → live (ready s) = true → authenticated cn = acked s;
  ca_asked : ∀ k s, ws cn = Some k → socks cn !! k = Some s → ready s = OPEN → acked s = true →
    asked (frames s) = wanted l;
  ca_badge : wsStatus cn = connected →
    ∃ k s, ws cn = Some k ∧ socks cn !! k = Some s ∧ ready s = OPEN ∧ acked s = true
}.

Lemma asked_app fs gs : asked (fs ++ gs) = foldl ask (asked fs) gs.
Proof. apply foldl_app. Qed.
Lemma silent_asked fs : silent fs → asked fs = ∅.
Proof. by intros [->|[t ->]]. Qed.
Lemma wanted_lookup l k : wanted l !! k = topic <$> assoc k l.
Proof.
  unfold wanted. induction l as [|[j s] l IH]; [done|]. cbn.
  destruct (decide (j = k)) as [->|Hj]; [by rewrite lookup_insert_eq|]. by rewrite lookup_insert_ne.
Qed.
Lemma wanted_set id s l : wanted (assoc_set id s l) = <[id := topic s]> (wanted l).
Proof.
  apply map_eq. intros k. rewrite wanted_lookup. destruct (decide (id = k)) as [->|Hk].
  - by rewrite assoc_set_eq, lookup_insert_eq.
  - by rewrite assoc_set_ne, lookup_insert_ne, wanted_lookup.
Qed.
Lemma wanted_remove id l : wanted (remove_key id l) = delete id (wanted l).
Proof.
  apply map_eq. intros k. rewrite wanted_lookup, remove_key_assoc. case_decide as Hk.
  - subst k. by rewrite lookup_delete_eq.
  - by rewrite lookup_delete_ne, wanted_lookup.
Qed.
(** The frames of a subscription again. *)
Definition sub_frame (e : jstring * Subscription) : Frame := FSubscribe e.1 (sub_kind e.2) (sub_ns e.2).
Lemma ask_again l v : NoDup l.*1 → foldl ask v (sub_frame <$> l) = wanted l ∪ v.
Proof.
  revert v. induction l as [|[id s] l IH]; intros v; [unfold wanted; cbn; by rewrite (left_id_L ∅ (∪))|].
  intros [Hid Hnd]%NoDup_cons. cbn [fmap list_fmap foldl ask sub_frame fst snd]. rewrite IH by done.
  change (wanted ((id, s) :: l)) with (<[id := topic s]> (wanted l)).
  rewrite <- insert_union_l, insert_union_r; [done|]. rewrite wanted_lookup.
  apply assoc_None in Hid. cbn in Hid. by rewrite Hid.
Qed.

(** *** The connection, one operation at a time *)

Lemma set_sock_same k s cn : socks cn !! k = Some s → set_sock k s cn = cn.
Proof. intros H. destruct cn. unfold set_sock. cbn in *. by rewrite insert_id. Qed.
Lemma set_sock_twice k s s' cn : set_sock k s (set_sock k s' cn) = set_sock k s cn.
Proof. unfold set_sock. cbn. by rewrite insert_insert_eq. Qed.
(** Replacing a socket the connection has. *)
Lemma carry_sock cn l k s s' : carries cn l → socks cn !! k = Some s →
  (live (ready s') = true → live (ready s) = true) → (acked s' = false → silent (frames s')) →
  ready s' ≠ CONNECTING → (k ∈ opening cn → acked s' = false → frames s' = []) →
  (ws cn = Some k → live (ready s') = true → authenticated cn = acked s') →
  (ws cn = Some k → ready s' = OPEN → acked s' = true → asked (frames s') = wanted l) →
  (ws cn = Some k → wsStatus cn = connected → ready s' = OPEN ∧ acked s' = true) →
  carries (set_sock k s' cn) l.
Proof.
  intros Hc Hk Hlive Hsil Hcon Hop Hau Has Hba. split; cbn.
  - intros j Hj. rewrite lookup_insert_ne; [by apply Hc|]. intros <-. by rewrite (ca_fresh _ _ Hc) in Hk.
  - intros j Hj. destruct (decide (k = j)) as [->|]; [rewrite lookup_insert_eq; by eexists|].
    rewrite lookup_insert_ne by done. by apply Hc.
  - intros j x [[<- <-]|[? Hx]]%lookup_insert_Some; [intros Hl; by eapply Hc; [|by apply Hlive]|by eapply Hc].
  - intros j x [[<- <-]|[? Hx]]%lookup_insert_Some; [done|by eapply Hc].
  - intros j x [[<- <-]|[? Hx]]%lookup_insert_Some; [done|by eapply Hc].
  - intros j Hj. destruct (decide (k = j)) as [->|]; [exists s'; rewrite lookup_insert_eq; by auto|].
    rewrite lookup_insert_ne by done. by apply Hc.
  - intros j x Hw [[<- <-]|[? Hx]]%lookup_insert_Some; [by auto|by eapply Hc].
  - intros j x Hw [[<- <-]|[? Hx]]%lookup_insert_Some; [by auto|by eapply Hc].
  - intros Hb. destruct (ca_badge _ _ Hc Hb) as (j & x & Hw & Hx & Hr & Ha).
    destruct (decide (k = j)) as [->|]; [exists j, s'|exists j, x].
    + rewrite lookup_insert_eq. destruct (Hba Hw Hb). done.
    + by rewrite lookup_insert_ne.
Qed.
(** Where nothing is being carried, anything may be wanted. *)
Lemma can_send_Some cn k : can_send cn = Some k →
  ws cn = Some k ∧ authenticated cn = true ∧ ∃ s, socks cn !! k = Some s ∧ ready s = OPEN.
Proof.
  unfold can_send. destruct (ws cn) as [j|]; [|done]. case_bool_decide as Hr; cbn; [|done].
  destruct (authenticated cn); [|done]. intros [= ->]. split_and!; [done|done|].
  destruct (socks cn !! k) as [s|]; naive_solver.
Qed.
Lemma can_send_acked cn l k s : carries cn l → ws cn = Some k → socks cn !! k = Some s → ready s = OPEN →
  acked s = true → can_send cn = Some k.
Proof.
  intros Hc Hw Hs Hr Ha. unfold can_send. rewrite Hw, Hs. cbn. rewrite bool_decide_eq_true_2 by congruence.
  rewrite (ca_auth _ _ Hc k s); [by rewrite Ha|done|done|by rewrite Hr].
Qed.
Lemma carry_subs cn l l' : carries cn l → can_send cn = None → carries cn l'.
Proof.
  intros Hc Hn. split; try apply Hc. intros k s Hw Hs Hr Ha.
  by rewrite (can_send_acked cn l k s) in Hn.
Qed.
Lemma carry_close cn l k : carries cn l → (ws cn = Some k → wsStatus cn ≠ connected) → carries (sock_close k cn) l.
Proof.
  intros Hc Hb. unfold sock_close. destruct (socks cn !! k) as [s|] eqn:Hs; [|done].
  assert (carries (set_sock k {| ready := CLOSING; frames := frames s; acked := acked s |} cn) l).
  { eapply carry_sock; [done|exact Hs|done|cbn; by eapply Hc|done|..]; cbn; try done.
    - intros Hk. destruct (ca_opening _ _ Hc k Hk) as (? & ? & _ & ?). simplify_eq. done.
    - intros Hw Hst. by destruct (Hb Hw). }
  by destruct (ready s).
Qed.
(** The current socket, accepted by the server, carrying what is wanted. *)
Lemma carry_current cn l l' k s fs st : carries cn l → ws cn = Some k → socks cn !! k = Some s → ready s = OPEN →
  asked fs = wanted l' →
  carries (set_status (ws cn) true st (gave_up cn) (set_sock k {| ready := OPEN; frames := fs; acked := true |} cn)) l'.
Proof.
  intros Hc Hw Hs Hr Hx. split; cbn.
  - intros j Hj. rewrite lookup_insert_ne; [by apply Hc|]. intros <-. by rewrite (ca_fresh _ _ Hc) in Hs.
  - intros j Hj. rewrite Hw in Hj. injection Hj as <-. rewrite lookup_insert_eq. by eexists.
  - intros j x [[<- <-]|[? Hx']]%lookup_insert_Some; [done|by eapply Hc].
  - intros j x [[<- <-]|[? Hx']]%lookup_insert_Some; [done|by eapply Hc].
  - intros j x [[<- <-]|[? Hx']]%lookup_insert_Some; [done|by eapply Hc].
  - intros j Hj. destruct (decide (k = j)) as [->|]; [rewrite lookup_insert_eq; by eexists|].
    rewrite lookup_insert_ne by done. by apply Hc.
  - intros j x Hj [[<- <-]|[? Hx']]%lookup_insert_Some; [done|]. congruence.
  - intros j x Hj [[<- <-]|[Hne Hx']]%lookup_insert_Some; [done|]. congruence.
  - intros _. eexists k, _. by rewrite lookup_insert_eq.
Qed.
Lemma acked_sender cn l k : carries cn l → can_send cn = Some k →
  ∃ s, ws cn = Some k ∧ authenticated cn = true ∧ socks cn !! k = Some s ∧ ready s = OPEN ∧ acked s = true.
Proof.
  intros Hc (Hw & Ha & s & Hs & Hr)%can_send_Some. exists s. split_and!; try done.
  rewrite <- (ca_auth _ _ Hc k s); [done|done|done|by rewrite Hr].
Qed.
(** A frame on the socket that carries the subscriptions. *)
Lemma carry_frame cn l l' k f : carries cn l → can_send cn = Some k → ask (wanted l) f = wanted l' →
  carries (sock_send k f cn) l'.
Proof.
  intros Hc Hk Hf. destruct (acked_sender _ _ _ Hc Hk) as (s & Hw & Ha & Hs & Hr & Hack).
  unfold sock_send. rewrite Hs, Hr, Hack.
  assert (Hx : asked (frames s ++ [f]) = wanted l') by (rewrite asked_app; cbn; by rewrite (ca_asked _ _ Hc k s)).
  change (carries (set_status (ws cn) (authenticated cn) (wsStatus cn) (gave_up cn)
    (set_sock k {| ready := OPEN; frames := frames s ++ [f]; acked := true |} cn)) l').
  rewrite Ha. by apply (carry_current cn l l' k s).
Qed.

(** A connection seen with other flags. *)
Lemma carry_status cn l w a st gu : carries cn l →
  (∀ k, w = Some k → ws cn = Some k) →
  (∀ k s, socks cn !! k = Some s → live (ready s) = true → w = Some k ∧ a = acked s) →
  (st = connected → ∃ k s, w = Some k ∧ socks cn !! k = Some s ∧ ready s = OPEN ∧ acked s = true) →
  carries (set_status w a st gu cn) l.
Proof.
  intros Hc Hw Hl Hb. split; cbn; try apply Hc.
  - intros k ?%Hw. by apply Hc.
  - intros k s Hs Hr. by eapply Hl.
  - intros k s _ Hs Hr. by eapply Hl.
  - intros k s ?%Hw. by apply Hc.
  - done.
Qed.
Lemma carry_opening cn l o : carries cn l → (∀ k, k ∈ o → k ∈ opening cn) → carries (set_opening o cn) l.
Proof. intros Hc Ho. split; try apply Hc. cbn. intros k ?%Ho. by apply Hc. Qed.
Lemma current_not_live cn l k s : carries cn l →
  match current_ready cn with Some r => live r | None => false end = false →
  socks cn !! k = Some s → live (ready s) = false.
Proof.
  intros Hc Hn Hs. destruct (live (ready s)) eqn:Hl; [|done].
  pose proof (ca_live _ _ Hc k s Hs Hl) as Hw. unfold current_ready in Hn. rewrite Hw in Hn. cbn in Hn.
  rewrite Hs in Hn. cbn in Hn. congruence.
Qed.
Lemma connect_carries ok c l : carries (conn c) l → carries (conn (connectWS ok c)) l.
Proof.
  intros Hc. unfold connectWS. destruct (match current_ready (conn c) with Some r => live r | None => false end) eqn:Hn; [done|].
  pose proof (λ k s, current_not_live (conn c) l k s Hc Hn) as Hdead. destruct ok.
  - pose proof (ca_fresh _ _ Hc (next_sock (conn c)) (le_n _)) as Hf. split; cbn.
    + intros k Hk. rewrite lookup_insert_ne by lia. apply Hc. lia.
    + intros k [= <-]. rewrite lookup_insert_eq. by eexists.
    + intros k s [[<- <-]|[? Hs]]%lookup_insert_Some; [done|]. intros Hl. by rewrite (Hdead k s Hs) in Hl.
    + intros k s [[<- <-]|[? Hs]]%lookup_insert_Some; [by left|by eapply Hc].
    + intros k s [[<- <-]|[? Hs]]%lookup_insert_Some; [done|by eapply Hc].
    + intros k Hk. destruct (ca_opening _ _ Hc k Hk) as (s & Hs & ?). exists s.
      rewrite lookup_insert_ne by congruence. done.
    + intros k s [= <-]. rewrite lookup_insert_eq. by intros [= <-].
    + intros k s [= <-]. rewrite lookup_insert_eq. by intros [= <-].
    + done.
  - apply carry_status; [done|done| |done]. intros k s Hs Hl. by rewrite (Hdead k s Hs) in Hl.
Qed.

Lemma authenticate_carries k tok cn l : carries cn l → k ∉ opening cn →
  (∀ s, socks cn !! k = Some s → acked s = false → frames s = []) → carries (authenticate k tok cn) l.
Proof.
  intros Hc Hop Hs. unfold authenticate. case_bool_decide as Hw; [|by apply carry_close].
  destruct (truthy_token tok) as [t|].
  - unfold sock_send. destruct (socks cn !! k) as [s|] eqn:Hk; [|done]. destruct (ready s) eqn:Hr; [done| |done|done].
    eapply carry_sock; [done|exact Hk|by rewrite Hr|..]; cbn; try done.
    + intros Ha. right. exists t. by rewrite (Hs s).
    + intros _ _. eapply Hc; [done|done|by rewrite Hr].
    + intros _ _ Ha. rewrite asked_app. cbn. by eapply Hc.
    + intros _ Hb. destruct (ca_badge _ _ Hc Hb) as (j & x & ? & ? & ? & ?). by simplify_eq.
  - assert (E : set_status (ws cn) (authenticated cn) disconnected (gave_up cn) (sock_close k cn) =
      sock_close k (set_status (ws cn) (authenticated cn) disconnected (gave_up cn) cn)).
    { unfold sock_close. cbn. destruct (socks cn !! k) as [s|]; [|done]. by destruct (ready s). }
    rewrite E. apply carry_close; [|done]. apply carry_status; [done|done| |done].
    intros j s Hj Hl. split; [by eapply Hc|]. eapply Hc; [by eapply Hc|done|done].
Qed.
Lemma opened_carries k c l : carries (conn c) l → carries (conn (opened k c)) l.
Proof.
  intros Hc. unfold opened. destruct (socks (conn c) !! k) as [s|] eqn:Hs; [|done]. case_bool_decide as Hr; [|done].
  assert (Hw : ws (conn c) = Some k) by (eapply Hc; [done|by rewrite Hr]).
  destruct (ca_connecting _ _ Hc k s Hs Hr) as [Hfs Hack].
  assert (Hop : k ∉ opening (conn c)).
  { intros Hk. destruct (ca_opening _ _ Hc k Hk) as (? & ? & ? & _). by simplify_eq. }
  assert (Hb : wsStatus (conn c) ≠ connected).
  { intros Hb. destruct (ca_badge _ _ Hc Hb) as (j & x & ? & ? & ? & ?). simplify_eq. congruence. }
  assert (Hc1 : carries (set_sock k {| ready := OPEN; frames := frames s; acked := acked s |} (conn c)) l).
  { eapply carry_sock; [done|exact Hs|by rewrite Hr|..]; cbn; try done.
    - intros _. rewrite Hfs. by left.
    - intros _ _. eapply Hc; [done|done|by rewrite Hr].
    - congruence. }
  destruct (truthy_token (token c)) as [t|]; cbn [conn set_conn].
  - apply authenticate_carries; [done|done|]. cbn. rewrite lookup_insert_eq. by intros ? [= <-].
  - split; try apply Hc1. cbn. intros j. rewrite elem_of_app, list_elem_of_singleton. intros [Hj| ->].
    + destruct (ca_opening _ _ Hc1 j Hj) as (x & ?). by exists x.
    + rewrite lookup_insert_eq. by eexists.
Qed.
Lemma token_ready_carries k c l : carries (conn c) l → carries (conn (token_ready k c)) l.
Proof.
  intros Hc. unfold token_ready. case_bool_decide as Hk; [|done]. cbn.
  destruct (ca_opening _ _ Hc k Hk) as (s & Hs & _ & Hf). apply authenticate_carries.
  - apply carry_opening; [done|]. by intros j [_ ?]%list_elem_of_filter.
  - cbn. by intros [? _]%list_elem_of_filter.
  - cbn. intros ?. rewrite Hs. by intros [= <-].
Qed.
(** Letting go of the current socket. *)
Lemma carry_drop cn l k s r a gu : carries cn l → ws cn = Some k → socks cn !! k = Some s → live r = false →
  carries (set_status None a disconnected gu (set_sock k {| ready := r; frames := frames s; acked := acked s |} cn)) l.
Proof.
  intros Hc Hw Hs Hr.
  assert (Hr' : r ≠ OPEN ∧ r ≠ CONNECTING) by (by destruct r).
  set (cn0 := set_status (ws cn) (authenticated cn) disconnected gu cn).
  assert (Hc0 : carries cn0 l).
  { apply carry_status; [done|done| |done]. intros j x Hj Hl. split; [by eapply Hc|]. by eapply Hc; [eapply Hc|..]. }
  assert (Hc1 : carries (set_sock k {| ready := r; frames := frames s; acked := acked s |} cn0) l).
  { eapply carry_sock; [exact Hc0|exact Hs|..]; cbn; try tauto; [by rewrite Hr|by eapply Hc|..].
    - intros Hk. destruct (ca_opening _ _ Hc k Hk) as (? & ? & _ & ?). by simplify_eq.
    - by rewrite Hr.
    - done. }
  apply (carry_status _ l None a disconnected gu) in Hc1; [done|done| |done].
  intros j x Hj Hl. pose proof (ca_live _ _ Hc1 j x Hj Hl) as Hwj. cbn in Hwj, Hj. rewrite Hw in Hwj.
  injection Hwj as <-. rewrite lookup_insert_eq in Hj. injection Hj as <-. cbn in Hl. congruence.
Qed.
Lemma close_carries k code c l : carries (conn c) l → carries (conn (on_close k code c)) l.
Proof.
  intros Hc. unfold on_close. destruct (socks (conn c) !! k) as [s|] eqn:Hs; [|done]. case_bool_decide as Hr; [done|].
  set (cn1 := set_sock k _ _). case_bool_decide as Hw; cbn [negb].
  2: { cbn in Hw. eapply carry_sock; [done|exact Hs|done|..]; cbn; try done; [by eapply Hc|].
    intros Hk. destruct (ca_opening _ _ Hc k Hk) as (? & ? & _ & ?). by simplify_eq. }
  destruct (_ || _); by eapply carry_drop.
Qed.
Lemma sendSubscribe_carries id sub cn l : carries cn l → carries (sendSubscribe id sub cn) (assoc_set id sub l).
Proof.
  intros Hc. unfold sendSubscribe. destruct (can_send cn) as [k|] eqn:Hk; [|by eapply carry_subs].
  eapply carry_frame; [done|done|]. cbn. by rewrite wanted_set.
Qed.
Lemma unsubscribe_carries id c : carries (conn c) (subscriptions c) →
  carries (conn (unsubscribe id c)) (subscriptions (unsubscribe id c)).
Proof.
  intros Hc. unfold unsubscribe. cbn [conn set_subs]. destruct (can_send (conn c)) as [k|] eqn:Hk; cbn.
  - eapply carry_frame; [done|done|]. cbn. by rewrite wanted_remove.
  - by eapply carry_subs.
Qed.
Lemma disconnect_carries c l : carries (conn c) l → carries (conn (disconnectWS c)) [].
Proof.
  intros Hc. unfold disconnectWS. cbn. apply (carry_subs _ l); [|done].
  destruct (ws (conn c)) as [k|] eqn:Hw.
  - destruct (ca_ws _ _ Hc k Hw) as [s Hs]. unfold sock_close. rewrite Hs.
    assert (Hx : ∀ r a gu, live r = false → carries (set_status None a disconnected gu
      (set_sock k {| ready := r; frames := frames s; acked := acked s |} (conn c))) l) by (intros; by eapply carry_drop).
    assert (Hsame : set_sock k {| ready := ready s; frames := frames s; acked := acked s |} (conn c) = conn c)
      by (apply set_sock_same; by destruct s).
    pose proof (Hx (ready s) (authenticated (conn c)) (gave_up (conn c))) as Hx'. rewrite Hsame in Hx'.
    destruct (ready s) eqn:Hr; by first [apply Hx|apply Hx'].
  - apply carry_status; [done|done| |done]. intros k s Hs Hl. by rewrite (ca_live _ _ Hc k s Hs Hl) in Hw.
Qed.
(** All subscriptions again, on the socket that was just accepted. *)
Lemma resubscribe_frames l cn k s : can_send cn = Some k → socks cn !! k = Some s →
  resubscribe cn l = set_sock k {| ready := OPEN; frames := frames s ++ (sub_frame <$> l); acked := acked s |} cn.
Proof.
  intros Hk Hs. destruct (can_send_Some _ _ Hk) as (Hw & Ha & s0 & Hs0 & Hr). rewrite Hs in Hs0. injection Hs0 as <-.
  revert cn s Hk Hs Hw Ha Hr. induction l as [|e l IH]; intros cn s Hk Hs Hw Ha Hr.
  - cbn. rewrite app_nil_r. symmetry. apply set_sock_same. rewrite Hs. destruct s. cbn in *. by subst.
  - cbn [resubscribe foldl]. unfold sendSubscribe at 2. rewrite Hk. unfold sock_send. rewrite Hs, Hr.
    set (s1 := {| ready := OPEN; frames := _; acked := _ |}). fold (resubscribe (set_sock k s1 cn) l).
    rewrite (IH _ s1); [|..|done|done|done].
    + rewrite set_sock_twice. cbn. rewrite <- app_assoc. done.
    + unfold can_send. cbn. rewrite Hw, lookup_insert_eq. cbn. by rewrite Ha.
    + cbn. by rewrite lookup_insert_eq.
Qed.
Lemma message_carries k text c : carries (conn c) (subscriptions c) → NoDup (subscriptions c).*1 →
  carries (conn (on_message k text c)) (subscriptions c).
Proof.
  intros Hc Hnd. unfold on_message. case_bool_decide as Hr; [|done]. case_bool_decide as Hw; [|done]. cbn [andb].
  destruct (JSON_parse text) as [msg|]; [|done]. unfold handleMessage.
  assert (Hnt : ∀ id a b, conn (notify id a b c) = conn c) by (intros; unfold notify; by case_match).
  destruct (type_is msg "auth_ok"%js).
  2: { repeat (case_match; try done; try by rewrite Hnt). }
  destruct (socks (conn c) !! k) as [s|] eqn:Hs; [|done]. cbn in Hr. injection Hr as Hr. cbn.
  set (cn1 := set_status _ _ _ _ _).
  assert (Hk : can_send cn1 = Some k).
  { unfold can_send. cbn. rewrite Hw, lookup_insert_eq. cbn. by rewrite Hr. }
  rewrite (resubscribe_frames _ _ _ _ Hk (lookup_insert_eq _ _ _)). cbn [acked frames ready].
  change (carries (set_status (ws (conn c)) true connected (gave_up (conn c)) (set_sock k
    {| ready := OPEN; frames := frames s ++ (sub_frame <$> subscriptions c); acked := true |}
    (set_sock k {| ready := ready s; frames := frames s; acked := true |} (conn c)))) (subscriptions c)).
  rewrite set_sock_twice. apply (carry_current _ (subscriptions c) _ _ s); try done.
  rewrite asked_app, ask_again by done. destruct (acked s) eqn:Hack.
  - rewrite (ca_asked _ _ Hc k s) by done. apply map_union_idemp.
  - rewrite (silent_asked (frames s)); [apply (right_id_L ∅ (∪))|]. by eapply Hc.
Qed.

Definition carried (c : Client) : Prop := carries (conn c) (subscriptions c) ∧ NoDup (subscriptions c).*1.
Lemma connect_subs ok c : subscriptions (connectWS ok c) = subscriptions c.
Proof. unfold connectWS. by repeat case_match. Qed.
Lemma step_carried c e : carried c → carried (step c e).
Proof.
  intros [Hc Hnd]. destruct e; cbn [step].
  - split; cbn; rewrite connect_subs; cbn; [|by apply assoc_set_keys_NoDup].
    apply sendSubscribe_carries. by apply connect_carries.
  - split; [by apply unsubscribe_carries|]. unfold unsubscribe. case_match; by apply remove_key_NoDup.
  - split; rewrite connect_subs; [by apply connect_carries|done].
  - split; [by eapply disconnect_carries|constructor].
  - by split.
  - assert (E : subscriptions (opened k c) = subscriptions c) by (unfold opened; by repeat case_match).
    split; rewrite E; [by apply opened_carries|done].
  - assert (E : subscriptions (token_ready k c) = subscriptions c) by (unfold token_ready; by repeat case_match).
    split; rewrite E; [by apply token_ready_carries|done].
  - assert (E : subscriptions (on_message k text c) = subscriptions c).
    { unfold on_message, handleMessage, notify. by repeat case_match. }
    split; rewrite E; [by apply message_carries|done].
  - assert (E : subscriptions (on_close k code c) = subscriptions c) by (unfold on_close; by repeat case_match).
    split; rewrite E; [by apply close_carries|done].
  - unfold timer_fired. case_match; by split.
  - unfold refreshed. destruct (refreshing (retry c) !! n); [|by split]. cbv zeta.
    set (c2 := match truthy_token tok with Some _ => _ | None => _ end).
    assert (E : conn c2 = conn c ∧ subscriptions c2 = subscriptions c) by (unfold c2; by case_match).
    destruct E as [E1 E2]. destruct (bool_decide _); [|split; congruence].
    split; rewrite connect_subs, E2; [|done]. apply connect_carries. by rewrite E1.
  - by split.
Qed.
Lemma loaded_carried h t : carried (loaded h t).
Proof. split; [|constructor]. split; cbn; try done. intros k Hk. by apply elem_of_nil in Hk. Qed.
Lemma run_carried es c : carried c → carried (run c es).
Proof. revert c. induction es as [|e es IH]; intros c Hc; [done|]. apply IH. by apply step_carried. Qed.

(** C27. Whatever the server, the network, the tab and the components do, at most one
    socket of the page is open or opening, and it is the current one; a server
    that has not accepted the token of a connection has been sent nothing else on
    it; and the open connection the server accepted has been asked for exactly
    the subscriptions the page holds, which is when the badge reads connected. *)
Theorem connection_carries_subscriptions h t es :
  let c := run (loaded h t) es in
  (∀ k s, socks (conn c) !! k = Some s → live (ready s) = true → ws (conn c) = Some k) ∧
  (∀ k s, socks (conn c) !! k = Some s → acked s = false → frames s = [] ∨ ∃ tok, frames s = [FAuth tok]) ∧
  (∀ k s, socks (conn c) !! k = Some s → ready s = OPEN → acked s = true →
     asked (frames s) = wanted (subscriptions c)) ∧
  (wsStatus (conn c) = connected →
     ∃ k s, ws (conn c) = Some k ∧ socks (conn c) !! k = Some s ∧ ready s = OPEN ∧ acked s = true).
Proof.
  cbv zeta. destruct (run_carried es (loaded h t) (loaded_carried h t)) as [Hc _]. split_and!.
  - apply Hc.
  - apply Hc.
  - intros k s Hs Hr Ha. eapply Hc; [|done..]. eapply Hc; [done|by rewrite Hr].
  - apply Hc.
Qed.


(** ** Reconnecting *)

(** The current socket is there, or its close is still to come. *)
Definition held (cn : Conn) : bool :=
  match current_ready cn with Some CLOSED | None => false | Some _ => true end.
(** A way back: a socket, a timer, a refresh that was not cancelled, a listener
    that waits for the tab; or the client gave up. *)
Definition way_back (c : Client) : Prop :=
  held (conn c) = true ∨ is_Some (reconnectTimer (retry c)) ∨
  reconnectCancelToken (retry c) ∈ refreshing (retry c) ∨ (0 < onVisible (retry c))%nat ∨ gave_up (conn c) = true.
Record sane (r : Retry) (h : bool) : Prop := {
  rt_token : ∀ t, reconnectTimer r = Some t → t = reconnectCancelToken r;
  rt_past : ∀ t, t ∈ refreshing r → (t ≤ reconnectCancelToken r)%nat;
  rt_hidden : (0 < onVisible r)%nat → h = true
}.
Definition retries (c : Client) : Prop :=
  sane (retry c) (hidden c) ∧ (subscriptions c ≠ [] → way_back c).

Lemma current_ready_set k s cn :
  current_ready (set_sock k s cn) = if decide (ws cn = Some k) then Some (ready s) else current_ready cn.
Proof.
  unfold current_ready. cbn. destruct (ws cn) as [j|]; [|done]. cbn. case_decide as Hj.
  - injection Hj as ->. by rewrite lookup_insert_eq.
  - rewrite lookup_insert_ne; [done|congruence].
Qed.
Lemma held_sock k s s' cn : socks cn !! k = Some s → ready s ≠ CLOSED → ready s' ≠ CLOSED →
  held (set_sock k s' cn) = held cn.
Proof.
  intros Hs Hr Hr'. unfold held. rewrite current_ready_set. case_decide as Hw; [|done].
  unfold current_ready. rewrite Hw. cbn. rewrite Hs. cbn. by destruct (ready s), (ready s').
Qed.
Lemma held_send k f cn : held (sock_send k f cn) = held cn.
Proof.
  unfold sock_send. destruct (socks cn !! k) as [s|] eqn:Hs; [|done]. destruct (ready s) eqn:Hr; try done.
  eapply held_sock; [done|congruence|done].
Qed.
Lemma held_close k cn : held (sock_close k cn) = held cn.
Proof.
  unfold sock_close. destruct (socks cn !! k) as [s|] eqn:Hs; [|done]. destruct (ready s) eqn:Hr; try done.
  all: eapply held_sock; [done|congruence|done].
Qed.
Lemma close_frame k cn : ws (sock_close k cn) = ws cn ∧ gave_up (sock_close k cn) = gave_up cn.
Proof. unfold sock_close. by repeat case_match. Qed.
Lemma send_frame k f cn : ws (sock_send k f cn) = ws cn ∧ gave_up (sock_send k f cn) = gave_up cn.
Proof. unfold sock_send. by repeat case_match. Qed.
Lemma held_authenticate k tok cn : held (authenticate k tok cn) = held cn ∧ gave_up (authenticate k tok cn) = gave_up cn.
Proof.
  unfold authenticate. destruct (bool_decide _); [destruct (truthy_token tok)|].
  - split; [apply held_send|apply send_frame].
  - split; [|done]. rewrite <- (held_close k cn), <- (proj1 (close_frame k cn)). done.
  - split; [apply held_close|apply close_frame].
Qed.
Lemma held_subscribe id s cn : held (sendSubscribe id s cn) = held cn ∧ gave_up (sendSubscribe id s cn) = gave_up cn.
Proof.
  unfold sendSubscribe. destruct (can_send cn); [|done]. split; [apply held_send|apply send_frame].
Qed.
Lemma held_resubscribe l cn : held (resubscribe cn l) = held cn ∧ gave_up (resubscribe cn l) = gave_up cn.
Proof.
  revert cn. induction l as [|e l IH]; intros cn; [done|]. cbn. destruct (held_subscribe e.1 e.2 cn) as [<- <-]. apply IH.
Qed.
Lemma schedule_back hid r : is_Some (reconnectTimer (scheduleReconnect hid r)) ∨
  (0 < onVisible (scheduleReconnect hid r))%nat ∧ hid = true.
Proof.
  unfold scheduleReconnect. destruct (reconnectTimer r) eqn:Ht; [rewrite Ht; by left|].
  destruct hid; cbn; [right; split; [lia|done]|by left].
Qed.
Lemma schedule_sane h r : sane r h → sane (scheduleReconnect h r) h.
Proof.
  intros [Ht Hp Hh]. unfold scheduleReconnect. destruct (reconnectTimer r) eqn:E; [by split; rewrite ?E|].
  destruct h; by split; cbn; [intros ? [=]| |].
Qed.
Lemma iter_sane n h r : sane r h → sane (Nat.iter n (scheduleReconnect h) r) h.
Proof. intros Hr. induction n as [|n IH]; [done|]. by apply schedule_sane. Qed.

Lemma back_conn c cn : (held (conn c) = true → held cn = true) → (gave_up (conn c) = true → gave_up cn = true) →
  way_back c → way_back (set_conn cn c).
Proof. unfold way_back. cbn. tauto. Qed.
Lemma back_schedule hid c : way_back (set_retry (scheduleReconnect hid (retry c)) c).
Proof. unfold way_back. cbn. destruct (schedule_back hid (retry c)) as [?|[? _]]; tauto. Qed.
Lemma connect_back ok c : way_back (connectWS ok c).
Proof.
  unfold connectWS. destruct (current_ready (conn c)) as [[]|] eqn:Ec; cbn [live].
  1,2: left; unfold held; by rewrite Ec.
  all: destruct ok; [left; unfold held, current_ready; cbn; by rewrite lookup_insert_eq|].
  all: apply (back_schedule (hidden c) (set_conn _ c)).
Qed.
Lemma connect_sane ok c : sane (retry c) (hidden c) → sane (retry (connectWS ok c)) (hidden (connectWS ok c)).
Proof. intros Hs. unfold connectWS. repeat case_match; try done; by apply schedule_sane. Qed.
(** The listeners run one after the other; only the first one finds work. *)
Definition listen (n : nat) (r : Retry) : Retry :=
  {| reconnectAttempt := reconnectAttempt r; reconnectTimer := reconnectTimer r;
     reconnectCancelToken := reconnectCancelToken r; onVisible := n + onVisible r; refreshing := refreshing r |}.
Lemma iter_schedule n h r : Nat.iter n (scheduleReconnect h) r =
  match reconnectTimer r with
  | Some _ => r
  | None => if h then listen n r else match n with O => r | S _ => scheduleReconnect false r end
  end.
Proof.
  assert (Hk : ∀ x m, is_Some (reconnectTimer x) → Nat.iter m (scheduleReconnect h) x = x).
  { intros x m [t Ht]. induction m as [|m IH]; [done|]. rewrite Nat.iter_succ, IH. unfold scheduleReconnect. by rewrite Ht. }
  destruct (reconnectTimer r) eqn:E; [apply Hk; by rewrite E|]. destruct h.
  - induction n as [|n IH]; [by destruct r|]. rewrite Nat.iter_succ, IH. unfold scheduleReconnect, listen. cbn. by rewrite E.
  - destruct n as [|n]; [done|]. rewrite Nat.iter_succ_r. apply Hk. unfold scheduleReconnect. by rewrite E.
Qed.
Lemma elem_of_delete_other {A} (l : list A) n x y : l !! n = Some x → y ∈ l → y ≠ x → y ∈ delete n l.
Proof.
  intros Hn Hy Hne. rewrite <- (take_drop_middle l n x Hn) in Hy.
  rewrite delete_take_drop. rewrite elem_of_app, elem_of_cons in *. tauto.
Qed.
Lemma step_retries c e : retries c → retries (step c e).
Proof.
  intros [Hs Hb]. destruct e; cbn [step].
  - unfold subscribe. cbv zeta. set (c1 := connectWS ok _).
    split; [by apply (connect_sane ok (set_subs _ c))|]. intros _. destruct (held_subscribe id {| sub_kind := kind; sub_ns := ns; sub_cb := cb |} (conn c1)) as [E1 E2].
    apply back_conn; [by rewrite E1|by rewrite E2|]. apply connect_back.
  - assert (Hne : subscriptions (unsubscribe id c) = remove_key id (subscriptions c)).
    { unfold unsubscribe. by case_match. }
    split; [unfold unsubscribe; by case_match|]. rewrite Hne. intros H.
    assert (Hb' : way_back c) by (apply Hb; intros E; by rewrite E in H).
    unfold unsubscribe. cbn [conn set_subs]. destruct (can_send (conn c)) as [k|]; [|done].
    apply (back_conn (set_subs _ c)); [by rewrite held_send|by rewrite (proj2 (send_frame _ _ _))|done].
  - split; [by apply connect_sane|]. intros _. apply connect_back.
  - split; [|done]. cbn. destruct Hs as [Ht Hp Hh]. split; cbn; [done| |done]. intros t ?%Hp. lia.
  - by split.
  - unfold opened. destruct (socks (conn c) !! k) as [s|] eqn:Hk; [|done]. case_bool_decide as Hr; [|done].
    set (cn := set_sock k _ _).
    assert (Hcn : held cn = held (conn c)) by (eapply held_sock; [done|congruence|done]).
    destruct (truthy_token (token c)) as [t|].
    + split; [done|]. intros Hne. destruct (held_authenticate k (Some t) cn) as [E1 E2].
      apply back_conn; [by rewrite E1, Hcn|by rewrite E2|by apply Hb].
    + split; [done|]. intros Hne. apply back_conn; [|done|by apply Hb]. by rewrite <- Hcn.
  - unfold token_ready. case_bool_decide; [|done]. split; [done|]. intros Hne. set (cn := set_opening _ _).
    destruct (held_authenticate k (token c) cn) as [E1 E2]. apply back_conn; [by rewrite E1|by rewrite E2|by apply Hb].
  - unfold on_message. case_bool_decide as Hr; [|done]. case_bool_decide as Hw; [|done]. cbn [andb].
    destruct (JSON_parse text) as [msg|]; [|done]. unfold handleMessage, notify.
    destruct (type_is msg "auth_ok"%js); [|by repeat (case_match; try done; try by split)].
    destruct (socks (conn c) !! k) as [s|] eqn:Hs'; [|done]. cbn in Hr. injection Hr as Hr.
    split; [by destruct Hs; split|]. intros _. left. cbn. rewrite (proj1 (held_resubscribe _ _)).
    unfold held, current_ready. cbn. rewrite Hw. cbn. rewrite lookup_insert_eq. cbn. by rewrite Hr.
  - unfold on_close. destruct (socks (conn c) !! k) as [s|] eqn:Hk; [|done]. case_bool_decide as Hr; [done|].
    set (cn := set_sock k _ _). case_bool_decide as Hw; cbn [negb].
    + destruct (_ || _); (split; [try done; by apply schedule_sane|]); intros _.
      * by right; right; right; right.
      * apply (back_schedule (hidden c) (set_conn _ c)).
    + split; [done|]. intros Hne. apply back_conn; [|done|by apply Hb].
      unfold held, cn. rewrite current_ready_set, decide_False by done. done.
  - unfold timer_fired. destruct (reconnectTimer (retry c)) as [t|] eqn:Et; [|done].
    pose proof (rt_token _ _ Hs t Et) as ->. rewrite bool_decide_eq_true_2 by done. split.
    + split; cbn; [done| |apply Hs]. intros t. rewrite elem_of_app, list_elem_of_singleton.
      intros [?| ->]; [by apply Hs|done].
    + intros _. right. right. left. cbn. apply elem_of_app. right. by left.
  - unfold refreshed. destruct (refreshing (retry c) !! n) as [t|] eqn:Et; [|done]. cbv zeta.
    set (c1 := set_retry _ c). set (c2 := match truthy_token tok with Some _ => _ | None => _ end).
    assert (E : retry c2 = retry c1 ∧ hidden c2 = hidden c ∧ conn c2 = conn c ∧ subscriptions c2 = subscriptions c).
    { unfold c2. by case_match. }
    destruct E as (E1 & E2 & E3 & E4).
    assert (Hs2 : sane (retry c2) (hidden c2)).
    { rewrite E1, E2. destruct Hs as [Ht Hp Hh]. split; cbn; [done| |done]. intros x Hx. apply Hp.
      rewrite delete_take_drop, elem_of_app in Hx. rewrite <- (take_drop_middle _ _ _ Et), elem_of_app, elem_of_cons. tauto. }
    case_bool_decide as Hc; [split; [by apply connect_sane|intros _; apply connect_back]|].
    split; [done|]. rewrite E4. intros Hne. unfold way_back. rewrite E1, E3. cbn.
    destruct (Hb Hne) as [?|[?|[Hin|[?|?]]]]; [tauto..| |tauto|tauto].
    right. right. left. by eapply elem_of_delete_other.
  - unfold visibility. split.
    + apply iter_sane. destruct Hs as [Ht Hp Hh]. split; cbn; [done|done|lia].
    + intros Hne. unfold way_back. cbn. set (r0 := {| reconnectAttempt := _ |}).
      rewrite iter_schedule. cbn.
      destruct (Hb Hne) as [?|[[t Ht]|[Hin|[Hv|?]]]]; [tauto|rewrite Ht; eauto| | |tauto].
      * destruct (reconnectTimer (retry c)); [eauto|]. destruct h, (onVisible (retry c)); auto.
      * destruct (onVisible (retry c)) as [|n]; [lia|]. destruct (reconnectTimer (retry c)); [eauto|].
        destruct h; cbn; [|eauto]. right. right. right. left. lia.
Qed.
Lemma run_retries es c : retries c → retries (run c es).
Proof. revert c. induction es as [|e es IH]; intros c Hc; [done|]. apply IH. by apply step_retries. Qed.
Lemma loaded_retries h t : retries (loaded h t).
Proof. split; [|done]. split; cbn; [done|by intros ? ?%elem_of_nil|lia]. Qed.

(** *** The number of attempts *)

(** No [new WebSocket] of the run throws. *)
Definition opens (e : Happening) : bool :=
  match e with Subscribe _ _ _ _ ok | Connect ok | Refreshed _ _ ok => ok | _ => true end.
Definition bounded (c : Client) : Prop :=
  0 <= reconnectAttempt (retry c) <= MAX_RECONNECT_ATTEMPTS ∧
  ((0 < onVisible (retry c))%nat → reconnectAttempt (retry c) < MAX_RECONNECT_ATTEMPTS).
Lemma connect_ok_retry c : retry (connectWS true c) = retry c.
Proof. unfold connectWS. by repeat case_match. Qed.
Lemma schedule_bounded h r : 0 <= reconnectAttempt r < MAX_RECONNECT_ATTEMPTS → sane r h →
  let r' := scheduleReconnect h r in
  0 <= reconnectAttempt r' <= MAX_RECONNECT_ATTEMPTS ∧
  ((0 < onVisible r')%nat → reconnectAttempt r' < MAX_RECONNECT_ATTEMPTS).
Proof.
  intros Hb Hs. cbv zeta. unfold scheduleReconnect. destruct (reconnectTimer r); [lia|]. destruct h; cbn; [lia|].
  split; [lia|]. by intros ?%Hs.
Qed.
Lemma step_bounded c e : bounded c → retries c → opens e = true → bounded (step c e).
Proof.
  intros [Hb Hv] [Hs _] Ho. destruct e; cbn [step opens] in *; subst; try done.
  - unfold subscribe, bounded. cbv zeta. cbn [retry set_conn]. by rewrite connect_ok_retry.
  - unfold unsubscribe. case_match; done.
  - unfold bounded. by rewrite connect_ok_retry.
  - unfold opened. by repeat case_match.
  - unfold token_ready. by case_match.
  - unfold on_message, handleMessage, notify. repeat (case_match; try done).
  - unfold on_close. repeat (case_match; try done). apply schedule_bounded; [|done].
    match goal with H : _ || _ = false |- _ => apply orb_false_iff in H as [_ H] end. lia.
  - unfold timer_fired. by case_match.
  - unfold refreshed. destruct (refreshing (retry c) !! n); [|done]. cbv zeta.
    set (c2 := match truthy_token tok with Some _ => _ | None => _ end).
    assert (bounded c2) by (unfold c2; by case_match).
    case_bool_decide; [|done]. unfold bounded. by rewrite connect_ok_retry.
  - unfold visibility, bounded. cbn. rewrite iter_schedule. cbn.
    destruct (reconnectTimer (retry c)) eqn:Et; cbn; [lia|]. destruct h; cbn; [lia|].
    destruct (onVisible (retry c)) eqn:En; cbn; [lia|].
    unfold scheduleReconnect. cbn. lia.
Qed.
Lemma run_bounded es c : bounded c → retries c → forallb opens es = true → bounded (run c es).
Proof.
  revert c. induction es as [|e es IH]; intros c Hb Hr Ho; [done|]. apply andb_true_iff in Ho as [He Ho].
  apply IH; [by apply step_bounded|by apply step_retries|done].
Qed.

(** *** What happened, counted from outside *)

(** The server accepts the connection: its auth_ok arrives on the open current
    socket. *)
Definition accepts (c : Client) (e : Happening) : bool :=
  match e with
  | OnMessage k text =>
      bool_decide (ready <$> socks (conn c) !! k = Some OPEN) && bool_decide (ws (conn c) = Some k) &&
      match JSON_parse text with Some msg => type_is msg "auth_ok"%js | None => false end
  | _ => false
  end.
Definition starts_over (c : Client) (e : Happening) : bool :=
  accepts c e || match e with Disconnect => true | _ => false end.
(** A component asks for the connection. *)
Definition asks (e : Happening) : bool := match e with Subscribe _ _ _ _ _ | Connect _ => true | _ => false end.
(** A timer is set where there was none. *)
Definition newly (a b : option nat) : bool := match a, b with None, Some _ => true | _, _ => false end.
Definition arms (c : Client) (e : Happening) : bool :=
  newly (reconnectTimer (retry c)) (reconnectTimer (retry (step c e))).
(** A socket is opened. *)
Definition opens_socket (c : Client) (e : Happening) : bool :=
  negb (bool_decide (next_sock (conn (step c e)) = next_sock (conn c))).
(** The current socket closes, with a code. *)
Definition loses (c : Client) (e : Happening) : option Z :=
  match e with
  | OnClose k code =>
      if bool_decide (ws (conn c) = Some k) &&
         match socks (conn c) !! k with Some s => negb (bool_decide (ready s = CLOSED)) | None => false end
      then Some code else None
  | _ => None
  end.
(** Of a run so far: the timers set since the server last accepted a connection
    or the page last disconnected; whether the last socket was lost to a refused
    token, or with fifteen timers in vain, and none opened since; all timers set;
    and the sockets opened without a component asking. *)
Record Past := { row : nat; over : bool; armed : nat; reopened : nat }.
Definition past0 : Past := {| row := 0; over := false; armed := 0; reopened := 0 |}.
Definition tell (c : Client) (p : Past) (e : Happening) : Past :=
  {| row := if starts_over c e then 0 else row p + Nat.b2n (arms c e);
     over := if opens_socket c e then false else
       match loses c e with
       | Some code => bool_decide (code ∈ AUTH_FAILURE_CODES) || bool_decide (15 ≤ row p)%nat || over p
       | None => over p
       end;
     armed := armed p + Nat.b2n (arms c e);
     reopened := reopened p + Nat.b2n (opens_socket c e && negb (asks e)) |}.
Definition watch (x : Client * Past) (e : Happening) : Client * Past := (step x.1 e, tell x.1 x.2 e).
Definition past (h : bool) (t : option jstring) (es : list Happening) : Past :=
  (foldl watch (loaded h t, past0) es).2.
(** On its way back: a socket that is held, the timer, a refresh that was not
    cancelled, a listener that waits for the tab. *)
Definition returning (c : Client) : Prop :=
  held (conn c) = true ∨ is_Some (reconnectTimer (retry c)) ∨
  reconnectCancelToken (retry c) ∈ refreshing (retry c) ∨ (0 < onVisible (retry c))%nat.

(** The code's own counter and flag say what happened. *)
Lemma schedule_attempt h r : reconnectAttempt (scheduleReconnect h r) =
  reconnectAttempt r + Z.b2z (newly (reconnectTimer r) (reconnectTimer (scheduleReconnect h r))).
Proof. unfold scheduleReconnect. destruct (reconnectTimer r) eqn:E; [rewrite E|destruct h]; cbn; rewrite ?E; cbn; lia. Qed.
Lemma newly_same a : newly a a = false.
Proof. by destruct a. Qed.
Lemma connect_attempt ok c : reconnectAttempt (retry (connectWS ok c)) =
  reconnectAttempt (retry c) + Z.b2z (newly (reconnectTimer (retry c)) (reconnectTimer (retry (connectWS ok c)))).
Proof.
  unfold connectWS. case_match; [|destruct ok; [|apply schedule_attempt]]; cbn; rewrite newly_same; cbn; lia.
Qed.
Lemma step_attempt c e : reconnectAttempt (retry (step c e)) =
  if starts_over c e then 0 else reconnectAttempt (retry c) + Z.b2z (arms c e).
Proof.
  assert (Hsame : ∀ d, retry d = retry c → reconnectAttempt (retry d) =
    reconnectAttempt (retry c) + Z.b2z (newly (reconnectTimer (retry c)) (reconnectTimer (retry d)))).
  { intros d ->. rewrite newly_same. cbn. lia. }
  unfold starts_over, arms. destruct e; cbn [step accepts orb].
  - apply (connect_attempt ok (set_subs _ c)).
  - apply Hsame. unfold unsubscribe. by case_match.
  - apply connect_attempt.
  - done.
  - by apply Hsame.
  - apply Hsame. unfold opened. by repeat case_match.
  - apply Hsame. unfold token_ready. by case_match.
  - unfold on_message. destruct (_ && _); cbn [andb orb]; [|by apply Hsame].
    destruct (JSON_parse text) as [msg|]; cbn [orb]; [|by apply Hsame]. unfold handleMessage.
    destruct (type_is msg "auth_ok"%js); [done|]. apply Hsame. unfold notify. by repeat case_match.
  - unfold on_close. repeat (case_match; try by apply Hsame). apply schedule_attempt.
  - unfold timer_fired. destruct (reconnectTimer (retry c)) eqn:E; cbn; rewrite ?E; cbn; lia.
  - unfold refreshed. destruct (refreshing (retry c) !! n); [|by apply Hsame]. cbv zeta.
    set (c2 := match truthy_token tok with Some _ => _ | None => _ end).
    assert (E : reconnectAttempt (retry c2) = reconnectAttempt (retry c) ∧
      reconnectTimer (retry c2) = reconnectTimer (retry c)) by (unfold c2; by case_match).
    destruct E as [E1 E2]. case_bool_decide; [rewrite connect_attempt, E1, E2; done|].
    rewrite E1, E2, newly_same. cbn. lia.
  - unfold visibility. cbn [retry set_retry]. rewrite iter_schedule. cbn.
    destruct (reconnectTimer (retry c)) eqn:E; cbn; [rewrite ?E; cbn; lia|].
    destruct h; cbn; [rewrite ?E; cbn; lia|]. destruct (onVisible (retry c)); cbn; [rewrite ?E; cbn; lia|].
    unfold scheduleReconnect. cbn. rewrite ?E. cbn. lia.
Qed.
(** Only [connectWS] opens a socket. *)
Definition same_line (cn cn' : Conn) : Prop := next_sock cn' = next_sock cn ∧ gave_up cn' = gave_up cn.
Lemma send_line k f cn : same_line cn (sock_send k f cn).
Proof. unfold same_line, sock_send. by repeat case_match. Qed.
Lemma close_line k cn : same_line cn (sock_close k cn).
Proof. unfold same_line, sock_close. by repeat case_match. Qed.
Lemma subscribe_line id s cn : same_line cn (sendSubscribe id s cn).
Proof. unfold sendSubscribe. case_match; [apply send_line|done]. Qed.
Lemma resubscribe_line l cn : same_line cn (resubscribe cn l).
Proof.
  revert cn. induction l as [|e l IH]; intros cn; [done|].
  change (resubscribe cn (e :: l)) with (resubscribe (sendSubscribe e.1 e.2 cn) l).
  destruct (subscribe_line e.1 e.2 cn) as [E1 E2].
  destruct (IH (sendSubscribe e.1 e.2 cn)) as [E3 E4]. split; congruence.
Qed.
Lemma authenticate_line k tok cn : same_line cn (authenticate k tok cn).
Proof. unfold authenticate. repeat case_match; [apply send_line|split; [apply (close_line k cn)|done]|apply close_line]. Qed.
Lemma connect_line ok c : let c' := connectWS ok c in
  same_line (conn c) (conn c') ∨ next_sock (conn c') = S (next_sock (conn c)) ∧ gave_up (conn c') = false.
Proof. unfold connectWS. cbv zeta. repeat case_match; try (by left); by right. Qed.
(** What can call it. *)
Definition connects (e : Happening) : bool := asks e || match e with Refreshed _ _ _ => true | _ => false end.
Lemma connects_line c e : connects e = true → same_line (conn c) (conn (step c e)) ∨
  next_sock (conn (step c e)) = S (next_sock (conn c)) ∧ gave_up (conn (step c e)) = false.
Proof.
  destruct e; try done; intros _; cbn [step].
  - unfold subscribe. cbv zeta. cbn [conn set_conn].
    destruct (subscribe_line id {| sub_kind := kind; sub_ns := ns; sub_cb := cb |} (conn (connectWS ok
      (set_subs (assoc_set id {| sub_kind := kind; sub_ns := ns; sub_cb := cb |} (subscriptions c)) c)))) as [E1 E2].
    unfold same_line. rewrite E1, E2. apply (connect_line ok (set_subs _ c)).
  - apply connect_line.
  - unfold refreshed. destruct (refreshing (retry c) !! n); [|by left]. cbv zeta.
    set (c2 := match truthy_token tok with Some _ => _ | None => _ end).
    assert (E : conn c2 = conn c) by (unfold c2; by case_match).
    case_bool_decide; [|left; by rewrite E]. rewrite <- E. apply connect_line.
Qed.
Lemma other_line c e : connects e = false → loses c e = None → same_line (conn c) (conn (step c e)).
Proof.
  intros Hc Hl. destruct e; try done; cbn [step].
  - unfold unsubscribe. case_match; [apply send_line|done].
  - unfold disconnectWS. cbn. destruct (ws (conn c)) as [j|]; [|done]. apply (close_line j (conn c)).
  - unfold opened. repeat case_match; try done. by apply (authenticate_line k (Some _) (set_sock k _ (conn c))).
  - unfold token_ready. case_match; [|done]. by apply (authenticate_line k (token c) (set_opening _ (conn c))).
  - unfold on_message, handleMessage, notify. repeat (case_match; try done).
    all: cbn [conn set_retry set_conn].
    all: match goal with |- same_line _ (resubscribe ?x ?l) => destruct (resubscribe_line l x) as [E1 E2] end.
    all: unfold same_line; by rewrite E1, E2.
  - unfold on_close. cbn in Hl. destruct (socks (conn c) !! k) as [s|]; [|done].
    destruct (decide (ready s = CLOSED)) as [Hr|Hr]; [by rewrite bool_decide_eq_true_2|].
    rewrite (bool_decide_eq_false_2 _ Hr) in Hl |- *. cbn [ws set_sock].
    destruct (decide (ws (conn c) = Some k)) as [Hw|Hw]; [by rewrite (bool_decide_eq_true_2 _ Hw) in Hl|].
    by rewrite bool_decide_eq_false_2.
  - unfold timer_fired. by case_match.
Qed.
Lemma close_opens_none c k code : next_sock (conn (on_close k code c)) = next_sock (conn c).
Proof. unfold on_close. by repeat case_match. Qed.
Lemma step_gave_up c e : gave_up (conn (step c e)) =
  if opens_socket c e then false else
  match loses c e with
  | Some code => bool_decide (code ∈ AUTH_FAILURE_CODES) || (MAX_RECONNECT_ATTEMPTS <=? reconnectAttempt (retry c)) ||
                 gave_up (conn c)
  | None => gave_up (conn c)
  end.
Proof.
  unfold opens_socket. destruct (loses c e) as [code|] eqn:El.
  - destruct e as [| | | | | | | |k cd| | |]; try done. cbn in El |- *. unfold on_close.
    destruct (socks (conn c) !! k) as [s|]; [|by rewrite andb_false_r in El]. cbn [ws set_sock].
    destruct (decide (ready s = CLOSED)) as [Hr|Hr]; [by rewrite (bool_decide_eq_true_2 _ Hr), andb_false_r in El|].
    destruct (decide (ws (conn c) = Some k)) as [Hw|Hw]; [|by rewrite (bool_decide_eq_false_2 _ Hw) in El].
    rewrite (bool_decide_eq_false_2 _ Hr), (bool_decide_eq_true_2 _ Hw) in El |- *. injection El as ->. cbn [negb].
    destruct (_ || _); cbn; by rewrite bool_decide_eq_true_2.
  - destruct (connects e) eqn:Ec; [destruct (connects_line c e Ec) as [[E1 E2]|[E1 E2]]|destruct (other_line c e Ec El) as [E1 E2]].
    2: by rewrite bool_decide_eq_false_2 by lia.
    all: by rewrite E1, bool_decide_eq_true_2.
Qed.
(** A socket opened again spent a timer of its own. *)
Definition timers (r : Retry) : nat := match reconnectTimer r with Some _ => 1 | None => 0 end.
Definition under_way (c : Client) : nat := timers (retry c) + length (refreshing (retry c)).
Lemma schedule_under_way h r : refreshing (scheduleReconnect h r) = refreshing r ∧
  timers (scheduleReconnect h r) = (timers r + Nat.b2n (newly (reconnectTimer r) (reconnectTimer (scheduleReconnect h r))))%nat.
Proof.
  unfold timers, scheduleReconnect. destruct (reconnectTimer r) eqn:E; [rewrite E|destruct h]; cbn; rewrite ?E; by cbn.
Qed.
Lemma connect_under_way ok c : under_way (connectWS ok c) =
  (under_way c + Nat.b2n (newly (reconnectTimer (retry c)) (reconnectTimer (retry (connectWS ok c)))))%nat.
Proof.
  unfold connectWS. case_match; [|destruct ok].
  1,2: cbn; rewrite newly_same; cbn; unfold under_way; cbn; lia.
  unfold under_way. cbn [retry set_retry]. destruct (schedule_under_way (hidden c) (retry c)) as [-> ->]. lia.
Qed.
Lemma other_opens c e : connects e = false → opens_socket c e = false.
Proof.
  intros Hc. unfold opens_socket. rewrite bool_decide_eq_true_2; [done|].
  destruct (loses c e) eqn:El; [|by apply other_line]. destruct e; try done. apply close_opens_none.
Qed.
Lemma refreshed_spent c n tok ok : let e := Refreshed n tok ok in
  (Nat.b2n (opens_socket c e) + under_way (step c e) ≤ under_way c + Nat.b2n (arms c e))%nat.
Proof.
  cbv zeta. unfold arms, opens_socket. cbn [step]. unfold refreshed.
  destruct (refreshing (retry c) !! n) as [t|] eqn:Et; [|rewrite bool_decide_eq_true_2 by done; cbn [negb Nat.b2n]; lia].
  cbv zeta. set (c2 := match truthy_token tok with Some _ => _ | None => _ end).
  assert (E : conn c2 = conn c ∧ (S (under_way c2) = under_way c)%nat ∧
    reconnectTimer (retry c2) = reconnectTimer (retry c)).
  { assert (Hd : S (length (delete n (refreshing (retry c)))) = length (refreshing (retry c))).
    { rewrite length_delete by eauto. pose proof (lookup_lt_Some _ _ _ Et). lia. }
    unfold c2, under_way, timers. case_match; cbn; (split_and!; [done|lia|done]). }
  destruct E as (E1 & E2 & E3). destruct (bool_decide (t = _)).
  - rewrite connect_under_way, E3. destruct (bool_decide (next_sock _ = _)); cbn [negb Nat.b2n]; lia.
  - rewrite E1, bool_decide_eq_true_2 by done. cbn [negb Nat.b2n]. lia.
Qed.
Lemma step_spent c e :
  (Nat.b2n (opens_socket c e && negb (asks e)) + under_way (step c e) ≤ under_way c + Nat.b2n (arms c e))%nat.
Proof.
  destruct (asks e) eqn:Ea; [|rewrite andb_true_r].
  { rewrite andb_false_r. unfold arms. destruct e; try done; cbn [step].
    - pose proof (connect_under_way ok (set_subs (assoc_set id {| sub_kind := kind; sub_ns := ns; sub_cb := cb |}
        (subscriptions c)) c)) as H. unfold under_way in *. cbn in *. lia.
    - rewrite connect_under_way. cbn. lia. }
  assert (Hsame : ∀ d, retry d = retry c →
    (under_way d ≤ under_way c + Nat.b2n (newly (reconnectTimer (retry c)) (reconnectTimer (retry d))))%nat).
  { intros d E. unfold under_way. rewrite E. lia. }
  destruct (connects e) eqn:Ec.
  { destruct e; try done. apply refreshed_spent. }
  rewrite (other_opens c e Ec). unfold arms. destruct e; try done; cbn [step Nat.b2n Nat.add].
  - apply Hsame. unfold unsubscribe. by case_match.
  - unfold under_way, disconnectWS, timers. cbn. lia.
  - by apply Hsame.
  - apply Hsame. unfold opened. by repeat case_match.
  - apply Hsame. unfold token_ready. by case_match.
  - unfold on_message, handleMessage, notify. repeat (case_match; try by apply Hsame).
    all: unfold under_way, timers; cbn; lia.
  - unfold on_close. repeat (case_match; try by apply Hsame). unfold under_way. cbn [retry set_retry].
    destruct (schedule_under_way (hidden c) (retry c)) as [-> ->]. lia.
  - unfold timer_fired, under_way, timers. destruct (reconnectTimer (retry c)) eqn:E; cbn; rewrite ?E; [|lia].
    case_bool_decide; rewrite ?length_app; cbn; lia.
  - unfold visibility, under_way, timers. cbn [retry set_retry]. rewrite iter_schedule. cbn.
    destruct (reconnectTimer (retry c)) eqn:E; cbn; [rewrite ?E; lia|]. destruct h; cbn; [rewrite ?E; lia|].
    destruct (onVisible (retry c)); cbn; [rewrite ?E; lia|]. unfold scheduleReconnect. cbn. rewrite ?E. cbn. lia.
Qed.
(** What is true of a run so far and of what is counted of it. *)
Record told (x : Client * Past) : Prop := {
  to_row : reconnectAttempt (retry x.1) = Z.of_nat (row x.2);
  to_over : gave_up (conn x.1) = over x.2;
  to_spent : (reopened x.2 + under_way x.1 ≤ armed x.2)%nat
}.
Lemma watch_told x e : told x → told (watch x e).
Proof.
  destruct x as [c p]. intros [Hr Ho Hs]. cbn in *. split; cbn [watch fst snd tell row over armed reopened].
  - rewrite step_attempt, Hr. destruct (starts_over c e); [done|]. destruct (arms c e); cbn; lia.
  - rewrite step_gave_up, Ho. destruct (opens_socket c e); [done|]. destruct (loses c e); [|done]. do 2 f_equal.
    rewrite Hr. apply eq_bool_prop_intro. rewrite bool_decide_spec. unfold MAX_RECONNECT_ATTEMPTS.
    destruct (Z.leb_spec 15 (Z.of_nat (row p))); cbn; split; try done; lia.
  - pose proof (step_spent c e). lia.
Qed.
Lemma past_told h t es :
  (foldl watch (loaded h t, past0) es).1 = run (loaded h t) es ∧ told (foldl watch (loaded h t, past0) es).
Proof.
  assert (H : ∀ x, told x → (foldl watch x es).1 = run x.1 es ∧ told (foldl watch x es)).
  { induction es as [|e es IH]; intros x Hx; [done|]. cbn. by apply (IH (watch x e)), watch_told. }
  apply (H (loaded h t, past0)). split; cbn; [done|done|]. unfold under_way. cbn. lia.
Qed.

(** C29. While anything is subscribed the client is on its way back to the server: a
    socket it holds, the one reconnect timer, a token refresh that a disconnect
    did not cancel, or a listener waiting for the hidden tab to be shown; unless
    its last socket was lost to a refused token, or after fifteen timers had been
    set since the server last accepted a connection or the page disconnected.
    Where opening a socket does not throw, no more than fifteen timers are set in
    such a row; and whether it throws or not, every socket opened without a
    component asking spent a timer of its own. A timer that is set was not
    cancelled, and a listener waits only while the tab is hidden. *)
Theorem reconnect_discipline h t es :
  let c := run (loaded h t) es in
  let p := past h t es in
  (subscriptions c ≠ [] → returning c ∨ over p = true) ∧
  (forallb opens es = true → (row p ≤ 15)%nat) ∧
  (reopened p ≤ armed p)%nat ∧
  (∀ tm, reconnectTimer (retry c) = Some tm → tm = reconnectCancelToken (retry c)) ∧
  ((0 < onVisible (retry c))%nat → hidden c = true).
Proof.
  cbv zeta. destruct (run_retries es _ (loaded_retries h t)) as [Hs Hb].
  destruct (past_told h t es) as [E [Hr Ho Hsp]]. fold (past h t es) in Hr, Ho, Hsp. rewrite E in Hr, Ho, Hsp.
  split_and!; [|intros Hop| |apply Hs|apply Hs].
  - intros Hne. unfold returning. rewrite <- Ho. destruct (Hb Hne) as [?|[?|[?|[?|?]]]]; tauto.
  - destruct (run_bounded es (loaded h t)) as [Hbd _]; [|apply loaded_retries|done|].
    { unfold bounded. cbn. unfold MAX_RECONNECT_ATTEMPTS. lia. }
    unfold MAX_RECONNECT_ATTEMPTS in Hbd. lia.
  - lia.
Qed.
(** Fifteen attempts in vain, and the client gives up; where opening a socket
    throws, nothing counts the attempts. *)
Fixpoint failing (n k : nat) : list Happening :=
  match n with O => [OnClose k 1006] | S m => [OnClose k 1006; TimerFired; Refreshed 0 None true] ++ failing m (S k) end.
Definition throwing (n : nat) : list Happening := concat (replicate n [TimerFired; Refreshed 0 None false]).
Example fifteen_attempts :
  let es := Subscribe "a"%js "pods"%js ""%js 1%nat true :: failing 15 0 in
  forallb opens es = true ∧ past false None es = {| row := 15; over := true; armed := 15; reopened := 15 |} ∧
  reconnectTimer (retry (run (loaded false None) es)) = None.
Proof. vm_compute. done. Qed.
Example throwing_retries_on : row (past false None (Connect false :: throwing 99)) = 100%nat.
Proof. vm_compute. done. Qed.
(** ** After a disconnect *)

Record quiet (c : Client) : Prop := {
  qu_carried : carried c;
  qu_ws : ws (conn c) = None;
  qu_subs : subscriptions c = [];
  qu_timer : reconnectTimer (retry c) = None;
  qu_past : ∀ t, t ∈ refreshing (retry c) → (t < reconnectCancelToken (retry c))%nat;
  qu_listeners : onVisible (retry c) = 0%nat
}.
(** Nothing was opened, sent or delivered in between. *)
Definition still (c d : Client) : Prop :=
  next_sock (conn d) = next_sock (conn c) ∧ delivered d = delivered c ∧
  ∀ k, frames <$> socks (conn d) !! k = frames <$> socks (conn c) !! k.
Lemma still_trans c d e : still c d → still d e → still c e.
Proof. intros (? & ? & H1) (? & ? & H2). split_and!; try congruence. Qed.
Lemma still_sock k s s' cn : socks cn !! k = Some s → frames s' = frames s →
  ∀ j, frames <$> socks (set_sock k s' cn) !! j = frames <$> socks cn !! j.
Proof.
  intros Hs Hf j. cbn. destruct (decide (k = j)) as [->|Hj]; [|by rewrite lookup_insert_ne].
  rewrite lookup_insert_eq, Hs. cbn. by rewrite Hf.
Qed.
Lemma still_close k c : still c (set_conn (sock_close k (conn c)) c).
Proof.
  unfold still, sock_close. cbn. destruct (socks (conn c) !! k) as [s|] eqn:Hs; [|done].
  destruct (ready s); split_and!; try done; by apply (still_sock k s).
Qed.
Lemma quiet_step c e : quiet c → asks e = false → quiet (step c e) ∧ still c (step c e).
Proof.
  intros [Hc Hw Hl Ht Hp Ho] Ha.
  assert (Hst : still c (step c e) ∧ ws (conn (step c e)) = None ∧ subscriptions (step c e) = [] ∧
    reconnectTimer (retry (step c e)) = None ∧
    (∀ t, t ∈ refreshing (retry (step c e)) → (t < reconnectCancelToken (retry (step c e)))%nat) ∧
    onVisible (retry (step c e)) = 0%nat).
  2: { destruct Hst as (? & ? & ? & ? & ? & ?). split; [|done]. split; try done. by apply step_carried. }
  destruct e; try done; cbn [step].
  - unfold unsubscribe. cbn [conn set_subs]. unfold can_send. rewrite Hw. cbn. by rewrite Hl.
  - unfold disconnectWS, still. cbn. rewrite Hw. split_and!; try done. intros t ?%Hp. lia.
  - unfold opened. destruct (socks (conn c) !! k) as [s|] eqn:Hs; [|done]. case_bool_decide as Hr; [|done].
    destruct Hc as [Hc _]. assert (Hx : ws (conn c) = Some k) by (eapply Hc; [done|by rewrite Hr]). congruence.
  - unfold token_ready. case_bool_decide; [|done]. unfold authenticate. cbn [ws set_opening]. rewrite Hw.
    rewrite (bool_decide_eq_false_2 (None = Some k)) by done.
    split; [|cbn [conn set_conn]; by rewrite (proj1 (close_frame _ _))].
    apply (still_close k (set_conn (set_opening (filter (λ j, j ≠ k) (opening (conn c))) (conn c)) c)).
  - unfold on_message. rewrite Hw. rewrite (bool_decide_eq_false_2 (None = Some k)), andb_false_r by done. done.
  - unfold on_close. destruct (socks (conn c) !! k) as [s|] eqn:Hs; [|done]. case_bool_decide; [done|].
    cbn [ws set_sock]. rewrite Hw. cbn. split; [|done]. split_and!; [done|done|]. by apply (still_sock k s).
  - unfold timer_fired. by rewrite Ht.
  - unfold refreshed. destruct (refreshing (retry c) !! n) as [t|] eqn:Et; [|done]. cbv zeta.
    pose proof (Hp t (list_elem_of_lookup_2 _ _ _ Et)) as Hlt. rewrite bool_decide_eq_false_2 by lia.
    assert (Hd : ∀ x, x ∈ delete n (refreshing (retry c)) → (x < reconnectCancelToken (retry c))%nat).
    { intros x Hx. apply Hp. rewrite delete_take_drop, elem_of_app in Hx.
      rewrite <- (take_drop_middle _ _ _ Et), elem_of_app, elem_of_cons. tauto. }
    by destruct (truthy_token tok).
  - unfold visibility. by rewrite Ho.
Qed.

(** With nothing subscribed nobody is called. *)
Lemma unsubscribed_step c e : subscriptions c = [] → asks e = false →
  subscriptions (step c e) = [] ∧ delivered (step c e) = delivered c.
Proof.
  intros Hl Ha. destruct e; try done; cbn [step].
  - unfold unsubscribe. rewrite Hl. case_match; done.
  - unfold opened. by repeat case_match.
  - unfold token_ready. by case_match.
  - unfold on_message, handleMessage, notify. rewrite Hl. by repeat (case_match; try done).
  - unfold on_close. by repeat case_match.
  - unfold timer_fired. by case_match.
  - unfold refreshed. destruct (refreshing (retry c) !! n); [|done]. cbv zeta.
    set (c2 := match truthy_token tok with Some _ => _ | None => _ end).
    assert (E : subscriptions c2 = [] ∧ delivered c2 = delivered c) by (unfold c2; by case_match).
    case_bool_decide; [|done]. rewrite connect_subs. split; [apply E|]. unfold connectWS. repeat case_match; apply E.
Qed.

(** C30. Once the page has disconnected, and until a component asks again, nothing
    that is still under way (a socket opening or closing, a message, a timer, a
    token refresh, the tab shown again) calls a subscriber. If moreover no
    listener waited for a hidden tab when it disconnected, nothing of it opens a
    socket or sends a frame either. *)
Theorem disconnect_is_final h t es es' :
  let c := run (loaded h t) es in
  let d := disconnectWS c in
  forallb (λ e, negb (asks e)) es' = true →
  delivered (run d es') = delivered c ∧
  (onVisible (retry c) = 0%nat → still d (run d es')).
Proof.
  cbv zeta. intros Hn. set (c := run (loaded h t) es) in *. split; [|intros Ho].
  - change (delivered c) with (delivered (disconnectWS c)).
    assert (Hl : subscriptions (disconnectWS c) = []) by done. revert Hn Hl. generalize (disconnectWS c).
    induction es' as [|e es' IH]; intros d Hn Hl; [done|]. apply andb_true_iff in Hn as [He Hn].
    apply negb_true_iff in He. destruct (unsubscribed_step d e Hl He) as [Hl' <-]. by apply IH.
  - assert (Hq : quiet (disconnectWS c)).
    { split; try done; [apply (step_carried c Disconnect), run_carried, loaded_carried|]. cbn.
      destruct (run_retries es _ (loaded_retries h t)) as [Hs _]. intros x Hx%Hs. unfold c. lia. }
    revert Hn Hq. generalize (disconnectWS c). induction es' as [|e es' IH]; intros d Hn Hq; [done|].
    apply andb_true_iff in Hn as [He Hn]. apply negb_true_iff in He. destruct (quiet_step d e Hq He) as [Hq' Hst].
    eapply still_trans; [exact Hst|]. by apply IH.
Qed.
(** The tab was hidden when the connection was lost: the listener survives the
    disconnect, and showing the tab connects again. *)
Definition hidden_run : list Happening :=
  [Subscribe "a"%js "pods"%js ""%js 1%nat true; Visibility true; OnClose 0 1006; Disconnect; Visibility false;
   TimerFired; Refreshed 0 None true].
Theorem hidden_tab_reconnects : ws (conn (run (loaded false None) hidden_run)) = Some 1%nat ∧
  subscriptions (run (loaded false None) hidden_run) = [].
Proof. done. Qed.
Definition open_run : list Happening :=
  [Subscribe "a"%js "pods"%js ""%js 1%nat true; Opened 0; OnClose 0 1006; TimerFired].
Lemma disconnect_is_final_witness :
  let c := run (loaded false (Some "t"%js)) open_run in
  let d := disconnectWS c in
  let after := [Refreshed 0 None true; Visibility true; Visibility false; TimerFired] in
  refreshing (retry d) = [0%nat] ∧
  delivered (run d after) = delivered c ∧ still d (run d after).
Proof.
  cbv zeta. split; [reflexivity|].
  destruct (disconnect_is_final false (Some "t"%js) open_run
    [Refreshed 0 None true; Visibility true; Visibility false; TimerFired] eq_refl) as [H1 H2].
  split; [exact H1|]. apply H2. reflexivity.
Defined.
