(* ===== verification/LiveHub.v ===== *)
(** * The hub of the live updates: backend/internal/websocket, with ws.ts

    hub.go and client.go, for one client. The reader puts the requests it reads
    into channels, the hub's goroutine takes from any of them, and the writer
    empties the client's buffered channel; a run is any order of their steps, with
    the events of the informers and the revalidations of the access rights among
    them. Each client has entries of its own in the hub's map, so the others do
    not matter to it; that the channels of requests are bounded, which makes a
    reader wait, is left out, and so is an event lost because the hub's own
    channel of events is full, which no client sees.

    The theorems join it with the client of LiveUpdates: who hears of an event,
    and three orders in which someone does not. *)

From stdpp Require Import base list strings gmap.
From Stdlib Require Import ZArith NArith Lia.
From S2P Require Import Prelude JsValue JsonText JsonParse Api WsBridge LiveUpdates.

Open Scope Z_scope.

(** ** The data *)

Definition maxSubscriptions : Z := 25.
Definition sendBufferSize : nat := 256.
Definition kindAliases : list (jstring * jstring) :=
  [("pvcs"%js, "persistentvolumeclaims"%js); ("pvs"%js, "persistentvolumes"%js);
   ("hpas"%js, "horizontalpodautoscalers"%js); ("pdbs"%js, "poddisruptionbudgets"%js)].
Definition normalizeKind (kind : jstring) : jstring := default kind (assoc kind kindAliases).
Definition alwaysAllowKinds : list jstring := ["alerts"%js; "notifications"%js].
(** A topic: kind and namespace. *)
Definition subKey (kind ns : jstring) : jstring * jstring := (normalizeKind kind, ns).
(** What the server sends once it has accepted the token. *)
Inductive Out :=
  | OSubscribed (id : jstring)
  | OError (id : jstring) (code : Z)
  | OEvent (id ty : jstring) (obj : jsval)
  | OResync (id kind : jstring).
(** The way to the client: the buffered channel [c.send], whether the client is
    in the hub's [clients] (the channel is closed where it is removed), and what
    [WritePump] has written. *)
Record Pipe := { sendq : list Out; present : bool; wire : list Out }.
(** The hub's entries of the client, the requests of its reader that the hub has
    not taken yet (two channels), the reader's count, the way to the client,
    whether [ReadPump] runs, whether the hub's goroutine panicked; and, a ghost,
    what was answered or revoked, whether it could be sent or not. *)
Record Hub := {
  hub_subs : gmap (jstring * jstring) jstring;
  addSub : list (jstring * jstring * jstring);
  unsubByID : list jstring;
  subCount : Z;
  pipe : Pipe;
  reading : bool;
  panicked : bool;
  replies : list Out
}.
Definition hub0 : Hub :=
  {| hub_subs := ∅; addSub := []; unsubByID := []; subCount := 0;
     pipe := {| sendq := []; present := true; wire := [] |}; reading := true; panicked := false; replies := [] |}.
Definition set_entries (m : gmap (jstring * jstring) jstring) (h : Hub) : Hub :=
  {| hub_subs := m; addSub := addSub h; unsubByID := unsubByID h; subCount := subCount h; pipe := pipe h;
     reading := reading h; panicked := panicked h; replies := replies h |}.
Definition set_requests (a : list (jstring * jstring * jstring)) (u : list jstring) (n : Z) (h : Hub) : Hub :=
  {| hub_subs := hub_subs h; addSub := a; unsubByID := u; subCount := n; pipe := pipe h; reading := reading h;
     panicked := panicked h; replies := replies h |}.
Definition set_pipe (p : Pipe) (h : Hub) : Hub :=
  {| hub_subs := hub_subs h; addSub := addSub h; unsubByID := unsubByID h; subCount := subCount h; pipe := p;
     reading := reading h; panicked := panicked h; replies := replies h |}.
Definition set_reading (b : bool) (h : Hub) : Hub :=
  {| hub_subs := hub_subs h; addSub := addSub h; unsubByID := unsubByID h; subCount := subCount h; pipe := pipe h;
     reading := b; panicked := panicked h; replies := replies h |}.
Definition panic (h : Hub) : Hub :=
  {| hub_subs := hub_subs h; addSub := addSub h; unsubByID := unsubByID h; subCount := subCount h; pipe := pipe h;
     reading := reading h; panicked := true; replies := replies h |}.
Definition record (m : Out) (h : Hub) : Hub :=
  {| hub_subs := hub_subs h; addSub := addSub h; unsubByID := unsubByID h; subCount := subCount h; pipe := pipe h;
     reading := reading h; panicked := panicked h; replies := replies h ++ [m] |}.

(** ** The operations *)

(** [select { case c.send <- data: default: }]: on a closed channel it panics. *)
Inductive Offer := Queued (p : Pipe) | Full | Panics.
Definition offer (m : Out) (p : Pipe) : Offer :=
  if negb (present p) then Panics
  else if (length (sendq p) <? sendBufferSize)%nat
  then Queued {| sendq := sendq p ++ [m]; present := true; wire := wire p |}
  else Full.
(** [WritePump], for [n] messages. *)
Definition pump (n : nat) (p : Pipe) : Pipe :=
  {| sendq := drop n (sendq p); present := present p; wire := wire p ++ take n (sendq p) |}.
(** The reader answers; where it panics, its deferred function recovers and leaves. *)
Definition reply (m : Out) (h : Hub) : Hub :=
  match offer m (pipe h) with
  | Queued p => record m (set_pipe p h)
  | Full => record m h
  | Panics => record m (set_reading false h)
  end.
Definition removeClient (h : Hub) : Hub :=
  set_pipe {| sendq := sendq (pipe h); present := false; wire := wire (pipe h) |} (set_entries ∅ h).
Definition sendResync (id kind : jstring) (h : Hub) : Hub :=
  match offer (OResync id kind) (pipe h) with
  | Queued p => set_pipe p h
  | Full => removeClient h
  | Panics => panic h
  end.
(** The id an event is sent under: the entry of its namespace, else the one of
    all namespaces. *)
Definition target (h : Hub) (kind ns : jstring) : option jstring :=
  match hub_subs h !! (kind, ns) with Some id => Some id | None => hub_subs h !! (kind, ""%js) end.
(** [broadcastEvent]; between its two attempts to send, the writer takes [n]
    messages. *)
Definition broadcastEvent (kind ns ty : jstring) (obj : jsval) (n : nat) (h : Hub) : Hub :=
  match target h kind ns with
  | Some id =>
      match offer (OEvent id ty obj) (pipe h) with
      | Queued p => set_pipe p h
      | Full => sendResync id kind (set_pipe (pump n (pipe h)) h)
      | Panics => panic h
      end
  | None => h
  end.
(** [revalidateSubscriptions], where [acc] is what the access checker now answers
    ([None]: it failed). *)
Definition revoked (acc : jstring → jstring → option bool) (h : Hub) : list (jstring * jstring * jstring) :=
  filter (λ e, (e.1.1 ∉ alwaysAllowKinds) ∧ acc e.1.1 e.1.2 = Some false) (map_to_list (hub_subs h)).
Definition revoke (h : Hub) (e : jstring * jstring * jstring) : Hub :=
  if panicked h then h else
  let h1 := record (OError e.2 403) (set_entries (delete e.1 (hub_subs h)) h) in
  match offer (OError e.2 403) (pipe h1) with
  | Queued p => set_pipe p h1
  | Full => h1
  | Panics => panic h1
  end.
Definition revalidateSubscriptions (acc : jstring → jstring → option bool) (h : Hub) : Hub :=
  foldl revoke h (revoked acc h).

Section Hub.
(** The kinds registered so far; the entry the hub's search of its map meets
    first, of those with an id. *)
Context (isAllowedKind : jstring → bool)
  (pick : gmap (jstring * jstring) jstring → jstring → option (jstring * jstring)).

(** [acc] is what the access checker answers. *)
Definition handleSubscribe (id kind ns : jstring) (acc : option bool) (h : Hub) : Hub :=
  if js_eqb id ""%js || js_eqb kind ""%js then reply (OError id 400) h
  else if maxSubscriptions <=? subCount h then reply (OError id 429) h
  else if negb (isAllowedKind kind) then reply (OError id 400) h
  else
    match (if decide (normalizeKind kind ∈ alwaysAllowKinds) then Some true else acc) with
    | None => reply (OError id 500) h
    | Some false => reply (OError id 403) h
    | Some true =>
        reply (OSubscribed id)
          (set_requests (addSub h ++ [(subKey kind ns, id)]) (unsubByID h) (subCount h + 1) h)
    end.
Definition handleUnsubscribe (id : jstring) (h : Hub) : Hub :=
  if js_eqb id ""%js then reply (OError id 400) h
  else set_requests (addSub h) (unsubByID h ++ [id]) (if 0 <? subCount h then subCount h - 1 else subCount h) h.
(** What the reader, the hub and the writer do, one at a time and in any order.
    The first frame is the token, read by [waitForAuth]. [Hangup] is the end of
    [ReadPump], whose request to leave the hub takes with [TakeLeave]. Once the
    hub has panicked the process is gone. *)
Inductive HubStep :=
  | Read (f : Frame) (acc : option bool)
  | Hangup
  | TakeAdd
  | TakeUnsub
  | TakeLeave
  | TakeEvent (kind ns ty : jstring) (obj : jsval) (n : nat)
  | Revalidate (acc : jstring → jstring → option bool)
  | Write.
Definition hub_step (h : Hub) (s : HubStep) : Hub :=
  if panicked h then h else
  match s with
  | Read f acc =>
      if negb (reading h) then h else
      match f with
      | FAuth _ => h
      | FSubscribe id kind ns => handleSubscribe id kind ns acc h
      | FUnsubscribe id => handleUnsubscribe id h
      end
  | Hangup => set_reading false h
  | TakeAdd =>
      match addSub h with
      | (key, id) :: rest =>
          set_requests rest (unsubByID h) (subCount h) (set_entries (<[key := id]> (hub_subs h)) h)
      | [] => h
      end
  | TakeUnsub =>
      match unsubByID h with
      | id :: rest =>
          set_requests (addSub h) rest (subCount h) (set_entries
            (match pick (hub_subs h) id with Some key => delete key (hub_subs h) | None => hub_subs h end) h)
      | [] => h
      end
  | TakeLeave => if negb (reading h) && present (pipe h) then removeClient h else h
  | TakeEvent kind ns ty obj n => broadcastEvent kind ns ty obj n h
  | Revalidate acc => revalidateSubscriptions acc h
  | Write => set_pipe (pump 1 (pipe h)) h
  end.
Definition hub_run (ss : list HubStep) : Hub := foldl hub_step hub0 ss.

(** ** Everyone hears, if no two ask for the same topic *)

(** The messages on the wire. *)
Definition out_message (m : Out) : jsval :=
  match m with
  | OSubscribed id => JObj [("type"%js, JStr "subscribed"%js); ("id"%js, JStr id)]
  | OError id code => JObj [("type"%js, JStr "error"%js); ("id"%js, JStr id); ("code"%js, JNum (of_Z code))]
  | OEvent id ty obj =>
      JObj [("type"%js, JStr "event"%js); ("id"%js, JStr id); ("eventType"%js, JStr ty); ("object"%js, obj)]
  | OResync id kind =>
      JObj [("type"%js, JStr "resync_required"%js); ("id"%js, JStr id); ("message"%js, JStr kind)]
  end.
(** The frames read, in order. *)
Definition read_of (s : HubStep) : list Frame := match s with Read f _ => [f] | _ => [] end.
Definition reads (ss : list HubStep) : list Frame := flat_map read_of ss.
(** Requests of both kinds never wait at the same time, so none can overtake
    another. *)
Definition one_kind (h : Hub) : bool :=
  match addSub h, unsubByID h with _ :: _, _ :: _ => false | _, _ => true end.
Fixpoint uncrossed (h : Hub) (ss : list HubStep) : bool :=
  match ss with [] => true | s :: rest => one_kind (hub_step h s) && uncrossed (hub_step h s) rest end.
(** Nothing was refused, nor revoked. *)
Definition accepted (m : Out) : bool := match m with OError _ _ => false | _ => true end.
(** The client is in the hub's books and its reader reads. *)
Definition up (h : Hub) : bool := present (pipe h) && reading h.
(** The search finds an entry with the id, if there is one. *)
Definition searches : Prop := ∀ m id,
  match pick m id with Some key => m !! key = Some id | None => ∀ key, m !! key ≠ Some id end.
Definition key_of (t : jstring * jstring) : jstring * jstring := subKey t.1 t.2.
(** Asking for a topic nobody else asks for, under an id that has no other. *)
Definition clear_ask (v : gmap jstring (jstring * jstring)) (f : Frame) : Prop :=
  match f with
  | FSubscribe id kind ns => ∀ id' t, v !! id' = Some t → id' = id ↔ key_of t = subKey kind ns
  | _ => True
  end.
Fixpoint no_clash (v : gmap jstring (jstring * jstring)) (fs : list Frame) : Prop :=
  match fs with [] => True | f :: rest => clear_ask v f ∧ no_clash (ask v f) rest end.
Lemma no_clash_snoc v fs f : no_clash v (fs ++ [f]) ↔ no_clash v fs ∧ clear_ask (foldl ask v fs) f.
Proof. revert v. induction fs as [|g fs IH]; intros v; cbn; [tauto|]. rewrite IH. tauto. Qed.
Lemma no_clash_app v fs gs : no_clash v (fs ++ gs) → no_clash v fs.
Proof. revert v. induction fs as [|g fs IH]; intros v; cbn; [done|]. intros [? ?%IH]. done. Qed.

(** The hub's entries are what was asked for, by topic. *)
Record mirrors (m : gmap (jstring * jstring) jstring) (v : gmap jstring (jstring * jstring)) : Prop := {
  mi_subs : ∀ key id, m !! key = Some id ↔ ∃ t, v !! id = Some t ∧ key_of t = key;
  mi_ids : ∀ id t, v !! id = Some t → id ≠ ""%js
}.
Lemma mirrors_subscribe m v id kind ns : mirrors m v → clear_ask v (FSubscribe id kind ns) → id ≠ ""%js →
  mirrors (<[subKey kind ns := id]> m) (<[id := (kind, ns)]> v).
Proof.
  intros [Hm Hi] Hcl Hne. split; [|by intros j t [[<- _]|[_ ?%Hi]]%lookup_insert_Some].
  intros key j. rewrite lookup_insert_Some, Hm. setoid_rewrite lookup_insert_Some. split.
  - intros [[<- <-]|[Hk (t & Ht & Hkey)]]; [by exists (kind, ns); auto|]. exists t. split; [|done]. right. split; [|done].
    intros <-. apply Hk. rewrite <- Hkey. symmetry. by apply (Hcl id t Ht).
  - intros (t & [[<- <-]|[Hj Ht]] & Hkey); [by left|]. right. split; [|by eauto].
    intros <-. apply Hj. symmetry. by apply (Hcl j t Ht).
Qed.
Lemma mirrors_unsubscribe m v id : searches → mirrors m v →
  mirrors (match pick m id with Some key => delete key m | None => m end) (delete id v).
Proof.
  intros Hse [Hm Hi]. specialize (Hse m id). split; [|by intros j t [_ ?%Hi]%lookup_delete_Some].
  intros key j. setoid_rewrite lookup_delete_Some. destruct (pick m id) as [k0|].
  - apply Hm in Hse as (t0 & Ht0 & <-). rewrite lookup_delete_Some, Hm. split.
    + intros (Hk & t & Ht & Hkey). exists t. split; [|done]. split; [|done]. intros <-. congruence.
    + intros (t & [Hj Ht] & Hkey). split; [|by eauto]. intros E. apply Hj.
      assert (H1 : m !! key = Some id) by (apply Hm; by exists t0).
      assert (H2 : m !! key = Some j) by (apply Hm; by exists t). congruence.
  - rewrite Hm. split.
    + intros (t & Ht & Hkey). exists t. split; [|done]. split; [|done]. intros <-. destruct (Hse key). apply Hm. eauto.
    + intros (t & [_ Ht] & Hkey). eauto.
Qed.

(** The entries, and the requests that wait, are what the frames read so far ask
    for. *)
Definition request (f : Frame) : Prop := match f with FAuth _ => False | FSubscribe id _ _ => id ≠ ""%js | _ => True end.
Definition add_of (f : Frame) : list (jstring * jstring * jstring) :=
  match f with FSubscribe id kind ns => [(subKey kind ns, id)] | _ => [] end.
Definition unsub_of (f : Frame) : list jstring := match f with FUnsubscribe id => [id] | _ => [] end.
Definition follows (h : Hub) (fs : list Frame) : Prop := ∃ v ps,
  mirrors (hub_subs h) v ∧ Forall request ps ∧ addSub h = flat_map add_of ps ∧ unsubByID h = flat_map unsub_of ps ∧
  no_clash v ps ∧ foldl ask v ps = asked fs.
Lemma follows_subs h h' fs : hub_subs h' = hub_subs h → addSub h' = addSub h → unsubByID h' = unsubByID h →
  follows h fs → follows h' fs.
Proof. intros E1 E2 E3. unfold follows. by rewrite E1, E2, E3. Qed.

(** What an answer leaves alone. *)
Lemma reply_requests m h : hub_subs (reply m h) = hub_subs h ∧ addSub (reply m h) = addSub h ∧
  unsubByID (reply m h) = unsubByID h ∧ replies (reply m h) = replies h ++ [m].
Proof. unfold reply. by case_match. Qed.
Lemma offer_up m p : present p = true → offer m p ≠ Panics.
Proof. intros E. unfold offer. rewrite E. cbn. by case_match. Qed.

(** No step brings a client back, what was answered stays answered, and the hub
    does not panic over a client it has. *)
Record later (h h' : Hub) : Prop := {
  la_present : present (pipe h') = true → present (pipe h) = true;
  la_reading : reading h' = true → reading h = true;
  la_replies : ∃ more, replies h' = replies h ++ more;
  la_sound : present (pipe h') = true → panicked h = false → panicked h' = false
}.
Lemma later_refl h : later h h.
Proof. split; try done. exists []. by rewrite app_nil_r. Qed.
Lemma later_trans h1 h2 h3 : later h1 h2 → later h2 h3 → later h1 h3.
Proof.
  intros [P1 R1 [m1 E1] S1] [P2 R2 [m2 E2] S2]. split; [tauto|tauto| |tauto].
  exists (m1 ++ m2). by rewrite E2, E1, app_assoc.
Qed.
Lemma later_silent h h' : (present (pipe h') = true → present (pipe h) = true) → (reading h' = true → reading h = true) →
  replies h' = replies h → (present (pipe h') = true → panicked h' = panicked h) → later h h'.
Proof. intros Hp Hr E Hs. split; [done|done|exists []; by rewrite E, app_nil_r|intros H <-; by apply Hs]. Qed.
Lemma later_reply m h : later h (reply m h).
Proof.
  unfold reply, offer. destruct (present (pipe h)) eqn:Ep; cbn; repeat case_match; simplify_eq; split; cbn; eauto; intros; congruence.
Qed.
Lemma later_revoke h e : later h (revoke h e).
Proof.
  unfold revoke. destruct (panicked h) eqn:Eq; [apply later_refl|]. cbv zeta. unfold offer.
  cbn [pipe record set_entries]. destruct (present (pipe h)) eqn:Ep; cbn; repeat case_match; simplify_eq; split; cbn; eauto; intros; congruence.
Qed.
Lemma later_revokes l h : later h (foldl revoke h l).
Proof.
  revert h. induction l as [|e l IH]; intros h; [apply later_refl|]. cbn. eapply later_trans; [apply later_revoke|apply IH].
Qed.
Lemma later_broadcast kind ns ty obj n h : later h (broadcastEvent kind ns ty obj n h).
Proof.
  unfold broadcastEvent, sendResync, offer. destruct (target h kind ns); [|apply later_refl].
  destruct (present (pipe h)) eqn:Ep; cbn; rewrite ?Ep; [|by apply later_silent; cbn; intros; congruence].
  repeat (case_match; cbn; rewrite ?Ep); apply later_silent; cbn; try done; intros; congruence.
Qed.
Lemma later_step h s : later h (hub_step h s).
Proof using All.
  unfold hub_step. destruct (panicked h) eqn:Ep; [apply later_refl|]. destruct s.
  - destruct (reading h) eqn:Er; cbn [negb]; [|apply later_refl]. destruct f; [apply later_refl| |].
    + unfold handleSubscribe. repeat (case_match; try apply later_reply).
      all: eapply later_trans; [|apply later_reply]; by apply later_silent.
    + unfold handleUnsubscribe. case_match; [apply later_reply|by apply later_silent].
  - by apply later_silent.
  - destruct (addSub h) as [|[key id] rest]; [apply later_refl|by apply later_silent].
  - destruct (unsubByID h); [apply later_refl|by apply later_silent].
  - case_match; [|apply later_refl]. by apply later_silent.
  - apply later_broadcast.
  - apply later_revokes.
  - by apply later_silent.
Qed.
Lemma later_run ss h : later h (foldl hub_step h ss).
Proof using All.
  revert h. induction ss as [|s ss IH]; intros h; [apply later_refl|]. cbn. eapply later_trans; [apply later_step|apply IH].
Qed.

(** A request is read; it is taken; nothing else touches the entries of a client
    that stays, unless something was refused or revoked. *)
Lemma follows_push h h' fs f : follows h fs → request f → clear_ask (asked fs) f → hub_subs h' = hub_subs h →
  addSub h' = addSub h ++ add_of f → unsubByID h' = unsubByID h ++ unsub_of f → follows h' (fs ++ [f]).
Proof.
  intros (v & ps & Hm & Hps & Ha & Hu & Hcl & Hask) Hf Hcf E1 E2 E3. exists v, (ps ++ [f]).
  rewrite E1, E2, E3, Ha, Hu, !flat_map_app. cbn. rewrite !app_nil_r. split_and!; try done.
  - apply Forall_app. split; [done|]. by constructor.
  - apply no_clash_snoc. by rewrite Hask.
  - by rewrite foldl_app, Hask, asked_app.
Qed.
Lemma follows_take_add h h' fs key id rest : follows h fs → one_kind h = true → addSub h = (key, id) :: rest →
  hub_subs h' = <[key := id]> (hub_subs h) → addSub h' = rest → unsubByID h' = unsubByID h → follows h' fs.
Proof.
  intros (v & ps & Hm & Hps & Ha & Hu & Hcl & Hask) Hone Ea E1 E2 E3. unfold one_kind in Hone. rewrite Ea in Hone.
  destruct (unsubByID h) eqn:Eu; [|done]. destruct ps as [|f ps]; [by rewrite Ea in Ha|].
  apply Forall_cons in Hps as [Hf Hps]. destruct f as [tok|j kind ns|j]; [done| |done].
  rewrite Ea in Ha. injection Ha as -> -> Ha. destruct Hcl as [Hcf Hcl]. exists (<[j := (kind, ns)]> v), ps.
  rewrite E1, E2, E3. split_and!; try done. by apply mirrors_subscribe.
Qed.
Lemma follows_take_unsub h h' fs id rest : searches → follows h fs → one_kind h = true → unsubByID h = id :: rest →
  hub_subs h' = match pick (hub_subs h) id with Some key => delete key (hub_subs h) | None => hub_subs h end →
  addSub h' = addSub h → unsubByID h' = rest → follows h' fs.
Proof.
  intros Hse (v & ps & Hm & Hps & Ha & Hu & Hcl & Hask) Hone Eu E1 E2 E3. unfold one_kind in Hone. rewrite Eu in Hone.
  destruct (addSub h) eqn:Ea; [|done]. destruct ps as [|f ps]; [by rewrite Eu in Hu|].
  apply Forall_cons in Hps as [Hf Hps]. destruct f as [tok|j kind ns|j]; [done|done|].
  rewrite Eu in Hu. injection Hu as -> Hu. destruct Hcl as [Hcf Hcl]. exists (delete j v), ps.
  rewrite E1, E2, E3. split_and!; try done. by apply mirrors_unsubscribe.
Qed.
Lemma revalidate_same acc h : panicked h = false → forallb accepted (replies (revalidateSubscriptions acc h)) = true →
  revalidateSubscriptions acc h = h.
Proof.
  unfold revalidateSubscriptions. intros Hp Hok. destruct (revoked acc h) as [|e l]; [done|]. exfalso. cbn in Hok.
  destruct (la_replies _ _ (later_revokes l (revoke h e))) as [more E]. rewrite E, forallb_app in Hok. apply andb_true_iff in Hok as [Hok _].
  unfold revoke in Hok. rewrite Hp in Hok. cbv zeta in Hok.
  assert (Hb : forallb accepted (replies h ++ [OError e.2 403]) = false) by (by rewrite forallb_app, andb_false_r).
  destruct (offer _ _); cbn [replies record set_pipe set_entries panic] in Hok; congruence.
Qed.
Lemma broadcast_requests kind ns ty obj n h : let h' := broadcastEvent kind ns ty obj n h in
  present (pipe h') = true → hub_subs h' = hub_subs h ∧ addSub h' = addSub h ∧ unsubByID h' = unsubByID h.
Proof. cbv zeta. unfold broadcastEvent, sendResync. by repeat (case_match; try done). Qed.
Lemma follows_read h fs f acc : follows h fs → no_clash ∅ (fs ++ [f]) →
  let h' := match f with
    | FAuth _ => h
    | FSubscribe id kind ns => handleSubscribe id kind ns acc h
    | FUnsubscribe id => handleUnsubscribe id h
    end in
  forallb accepted (replies h') = true → follows h' (fs ++ [f]).
Proof.
  intros Hf [_ Hcf]%no_clash_snoc. cbv zeta.
  assert (Herr : ∀ id code, forallb accepted (replies (reply (OError id code) h)) = true → False).
  { intros id code. destruct (reply_requests (OError id code) h) as (_ & _ & _ & ->). by rewrite forallb_app, andb_false_r. }
  destruct f as [tok|id kind ns|id].
  - intros _. destruct Hf as (v & ps & ? & ? & ? & ? & ? & Hask). exists v, ps. split_and!; try done. by rewrite asked_app.
  - unfold handleSubscribe. destruct (js_eqb id ""%js) eqn:Ei; [by intros ?%Herr|]. apply js_eqb_neq in Ei.
    repeat (case_match; try by intros ?%Herr). all: intros _.
    all: match goal with |- follows (reply ?m ?x) _ => destruct (reply_requests m x) as (E1 & E2 & E3 & _) end.
    all: eapply follows_push; [exact Hf|done|done|rewrite E1; done|rewrite E2; done|].
    all: rewrite E3; cbn; by rewrite app_nil_r.
  - unfold handleUnsubscribe. destruct (js_eqb id ""%js) eqn:Ei; [by intros ?%Herr|]. intros _.
    eapply follows_push; [exact Hf|done|done|done|cbn; by rewrite app_nil_r|done].
Qed.
Lemma follows_step h s fs : searches → one_kind h = true → panicked h = false → follows h fs →
  up (hub_step h s) = true → forallb accepted (replies (hub_step h s)) = true → no_clash ∅ (fs ++ read_of s) →
  follows (hub_step h s) (fs ++ read_of s).
Proof.
  intros Hse Hone Hp Hf [Hpr Hrd]%andb_true_iff Hok Hcl. pose proof (la_reading _ _ (later_step h s) Hrd) as Hrd0.
  unfold hub_step in *. rewrite Hp in *. destruct s; cbn [read_of] in *; rewrite ?app_nil_r.
  - rewrite Hrd0 in *. cbn [negb] in *. by apply follows_read.
  - done.
  - destruct (addSub h) as [|[key id] rest] eqn:Ea; [done|]. by eapply follows_take_add.
  - destruct (unsubByID h) as [|id rest] eqn:Eu; [done|]. by eapply follows_take_unsub.
  - by rewrite Hrd0.
  - destruct (broadcast_requests kind ns ty obj n h Hpr) as (E1 & E2 & E3). by eapply follows_subs.
  - by rewrite revalidate_same.
  - by eapply follows_subs.
Qed.
Lemma follows_run ss : searches → ∀ h fs, one_kind h = true → panicked h = false → follows h fs →
  up (foldl hub_step h ss) = true → forallb accepted (replies (foldl hub_step h ss)) = true →
  uncrossed h ss = true → no_clash ∅ (fs ++ reads ss) → follows (foldl hub_step h ss) (fs ++ reads ss).
Proof.
  intros Hse. induction ss as [|s ss IH]; intros h fs Hone Hp Hf Hup Hok Hun Hcl; [by rewrite app_nil_r|].
  cbn in *. apply andb_true_iff in Hun as [Hone' Hun]. rewrite app_assoc in *.
  pose proof (later_run ss (hub_step h s)) as Hl. apply andb_true_iff in Hup as [Hup1 Hup2].
  pose proof (la_present _ _ Hl Hup1) as Hpr. pose proof (la_reading _ _ Hl Hup2) as Hrd.
  apply IH; try done.
  - by apply (la_sound _ _ (later_step h s)).
  - apply follows_step; try done; [unfold up; by rewrite Hpr, Hrd| |by eapply no_clash_app].
    destruct (la_replies _ _ Hl) as [more E]. rewrite E, forallb_app in Hok. by apply andb_true_iff in Hok as [? _].
  - unfold up. by rewrite Hup1, Hup2.
Qed.
(** Once every request was taken, the entries are what the client asked for. *)
Lemma hub_mirrors ss : searches → up (hub_run ss) = true → forallb accepted (replies (hub_run ss)) = true →
  uncrossed hub0 ss = true → no_clash ∅ (reads ss) → addSub (hub_run ss) = [] → unsubByID (hub_run ss) = [] →
  mirrors (hub_subs (hub_run ss)) (asked (reads ss)).
Proof.
  intros Hse Hup Hok Hun Hcl Ha Hu.
  assert (H0 : follows hub0 []).
  { exists ∅, []. split_and!; try done. split; [|by intros id t; rewrite lookup_empty]. intros key id. cbn.
    rewrite lookup_empty. split; [done|]. intros (t & Ht & _). by rewrite lookup_empty in Ht. }
  destruct (follows_run ss Hse hub0 [] eq_refl eq_refl H0 Hup Hok Hun Hcl) as (v & ps & Hm & Hps & Ea & Eu & _ & Hask).
  fold (hub_run ss) in Hm, Ea, Eu. rewrite Ha in Ea. rewrite Hu in Eu.
  destruct ps as [|[]]; [|apply Forall_cons in Hps; by destruct Hps|done|done]. cbn in Hask. by rewrite Hask in Hm.
Qed.
End Hub.

(** What the page does with the two messages an event can become. *)
Lemma hears_event c k s id sub ty obj text : socks (conn c) !! k = Some s → ready s = OPEN → ws (conn c) = Some k →
  assoc id (subscriptions c) = Some sub → id ≠ ""%js → ty ≠ ""%js → defined obj = true →
  JSON_parse text = Some (out_message (OEvent id ty obj)) →
  delivered (on_message k text c) =
    delivered c ++ [{| d_id := id; d_cb := sub_cb sub; d_type := JStr ty; d_object := obj |}].
Proof.
  intros Hs Hr Hw Hsub Hid Hty Hobj Htext. unfold on_message. rewrite Hs, Hw, !bool_decide_eq_true_2 by (cbn; congruence).
  cbn [andb]. rewrite Htext. unfold handleMessage. set (m := out_message (OEvent id ty obj)).
  change (type_is m "auth_ok"%js) with false. change (type_is m "event"%js) with true.
  change (msg_id m) with (truthy_token (Some id)). change (prop_of m "eventType"%js) with (JStr ty).
  change (prop_of m "object"%js) with obj. unfold truthy_token. apply js_eqb_neq in Hid, Hty. rewrite Hid, Hobj.
  cbn [js_truthy]. rewrite Hty. cbn [negb andb]. unfold notify. by rewrite Hsub.
Qed.
Lemma hears_resync c k s id sub kind text : socks (conn c) !! k = Some s → ready s = OPEN → ws (conn c) = Some k →
  assoc id (subscriptions c) = Some sub → id ≠ ""%js → JSON_parse text = Some (out_message (OResync id kind)) →
  delivered (on_message k text c) =
    delivered c ++ [{| d_id := id; d_cb := sub_cb sub; d_type := JStr EVENT_RESYNC; d_object := JNull |}].
Proof.
  intros Hs Hr Hw Hsub Hid Htext. unfold on_message. rewrite Hs, Hw, !bool_decide_eq_true_2 by (cbn; congruence).
  cbn [andb]. rewrite Htext. unfold handleMessage. set (m := out_message (OResync id kind)).
  change (type_is m "auth_ok"%js) with false. change (type_is m "event"%js) with false.
  change (type_is m "error"%js) with false. change (type_is m "resync_required"%js) with true.
  change (msg_id m) with (truthy_token (Some id)). unfold truthy_token. apply js_eqb_neq in Hid. rewrite Hid.
  unfold notify. by rewrite Hsub.
Qed.
(** The channel holds no more than its buffer. *)
Definition within (h : Hub) : Prop := (length (sendq (pipe h)) ≤ sendBufferSize)%nat.
Lemma offer_within m p p' : offer m p = Queued p' → (length (sendq p') ≤ sendBufferSize)%nat.
Proof.
  unfold offer. case_match; [done|]. destruct (Nat.ltb_spec (length (sendq p)) sendBufferSize) as [Hl|]; [|done].
  intros [= <-]. cbn [sendq]. rewrite length_app. cbn [length]. lia.
Qed.
Lemma pump_within n h : within h → within (set_pipe (pump n (pipe h)) h).
Proof. unfold within. cbn [pipe set_pipe pump sendq]. rewrite length_drop. lia. Qed.
Lemma reply_within m h : within h → within (reply m h).
Proof. intros Hf. unfold reply. destruct (offer m (pipe h)) eqn:E; try done. by apply offer_within in E. Qed.
Lemma resync_within id kind h : within h → within (sendResync id kind h).
Proof. intros Hf. unfold sendResync. destruct (offer _ _) eqn:E; try done. by apply offer_within in E. Qed.
Lemma revoke_within h e : within h → within (revoke h e).
Proof.
  intros Hf. unfold revoke. case_match; [done|]. cbv zeta. destruct (offer _ _) eqn:E; try done. by apply offer_within in E.
Qed.
Lemma hub_within allowed pick ss : within (hub_run allowed pick ss).
Proof.
  unfold hub_run. assert (H0 : within hub0) by (unfold within; cbn; lia). revert H0. generalize hub0.
  induction ss as [|s ss IH]; intros h Hf; [done|]. apply IH. unfold hub_step. destruct (panicked h); [done|]. destruct s.
  - destruct (negb (reading h)); [done|]. destruct f; [done| |].
    + unfold handleSubscribe. repeat (case_match; try by apply reply_within).
    + unfold handleUnsubscribe. case_match; [by apply reply_within|done].
  - done.
  - destruct (addSub h) as [|[]]; done.
  - by destruct (unsubByID h).
  - by case_match.
  - unfold broadcastEvent. destruct (target h kind ns); [|done]. destruct (offer _ _) eqn:E; [|by apply resync_within, pump_within|done].
    by apply offer_within in E.
  - unfold revalidateSubscriptions. generalize (revoked acc h). intros l. revert h Hf.
    induction l as [|e l IHl]; intros h Hf; [done|]. by apply IHl, revoke_within.
  - by apply pump_within.
Qed.
(** What the hub does with an event, for a client it has. *)
Lemma broadcast_outcome kind ns ty obj n h id : target h kind ns = Some id → present (pipe h) = true → within h →
  let p := pipe h in
  let p' := pipe (broadcastEvent kind ns ty obj n h) in
  ((length (sendq p) < 256)%nat → p' = {| sendq := sendq p ++ [OEvent id ty obj]; present := true; wire := wire p |}) ∧
  (length (sendq p) = 256%nat → (0 < n)%nat →
     p' = {| sendq := drop n (sendq p) ++ [OResync id kind]; present := true; wire := wire p ++ take n (sendq p) |}) ∧
  (length (sendq p) = 256%nat → n = 0%nat → present p' = false).
Proof.
  intros Ht Hp Hf. cbv zeta. unfold broadcastEvent, sendResync, offer, sendBufferSize. rewrite Ht, Hp. cbn [negb].
  split_and!; intros Hl.
  - by rewrite (proj2 (Nat.ltb_lt _ _) Hl).
  - intros Hn. rewrite (proj2 (Nat.ltb_ge (length _) 256)) by lia. cbn [pipe set_pipe pump present sendq]. rewrite Hp. cbn [negb].
    rewrite (proj2 (Nat.ltb_lt _ _)); [done|]. rewrite length_drop. lia.
  - intros ->. rewrite (proj2 (Nat.ltb_ge (length _) 256)) by lia. cbn [pipe set_pipe pump present sendq]. rewrite Hp. cbn [negb].
    rewrite (proj2 (Nat.ltb_ge (length (drop 0 _)) 256)); [done|]. rewrite length_drop. lia.
Qed.

(** C28. The page and the hub together, in any order of what the page's reader, the
    hub and the writer do. Let no two components ask for the same topic on a
    connection (nor one id for two), let the server refuse and revoke nothing,
    let requests of the two kinds never wait for the hub at the same time, and
    let it have taken all of them. Then an event the hub takes is put into the
    client's buffer under the id of the subscription to its kind and namespace,
    while the buffer of 256 messages has room; where it is full and the writer
    takes some in between, a request to resync is put there under that id; where
    the writer takes none, the client is cut off. The page hands the event, and
    the request to resync, to that subscription's callback. A subscription to all
    namespaces hears what no other asks for by name. *)
Theorem every_subscriber_hears allowed pick h0 t0 es k s ss id sub ns ty obj n :
  let c := run (loaded h0 t0) es in
  let h := hub_run allowed pick ss in
  let kind := normalizeKind (sub_kind sub) in
  let p := pipe h in
  let p' := pipe (hub_step allowed pick h (TakeEvent kind ns ty obj n)) in
  searches pick →
  socks (conn c) !! k = Some s → ready s = OPEN → acked s = true →
  reads ss = frames s → no_clash ∅ (frames s) → forallb accepted (replies h) = true →
  uncrossed allowed pick hub0 ss = true → addSub h = [] → unsubByID h = [] → up h = true →
  assoc id (subscriptions c) = Some sub →
  sub_ns sub = ns ∨ sub_ns sub = ""%js ∧
    (∀ id' sub', assoc id' (subscriptions c) = Some sub' → (normalizeKind (sub_kind sub'), sub_ns sub') ≠ (kind, ns)) →
  ((length (sendq p) < 256)%nat → p' = {| sendq := sendq p ++ [OEvent id ty obj]; present := true; wire := wire p |}) ∧
  (length (sendq p) = 256%nat → (0 < n)%nat →
     p' = {| sendq := drop n (sendq p) ++ [OResync id kind]; present := true; wire := wire p ++ take n (sendq p) |}) ∧
  (length (sendq p) = 256%nat → n = 0%nat → present p' = false) ∧
  (length (sendq p) ≤ 256)%nat ∧
  (∀ text, ty ≠ ""%js → defined obj = true → JSON_parse text = Some (out_message (OEvent id ty obj)) →
     delivered (on_message k text c) =
       delivered c ++ [{| d_id := id; d_cb := sub_cb sub; d_type := JStr ty; d_object := obj |}]) ∧
  (∀ text, JSON_parse text = Some (out_message (OResync id kind)) →
     delivered (on_message k text c) =
       delivered c ++ [{| d_id := id; d_cb := sub_cb sub; d_type := JStr EVENT_RESYNC; d_object := JNull |}]).
Proof.
  cbv zeta. intros Hse Hs Hr Ha Hrd Hcl Hok Hun Hqa Hqu Hup Hsub Hns.
  set (c := run (loaded h0 t0) es) in *. set (h := hub_run allowed pick ss) in *.
  destruct (run_carried es (loaded h0 t0) (loaded_carried h0 t0)) as [Hc _]. fold c in Hc.
  assert (Hw : ws (conn c) = Some k) by (eapply Hc; [done|by rewrite Hr]).
  assert (Hm : mirrors (hub_subs h) (wanted (subscriptions c))).
  { rewrite <- (ca_asked _ _ Hc k s), <- Hrd by done. apply hub_mirrors; try done. by rewrite Hrd. }
  assert (Hv : wanted (subscriptions c) !! id = Some (topic sub)) by (by rewrite wanted_lookup, Hsub).
  pose proof (mi_ids _ _ Hm _ _ Hv) as Hid.
  assert (Hh : hub_subs h !! (normalizeKind (sub_kind sub), sub_ns sub) = Some id) by (apply Hm; by eexists).
  assert (Ht : target h (normalizeKind (sub_kind sub)) ns = Some id).
  { unfold target. destruct Hns as [<-|[E Hno]]; [by rewrite Hh|]. rewrite E in Hh.
    destruct (hub_subs h !! (normalizeKind (sub_kind sub), ns)) as [id'|] eqn:E'; [|done].
    apply Hm in E' as (t & Hit & Hkey). rewrite wanted_lookup in Hit.
    destruct (assoc id' (subscriptions c)) as [sub'|] eqn:Es; [|done]. injection Hit as <-. by destruct (Hno id' sub' Es). }
  apply andb_true_iff in Hup as [Hpr Hre].
  assert (Hp : panicked h = false) by (by apply (la_sound _ _ (later_run allowed pick ss hub0))).
  pose proof (hub_within allowed pick ss) as Hf. fold h in Hf. unfold hub_step. rewrite Hp.
  destruct (broadcast_outcome _ _ ty obj n h id Ht Hpr Hf) as (O1 & O2 & O3).
  split_and!; [exact O1|exact O2|exact O3|exact Hf| |].
  - intros text Hty Hobj Htext. by eapply hears_event.
  - intros text Htext. by eapply hears_resync.
Qed.

(** ** The limits of that *)

(** A search of the hub's map. *)
Definition find_id (m : gmap (jstring * jstring) jstring) (id : jstring) : option (jstring * jstring) :=
  fst <$> head (filter (λ kv, kv.2 = id) (map_to_list m)).
Lemma find_id_searches : searches find_id.
Proof.
  intros m id. unfold find_id. destruct (filter _ (map_to_list m)) as [|[key x] rest] eqn:E; cbn.
  - intros key Hk. apply elem_of_map_to_list in Hk.
    assert (H : (key, id) ∈ filter (λ kv : _ * jstring, kv.2 = id) (map_to_list m)) by (by apply list_elem_of_filter).
    rewrite E in H. by apply elem_of_nil in H.
  - assert (H : (key, x) ∈ filter (λ kv : _ * jstring, kv.2 = id) (map_to_list m)) by (rewrite E; by left).
    apply list_elem_of_filter in H as [Hx H]. apply elem_of_map_to_list in H. cbn in Hx. by subst.
Qed.
Definition text_of (v : jsval) : jstring := default ""%js (JSON_stringify v).
Definition auth_ok_text : jstring := text_of (JObj [("type"%js, JStr "auth_ok"%js)]).
(** The notification bell, on every page; and the feed of the notifications page. *)
Definition bell_run : list Happening :=
  [Subscribe "notif-bell"%js "notifications"%js ""%js 1%nat true; Opened 0; OnMessage 0 auth_ok_text].
Definition feed_run : list Happening :=
  bell_run ++ [Subscribe "notif-feed"%js "notifications"%js ""%js 2%nat true].
Definition sent_on (k : nat) (es : list Happening) : list Frame :=
  default [] (frames <$> socks (conn (run (loaded false (Some "t"%js)) es)) !! k).
(** The hub keeps up with the reader. *)
Definition in_order (fs : list Frame) : list HubStep := flat_map (λ f, [Read f (Some true); TakeAdd; TakeUnsub]) fs.
Definition hub_after (es : list Happening) : Hub := hub_run (λ _, true) find_id (in_order (sent_on 0 es)).
(** Two subscriptions to one topic: the hub keeps one id per client and topic, so
    the first subscriber never hears of anything again, not even once the second
    has unsubscribed; nobody is told. *)
Theorem same_topic_starves :
  is_Some (assoc "notif-bell"%js (subscriptions (run (loaded false (Some "t"%js)) feed_run))) ∧
  forallb accepted (replies (hub_after feed_run)) = true ∧
  (∀ kind ns, target (hub_after feed_run) kind ns ≠ Some "notif-bell"%js) ∧
  (∀ kind ns, target (hub_after (feed_run ++ [Unsubscribe "notif-feed"%js])) kind ns = None).
Proof.
  split; [by eexists|]. split; [reflexivity|]. split; intros kind ns; unfold target.
  - assert (E : hub_subs (hub_after feed_run) = {[("notifications"%js, ""%js) := "notif-feed"%js]}) by reflexivity.
    rewrite E. destruct (decide (("notifications"%js, ""%js) = (kind, ns))) as [<-|H1].
    + by rewrite lookup_singleton_eq.
    + rewrite lookup_singleton_ne by done. destruct (decide ("notifications"%js = kind)) as [<-|H2].
      * by rewrite lookup_singleton_eq.
      * rewrite lookup_singleton_ne; [done|congruence].
  - assert (E : hub_subs (hub_after (feed_run ++ [Unsubscribe "notif-feed"%js])) = ∅) by reflexivity.
    rewrite E. by rewrite !lookup_empty.
Qed.
(** The two requests of the reader wait in two channels, and the hub takes from
    either: a subscription renewed under its id can be taken before the
    unsubscription that was read before it, which then removes it. *)
Theorem unsubscribe_overtaken :
  let fs := [FSubscribe "a"%js "pods"%js ""%js; FUnsubscribe "a"%js; FSubscribe "a"%js "pods"%js ""%js] in
  hub_subs (hub_run (λ _, true) find_id (in_order fs)) = {[("pods"%js, ""%js) := "a"%js]} ∧
  hub_subs (hub_run (λ _, true) find_id
    [Read (FSubscribe "a"%js "pods"%js ""%js) (Some true); TakeAdd; Read (FUnsubscribe "a"%js) (Some true);
     Read (FSubscribe "a"%js "pods"%js ""%js) (Some true); TakeAdd; TakeUnsub]) = ∅.
Proof. split; reflexivity. Qed.
(** A client that subscribes and leaves at once: its request to leave waits in a
    third channel. Where the hub takes that one first, it closes the client's
    channel and then enters the subscription of the client it no longer has; the
    next event of the topic is sent on the closed channel, which panics in the
    hub's goroutine. *)
Theorem late_subscription_panics :
  let h := hub_run (λ _, true) find_id
    [Read (FAuth "t"%js) None; Read (FSubscribe "a"%js "pods"%js ""%js) (Some true); Hangup; TakeLeave; TakeAdd] in
  present (pipe h) = false ∧ hub_subs h = {[("pods"%js, ""%js) := "a"%js]} ∧
  panicked (hub_step (λ _, true) find_id h (TakeEvent "pods"%js "prod"%js "ADDED"%js (JObj []) 0)) = true.
Proof. split_and!; reflexivity. Qed.
(** A busy client: the buffer takes 256 messages, then it is cut off. *)
Definition bell_event (n : nat) : HubStep := TakeEvent "notifications"%js "prod"%js "ADDED"%js (JObj []) n.
Definition bell_text : jstring := text_of (out_message (OEvent "notif-bell"%js "ADDED"%js (JObj []))).
Definition bell_steps (n : nat) : list HubStep := in_order (sent_on 0 bell_run) ++ replicate n (bell_event 0).
Lemma bell_frames : sent_on 0 bell_run = [FAuth "t"%js; FSubscribe "notif-bell"%js "notifications"%js ""%js].
Proof. vm_compute. reflexivity. Qed.
Lemma bell_no_clash : no_clash ∅ (sent_on 0 bell_run).
Proof.
  rewrite bell_frames. split; [exact I|]. split; [|exact I]. intros id t H. cbn [ask] in H.
  by rewrite lookup_empty in H.
Qed.
Example slow_client_cut_off :
  let h := hub_run (λ _, true) find_id (bell_steps 256) in
  length (sendq (pipe h)) = 256%nat ∧ present (pipe h) = false ∧ hub_subs h = ∅.
Proof. vm_compute. split_and!; reflexivity. Qed.
Lemma every_subscriber_hears_witness :
  let c := run (loaded false (Some "t"%js)) bell_run in
  let h := hub_run (λ _, true) find_id (bell_steps 255) in
  let h' n := hub_step (λ _, true) find_id h (bell_event n) in
  length (sendq (pipe h)) = 256%nat ∧
  last (sendq (pipe (h' 1%nat))) = Some (OResync "notif-bell"%js "notifications"%js) ∧
  delivered (on_message 0 bell_text c) =
    [{| d_id := "notif-bell"%js; d_cb := 1; d_type := JStr "ADDED"%js; d_object := JObj [] |}].
Proof.
  cbv zeta. split; [vm_compute; reflexivity|].
  destruct (every_subscriber_hears (λ _, true) find_id false (Some "t"%js) bell_run 0
    {| ready := OPEN; frames := sent_on 0 bell_run; acked := true |} (bell_steps 255) "notif-bell"%js
    {| sub_kind := "notifications"%js; sub_ns := ""%js; sub_cb := 1 |} "prod"%js "ADDED"%js (JObj []) 1)
    as (_ & H2 & _ & _ & H5 & _).
  - exact find_id_searches.
  - vm_compute. reflexivity.
  - reflexivity.
  - reflexivity.
  - vm_compute. reflexivity.
  - exact bell_no_clash.
  - vm_compute. reflexivity.
  - vm_compute. reflexivity.
  - vm_compute. reflexivity.
  - vm_compute. reflexivity.
  - vm_compute. reflexivity.
  - vm_compute. reflexivity.
  - right. split; [reflexivity|]. intros id' sub' H. change (subscriptions _) with
      [("notif-bell"%js, {| sub_kind := "notifications"%js; sub_ns := ""%js; sub_cb := 1 |})] in H.
    cbn [assoc] in H. case_decide; [|discriminate]. injection H as <-. discriminate.
  - split; [|apply H5; [discriminate|reflexivity|vm_compute; reflexivity]].
    change (normalizeKind (sub_kind _)) with "notifications"%js in H2. unfold bell_event.
    rewrite H2; [|vm_compute; reflexivity|lia]. vm_compute. reflexivity.
Defined.
