(* ===== verification/LayoutStore.v ===== *)
(** * The layout store: layout-store.ts

    The module's signals and module variables are one record, and everything
    that can happen to it one event: a call, the settling of the request a call
    is awaiting, an abort, a cluster switch. An [async] function is two events,
    the part before its [await] and the part after it; in between, any other
    event may run. What a call captured before its [await] is kept with the
    pending request. *)

From stdpp Require Import base list strings gmap sorting.
From Stdlib Require Import ZArith Lia.
From S2P Require Import Prelude JsValue Types Params Grid EditSession Registry.

Open Scope Z_scope.

(** ** Data *)

(** What the endpoints return. [res_config] is [None] when the record's config
    is not an object with an array of items. *)
Record LayoutResponse := {
  res_id : jstring;
  clusterId : jstring;
  clusterLabel : option jstring;
  updatedAt : jstring;
  res_revision : Z;
  res_config : option DashboardLayoutConfig;
  withheld : option (list jstring)
}.
Record DroppedLayout := { dropped_config : DashboardLayoutConfig; warnings : list jstring }.
Record CopyableLayout := {
  copy_id : jstring;
  copy_clusterId : jstring;
  copy_clusterLabel : jstring;
  copy_updatedAt : jstring;
  copy_config : DashboardLayoutConfig;
  copy_warnings : list jstring
}.
Record LoadedLayout := {
  loaded_config : DashboardLayoutConfig;
  loaded_is_default : bool; (** the config is the default object itself *)
  loaded_revision : Z;
  loaded_withheld : list jstring;
  loaded_warnings : list jstring
}.

(** ** Pure definitions *)

Definition DEFAULT_LAYOUTS (s : DashboardScope) : DashboardLayoutConfig :=
  match s with overview => DEFAULT_OVERVIEW_LAYOUT end.
Definition defaultLayoutFor (s : DashboardScope) : DashboardLayoutConfig := DEFAULT_LAYOUTS s.

Definition set_add (a : jstring) (l : list jstring) : list jstring :=
  if decide (a ∈ l) then l else l ++ [a].

(** The double quote. *)
Definition dq : jstring := JS [34%N].
Definition msg_missing (wid : jstring) : jstring :=
  ("Removed " +++ dq +++ wid +++ dq +++ " from this dashboard: this build has no such widget.")%js.
Definition msg_unfilled (wid : jstring) : jstring :=
  ("Removed " +++ dq +++ wid +++ dq +++ " from this dashboard: it was stored without the values it needs.")%js.

(** The three ways an iteration of the loop of [dropUnknownWidgets] ends. *)
Inductive fate := kept_item | missing_widget | unfilled_params.
#[export] Instance fate_eq_dec : EqDecision fate.
Proof. solve_decision. Defined.

Section Store.
Variable getWidget : jstring → option WidgetDef.

Definition item_fate (it : LayoutItem) : fate :=
  match getWidget (id it) with
  | None => missing_widget
  | Some d =>
      match missingParamKeys (def_params d) (default [] (params it)) with
      | [] => kept_item
      | _ => unfilled_params
      end
  end.
Definition drop_step (acc : list LayoutItem * list jstring * list jstring) (it : LayoutItem)
    : list LayoutItem * list jstring * list jstring :=
  let '(kept, missing, unfilled) := acc in
  match item_fate it with
  | kept_item => (kept ++ [it], missing, unfilled)
  | missing_widget => (kept, set_add (id it) missing, unfilled)
  | unfilled_params => (kept, missing, set_add (id it) unfilled)
  end.
Definition dropUnknownWidgets (config : DashboardLayoutConfig) : DroppedLayout :=
  let '(kept, missing, unfilled) := foldl drop_step ([], [], []) (config_items config) in
  {| dropped_config := with_items config kept;
     warnings := (msg_missing <$> missing) ++ (msg_unfilled <$> unfilled) |}.

(** [rec.clusterLabel || rec.clusterId] *)
Definition cluster_name (r : LayoutResponse) : jstring :=
  match clusterLabel r with
  | Some l => if js_eqb l "" then clusterId r else l
  | None => clusterId r
  end.
Definition msg_withheld (n : nat) (name : jstring) : jstring :=
  (decimal (N.of_nat n) +++ " widget" +++ (if (n =? 1)%nat then "" else "s") +++ " on " +++ dq +++ name
     +++ dq +++ " read a namespace and cannot be copied to another cluster.")%js.
Definition copyable (s : DashboardScope) (currentCluster : jstring) (cols : Z)
    (r : LayoutResponse) : option CopyableLayout :=
  if js_eqb (clusterId r) currentCluster then None else
  cfg ← res_config r;
  if negb (js_eqb (scope cfg) (scope_text s)) then None
  else if negb (schemaVersion cfg =? DASHBOARD_LAYOUT_SCHEMA_VERSION) || negb (columns cfg =? cols)
  then None else
  let d := dropUnknownWidgets cfg in
  match config_items (dropped_config d) with
  | [] => None
  | _ =>
      let held := default [] (withheld r) in
      Some {| copy_id := res_id r; copy_clusterId := clusterId r;
              copy_clusterLabel := cluster_name r; copy_updatedAt := updatedAt r;
              copy_config := dropped_config d;
              copy_warnings := warnings d ++
                match held with
                | [] => []
                | _ => [msg_withheld (length held) (cluster_name r)]
                end |}
  end.
Definition copyableLayouts (records : list LayoutResponse) (s : DashboardScope)
    (currentCluster : jstring) (cols : Z) : list CopyableLayout :=
  omap (copyable s currentCluster cols) records.

(** [None] is the [TypeError] of reading the items of something that is not a
    layout. *)
Definition layoutFromResponse (res : option LayoutResponse) (s : DashboardScope)
    : option LoadedLayout :=
  match res with
  | None =>
      Some {| loaded_config := defaultLayoutFor s; loaded_is_default := true;
              loaded_revision := 0; loaded_withheld := []; loaded_warnings := [] |}
  | Some r =>
      cfg ← res_config r;
      let d := dropUnknownWidgets cfg in
      Some {| loaded_config := dropped_config d; loaded_is_default := false;
              loaded_revision := res_revision r;
              loaded_withheld := default [] (withheld r); loaded_warnings := warnings d |}
  end.

(** ** The module's state *)

Definition PREFERENCE_REASONS : list jstring :=
  ["database_unavailable"; "invalid_config"; "unknown_resource_kind";
   "unsupported_schema_version"; "duplicate_name"; "already_pinned"; "limit_reached";
   "revision_conflict"; "invalid_name"; "identity_too_long"; "unknown_widget_id"]%js.
(** The argument is the error's [reason] field, if it has one. *)
Definition preferenceReason (reason : option jstring) : option jstring :=
  r ← reason; if decide (r ∈ PREFERENCE_REASONS) then Some r else None.
Inductive LayoutUnavailable := unavailable (reason : jstring) | unavailable_unknown.

Record LayoutObservation := { obs_scope : DashboardScope; obs_cluster : jstring }.

(** The signals, with [observed] and [commitSeq]. [layout_is_default]: the
    object in [layout] is the default constant itself. *)
Record Signals := {
  layout : DashboardLayoutConfig;
  layout_is_default : bool;
  layoutLoaded : bool;
  layoutUnavailable : option LayoutUnavailable;
  layoutRevision : Z;
  layoutWithheld : list jstring;
  layoutWarnings : list jstring;
  layoutGeneration : nat;
  observed : option LayoutObservation;
  commitSeq : nat
}.
(** A call of [loadLayout] at its [await]: its controller, what it captured,
    and the cluster [api] addressed the request to. *)
Record PendingLoad := {
  ld_ac : nat;
  ld_scope : DashboardScope;
  ld_startedAt : nat;
  ld_cluster : jstring
}.
(** A call of [saveLayout] at its [await]. *)
Record PendingSave := {
  sv_id : nat;
  sv_scope : DashboardScope;
  sv_cluster : jstring;
  sv_config : DashboardLayoutConfig;
  sv_is_default : bool
}.
Record StoreState := {
  signals : Signals;
  copyableLayoutRecords : list LayoutResponse;
  selectedCluster : jstring;
  inFlight : option nat;
  copyableInFlight : option nat;
  aborted : list nat;       (** controllers whose signal is aborted *)
  nextController : nat;
  loads : list PendingLoad;
  copyLoads : list nat;
  saves : list PendingSave
}.

Inductive event :=
  | Load (s : DashboardScope) (signal_aborted : bool)
  | AbortSignal (ac : nat)
  | LoadOk (ac : nat) (res : option LayoutResponse)
  | LoadErr (ac : nat) (abort_error : bool) (reason : option jstring)
  | Save (s : DashboardScope) (config : DashboardLayoutConfig) (is_default : bool)
  | SaveOk (i : nat) (saved : LayoutResponse)
  | SaveErr (i : nat)
  | Switch (cluster : jstring)
  | LoadCopyable (signal_aborted : bool)
  | CopyableOk (ac : nat) (records : list LayoutResponse)
  | CopyableErr (ac : nat).
(** What the event sends or throws. *)
Inductive output :=
  | Nothing
  | Get (s : DashboardScope) (cluster : jstring)
  | GetAll
  | Put (s : DashboardScope) (cluster : jstring) (revision : Z) (config : DashboardLayoutConfig)
  | StaleLayoutScopeError (s : DashboardScope) (cluster : jstring) (o : option LayoutObservation)
  | WithheldLayoutError (l : list jstring).

Definition initial (cluster : jstring) : StoreState :=
  {| signals := {| layout := DEFAULT_OVERVIEW_LAYOUT; layout_is_default := true;
                   layoutLoaded := false; layoutUnavailable := None; layoutRevision := 0;
                   layoutWithheld := []; layoutWarnings := []; layoutGeneration := 0;
                   observed := None; commitSeq := 0 |};
     copyableLayoutRecords := []; selectedCluster := cluster;
     inFlight := None; copyableInFlight := None; aborted := []; nextController := 0;
     loads := []; copyLoads := []; saves := [] |}.

Definition with_signals (st : StoreState) (sg : Signals) : StoreState :=
  {| signals := sg; copyableLayoutRecords := copyableLayoutRecords st;
     selectedCluster := selectedCluster st; inFlight := inFlight st;
     copyableInFlight := copyableInFlight st; aborted := aborted st;
     nextController := nextController st; loads := loads st; copyLoads := copyLoads st;
     saves := saves st |}.
Definition with_saves (st : StoreState) (n : nat) (l : list PendingSave) : StoreState :=
  {| signals := signals st; copyableLayoutRecords := copyableLayoutRecords st;
     selectedCluster := selectedCluster st; inFlight := inFlight st;
     copyableInFlight := copyableInFlight st; aborted := aborted st;
     nextController := n; loads := loads st; copyLoads := copyLoads st; saves := l |}.

(** ** The handlers *)

(** The part of [loadLayout] before its [await]. *)
Definition load_begin (st : StoreState) (s : DashboardScope) (signal_aborted : bool)
    : StoreState * output :=
  if signal_aborted then (st, Nothing) else
  let ac := nextController st in
  ({| signals := signals st; copyableLayoutRecords := copyableLayoutRecords st;
      selectedCluster := selectedCluster st; inFlight := Some ac;
      copyableInFlight := copyableInFlight st;
      aborted := option_list (inFlight st) ++ aborted st;
      nextController := S ac;
      loads := loads st ++ [{| ld_ac := ac; ld_scope := s; ld_startedAt := commitSeq (signals st);
                               ld_cluster := selectedCluster st |}];
      copyLoads := copyLoads st; saves := saves st |},
   Get s (selectedCluster st)).
Definition pending_load (st : StoreState) (ac : nat) : option PendingLoad :=
  head (filter (λ p, ld_ac p = ac) (loads st)).
(** The [finally] block, and the call leaves the pending ones. *)
Definition load_finally (st : StoreState) (ac : nat) : StoreState :=
  {| signals := signals st; copyableLayoutRecords := copyableLayoutRecords st;
     selectedCluster := selectedCluster st;
     inFlight := if decide (inFlight st = Some ac) then None else inFlight st;
     copyableInFlight := copyableInFlight st; aborted := aborted st;
     nextController := nextController st; loads := filter (λ p, ld_ac p ≠ ac) (loads st);
     copyLoads := copyLoads st; saves := saves st |}.

(** The writes after a successful read. *)
Definition load_commit (sg : Signals) (s : DashboardScope) (cluster : jstring)
    (l : LoadedLayout) : Signals :=
  let replaced := negb (loaded_is_default l && layout_is_default sg) in
  {| layout := loaded_config l; layout_is_default := loaded_is_default l;
     layoutLoaded := true; layoutUnavailable := None;
     layoutRevision := loaded_revision l; layoutWithheld := loaded_withheld l;
     layoutWarnings := loaded_warnings l;
     layoutGeneration := if replaced then S (layoutGeneration sg) else layoutGeneration sg;
     observed := Some {| obs_scope := s; obs_cluster := cluster |};
     commitSeq := S (commitSeq sg) |}.
(** The writes of the [catch] block. *)
Definition load_fail (sg : Signals) (reason : option jstring) : Signals :=
  {| layout := layout sg; layout_is_default := layout_is_default sg;
     layoutLoaded := true;
     layoutUnavailable := Some (match preferenceReason reason with
                                | Some r => unavailable r
                                | None => unavailable_unknown
                                end);
     layoutRevision := layoutRevision sg; layoutWithheld := layoutWithheld sg;
     layoutWarnings := layoutWarnings sg; layoutGeneration := layoutGeneration sg;
     observed := None; commitSeq := commitSeq sg |}.
Definition load_catch (st : StoreState) (p : PendingLoad) (abort_error : bool)
    (reason : option jstring) : Signals :=
  if bool_decide (ld_ac p ∈ aborted st) || abort_error then signals st
  else if negb (commitSeq (signals st) =? ld_startedAt p)%nat then signals st
  else load_fail (signals st) reason.
Definition load_ok (st : StoreState) (p : PendingLoad) (res : option LayoutResponse) : Signals :=
  if bool_decide (ld_ac p ∈ aborted st) then signals st
  else if negb (commitSeq (signals st) =? ld_startedAt p)%nat then signals st
  else match layoutFromResponse res (ld_scope p) with
       | Some l => load_commit (signals st) (ld_scope p) (selectedCluster st) l
       | None => load_catch st p false None
       end.

(** The part of [saveLayout] before its [await]. [DASHBOARD_SCOPES] has one member, so
    the comparison of scopes decides nothing in this build. *)
Definition save_begin (st : StoreState) (s : DashboardScope) (config : DashboardLayoutConfig)
    (is_default : bool) : StoreState * output :=
  let cluster := selectedCluster st in
  let stale := (st, StaleLayoutScopeError s cluster (observed (signals st))) in
  match observed (signals st) with
  | None => stale
  | Some o =>
      if bool_decide (obs_scope o ≠ s) || bool_decide (obs_cluster o ≠ cluster) then stale
      else match layoutWithheld (signals st) with
      | _ :: _ => (st, WithheldLayoutError (layoutWithheld (signals st)))
      | [] =>
          let i := nextController st in
          (with_saves st (S i)
             (saves st ++ [{| sv_id := i; sv_scope := s; sv_cluster := cluster;
                              sv_config := config; sv_is_default := is_default |}]),
           Put s cluster (layoutRevision (signals st)) config)
      end
  end.
Definition pending_save (st : StoreState) (i : nat) : option PendingSave :=
  head (filter (λ p, sv_id p = i) (saves st)).
Definition save_settled (st : StoreState) (i : nat) : StoreState :=
  with_saves st (nextController st) (filter (λ p, sv_id p ≠ i) (saves st)).
Definition save_commit (sg : Signals) (p : PendingSave) (saved : LayoutResponse) : Signals :=
  {| layout := sv_config p; layout_is_default := sv_is_default p;
     layoutLoaded := true; layoutUnavailable := None;
     layoutRevision := res_revision saved; layoutWithheld := layoutWithheld sg;
     layoutWarnings := layoutWarnings sg; layoutGeneration := layoutGeneration sg;
     observed := Some {| obs_scope := sv_scope p; obs_cluster := sv_cluster p |};
     commitSeq := S (commitSeq sg) |}.
Definition forget (sg : Signals) : Signals :=
  {| layout := layout sg; layout_is_default := layout_is_default sg;
     layoutLoaded := layoutLoaded sg; layoutUnavailable := layoutUnavailable sg;
     layoutRevision := layoutRevision sg; layoutWithheld := layoutWithheld sg;
     layoutWarnings := layoutWarnings sg; layoutGeneration := layoutGeneration sg;
     observed := None; commitSeq := commitSeq sg |}.

(** [loadCopyableLayouts], the same way. *)
Definition copyable_begin (st : StoreState) (signal_aborted : bool) : StoreState * output :=
  if signal_aborted then (st, Nothing) else
  let ac := nextController st in
  ({| signals := signals st; copyableLayoutRecords := copyableLayoutRecords st;
      selectedCluster := selectedCluster st; inFlight := inFlight st;
      copyableInFlight := Some ac;
      aborted := option_list (copyableInFlight st) ++ aborted st;
      nextController := S ac; loads := loads st; copyLoads := copyLoads st ++ [ac];
      saves := saves st |}, GetAll).
Definition copyable_end (st : StoreState) (ac : nat) (records : option (list LayoutResponse))
    : StoreState :=
  {| signals := signals st;
     copyableLayoutRecords := match records with
       | Some rs => if bool_decide (ac ∈ aborted st) then copyableLayoutRecords st else rs
       | None => copyableLayoutRecords st
       end;
     selectedCluster := selectedCluster st; inFlight := inFlight st;
     copyableInFlight := if decide (copyableInFlight st = Some ac) then None
                         else copyableInFlight st;
     aborted := aborted st; nextController := nextController st; loads := loads st;
     copyLoads := filter (λ a, a ≠ ac) (copyLoads st); saves := saves st |}.

(** [None]: no such request is pending. *)
Definition step (st : StoreState) (e : event) : option (StoreState * output) :=
  match e with
  | Load s ab => Some (load_begin st s ab)
  | AbortSignal ac =>
      if decide (ac ∈ (ld_ac <$> loads st) ++ copyLoads st) then
      Some ({| signals := signals st; copyableLayoutRecords := copyableLayoutRecords st;
               selectedCluster := selectedCluster st; inFlight := inFlight st;
               copyableInFlight := copyableInFlight st; aborted := ac :: aborted st;
               nextController := nextController st; loads := loads st;
               copyLoads := copyLoads st; saves := saves st |}, Nothing)
      else None
  | LoadOk ac res =>
      p ← pending_load st ac;
      Some (load_finally (with_signals st (load_ok st p res)) ac, Nothing)
  | LoadErr ac ab reason =>
      p ← pending_load st ac;
      Some (load_finally (with_signals st (load_catch st p ab reason)) ac, Nothing)
  | Save s config d => Some (save_begin st s config d)
  | SaveOk i saved =>
      p ← pending_save st i;
      Some (save_settled (with_signals st (save_commit (signals st) p saved)) i, Nothing)
  | SaveErr i =>
      p ← pending_save st i;
      Some (save_settled (with_signals st (forget (signals st))) i, Nothing)
  | Switch cluster =>
      Some ({| signals := signals st; copyableLayoutRecords := copyableLayoutRecords st;
               selectedCluster := cluster; inFlight := inFlight st;
               copyableInFlight := copyableInFlight st; aborted := aborted st;
               nextController := nextController st; loads := loads st;
               copyLoads := copyLoads st; saves := saves st |}, Nothing)
  | LoadCopyable ab => Some (copyable_begin st ab)
  | CopyableOk ac records =>
      if decide (ac ∈ copyLoads st) then Some (copyable_end st ac (Some records), Nothing) else None
  | CopyableErr ac =>
      if decide (ac ∈ copyLoads st) then Some (copyable_end st ac None, Nothing) else None
  end.
Fixpoint run (st : StoreState) (es : list event) : option (StoreState * list output) :=
  match es with
  | [] => Some (st, [])
  | e :: es' =>
      '(st1, o) ← step st e;
      '(st2, os) ← run st1 es';
      Some (st2, o :: os)
  end.

(** ** Dropping placements *)

Lemma set_add_elem a b l : a ∈ set_add b l ↔ a = b ∨ a ∈ l.
Proof.
  unfold set_add. case_decide as H; [split; [auto|by intros [->|?]]|].
  rewrite elem_of_app, list_elem_of_singleton. tauto.
Qed.
Lemma set_add_NoDup b l : NoDup l → NoDup (set_add b l).
Proof.
  unfold set_add. case_decide as H; [done|]. intros Hl. apply NoDup_app. split; [done|].
  split; [|apply NoDup_singleton]. intros a Ha ->%list_elem_of_singleton. done.
Qed.

(** The ids of the items with a given fate. *)
Definition with_fate (f : fate) (items : list LayoutItem) (wid : jstring) : Prop :=
  ∃ it, it ∈ items ∧ item_fate it = f ∧ id it = wid.
Lemma with_fate_cons f it items wid :
  with_fate f (it :: items) wid ↔ (item_fate it = f ∧ id it = wid) ∨ with_fate f items wid.
Proof.
  unfold with_fate. setoid_rewrite elem_of_cons. naive_solver.
Qed.
Lemma drop_fold items kept missing unfilled kept' missing' unfilled' :
  foldl drop_step (kept, missing, unfilled) items = (kept', missing', unfilled') →
  NoDup missing → NoDup unfilled →
  kept' = kept ++ filter (λ it, item_fate it = kept_item) items ∧
  NoDup missing' ∧ NoDup unfilled' ∧
  (∀ wid, wid ∈ missing' ↔ wid ∈ missing ∨ with_fate missing_widget items wid) ∧
  (∀ wid, wid ∈ unfilled' ↔ wid ∈ unfilled ∨ with_fate unfilled_params items wid).
Proof.
  revert kept missing unfilled. induction items as [|it items IH]; intros kept missing unfilled.
  { intros [= -> -> ->]. rewrite filter_nil, app_nil_r. unfold with_fate.
    setoid_rewrite elem_of_nil. naive_solver. }
  cbn [foldl]. unfold drop_step at 2. intros H Hm Hu. rewrite filter_cons.
  destruct (item_fate it) eqn:E; apply IH in H as (-> & H1 & H2 & H3 & H4);
    auto using set_add_NoDup;
    (split; [try rewrite decide_True by done; try rewrite decide_False by done;
             rewrite <- ?app_assoc; done|]);
    (split; [done|]); (split; [done|]); (split; intros wid);
    rewrite ?H3, ?H4, with_fate_cons, ?set_add_elem, E; naive_solver.
Qed.

(** ** The state machine *)

Definition store_inv (st : StoreState) : Prop :=
  NoDup (ld_ac <$> loads st) ∧
  (∀ p, p ∈ loads st → ld_ac p < nextController st)%nat ∧
  (∀ p, p ∈ loads st → inFlight st = Some (ld_ac p) ∨ ld_ac p ∈ aborted st) ∧
  (∀ p, p ∈ loads st → ld_startedAt p ≤ commitSeq (signals st))%nat.

Lemma initial_inv cluster : store_inv (initial cluster).
Proof. split; [constructor|]. split; [|split]; by intros p ?%elem_of_nil. Qed.

Lemma pending_load_Some st ac p : pending_load st ac = Some p → p ∈ loads st ∧ ld_ac p = ac.
Proof.
  unfold pending_load. intros H%head_Some_elem_of. apply list_elem_of_filter in H. tauto.
Qed.
Lemma load_ok_seq st p res : (commitSeq (signals st) ≤ commitSeq (load_ok st p res))%nat.
Proof.
  unfold load_ok, load_catch. repeat case_match; simpl; lia.
Qed.
Lemma load_catch_seq st p ab r : commitSeq (load_catch st p ab r) = commitSeq (signals st).
Proof. unfold load_catch. by repeat case_match. Qed.

Lemma load_finally_inv st ac sg :
  store_inv st → (commitSeq (signals st) ≤ commitSeq sg)%nat →
  store_inv (load_finally (with_signals st sg) ac).
Proof.
  intros (H1 & H2 & H3 & H4) Hseq. split; [|split; [|split]]; simpl.
  - eapply sublist_NoDup; [done|]. apply fmap_sublist, sublist_filter.
  - intros p [_ Hp]%list_elem_of_filter. auto.
  - intros p [Hne Hp]%list_elem_of_filter. destruct (H3 p Hp) as [->|Hab]; [|by right].
    left. by rewrite decide_False by congruence.
  - intros p [_ Hp]%list_elem_of_filter. apply H4 in Hp. lia.
Qed.
Lemma store_inv_ext st st' :
  store_inv st → loads st' = loads st → (nextController st ≤ nextController st')%nat →
  inFlight st' = inFlight st → aborted st ⊆ aborted st' →
  (commitSeq (signals st) ≤ commitSeq (signals st'))%nat → store_inv st'.
Proof.
  intros (H1 & H2 & H3 & H4) E1 E2 E3 E4 E5. unfold store_inv. rewrite E1, E3.
  split; [done|]. split; [|split]; intros p Hp.
  - apply H2 in Hp. lia.
  - destruct (H3 p Hp); auto.
  - apply H4 in Hp. lia.
Qed.
Lemma load_begin_inv st s : store_inv st → store_inv (load_begin st s false).1.
Proof.
  intros (H1 & H2 & H3 & H4). split; [|split; [|split]]; simpl.
  - rewrite fmap_app. apply NoDup_app. split; [done|]. split; [|apply NoDup_singleton].
    intros a (p & -> & Hp)%list_elem_of_fmap E%list_elem_of_singleton. simpl in E.
    apply H2 in Hp. lia.
  - intros p [Hp|Hp]%elem_of_app; [apply H2 in Hp; lia|].
    apply list_elem_of_singleton in Hp as ->. simpl. lia.
  - intros p [Hp|Hp]%elem_of_app; [|apply list_elem_of_singleton in Hp as ->; by left].
    right. apply elem_of_app. destruct (H3 p Hp) as [->|Hab]; [left; simpl; by left|by right].
  - intros p [Hp|Hp]%elem_of_app; [by apply H4|]. by apply list_elem_of_singleton in Hp as ->.
Qed.
Lemma store_step_inv st e st' o : store_inv st → step st e = Some (st', o) → store_inv st'.
Proof.
  intros Hinv. destruct e as [s ab|ac|ac res|ac ab r|s c d|i sv|i|cl|ab|ac rs|ac]; cbn [step].
  - destruct ab; [by intros [= <- _]|]. intros [= <- _]. by apply (load_begin_inv st s).
  - case_decide; [|done]. intros [= <- _]. eapply store_inv_ext; try done. simpl. set_solver.
  - destruct (pending_load st ac) as [p|]; [|done]. intros [= <- _].
    apply load_finally_inv; [done|apply load_ok_seq].
  - destruct (pending_load st ac) as [p|]; [|done]. intros [= <- _].
    apply load_finally_inv; [done|]. by rewrite load_catch_seq.
  - unfold save_begin. repeat case_match; intros [= <- _]; try done.
    eapply store_inv_ext; try done. simpl. lia.
  - destruct (pending_save st i) as [p|]; [|done]. intros [= <- _].
    eapply store_inv_ext; try done. simpl. lia.
  - destruct (pending_save st i) as [p|]; [|done]. intros [= <- _]. by eapply store_inv_ext.
  - intros [= <- _]. by eapply store_inv_ext.
  - destruct ab; [by intros [= <- _]|]. intros [= <- _].
    eapply store_inv_ext; try done; simpl; [lia|set_solver].
  - case_decide; [|done]. intros [= <- _]. by eapply store_inv_ext.
  - case_decide; [|done]. intros [= <- _]. by eapply store_inv_ext.
Qed.
Lemma store_run_inv st es st' os : store_inv st → run st es = Some (st', os) → store_inv st'.
Proof.
  revert st os. induction es as [|e es IH]; intros st os Hinv; cbn [run]; [by intros [= <- _]|].
  destruct (step st e) as [[st1 o]|] eqn:E; [|done]. cbn [mbind option_bind].
  destruct (run st1 es) as [[st2 os']|] eqn:Er; [|done]. intros [= <- _].
  by eapply IH, Er; eapply store_step_inv.
Qed.

(** A step only ever adds the load it starts to the pending ones. *)
Lemma step_loads st e st' o p :
  step st e = Some (st', o) → p ∈ loads st' → p ∈ loads st ∨ ld_ac p = nextController st.
Proof.
  destruct e as [s ab|ac|ac res|ac ab r|s c d|i sv|i|cl|ab|ac rs|ac]; cbn [step].
  - destruct ab; intros [= <- _]; simpl; [by left|]. rewrite elem_of_app, list_elem_of_singleton.
    intros [?| ->]; [by left|by right].
  - case_decide; [|done]. intros [= <- _]. by left.
  - destruct (pending_load st ac); [|done]. intros [= <- _] [_ ?]%list_elem_of_filter. by left.
  - destruct (pending_load st ac); [|done]. intros [= <- _] [_ ?]%list_elem_of_filter. by left.
  - unfold save_begin. repeat case_match; intros [= <- _]; by left.
  - destruct (pending_save st i); [|done]. intros [= <- _]. by left.
  - destruct (pending_save st i); [|done]. intros [= <- _]. by left.
  - intros [= <- _]. by left.
  - destruct ab; intros [= <- _]; by left.
  - case_decide; [|done]. intros [= <- _]. by left.
  - case_decide; [|done]. intros [= <- _]. by left.
Qed.
Lemma step_counters st e st' o :
  step st e = Some (st', o) →
  (nextController st ≤ nextController st')%nat ∧
  (commitSeq (signals st) + match e with SaveOk _ _ => 1 | _ => 0 end
     ≤ commitSeq (signals st'))%nat.
Proof.
  destruct e as [s ab|ac|ac res|ac ab r|s c d|i sv|i|cl|ab|ac rs|ac]; cbn [step].
  - destruct ab; intros [= <- _]; simpl; lia.
  - case_decide; [|done]. intros [= <- _]. simpl. lia.
  - destruct (pending_load st ac) as [p|]; [|done]. intros [= <- _]. simpl.
    pose proof (load_ok_seq st p res). lia.
  - destruct (pending_load st ac) as [p|]; [|done]. intros [= <- _]. simpl.
    rewrite load_catch_seq. lia.
  - unfold save_begin. repeat case_match; intros [= <- _]; simpl; lia.
  - destruct (pending_save st i); [|done]. intros [= <- _]. simpl. lia.
  - destruct (pending_save st i); [|done]. intros [= <- _]. simpl. lia.
  - intros [= <- _]. simpl. lia.
  - destruct ab; intros [= <- _]; simpl; lia.
  - case_decide; [|done]. intros [= <- _]. simpl. lia.
  - case_decide; [|done]. intros [= <- _]. simpl. lia.
Qed.

Definition is_save_ok (e : event) : bool := match e with SaveOk _ _ => true | _ => false end.
Lemma run_counters st es st' os :
  run st es = Some (st', os) →
  (nextController st ≤ nextController st')%nat ∧
  (commitSeq (signals st) + length (filter is_save_ok es) ≤ commitSeq (signals st'))%nat ∧
  (∀ p, p ∈ loads st' → ld_ac p < nextController st → p ∈ loads st)%nat.
Proof.
  revert st os. induction es as [|e es IH]; intros st os; cbn [run].
  { intros [= <- _]. rewrite filter_nil. simpl. split; [lia|]. split; [lia|auto]. }
  destruct (step st e) as [[st1 o]|] eqn:E; [|done]. cbn [mbind option_bind].
  destruct (run st1 es) as [[st2 os']|] eqn:Er; [|done]. intros [= <- _].
  apply IH in Er as (H1 & H2 & H3). destruct (step_counters _ _ _ _ E) as [H4 H5].
  split; [lia|]. split.
  - rewrite filter_cons. destruct e; simpl in *; lia.
  - intros p Hp Hlt. apply H3 in Hp; [|lia]. apply (step_loads _ _ _ _ _ E) in Hp as [?|?]; [done|lia].
Qed.

Definition settles (ac : nat) (e : event) : Prop :=
  (∃ res, e = LoadOk ac res) ∨ (∃ ab r, e = LoadErr ac ab r).
(** A settling load that is aborted or overtaken leaves the signals alone. *)
Lemma settle_discarded st ac e st' o p :
  settles ac e → step st e = Some (st', o) → pending_load st ac = Some p →
  ac ∈ aborted st ∨ commitSeq (signals st) ≠ ld_startedAt p →
  signals st' = signals st.
Proof.
  intros [[res ->]|(ab & r & ->)]; cbn [step]; intros Hs Hp Hd; rewrite Hp in Hs;
    injection Hs as <- _; simpl; pose proof (pending_load_Some _ _ _ Hp) as [_ <-].
  - unfold load_ok. case_bool_decide; [done|]. destruct (Nat.eqb_spec (commitSeq (signals st)) (ld_startedAt p)); [tauto|done].
  - unfold load_catch. case_bool_decide; [done|]. destruct ab; [done|].
    destruct (Nat.eqb_spec (commitSeq (signals st)) (ld_startedAt p)); [tauto|done].
Qed.
Lemma settle_pending st ac e st' o :
  settles ac e → step st e = Some (st', o) → ∃ p, pending_load st ac = Some p.
Proof.
  intros [[res ->]|(ab & r & ->)]; cbn [step];
    (destruct (pending_load st ac) as [p|]; [by exists p|done]).
Qed.

(** Without an observation, nothing but a committed read or write restores one. *)
Definition commits (e : event) : bool :=
  match e with LoadOk _ _ | SaveOk _ _ => true | _ => false end.
(** A write asked for is refused, as it describes no completed load, and none is sent. *)
Definition refuses (e : event) (o : output) : Prop :=
  match e with
  | Save s _ _ => ∃ cluster, o = StaleLayoutScopeError s cluster None
  | _ => ∀ s c r cfg, o ≠ Put s c r cfg
  end.
Lemma step_blind st e st' o :
  observed (signals st) = None → commits e = false → step st e = Some (st', o) →
  observed (signals st') = None ∧ refuses e o.
Proof.
  intros Hobs. destruct e as [s ab|ac|ac res|ac ab r|s c d|i sv|i|cl|ab|ac rs|ac]; cbn [commits step];
    intros Hc; try done.
  - destruct ab; intros [= <- <-]; done.
  - case_decide; [|done]. by intros [= <- <-].
  - destruct (pending_load st ac) as [p|]; [|done]. intros [= <- <-]. simpl. split; [|done].
    unfold load_catch. by repeat case_match.
  - unfold save_begin. rewrite Hobs. intros [= <- <-]. split; [done|by eexists].
  - destruct (pending_save st i); [|done]. by intros [= <- <-].
  - by intros [= <- <-].
  - destruct ab; by intros [= <- <-].
  - case_decide; [|done]. by intros [= <- <-].
  - case_decide; [|done]. by intros [= <- <-].
Qed.
Lemma run_blind st es st' os :
  observed (signals st) = None → Forall (λ e, commits e = false) es → run st es = Some (st', os) →
  Forall2 refuses es os.
Proof.
  intros Hobs Hes. revert st os Hobs. induction Hes as [|e es He Hes IH]; intros st os Hobs; cbn [run].
  { intros [= _ <-]. constructor. }
  destruct (step st e) as [[st1 o]|] eqn:E; [|done]. cbn [mbind option_bind].
  destruct (run st1 es) as [[st2 os']|] eqn:Er; [|done]. intros [= <- <-].
  apply step_blind in E as [H1 H2]; [|done..]. constructor; [done|]. by eapply IH.
Qed.
End Store.

Lemma dropUnknownWidgets_inv gw config :
  let d := dropUnknownWidgets gw config in
  config_items (dropped_config d) = filter (λ it, item_fate gw it = kept_item) (config_items config) ∧
  scope (dropped_config d) = scope config ∧ columns (dropped_config d) = columns config ∧
  (∃ missing unfilled, warnings d = (msg_missing <$> missing) ++ (msg_unfilled <$> unfilled) ∧
     NoDup missing ∧ NoDup unfilled ∧
     (∀ wid, wid ∈ missing ↔ with_fate gw missing_widget (config_items config) wid) ∧
     (∀ wid, wid ∈ unfilled ↔ with_fate gw unfilled_params (config_items config) wid)) ∧
  (warnings d = [] → dropped_config d = config).
Proof.
  unfold dropUnknownWidgets.
  destruct (foldl (drop_step gw) ([], [], []) (config_items config)) as [[kept missing] unfilled] eqn:E.
  apply drop_fold in E as (-> & Hm & Hu & Em & Eu); [|constructor..]. simpl.
  assert (Em' : ∀ wid, wid ∈ missing ↔ with_fate gw missing_widget (config_items config) wid).
  { intros wid. rewrite Em, elem_of_nil. tauto. }
  assert (Eu' : ∀ wid, wid ∈ unfilled ↔ with_fate gw unfilled_params (config_items config) wid).
  { intros wid. rewrite Eu, elem_of_nil. tauto. }
  split; [done|]. split; [done|]. split; [done|]. split; [by exists missing, unfilled|].
  intros [Hm0%fmap_nil_inv Hu0%fmap_nil_inv]%app_nil. subst. destruct config as [sv sc cols items].
  unfold with_items. simpl in *. f_equal. apply filter_all, Forall_forall. intros it Hit.
  destruct (item_fate gw it) eqn:Ef; [done|exfalso..].
  - apply (elem_of_nil (A:=jstring) (id it)), Em'. by exists it.
  - apply (elem_of_nil (A:=jstring) (id it)), Eu'. by exists it.
Qed.


(** ** Properties *)

(** C8. A slow read never undoes a save: if any save commits while a read is in
    flight, the read's answer, success or failure, changes no signal when it
    finally lands. *)
Theorem load_never_rolls_back gw st0 s st1 out es st2 os e st3 o :
  store_inv st0 → step gw st0 (Load s false) = Some (st1, out) →
  run gw st1 es = Some (st2, os) → (∃ i saved, SaveOk i saved ∈ es) →
  settles (nextController st0) e → step gw st2 e = Some (st3, o) →
  signals st3 = signals st2.
Proof.
  intros Hinv H0 Hrun (i & saved & Hin) Hse H3.
  destruct (settle_pending _ _ _ _ _ _ Hse H3) as [p Hp].
  eapply settle_discarded; [done..|]. right.
  pose proof (store_step_inv _ _ _ _ _ Hinv H0) as Hinv1.
  cbn [step] in H0. injection H0 as <- <-.
  apply pending_load_Some in Hp as [Hp Hac].
  apply run_counters in Hrun as (_ & Hseq & Hold). apply Hold in Hp; [|simpl; lia].
  simpl in Hp. apply elem_of_app in Hp as [Hp|Hp%list_elem_of_singleton].
  { destruct Hinv as (_ & Hlt & _). apply Hlt in Hp. lia. }
  subst p. simpl in *.
  assert (1 ≤ length (filter is_save_ok es))%nat; [|lia].
  apply list_elem_of_split in Hin as (l1 & l2 & ->).
  rewrite filter_app, length_app, filter_cons. simpl. lia.
Qed.

(** Only the newest read may write: in every reachable state, a pending
    read that is not the one in flight has been aborted, and settling it
    changes no signal. *)
Theorem only_newest_load_writes gw cluster es st os ac e st' o :
  run gw (initial cluster) es = Some (st, os) →
  inFlight st ≠ Some ac → settles ac e → step gw st e = Some (st', o) →
  signals st' = signals st.
Proof.
  intros Hrun Hne Hse Hs. apply store_run_inv in Hrun as (_ & _ & Hfl & _); [|apply initial_inv].
  destruct (settle_pending _ _ _ _ _ _ Hse Hs) as [p Hp].
  eapply settle_discarded; [done..|]. left. apply pending_load_Some in Hp as [Hp <-].
  destruct (Hfl p Hp); [done|done].
Qed.

(** C17. A write that failed may have been stored, so the store no longer knows
    what it would be replacing: until the answer of another read or write is
    taken in, no write is sent whatever happens, and every one that is asked for
    is refused as describing no completed load. *)
Theorem failed_save_blinds gw st i st1 o es st2 os :
  step gw st (SaveErr i) = Some (st1, o) →
  Forall (λ e, commits e = false) es → run gw st1 es = Some (st2, os) →
  Forall2 refuses es os.
Proof.
  cbn [step]. destruct (pending_save st i); [|done]. intros [= <- _] Hes.
  by apply run_blind.
Qed.

(** Reading a stored layout keeps, in order, exactly the placements this
    build can draw, and warns once for each widget it dropped: no warning
    means nothing was dropped. *)
Theorem dropUnknownWidgets_spec gw config :
  let d := dropUnknownWidgets gw config in
  config_items (dropped_config d) = filter (λ it, item_fate gw it = kept_item) (config_items config) ∧
  scope (dropped_config d) = scope config ∧ columns (dropped_config d) = columns config ∧
  (∃ missing unfilled, warnings d = (msg_missing <$> missing) ++ (msg_unfilled <$> unfilled) ∧
     NoDup missing ∧ NoDup unfilled ∧
     (∀ wid, wid ∈ missing ↔ with_fate gw missing_widget (config_items config) wid) ∧
     (∀ wid, wid ∈ unfilled ↔ with_fate gw unfilled_params (config_items config) wid)) ∧
  (warnings d = [] → dropped_config d = config).
Proof. apply dropUnknownWidgets_inv. Qed.

(** Every layout offered for copying is another cluster's, of this
    dashboard, this schema and this grid, not empty, and holds only placements
    this build can draw; rows keep the endpoint's order. *)
Theorem copyableLayouts_spec gw records s current cols c :
  c ∈ copyableLayouts gw records s current cols →
  copy_clusterId c ≠ current ∧ scope (copy_config c) = scope_text s ∧
  schemaVersion (copy_config c) = DASHBOARD_LAYOUT_SCHEMA_VERSION ∧
  columns (copy_config c) = cols ∧ config_items (copy_config c) ≠ [] ∧
  Forall (λ it, item_fate gw it = kept_item) (config_items (copy_config c)) ∧
  ∃ r cfg, r ∈ records ∧ res_config r = Some cfg ∧ copy_id c = res_id r ∧
    (copy_warnings c = [] → copy_config c = cfg ∧ default [] (withheld r) = []).
Proof.
  unfold copyableLayouts. intros (r & Hr & Hc)%list_elem_of_omap. unfold copyable in Hc.
  destruct (js_eqb (clusterId r) current) eqn:Ecl; [done|].
  destruct (res_config r) as [cfg|] eqn:Ecfg; [|done]. cbn [mbind option_bind] in Hc.
  destruct (js_eqb (scope cfg) (scope_text s)) eqn:Esc; [|done]. cbn [negb] in Hc.
  destruct (schemaVersion cfg =? _) eqn:Ev; [|done]. destruct (columns cfg =? cols) eqn:Eco; [|done].
  cbn [negb orb] in Hc. destruct (dropUnknownWidgets_inv gw cfg) as (Hk & Hs & Hcol & _ & Hnone).
  apply js_eqb_eq in Esc. apply Z.eqb_eq in Ev, Eco.
  assert (Hsv : schemaVersion (dropped_config (dropUnknownWidgets gw cfg)) = schemaVersion cfg).
  { unfold dropUnknownWidgets. by destruct (foldl _ _ _) as [[? ?] ?]. }
  destruct (config_items (dropped_config (dropUnknownWidgets gw cfg))) as [|it its] eqn:Eit; [done|].
  injection Hc as <-. simpl. rewrite Hs, Hcol, Hsv, Eit.
  split; [intros E; by rewrite E, (proj2 (js_eqb_eq _ _) eq_refl) in Ecl|].
  do 3 (split; [done|]). split; [done|].
  split; [rewrite Hk; apply Forall_forall; by intros ? [? _]%list_elem_of_filter|].
  exists r, cfg. do 3 (split; [done|]). intros [Hw Hh]%app_nil. split; [by apply Hnone|].
  by destruct (default [] (withheld r)).
Qed.

(** The store files a read under the cluster selected when the answer
    lands, not the one the request was addressed to: switching in between
    makes the next save on the new cluster claim the old cluster's revision. *)
Example load_observes_landing_cluster gw config :
  let res := {| res_id := "r"%js; clusterId := "prod"%js; clusterLabel := None;
                updatedAt := ""%js; res_revision := 7; res_config := Some DEFAULT_OVERVIEW_LAYOUT;
                withheld := None |} in
  ∃ st,
    run gw (initial "prod"%js)
      [Load overview false; Switch "staging"%js; LoadOk 0 (Some res); Save overview config false]
    = Some (st, [Get overview "prod"%js; Nothing; Nothing; Put overview "staging"%js 7 config]).
Proof. eexists. cbn. reflexivity. Qed.

(** ** Witnesses *)

Definition demo_catalog : jstring → option WidgetDef := getWidget [nodes_def; signals_def].
Definition stored (cluster : jstring) (rev : Z) (items : list LayoutItem) : LayoutResponse :=
  {| res_id := "r"%js; clusterId := cluster; clusterLabel := None; updatedAt := ""%js;
     res_revision := rev; res_config := Some (with_items DEFAULT_OVERVIEW_LAYOUT items);
     withheld := None |}.
Definition demo_items : list LayoutItem :=
  [default_item "a"%js "nodes"%js 0 0 4 4; default_item "b"%js "retired"%js 4 0 4 4;
   default_item "c"%js "golden-signals"%js 8 0 4 4].
Definition state_after (es : list event) : StoreState :=
  match run demo_catalog (initial "prod"%js) es with
  | Some (st, _) => st
  | None => initial "prod"%js
  end.
Definition warm : list event := [Load overview false; LoadOk 0 None].
Definition racing : list event :=
  [Save overview DEFAULT_OVERVIEW_LAYOUT false; SaveOk 2 (stored "prod"%js 1 [])].

Lemma load_never_rolls_back_witness :
  ∃ st3 o, step demo_catalog (state_after (warm ++ Load overview false :: racing))
             (LoadOk 1 (Some (stored "prod"%js 9 demo_items))) = Some (st3, o) ∧
           signals st3 = signals (state_after (warm ++ Load overview false :: racing)).
Proof.
  eexists _, Nothing. split; [vm_compute; reflexivity|].
  refine (load_never_rolls_back demo_catalog (state_after warm) overview
    (state_after (warm ++ [Load overview false])) (Get overview "prod"%js) racing
    (state_after (warm ++ Load overview false :: racing))
    [Put overview "prod"%js 0 DEFAULT_OVERVIEW_LAYOUT; Nothing]
    (LoadOk 1 (Some (stored "prod"%js 9 demo_items))) _ Nothing _ _ _ _ _ _).
  - eapply (store_run_inv demo_catalog (initial "prod"%js) warm); [apply initial_inv|].
    vm_compute. reflexivity.
  - vm_compute. reflexivity.
  - vm_compute. reflexivity.
  - exists 2%nat, (stored "prod"%js 1 []). right. left.
  - left. by exists (Some (stored "prod"%js 9 demo_items)).
  - vm_compute. reflexivity.
Defined.
Definition two_loads : list event := [Load overview false; Load overview false].
Lemma only_newest_load_writes_witness :
  ∃ st' o, step demo_catalog (state_after two_loads) (LoadOk 0 None) = Some (st', o) ∧
           signals st' = signals (state_after two_loads).
Proof.
  eexists _, Nothing. split; [vm_compute; reflexivity|].
  apply (only_newest_load_writes demo_catalog "prod"%js two_loads (state_after two_loads)
    [Get overview "prod"%js; Get overview "prod"%js] 0 (LoadOk 0 None) _ Nothing).
  - vm_compute. reflexivity.
  - vm_compute. discriminate.
  - left. by exists None.
  - vm_compute. reflexivity.
Defined.
Definition saving : list event := warm ++ [Save overview DEFAULT_OVERVIEW_LAYOUT false].
Definition retrying : list event :=
  [Save overview DEFAULT_OVERVIEW_LAYOUT false; Load overview false; LoadErr 2 false None;
   Save overview DEFAULT_OVERVIEW_LAYOUT false].
Lemma failed_save_blinds_witness :
  ∃ os, (∃ st, run demo_catalog (state_after (saving ++ [SaveErr 1])) retrying = Some (st, os)) ∧
        Forall2 refuses retrying os.
Proof.
  eexists. split; [eexists; vm_compute; reflexivity|].
  eapply (failed_save_blinds demo_catalog (state_after saving) 1
    (state_after (saving ++ [SaveErr 1])) Nothing retrying).
  - vm_compute. reflexivity.
  - repeat constructor.
  - vm_compute. reflexivity.
Defined.
Lemma copyableLayouts_spec_witness :
  ∃ c, c ∈ copyableLayouts demo_catalog [stored "staging"%js 3 demo_items] overview "prod"%js 12 ∧
       copy_clusterId c ≠ "prod"%js ∧ config_items (copy_config c) ≠ [].
Proof.
  assert (∃ c, c ∈ copyableLayouts demo_catalog [stored "staging"%js 3 demo_items]
    overview "prod"%js 12) as [c Hc].
  { eexists. vm_compute. left. }
  exists c. split; [done|].
  pose proof (copyableLayouts_spec demo_catalog [stored "staging"%js 3 demo_items] overview
    "prod"%js 12 c Hc) as (H1 & _ & _ & _ & H2 & _). done.
Defined.
