(* ===== verification/LayoutServer.v ===== *)
(** * The layout store and its server: layout-store.ts with
    backend/internal/preferences/handler.go

    The store of LayoutStore.v run against the preferences service, other
    sessions writing to the same records included. A request is handled by the
    server at some moment between its sending and the landing of its answer,
    and an answer may be lost. The abstract specification is a register per
    cluster that this client replaces only after having been shown, in full,
    exactly the version it replaces. The store files an answer under the cluster
    selected when it lands, so this holds of the runs in which that is the
    cluster that was asked; a run with a switch in between is shown to break it. *)

From stdpp Require Import base list strings gmap sorting.
From Stdlib Require Import ZArith Lia.
From S2P Require Import Prelude JsValue Types Params Grid EditSession Registry LayoutValidate LayoutStore.

Open Scope Z_scope.

(** ** The server *)

(** A stored layout: the columns of its row the client is answered with. *)
Record LayoutRec := {
  rec_id : jstring;
  rec_updatedAt : jstring;
  rec_revision : Z;
  rec_config : DashboardLayoutConfig
}.
(** What is stored for a cluster, [None] when nothing is; the claim that
    matches it is its revision, 0 for nothing. *)
Definition version_revision (v : option LayoutRec) : Z :=
  match v with Some r => rec_revision r | None => 0 end.

(** The walk over the placements: the ones naming a namespace the caller may
    not see, or naming none where one is called for, are withheld. *)
Definition withheld_item (allow : jstring → bool) (it : LayoutItem) : bool :=
  match assoc PARAM_KEY_NAMESPACE (default [] (params it)) with
  | None => false
  | Some ns => js_eqb ns ""%js || negb (allow ns)
  end.
Definition withholdNamespaces (config : DashboardLayoutConfig) (allow : jstring → bool)
    : DashboardLayoutConfig * list jstring :=
  let ids := instanceId <$> filter (λ it, withheld_item allow it = true) (config_items config) in
  match ids with
  | [] => (config, [])
  | _ => (with_items config (filter (λ it, withheld_item allow it = false) (config_items config)), ids)
  end.
(** A 204 is [None]. An empty list of withheld placements is left out of the
    body. *)
Definition HandleGetLayout (cluster : jstring) (v : option LayoutRec) (allow : jstring → bool)
    : option LayoutResponse :=
  rec ← v;
  let '(filtered, ids) := withholdNamespaces (rec_config rec) allow in
  Some {| res_id := rec_id rec; clusterId := cluster; clusterLabel := None;
          updatedAt := rec_updatedAt rec; res_revision := rec_revision rec;
          res_config := Some filtered;
          withheld := match ids with [] => None | _ => Some ids end |}.

(** The row after the request, [None] when it is refused. [id] and [now] are
    what the database generates. The read and the write of the handler are one
    step, the write: each write checks again what the read decided by. *)
Definition HandleSaveLayout (s : DashboardScope) (v : option LayoutRec) (revision : Z)
    (config : DashboardLayoutConfig) (id now : jstring) : option LayoutRec :=
  if revision <? 0 then None else
  normalized ← match ValidateDashboardLayout config with inl _ => None | inr cfg => Some cfg end;
  if negb (js_eqb (scope normalized) (scope_text s)) then None else
  match v with
  | None =>
      if revision =? 0 then
        Some {| rec_id := id; rec_updatedAt := now; rec_revision := 1; rec_config := normalized |}
      else None
  | Some existing =>
      if revision =? 0 then None
      else if revision =? rec_revision existing then
        Some {| rec_id := rec_id existing; rec_updatedAt := now;
                rec_revision := rec_revision existing + 1; rec_config := normalized |}
      else None
  end.

(** ** The register it implements *)

(** Every version each cluster ever had, newest first, and the versions this
    client has been shown in full. *)
Record Register := {
  versions : jstring → list (option LayoutRec);
  seen : list (jstring * option LayoutRec)
}.
Definition current (g : Register) (c : jstring) : option LayoutRec := default None (head (versions g c)).
Definition push_version (g : Register) (c : jstring) (rec : LayoutRec) : Register :=
  {| versions := λ c', if decide (c' = c) then Some rec :: versions g c' else versions g c';
     seen := seen g |}.
Definition show_version (g : Register) (c : jstring) (v : option LayoutRec) : Register :=
  {| versions := versions g; seen := (c, v) :: seen g |}.

Inductive label := Stutter | Show (c : jstring) | Replace (c : jstring) | Other (c : jstring).
Inductive reg_step : label → Register → Register → Prop :=
  | reg_stutter g : reg_step Stutter g g
  | reg_show g c v : v ∈ versions g c → reg_step (Show c) g (show_version g c v)
  | reg_replace g c rec :
      (c, current g c) ∈ seen g → rec_revision rec = version_revision (current g c) + 1 →
      reg_step (Replace c) g (push_version g c rec)
  | reg_other g c rec :
      rec_revision rec = version_revision (current g c) + 1 →
      reg_step (Other c) g (push_version g c rec).
Inductive reg_run : Register → list label → Register → Prop :=
  | reg_done g : reg_run g [] g
  | reg_more g l g' ls g'' : reg_step l g g' → reg_run g' ls g'' → reg_run g (l :: ls) g''.

(** ** The whole system *)

Section Server.
Variable getWidget : jstring → option WidgetDef.

(** A read the server has answered, and what it answered from. *)
Record Reply := {
  rp_ac : nat; rp_cluster : jstring; rp_version : option LayoutRec; rp_allow : jstring → bool
}.
(** A write on its way, and one the server has applied. *)
Record PutMsg := {
  pm_id : nat; pm_scope : DashboardScope; pm_cluster : jstring; pm_revision : Z;
  pm_config : DashboardLayoutConfig
}.
Record AckMsg := { ak_id : nat; ak_cluster : jstring; ak_rec : LayoutRec }.
Record System := {
  store : StoreState;
  reg : Register;
  replies : list Reply;
  puts : list PutMsg;
  acks : list AckMsg
}.

(** The events that carry nothing of the server's. *)
Definition client_event (e : event) : bool :=
  match e with LoadOk _ _ | SaveOk _ _ => false | _ => true end.
Inductive sys_event :=
  | Client (e : event)
  | Answer (ac : nat) (allow : jstring → bool)
  | Deliver (ac : nat)
  | Apply (i : nat) (id now : jstring)
  | Ack (i : nat)
  | OtherSession (c : jstring) (rec : LayoutRec).

Definition reply_complete (r : Reply) : bool :=
  match rp_version r with
  | None => true
  | Some rec => bool_decide ((withholdNamespaces (rec_config rec) (rp_allow r)).2 = [])
  end.

(** [None] when there is no such message. *)
Definition sys_step (s : System) (e : sys_event) : option (System * label) :=
  match e with
  | Client ev =>
      if negb (client_event ev) then None else
      '(st, o) ← step getWidget (store s) ev;
      let sent := match o with
        | Put sc c r cfg => [{| pm_id := nextController (store s); pm_scope := sc; pm_cluster := c;
                                pm_revision := r; pm_config := cfg |}]
        | _ => []
        end in
      Some ({| store := st; reg := reg s; replies := replies s; puts := puts s ++ sent;
               acks := acks s |}, Stutter)
  | Answer ac allow =>
      p ← pending_load (store s) ac;
      Some ({| store := store s; reg := reg s;
               replies := {| rp_ac := ac; rp_cluster := ld_cluster p;
                             rp_version := current (reg s) (ld_cluster p); rp_allow := allow |}
                          :: replies s;
               puts := puts s; acks := acks s |}, Stutter)
  | Deliver ac =>
      r ← head (filter (λ r, rp_ac r = ac) (replies s));
      '(st, _) ← step getWidget (store s)
                   (LoadOk ac (HandleGetLayout (rp_cluster r) (rp_version r) (rp_allow r)));
      let g := if reply_complete r then show_version (reg s) (rp_cluster r) (rp_version r) else reg s in
      Some ({| store := st; reg := g; replies := replies s; puts := puts s; acks := acks s |},
            if reply_complete r then Show (rp_cluster r) else Stutter)
  | Apply i id now =>
      m ← head (filter (λ m, pm_id m = i) (puts s));
      let c := pm_cluster m in
      let rest := filter (λ m, pm_id m ≠ i) (puts s) in
      Some match HandleSaveLayout (pm_scope m) (current (reg s) c) (pm_revision m) (pm_config m) id now with
      | Some rec =>
          ({| store := store s; reg := push_version (reg s) c rec; replies := replies s;
              puts := rest; acks := {| ak_id := i; ak_cluster := c; ak_rec := rec |} :: acks s |},
           Replace c)
      | None =>
          ({| store := store s; reg := reg s; replies := replies s; puts := rest; acks := acks s |},
           Stutter)
      end
  | Ack i =>
      a ← head (filter (λ a, ak_id a = i) (acks s));
      '(st, _) ← step getWidget (store s)
        (SaveOk i {| res_id := rec_id (ak_rec a); clusterId := ak_cluster a; clusterLabel := None;
                     updatedAt := rec_updatedAt (ak_rec a); res_revision := rec_revision (ak_rec a);
                     res_config := Some (rec_config (ak_rec a)); withheld := None |});
      Some ({| store := st; reg := show_version (reg s) (ak_cluster a) (Some (ak_rec a));
               replies := replies s; puts := puts s; acks := acks s |}, Show (ak_cluster a))
  | OtherSession c rec =>
      if rec_revision rec =? version_revision (current (reg s) c) + 1 then
        Some ({| store := store s; reg := push_version (reg s) c rec; replies := replies s;
                 puts := puts s; acks := acks s |}, Other c)
      else None
  end.
Fixpoint sys_run (s : System) (es : list sys_event) : option (System * list label) :=
  match es with
  | [] => Some (s, [])
  | e :: es' =>
      '(s1, l) ← sys_step s e;
      '(s2, ls) ← sys_run s1 es';
      Some (s2, l :: ls)
  end.
Definition sys_initial (cluster : jstring) (db : jstring → option LayoutRec) : System :=
  {| store := initial cluster; reg := {| versions := λ c, [db c]; seen := [] |};
     replies := []; puts := []; acks := [] |}.

(** A read lands while the cluster it was asked of is the selected one. *)
Definition lands_home (s : System) (e : sys_event) : Prop :=
  match e with
  | Deliver ac => ∀ r, head (filter (λ r, rp_ac r = ac) (replies s)) = Some r → rp_cluster r = selectedCluster (store s)
  | _ => True
  end.
(** No read lands after a switch to another cluster, all along a run. *)
Fixpoint reads_land_home (s : System) (es : list sys_event) : Prop :=
  match es with
  | [] => True
  | e :: es' => lands_home s e ∧ ∀ s1 l, sys_step s e = Some (s1, l) → reads_land_home s1 es'
  end.

(** ** The invariant *)

(** Revisions only grow, so a version is determined by its revision. *)
Definition register_ok (g : Register) : Prop :=
  (∀ c v, v ∈ versions g c → version_revision v ≤ version_revision (current g c) ∧
     (version_revision v = version_revision (current g c) → v = current g c)) ∧
  (∀ c, current g c ∈ versions g c) ∧
  (∀ c v, (c, v) ∈ seen g → v ∈ versions g c).
(** The client has been shown the version of [c] it would claim as [r]. *)
Definition has_seen (g : Register) (c : jstring) (r : Z) : Prop :=
  ∃ v, (c, v) ∈ seen g ∧ version_revision v = r.
(** A request of [id] on the wire is for the cluster its call captured. *)
Definition save_matches (st : StoreState) (id : nat) (c : jstring) : Prop :=
  (id < nextController st)%nat ∧ ∀ p, p ∈ saves st → sv_id p = id → sv_cluster p = c.
Definition load_matches (st : StoreState) (ac : nat) (c : jstring) : Prop :=
  (ac < nextController st)%nat ∧ ∀ p, p ∈ loads st → ld_ac p = ac → ld_cluster p = c.
Definition sys_inv (s : System) : Prop :=
  store_inv (store s) ∧ register_ok (reg s) ∧
  (∀ p, p ∈ saves (store s) → sv_id p < nextController (store s))%nat ∧
  (∀ o, observed (signals (store s)) = Some o → layoutWithheld (signals (store s)) = [] →
     has_seen (reg s) (obs_cluster o) (layoutRevision (signals (store s)))) ∧
  (∀ r, r ∈ replies s → load_matches (store s) (rp_ac r) (rp_cluster r) ∧
     rp_version r ∈ versions (reg s) (rp_cluster r)) ∧
  (∀ m, m ∈ puts s → save_matches (store s) (pm_id m) (pm_cluster m) ∧
     has_seen (reg s) (pm_cluster m) (pm_revision m)) ∧
  (∀ a, a ∈ acks s → save_matches (store s) (ak_id a) (ak_cluster a) ∧
     Some (ak_rec a) ∈ versions (reg s) (ak_cluster a)).

Lemma current_push g c rec c' :
  current (push_version g c rec) c' = if decide (c' = c) then Some rec else current g c'.
Proof. unfold current, push_version. cbn. by case_decide. Qed.
Lemma push_elem g c rec c' v : v ∈ versions g c' → v ∈ versions (push_version g c rec) c'.
Proof. unfold push_version. cbn. case_decide; [by right|done]. Qed.
Lemma push_ok g c rec : register_ok g →
  rec_revision rec = version_revision (current g c) + 1 → register_ok (push_version g c rec).
Proof.
  intros (H1 & H2 & H3) Hr. split_and!.
  - intros c' v. rewrite current_push. unfold push_version. cbn. case_decide as E; [subst|apply H1].
    intros [->|Hv]%elem_of_cons; [done|]. apply H1 in Hv as [Hle _]. cbn [version_revision].
    rewrite Hr. split; lia.
  - intros c'. rewrite current_push. unfold push_version. cbn. case_decide; [by left|apply H2].
  - intros c' v Hv. apply push_elem. by apply H3.
Qed.
Lemma show_ok g c v : register_ok g → v ∈ versions g c → register_ok (show_version g c v).
Proof.
  intros (H1 & H2 & H3) Hv. split_and!; [done|done|].
  intros c' v'. cbn. rewrite elem_of_cons. intros [[= -> ->]|?]; [done|by apply H3].
Qed.
Lemma has_seen_push g c rec c' r : has_seen g c' r → has_seen (push_version g c rec) c' r.
Proof. done. Qed.
Lemma has_seen_show g c v c' r : has_seen g c' r → has_seen (show_version g c v) c' r.
Proof. intros (w & Hw & Hr). exists w. split; [by right|done]. Qed.

Lemma NoDup_fmap_eq {A B} (f : A → B) l x y :
  NoDup (f <$> l) → x ∈ l → y ∈ l → f x = f y → x = y.
Proof.
  intros Hnd [i Hi]%list_elem_of_lookup [j Hj]%list_elem_of_lookup E.
  assert (i = j) as ->; [|congruence].
  eapply (NoDup_lookup _ i j (f x) Hnd); rewrite list_lookup_fmap; [by rewrite Hi|by rewrite Hj, E].
Qed.

(** What an event of the client's own does to what it knows and has asked. *)
Lemma client_step st e st' o : step getWidget st e = Some (st', o) → client_event e = true →
  (nextController st ≤ nextController st')%nat ∧
  (signals st' = signals st ∨ observed (signals st') = None) ∧
  (∀ p, p ∈ saves st' → p ∈ saves st ∨
     sv_id p = nextController st ∧ (nextController st < nextController st')%nat ∧
     ∃ cfg r, o = Put (sv_scope p) (sv_cluster p) r cfg) ∧
  (∀ s c r cfg, o = Put s c r cfg → (nextController st < nextController st')%nat ∧
     (∃ ob, observed (signals st) = Some ob ∧ obs_cluster ob = c) ∧
     layoutWithheld (signals st) = [] ∧ layoutRevision (signals st) = r).
Proof.
  destruct e as [s ab|ac|ac res|ac ab r|s c d|i sv|i|cl|ab|ac rs|ac]; cbn [step client_event]; try done; intros H _.
  - destruct ab; injection H as <- <-; cbn; split_and!; try lia; try done; auto.
  - case_decide; [|done]. injection H as <- <-; cbn; split_and!; try lia; try done; auto.
  - destruct (pending_load st ac) as [p|]; [|done]. injection H as <- <-; cbn.
    split_and!; try lia; try done; auto. unfold load_catch. repeat case_match; cbn; auto.
  - unfold save_begin in H. destruct (observed (signals st)) as [ob|] eqn:Eo.
    2:{ injection H as <- <-. split_and!; try lia; try done; auto. }
    destruct (bool_decide (obs_scope ob ≠ s) || bool_decide (obs_cluster ob ≠ selectedCluster st)) eqn:Eb.
    { injection H as <- <-. split_and!; try lia; try done; auto. }
    reflect_bools. destruct (layoutWithheld (signals st)) eqn:Ew.
    2:{ injection H as <- <-. split_and!; try lia; try done; auto. }
    injection H as <- <-; cbn. split_and!; try lia; auto.
    + intros p [Hp| ->%list_elem_of_singleton]%elem_of_app; [by left|]. right. cbn. split_and!; [done|lia|]. by eexists _, _.
    + intros ? ? ? ? [= <- <- <-]. split_and!; [lia| |done|done]. exists ob. split; [done|]. by apply dec_stable.
  - destruct (pending_save st i) as [p|]; [|done]. injection H as <- <-; cbn.
    split_and!; try lia; try done; auto. intros q [_ Hq]%list_elem_of_filter. by left.
  - injection H as <- <-; cbn; split_and!; try lia; try done; auto.
  - destruct ab; injection H as <- <-; cbn; split_and!; try lia; try done; auto.
  - case_decide; [|done]. injection H as <- <-; cbn; split_and!; try lia; try done; auto.
  - case_decide; [|done]. injection H as <- <-; cbn; split_and!; try lia; try done; auto.
Qed.

Lemma save_matches_step st e st' o id c :
  step getWidget st e = Some (st', o) → client_event e = true →
  save_matches st id c → save_matches st' id c.
Proof.
  intros Hs Hc [Hlt Hm]. destruct (client_step _ _ _ _ Hs Hc) as (Hn & _ & Hsv & _). split; [lia|].
  intros p [Hp|(E & _)]%Hsv Hid; [by apply Hm|lia].
Qed.
Lemma load_matches_step st e st' o ac c :
  step getWidget st e = Some (st', o) → (nextController st ≤ nextController st')%nat →
  load_matches st ac c → load_matches st' ac c.
Proof.
  intros Hs Hn [Hlt Hm]. split; [lia|]. intros p [Hp|E]%(step_loads _ _ _ _ _ _ Hs) Hac; [by apply Hm|lia].
Qed.

Lemma client_inv s e s' l : sys_inv s → sys_step s (Client e) = Some (s', l) →
  sys_inv s' ∧ reg_step l (reg s) (reg s').
Proof.
  intros (I1 & I2 & I3 & I4 & I5 & I6 & I7). cbn [sys_step].
  destruct (client_event e) eqn:Hc; [|done]. cbn [negb].
  destruct (step getWidget (store s) e) as [[st o]|] eqn:Hs; [|done]. cbn [mbind option_bind].
  intros [= <- <-]. split; [|constructor]. cbn [store reg replies puts acks].
  destruct (client_step _ _ _ _ Hs Hc) as (Hn & Hsig & Hsv & Hput). split_and!; try done; cbn [store reg replies puts acks].
  - by eapply store_step_inv.
  - intros p [Hp|(E & Hlt & _)]%Hsv; [apply I3 in Hp; lia|lia].
  - intros ob Ho Hw. destruct Hsig as [E|E]; [|congruence]. rewrite E in *. by apply I4.
  - intros r Hr. destruct (I5 r Hr). split; [by eapply load_matches_step|done].
  - intros m [Hm|Hm]%elem_of_app.
    + destruct (I6 m Hm). split; [by eapply save_matches_step|done].
    + destruct o as [| | |s0 c r cfg| |]; try by apply elem_of_nil in Hm.
      apply list_elem_of_singleton in Hm as ->. cbn.
      destruct (Hput _ _ _ _ eq_refl) as (Hlt & (ob & Ho & <-) & Hw & <-). split; [split; [done|]|by apply I4].
      intros p [Hp|(_ & _ & cfg' & r' & [= <- _ _])]%Hsv Hid; [|done]. apply I3 in Hp. lia.
  - intros a Ha. destruct (I7 a Ha). split; [by eapply save_matches_step|done].
Qed.

Lemma answer_inv s ac allow s' l : sys_inv s → sys_step s (Answer ac allow) = Some (s', l) →
  sys_inv s' ∧ reg_step l (reg s) (reg s').
Proof.
  intros (I1 & I2 & I3 & I4 & I5 & I6 & I7). cbn [sys_step].
  destruct (pending_load (store s) ac) as [p|] eqn:Hp; [|done]. cbn [mbind option_bind].
  intros [= <- <-]. split; [|constructor]. apply pending_load_Some in Hp as [Hp Hac].
  split_and!; cbn [store reg replies puts acks]; try done.
  intros r [->|Hr]%elem_of_cons; [|by apply I5]. cbn.
  split; [split|apply (proj1 (proj2 I2))].
  - rewrite <- Hac. by apply I1.
  - intros q Hq Hqa. f_equal. destruct I1 as (Hnd & _).
    apply (NoDup_fmap_eq ld_ac _ q p Hnd Hq Hp). congruence.
Qed.

(** A read that lands tells the client what the server answered, when it tells
    it anything. *)
Lemma delivered_signals st p r :
  selectedCluster st = rp_cluster r →
  let sg := load_ok getWidget st p (HandleGetLayout (rp_cluster r) (rp_version r) (rp_allow r)) in
  sg = signals st ∨ observed sg = None ∨
  (observed sg = Some {| obs_scope := ld_scope p; obs_cluster := rp_cluster r |} ∧
   layoutRevision sg = version_revision (rp_version r) ∧
   (layoutWithheld sg = [] → reply_complete r = true)).
Proof.
  intros Hc. cbn zeta. unfold load_ok. case_bool_decide; [by left|].
  destruct (_ =? _)%nat; cbn [negb]; [|by left]. unfold HandleGetLayout, reply_complete.
  destruct (rp_version r) as [rec|]; cbn [mbind option_bind layoutFromResponse].
  2:{ right. right. cbn. rewrite Hc. done. }
  destruct (withholdNamespaces (rec_config rec) (rp_allow r)) as [cfg ids] eqn:Ew.
  cbn [layoutFromResponse res_config mbind option_bind]. right. right. cbn. rewrite Hc.
  split_and!; [done|done|]. intros Hw. apply bool_decide_eq_true. by destruct ids.
Qed.

Lemma deliver_inv s ac s' l : sys_inv s → lands_home s (Deliver ac) → sys_step s (Deliver ac) = Some (s', l) →
  sys_inv s' ∧ reg_step l (reg s) (reg s').
Proof.
  intros (I1 & I2 & I3 & I4 & I5 & I6 & I7). cbn [sys_step lands_home]. intros Hhome.
  destruct (head _) as [r|] eqn:Hr; [|done]. cbn [mbind option_bind]. pose proof (Hhome r eq_refl) as Ec.
  apply head_Some_elem_of, list_elem_of_filter in Hr as [Hac Hr]. destruct (I5 r Hr) as [Hm Hv].
  destruct (step getWidget (store s) _) as [[st o]|] eqn:Hs; [|done]. cbn [mbind option_bind].
  intros [= <- <-]. cbn [reg]. pose proof (store_step_inv _ _ _ _ _ I1 Hs) as Hinv.
  assert (Hld : ∀ a c, load_matches (store s) a c → load_matches st a c).
  { intros a c. eapply load_matches_step; [done|]. cbn [step] in Hs.
    destruct (pending_load _ _); [|done]. injection Hs as <- _. done. }
  cbn [step] in Hs. destruct (pending_load (store s) ac) as [p|]; [|done]. injection Hs as <- _.
  set (g := if reply_complete r then _ else _).
  assert (Hok : register_ok g) by (subst g; destruct (reply_complete r); [by apply show_ok|done]).
  assert (Hvs : versions g = versions (reg s)) by (subst g; by destruct (reply_complete r)).
  assert (Hsn : ∀ c x, has_seen (reg s) c x → has_seen g c x).
  { intros c x Hx. subst g. destruct (reply_complete r); [by apply has_seen_show|done]. }
  split; [split_and!; cbn [store reg replies puts acks]; try done|].
  - intros ob Ho Hw. cbn [signals load_finally with_signals] in Ho, Hw |- *.
    destruct (delivered_signals (store s) p r (eq_sym Ec)) as [E|[E|(E & Er & Hc)]].
    + rewrite E in *. by apply Hsn, I4.
    + congruence.
    + rewrite E in Ho. injection Ho as <-. cbn. exists (rp_version r).
      subst g. rewrite (Hc Hw). split; [by left|done].
  - intros r' Hr'. rewrite Hvs. destruct (I5 r' Hr'). split; [by apply Hld|done].
  - intros m Hm'. destruct (I6 m Hm'). split; [done|by apply Hsn].
  - intros a Ha. rewrite Hvs. by apply I7.
  - subst g. destruct (reply_complete r); by constructor.
Qed.

Lemma HandleSaveLayout_inv s v r cfg i now rec : HandleSaveLayout s v r cfg i now = Some rec →
  r = version_revision v ∧ rec_revision rec = version_revision v + 1.
Proof.
  unfold HandleSaveLayout. destruct (r <? 0); [done|].
  destruct (ValidateDashboardLayout cfg) as [|n]; [done|]. cbn [mbind option_bind].
  destruct (js_eqb (scope n) _); [|done]. cbn [negb].
  destruct v as [ex|]; destruct (Z.eqb_spec r 0); try done.
  - destruct (Z.eqb_spec r (rec_revision ex)); [|done]. by intros [= <-].
  - by intros [= <-].
Qed.

Lemma apply_inv s i id now s' l : sys_inv s → sys_step s (Apply i id now) = Some (s', l) →
  sys_inv s' ∧ reg_step l (reg s) (reg s').
Proof.
  intros (I1 & I2 & I3 & I4 & I5 & I6 & I7). cbn [sys_step].
  destruct (head _) as [m|] eqn:Hm; [|done]. cbn [mbind option_bind].
  apply head_Some_elem_of, list_elem_of_filter in Hm as [Hi Hm]. destruct (I6 m Hm) as [Hmt Hseen].
  assert (Hrest : ∀ m', m' ∈ filter (λ m, pm_id m ≠ i) (puts s) → m' ∈ puts s)
    by (intros m' [_ ?]%list_elem_of_filter; done).
  destruct (HandleSaveLayout _ _ _ _ _ _) as [rec|] eqn:Eh.
  2:{ intros [= <- <-]. split; [|constructor]. split_and!; cbn [store reg replies puts acks]; try done.
      intros m' Hm'. apply I6. by apply Hrest. }
  intros [= <- <-]. apply HandleSaveLayout_inv in Eh as [Er En].
  split; [split_and!; cbn [store reg replies puts acks]; try done|].
  - by apply push_ok.
  - intros r Hr. destruct (I5 r Hr). split; [done|]. by apply push_elem.
  - intros m' Hm'. apply I6. by apply Hrest.
  - intros a [->|Ha]%elem_of_cons; cbn [ak_id ak_cluster ak_rec].
    + split; [by rewrite <- Hi|]. unfold push_version. cbn. rewrite decide_True by done. by left.
    + destruct (I7 a Ha). split; [done|]. by apply push_elem.
  - cbn [reg]. constructor; [|done]. destruct Hseen as (v & Hv & Hrev). destruct I2 as (J1 & _ & J3).
    destruct (J1 _ _ (J3 _ _ Hv)) as [_ Heq]. rewrite <- Heq; [done|congruence].
Qed.

Lemma ack_inv s i s' l : sys_inv s → sys_step s (Ack i) = Some (s', l) →
  sys_inv s' ∧ reg_step l (reg s) (reg s').
Proof.
  intros (I1 & I2 & I3 & I4 & I5 & I6 & I7). cbn [sys_step].
  destruct (head _) as [a|] eqn:Ha; [|done]. cbn [mbind option_bind].
  apply head_Some_elem_of, list_elem_of_filter in Ha as [Hi Ha]. destruct (I7 a Ha) as [Hm Hv].
  destruct (step getWidget (store s) _) as [[st o]|] eqn:Hs; [|done]. cbn [mbind option_bind].
  intros [= <- <-]. pose proof (store_step_inv _ _ _ _ _ I1 Hs) as Hinv.
  cbn [step] in Hs. destruct (pending_save (store s) i) as [p|] eqn:Hp; [|done]. injection Hs as <- _.
  unfold pending_save in Hp. apply head_Some_elem_of, list_elem_of_filter in Hp as [Hpi Hp].
  assert (Hcl : sv_cluster p = ak_cluster a) by (apply Hm; [done|congruence]).
  assert (Hsm : ∀ j c, save_matches (store s) j c →
    save_matches (save_settled (with_signals (store s) (save_commit (signals (store s)) p
      {| res_id := rec_id (ak_rec a); clusterId := ak_cluster a; clusterLabel := None;
         updatedAt := rec_updatedAt (ak_rec a); res_revision := rec_revision (ak_rec a);
         res_config := Some (rec_config (ak_rec a)); withheld := None |})) i) j c).
  { intros j c [Hlt Hj]. split; [done|]. intros q [_ Hq]%list_elem_of_filter. by apply Hj. }
  split; [split_and!; cbn [store reg replies puts acks]; try done|].
  - by apply show_ok.
  - intros q [_ Hq]%list_elem_of_filter. by apply I3.
  - intros ob [= <-] _. cbn. rewrite Hcl. exists (Some (ak_rec a)). split; [by left|done].
  - intros m Hm'. destruct (I6 m Hm'). split; [by apply Hsm|by apply has_seen_show].
  - intros b Hb. destruct (I7 b Hb). split; [by apply Hsm|done].
  - by constructor.
Qed.

Lemma other_inv s c rec s' l : sys_inv s → sys_step s (OtherSession c rec) = Some (s', l) →
  sys_inv s' ∧ reg_step l (reg s) (reg s').
Proof.
  intros (I1 & I2 & I3 & I4 & I5 & I6 & I7). cbn [sys_step].
  destruct (Z.eqb_spec (rec_revision rec) (version_revision (current (reg s) c) + 1)); [|done].
  intros [= <- <-]. split; [split_and!; cbn [store reg replies puts acks]; try done|by constructor].
  - by apply push_ok.
  - intros r Hr. destruct (I5 r Hr). split; [done|]. by apply push_elem.
  - intros a Ha. destruct (I7 a Ha). split; [done|]. by apply push_elem.
Qed.

Lemma sys_step_refines s e s' l : sys_inv s → lands_home s e → sys_step s e = Some (s', l) →
  sys_inv s' ∧ reg_step l (reg s) (reg s').
Proof.
  intros Hinv. destruct e; intros Hh Hs; eauto using client_inv, answer_inv, deliver_inv, apply_inv,
    ack_inv, other_inv.
Qed.
Lemma sys_initial_inv cluster db : sys_inv (sys_initial cluster db).
Proof.
  split_and!; cbn; try (by intros ? ?%elem_of_nil); try done.
  - apply initial_inv.
  - split_and!; cbn; [|by left|by intros ? ? ?%elem_of_nil].
    intros c v ->%list_elem_of_singleton. done.
Qed.

(** C2. Every run of the client against its server, other sessions' writes interleaved
    anywhere, is a run of the register, provided no read lands while another cluster than the
    one it was asked of is selected: nothing is written over a version this client has not
    been shown in full, and what it is shown was really stored. *)
Theorem system_refines_register cluster db es s' ls :
  reads_land_home (sys_initial cluster db) es →
  sys_run (sys_initial cluster db) es = Some (s', ls) →
  reg_run (reg (sys_initial cluster db)) ls (reg s').
Proof.
  pose proof (sys_initial_inv cluster db) as Hinv. revert Hinv.
  generalize (sys_initial cluster db). intros s Hinv. revert s s' ls Hinv.
  induction es as [|e es IH]; intros s s' ls Hinv; cbn [sys_run reads_land_home].
  - intros _ [= <- <-]. constructor.
  - intros [Hh Hhs]. destruct (sys_step s e) as [[s1 l]|] eqn:E; [|done]. cbn [mbind option_bind].
    destruct (sys_run s1 es) as [[s2 ls']|] eqn:Er; [|done]. intros [= <- <-].
    apply sys_step_refines in E as [Hinv' Hs]; [|done..]. econstructor; [done|]. apply IH; [done|by eapply Hhs|done].
Qed.

(** ** A layout saved and read *)

(** The order of a placement's parameters changes neither what is withheld nor
    what this build can draw. *)
Lemma withheld_equiv allow a b : wire_item a → a ≡ b → withheld_item allow b = withheld_item allow a.
Proof. intros (_ & _ & Hnd & _) (_ & _ & _ & _ & _ & _ & Hp). unfold withheld_item. by rewrite <- (assoc_perm _ _ _ Hnd Hp). Qed.
Lemma fate_equiv a b : wire_item a → a ≡ b → item_fate getWidget b = item_fate getWidget a.
Proof.
  intros (_ & _ & Hnd & _) (_ & Hid & _ & _ & _ & _ & Hp). unfold item_fate. rewrite Hid. destruct (getWidget (id b)) as [d|]; [|done].
  assert (E : missingParamKeys (def_params d) (params_of b) = missingParamKeys (def_params d) (params_of a)).
  { unfold missingParamKeys. destruct (def_params d); [|done]. apply list_filter_iff. intros k. unfold is_blank, table_get.
    by rewrite <- (assoc_perm _ _ _ Hnd Hp). }
  unfold params_of in E. by rewrite E.
Qed.
Lemma filter_equiv (P : LayoutItem → Prop) `{!∀ it, Decision (P it)} l k : (∀ a b, wire_item a → a ≡ b → P b ↔ P a) →
  Forall wire_item l → l ≡ k → filter P k ≡ filter P l ∧ (instanceId <$> filter P k) = (instanceId <$> filter P l).
Proof.
  intros Hf Hl E. induction E as [|a b l k Hab E IH]; [by split; [constructor|]|]. apply Forall_cons in Hl as [Ha Hl].
  destruct (IH Hl) as [I1 I2]. rewrite !filter_cons. pose proof (Hf a b Ha Hab) as Hfab.
  destruct (decide (P a)); [rewrite decide_True by tauto|by rewrite decide_False by tauto].
  split; [by constructor|]. rewrite !fmap_cons, I2. f_equal. symmetry. apply Hab.
Qed.
(** What the answer to a read holds of the stored placements. *)
Lemma withhold_spec cfg allow : withholdNamespaces cfg allow =
  (with_items cfg (filter (λ it, withheld_item allow it = false) (config_items cfg)),
   instanceId <$> filter (λ it, withheld_item allow it = true) (config_items cfg)).
Proof.
  unfold withholdNamespaces. destruct (instanceId <$> filter _ _) as [|i l] eqn:E; [|done]. f_equal.
  apply fmap_nil_inv in E. assert (Hall : filter (λ it, withheld_item allow it = false) (config_items cfg) = config_items cfg).
  { apply filter_all, Forall_forall. intros it Hit. destruct (withheld_item allow it) eqn:Ew; [|done]. exfalso.
    apply (elem_of_nil (A:=LayoutItem) it). rewrite <- E. by apply list_elem_of_filter. }
  rewrite Hall. by destruct cfg.
Qed.

Lemma saved_config s v r cfg i now rec : HandleSaveLayout s v r cfg i now = Some rec → ValidateDashboardLayout cfg = inr (rec_config rec).
Proof.
  unfold HandleSaveLayout. destruct (r <? 0); [done|]. destruct (ValidateDashboardLayout cfg) as [|n]; [done|]. cbn [mbind option_bind].
  destruct (js_eqb _ _); [|done]. cbn [negb]. destruct v as [ex|]; destruct (r =? 0); try done; [|by intros [= <-]].
  destruct (r =? rec_revision ex); [|done]. by intros [= <-].
Qed.

(** C19. What is saved reads back. Let the server accept a layout whose strings hold no lone
    surrogate, and let a later read of the record, for a caller who may see some namespaces,
    land in the store before anything supersedes it. The store then shows, in the order that
    was sent and up to the order of a placement's parameters, exactly the placements that were
    sent less those whose namespace is withheld from this caller, which it lists, and those
    this build cannot draw; with the envelope that was sent and the revision after the one
    that was replaced. *)
Theorem save_reads_back s v r cfg i now rec cluster allow st ac p :
  wire_ok (scope cfg) → Forall wire_item (config_items cfg) →
  HandleSaveLayout s v r cfg i now = Some rec →
  pending_load st ac = Some p → ac ∉ aborted st → commitSeq (signals st) = ld_startedAt p →
  ∃ st', step getWidget st (LoadOk ac (HandleGetLayout cluster (Some rec) allow)) = Some (st', Nothing) ∧
    let sg := signals st' in
    config_items (layout sg) ≡
      filter (λ it, withheld_item allow it = false ∧ item_fate getWidget it = kept_item) (config_items cfg) ∧
    layout sg = with_items cfg (config_items (layout sg)) ∧
    layoutWithheld sg = (instanceId <$> filter (λ it, withheld_item allow it = true) (config_items cfg)) ∧
    layoutRevision sg = version_revision v + 1 ∧ layoutLoaded sg = true ∧ layoutUnavailable sg = None.
Proof.
  intros Hsc Hw Hs Hp Hab Hseq. destruct (HandleSaveLayout_inv _ _ _ _ _ _ _ Hs) as [_ Hrev].
  pose proof (saved_config _ _ _ _ _ _ _ Hs) as Hn. destruct (stored_is_sent cfg (rec_config rec) Hsc Hw Hn) as [Eq Hc].
  set (kept := filter (λ it, withheld_item allow it = false) (config_items (rec_config rec))).
  set (ids := instanceId <$> filter (λ it, withheld_item allow it = true) (config_items (rec_config rec))).
  cbn [step]. rewrite Hp. cbn [mbind option_bind]. eexists. split; [done|]. cbn [signals load_finally with_signals].
  unfold load_ok. pose proof (proj2 (pending_load_Some _ _ _ Hp)) as Hac. rewrite bool_decide_eq_false_2 by (by rewrite Hac).
  rewrite Hseq, Nat.eqb_refl. cbn [negb]. unfold HandleGetLayout. cbn [mbind option_bind]. rewrite withhold_spec.
  fold kept ids. cbn [layoutFromResponse res_config mbind option_bind].
  assert (Hd : dropped_config (dropUnknownWidgets getWidget (with_items (rec_config rec) kept)) =
    with_items cfg (filter (λ it, item_fate getWidget it = kept_item) kept)).
  { pose proof (proj1 (dropUnknownWidgets_inv getWidget (with_items (rec_config rec) kept))) as Hk. cbn [config_items with_items] in Hk.
    rewrite <- Hk. rewrite Hc. unfold dropUnknownWidgets. by destruct (foldl _ _ _) as [[? ?] ?]. }
  cbn [load_commit layout layoutWithheld layoutRevision layoutLoaded layoutUnavailable loaded_config loaded_withheld loaded_revision
    withheld res_revision]. rewrite Hd. cbn [config_items with_items].
  assert (Hf : filter (λ it, item_fate getWidget it = kept_item) kept =
    filter (λ it, withheld_item allow it = false ∧ item_fate getWidget it = kept_item) (config_items (rec_config rec))).
  { unfold kept. rewrite list_filter_filter. apply list_filter_iff. tauto. }
  split_and!; [|done| |done|done|done].
  - rewrite Hf. apply (filter_equiv (λ it, withheld_item allow it = false ∧ item_fate getWidget it = kept_item)); [|done|by symmetry].
    intros a b Ha Hab'. by rewrite (withheld_equiv allow a b Ha Hab'), (fate_equiv a b Ha Hab').
  - transitivity ids; [by destruct ids|].
    apply (filter_equiv (λ it, withheld_item allow it = true)); [|done|by symmetry].
    intros a b Ha Hab'. by rewrite (withheld_equiv allow a b Ha Hab').
Qed.
End Server.

(** ** Witness *)

(** A load, an edit saved and acknowledged while another session's write to a
    different cluster goes through. *)
Definition demo_rec : LayoutRec :=
  {| rec_id := "r1"%js; rec_updatedAt := "t0"%js; rec_revision := 4;
     rec_config := DEFAULT_OVERVIEW_LAYOUT |}.
Definition demo_db (c : jstring) : option LayoutRec := if js_eqb c "prod" then Some demo_rec else None.
Definition demo_events : list sys_event :=
  [Client (Load overview false); Answer 0 (λ _, true); Deliver 0;
   Client (Save overview demo_layout false);
   OtherSession "edge"%js {| rec_id := "r2"%js; rec_updatedAt := "t1"%js; rec_revision := 1;
                             rec_config := DEFAULT_OVERVIEW_LAYOUT |};
   Apply 1 "r3"%js "t2"%js; Ack 1].
Lemma demo_home : reads_land_home demo_catalog (sys_initial "prod"%js demo_db) demo_events.
Proof.
  unfold demo_events. cbn [reads_land_home]. repeat (split; [try exact I|intros ? ? E; vm_compute in E; injection E as <- <-]); [|exact I].
  intros r Hr. vm_compute in Hr. injection Hr as <-. vm_compute. reflexivity.
Qed.
Lemma system_refines_register_witness :
  ∃ s', sys_run demo_catalog (sys_initial "prod"%js demo_db) demo_events =
          Some (s', [Stutter; Stutter; Show "prod"%js; Stutter; Other "edge"%js;
                     Replace "prod"%js; Show "prod"%js]) ∧
        reg_run (reg (sys_initial "prod"%js demo_db))
          [Stutter; Stutter; Show "prod"%js; Stutter; Other "edge"%js; Replace "prod"%js;
           Show "prod"%js] (reg s').
Proof.
  eexists. split.
  - vm_compute. reflexivity.
  - apply (system_refines_register demo_catalog "prod"%js demo_db demo_events); [exact demo_home|].
    vm_compute. reflexivity.
Defined.

(** The layout of [demo_events] read back by a caller who may not see the namespace of its last
    placement; the catalog of the demo knows only two widgets. *)
Definition saved_rec : LayoutRec :=
  {| rec_id := "r1"%js; rec_updatedAt := "t2"%js; rec_revision := 5; rec_config := demo_stored |}.
Definition reading : StoreState := state_after [Load overview false].
Lemma save_reads_back_witness :
  ∃ st', step demo_catalog reading (LoadOk 0 (HandleGetLayout "prod"%js (Some saved_rec) (λ _, false))) = Some (st', Nothing) ∧
    layoutWithheld (signals st') = ["mesh-golden-signals-k3x9k3x9"]%js ∧ layoutRevision (signals st') = 5.
Proof.
  destruct (save_reads_back demo_catalog overview (Some demo_rec) 4 demo_layout "r1"%js "t2"%js saved_rec "prod"%js (λ _, false) reading 0
    {| ld_ac := 0; ld_scope := overview; ld_startedAt := 0; ld_cluster := "prod"%js |}) as (st' & E & _ & _ & Hw & Hr & _).
  - apply (bool_decide_unpack _). vm_compute. exact I.
  - apply (bool_decide_unpack _). vm_compute. exact I.
  - vm_compute. reflexivity.
  - vm_compute. reflexivity.
  - vm_compute. intros H. by apply elem_of_nil in H.
  - vm_compute. reflexivity.
  - exists st'. split_and!; [exact E| |exact Hr]. rewrite Hw. vm_compute. reflexivity.
Defined.

(** ** A switch in between *)

(** A read of "prod" lands after the switch to "edge": the store takes its revision for one of
    "edge", and the write it then sends replaces the version of "edge" this client never saw. *)
Definition crossed_db (c : jstring) : option LayoutRec := Some demo_rec.
Definition crossed_events : list sys_event :=
  [Client (Load overview false); Answer 0 (λ _, true); Client (Switch "edge"%js); Deliver 0;
   Client (Save overview demo_layout false); Apply 1 "r3"%js "t2"%js].
Example switch_breaks_register : ∃ s' ls,
  sys_run demo_catalog (sys_initial "prod"%js crossed_db) crossed_events = Some (s', ls) ∧ last ls = Some (Replace "edge"%js) ∧
  Forall (λ x, x.1 ≠ "edge"%js) (seen (reg s')).
Proof.
  eexists _, _. split; [vm_compute; reflexivity|]. split; [reflexivity|]. repeat constructor. by intros H%(f_equal units).
Qed.
