(* ===== verification/Editor.v ===== *)
(** * The editor's gestures: DashboardV2.tsx, DashboardGrid.tsx,
    WidgetParamDialog.tsx

    What each gesture of the editor makes of the layout being edited: adding a
    widget from the palette, filling in or changing its parameters, removing
    it, dragging and sizing it by pointer or keyboard, resetting the dashboard
    and copying one from another cluster. The layouts are values here; that the
    session's objects behave as values is the subject of EditSession.v. The
    theorems compose the editor with the server's validator: starting from a
    layout the server stores, which gestures lead to one it stores. *)

From stdpp Require Import base list strings gmap sorting.
From Stdlib Require Import ZArith NArith Lia.
From S2P Require Import Prelude JsValue Uri Types Params Grid Placement EditSession Registry.
From S2P Require Import LayoutValidate WidgetState Widgets LayoutStore.

Open Scope Z_scope.

(** ** Definitions *)

Definition widget_of (wid : jstring) : option WidgetDef := getWidget WIDGETS wid.

(** The layout as the grid renders it. *)
Definition asRendered (config : DashboardLayoutConfig) : DashboardLayoutConfig :=
  with_items config (item <$> resolveRenderable widget_of (config_items config)).

(** *** The parameter dialog *)

Inductive DialogProblem :=
  | unfilled (keys : list jstring)
  | bad_value (message : jstring)
  | already_there.
(** The first message of the loop over the keys; [None] is a throw. *)
Fixpoint first_error (declared : list (jstring * list jstring)) (next : list (jstring * jstring))
    (keys : list jstring) : option (option jstring) :=
  match keys with
  | [] => Some None
  | k :: keys' =>
      error ← paramValueError k (own_value next k) (default [] (assoc k declared));
      match error with
      | Some m => Some (Some m)
      | None => first_error declared next keys'
      end
  end.
(** [confirm]: the trimmed values, or why not. *)
Definition dialog_confirm (d : WidgetDef) (placed : list LayoutItem) (editing : option LayoutItem)
    (values : list (jstring * jstring)) : option (DialogProblem + list (jstring * jstring)) :=
  let declared := default [] (def_params d) in
  let keys := object_keys declared in
  let next := (λ k, (k, js_trim (own_value values k))) <$> keys in
  match missingParamKeys (Some declared) next with
  | _ :: _ => Some (inl (unfilled (missingParamKeys (Some declared) next)))
  | [] =>
      error ← first_error declared next keys;
      match error with
      | Some m => Some (inl (bad_value m))
      | None =>
          Some (match duplicatePlacementOf placed (def_id d) next (instanceId <$> editing) with
                | Some _ => inl already_there
                | None => inr next
                end)
      end
  end.

(** *** What the gestures do to the working copy *)

(** [placeWidget]: the new arrangement, or nothing where there is no room.
    [n] counts the draws. *)
Definition placeWidget (draws : nat → jstring) (fuel n : nat) (working : DashboardLayoutConfig)
    (d : WidgetDef) (ps : list (jstring * jstring)) : option (option DashboardLayoutConfig * nat) :=
  '(placed, n') ← placeNewWidget draws fuel n (config_items working) d (columns working) ps;
  Some (option_map (λ it, asRendered (with_items working (config_items working ++ [it]))) placed, n').
(** The re-pointing branch of [confirmParams]. *)
Definition repoint (working : DashboardLayoutConfig) (d : WidgetDef) (iid : jstring)
    (values : list (jstring * jstring)) : option DashboardLayoutConfig :=
  carried ← narrowParams d values;
  Some (asRendered (with_items working
    ((λ i, if js_eqb (instanceId i) iid then
             {| instanceId := instanceId i; id := id i; x := x i; y := y i; w := w i; h := h i;
                params := Some carried |}
           else i) <$> config_items working))).
Definition resetLayout (working : DashboardLayoutConfig) : DashboardLayoutConfig :=
  asRendered (with_items working (config_items (defaultLayoutFor overview))).
Definition copyFrom (working : DashboardLayoutConfig) (entry : CopyableLayout) : DashboardLayoutConfig :=
  asRendered (with_items working (config_items (copy_config entry))).
(** The grid's write paths. A widget's minimum size comes from its definition. *)
Definition removeItem (items : list LayoutItem) (iid : jstring) : list LayoutItem :=
  match findTarget items iid with
  | None => items
  | Some _ => compact (filter (λ i, instanceId i ≠ iid) items)
  end.
Definition bounds_of (d : WidgetDef) : Bounds := {| bound_minW := minW d; bound_minH := minH d |}.
(** The pointer moved from [origin] to [cell] on a widget that began at [start]. *)
Definition drag (items : list LayoutItem) (start : LayoutItem) (origin cell : Cell)
    : option (list LayoutItem) :=
  let to := dragTarget {| cx := of_Z (x start); cy := of_Z (y start) |} origin cell in
  moveItem items (instanceId start) (cx to) (cy to).
Inductive arrow := ArrowLeft | ArrowRight | ArrowUp | ArrowDown.
Definition KEY_STEPS (k : arrow) : Z * Z :=
  match k with
  | ArrowLeft => (-1, 0) | ArrowRight => (1, 0) | ArrowUp => (0, -1) | ArrowDown => (0, 1)
  end.
Definition handleItemKey (items : list LayoutItem) (it : LayoutItem) (d : WidgetDef) (k : arrow)
    (shift : bool) : option (list LayoutItem) :=
  let '(dx, dy) := KEY_STEPS k in
  if shift then resizeItemBy items (instanceId it) (of_Z dx) (of_Z dy) (bounds_of d)
  else stepItem items (instanceId it) (of_Z dx) (of_Z dy).

(** ** A layout that only the row cap can keep from being stored *)

(** What a placement has to satisfy whatever its row. *)
Definition shape_ok (it : LayoutItem) : Prop :=
  id_ok (instanceId it) ∧
  ∃ spec, assoc (id it) allowedWidgets = Some spec ∧
    MinW spec <= w it ∧ MinH spec <= h it ∧ 0 <= x it ∧ x it + w it <= dashboardColumns ∧
    params_ok spec (params_of it).
Definition cards (items : list LayoutItem) : Prop :=
  NoDup (ids items) ∧ Forall shape_ok items ∧ Forall wire_item items ∧
  ForallOrdPairs (λ a b, ¬ same_card a b) items.
Definition draft (items : list LayoutItem) : Prop :=
  cards items ∧ NoOverlap items ∧ Forall (λ it, 0 <= y it) items.
Definition under_cap (items : list LayoutItem) : Prop :=
  Forall (λ it, y it + h it <= maxDashboardRows) items.
Definition envelope (cfg : DashboardLayoutConfig) : Prop :=
  schemaVersion cfg = DASHBOARD_LAYOUT_SCHEMA_VERSION ∧ scope cfg = scope_text overview ∧
  columns cfg = dashboardColumns.
(** The layouts the server stores, when no string is damaged on the way. *)
Definition storable (cfg : DashboardLayoutConfig) : Prop :=
  wire_ok (scope cfg) ∧ Forall wire_item (config_items cfg) ∧
  ∃ n, ValidateDashboardLayout cfg = inr n.

Lemma placement_shape it :
  placement_ok it ↔ shape_ok it ∧ 0 <= y it ∧ y it + h it <= maxDashboardRows.
Proof. unfold placement_ok, shape_ok, box_ok. naive_solver. Qed.
Lemma storable_iff cfg :
  storable cfg ↔ envelope cfg ∧ (length (config_items cfg) ≤ maxDashboardItems)%nat ∧
    draft (config_items cfg) ∧ under_cap (config_items cfg).
Proof.
  assert (E : Forall placement_ok (config_items cfg) ↔ Forall shape_ok (config_items cfg) ∧
    Forall (λ it, 0 <= y it) (config_items cfg) ∧ under_cap (config_items cfg)).
  { unfold under_cap. rewrite <- !Forall_and. apply Forall_iff. intros it. by rewrite placement_shape. }
  unfold storable. split.
  - intros (Hsc & Hw & Hn). apply validator_wire in Hn; [|done..].
    destruct Hn as (? & ? & ? & ? & ? & H6%E & ? & ?). unfold draft, cards, envelope. tauto.
  - unfold draft, cards, envelope. intros ((? & Hs & ?) & ? & ((? & ? & Hw & ?) & ? & ?) & ?).
    assert (wire_ok (scope cfg)) by (rewrite Hs; by apply ascii_wire, (bool_decide_unpack _)).
    split; [done|]. split; [done|]. apply validator_wire; [done..|]. unfold layout_valid. tauto.
Qed.

(** ** Cards depend on shapes only *)

Lemma shape_ok_shape a b : shape a = shape b → shape_ok a → shape_ok b.
Proof. by intros ->%shape_eq. Qed.
Lemma wire_item_shape a b : shape a = shape b → wire_item a → wire_item b.
Proof. by intros ->%shape_eq. Qed.
#[export] Instance distinct_symmetric : Symmetric (λ a b, ¬ same_card a b).
Proof. intros a b H [E1 E2]. apply H. by split. Qed.
Lemma distinct_shapes l :
  ForallOrdPairs (λ a b, ¬ same_card a b) (shape <$> l) ↔ ForallOrdPairs (λ a b, ¬ same_card a b) l.
Proof.
  induction l as [|a l IH]; [done|]. rewrite fmap_cons.
  assert (E : Forall (λ b, ¬ same_card (shape a) b) (shape <$> l) ↔ Forall (λ b, ¬ same_card a b) l)
    by (by rewrite Forall_fmap).
  split; inversion 1 as [|? ? H1 H2]; subst; constructor; (by apply E) || by apply IH.
Qed.
Lemma cards_shape l l' : shape <$> l ≡ₚ shape <$> l' → cards l' → cards l.
Proof.
  intros E (H1 & H2 & H3 & H4). split_and!.
  - rewrite ids_shape, E, <- ids_shape. done.
  - by apply (Forall_shape _ _ l' shape_ok_shape).
  - by apply (Forall_shape _ _ l' wire_item_shape).
  - apply distinct_shapes, (ForallOrdPairs_perm _ (shape <$> l')); [apply _|done|].
    by apply distinct_shapes.
Qed.
Lemma cards_perm l l' : l ≡ₚ l' → cards l' → cards l.
Proof. intros E. apply cards_shape. by rewrite E. Qed.
Lemma cards_cons a l : cards (a :: l) ↔
  (instanceId a ∉ ids l) ∧ shape_ok a ∧ wire_item a ∧ Forall (λ b, ¬ same_card a b) l ∧ cards l.
Proof.
  unfold cards, ids. rewrite fmap_cons, NoDup_cons, !Forall_cons. split.
  - intros (? & ? & ? & Hd). inversion Hd; subst. tauto.
  - intros (? & ? & ? & ? & ? & ? & ? & ?). split_and!; try tauto. by constructor.
Qed.
Lemma cards_sublist (P : LayoutItem → Prop) `{!∀ a, Decision (P a)} l : cards l → cards (filter P l).
Proof.
  induction l as [|a l IH]; [done|]. rewrite cards_cons. intros (H1 & H2 & H3 & H4 & H5).
  rewrite filter_cons. case_decide; [|by apply IH]. apply cards_cons. split_and!; try done; [| |by apply IH].
  - unfold ids. rewrite list_elem_of_fmap. intros (b & E & [_ Hb]%list_elem_of_filter). apply H1.
    unfold ids. rewrite E. by apply list_elem_of_fmap_2.
  - by apply Forall_filter_1.
Qed.
(** One placement changed in column or size only. *)
Lemma cards_replace items iid t a : cards items → findTarget items iid = Some t →
  instanceId a = instanceId t → id a = id t → params a = params t → shape_ok a →
  cards (a :: other_items items iid).
Proof.
  intros Hc [Ht Hid]%findTarget_Some E1 E2 E3 Ha.
  assert (Hp : cards (t :: other_items items iid)).
  { apply (cards_perm _ items); [|done]. symmetry. rewrite <- Hid. apply other_items_perm; [apply Hc|done]. }
  apply cards_cons in Hp as (H1 & _ & H3 & H4 & H5). apply cards_cons.
  unfold wire_item, same_card, params_of in *. rewrite E1, E2, E3. tauto.
Qed.

Lemma shape_ok_wf it : shape_ok it → item_wf it ∧ in_columns it.
Proof.
  intros (_ & spec & Es%allowed_sane & ? & ? & ? & ? & _). destruct Es as (_ & ? & ? & _).
  cbn [snd] in *. unfold item_wf, in_columns, DASHBOARD_COLUMNS, dashboardColumns in *. lia.
Qed.
Lemma draft_wf items : draft items → layout_wf items.
Proof.
  intros ((H1 & H2 & _) & _ & H3). split_and!; try done;
    apply (Forall_impl shape_ok); try done; intros it Hit; by destruct (shape_ok_wf it Hit).
Qed.

(** Gravity keeps a draft a draft, and under the cap if it was. *)
Lemma compact_draft l : cards l → draft (compact l).
Proof.
  intros H. split; [by apply (cards_shape _ l), H; apply compact_shape|].
  split; [apply compact_no_overlap_all|apply compact_nonneg].
Qed.
Lemma compact_under_cap l : draft l → under_cap l → under_cap (compact l).
Proof.
  intros Hd Hu. pose proof (draft_wf l Hd) as (Hnd & Hwf & _). destruct Hd as (Hc & Hno & Hy).
  unfold under_cap in *. apply Forall_forall. intros b Hb.
  assert (shape b ∈ shape <$> l) as (a & Eab & Ha)%list_elem_of_fmap
    by (rewrite <- compact_shape; by apply list_elem_of_fmap_2).
  destruct (compact_lifts l a Hno Hwf Hy Ha) as (b' & Hb' & Es & Hle).
  assert (b' = b) as ->.
  { pose proof (compact_draft l Hc) as ((Hndc & _) & _).
    assert (E : instanceId b' = instanceId b) by (apply shape_instanceId; congruence).
    pose proof (findTarget_unique _ (instanceId b) b' Hndc Hb' E).
    pose proof (findTarget_unique _ (instanceId b) b Hndc Hb eq_refl). congruence. }
  rewrite Forall_forall in Hu. specialize (Hu a Ha). rewrite (shape_eq _ _ Eab). cbn. lia.
Qed.

(** ** Moving and sizing *)

Lemma widget_of_spec wid d : widget_of wid = Some d →
  d ∈ WIDGETS ∧ def_id d = wid ∧ assoc wid allowedWidgets = Some (server_spec d).
Proof.
  intros [Hd Hid]%getWidget_Some. split; [done|]. split; [done|]. rewrite <- Hid. by apply widget_known.
Qed.
(** [r] is a draft with the placements of [items]. *)
Definition redraft (items r : list LayoutItem) : Prop := draft r ∧ ids r ≡ₚ ids items.
Lemma redraft_refl items : draft items → redraft items items.
Proof. by split. Qed.
Lemma redraft_trans a b c : redraft a b → redraft b c → redraft a c.
Proof. intros [_ E] [H E']. split; [done|]. by rewrite E', E. Qed.
Lemma resolved_draft items iid t a l r (T : LayoutItem → Prop) :
  draft items → findTarget items iid = Some t → pass_inv iid T items l → resolve l a = Some r →
  instanceId a = iid → id a = id t → params a = params t → shape_ok a → redraft items r.
Proof.
  intros (Hc & _) Ht Hinv Hr E1 E2 E3 Ha. pose proof (findTarget_Some _ _ _ Ht) as [_ Hid].
  pose proof (pass_inv_others _ _ _ _ _ a Hinv E1 Hr) as Hsh.
  destruct (resolve_layout _ _ _ Hr) as (Hno & _ & Hy & _). split.
  2:{ rewrite (ids_shape r), Hsh, fmap_cons, <- ids_shape. cbn [shape with_y instanceId]. rewrite E1.
      apply findTarget_Some in Ht as [Ht Hid'].
      pose proof (fmap_Permutation instanceId _ _ (other_items_perm items t (proj1 Hc) Ht)) as Hp.
      rewrite fmap_cons, Hid' in Hp. by symmetry. }
  split; [|done].
  apply (cards_shape r (a :: other_items items iid)); [done|].
  apply (cards_replace items iid t); congruence || done.
Qed.
Lemma moveItem_draft items iid nx ny r :
  draft items → moveItem items iid nx ny = Some r → redraft items r.
Proof.
  intros Hd. pose proof (redraft_refl items Hd) as Hid0. unfold moveItem.
  destruct (findTarget items iid) as [t|] eqn:Ht; [|by intros [= <-]].
  destruct nx as [| |qx]; [by intros [= <-]..|]. destruct ny as [| |qy]; [by intros [= <-]..|].
  pose proof (draft_wf items Hd) as Hwf.
  destruct (moveItem_outcome items iid t qx qy Hwf Ht) as (r' & l & Hm & Hinv & Hr).
  unfold moveItem in Hm. rewrite Ht in Hm. rewrite Hm. intros [= <-].
  pose proof (findTarget_Some _ _ _ Ht) as [Hin Hid].
  eapply (resolved_draft items iid t); try done.
  destruct Hd as ((_ & Hsh & _) & _). rewrite Forall_forall in Hsh.
  destruct (Hsh t Hin) as (H1 & spec & H2 & H3 & H4 & H5 & H6 & H7). split; [done|]. exists spec.
  unfold move_place, with_pos. cbn. split_and!; try done; unfold clamp, DASHBOARD_COLUMNS, dashboardColumns in *; lia.
Qed.

(** Under the cap there is room for the widget's minimum height. *)
Definition sizable (iid : jstring) (d : WidgetDef) (items : list LayoutItem) : Prop :=
  ∀ t, findTarget items iid = Some t → widget_of (id t) = Some d ∧ y t + minH d <= maxDashboardRows.
Lemma resizeItem_draft items iid d nw nh r :
  draft items → sizable iid d items → resizeItem items iid nw nh (bounds_of d) = Some r →
  redraft items r ∧ sizable iid d r.
Proof.
  intros Hd Hsz. pose proof (redraft_refl items Hd) as Hid0. unfold resizeItem. destruct (findTarget items iid) as [t|] eqn:Ht; [|by intros [= <-]].
  destruct nw as [| |qw]; [by intros [= <-]..|]. destruct nh as [| |qh]; [by intros [= <-]..|].
  pose proof (draft_wf items Hd) as Hwf. destruct (Hsz t Ht) as [Hw Hcap].
  destruct (resizeItem_outcome items iid t qw qh (bounds_of d) Hwf Ht)
    as (r' & l & u & Hm & Hinv & Hu & (Hidu & Hiu & Hxu & Hpu & Hyu) & Hr).
  unfold resizeItem in Hm. rewrite Ht in Hm. rewrite Hm. intros [= <-]. cbn [bound_minH bounds_of] in Hr.
  set (a := resize_place _ _ _ u) in Hr.
  destruct (widget_of_spec _ _ Hw) as (_ & _ & Hspec). pose proof (allowed_sane _ _ Hspec) as Hs.
  destruct Hs as (_ & Hmw & Hmh & _). cbn [snd server_spec MinW MinH] in Hmw, Hmh.
  pose proof (findTarget_Some _ _ _ Ht) as [Hin Hid].
  assert (Hok : shape_ok a).
  { destruct Hd as ((_ & Hsh & _) & _). rewrite Forall_forall in Hsh.
    destruct (Hsh t Hin) as (H1 & spec & H2 & H3 & H4 & H5 & H6 & H7).
    assert (spec = server_spec d) as -> by congruence. cbn [server_spec MinW MinH] in *.
    unfold a, resize_place, with_size, shape_ok, params_of. cbn. rewrite Hidu, Hiu, Hpu.
    split; [done|]. exists (server_spec d). cbn [server_spec MinW MinH]. rewrite Hxu.
    unfold clamp, DASHBOARD_COLUMNS, DASHBOARD_MAX_ROWS, dashboardColumns, maxDashboardRows in *.
    split_and!; try done; lia. }
  split; [apply (resolved_draft items iid t a l _ _ Hd Ht Hinv Hr); [cbn; congruence..|done]|].
  intros t' Ht'. assert (Hy0 : 0 <= y u).
  { apply findTarget_Some in Hu as [Hu _]. destruct Hinv as (_ & _ & Hy & _).
    rewrite Forall_forall in Hy. by apply Hy. }
  destruct (resolve_lands _ _ _ _ _ a Hinv ltac:(cbn; congruence) (proj1 (shape_ok_wf a Hok)) Hy0 Hr)
    as (t'' & Ht'' & Esh & Hle).
  assert (t'' = t') as -> by congruence. rewrite (shape_eq _ _ Esh). cbn in *. split; [congruence|lia].
Qed.

Lemma step_scan_draft n items iid tx ty r0 first r :
  draft items → redraft items first → step_scan n items iid tx ty r0 first = Some r → redraft items r.
Proof.
  intros Hd Hf. revert r0. induction n as [|n IH]; intros r0; cbn [step_scan]; [by intros [= <-]|].
  destruct (moveItem items iid (of_Z tx) (of_Z r0)) as [next|] eqn:Em; [|done]. cbn [mbind option_bind].
  destruct (findTarget next iid) as [u|]; [|done]. cbn [mbind option_bind].
  destruct (ty <? y u); [|apply IH]. intros [= <-]. exact (moveItem_draft _ _ _ _ _ Hd Em).
Qed.
Lemma stepItem_draft items iid dx dy r : draft items →
  stepItem items iid dx dy = Some r → redraft items r.
Proof.
  intros Hd. pose proof (redraft_refl items Hd) as Hid0. unfold stepItem. destruct (findTarget items iid) as [t|]; [|by intros [= <-]].
  destruct dx as [| |qx]; [by intros [= <-]..|]. destruct dy as [| |qy]; [by intros [= <-]..|].
  destruct (moveItem items iid _ _) as [first|] eqn:Em; [|done]. cbn [mbind option_bind].
  apply moveItem_draft in Em; [|done]. destruct (_ || _); [by intros [= <-]|].
  destruct (findTarget first iid) as [u|]; [|done]. cbn [mbind option_bind].
  destruct (_ <? _); [by intros [= <-]|]. by apply step_scan_draft.
Qed.
Lemma resizeItemBy_draft items iid d dw dh r :
  draft items → sizable iid d items → resizeItemBy items iid dw dh (bounds_of d) = Some r →
  redraft items r ∧ sizable iid d r.
Proof.
  intros Hd Hs. pose proof (redraft_refl items Hd) as Hid0. unfold resizeItemBy. destruct (findTarget items iid); [|by intros [= <-]].
  by apply resizeItem_draft.
Qed.
Lemma aim_passes_draft n out iid cell cur d r :
  draft out → sizable iid d out → aim_passes n out iid cell cur (bounds_of d) = Some r →
  redraft out r ∧ sizable iid d r.
Proof.
  revert out cur. induction n as [|n IH]; intros out cur Hd Hs; cbn [aim_passes];
    pose proof (redraft_refl out Hd) as Hid0; [by intros [= <-]|].
  destruct (findTarget out iid) as [u|]; [|done]. cbn [mbind option_bind].
  destruct (y u =? y cur); [by intros [= <-]|].
  destruct (aim out iid cell u (bounds_of d)) as [out'|] eqn:Ea; [|done]. cbn [mbind option_bind].
  apply resizeItem_draft in Ea as [Hd' Hs']; [|done..].
  intros [Hr Hs'']%IH; [|apply Hd'|done]. split; [by eapply redraft_trans|done].
Qed.
Lemma resizeItemToCell_draft items iid d cell r :
  draft items → sizable iid d items → resizeItemToCell items iid cell (bounds_of d) = Some r →
  redraft items r ∧ sizable iid d r.
Proof.
  intros Hd Hs. pose proof (redraft_refl items Hd) as Hid0. unfold resizeItemToCell. destruct (findTarget items iid) as [t|]; [|by intros [= <-]].
  destruct (aim items iid cell t (bounds_of d)) as [out|] eqn:Ea; [|done]. cbn [mbind option_bind].
  apply resizeItem_draft in Ea as [Hd' Hs']; [|done..].
  intros [Hr Hs'']%aim_passes_draft; [|apply Hd'|done]. split; [by eapply redraft_trans|done].
Qed.
Lemma storable_sizable items it d : draft items → under_cap items → it ∈ items →
  widget_of (id it) = Some d → sizable (instanceId it) d items.
Proof.
  intros (Hc & _) Hu Hit Hw t Ht. pose proof (findTarget_unique _ _ it (proj1 Hc) Hit eq_refl).
  assert (t = it) as -> by congruence. split; [done|].
  destruct Hc as (_ & Hsh & _). unfold under_cap in Hu. rewrite Forall_forall in Hsh, Hu.
  specialize (Hu it Hit). destruct (Hsh it Hit) as (_ & spec & Hs & _ & Hh & _).
  destruct (widget_of_spec _ _ Hw) as (_ & _ & Hs'). assert (spec = server_spec d) as -> by congruence.
  cbn [server_spec MinH] in Hh. lia.
Qed.

(** ** Rendering a draft *)

Lemma allowed_is_widget k spec : assoc k allowedWidgets = Some spec → is_Some (widget_of k).
Proof.
  intros H%assoc_elem_of.
  assert (Hall : forallb (λ kv, match widget_of kv.1 with Some _ => true | None => false end)
    allowedWidgets = true) by (vm_compute; reflexivity).
  rewrite forallb_forall in Hall. apply list_elem_of_In in H. specialize (Hall _ H). cbn in Hall.
  by destruct (widget_of k).
Qed.
Lemma asRendered_items cfg : cards (config_items cfg) →
  config_items (asRendered cfg) = compact (config_items cfg).
Proof.
  intros (Hnd & Hsh & _). unfold asRendered. cbn [config_items with_items].
  rewrite (proj1 (resolveRenderable_items widget_of (config_items cfg) Hnd)). f_equal.
  apply filter_all. eapply Forall_impl; [done|]. intros it (_ & spec & Hs & _). by eapply allowed_is_widget.
Qed.
(** What the grid renders of storable cards is storable. *)
Lemma rendered_storable cfg items : envelope cfg → draft items → under_cap items →
  (length items ≤ maxDashboardItems)%nat → storable (asRendered (with_items cfg items)).
Proof.
  intros He Hd Hu Hn. pose proof Hd as (Hc & _). apply storable_iff. rewrite asRendered_items by done.
  cbn [config_items with_items]. split; [done|]. split; [|split; [by apply compact_draft|by apply compact_under_cap]].
  pose proof (Permutation_length (compact_shape items)) as E. rewrite !length_fmap in E. lia.
Qed.

(** ** The dialog's answer *)

Lemma assoc_ext_perm {V} (p q : list (jstring * V)) :
  NoDup p.*1 → NoDup q.*1 → (∀ k, assoc k p = assoc k q) → p ≡ₚ q.
Proof.
  intros Hp Hq E. apply NoDup_Permutation; [by eapply NoDup_fmap_1..|]. intros [k v]. split; intros Hin.
  - apply assoc_elem_of. rewrite <- E. by apply assoc_NoDup.
  - apply assoc_elem_of. rewrite E. by apply assoc_NoDup.
Qed.
Lemma widget_params d : d ∈ WIDGETS →
  ordinary_params d ∧ declared_keys d ⊆ KNOWN_PARAM_KEYS ∧
  Forall wire_ok (declared_keys d) ∧ Forall (λ kv, kv.2 = []) (default [] (def_params d)).
Proof.
  intros Hd. assert (H : forallb (λ d,
    bool_decide (NoDup (declared_keys d)) &&
    forallb (λ k, negb (bool_decide (k ∈ OBJECT_PROTOTYPE))) (declared_keys d) &&
    forallb (λ k, bool_decide (k ∈ KNOWN_PARAM_KEYS)) (declared_keys d) &&
    forallb (λ k, bool_decide (wire_ok k)) (declared_keys d) &&
    forallb (λ kv, bool_decide (kv.2 = [])) (default [] (def_params d))) WIDGETS = true)
    by (vm_compute; reflexivity).
  rewrite forallb_forall in H. apply list_elem_of_In, H in Hd. rewrite !andb_true_iff in Hd.
  destruct Hd as [[[[H1 H2] H3] H4] H5]. reflect_bools. rewrite forallb_forall in H2, H4, H5.
  split_and!; [split; [done|]|by apply forallb_subset|..]; apply Forall_forall; intros k Hk%list_elem_of_In.
  - apply H2 in Hk. by reflect_bools.
  - apply H4 in Hk. by reflect_bools.
  - apply H5 in Hk. by reflect_bools.
Qed.
Lemma first_error_none declared next keys : first_error declared next keys = Some None →
  Forall (λ k, paramValueError k (own_value next k) (default [] (assoc k declared)) = Some None) keys.
Proof.
  induction keys as [|k keys IH]; cbn [first_error]; [constructor|].
  destruct (paramValueError _ _ _) as [[m|]|] eqn:E; [done| |done]. cbn [mbind option_bind].
  intros H. constructor; [done|by apply IH].
Qed.
Lemma dialog_answer d placed editing values next : d ∈ WIDGETS →
  dialog_confirm d placed editing values = Some (inr next) →
  NoDup next.*1 ∧ next.*1 ≡ₚ declared_keys d ∧ Forall (λ kv, value_ok kv.1 kv.2) next ∧
  duplicatePlacementOf placed (def_id d) next (instanceId <$> editing) = None.
Proof.
  intros Hd. unfold dialog_confirm. cbn zeta. set (declared := default [] (def_params d)).
  set (nx := (λ k, (k, js_trim (own_value values k))) <$> object_keys declared).
  destruct (missingParamKeys (Some declared) nx) as [|]; [|done].
  destruct (first_error declared nx (object_keys declared)) as [[m|]|] eqn:Ef; [done| |done].
  cbn [mbind option_bind]. destruct (duplicatePlacementOf placed (def_id d) nx _) eqn:Ed; [done|].
  intros [= <-]. destruct (widget_params d Hd) as ([Hnd _] & Hkn & _ & Hopen).
  assert (Ek : nx.*1 = object_keys declared).
  { unfold nx. rewrite <- list_fmap_compose. apply list_fmap_id. }
  assert (Hp : nx.*1 ≡ₚ declared_keys d) by (rewrite Ek; apply object_keys_perm).
  assert (Hndx : NoDup nx.*1) by (by rewrite Hp). split_and!; try done.
  apply first_error_none in Ef. apply Forall_forall. intros [k v] Hkv. rewrite <- Ek, Forall_forall in Ef.
  assert (Hk : k ∈ nx.*1) by (by apply (assoc_In_keys _ k v)). pose proof (Ef k Hk) as He.
  unfold own_value in He. rewrite (assoc_NoDup k v) in He by done. cbn [default from_option] in He.
  apply paramValueError_value; [by apply Hkn; rewrite <- Hp|].
  assert (default [] (assoc k declared) = []) as E0; [|by rewrite E0 in He].
  destruct (assoc k declared) as [l|] eqn:Ea; [|done]. apply assoc_elem_of in Ea.
  rewrite Forall_forall in Hopen. by apply (Hopen (k, l)).
Qed.
(** Narrowing the dialog's answer to the declared keys keeps all of it. *)
Lemma narrow_answer d next r : d ∈ WIDGETS → NoDup next.*1 → next.*1 ≡ₚ declared_keys d →
  Forall (λ kv, value_ok kv.1 kv.2) next → narrowParams d next = Some r → r ≡ₚ next.
Proof.
  intros Hd Hnd Hp Hv Hr. destruct (widget_params d Hd) as (Hord & _).
  apply assoc_ext_perm; [by eapply narrowParams_NoDup|done|]. intros k.
  rewrite (narrowParams_lookup d next r k Hord Hr). rewrite Forall_forall in Hv.
  destruct (assoc k next) as [v|] eqn:Ek.
  - apply assoc_elem_of in Ek. rewrite decide_True by (rewrite <- Hp; by apply (assoc_In_keys _ k v)).
    destruct (Hv _ Ek) as (Hne & _). cbn in Hne. by rewrite (proj2 (js_eqb_neq _ _) Hne).
  - by destruct (decide _).
Qed.
Lemma answer_params_ok d next r : d ∈ WIDGETS → NoDup next.*1 → next.*1 ≡ₚ declared_keys d →
  Forall (λ kv, value_ok kv.1 kv.2) next → Forall (λ kv, wire_ok kv.2) next → r ≡ₚ next →
  params_ok (server_spec d) r ∧ wire_params r.
Proof.
  intros Hd Hnd Hp Hv Hw E. destruct (widget_params d Hd) as (_ & _ & Hwk & _).
  split; [split; by rewrite E|]. eapply wire_params_perm; [by symmetry|]. split; [done|].
  apply Forall_forall. intros [k v] Hkv. rewrite Forall_forall in Hw.
  rewrite Forall_forall in Hwk. split; [|by apply (Hw _ Hkv)].
  apply Hwk. rewrite <- Hp. by apply (assoc_In_keys _ k v).
Qed.
Lemma no_duplicate items wid next except it : NoDup next.*1 →
  duplicatePlacementOf items wid next except = None → it ∈ items → wire_item it →
  id it = wid → Some (instanceId it) ≠ except → ¬ params_of it ≡ₚ next.
Proof.
  intros Hnd Hdup Hin (_ & _ & Hp & _) Hid Hex E. unfold duplicatePlacementOf in Hdup.
  assert (Hc : canonicalParams (params it) = canonicalParams (Some next)).
  { transitivity (canonicalParams (Some (params_of it))); [unfold params_of; by destruct (params it)|].
    apply canonicalParams_eq_iff; done. }
  assert (Hf : it ∈ filter (λ i, id i = wid ∧ Some (instanceId i) ≠ except ∧
    canonicalParams (params i) = canonicalParams (Some next)) items) by (by apply list_elem_of_filter).
  by destruct (filter _ items); [apply elem_of_nil in Hf|].
Qed.

(** ** The gestures *)

(** [Math.random().toString(36)] after its "0.". *)
Definition base36 (draws : nat → jstring) : Prop :=
  ∀ i, Forall (λ c, is_alnum c = true) (drop 2 (units (draws i))).
(** The values a new placement of [d] starts with: none, or what the dialog
    answered. *)
Definition starts_with (d : WidgetDef) (items : list LayoutItem) (ps : list (jstring * jstring)) : Prop :=
  def_params d = None ∧ ps = [] ∨
  (∃ values, dialog_confirm d items None values = Some (inr ps)) ∧ Forall (λ kv, wire_ok kv.2) ps.

(** The gestures that choose what is on the dashboard. *)
Inductive composes (cfg : DashboardLayoutConfig) : DashboardLayoutConfig → Prop :=
  | compose_add draws fuel n d ps statuses admin cfg' n' :
      d ∈ WIDGETS → base36 draws →
      disabledReasonFor draws fuel n d (config_items cfg) (columns cfg) statuses admin = Some None →
      starts_with d (config_items cfg) ps →
      (∀ iid m, newInstanceId draws fuel n (def_id d) = Some (iid, m) → iid ∉ ids (config_items cfg)) →
      placeWidget draws fuel n cfg d ps = Some (Some cfg', n') →
      composes cfg cfg'
  | compose_repoint it d values next cfg' :
      it ∈ config_items cfg → widget_of (id it) = Some d →
      dialog_confirm d (config_items cfg) (Some it) values = Some (inr next) →
      Forall (λ kv, wire_ok kv.2) next →
      repoint cfg d (instanceId it) next = Some cfg' →
      composes cfg cfg'
  | compose_remove iid :
      composes cfg (with_items cfg (removeItem (config_items cfg) iid))
  | compose_reset : composes cfg (resetLayout cfg)
  | compose_copy entry : storable (copy_config entry) → composes cfg (copyFrom cfg entry).
(** The gestures that move or size one widget. *)
Inductive arranges (cfg : DashboardLayoutConfig) : DashboardLayoutConfig → Prop :=
  | arrange_drag start origin cell r :
      drag (config_items cfg) start origin cell = Some r → arranges cfg (with_items cfg r)
  | arrange_resize it d cell r :
      it ∈ config_items cfg → widget_of (id it) = Some d →
      resizeItemToCell (config_items cfg) (instanceId it) cell (bounds_of d) = Some r →
      arranges cfg (with_items cfg r)
  | arrange_key it d k shift r :
      it ∈ config_items cfg → widget_of (id it) = Some d →
      handleItemKey (config_items cfg) it d k shift = Some r →
      arranges cfg (with_items cfg r).

Lemma snoc_cards items it : cards items → instanceId it ∉ ids items → shape_ok it → wire_item it →
  Forall (λ b, ¬ same_card it b) items → cards (items ++ [it]).
Proof.
  intros Hc H1 H2 H3 H4. apply (cards_perm _ (it :: items)); [by rewrite Permutation_app_comm|].
  by apply cards_cons.
Qed.

Lemma disabled_null draws fuel n d items cols statuses admin :
  disabledReasonFor draws fuel n d items cols statuses admin = Some None →
  (length items < maxDashboardItems)%nat ∧ (def_params d = None → def_id d ∉ id <$> items) ∧
  firstFit items (placed_width d cols) (placed_height d) cols ≠ None.
Proof.
  unfold disabledReasonFor, DASHBOARD_MAX_ITEMS, maxDashboardItems.
  destruct (Z.leb_spec 40 (Z.of_nat (length items))); [done|].
  destruct (availabilityReason _ _ _); [done|].
  destruct (bool_decide (def_params d = None)) eqn:E1; cbn [andb];
    [destruct (bool_decide (def_id d ∈ id <$> items)) eqn:E2; [done|]|]; reflect_bools; intros Hp;
    (split; [lia|]; split; [by intros ?|]); unfold placeNewWidget in Hp;
    by destruct (firstFit _ _ _ _).
Qed.

(** The parameters a new placement carries. *)
Lemma starts_ok d items ps r : d ∈ WIDGETS → cards items →
  (def_params d = None → def_id d ∉ id <$> items) → starts_with d items ps → narrowParams d ps = Some r →
  params_ok (server_spec d) r ∧ wire_params r ∧
  ∀ b, b ∈ items → id b = def_id d → ¬ r ≡ₚ params_of b.
Proof.
  intros Hd Hc Hsingle [[Hnone ->]|[(values & Ha) Hw]] Hr.
  - unfold narrowParams in Hr. rewrite Hnone in Hr. injection Hr as <-.
    unfold params_ok, server_spec. rewrite Hnone. cbn. split_and!; [done|constructor|split; constructor|].
    intros b Hb E. destruct (Hsingle Hnone). rewrite <- E. by apply list_elem_of_fmap_2.
  - apply (dialog_answer d items None values ps Hd) in Ha as (Hnd & Hp & Hv & Hdup).
    pose proof (narrow_answer d ps r Hd Hnd Hp Hv Hr) as E.
    destruct (answer_params_ok d ps r Hd Hnd Hp Hv Hw E) as [H1 H2]. split_and!; [done..|].
    intros b Hb Hid Hr'. destruct Hc as (_ & _ & Hwi & _). rewrite Forall_forall in Hwi.
    apply (no_duplicate items (def_id d) ps None b Hnd Hdup Hb (Hwi b Hb) Hid); [done|].
    by rewrite <- Hr', E.
Qed.

(** What the palette adds. *)
Lemma added_storable cfg draws fuel n d ps statuses admin cfg' n' :
  storable cfg → d ∈ WIDGETS → base36 draws →
  disabledReasonFor draws fuel n d (config_items cfg) (columns cfg) statuses admin = Some None →
  starts_with d (config_items cfg) ps →
  (∀ iid m, newInstanceId draws fuel n (def_id d) = Some (iid, m) → iid ∉ ids (config_items cfg)) →
  placeWidget draws fuel n cfg d ps = Some (Some cfg', n') → storable cfg'.
Proof.
  intros (He & Hn & Hd & Hu)%storable_iff Hw Hb (Hlt & Hsingle & Hfit)%disabled_null Hps Hfresh.
  unfold placeWidget. destruct (placeNewWidget _ _ _ _ _ _ _) as [[[it|] m]|] eqn:Ep; [|done..].
  cbn [mbind option_bind option_map]. intros [= <- <-]. pose proof He as (_ & _ & Hcol). pose proof Hd as (Hc & Hno & Hy).
  destruct (placeNewWidget_inv _ _ _ _ _ _ _ _ _ Ep) as (_ & _ & _ & Hid & Hnar & Hiid).
  destruct (new_id_ok _ _ _ _ _ _ Hw Hb Hiid) as [Hidok Hidw].
  destruct (starts_ok _ _ _ _ Hw Hc Hsingle Hps Hnar) as (Hpok & Hpw & Hdist).
  rewrite Hcol in *.
  assert (Hc1 : 1 <= dashboardColumns) by done.
  destruct (placeNewWidget_fits draws fuel n (config_items cfg) d dashboardColumns ps it m Hc1 Hno Ep)
    as (Hno' & Hx & Hxw & Hy0 & Hyh & _ & _ & Hmh & Hmw).
  destruct (widget_declared d Hw) as (_ & _ & _ & _ & _ & Hdw & _).
  assert (Hshape : shape_ok it).
  { split; [done|]. exists (server_spec d). rewrite Hid. cbn [server_spec MinW MinH].
    split_and!; try done; [by apply widget_known|apply Hmw; lia]. }
  assert (Hwire : wire_item it).
  { split_and!; [done| |done]. rewrite Hid. apply ascii_wire, label_ascii. by apply widget_id_label. }
  apply rendered_storable; [done|..].
  - split; [|split; [done|by apply Forall_app; split; [|constructor]]].
    apply snoc_cards; try done; [by eapply Hfresh|]. apply Forall_forall. intros b Hbin [E1 E2].
    apply (Hdist b Hbin); [congruence|done].
  - apply Forall_app. split; [done|]. constructor; [done|constructor].
  - rewrite length_app. cbn [length]. unfold maxDashboardItems in *. lia.
Qed.

Lemma draft_filter (P : LayoutItem → Prop) `{!∀ a, Decision (P a)} l : draft l → draft (filter P l).
Proof.
  intros (H1 & H2 & H3). split_and!; [by apply cards_sublist|by apply ForallOrdPairs_filter|].
  by apply Forall_filter_1.
Qed.
Lemma replace_perm (f : LayoutItem → LayoutItem) items it : NoDup (ids items) → it ∈ items →
  (λ i, if js_eqb (instanceId i) (instanceId it) then f i else i) <$> items
    ≡ₚ f it :: other_items items (instanceId it).
Proof.
  intros Hnd Hit. rewrite (other_items_perm items it Hnd Hit) at 1. rewrite fmap_cons.
  rewrite (proj2 (js_eqb_eq _ _) eq_refl). constructor.
  assert (E : (λ i, if js_eqb (instanceId i) (instanceId it) then f i else i) <$>
    other_items items (instanceId it) = other_items items (instanceId it)); [|by rewrite E].
  rewrite <- (list_fmap_id (other_items items (instanceId it))) at 2.
  apply list_fmap_ext. intros i a Ha%list_elem_of_lookup_2.
  apply list_elem_of_filter in Ha as [Ha _]. by rewrite (proj2 (js_eqb_neq _ _) Ha).
Qed.
Lemma draft_perm l l' : l ≡ₚ l' → draft l' → draft l.
Proof.
  intros E (H1 & H2 & H3). split_and!; [by apply (cards_perm _ l')|by eapply NoOverlap_perm|by rewrite E].
Qed.
Lemma repointed_storable cfg it d values next cfg' :
  storable cfg → it ∈ config_items cfg → widget_of (id it) = Some d →
  dialog_confirm d (config_items cfg) (Some it) values = Some (inr next) →
  Forall (λ kv, wire_ok kv.2) next → repoint cfg d (instanceId it) next = Some cfg' → storable cfg'.
Proof.
  intros (He & Hn & Hd & Hu)%storable_iff Hit Hw Ha Hwn. unfold repoint.
  destruct (widget_of_spec _ _ Hw) as (Hin & Hdid & Hspec).
  destruct (narrowParams d next) as [r|] eqn:Hr; [|done]. cbn [mbind option_bind].
  apply (dialog_answer d _ _ _ _ Hin) in Ha as (Hnd & Hp & Hv & Hdup).
  pose proof (narrow_answer d next r Hin Hnd Hp Hv Hr) as E.
  destruct (answer_params_ok d next r Hin Hnd Hp Hv Hwn E) as [Hpok Hpw].
  set (f := λ i, {| instanceId := instanceId i; id := id i; x := x i; y := y i; w := w i; h := h i;
                    params := Some r |}).
  pose proof (replace_perm f _ it (proj1 (proj1 Hd)) Hit) as Hperm.
  pose proof (other_items_perm _ it (proj1 (proj1 Hd)) Hit) as Hold.
  intros [= <-]. apply rendered_storable; [done|..].
  - apply (draft_perm _ _ Hperm). apply (draft_perm _ _ (Permutation_sym Hold)) in Hd.
    destruct Hd as ((H1 & H2 & H3 & H4 & H5)%cards_cons & Hno & Hy).
    inversion Hno as [|? ? Hno1 Hno2]; subst. apply Forall_cons in Hy as [Hy1 Hy2].
    split; [|split; [by constructor|by constructor]]. apply cards_cons. split_and!; try done.
    + destruct H2 as (? & spec & Hs & ? & ? & ? & ? & _). split; [done|]. exists (server_spec d).
      assert (spec = server_spec d) as -> by congruence. by split_and!.
    + destruct H3 as (? & ? & _). by split_and!.
    + apply Forall_forall. intros b Hb [E1 E2]. cbn in E1, E2.
      apply list_elem_of_filter in Hb as Hb'. destruct Hb' as [Hne Hbin].
      destruct H5 as (_ & _ & Hwi & _). rewrite Forall_forall in Hwi.
      apply (no_duplicate _ _ next _ b Hnd Hdup Hbin (Hwi b Hb)); [congruence|cbn; congruence|].
      by rewrite <- E2, <- E.
  - unfold under_cap in Hu. rewrite Hold in Hu. apply Forall_cons in Hu as [Hu1 Hu2].
    assert (Hu' : under_cap (f it :: other_items (config_items cfg) (instanceId it))) by (by constructor).
    unfold under_cap in Hu'. by rewrite <- Hperm in Hu'.
  - by rewrite length_fmap.
Qed.
Lemma default_storable : storable DEFAULT_OVERVIEW_LAYOUT.
Proof.
  split; [by apply (bool_decide_unpack _); vm_compute|].
  split; [by apply (bool_decide_unpack _); vm_compute|]. eexists. vm_compute. reflexivity.
Qed.
Lemma replaced_storable cfg c : envelope cfg → storable c →
  storable (asRendered (with_items cfg (config_items c))).
Proof. intros He (_ & Hn & Hd & Hu)%storable_iff. by apply rendered_storable. Qed.
Lemma removed_storable cfg iid :
  storable cfg → storable (with_items cfg (removeItem (config_items cfg) iid)).
Proof.
  intros Hs. unfold removeItem. destruct (findTarget _ _) as [t|]; [|by destruct cfg].
  apply storable_iff in Hs as (He & Hn & Hd & Hu). apply storable_iff. cbn [config_items with_items].
  set (l := filter _ _). assert (Hl : draft l) by (by apply draft_filter).
  assert (Hul : under_cap l) by (by apply Forall_filter_1).
  split; [done|]. split; [|split; [by apply compact_draft, Hl|by apply compact_under_cap]].
  pose proof (Permutation_length (compact_shape l)) as E. rewrite !length_fmap in E.
  rewrite E. etrans; [apply length_filter|done].
Qed.

(** C6. Choosing what is on the dashboard never makes it unsaveable: from a layout
    the server stores, adding a widget the palette offers with values the
    dialog accepts, changing a widget's values, removing one, resetting the
    dashboard or copying a stored one leads to a layout the server stores. *)
Theorem composing_stays_storable cfg cfg' : storable cfg → composes cfg cfg' → storable cfg'.
Proof.
  intros Hs. destruct 1.
  - by eapply added_storable.
  - by eapply repointed_storable.
  - by apply removed_storable.
  - apply storable_iff in Hs as [He _]. apply (replaced_storable _ DEFAULT_OVERVIEW_LAYOUT He default_storable).
  - apply storable_iff in Hs as [He _]. by apply replaced_storable.
Qed.

Lemma arranges_draft cfg cfg' : storable cfg → arranges cfg cfg' →
  envelope cfg' ∧ redraft (config_items cfg) (config_items cfg').
Proof.
  intros (He & _ & Hd & Hu)%storable_iff.
  destruct 1 as [start origin cell r Hr|it d cell r Hit Hw Hr|it d k shift r Hit Hw Hr];
    (split; [done|]); cbn [config_items with_items].
  - by eapply moveItem_draft.
  - eapply resizeItemToCell_draft; [..|done]; [done|]. by apply storable_sizable.
  - unfold handleItemKey in Hr. destruct (KEY_STEPS k) as [dx dy]. destruct shift.
    + eapply resizeItemBy_draft; [..|done]; [done|]. by apply storable_sizable.
    + by eapply stepItem_draft.
Qed.
(** C15. Moving and sizing widgets never loses, duplicates or spoils one, and the
    row cap is the only thing that can keep the result from being stored: it
    is stored exactly when no placement ends below the cap. *)
Theorem arranging_storable_iff cfg cfg' : storable cfg → arranges cfg cfg' →
  ids (config_items cfg') ≡ₚ ids (config_items cfg) ∧
  (storable cfg' ↔ under_cap (config_items cfg')).
Proof.
  intros Hs Ha. destruct (arranges_draft cfg cfg' Hs Ha) as (He & Hd & Hids). split; [done|].
  apply storable_iff in Hs as (_ & Hn & _). rewrite storable_iff.
  assert (length (config_items cfg') = length (config_items cfg)) as ->
    by (apply Permutation_length in Hids; unfold ids in Hids; by rewrite !length_fmap in Hids).
  tauto.
Qed.

(** ** Witnesses *)

Definition dialog_values : list (jstring * jstring) :=
  [("namespace"%js, "prod"%js); ("service"%js, " checkout "%js)].
Definition dialog_answered : list (jstring * jstring) :=
  [("namespace"%js, "prod"%js); ("service"%js, "checkout"%js)].
Definition with_signals_card : DashboardLayoutConfig :=
  match placeWidget demo_draws 20 0 DEFAULT_OVERVIEW_LAYOUT MeshGoldenSignalsWidget dialog_answered with
  | Some (Some cfg, _) => cfg
  | _ => DEFAULT_OVERVIEW_LAYOUT
  end.
Lemma demo_composes : composes DEFAULT_OVERVIEW_LAYOUT with_signals_card.
Proof.
  apply (compose_add _ demo_draws 20 0 MeshGoldenSignalsWidget dialog_answered [] None _ 4).
  - by apply (list_elem_of_lookup_2 _ 15).
  - intros i. unfold demo_draws. destruct (Nat.even i); repeat constructor.
  - vm_compute. reflexivity.
  - right. split; [exists dialog_values; vm_compute; reflexivity|].
    apply (bool_decide_unpack _). vm_compute. exact I.
  - assert (newInstanceId demo_draws 20 0 (def_id MeshGoldenSignalsWidget) =
      Some ("mesh-golden-signals-k3x9k3x9"%js, 4%nat)) as -> by (vm_compute; reflexivity).
    intros iid m [= <- <-]. apply (bool_decide_unpack _). vm_compute. exact I.
  - vm_compute. reflexivity.
Qed.
Lemma composing_stays_storable_witness :
  length (config_items with_signals_card) = 11%nat ∧ storable with_signals_card.
Proof.
  split; [vm_compute; reflexivity|].
  exact (composing_stays_storable DEFAULT_OVERVIEW_LAYOUT with_signals_card default_storable demo_composes).
Defined.
Definition dragged_cell : Cell := {| cx := of_Z 3; cy := of_Z 2 |}.
Definition nodes_item : LayoutItem := default_item "d-nodes"%js "nodes"%js 0 10 4 5.
Definition dragged : list LayoutItem :=
  default [] (drag (config_items DEFAULT_OVERVIEW_LAYOUT) nodes_item
    {| cx := of_Z 0; cy := of_Z 10 |} dragged_cell).
Lemma arranging_storable_iff_witness : storable (with_items DEFAULT_OVERVIEW_LAYOUT dragged).
Proof.
  apply (arranging_storable_iff DEFAULT_OVERVIEW_LAYOUT _ default_storable).
  - apply (arrange_drag _ nodes_item {| cx := of_Z 0; cy := of_Z 10 |} dragged_cell).
    vm_compute. reflexivity.
  - apply (bool_decide_unpack _). vm_compute. exact I.
Defined.
