(* ===== verification/Island.v ===== *)
(** * The editor's state machine: DashboardV2.tsx, DashboardGrid.tsx, EditToolbar.tsx

    The island that shows the dashboard and the grid it mounts, as one machine
    over the events that reach them: the toolbar, the dialogs, the pointer and
    the keyboard on the grid, and the answers of the requests in flight. The
    layout store is the one of LayoutStore.v, the gestures are those of
    Editor.v, and the edit session is the one of EditSession.v by value.

    A handler runs to its end, the signals it wrote render, and the effects of
    the render run, before the next event: [istep]. A control that is not on
    screen, or is disabled, takes no event; a dialog does not take the
    keyboard away from the page behind it (ConfirmDialog.tsx keeps no focus
    inside), so one being open withdraws nothing. *)

From stdpp Require Import base list strings gmap sorting.
From Stdlib Require Import ZArith NArith Lia.
From S2P Require Import Prelude JsValue Uri Types Params Grid Placement EditSession Registry.
From S2P Require Import LayoutValidate WidgetState Widgets LayoutStore Editor.

Open Scope Z_scope.

(** ** State *)

(** An open session: what its objects hold. *)
Record OpenSession := {
  base : DashboardLayoutConfig;
  arrangement : list LayoutItem;
  pinned : Z
}.
Definition open_working (s : OpenSession) : DashboardLayoutConfig := with_items (base s) (arrangement s).
Definition open_at (config : DashboardLayoutConfig) (revision : Z) : OpenSession :=
  {| base := config; arrangement := config_items config; pinned := revision |}.
Definition rearrange (s : OpenSession) (items : list LayoutItem) : OpenSession :=
  {| base := base s; arrangement := items; pinned := pinned s |}.

Inductive SessionKind := dragging | resizing.
(** A pointer session: what its closures captured. *)
Record Gesture := {
  kind : SessionKind;
  start : LayoutItem;
  start_def : WidgetDef;
  origin : Cell;
  last_cell : Cell;
  before : list LayoutItem
}.
Definition NARROW_GRID_WIDTH : Z := 900.
Definition WIDE_GRID_WIDTH : Z := 916.
Record GridState := {
  grid_items : list LayoutItem;
  pointer : option Gesture;
  narrow : bool;
  clientWidth : Z
}.

Record ParamTarget := { target_def : WidgetDef; target_editing : option LayoutItem }.
Record Dialogs := mkDialogs {
  paletteOpen : bool;
  copyOpen : bool;
  paramTarget : option ParamTarget;
  confirmDiscard : bool;
  confirmReset : bool;
  editWarnings : list jstring
}.

(** [saving] and [reloading] carry the request being awaited. [mountedEpoch] is
    the key the grid on screen was mounted with, [drawn] the random numbers
    drawn so far. *)
Record Island := mkIsland {
  store : StoreState;
  session : option OpenSession;
  saving : option nat;
  dialogs : Dialogs;
  conflict : bool;
  saveBlocked : bool;
  reloading : option nat;
  gridSource : DashboardLayoutConfig;
  gridEpoch : nat;
  mountedEpoch : nat;
  mountedGeneration : nat;
  grid : GridState;
  drawn : nat
}.
Definition set_store v i := mkIsland v (session i) (saving i) (dialogs i) (conflict i) (saveBlocked i)
  (reloading i) (gridSource i) (gridEpoch i) (mountedEpoch i) (mountedGeneration i) (grid i) (drawn i).
Definition set_session v i := mkIsland (store i) v (saving i) (dialogs i) (conflict i) (saveBlocked i)
  (reloading i) (gridSource i) (gridEpoch i) (mountedEpoch i) (mountedGeneration i) (grid i) (drawn i).
Definition set_saving v i := mkIsland (store i) (session i) v (dialogs i) (conflict i) (saveBlocked i)
  (reloading i) (gridSource i) (gridEpoch i) (mountedEpoch i) (mountedGeneration i) (grid i) (drawn i).
Definition set_dialogs v i := mkIsland (store i) (session i) (saving i) v (conflict i) (saveBlocked i)
  (reloading i) (gridSource i) (gridEpoch i) (mountedEpoch i) (mountedGeneration i) (grid i) (drawn i).
Definition set_conflict v i := mkIsland (store i) (session i) (saving i) (dialogs i) v (saveBlocked i)
  (reloading i) (gridSource i) (gridEpoch i) (mountedEpoch i) (mountedGeneration i) (grid i) (drawn i).
Definition set_saveBlocked v i := mkIsland (store i) (session i) (saving i) (dialogs i) (conflict i) v
  (reloading i) (gridSource i) (gridEpoch i) (mountedEpoch i) (mountedGeneration i) (grid i) (drawn i).
Definition set_reloading v i := mkIsland (store i) (session i) (saving i) (dialogs i) (conflict i)
  (saveBlocked i) v (gridSource i) (gridEpoch i) (mountedEpoch i) (mountedGeneration i) (grid i) (drawn i).
Definition set_grid v i := mkIsland (store i) (session i) (saving i) (dialogs i) (conflict i)
  (saveBlocked i) (reloading i) (gridSource i) (gridEpoch i) (mountedEpoch i) (mountedGeneration i) v (drawn i).
Definition set_drawn v i := mkIsland (store i) (session i) (saving i) (dialogs i) (conflict i)
  (saveBlocked i) (reloading i) (gridSource i) (gridEpoch i) (mountedEpoch i) (mountedGeneration i) (grid i) v.

Definition set_palette v d := mkDialogs v (copyOpen d) (paramTarget d) (confirmDiscard d) (confirmReset d) (editWarnings d).
Definition set_copy v d := mkDialogs (paletteOpen d) v (paramTarget d) (confirmDiscard d) (confirmReset d) (editWarnings d).
Definition set_target v d := mkDialogs (paletteOpen d) (copyOpen d) v (confirmDiscard d) (confirmReset d) (editWarnings d).
Definition set_discard v d := mkDialogs (paletteOpen d) (copyOpen d) (paramTarget d) v (confirmReset d) (editWarnings d).
Definition set_reset v d := mkDialogs (paletteOpen d) (copyOpen d) (paramTarget d) (confirmDiscard d) v (editWarnings d).
Definition set_warnings v d := mkDialogs (paletteOpen d) (copyOpen d) (paramTarget d) (confirmDiscard d) (confirmReset d) v.
Definition on_dialogs (f : Dialogs → Dialogs) (i : Island) : Island := set_dialogs (f (dialogs i)) i.

(** What the island reads off its state when it renders. *)
Definition signals_of (i : Island) : Signals := signals (store i).
Definition editing (i : Island) : bool := bool_decide (is_Some (session i)).
Definition is_saving (i : Island) : bool := bool_decide (is_Some (saving i)).
Definition editable (i : Island) : bool := editing i && negb (is_saving i).
Definition arrangeable (i : Island) : bool := editable i && negb (narrow (grid i)).
Definition editDisabled (i : Island) : bool :=
  bool_decide (is_Some (layoutUnavailable (signals_of i))) || negb (layoutLoaded (signals_of i))
  || bool_decide (is_Some (reloading i)).
(** The scope of a session is the dashboard's own. *)
Definition copyOptions (i : Island) : list CopyableLayout :=
  match session i with
  | None => []
  | Some s => copyableLayouts widget_of (copyableLayoutRecords (store i)) overview
                (selectedCluster (store i)) (columns (base s))
  end.

(** ** The grid's and the island's shared operations *)

Definition mountGrid (config : DashboardLayoutConfig) (i : Island) : Island :=
  mkIsland (store i) (session i) (saving i) (dialogs i) (conflict i) (saveBlocked i) (reloading i)
    config (S (gridEpoch i)) (mountedEpoch i) (mountedGeneration i) (grid i) (drawn i).
Definition adoptLoadedLayout (i : Island) : Island :=
  mountGrid (layout (signals_of i))
    (mkIsland (store i) (session i) (saving i) (dialogs i) (conflict i) false (reloading i)
      (gridSource i) (gridEpoch i) (mountedEpoch i) (layoutGeneration (signals_of i)) (grid i) (drawn i)).

Definition handleChange (items : list LayoutItem) (i : Island) : Island :=
  match session i with
  | None => i
  | Some s => set_session (Some (rearrange s items)) i
  end.
Definition with_grid_items (items : list LayoutItem) (g : GridState) : GridState :=
  {| grid_items := items; pointer := pointer g; narrow := narrow g; clientWidth := clientWidth g |}.
Definition with_pointer (p : option Gesture) (g : GridState) : GridState :=
  {| grid_items := grid_items g; pointer := p; narrow := narrow g; clientWidth := clientWidth g |}.
Definition setItems (next : list LayoutItem) (i : Island) : Island :=
  handleChange next (set_grid (with_grid_items next (grid i)) i).
(** [end] of [startSession], through [endSession]. *)
Definition endSession (restore : bool) (i : Island) : Island :=
  match pointer (grid i) with
  | None => i
  | Some g =>
      let i1 := if restore then setItems (before g) i else i in
      set_grid (with_pointer None (grid i1)) i1
  end.

(** ** A render and its effects *)

(** A fresh grid: its working copy is what [resolveRenderable] makes of the
    layout it is handed, and it measures itself. *)
Definition mounted_grid (config : DashboardLayoutConfig) (width : Z) : GridState :=
  {| grid_items := item <$> resolveRenderable widget_of (config_items config); pointer := None;
     narrow := width <? NARROW_GRID_WIDTH; clientWidth := width |}.
(** A new key replaces the grid; the old one ends its session on the way out.
    Then the effect that ends a session whose handle is gone. *)
Definition render (i : Island) : Island :=
  let i1 :=
    if (gridEpoch i =? mountedEpoch i)%nat then i
    else
      let i0 := endSession true i in
      mkIsland (store i0) (session i0) (saving i0) (dialogs i0) (conflict i0) (saveBlocked i0)
        (reloading i0) (gridSource i0) (gridEpoch i0) (gridEpoch i0) (mountedGeneration i0)
        (mounted_grid (gridSource i0) (clientWidth (grid i0))) (drawn i0) in
  if arrangeable i1 then i1 else endSession true i1.
(** The effects on the store's generation and on the copy dialog. *)
Definition settle_effects (i : Island) : Island :=
  let i1 := if (layoutGeneration (signals_of i) =? mountedGeneration i)%nat then i
            else render (adoptLoadedLayout i) in
  match copyOptions i1 with
  | [] => on_dialogs (set_copy false) i1
  | _ => i1
  end.
Definition effects (i : Island) : Island := settle_effects (render i).

(** ** The handlers *)

Section Island.
Variable localeCompare : jstring → jstring → comparison.
Variables (draws : nat → jstring) (fuel : nat).

Definition is_dirty (s : OpenSession) : bool :=
  negb (js_eqb (canonicalItems localeCompare (arrangement s))
               (canonicalItems localeCompare (config_items (base s)))).

Definition startEditing (i : Island) : Island * list output :=
  let i1 := on_dialogs (λ d, set_warnings [] (set_target None (set_copy false (set_palette false d)))) i in
  let i2 := set_session (Some (open_at (asRendered (layout (signals_of i))) (layoutRevision (signals_of i)))) i1 in
  let '(st, o) := copyable_begin (store i2) false in
  (set_store st i2, [o]).

(** [placeWidget] *)
Definition place (d : WidgetDef) (ps : list (jstring * jstring)) (s : OpenSession) (i : Island)
    : option Island :=
  '(placed, n) ← placeWidget draws fuel (drawn i) (open_working s) d ps;
  Some (match placed with
        | None => set_drawn n i
        | Some next =>
            mountGrid next
              (on_dialogs (λ dl, set_target None (set_palette false dl))
                (set_session (Some (rearrange s (config_items next))) (set_drawn n i)))
        end).
Definition addWidget (d : WidgetDef) (i : Island) : option Island :=
  match session i, saving i with
  | Some s, None =>
      match def_params d with
      | Some _ =>
          Some (on_dialogs (λ dl, set_target (Some {| target_def := d; target_editing := None |})
                                    (set_palette false dl)) i)
      | None => place d [] s i
      end
  | _, _ => Some i
  end.
Definition confirmParams (values : list (jstring * jstring)) (i : Island) : option Island :=
  match paramTarget (dialogs i), session i, saving i with
  | Some t, Some s, None =>
      match target_editing t with
      | None => place (target_def t) values s i
      | Some it =>
          next ← repoint (open_working s) (target_def t) (instanceId it) values;
          Some (mountGrid next
                 (on_dialogs (set_target None) (set_session (Some (rearrange s (config_items next))) i)))
      end
  | _, _, _ => Some i
  end.
Definition reparameterize (it : LayoutItem) (i : Island) : Island :=
  match session i, saving i, widget_of (id it) with
  | Some _, None, Some d =>
      match def_params d with
      | None => i
      | Some _ =>
          on_dialogs (λ dl, set_target (Some {| target_def := d; target_editing := Some it |})
                              (set_copy false (set_palette false dl))) i
      end
  | _, _, _ => i
  end.
Definition resetToDefault (i : Island) : Island :=
  match session i, saving i with
  | Some s, None =>
      let next := resetLayout (open_working s) in
      mountGrid next (on_dialogs (λ d, set_warnings [] (set_reset false d))
                       (set_session (Some (rearrange s (config_items next))) i))
  | _, _ => i
  end.
Definition takeCopy (entry : CopyableLayout) (i : Island) : Island :=
  match session i, saving i with
  | Some s, None =>
      let next := copyFrom (open_working s) entry in
      mountGrid next (on_dialogs (λ d, set_copy false (set_warnings (copy_warnings entry) d))
                       (set_session (Some (rearrange s (config_items next))) i))
  | _, _ => i
  end.
Definition closeEditing (i : Island) : Island :=
  match session i with
  | None => i
  | Some s =>
      mountGrid (base s)
        (set_session None
          (on_dialogs (λ d, set_warnings [] (set_target None (set_reset false (set_discard false d)))) i))
  end.
Definition requestExit (i : Island) : Island :=
  match session i, saving i with
  | Some s, None => if is_dirty s then on_dialogs (set_discard true) i else closeEditing i
  | _, _ => i
  end.

(** [save] up to its [await], and to its end when [saveLayout] refuses. *)
Definition save (i : Island) : Island * list output :=
  match session i, saving i with
  | Some s, None =>
      if negb (is_dirty s) then (i, [])
      else if negb (pinned s =? layoutRevision (signals_of i)) then
        (set_conflict true (set_saveBlocked true i), [])
      else
        match save_begin (store i) overview (open_working s) false with
        | (st, Put sc c rev cfg) => (set_saving (Some (nextController (store i))) (set_store st i), [Put sc c rev cfg])
        | (st, o) => (set_saveBlocked true (set_store st i), [o])
        end
  | _, _ => (i, [])
  end.
(** The rest of [save], after the answer. *)
Definition save_succeeds (i : Island) : Island :=
  set_saving None (on_dialogs (λ d, set_warnings [] (set_target None d)) (set_session None i)).
Definition save_fails (reason : option jstring) (i : Island) : Island :=
  let i1 := set_saveBlocked true i in
  let i2 := if bool_decide (preferenceReason reason = Some "revision_conflict"%js)
            then set_conflict true i1 else i1 in
  set_saving None i2.

(** [reloadStoredLayout] up to its [await]. *)
Definition reloadStoredLayout (i : Island) : Island * list output :=
  let i1 := on_dialogs (λ d, set_warnings [] (set_target None d)) (set_session None (set_conflict false i)) in
  let '(st, o) := load_begin (store i1) overview false in
  (set_store st (set_reloading (Some (nextController (store i1))) i1), [o]).
(** What follows a settled read: the island awaits its own only. *)
Definition read_settled (ac : nat) (i : Island) : Island :=
  if bool_decide (reloading i = Some ac) then set_reloading None (adoptLoadedLayout i) else i.

(** *** The grid *)

Definition startSession (k : SessionKind) (iid : jstring) (from : Cell) (i : Island) : option Island :=
  match findTarget (grid_items (grid i)) iid, pointer (grid i) with
  | Some it, None =>
      d ← widget_of (id it);
      Some (set_grid (with_pointer (Some {| kind := k; start := it; start_def := d; origin := from;
                                            last_cell := from; before := grid_items (grid i) |}) (grid i)) i)
  | _, _ => Some i
  end.
Definition same_cell (a b : Cell) : bool := num_eqb (cx a) (cx b) && num_eqb (cy a) (cy b).
Definition moved (g : Gesture) (cell : Cell) : Gesture :=
  {| kind := kind g; start := start g; start_def := start_def g; origin := origin g; last_cell := cell;
     before := before g |}.
Definition onMove (g : Gesture) (cell : Cell) (items : list LayoutItem) : option (list LayoutItem) :=
  match kind g with
  | dragging => drag items (start g) (origin g) cell
  | resizing => resizeItemToCell items (instanceId (start g)) cell (bounds_of (start_def g))
  end.
Definition pointerMove (cell : Cell) (i : Island) : option Island :=
  match pointer (grid i) with
  | None => Some i
  | Some g =>
      if same_cell cell (last_cell g) then Some i
      else
        next ← onMove g cell (grid_items (grid i));
        Some (setItems next (set_grid (with_pointer (Some (moved g cell)) (grid i)) i))
  end.
Definition pressKey (it : LayoutItem) (d : WidgetDef) (k : arrow) (shift : bool) (i : Island) : option Island :=
  match pointer (grid i) with
  | Some _ => Some i
  | None => next ← handleItemKey (grid_items (grid i)) it d k shift; Some (setItems next i)
  end.
Definition takeOff (iid : jstring) (i : Island) : Island :=
  match pointer (grid i), findTarget (grid_items (grid i)) iid with
  | None, Some _ => setItems (removeItem (grid_items (grid i)) iid) i
  | _, _ => i
  end.
Definition measure (width : Z) (i : Island) : Island :=
  let g := grid i in
  set_grid {| grid_items := grid_items g; pointer := pointer g;
              narrow := width <? (if narrow g then WIDE_GRID_WIDTH else NARROW_GRID_WIDTH);
              clientWidth := width |} i.

(** ** The machine *)

Inductive ievent :=
  | PressEdit | PressAdd | PressCopy | PressReset | PressCancel | PressSave
  | PickWidget (d : WidgetDef) | ClosePalette
  | PickCopy (n : nat) | CloseCopy
  | SubmitParams (values : list (jstring * jstring)) | CancelParams
  | ConfirmReset | KeepLayout
  | ConfirmDiscard | KeepEditing
  | LoadStored | KeepMine
  | Configure (iid : jstring) | Remove (iid : jstring)
  | PointerDown (k : SessionKind) (iid : jstring) (cell : Cell) | PointerMove (cell : Cell)
  | PointerUp | PointerLost
  | PressKey (iid : jstring) (k : arrow) (shift : bool) | PressEscape
  | GridWidth (width : Z)
  | SaveDone (j : nat) (saved : LayoutResponse) | SaveFails (j : nat) (reason : option jstring)
  | ReadDone (ac : nat) (res : option LayoutResponse)
  | ReadFails (ac : nat) (abort_error : bool) (reason : option jstring)
  | ListDone (ac : nat) (records : list LayoutResponse) | ListFails (ac : nat).

Definition offered (on_screen : bool) (i : Island) : option Island := if on_screen then Some i else None.
Definition silent (i : option Island) : option (Island * list output) := i ← i; Some (i, []).

(** An answer, taken by the store first. *)
Definition answered (e : event) (i : Island) : option Island :=
  '(st, _) ← step widget_of (store i) e; Some (set_store st i).

(** The handler an event reaches. [None]: nothing on screen takes it, or no
    such request is pending. *)
Definition handler (i : Island) (e : ievent) : option (Island * list output) :=
  let d := dialogs i in
  match e with
  | PressEdit => i ← offered (negb (editing i) && negb (editDisabled i)) i; Some (startEditing i)
  | PressAdd => silent (on_dialogs (set_palette true) <$> offered (editable i) i)
  | PressCopy =>
      silent (on_dialogs (set_copy true) <$> offered (editable i && (0 <? length (copyOptions i))%nat) i)
  | PressReset => silent (on_dialogs (set_reset true) <$> offered (editable i) i)
  | PressCancel => silent (requestExit <$> offered (editable i) i)
  | PressSave =>
      s ← session i;
      i ← offered (is_dirty s && negb (is_saving i) && negb (saveBlocked i)) i; Some (save i)
  | PickWidget def => silent (i ← offered (paletteOpen d && editable i) i; addWidget def i)
  | ClosePalette => silent (on_dialogs (set_palette false) <$> offered (paletteOpen d && editable i) i)
  | PickCopy n =>
      silent (i ← offered (copyOpen d && editable i) i; entry ← copyOptions i !! n; Some (takeCopy entry i))
  | CloseCopy => silent (on_dialogs (set_copy false) <$> offered (copyOpen d && editable i) i)
  | SubmitParams values =>
      silent (i ← offered (editable i) i; t ← paramTarget d; s ← session i;
              answer ← dialog_confirm (target_def t) (arrangement s) (target_editing t) values;
              match answer with inl _ => Some i | inr next => confirmParams next i end)
  | CancelParams =>
      silent (on_dialogs (set_target None) <$>
                offered (editable i && bool_decide (is_Some (paramTarget d))) i)
  | ConfirmReset => silent (resetToDefault <$> offered (confirmReset d) i)
  | KeepLayout => silent (on_dialogs (set_reset false) <$> offered (confirmReset d) i)
  | ConfirmDiscard => silent (closeEditing <$> offered (confirmDiscard d) i)
  | KeepEditing => silent (on_dialogs (set_discard false) <$> offered (confirmDiscard d) i)
  | LoadStored => i ← offered (conflict i) i; Some (reloadStoredLayout i)
  | KeepMine => silent (set_conflict false <$> offered (conflict i) i)
  | Configure iid =>
      silent (i ← offered (editable i) i; it ← findTarget (grid_items (grid i)) iid; Some (reparameterize it i))
  | Remove iid => silent (takeOff iid <$> offered (editable i) i)
  | PointerDown k iid cell => silent (i ← offered (arrangeable i) i; startSession k iid cell i)
  | PointerMove cell => silent (pointerMove cell i)
  | PointerUp => silent (Some (endSession false i))
  | PointerLost => silent (Some (endSession true i))
  | PressKey iid k shift =>
      silent (i ← offered (arrangeable i) i; it ← findTarget (grid_items (grid i)) iid;
              def ← widget_of (id it); pressKey it def k shift i)
  | PressEscape =>
      silent (i ← offered (arrangeable i) i;
              Some (match pointer (grid i) with Some _ => i | None => requestExit i end))
  | GridWidth width => silent (Some (measure width i))
  | SaveDone j saved =>
      silent (i ← offered (bool_decide (saving i = Some j)) i; save_succeeds <$> answered (SaveOk j saved) i)
  | SaveFails j reason =>
      silent (i ← offered (bool_decide (saving i = Some j)) i; save_fails reason <$> answered (SaveErr j) i)
  | ReadDone ac res => silent (read_settled ac <$> answered (LoadOk ac res) i)
  | ReadFails ac ab reason => silent (read_settled ac <$> answered (LoadErr ac ab reason) i)
  | ListDone ac records => silent (answered (CopyableOk ac records) i)
  | ListFails ac => silent (answered (CopyableErr ac) i)
  end.
Definition istep (i : Island) (e : ievent) : option (Island * list output) :=
  '(i', os) ← handler i e; Some (effects i', os).
Fixpoint irun (i : Island) (es : list ievent) : option Island :=
  match es with
  | [] => Some i
  | e :: es' => '(i', _) ← istep i e; irun i' es'
  end.
End Island.

(** The island as mounted: the default layout on the grid, the read of the
    stored one in flight. *)
Definition no_dialogs : Dialogs := mkDialogs false false None false false [].
Definition mounted (cluster : jstring) (width : Z) : Island :=
  let st := (load_begin (initial cluster) overview false).1 in
  mkIsland st None None no_dialogs false false None DEFAULT_OVERVIEW_LAYOUT 0 0 0
    (mounted_grid DEFAULT_OVERVIEW_LAYOUT width) 0.

(** ** Layouts the grid leaves as they are *)

Definition normal (l : list LayoutItem) : Prop :=
  layout_wf l ∧ compact l = l ∧ Forall (λ it, is_Some (widget_of (id it))) l.

Lemma compact_layout_wf l : layout_wf l → layout_wf (compact l).
Proof.
  intros (Hnd & Hwf & _ & Hc). pose proof (compact_shape l) as E. split_and!.
  - by rewrite ids_shape, E, <- ids_shape.
  - by apply compact_wf.
  - apply compact_nonneg.
  - apply (Forall_shape _ _ l in_columns_shape); done.
Qed.
Lemma layout_wf_filter (P : LayoutItem → Prop) `{!∀ a, Decision (P a)} l :
  layout_wf l → layout_wf (filter P l).
Proof.
  intros (Hnd & ? & ? & ?). split_and!; [|by apply Forall_filter_1..].
  unfold ids. eapply sublist_NoDup; [exact Hnd|]. apply fmap_sublist, sublist_filter.
Qed.
Lemma known_shape a b : shape a = shape b → is_Some (widget_of (id a)) → is_Some (widget_of (id b)).
Proof. by intros ->%shape_eq. Qed.
Lemma compact_normal l :
  layout_wf l → Forall (λ it, is_Some (widget_of (id it))) l → normal (compact l).
Proof.
  intros Hwf Hk. split; [by apply compact_layout_wf|]. split; [apply compact_idemp_wf, Hwf|].
  apply (Forall_shape _ _ l known_shape); [apply compact_shape|done].
Qed.
Lemma asRendered_shown cfg : layout_wf (config_items cfg) →
  config_items (asRendered cfg)
    = compact (filter (λ it, is_Some (widget_of (id it))) (config_items cfg)).
Proof. intros (Hnd & _). exact (proj1 (resolveRenderable_items widget_of _ Hnd)). Qed.
Lemma asRendered_normal cfg : layout_wf (config_items cfg) → normal (config_items (asRendered cfg)).
Proof.
  intros Hwf. rewrite asRendered_shown by done. apply compact_normal; [by apply layout_wf_filter|].
  apply Forall_forall. by intros it [Hit _]%list_elem_of_filter.
Qed.
(** A grid mounted from a normal layout shows it as it is. *)
Lemma normal_shown l : normal l → item <$> resolveRenderable widget_of l = l.
Proof.
  intros ((Hnd & _) & Hc & Hk). rewrite (proj1 (resolveRenderable_items widget_of l Hnd)).
  by rewrite filter_all.
Qed.
Lemma normal_mounted cfg width : normal (config_items cfg) →
  grid_items (mounted_grid cfg width) = config_items cfg.
Proof. apply normal_shown. Qed.
Lemma default_normal : normal (config_items DEFAULT_OVERVIEW_LAYOUT).
Proof.
  assert (Hwf : layout_wf (config_items DEFAULT_OVERVIEW_LAYOUT)).
  { split; [by apply (bool_decide_unpack _)|split; [|split]; repeat constructor; done]. }
  split; [done|]. split; [vm_compute; reflexivity|].
  repeat constructor; vm_compute; eauto.
Qed.

(** Every gesture of the grid keeps a layout normal. *)
Lemma resolved_normal items iid t a l r (T : LayoutItem → Prop) :
  normal items → findTarget items iid = Some t → pass_inv iid T items l → resolve l a = Some r →
  instanceId a = iid → id a = id t → item_wf a → in_columns a → normal r.
Proof.
  intros ((Hnd & Hwf & Hy & Hc) & _ & Hk) [Ht Hid]%findTarget_Some Hinv Hr Ea Eid Hwa Hca.
  pose proof (pass_inv_others _ _ _ _ _ a Hinv Ea Hr) as Hsh.
  destruct (resolve_ids l a r) as [Hndr _]; [by destruct Hinv|done|].
  destruct (resolve_layout _ _ _ Hr) as (_ & _ & Hyr & _).
  assert (HF : ∀ P : LayoutItem → Prop, (∀ a b, shape a = shape b → P a → P b) →
             P a → Forall P items → Forall P r).
  { intros P HP Ha Hall. apply (Forall_shape P r (a :: other_items items iid)); [done..|].
    constructor; [done|]. by apply Forall_filter_1. }
  assert (Hwr : Forall item_wf r) by (by apply HF; [apply item_wf_shape|..]).
  split; [split_and!; try done; by apply HF; [apply in_columns_shape|..]|]. split.
  - destruct (resolve_inv _ _ _ Hr) as (placed & -> & _). apply compact_idemp_wf.
    eapply (Forall_shape _ _ (compact placed) item_wf_shape); [by symmetry; apply compact_shape|done].
  - apply HF; [exact known_shape| |done]. rewrite Eid. rewrite Forall_forall in Hk. by apply Hk.
Qed.
Lemma moveItem_normal items iid nx ny r :
  normal items → moveItem items iid nx ny = Some r → normal r.
Proof.
  intros Hn. unfold moveItem. destruct (findTarget items iid) as [t|] eqn:Ht; [|by intros [= <-]].
  destruct nx as [| |qx]; [by intros [= <-]..|]. destruct ny as [| |qy]; [by intros [= <-]..|].
  pose proof Hn as (Hwf & _). destruct (moveItem_outcome items iid t qx qy Hwf Ht) as (r' & l & Hm & Hinv & Hr).
  unfold moveItem in Hm. rewrite Ht in Hm. rewrite Hm. intros [= <-].
  destruct (findTarget_wf _ _ _ Hwf Ht) as (Hwt & _ & Hct & Hid).
  eapply (resolved_normal items iid t); try done. by apply move_place_in_columns.
Qed.
Lemma resizeItem_normal items iid nw nh bounds r :
  normal items → resizeItem items iid nw nh bounds = Some r → normal r.
Proof.
  intros Hn. unfold resizeItem. destruct (findTarget items iid) as [t|] eqn:Ht; [|by intros [= <-]].
  destruct nw as [| |qw]; [by intros [= <-]..|]. destruct nh as [| |qh]; [by intros [= <-]..|].
  pose proof Hn as (Hwf & _). destruct (resizeItem_outcome items iid t qw qh bounds Hwf Ht)
    as (r' & l & u & Hm & Hinv & Hu & (Hidu & Hiu & Hxu & _ & _) & Hr).
  unfold resizeItem in Hm. rewrite Ht in Hm. rewrite Hm. intros [= <-].
  destruct (findTarget_wf _ _ _ Hwf Ht) as ([Hw _] & _ & [Hx0 Hx1] & Hid).
  eapply (resolved_normal items iid t); try done; [cbn; congruence..|unfold item_wf; cbn; lia|].
  unfold in_columns. cbn. rewrite Hxu. unfold clamp in *. lia.
Qed.
Lemma step_scan_normal n items iid tx ty r0 first r :
  normal items → normal first → step_scan n items iid tx ty r0 first = Some r → normal r.
Proof.
  intros Hn Hf. revert r0. induction n as [|n IH]; intros r0; cbn [step_scan]; [by intros [= <-]|].
  destruct (moveItem items iid (of_Z tx) (of_Z r0)) as [next|] eqn:Em; [|done]. cbn [mbind option_bind].
  destruct (findTarget next iid) as [u|]; [|done]. cbn [mbind option_bind].
  destruct (ty <? y u); [|apply IH]. intros [= <-]. exact (moveItem_normal _ _ _ _ _ Hn Em).
Qed.
Lemma stepItem_normal items iid dx dy r :
  normal items → stepItem items iid dx dy = Some r → normal r.
Proof.
  intros Hn. unfold stepItem. destruct (findTarget items iid) as [t|]; [|by intros [= <-]].
  destruct dx as [| |qx]; [by intros [= <-]..|]. destruct dy as [| |qy]; [by intros [= <-]..|].
  destruct (moveItem items iid _ _) as [first|] eqn:Em; [|done]. cbn [mbind option_bind].
  apply moveItem_normal in Em; [|done]. destruct (_ || _); [by intros [= <-]|].
  destruct (findTarget first iid) as [u|]; [|done]. cbn [mbind option_bind].
  destruct (_ <? _); [by intros [= <-]|]. by apply step_scan_normal.
Qed.
Lemma aim_passes_normal n out iid cell cur bounds r :
  normal out → aim_passes n out iid cell cur bounds = Some r → normal r.
Proof.
  revert out cur. induction n as [|n IH]; intros out cur Hn; cbn [aim_passes]; [by intros [= <-]|].
  destruct (findTarget out iid) as [u|]; [|done]. cbn [mbind option_bind].
  destruct (y u =? y cur); [by intros [= <-]|].
  destruct (aim out iid cell u bounds) as [out'|] eqn:Ea; [|done]. cbn [mbind option_bind].
  apply IH. by eapply resizeItem_normal.
Qed.
Lemma resizeItemToCell_normal items iid cell bounds r :
  normal items → resizeItemToCell items iid cell bounds = Some r → normal r.
Proof.
  intros Hn. unfold resizeItemToCell. destruct (findTarget items iid) as [t|]; [|by intros [= <-]].
  destruct (aim items iid cell t bounds) as [out|] eqn:Ea; [|done]. cbn [mbind option_bind].
  apply aim_passes_normal. by eapply resizeItem_normal.
Qed.
Lemma onMove_normal g cell items r : normal items → onMove g cell items = Some r → normal r.
Proof.
  intros Hn. unfold onMove. destruct (kind g); [by apply moveItem_normal|by apply resizeItemToCell_normal].
Qed.
Lemma handleItemKey_normal items it d k shift r :
  normal items → handleItemKey items it d k shift = Some r → normal r.
Proof.
  intros Hn. unfold handleItemKey. destruct (KEY_STEPS k) as [dx dy]. destruct shift.
  - unfold resizeItemBy. destruct (findTarget _ _); [by apply resizeItem_normal|by intros [= <-]].
  - by apply stepItem_normal.
Qed.
Lemma removeItem_normal items iid : normal items → normal (removeItem items iid).
Proof.
  intros Hn. unfold removeItem. destruct (findTarget _ _); [|done].
  destruct Hn as (Hwf & _ & Hk). apply compact_normal; [by apply layout_wf_filter|by apply Forall_filter_1].
Qed.

(** ** What a render leaves alone *)

(** The loaded layout and revision of the open session. *)
Definition pin (i : Island) : option (DashboardLayoutConfig * Z) :=
  (λ s, (base s, pinned s)) <$> session i.
Definition core (i : Island) := (store i, pin i, reloading i, saving i, conflict i).

Lemma handleChange_core items i : core (handleChange items i) = core i.
Proof. unfold handleChange. destruct (session i) as [s|] eqn:E; [|done]. unfold core, pin. cbn. by rewrite E. Qed.
Lemma handleChange_rest items i :
  saveBlocked (handleChange items i) = saveBlocked i ∧
  mountedGeneration (handleChange items i) = mountedGeneration i ∧
  gridEpoch (handleChange items i) = gridEpoch i ∧ mountedEpoch (handleChange items i) = mountedEpoch i.
Proof. unfold handleChange. by destruct (session i). Qed.
(** [j] differs from [i] at most in what is on the grid and in the dialogs. *)
Definition calm_change (i j : Island) : Prop :=
  core j = core i ∧ saveBlocked j = saveBlocked i ∧ mountedGeneration j = mountedGeneration i.
#[export] Instance calm_change_preorder : PreOrder calm_change.
Proof.
  split; [by intros i|]. intros a b c (H1 & H2 & H3) (H4 & H5 & H6). unfold calm_change. by rewrite H4, H5, H6.
Qed.
Lemma setItems_calm next i : calm_change i (setItems next i).
Proof.
  unfold setItems. set (j := set_grid _ i).
  destruct (handleChange_rest next j) as (H1 & H2 & _). split_and!; [by rewrite handleChange_core|done|done].
Qed.
Lemma endSession_calm b i : calm_change i (endSession b i).
Proof.
  unfold endSession. destruct (pointer (grid i)) as [g|]; [|done]. destruct b; [|done].
  exact (setItems_calm (before g) i).
Qed.
Lemma render_calm i : calm_change i (render i).
Proof.
  unfold render. set (i1 := if (gridEpoch i =? mountedEpoch i)%nat then i else _).
  assert (H1 : calm_change i i1).
  { subst i1. destruct (_ =? _)%nat; [done|]. exact (endSession_calm true i). }
  destruct (arrangeable i1); [done|]. etrans; [exact H1|apply endSession_calm].
Qed.
Lemma effects_core i :
  core (effects i) = core i ∧ mountedGeneration (effects i) = layoutGeneration (signals_of i) ∧
  (mountedGeneration i = layoutGeneration (signals_of i) → saveBlocked (effects i) = saveBlocked i).
Proof.
  unfold effects, settle_effects. destruct (render_calm i) as (Hc & Hb & Hg). set (j := render i) in *.
  clearbody j. assert (Es : signals_of j = signals_of i)
    by (unfold signals_of; injection Hc as -> _ _ _ _; done).
  rewrite Es, Hg. set (k := if (_ =? _)%nat then j else _).
  assert (Hk : core k = core i ∧ mountedGeneration k = layoutGeneration (signals_of i) ∧
    (mountedGeneration i = layoutGeneration (signals_of i) → saveBlocked k = saveBlocked i)).
  { subst k. destruct (Nat.eqb_spec (layoutGeneration (signals_of i)) (mountedGeneration i)) as [E|E].
    - by rewrite Hg, E.
    - destruct (render_calm (adoptLoadedLayout j)) as (Hc' & _ & Hg').
      rewrite Hc', Hg'. cbn [adoptLoadedLayout mountGrid mountedGeneration]. rewrite Es.
      split_and!; [by rewrite <- Hc|done|by intros ?]. }
  clearbody k. by destruct (copyOptions k).
Qed.

(** ** The invariant of every run *)

(** A read is outstanding only while nothing is being edited, and an open
    session is over the store's own layout and revision. *)
Definition island_inv (i : Island) : Prop :=
  let sg := signals_of i in
  (length (loads (store i)) ≤ 1)%nat ∧
  (reloading i = None → layoutLoaded sg = true → loads (store i) = []) ∧
  (∀ ac, reloading i = Some ac →
     Forall (λ p, ld_ac p = ac) (loads (store i)) ∧ pin i = None ∧ saving i = None ∧ conflict i = false) ∧
  (∀ c r, pin i = Some (c, r) →
     layoutLoaded sg = true ∧ c = asRendered (layout sg) ∧ r = layoutRevision sg) ∧
  (is_Some (saving i) → layoutLoaded sg = true ∧ saveBlocked i = false) ∧
  (conflict i = true → layoutLoaded sg = true ∧ saveBlocked i = true).

Lemma island_inv_effects i :
  (mountedGeneration i = layoutGeneration (signals_of i) ∨ saving i = None ∧ conflict i = false) →
  island_inv i → island_inv (effects i) ∧ mountedGeneration (effects i) = layoutGeneration (signals_of (effects i)).
Proof.
  intros Hg Hi. destruct (effects_core i) as (Hc & Hg' & Hb). unfold core in Hc.
  injection Hc as Est Epin Er Esv Ecf. unfold island_inv, signals_of in *. rewrite Est, Epin, Er, Esv, Ecf, Hg'.
  split; [|done]. destruct Hi as (H1 & H2 & H3 & H4 & H5 & H6). split_and!; try done.
  - destruct Hg as [Hg|[Hs _]]; [by rewrite Hb|]. rewrite Hs. by intros [? ?].
  - destruct Hg as [Hg|[_ Hs]]; [by rewrite Hb|]. by rewrite Hs.
Qed.

(** [j] keeps the store and every request; at most a session or a message is
    closed. *)
Definition eases (i j : Island) : Prop :=
  store j = store i ∧ reloading j = reloading i ∧ saving j = saving i ∧
  (pin j = pin i ∨ pin j = None) ∧ (conflict j = conflict i ∨ conflict j = false) ∧
  saveBlocked j = saveBlocked i ∧ mountedGeneration j = mountedGeneration i.
Lemma calm_eases i j : calm_change i j → eases i j.
Proof. intros (H & ? & ?). unfold core in H. injection H as ? ? ? ? ?. unfold eases. auto 10. Qed.
Lemma inv_eases i j : eases i j → island_inv i → island_inv j.
Proof.
  intros (Es & Er & Ev & Ep & Ec & Eb & _) (H1 & H2 & H3 & H4 & H5 & H6).
  unfold island_inv, signals_of in *. rewrite Es, Er, Ev, Eb. split_and!; try done.
  - intros ac Hac. destruct (H3 ac Hac) as (? & Hp & ? & Hc). split_and!; try done.
    + by destruct Ep as [-> | ->].
    + by destruct Ec as [-> | ->].
  - destruct Ep as [-> | ->]; [done|by intros].
  - by destruct Ec as [-> | ->].
Qed.
(** A session is moved along with its grid. *)
Lemma rearrange_calm s items i j : session i = Some s →
  calm_change i j → calm_change i (set_session (Some (rearrange s items)) j).
Proof.
  intros Hs (H & ? & ?). unfold calm_change, core, pin in *. cbn. rewrite Hs in *. injection H as -> _ -> -> ->.
  done.
Qed.

Section Steps.
Variable localeCompare : jstring → jstring → comparison.
Variables (draws : nat → jstring) (fuel : nat).

Lemma place_calm d ps s i i' : session i = Some s →
  place draws fuel d ps s i = Some i' → calm_change i i'.
Proof.
  intros Hs. unfold place. destruct (placeWidget _ _ _ _ _ _) as [[[next|] n]|]; [| |done]; intros [= <-].
  - exact (rearrange_calm s (config_items next) i (set_drawn n i) Hs ltac:(done)).
  - done.
Qed.
Lemma addWidget_calm d i i' : addWidget draws fuel d i = Some i' → calm_change i i'.
Proof.
  unfold addWidget. destruct (session i) as [s|] eqn:Es, (saving i); try by intros [= <-].
  destruct (def_params d); [by intros [= <-]|]. by apply place_calm.
Qed.
Lemma confirmParams_calm values i i' : confirmParams draws fuel values i = Some i' → calm_change i i'.
Proof.
  unfold confirmParams. destruct (paramTarget (dialogs i)) as [t|], (session i) as [s|] eqn:Es, (saving i);
    try by intros [= <-].
  destruct (target_editing t) as [it|]; [|by apply place_calm].
  destruct (repoint _ _ _ _) as [next|]; [|done]. intros [= <-].
  exact (rearrange_calm s (config_items next) i i Es ltac:(done)).
Qed.
Lemma reparameterize_calm it i : calm_change i (reparameterize it i).
Proof. unfold reparameterize. by repeat case_match. Qed.
Lemma resetToDefault_calm i : calm_change i (resetToDefault i).
Proof.
  unfold resetToDefault. destruct (session i) as [s|] eqn:Es, (saving i); try done.
  exact (rearrange_calm s _ i i Es ltac:(done)).
Qed.
Lemma takeCopy_calm entry i : calm_change i (takeCopy entry i).
Proof.
  unfold takeCopy. destruct (session i) as [s|] eqn:Es, (saving i); try done.
  exact (rearrange_calm s _ i i Es ltac:(done)).
Qed.
Lemma startSession_calm k iid cell i i' : startSession k iid cell i = Some i' → calm_change i i'.
Proof.
  unfold startSession. destruct (findTarget _ _) as [it|], (pointer (grid i)); try by intros [= <-].
  destruct (widget_of _); [|done]. by intros [= <-].
Qed.
Lemma pointerMove_calm cell i i' : pointerMove cell i = Some i' → calm_change i i'.
Proof.
  unfold pointerMove. destruct (pointer (grid i)) as [g|]; [|by intros [= <-]].
  destruct (same_cell _ _); [by intros [= <-]|]. destruct (onMove _ _ _) as [next|]; [|done].
  intros [= <-]. etrans; [|apply setItems_calm]. done.
Qed.
Lemma pressKey_calm it d k shift i i' : pressKey it d k shift i = Some i' → calm_change i i'.
Proof.
  unfold pressKey. destruct (pointer (grid i)); [by intros [= <-]|].
  destruct (handleItemKey _ _ _ _ _); [|done]. intros [= <-]. apply setItems_calm.
Qed.
Lemma takeOff_calm iid i : calm_change i (takeOff iid i).
Proof. unfold takeOff. destruct (pointer (grid i)); [done|]. destruct (findTarget _ _); [apply setItems_calm|done]. Qed.
Lemma closeEditing_eases i : eases i (closeEditing i).
Proof. unfold closeEditing. destruct (session i); [|by apply calm_eases]. unfold eases, pin. cbn. auto 10. Qed.
Lemma requestExit_eases i : eases i (requestExit localeCompare i).
Proof.
  unfold requestExit. destruct (session i) as [s|], (saving i); try by apply calm_eases.
  destruct (is_dirty _ s); [by apply calm_eases|apply closeEditing_eases].
Qed.

(** The events that reach the store or send something. *)
Definition talks (e : ievent) : bool :=
  match e with
  | PressEdit | PressSave | LoadStored | SaveDone _ _ | SaveFails _ _ | ReadDone _ _ | ReadFails _ _ _
  | ListDone _ _ | ListFails _ => true
  | _ => false
  end.
Lemma handler_eases i e i' os :
  handler localeCompare draws fuel i e = Some (i', os) → talks e = false → eases i i' ∧ os = [].
Proof.
  destruct e; cbn [talks]; try done; intros H _; unfold handler, silent, offered in H; cbn zeta in H;
    repeat match type of H with
    | context [if ?b then _ else _] => destruct b; cbn [mbind option_bind fmap option_fmap option_map] in H
    end; try done; simplify_option_eq; (split; [|done]).
  all: try by apply calm_eases.
  all: try by apply requestExit_eases.
  all: try by apply closeEditing_eases.
  all: try by apply calm_eases, resetToDefault_calm.
  all: try by apply calm_eases, takeOff_calm.
  all: try by apply calm_eases, endSession_calm.
  all: try by apply calm_eases, takeCopy_calm.
  all: try by apply calm_eases, reparameterize_calm.
  all: try by eapply calm_eases, addWidget_calm.
  all: try by eapply calm_eases, startSession_calm.
  all: try by eapply calm_eases, pointerMove_calm.
  all: try by eapply calm_eases, pressKey_calm.
  all: try by (case_match; simplify_eq; first [by apply calm_eases|by eapply calm_eases, confirmParams_calm|apply requestExit_eases]).
  all: unfold eases, pin; cbn; auto 10.
Qed.

Lemma inv_idle i : loads (store i) = [] → reloading i = None → pin i = None → saving i = None →
  conflict i = false → island_inv i.
Proof.
  intros E1 E2 E3 E4 E5. unfold island_inv. rewrite E1, E2, E3, E4, E5. split_and!; try done; first [by intros [? ?]|simpl; lia].
Qed.
Lemma opened_inv i : island_inv i → editDisabled i = false → island_inv (startEditing i).1.
Proof.
  intros (H1 & H2 & H3 & _ & H5 & H6). unfold editDisabled. rewrite !orb_false_iff, negb_false_iff.
  intros [[_ Hl] Hr]. reflect_bools. rewrite <- eq_None_not_Some in Hr.
  unfold island_inv, startEditing, signals_of, pin. cbn. split_and!; try done.
  - intros ac Hac. by rewrite Hr in Hac.
  - by intros c r [= <- <-].
Qed.
Lemma saved_inv i : island_inv i → saveBlocked i = false → island_inv (save localeCompare i).1.
Proof.
  intros Hi Hb. unfold save. destruct (session i) as [s|] eqn:Es; [|done].
  destruct (saving i) eqn:Ev; [done|]. destruct (negb (is_dirty _ s)); [done|].
  pose proof Hi as (H1 & H2 & H3 & H4 & H5 & H6).
  destruct (H4 (base s) (pinned s)) as (Hl & _ & Hp); [unfold pin; by rewrite Es|].
  assert (Hr : reloading i = None).
  { destruct (reloading i) as [ac|]; [|done]. destruct (H3 ac eq_refl) as (_ & Hp' & _).
    unfold pin in Hp'. by rewrite Es in Hp'. }
  rewrite (proj2 (Z.eqb_eq _ _) Hp). cbn [negb].
  assert (Hc : conflict i = false).
  { destruct (conflict i); [|done]. destruct (H6 eq_refl). congruence. }
  rewrite Hr in H2. unfold save_begin. repeat case_match; simplify_eq; unfold island_inv, signals_of, pin in *; cbn;
    rewrite ?Hr, ?Hc; split_and!; try done; rewrite ?Ev; by intros [? ?].
Qed.
Lemma settled_inv i e st o ac : island_inv i → settles ac e → step widget_of (store i) e = Some (st, o) →
  island_inv (read_settled ac (set_store st i)) ∧
  saving i = None ∧ conflict i = false ∧ pin i = None ∧ (reloading i = None ∨ reloading i = Some ac).
Proof.
  intros (H1 & H2 & H3 & H4 & H5 & H6) He Hstep.
  assert (Hp : ∃ p, p ∈ loads (store i) ∧ ld_ac p = ac ∧ loads st = filter (λ p, ld_ac p ≠ ac) (loads (store i))).
  { destruct He as [[res ->]|(ab & reason & ->)]; cbn [step] in Hstep;
      destruct (pending_load (store i) ac) as [p|] eqn:Ep; try done; cbn [mbind option_bind] in Hstep;
      injection Hstep as <- _; exists p; by destruct (pending_load_Some _ _ _ Ep). }
  destruct Hp as (p & Hin & Hac & Hl).
  assert (loads st = []) as Hl'.
  { rewrite Hl. destruct (loads (store i)) as [|q [|]]; cbn in H1; [done| |lia].
    apply list_elem_of_singleton in Hin as ->. rewrite filter_cons. by rewrite decide_False by (intros H; by apply H). }
  assert (Hidle : pin i = None ∧ saving i = None ∧ conflict i = false ∧
            (reloading i = None ∨ reloading i = Some ac)).
  { destruct (reloading i) as [ac'|] eqn:Er.
    - destruct (H3 ac' eq_refl) as (Hall & ? & ? & ?). rewrite Forall_forall in Hall.
      split_and!; try done. right. rewrite <- (Hall p Hin). by rewrite Hac.
    - assert (Hnl : layoutLoaded (signals_of i) = false).
      { destruct (layoutLoaded (signals_of i)); [|done]. rewrite H2 in Hin by done. by apply elem_of_nil in Hin. }
      split_and!; [| | |by left].
      + destruct (pin i) as [[c r]|]; [|done]. destruct (H4 c r eq_refl). congruence.
      + destruct (saving i); [|done]. destruct H5; [done|congruence].
      + destruct (conflict i); [|done]. destruct H6; [done|congruence]. }
  destruct Hidle as (Hpin & Hsv & Hcf & Hr). split; [|by split_and!]. unfold read_settled. cbn [reloading set_store].
  destruct Hr as [Hr|Hr]; rewrite Hr; case_bool_decide; try done; by apply inv_idle.
Qed.

Lemma failed_inv i st o j reason : island_inv i → saving i = Some j →
  step widget_of (store i) (SaveErr j) = Some (st, o) → island_inv (save_fails reason (set_store st i)).
Proof.
  intros (H1 & H2 & H3 & H4 & H5 & H6) Ev Hstep. cbn [step] in Hstep.
  destruct (pending_save _ _); [|done]. cbn [mbind option_bind] in Hstep. injection Hstep as <- _.
  destruct H5 as [Hl _]; [by rewrite Ev|].
  assert (Hr : reloading i = None).
  { destruct (reloading i) as [ac|]; [|done]. destruct (H3 ac eq_refl) as (_ & _ & Hs & _). congruence. }
  rewrite Hr in H2. unfold save_fails, island_inv, signals_of, pin in *.
  case_bool_decide; cbn; rewrite ?Hr; split_and!; try done; by intros [? ?].
Qed.
Lemma reload_inv i : island_inv i → conflict i = true → island_inv (reloadStoredLayout i).1.
Proof.
  intros (H1 & H2 & H3 & H4 & H5 & H6) Hc. destruct (H6 Hc) as [Hl Hb].
  assert (Hs : saving i = None).
  { destruct (saving i); [|done]. destruct H5; [done|congruence]. }
  assert (Hr : reloading i = None).
  { destruct (reloading i) as [ac|]; [|done]. destruct (H3 ac eq_refl) as (_ & _ & _ & ?). congruence. }
  unfold island_inv, reloadStoredLayout, signals_of, pin. cbn. rewrite H2, Hs by done. split_and!; try done.
  intros ac [= <-]. split_and!; try done. by constructor.
Qed.

(** A run keeps the invariant, and the grid is on the store's generation. *)
Definition settled_inv_of (i : Island) : Prop :=
  island_inv i ∧ mountedGeneration i = layoutGeneration (signals_of i).
Lemma istep_inv i e i' os : settled_inv_of i → istep localeCompare draws fuel i e = Some (i', os) →
  settled_inv_of i'.
Proof.
  intros [Hi Hg]. unfold istep. destruct (handler _ _ _ i e) as [[k ks]|] eqn:Hh; [|done].
  intros [= <- <-]. destruct (talks e) eqn:Ht.
  2:{ destruct (handler_eases _ _ _ _ Hh Ht) as [He _]. apply island_inv_effects; [|by eapply inv_eases].
      left. destruct He as (Es & _ & _ & _ & _ & _ & Em). unfold signals_of in *. by rewrite Es, Em. }
  destruct e; try done; unfold handler, silent, offered, answered in Hh; cbn zeta in Hh.
  - destruct (negb (editing i)), (editDisabled i) eqn:Ed; try done. injection Hh as <- _.
    apply island_inv_effects; [by left|]. by apply opened_inv.
  - destruct (session i) as [s|]; [|done]. cbn [mbind option_bind] in Hh.
    destruct (_ && _ && negb (saveBlocked i)) eqn:Eb; [|done]. cbn [mbind option_bind] in Hh. reflect_bools.
    assert (Hk : k = (save localeCompare i).1) by (injection Hh as Hh; by rewrite Hh).
    apply island_inv_effects; [|rewrite Hk; by apply saved_inv]. left. rewrite Hk.
    unfold save, save_begin. by repeat (case_match; simplify_eq).
  - destruct (conflict i) eqn:Ec; [|done]. cbn [mbind option_bind] in Hh. injection Hh as <- _.
    apply island_inv_effects; [by left|]. by apply reload_inv.
  - case_bool_decide as Ev; [|done]. cbn [mbind option_bind] in Hh.
    destruct (step widget_of (store i) (SaveOk j saved)) as [[st o]|] eqn:Hs; [|done]. injection Hh as <- _.
    cbn [step] in Hs. destruct (pending_save _ _); [|done]. cbn [mbind option_bind] in Hs. injection Hs as <- _.
    apply island_inv_effects; [by left|]. destruct Hi as (H1 & H2 & H3 & H4 & H5 & H6).
    destruct H5 as [Hl Hb]; [by rewrite Ev|].
    assert (Hr : reloading i = None).
    { destruct (reloading i) as [ac|]; [|done]. destruct (H3 ac eq_refl) as (_ & _ & ? & _). congruence. }
    apply inv_idle; try done; [by apply H2|]. cbn. destruct (conflict i); [|done]. destruct H6; [done|congruence].
  - case_bool_decide as Ev; [|done]. cbn [mbind option_bind] in Hh.
    destruct (step widget_of (store i) (SaveErr j)) as [[st o]|] eqn:Hs; [|done]. injection Hh as <- _.
    apply island_inv_effects; [|by eapply failed_inv]. left.
    cbn [step] in Hs. destruct (pending_save _ _); [|done]. injection Hs as <- _.
    unfold save_fails. by case_bool_decide.
  - destruct (step widget_of (store i) (LoadOk ac res)) as [[st o]|] eqn:Hs; [|done]. injection Hh as <- _.
    destruct (settled_inv i _ st o ac Hi ltac:(left; by eexists) Hs) as (? & ? & ? & _).
    apply island_inv_effects; [|done]. right. unfold read_settled. by case_bool_decide.
  - destruct (step widget_of (store i) (LoadErr ac abort_error reason)) as [[st o]|] eqn:Hs; [|done].
    injection Hh as <- _. destruct (settled_inv i _ st o ac Hi ltac:(right; by do 2 eexists) Hs) as (? & ? & ? & _).
    apply island_inv_effects; [|done]. right. unfold read_settled. by case_bool_decide.
  - cbn [step] in Hh. case_decide; [|done]. injection Hh as <- _. by apply island_inv_effects; [left|].
  - cbn [step] in Hh. case_decide; [|done]. injection Hh as <- _. by apply island_inv_effects; [left|].
Qed.
Lemma irun_inv i es i' : settled_inv_of i → irun localeCompare draws fuel i es = Some i' → settled_inv_of i'.
Proof.
  revert i. induction es as [|e es IH]; intros i Hi; cbn [irun]; [by intros [= <-]|].
  destruct (istep _ _ _ i e) as [[k os]|] eqn:Es; [|done]. apply IH. by eapply istep_inv.
Qed.
Lemma mounted_inv cluster width : settled_inv_of (mounted cluster width).
Proof.
  split; [|done]. unfold island_inv, mounted, pin. cbn. by split_and!.
Qed.
End Steps.

(** ** What is on the screen *)

(** Layouts as the server stores them, as far as the grid is concerned. *)
Definition config_wf (c : DashboardLayoutConfig) : Prop :=
  layout_wf (config_items c) ∧ columns c = DASHBOARD_COLUMNS.
Definition response_wf (r : LayoutResponse) : Prop := ∀ c, res_config r = Some c → config_wf c.

Record screen_ok (i : Island) : Prop := {
  ok_normal : normal (grid_items (grid i));
  ok_session : ∀ s, session i = Some s → arrangement s = grid_items (grid i);
  ok_idle : session i = None → reloading i = None →
    grid_items (grid i) = config_items (asRendered (layout (signals_of i)));
  ok_pointer : ∀ g, pointer (grid i) = Some g → normal (before g) ∧ editable i = true;
  ok_layout : config_wf (layout (signals_of i));
  ok_default : layout_is_default (signals_of i) = true → layout (signals_of i) = DEFAULT_OVERVIEW_LAYOUT;
  ok_records : Forall response_wf (copyableLayoutRecords (store i));
  ok_saves : match saving i with
             | None => saves (store i) = []
             | Some j => ∃ s p, session i = Some s ∧ saves (store i) = [p] ∧ sv_id p = j ∧
                                sv_config p = open_working s ∧ sv_is_default p = false
             end
}.
Lemma screen_ok_ext i j : session j = session i → grid j = grid i → store j = store i →
  reloading j = reloading i → saving j = saving i → screen_ok i → screen_ok j.
Proof.
  intros E1 E2 E3 E4 E5 []. unfold signals_of, editable, editing, is_saving in *.
  split; unfold signals_of, editable, editing, is_saving; rewrite ?E1, ?E2, ?E3, ?E4, ?E5; done.
Qed.
Lemma editable_inv i : editable i = true → (∃ s, session i = Some s) ∧ saving i = None.
Proof.
  unfold editable, editing, is_saving. intros [H1 H2]%andb_true_iff. reflect_bools. split; [by apply H1|].
  by apply eq_None_not_Some.
Qed.
Lemma setItems_ok next i : screen_ok i → editable i = true → normal next →
  screen_ok (setItems next i) ∧ gridEpoch (setItems next i) = gridEpoch i ∧
  mountedEpoch (setItems next i) = mountedEpoch i.
Proof.
  intros [] He Hn. pose proof (editable_inv i He) as [[s Hs] Hv]. unfold setItems, handleChange. cbn [session set_grid].
  rewrite Hs. split; [|done]. split; cbn; try done.
  - by intros ? [= <-].
  - intros g Hg. destruct (ok_pointer0 g Hg). split; [done|]. unfold editable, editing, is_saving. cbn. by rewrite Hv.
  - by rewrite Hv in *.
Qed.
Lemma endSession_ok b i : screen_ok i →
  screen_ok (endSession b i) ∧ gridEpoch (endSession b i) = gridEpoch i ∧
  mountedEpoch (endSession b i) = mountedEpoch i ∧ pointer (grid (endSession b i)) = None.
Proof.
  intros Hi. unfold endSession. destruct (pointer (grid i)) as [g|] eqn:Eg; [|done].
  destruct (ok_pointer i Hi g Eg) as [Hn He].
  assert (H : ∀ k, screen_ok k → screen_ok (set_grid (with_pointer None (grid k)) k)) by (by intros k []; split).
  destruct b; [|by split; [apply H|]].
  destruct (setItems_ok (before g) i Hi He Hn) as (H1 & H2 & H3). split; [by apply H|]. by split_and!.
Qed.

(** After an event that leaves the grid mounted. *)
Definition in_step (i : Island) : Prop := screen_ok i ∧ gridEpoch i = mountedEpoch i.
Lemma still_ok i : in_step i → mountedGeneration i = layoutGeneration (signals_of i) → in_step (effects i).
Proof.
  intros [Hi He] Hg. unfold effects. destruct (render_calm i) as (Hc & _ & Hg'). unfold core in Hc.
  assert (Hr : in_step (render i)).
  { unfold render, in_step. rewrite He, Nat.eqb_refl. destruct (arrangeable i); [done|].
    destruct (endSession_ok true i Hi) as (H1 & H2 & H3 & _). split; [done|]. by rewrite H2, H3. }
  set (j := render i) in *. clearbody j. unfold settle_effects.
  assert (layoutGeneration (signals_of j) = mountedGeneration j) as ->.
  { unfold signals_of in *. injection Hc as -> _ _ _ _. by rewrite Hg'. }
  rewrite Nat.eqb_refl. destruct Hr as [Hr Hre]. destruct (copyOptions j); [|done].
  split; [|done]. by apply (screen_ok_ext j).
Qed.
(** After one that re-mounts it while no pointer is down. *)
Definition remounted (i : Island) : Island := set_grid (mounted_grid (gridSource i) (clientWidth (grid i))) i.
Lemma endSession_none b i : pointer (grid i) = None → endSession b i = i.
Proof. unfold endSession. by intros ->. Qed.
Lemma render_mount i : pointer (grid i) = None → gridEpoch i ≠ mountedEpoch i →
  screen_ok (remounted i) → in_step (render i).
Proof.
  intros Hp He Hi. unfold render. rewrite (proj2 (Nat.eqb_neq _ _) He), (endSession_none true i Hp).
  cbn zeta. set (k := mkIsland _ _ _ _ _ _ _ _ _ _ _ _ _).
  assert (Hk : in_step k) by (split; [by apply (screen_ok_ext (remounted i))|done]).
  destruct (arrangeable k); [done|]. destruct (endSession_ok true k (proj1 Hk)) as (H1 & H2 & H3 & _).
  split; [done|]. rewrite H2, H3. apply Hk.
Qed.
Lemma mount_ok i : pointer (grid i) = None → gridEpoch i ≠ mountedEpoch i →
  mountedGeneration i = layoutGeneration (signals_of i) → screen_ok (remounted i) → in_step (effects i).
Proof.
  intros Hp He Hg Hi. pose proof (render_mount i Hp He Hi) as [Hr Hre]. unfold effects, settle_effects.
  destruct (render_calm i) as (Hc & _ & Hg'). unfold core in Hc. set (j := render i) in *. clearbody j.
  assert (layoutGeneration (signals_of j) = mountedGeneration j) as ->.
  { unfold signals_of in *. injection Hc as -> _ _ _ _. by rewrite Hg'. }
  rewrite Nat.eqb_refl. destruct (copyOptions j); [|done]. split; [|done]. by apply (screen_ok_ext j).
Qed.
(** A gesture that hands the grid a whole arrangement, already rendered. *)
Lemma handed_ok i s next j : screen_ok i → gridEpoch i = mountedEpoch i →
  session i = Some s → saving i = None → pointer (grid i) = None →
  normal (config_items next) →
  session j = Some (rearrange s (config_items next)) → gridSource j = next →
  gridEpoch j = S (gridEpoch i) → mountedEpoch j = mountedEpoch i →
  grid j = grid i → store j = store i → reloading j = reloading i → saving j = saving i →
  mountedGeneration j = layoutGeneration (signals_of j) → in_step (effects j).
Proof.
  intros [] He Hs Hv Hp Hn E1 E2 E3 E4 E5 E6 E7 E8 Hg. apply mount_ok; [by rewrite E5|lia|done|].
  unfold remounted, signals_of in *. split; unfold signals_of; cbn; rewrite ?E1, ?E2, ?E6, ?E7, ?E8; try done.
  - by rewrite (normal_shown _ Hn).
  - intros ? [= <-]. cbn. by rewrite (normal_shown _ Hn).
  - by rewrite Hv in *.
Qed.

(** Arrangements the gestures hand over. *)
Lemma layout_wf_fmap (f : LayoutItem → LayoutItem) l :
  (∀ it, instanceId (f it) = instanceId it ∧ x (f it) = x it ∧ y (f it) = y it ∧ w (f it) = w it ∧ h (f it) = h it) →
  layout_wf l → layout_wf (f <$> l).
Proof.
  intros Hf (H1 & H2 & H3 & H4). split_and!.
  - unfold ids. rewrite <- list_fmap_compose. erewrite list_fmap_ext; [exact H1|].
    intros ? it _. apply Hf.
  - apply Forall_fmap. eapply Forall_impl; [exact H2|]. intros it. unfold item_wf. cbn.
    destruct (Hf it) as (_ & _ & _ & -> & ->). done.
  - apply Forall_fmap. eapply Forall_impl; [exact H3|]. intros it. cbn. by destruct (Hf it) as (_ & _ & -> & _).
  - apply Forall_fmap. eapply Forall_impl; [exact H4|]. intros it. unfold in_columns. cbn.
    by destruct (Hf it) as (_ & -> & _ & -> & _).
Qed.
Lemma placed_normal draws fuel n working d ps next n' :
  normal (config_items working) → columns working = DASHBOARD_COLUMNS →
  (∀ iid m, newInstanceId draws fuel n (def_id d) = Some (iid, m) → iid ∉ ids (config_items working)) →
  placeWidget draws fuel n working d ps = Some (Some next, n') → normal (config_items next).
Proof.
  intros (Hwf & Hc & Hk) Hcol Hfresh. unfold placeWidget.
  destruct (placeNewWidget _ _ _ _ _ _ _) as [[[it|] m]|] eqn:Ep; [|done..].
  cbn [mbind option_bind option_map]. intros [= <- <-]. apply asRendered_normal. cbn [config_items with_items].
  assert (Hno : NoOverlap (config_items working)) by (rewrite <- Hc; apply compact_no_overlap_all).
  assert (Hpos : 1 <= columns working) by (by rewrite Hcol).
  pose proof (placeNewWidget_fits _ _ _ _ _ _ _ _ _ Hpos Hno Ep)
    as (_ & Hx & Hxw & Hy & _ & Hw & Hh & _).
  destruct (placeNewWidget_inv _ _ _ _ _ _ _ _ _ Ep) as (_ & _ & _ & _ & _ & Hid).
  destruct Hwf as (H1 & H2 & H3 & H4). split_and!; rewrite ?Forall_app; try (split; [done|]).
  - unfold ids. rewrite fmap_app, NoDup_app. split; [done|]. split; [|by apply NoDup_singleton].
    intros iid Hin Hit%list_elem_of_singleton. subst iid. by apply (Hfresh _ _ Hid).
  - by repeat constructor.
  - by repeat constructor.
  - constructor; [|done]. split; [done|]. by rewrite <- Hcol.
Qed.
Lemma repointed_normal working d iid values next :
  normal (config_items working) → repoint working d iid values = Some next → normal (config_items next).
Proof.
  intros (Hwf & _). unfold repoint. destruct (narrowParams d values); [|done]. intros [= <-].
  apply asRendered_normal. cbn [config_items with_items]. apply layout_wf_fmap; [|done].
  intros it. by destruct (js_eqb _ _).
Qed.
Lemma dropped_wf c : config_wf c → config_wf (dropped_config (dropUnknownWidgets widget_of c)).
Proof.
  intros [H1 H2]. destruct (dropUnknownWidgets_inv widget_of c) as (E & _ & Ec & _). split; [|by rewrite Ec].
  rewrite E. by apply layout_wf_filter.
Qed.
Lemma copied_normal i n entry working : screen_ok i → copyOptions i !! n = Some entry →
  normal (config_items (copyFrom working entry)).
Proof.
  intros Hi Hn%list_elem_of_lookup_2. unfold copyOptions in Hn. destruct (session i) as [s|]; [|by apply elem_of_nil in Hn].
  unfold copyableLayouts in Hn. apply list_elem_of_omap in Hn as (r & Hr & Hc).
  pose proof (ok_records i Hi) as Hrec. rewrite Forall_forall in Hrec. specialize (Hrec r Hr).
  unfold copyable in Hc. destruct (js_eqb _ _); [done|]. destruct (res_config r) as [c|] eqn:Ec; [|done].
  cbn [mbind option_bind] in Hc. destruct (negb _); [done|]. destruct (_ || _); [done|].
  assert (E : copy_config entry = dropped_config (dropUnknownWidgets widget_of c))
    by (destruct (config_items (dropped_config _)); [done|by injection Hc as <-]).
  apply asRendered_normal. cbn [config_items with_items copyFrom]. rewrite E. apply dropped_wf. by apply Hrec.
Qed.

(** ** Runs in which one thing happens at a time *)

(** What can reach the page while a pointer is down on the grid, other than
    the keyboard. *)
Definition own_event (e : ievent) : bool :=
  match e with
  | PointerMove _ | PointerUp | PointerLost | GridWidth _ | ListDone _ _ | ListFails _ => true
  | _ => false
  end.

Section Calm.
Variable localeCompare : jstring → jstring → comparison.
Variables (draws : nat → jstring) (fuel : nat).

(** Nobody works the keyboard during a pointer gesture or discards the changes
    being saved; the server answers with layouts it would store; the random
    suffix is not one in use. *)
Definition undisturbed (i : Island) (e : ievent) : Prop :=
  (is_Some (pointer (grid i)) → own_event e = true) ∧
  (is_Some (saving i) → e ≠ ConfirmDiscard) ∧
  match e with
  | ReadDone _ (Some r) => response_wf r
  | ListDone _ records => Forall response_wf records
  | _ => True
  end ∧
  (∀ d iid n, newInstanceId draws fuel (drawn i) (def_id d) = Some (iid, n) → iid ∉ ids (grid_items (grid i))).

Definition good (i : Island) : Prop := settled_inv_of i ∧ in_step i.

Lemma good_normal i : good i → normal (grid_items (grid i)).
Proof. intros [_ [Hi _]]. apply (ok_normal i Hi). Qed.
Lemma dialogs_ok i f : good i → in_step (effects (on_dialogs f i)).
Proof.
  intros [[_ Hg] [Hi He]]. apply still_ok; [|done]. split; [|done]. by apply (screen_ok_ext i).
Qed.
Lemma same_ok i : good i → in_step (effects i).
Proof. intros [[_ Hg] Hi]. by apply still_ok. Qed.
Lemma items_ok i next : good i → editable i = true → normal next → in_step (effects (setItems next i)).
Proof.
  intros [[_ Hg] [Hi He]] Hed Hn. destruct (setItems_ok next i Hi Hed Hn) as (H1 & H2 & H3).
  destruct (setItems_calm next i) as (Hc & _ & Hg'). unfold core in Hc.
  apply still_ok; [split; [done|by rewrite H2, H3]|]. unfold signals_of in *. injection Hc as -> _ _ _ _. by rewrite Hg'.
Qed.
Lemma session_base i s : good i → session i = Some s →
  base s = asRendered (layout (signals_of i)) ∧ columns (base s) = DASHBOARD_COLUMNS ∧
  arrangement s = grid_items (grid i) ∧ normal (arrangement s).
Proof.
  intros [[(_ & _ & _ & H4 & _) _] [Hi _]] Hs. pose proof (ok_session i Hi s Hs) as Ha.
  destruct (H4 (base s) (pinned s)) as (_ & Hb & _); [unfold pin; by rewrite Hs|]. split_and!; try done.
  - rewrite Hb. apply (ok_layout i Hi).
  - rewrite Ha. apply (ok_normal i Hi).
Qed.
(** The grid is handed a whole arrangement. *)
Lemma given_ok i s next f n : good i → pointer (grid i) = None → session i = Some s → saving i = None →
  normal (config_items next) →
  in_step (effects (mountGrid next (on_dialogs f (set_session (Some (rearrange s (config_items next))) (set_drawn n i))))).
Proof. intros [[_ Hg] [Hi He]] Hp Hs Hv Hn. by eapply (handed_ok i s next). Qed.
Lemma place_ok d ps s i i' : good i → undisturbed i (PickWidget d) → session i = Some s → saving i = None →
  pointer (grid i) = None → place draws fuel d ps s i = Some i' → in_step (effects i').
Proof.
  intros Hg (_ & _ & _ & Hf) Hs Hv Hp. destruct (session_base i s Hg Hs) as (Hb & Hc & Ha & Hn). unfold place.
  destruct (placeWidget _ _ _ _ _ _) as [[[next|] n]|] eqn:Ep; [| |done]; intros [= <-].
  - apply given_ok; try done. eapply (placed_normal draws fuel (drawn i) (open_working s)); [exact Hn|exact Hc| |exact Ep]. intros iid m Hid. cbn. rewrite Ha. by eapply Hf.
  - destruct Hg as [[_ Hg] [Hi He]]. apply still_ok; [|done]. split; [|done]. by apply (screen_ok_ext i).
Qed.
Lemma close_ok i : good i → pointer (grid i) = None → saving i = None → in_step (effects (closeEditing i)).
Proof.
  intros Hg Hp Hv. unfold closeEditing. destruct (session i) as [s|] eqn:Hs; [|by apply same_ok].
  destruct (session_base i s Hg Hs) as (Hb & _). destruct Hg as [[_ Hg] [[] He]].
  apply mount_ok; [done|cbn; lia|done|].
  assert (Hn : normal (config_items (base s))) by (rewrite Hb; by apply asRendered_normal, ok_layout0).
  unfold remounted. split; unfold signals_of in *; cbn; try done; rewrite ?(normal_shown _ Hn), ?Hv in *; try done.
  by rewrite Hb.
Qed.
Lemma exit_ok i : good i → pointer (grid i) = None → in_step (effects (requestExit localeCompare i)).
Proof.
  intros Hg Hp. unfold requestExit. destruct (session i) as [s|], (saving i) eqn:Hv; try by apply same_ok.
  destruct (is_dirty _ s); [by apply dialogs_ok|by apply close_ok].
Qed.
Lemma pointer_editable i : good i → is_Some (saving i) → pointer (grid i) = None.
Proof.
  intros [_ [Hi _]] [j Hj]. destruct (pointer (grid i)) as [g|] eqn:Eg; [|done].
  destruct (ok_pointer i Hi g Eg) as [_ He]. apply editable_inv in He as [_ He]. congruence.
Qed.

Lemma add_ok d i i' : good i → undisturbed i (PickWidget d) → pointer (grid i) = None →
  addWidget draws fuel d i = Some i' → in_step (effects i').
Proof.
  intros Hg Hu Hp. unfold addWidget. destruct (session i) as [s|] eqn:Hs, (saving i) eqn:Hv;
    try (intros [= <-]; by apply same_ok).
  destruct (def_params d); [intros [= <-]; by apply dialogs_ok|]. by apply place_ok.
Qed.
Lemma submit_ok values i i' : good i → (∀ d, undisturbed i (PickWidget d)) → pointer (grid i) = None →
  confirmParams draws fuel values i = Some i' → in_step (effects i').
Proof.
  intros Hg Hu Hp. unfold confirmParams.
  destruct (paramTarget (dialogs i)) as [t|], (session i) as [s|] eqn:Hs, (saving i) eqn:Hv;
    try (intros [= <-]; by apply same_ok).
  destruct (target_editing t) as [it|]; [|by apply place_ok].
  destruct (repoint _ _ _ _) as [next|] eqn:Er; [|done]. intros [= <-].
  destruct (session_base i s Hg Hs) as (_ & _ & _ & Hn).
  apply (given_ok i s next (set_target None) (drawn i)); try done.
  exact (repointed_normal (open_working s) _ _ _ _ Hn Er).
Qed.
Lemma reset_ok i : good i → pointer (grid i) = None → in_step (effects (resetToDefault i)).
Proof.
  intros Hg Hp. unfold resetToDefault. destruct (session i) as [s|] eqn:Hs, (saving i) eqn:Hv; try by apply same_ok.
  apply (given_ok i s (resetLayout (open_working s)) (λ d, set_warnings [] (set_reset false d)) (drawn i)); try done.
  apply asRendered_normal, default_normal.
Qed.
Lemma copy_ok n entry i : good i → pointer (grid i) = None → copyOptions i !! n = Some entry →
  in_step (effects (takeCopy entry i)).
Proof.
  intros Hg Hp Hn. unfold takeCopy. destruct (session i) as [s|] eqn:Hs, (saving i) eqn:Hv; try by apply same_ok.
  apply (given_ok i s (copyFrom (open_working s) entry)
    (λ d, set_copy false (set_warnings (copy_warnings entry) d)) (drawn i)); try done.
  eapply copied_normal; [apply Hg|done].
Qed.
Lemma off_ok iid i : good i → editable i = true → in_step (effects (takeOff iid i)).
Proof.
  intros Hg He. unfold takeOff. destruct (pointer (grid i)); [by apply same_ok|].
  destruct (findTarget _ _); [|by apply same_ok]. apply items_ok; [done..|]. by apply removeItem_normal, good_normal.
Qed.
Lemma begin_ok k iid cell i i' : good i → arrangeable i = true → startSession k iid cell i = Some i' →
  in_step (effects i').
Proof.
  intros Hg [He _]%andb_true_iff. unfold startSession.
  destruct (findTarget _ _) as [it|], (pointer (grid i)) eqn:Hp; try (intros [= <-]; by apply same_ok).
  destruct (widget_of _) as [d|]; [|done]. intros [= <-]. destruct Hg as [[_ Hg] [[] Hep]].
  apply still_ok; [|done]. split; [|done]. split; cbn; try done. by intros g [= <-].
Qed.
Lemma move_ok cell i i' : good i → pointerMove cell i = Some i' → in_step (effects i').
Proof.
  intros Hg. unfold pointerMove. destruct (pointer (grid i)) as [g|] eqn:Hp; [|intros [= <-]; by apply same_ok].
  destruct (same_cell _ _); [intros [= <-]; by apply same_ok|].
  destruct (onMove _ _ _) as [next|] eqn:Hm; [|done]. intros [= <-].
  pose proof Hg as [[Hinv Hgen] [Hi Hep]]. destruct (ok_pointer i Hi g Hp) as [Hb He].
  apply items_ok; [|done|by eapply onMove_normal; [apply (ok_normal i Hi)|]].
  split; [by split|]. split; [|done]. destruct Hi. split; cbn; try done. by intros g' [= <-].
Qed.
Lemma end_ok b i : good i → in_step (effects (endSession b i)).
Proof.
  intros [[_ Hg] [Hi Hep]]. destruct (endSession_ok b i Hi) as (H1 & H2 & H3 & _).
  destruct (endSession_calm b i) as (Hc & _ & Hg'). unfold core in Hc.
  apply still_ok; [split; [done|by rewrite H2, H3]|]. unfold signals_of in *. injection Hc as -> _ _ _ _. by rewrite Hg'.
Qed.
Lemma key_ok it d k shift i i' : good i → arrangeable i = true → pressKey it d k shift i = Some i' →
  in_step (effects i').
Proof.
  intros Hg [He _]%andb_true_iff. unfold pressKey. destruct (pointer (grid i)); [intros [= <-]; by apply same_ok|].
  destruct (handleItemKey _ _ _ _ _) as [next|] eqn:Hm; [|done]. intros [= <-].
  apply items_ok; [done..|]. eapply handleItemKey_normal; [by apply good_normal|done].
Qed.
Lemma measure_ok width i : good i → in_step (effects (measure width i)).
Proof.
  intros [[_ Hg] [[] Hep]]. apply still_ok; [|done]. split; [|done]. split; cbn; done.
Qed.
Lemma unconflict_ok i : good i → in_step (effects (set_conflict false i)).
Proof.
  intros [[_ Hg] [Hi Hep]]. apply still_ok; [|done]. split; [|done]. by apply (screen_ok_ext i).
Qed.

Lemma quiet_ok i e i' os : good i → undisturbed i e → talks e = false →
  handler localeCompare draws fuel i e = Some (i', os) → in_step (effects i').
Proof.
  intros Hg Hu Ht Hh. pose proof Hu as (Hp & Hv & _ & Hf).
  assert (Hp' : own_event e = false → pointer (grid i) = None).
  { intros E. destruct (pointer (grid i)); [|done]. by rewrite Hp in E. }
  assert (Hany : pointer (grid i) = None → ∀ d, undisturbed i (PickWidget d)).
  { intros E d. split; [rewrite E; by intros [? ?]|done]. }
  destruct e; try done; cbn [own_event] in Hp'; unfold handler, silent, offered in Hh; cbn zeta in Hh;
    repeat match type of Hh with
    | context [if ?b then _ else _] =>
        destruct b eqn:?; cbn [mbind option_bind fmap option_fmap option_map] in Hh
    end; try done; simplify_option_eq; reflect_bools;
    first [by apply dialogs_ok | by apply exit_ok; auto | idtac].
  - eapply add_ok; eauto.
  - eapply copy_ok; eauto.
  - case_match; simplify_eq; [by apply same_ok|]. eapply submit_ok; eauto.
  - apply reset_ok; auto.
  - apply close_ok; auto. destruct (saving i); [|done]. by destruct Hv.
  - by apply unconflict_ok.
  - unfold reparameterize. repeat case_match; first [by apply same_ok|by apply dialogs_ok].
  - by apply off_ok.
  - by eapply begin_ok.
  - by eapply move_ok.
  - by apply end_ok.
  - by apply end_ok.
  - by eapply key_ok.
  - by apply same_ok.
  - by apply measure_ok.
Qed.

Lemma edit_ok i : good i → editing i = false → editDisabled i = false → in_step (effects (startEditing i).1).
Proof.
  intros [[_ Hg] [[] Hep]] He Hd. apply still_ok; [|done]. split; [|done].
  unfold editing in He. reflect_bools. rewrite <- eq_None_not_Some in He.
  unfold editDisabled in Hd. rewrite !orb_false_iff in Hd. destruct Hd as [_ Hr]. reflect_bools.
  rewrite <- eq_None_not_Some in Hr. unfold startEditing. split; cbn; try done.
  - intros ? [= <-]. symmetry. by apply ok_idle0.
  - intros g Hgr. destruct (ok_pointer0 g Hgr) as [_ H]. unfold editable, editing in H. by rewrite He in H.
  - destruct (saving i); [|done]. destruct ok_saves0 as (s & p & Hs & _). congruence.
Qed.
Lemma save_ok i : good i → pointer (grid i) = None → in_step (effects (save localeCompare i).1).
Proof.
  intros Hg Hp. unfold save. destruct (session i) as [s|] eqn:Hs; [|by apply same_ok].
  destruct (saving i) eqn:Hv; [by apply same_ok|]. destruct (negb (is_dirty _ s)); [by apply same_ok|].
  destruct Hg as [[_ Hg] [Hi Hep]].
  destruct (negb _). { apply still_ok; [|done]. split; [|done]. by apply (screen_ok_ext i). }
  unfold save_begin. destruct Hi. unfold signals_of in *. rewrite Hv in ok_saves0.
  repeat case_match; simplify_eq; (apply still_ok; [|done]; split; [|done]); split; cbn; try done;
    try (by rewrite Hp); try (by rewrite Hv).
  exists s. eexists. by rewrite Hs, ok_saves0.
Qed.
Lemma reload_ok i : good i → conflict i = true → pointer (grid i) = None →
  in_step (effects (reloadStoredLayout i).1).
Proof.
  intros [[Hinv Hg] [[] Hep]] Hc Hp. apply still_ok; [|done]. split; [|done].
  destruct Hinv as (_ & _ & _ & _ & H5 & H6). destruct (H6 Hc) as [_ Hb].
  assert (Hv : saving i = None) by (destruct (saving i); [destruct H5; [done|congruence]|done]).
  unfold reloadStoredLayout. split; cbn; try done; [by rewrite Hp|by rewrite Hv in *].
Qed.
Lemma saved_ok i j saved st o : good i → saving i = Some j →
  step widget_of (store i) (SaveOk j saved) = Some (st, o) → in_step (effects (save_succeeds (set_store st i))).
Proof.
  intros Hgood Hv. pose proof (pointer_editable i Hgood ltac:(by rewrite Hv)) as Hp.
  pose proof Hgood as [[_ Hg] [[] Hep]]. rewrite Hv in ok_saves0.
  destruct ok_saves0 as (s & p & Hs & Hsv & Hid & Hcfg & Hdef).
  destruct (session_base i s Hgood Hs) as (_ & Hc & Ha & Hn).
  cbn [step]. unfold pending_save. rewrite Hsv, filter_cons, decide_True by done. cbn [head mbind option_bind].
  intros [= <- _]. apply still_ok; [|done]. split; [|done]. unfold save_succeeds, signals_of in *.
  split; cbn; rewrite ?Hcfg, ?Hdef; try done.
  - intros _ _. change (grid_items (grid i) = item <$> resolveRenderable widget_of (arrangement s)).
    by rewrite (normal_shown _ Hn), Ha.
  - by rewrite Hp.
  - split; [apply Hn|done].
  - rewrite Hsv, filter_cons, decide_False by (intros H; by apply H). done.
Qed.
Lemma failed_ok i j reason st o : good i → saving i = Some j →
  step widget_of (store i) (SaveErr j) = Some (st, o) → in_step (effects (save_fails reason (set_store st i))).
Proof.
  intros Hgood Hv. pose proof (pointer_editable i Hgood ltac:(by rewrite Hv)) as Hp.
  pose proof Hgood as [[_ Hg] [[] Hep]]. rewrite Hv in ok_saves0.
  destruct ok_saves0 as (s & p & Hs & Hsv & Hid & _).
  cbn [step]. destruct (pending_save _ _); [|done]. cbn [mbind option_bind]. intros [= <- _].
  assert (H : ∀ c, in_step (effects (set_saving None (set_conflict c (set_saveBlocked true
    (set_store (save_settled (with_signals (store i) (forget (signals (store i)))) j) i)))))).
  { intros c. apply still_ok; [|done]. split; [|done]. unfold signals_of in *. split; cbn; try done; [by rewrite Hp|].
    rewrite Hsv, filter_cons, decide_False by (intros H; by apply H). done. }
  unfold save_fails. case_bool_decide; [apply H|]. apply (H (conflict i)).
Qed.

(** What a settled read may have made of the store. *)
Definition reads_well (sg sg' : Signals) : Prop :=
  config_wf (layout sg') ∧ (layout_is_default sg' = true → layout sg' = DEFAULT_OVERVIEW_LAYOUT) ∧
  (layoutGeneration sg' = layoutGeneration sg → layout sg' = layout sg).
Lemma load_catch_well st p ab reason : reads_well (signals st) (signals st) →
  reads_well (signals st) (load_catch st p ab reason).
Proof. unfold load_catch. by repeat case_match. Qed.
Lemma load_ok_well st p res : reads_well (signals st) (signals st) →
  (∀ r, res = Some r → response_wf r) → reads_well (signals st) (load_ok widget_of st p res).
Proof.
  intros Hw Hr. pose proof Hw as (_ & Hdef & _). unfold load_ok. repeat case_match; try done.
  2:{ by apply load_catch_well. }
  destruct res as [r|]; cbn [layoutFromResponse] in *; simplify_eq.
  - destruct (res_config r) as [c|] eqn:Ec; [|done]. cbn [mbind option_bind] in *. simplify_eq.
    split_and!; cbn; [by apply dropped_wf, (Hr r eq_refl)|done|lia].
  - destruct default_normal as (Hwf & _). destruct (ld_scope p). split_and!; cbn; [by split|done|].
    destruct (layout_is_default (signals st)); [by intros _; rewrite Hdef|cbn; lia].
Qed.
Lemma adopted_ok i : screen_ok i → session i = None → saving i = None → pointer (grid i) = None →
  screen_ok (remounted (adoptLoadedLayout (set_reloading None i))).
Proof.
  intros [] Hs Hv Hp. unfold remounted, signals_of in *. split; cbn; try done.
  - by apply asRendered_normal, ok_layout0.
  - intros s. by rewrite Hs.
Qed.
Lemma read_ok i st ac o e : good i → settles ac e → (∀ r, e = LoadOk ac (Some r) → response_wf r) →
  step widget_of (store i) e = Some (st, o) → in_step (effects (read_settled ac (set_store st i))).
Proof.
  intros Hgood He Hwf Hstep. pose proof Hgood as [[Hinv Hg] [Hi Hep]].
  destruct (settled_inv i e st o ac Hinv He Hstep) as (_ & Hv & _ & Hpin & Hr).
  assert (Hs : session i = None) by (unfold pin in Hpin; by destruct (session i)).
  assert (Hp : pointer (grid i) = None).
  { destruct (pointer (grid i)) as [g|] eqn:Eg; [|done]. destruct (ok_pointer i Hi g Eg) as [_ H].
    apply editable_inv in H as [[s ?] _]. congruence. }
  assert (Hst : reads_well (signals (store i)) (signals st) ∧
    copyableLayoutRecords st = copyableLayoutRecords (store i) ∧ saves st = saves (store i)).
  { assert (Hself : reads_well (signals (store i)) (signals (store i))) by (by destruct Hi).
    destruct He as [[res ->]|(ab & reason & ->)]; cbn [step] in Hstep;
      destruct (pending_load _ _) as [p|]; try done; cbn [mbind option_bind] in Hstep;
      injection Hstep as <- _; (split; [|done]).
    - apply load_ok_well; [done|]. intros r ->. by apply Hwf.
    - by apply load_catch_well. }
  destruct Hst as ((Hl & Hd & Hsame) & Erec & Esv). unfold signals_of in Hg.
  set (k := set_store st i).
  assert (Hk : grid_items (grid i) = config_items (asRendered (layout (signals st))) ∨ is_Some (reloading i) →
    screen_ok k).
  { intros Hshown. destruct Hi. unfold signals_of in *. split; cbn; try done; rewrite ?Erec, ?Esv; try done.
    intros _ Hn. destruct Hshown as [|[? ?]]; [done|congruence]. }
  unfold read_settled. case_bool_decide as Eac.
  - assert (Hk' : screen_ok k) by (apply Hk; right; by exists ac).
    apply mount_ok; [done|cbn; lia|done|]. by apply adopted_ok.
  - destruct Hr as [Hr|Hr]; [|done]. fold k.
    destruct (decide (layoutGeneration (signals st) = layoutGeneration (signals (store i)))) as [Eg|Ng].
    + apply still_ok; [|by rewrite <- Hg in Eg; symmetry]. split; [|done]. apply Hk. left. rewrite Hsame by done.
      by apply (ok_idle i Hi).
    + unfold effects. assert (render k = k) as ->.
      { unfold render. cbn [gridEpoch mountedEpoch k set_store]. rewrite Hep, Nat.eqb_refl.
        destruct (arrangeable k); [done|]. by apply endSession_none. }
      unfold settle_effects. cbn [signals_of store k set_store mountedGeneration].
      rewrite (proj2 (Nat.eqb_neq _ _)) by (by rewrite Hg).
      assert (Hk' : screen_ok (set_reloading (Some ac) k)).
      { destruct Hi. unfold signals_of in *. split; cbn; try done; rewrite ?Erec, ?Esv; done. }
      pose proof (adopted_ok _ Hk' Hs Hv Hp) as Ha.
      assert (Hrd : in_step (render (adoptLoadedLayout k))).
      { apply render_mount; [done|cbn; lia|]. by eapply screen_ok_ext; [..|exact Ha]. }
      set (j := render (adoptLoadedLayout k)) in *. clearbody j. destruct Hrd as [Hj Hje].
      destruct (copyOptions j); [|done]. split; [|done]. by apply (screen_ok_ext j).
Qed.

Lemma calm_istep i e i' os : good i → undisturbed i e →
  istep localeCompare draws fuel i e = Some (i', os) → good i'.
Proof.
  intros Hgood Hu Hstep. split; [eapply istep_inv; [apply Hgood|exact Hstep]|].
  unfold istep in Hstep. destruct (handler _ _ _ i e) as [[k ks]|] eqn:Hh; [|done].
  injection Hstep as <- <-. destruct (talks e) eqn:Ht; [|by eapply quiet_ok].
  pose proof Hu as (Hp & _ & Hwf & _).
  assert (Hp' : own_event e = false → pointer (grid i) = None).
  { intros E. destruct (pointer (grid i)); [|done]. by rewrite Hp in E. }
  destruct e; try done; unfold handler, silent, offered, answered in Hh; cbn zeta in Hh.
  - destruct (editing i) eqn:Ee, (editDisabled i) eqn:Ed; try done. injection Hh as <- _. by apply edit_ok.
  - destruct (session i) as [s|]; [|done]. cbn [mbind option_bind] in Hh.
    destruct (_ && _ && _); [|done]. cbn [mbind option_bind] in Hh.
    assert (k = (save localeCompare i).1) as -> by (injection Hh as Hh; by rewrite Hh). apply save_ok; auto.
  - destruct (conflict i) eqn:Ec; [|done]. cbn [mbind option_bind] in Hh. injection Hh as <- _. apply reload_ok; auto.
  - case_bool_decide as Ev; [|done]. cbn [mbind option_bind] in Hh.
    destruct (step widget_of (store i) (SaveOk j saved)) as [[st o]|] eqn:Hs; [|done]. injection Hh as <- _.
    by eapply saved_ok.
  - case_bool_decide as Ev; [|done]. cbn [mbind option_bind] in Hh.
    destruct (step widget_of (store i) (SaveErr j)) as [[st o]|] eqn:Hs; [|done]. injection Hh as <- _.
    by eapply failed_ok.
  - destruct (step widget_of (store i) (LoadOk ac res)) as [[st o]|] eqn:Hs; [|done]. injection Hh as <- _.
    eapply read_ok; [done|left; by eexists| |exact Hs]. by intros r [= ->].
  - destruct (step widget_of (store i) (LoadErr ac abort_error reason)) as [[st o]|] eqn:Hs; [|done].
    injection Hh as <- _. eapply read_ok; [done|right; by do 2 eexists|done|exact Hs].
  - cbn [step] in Hh. case_decide; [|done]. injection Hh as <- _.
    pose proof Hgood as [[_ Hg] [[] Hep]]. apply still_ok; [|done]. split; [|done].
    unfold signals_of in *. split; cbn; try done. by case_bool_decide.
  - cbn [step] in Hh. case_decide; [|done]. injection Hh as <- _.
    pose proof Hgood as [[_ Hg] [[] Hep]]. apply still_ok; [|done]. by split.
Qed.

Inductive calm_run (cluster : jstring) (width : Z) : Island → Prop :=
  | calm_mounted : calm_run cluster width (mounted cluster width)
  | calm_step i e i' os : calm_run cluster width i → undisturbed i e →
      istep localeCompare draws fuel i e = Some (i', os) → calm_run cluster width i'.
Lemma calm_run_good cluster width i : calm_run cluster width i → good i.
Proof.
  induction 1 as [|i e i' os _ IH Hu Hs]; [|by eapply calm_istep]. split; [apply mounted_inv|].
  pose proof default_normal as Hn. split; [|done].
  split; try done. split; [apply Hn|done].
Qed.
End Calm.

(** ** Properties *)

(** C4. In every state the editor reaches, an open session is over the layout and
    the revision the store holds, and no read is outstanding: a load never
    lands on top of an edit, the branch of [save] for a session whose revision
    is not the store's is never taken, and every write that is sent is the
    session's own arrangement, claims the revision it was opened at, and is
    sent by Save. *)
Theorem session_owns_the_store lc draws fuel cluster width es i :
  irun lc draws fuel (mounted cluster width) es = Some i →
  (∀ s, session i = Some s →
     loads (store i) = [] ∧ pinned s = layoutRevision (signals_of i) ∧
     base s = asRendered (layout (signals_of i))) ∧
  (∀ e i' os sc c rev cfg, istep lc draws fuel i e = Some (i', os) → Put sc c rev cfg ∈ os →
     e = PressSave ∧ ∃ s, session i = Some s ∧ rev = pinned s ∧ cfg = open_working s).
Proof.
  intros Hrun. apply irun_inv in Hrun as [Hi _]; [|apply mounted_inv].
  destruct Hi as (H1 & H2 & H3 & H4 & H5 & H6).
  assert (Hs : ∀ s, session i = Some s → layoutLoaded (signals_of i) = true ∧
    base s = asRendered (layout (signals_of i)) ∧ pinned s = layoutRevision (signals_of i)).
  { intros s Hs. apply (H4 (base s) (pinned s)). unfold pin. by rewrite Hs. }
  split.
  - intros s E. destruct (Hs s E) as (Hl & Hb & Hp). split_and!; try done. apply H2; [|done].
    destruct (reloading i) as [ac|]; [|done]. destruct (H3 ac eq_refl) as (_ & Hp' & _).
    unfold pin in Hp'. by rewrite E in Hp'.
  - intros e i' os sc c rev cfg. unfold istep. destruct (handler _ _ _ i e) as [[k ks]|] eqn:Hh; [|done].
    intros [= <- <-] Hput. destruct (talks e) eqn:Ht.
    2:{ destruct (handler_eases _ _ _ _ _ _ _ Hh Ht) as [_ ->]. by apply elem_of_nil in Hput. }
    destruct e; try done; unfold handler, silent, offered, answered in Hh; cbn zeta in Hh.
    all: try (simplify_option_eq; by apply elem_of_nil in Hput).
    + destruct (_ && _); [|done]. injection Hh as _ <-. by apply list_elem_of_singleton in Hput.
    + split; [done|]. destruct (session i) as [s|] eqn:Es; [|done]. exists s. split; [done|].
      cbn [mbind option_bind] in Hh. destruct (_ && _); [|done]. injection Hh as Hh.
      destruct (Hs s eq_refl) as (_ & _ & Hp).
      unfold save in Hh. rewrite Es in Hh. unfold save_begin in Hh.
      repeat (case_match; simplify_eq); try (by apply elem_of_nil in Hput);
        apply list_elem_of_singleton in Hput; simplify_eq. by rewrite Hp.
    + destruct (conflict i); [|done]. injection Hh as _ <-. by apply list_elem_of_singleton in Hput.
Qed.

(** The objects of a session in a heap hold the values of [v]. *)
Definition represents (hp : Heap) (s : EditSession) (v : OpenSession) : Prop :=
  session_inv (base v) (pinned v) (hp, s, arrangement v).

(** Working with sessions as values loses nothing: over any heap, every
    operation of edit-session.ts on a session that holds [v] succeeds and
    answers what the value operations say, and the session it leaves holds
    their result. *)
Theorem sessions_are_values lc hp s v : represents hp s v →
  (∀ items l fp, read_items hp items = Some (l, fp) →
     ∃ s' hp', applyChange s items hp = Some (s', hp') ∧ represents hp' s' (rearrange v l)) ∧
  copies read_config (base v) hp (discard s hp) ∧
  (∃ l hp' fp, commit s hp = Some ((l, pinned v), hp') ∧ read_config hp' l = Some (open_working v, fp) ∧
     represents hp' s v) ∧
  isDirty lc s hp = Some (is_dirty lc v, hp) ∧
  (∀ config c fp rev, read_config hp config = Some (c, fp) →
     ∃ s' hp', beginEdit config rev hp = Some (s', hp') ∧ represents hp' s' (open_at c rev)).
Proof.
  intros Hv. pose proof Hv as (Hwf & Hrev & fb & fw & Hb & Hw). split_and!.
  - intros items l fp Hr. exact (applyChange_runs (base v) (pinned v) hp s (arrangement v) items l fp Hv Hr).
  - exact (cloneConfig_copies hp (baseline s) (base v) fb Hwf Hb).
  - destruct (cloneConfig_copies hp _ _ fw Hwf Hw) as (l & h2 & f2 & Ec & Hr2 & Hwf2 & He & _).
    exists l, h2, f2. unfold commit, bind. rewrite Ec, <- Hrev. split_and!; [done..|].
    eapply session_inv_extends; [exact Hv|done|done].
  - unfold isDirty. rewrite Hw. cbn [mbind option_bind]. by rewrite Hb.
  - intros config c fp rev Hr. destruct (beginEdit_runs c rev hp config fp Hwf Hr) as (s' & hp' & E & Hinv & _).
    by exists s', hp'.
Qed.

(** C5. As long as one thing happens at a time, the screen tells the truth: while
    a session is open the grid shows exactly the arrangement Save would write,
    and while none is and no stored layout is being fetched, it shows the
    layout the store holds, after a save the one just saved and after a cancel
    the one that was loaded. *)
Theorem screen_tells_the_truth lc draws fuel cluster width i :
  calm_run lc draws fuel cluster width i →
  match session i with
  | Some s => grid_items (grid i) = arrangement s
  | None => reloading i = None →
            grid_items (grid i) = config_items (asRendered (layout (signals_of i)))
  end.
Proof.
  intros [_ [[] _]]%calm_run_good. destruct (session i) as [s|] eqn:Hs; [|by apply ok_idle0].
  symmetry. by apply ok_session0.
Qed.

(** ** Witnesses and exceptions *)

Definition at_cell (column row : Z) : Cell := {| cx := of_Z column; cy := of_Z row |}.
Local Abbreviation demo_run_island := (irun js_compare demo_draws 20 (mounted "local"%js 1200)).
Definition opening : list ievent := [ReadDone 0 None; PressEdit].
Definition one_drag : list ievent :=
  [PointerDown dragging "d-nodes"%js (at_cell 0 10); PointerMove (at_cell 3 2)].
Definition done_saving : ievent := SaveDone 2 (stored "local"%js 1 []).

(** One thing at a time is needed. Save pressed from the keyboard while a
    widget is held writes the half-finished arrangement, then the grid puts
    the old one back: the store and the screen differ with no session open. A
    widget added the same way is on the screen and not in the session's
    arrangement, which is what Save would write. And discarding the changes a
    save has in flight shows the old layout over a store that holds the new one. *)
Example one_thing_at_a_time_needed :
  (∃ i, demo_run_island (opening ++ one_drag ++ [PressSave; done_saving]) = Some i ∧
     session i = None ∧ reloading i = None ∧
     grid_items (grid i) ≠ config_items (asRendered (layout (signals_of i)))) ∧
  (∃ i s, demo_run_island (opening ++ one_drag ++ [PressAdd; PickWidget CertsExpiringWidget]) = Some i ∧
     session i = Some s ∧ length (grid_items (grid i)) = 11%nat ∧ length (arrangement s) = 10%nat) ∧
  (∃ i, demo_run_island (opening ++ one_drag ++
          [PointerUp; PressCancel; PressSave; ConfirmDiscard; done_saving]) = Some i ∧
     session i = None ∧ reloading i = None ∧
     grid_items (grid i) ≠ config_items (asRendered (layout (signals_of i)))).
Proof.
  split_and!.
  - eexists. split; [vm_compute; reflexivity|]. split_and!; [done..|]. vm_compute. discriminate.
  - do 2 eexists. split; [vm_compute; reflexivity|]. split_and!; [done..|]; vm_compute; reflexivity.
  - eexists. split; [vm_compute; reflexivity|]. split_and!; [done..|]. vm_compute. discriminate.
Qed.

Lemma sessions_are_values_witness : isDirty js_compare changed_session changed_heap = Some (false, changed_heap).
Proof.
  assert (Hv : represents changed_heap changed_session
    {| base := store_config; arrangement := reordered; pinned := 7 |}).
  { split_and!; [apply heap_wf_intro; vm_compute; repeat constructor|done|].
    exists [10; 9; 7; 6; 8]%N, [20; 19; 16; 18; 17]%N. split; vm_compute; reflexivity. }
  destruct (sessions_are_values js_compare _ _ _ Hv) as (_ & _ & _ & H & _). rewrite H. vm_compute. reflexivity.
Defined.

(** A saved drag, with what it asks of the run checked. *)
Definition dragged_island : Island :=
  default (mounted "local"%js 1200) (demo_run_island (opening ++ one_drag ++ [PointerUp])).
Lemma dragged_run : demo_run_island (opening ++ one_drag ++ [PointerUp]) = Some dragged_island.
Proof. vm_compute. reflexivity. Qed.
Lemma dragged_save : ∃ c cfg os,
  snd <$> istep js_compare demo_draws 20 dragged_island PressSave = Some os ∧ Put overview c 0 cfg ∈ os.
Proof. do 3 eexists. split; [vm_compute; reflexivity|by left]. Qed.
Lemma session_owns_the_store_witness :
  ∃ i' os c cfg s, istep js_compare demo_draws 20 dragged_island PressSave = Some (i', os) ∧
    Put overview c 0 cfg ∈ os ∧ session dragged_island = Some s ∧ cfg = open_working s ∧
    loads (store dragged_island) = [].
Proof.
  destruct (session_owns_the_store js_compare demo_draws 20 "local"%js 1200 _ _ dragged_run) as [H1 H2].
  destruct dragged_save as (c & cfg & os & Hs & Hput).
  destruct (istep js_compare demo_draws 20 dragged_island PressSave) as [[i' os']|] eqn:E; [|discriminate Hs].
  injection Hs as ->. destruct (H2 PressSave i' os _ _ _ _ E Hput) as (_ & s & Es & _ & Ecfg).
  destruct (H1 s Es) as [Hl _]. exists i', os, c, cfg, s.
  exact (conj eq_refl (conj Hput (conj Es (conj Ecfg Hl)))).
Defined.
Definition last_unit (s : jstring) : option N := last (units s).
Definition undisturbed_check (i : Island) (e : ievent) : bool :=
  (bool_decide (pointer (grid i) = None) || own_event e) &&
  (bool_decide (saving i = None) || match e with ConfirmDiscard => false | _ => true end) &&
  match e with ReadDone _ (Some _) | ListDone _ _ => false | _ => true end &&
  (drawn i =? 0)%nat && forallb (λ it, bool_decide (last_unit (instanceId it) ≠ Some 57%N)) (grid_items (grid i)).
Lemma undisturbed_check_sound i e : undisturbed_check i e = true → undisturbed demo_draws 20 i e.
Proof.
  unfold undisturbed_check. rewrite !andb_true_iff, !orb_true_iff. intros ((((H1 & H2) & H3) & H4) & H5).
  apply Nat.eqb_eq in H4. split_and!.
  - intros [g Hg]. destruct H1; [|done]. reflect_bools. congruence.
  - intros [j Hj] ->. destruct H2; [|done]. reflect_bools. congruence.
  - destruct e as [| | | | | | | | | | | | | | | | | | | | | | | | | | | | |? [r|]| | |]; done.
  - intros d iid n. rewrite H4. unfold newInstanceId.
    assert (randomSuffix demo_draws 20 0 = Some ("k3x9k3x9"%js, 4%nat)) as -> by (vm_compute; reflexivity).
    cbn [mbind option_bind]. intros [= <- <-] (it & E & Hit)%list_elem_of_fmap.
    rewrite forallb_forall in H5. apply list_elem_of_In, H5 in Hit. reflect_bools. apply Hit. rewrite <- E.
    unfold last_unit. cbn [units js_app]. by rewrite !last_app.
Qed.
Fixpoint calm_check (i : Island) (es : list ievent) : option Island :=
  match es with
  | [] => Some i
  | e :: es' =>
      if undisturbed_check i e then '(i', _) ← istep js_compare demo_draws 20 i e; calm_check i' es' else None
  end.
Lemma calm_check_run cluster width i es i' : calm_run js_compare demo_draws 20 cluster width i →
  calm_check i es = Some i' → calm_run js_compare demo_draws 20 cluster width i'.
Proof.
  revert i. induction es as [|e es IH]; intros i Hi; cbn [calm_check]; [by intros [= <-]|].
  destruct (undisturbed_check i e) eqn:Hu; [|done].
  destruct (istep _ _ _ i e) as [[k os]|] eqn:Hs; [|done]. cbn [mbind option_bind]. apply IH.
  eapply calm_step; [done|by apply undisturbed_check_sound|done].
Qed.
Definition saved_island : Island :=
  default (mounted "local"%js 1200)
    (demo_run_island (opening ++ one_drag ++ [PointerUp; PressSave; done_saving])).
Lemma saved_calm : calm_run js_compare demo_draws 20 "local"%js 1200 saved_island.
Proof.
  apply (calm_check_run _ _ (mounted "local"%js 1200)
    (opening ++ one_drag ++ [PointerUp; PressSave; done_saving])); [apply calm_mounted|].
  vm_compute. reflexivity.
Qed.
Lemma saved_closed : session saved_island = None ∧ reloading saved_island = None.
Proof. split; vm_compute; reflexivity. Qed.
Lemma screen_tells_the_truth_witness :
  session saved_island = None ∧
  grid_items (grid saved_island) = config_items (asRendered (layout (signals_of saved_island))).
Proof.
  destruct saved_closed as [Hs Hr].
  pose proof (screen_tells_the_truth js_compare demo_draws 20 "local"%js 1200 saved_island saved_calm) as H.
  rewrite Hs in H. exact (conj Hs (H Hr)).
Defined.
