(* ===== verification/SourceCache.v ===== *)
(** * The dashboard's source cache: data.ts (the cache and its scheduling)

    The cache is a closure over maps; here it is a record, and everything that
    can happen to it an event: a method call, a timer firing, a request
    settling. A request settles in two turns, the [then] or [catch] handler and
    then the [finally] block, and other events may run in between. Which
    requests are on the wire is not a variable of the code: [wire] and
    [settling] stand for the pending promises, [issued] logs the fetches made. *)

From stdpp Require Import base list strings gmap sorting.
From Stdlib Require Import ZArith Lia Permutation.
From S2P Require Import Prelude JsValue Types Params WidgetState.

Open Scope Z_scope.

(** ** Refresh offsets and error classes *)

Definition NEGATIVE_RECHECK_TICKS : Z := 10.
Definition DASHBOARD_REFRESH_MS : Z := 60000.
Definition REQUEST_TIMEOUT_MS : Z := DASHBOARD_REFRESH_MS / 2.
Definition MAX_CONCURRENT_EXPENSIVE_FETCHES : nat := 6.
Definition REFRESH_ONCE_SETTLED : list jstring := FAMILY_STATUS_KEYS.
Definition RANGE_SENSITIVE : list jstring := RANGE_SENSITIVE_KEYS.

(** FNV-1a on 32-bit words; [Math.imul] keeps the low 32 bits. *)
Definition hash32 (value : jstring) : Z :=
  foldl (λ hh c, (Z.lxor hh (Z.of_N c) * 16777619) mod 4294967296) 2166136261 (units value).
(** [intervalMs] is a whole number of milliseconds. *)
Definition sourceRefreshOffsetMs (key : jstring) (intervalMs : Z) : Z :=
  if is_cheap (decodeSourceKey key).1 then 0 else
  let window := intervalMs / 2 in
  if window <=? 0 then 0 else hash32 key mod window.

(** What a rejected fetch carries: whether it is an [AbortError], the status
    and reason of an [ApiError], and its message. *)
Record FetchError := {
  err_abort : bool;
  err_api : option (Z * option jstring);
  err_message : jstring
}.
Definition METRICS_NOT_CONFIGURED_REASON : jstring := "metrics_not_configured"%js.
Definition METRICS_NOT_CONFIGURED_MESSAGE : jstring :=
  "Metrics are not configured for this cluster. Add a Prometheus binding in Clusters."%js.
Definition isMetricsNotConfigured (err : FetchError) : bool :=
  match err_api err with
  | Some (status, Some r) => (status =? 404) && js_eqb r METRICS_NOT_CONFIGURED_REASON
  | _ => false
  end.
Definition in_statuses (table : list (jstring * list Z)) (base : jstring) (status : Z) : bool :=
  match assoc base table with Some l => bool_decide (status ∈ l) | None => false end.
(** A reason code is never the name of a member of [Object.prototype]. *)
Definition reason_kind (base : jstring) (reason : option jstring) : option SourceErrorKind :=
  r ← reason;
  kinds ← assoc base REASON_KINDS;
  k ← assoc r kinds;
  Some (match k with reason_absent => kind_absent | reason_unsupported => kind_unsupported end).
Definition classify (err : FetchError) (base : jstring) : SourceErrorKind :=
  match err_api err with
  | None => kind_failure
  | Some (status, reason) =>
      if isMetricsNotConfigured err then kind_unsupported
      else if status =? 403 then kind_permission
      else if (status =? 404) && bool_decide (base ∈ NOT_FOUND_IS_REFUSAL) then kind_permission
      else match reason_kind base reason with
      | Some k => k
      | None =>
          if in_statuses ABSENT_STATUSES base status then kind_absent
          else if in_statuses UNSUPPORTED_STATUSES base status then kind_unsupported
          else if in_statuses AMBIGUOUS_REQUEST_STATUSES base status then kind_unsupported
          else kind_failure
      end
  end.

(** ** The cache's state *)

(** One request. [eid] is its serial number, so that equal entries are one
    object. A request is queued exactly while it is in [waiting]. *)
Record Entry := {
  eid : nat;
  key : jstring;
  ebase : jstring;
  eparams : list (jstring * jstring);
  erange : jstring
}.
#[export] Instance Entry_eq_dec : EqDecision Entry.
Proof. solve_decision. Defined.

(** Maps are association lists in insertion order. [refreshTimer] holds the
    interval and the closure's [tick]; [offsetTimers] the keys with a pending
    timer; [aborted] and [timedOut] the entries whose controller was aborted
    and whose deadline fired. *)
Record Cache := {
  states : gmap jstring SourceState;
  inFlight : list (jstring * Entry);
  fetchedRange : list (jstring * jstring);
  retired : list Entry;
  waiting : list Entry;
  activeExpensive : nat;
  offsetTimers : list jstring;
  refreshTimer : option (Z * Z);
  wire : list Entry;
  settling : list Entry;
  aborted : list Entry;
  timedOut : list Entry;
  nextId : nat;
  issued : list Entry
}.
Definition empty_cache : Cache :=
  {| states := ∅; inFlight := []; fetchedRange := []; retired := []; waiting := [];
     activeExpensive := 0; offsetTimers := []; refreshTimer := None; wire := []; settling := [];
     aborted := []; timedOut := []; nextId := 0; issued := [] |}.
Definition set_states (v : gmap jstring SourceState) (c : Cache) : Cache :=
  {| states := v; inFlight := inFlight c; fetchedRange := fetchedRange c; retired := retired c;
     waiting := waiting c; activeExpensive := activeExpensive c; offsetTimers := offsetTimers c;
     refreshTimer := refreshTimer c; wire := wire c; settling := settling c; aborted := aborted
     c; timedOut := timedOut c; nextId := nextId c; issued := issued c |}.
Definition set_inFlight (v : list (jstring * Entry)) (c : Cache) : Cache :=
  {| states := states c; inFlight := v; fetchedRange := fetchedRange c; retired := retired c;
     waiting := waiting c; activeExpensive := activeExpensive c; offsetTimers := offsetTimers c;
     refreshTimer := refreshTimer c; wire := wire c; settling := settling c; aborted := aborted
     c; timedOut := timedOut c; nextId := nextId c; issued := issued c |}.
Definition set_fetchedRange (v : list (jstring * jstring)) (c : Cache) : Cache :=
  {| states := states c; inFlight := inFlight c; fetchedRange := v; retired := retired c; waiting
     := waiting c; activeExpensive := activeExpensive c; offsetTimers := offsetTimers c;
     refreshTimer := refreshTimer c; wire := wire c; settling := settling c; aborted := aborted
     c; timedOut := timedOut c; nextId := nextId c; issued := issued c |}.
Definition set_retired (v : list Entry) (c : Cache) : Cache :=
  {| states := states c; inFlight := inFlight c; fetchedRange := fetchedRange c; retired := v;
     waiting := waiting c; activeExpensive := activeExpensive c; offsetTimers := offsetTimers c;
     refreshTimer := refreshTimer c; wire := wire c; settling := settling c; aborted := aborted
     c; timedOut := timedOut c; nextId := nextId c; issued := issued c |}.
Definition set_waiting (v : list Entry) (c : Cache) : Cache :=
  {| states := states c; inFlight := inFlight c; fetchedRange := fetchedRange c; retired :=
     retired c; waiting := v; activeExpensive := activeExpensive c; offsetTimers := offsetTimers
     c; refreshTimer := refreshTimer c; wire := wire c; settling := settling c; aborted :=
     aborted c; timedOut := timedOut c; nextId := nextId c; issued := issued c |}.
Definition set_activeExpensive (v : nat) (c : Cache) : Cache :=
  {| states := states c; inFlight := inFlight c; fetchedRange := fetchedRange c; retired :=
     retired c; waiting := waiting c; activeExpensive := v; offsetTimers := offsetTimers c;
     refreshTimer := refreshTimer c; wire := wire c; settling := settling c; aborted := aborted
     c; timedOut := timedOut c; nextId := nextId c; issued := issued c |}.
Definition set_offsetTimers (v : list jstring) (c : Cache) : Cache :=
  {| states := states c; inFlight := inFlight c; fetchedRange := fetchedRange c; retired :=
     retired c; waiting := waiting c; activeExpensive := activeExpensive c; offsetTimers := v;
     refreshTimer := refreshTimer c; wire := wire c; settling := settling c; aborted := aborted
     c; timedOut := timedOut c; nextId := nextId c; issued := issued c |}.
Definition set_refreshTimer (v : option (Z * Z)) (c : Cache) : Cache :=
  {| states := states c; inFlight := inFlight c; fetchedRange := fetchedRange c; retired :=
     retired c; waiting := waiting c; activeExpensive := activeExpensive c; offsetTimers :=
     offsetTimers c; refreshTimer := v; wire := wire c; settling := settling c; aborted :=
     aborted c; timedOut := timedOut c; nextId := nextId c; issued := issued c |}.
Definition set_wire (v : list Entry) (c : Cache) : Cache :=
  {| states := states c; inFlight := inFlight c; fetchedRange := fetchedRange c; retired :=
     retired c; waiting := waiting c; activeExpensive := activeExpensive c; offsetTimers :=
     offsetTimers c; refreshTimer := refreshTimer c; wire := v; settling := settling c; aborted
     := aborted c; timedOut := timedOut c; nextId := nextId c; issued := issued c |}.
Definition set_settling (v : list Entry) (c : Cache) : Cache :=
  {| states := states c; inFlight := inFlight c; fetchedRange := fetchedRange c; retired :=
     retired c; waiting := waiting c; activeExpensive := activeExpensive c; offsetTimers :=
     offsetTimers c; refreshTimer := refreshTimer c; wire := wire c; settling := v; aborted :=
     aborted c; timedOut := timedOut c; nextId := nextId c; issued := issued c |}.
Definition set_aborted (v : list Entry) (c : Cache) : Cache :=
  {| states := states c; inFlight := inFlight c; fetchedRange := fetchedRange c; retired :=
     retired c; waiting := waiting c; activeExpensive := activeExpensive c; offsetTimers :=
     offsetTimers c; refreshTimer := refreshTimer c; wire := wire c; settling := settling c;
     aborted := v; timedOut := timedOut c; nextId := nextId c; issued := issued c |}.
Definition set_timedOut (v : list Entry) (c : Cache) : Cache :=
  {| states := states c; inFlight := inFlight c; fetchedRange := fetchedRange c; retired :=
     retired c; waiting := waiting c; activeExpensive := activeExpensive c; offsetTimers :=
     offsetTimers c; refreshTimer := refreshTimer c; wire := wire c; settling := settling c;
     aborted := aborted c; timedOut := v; nextId := nextId c; issued := issued c |}.
Definition set_nextId (v : nat) (c : Cache) : Cache :=
  {| states := states c; inFlight := inFlight c; fetchedRange := fetchedRange c; retired :=
     retired c; waiting := waiting c; activeExpensive := activeExpensive c; offsetTimers :=
     offsetTimers c; refreshTimer := refreshTimer c; wire := wire c; settling := settling c;
     aborted := aborted c; timedOut := timedOut c; nextId := v; issued := issued c |}.
Definition set_issued (v : list Entry) (c : Cache) : Cache :=
  {| states := states c; inFlight := inFlight c; fetchedRange := fetchedRange c; retired :=
     retired c; waiting := waiting c; activeExpensive := activeExpensive c; offsetTimers :=
     offsetTimers c; refreshTimer := refreshTimer c; wire := wire c; settling := settling c;
     aborted := aborted c; timedOut := timedOut c; nextId := nextId c; issued := v |}.

(** ** The cache's functions *)

Definition map_delete {V} (k : jstring) (l : list (jstring * V)) : list (jstring * V) :=
  filter (λ kv, kv.1 ≠ k) l.
Definition remove_all {A} `{EqDecision A} (a : A) (l : list A) : list A :=
  filter (λ b, b ≠ a) l.

Section Cache.
(** Which sources have a fetcher. *)
Variable has_fetcher : jstring → bool.

Definition sig (c : Cache) (k : jstring) : SourceState := default IDLE (states c !! k).
Definition write (k : jstring) (s : SourceState) (c : Cache) : Cache :=
  set_states (<[k := s]> (states c)) c.
Definition with_loading (b : bool) (s : SourceState) : SourceState :=
  {| data := data s; error := error s; errorKind := errorKind s; loading := b; range := range s |}.

(** The fetcher is called; the promise is now pending. *)
Definition issue (e : Entry) (c : Cache) : Cache :=
  set_issued (issued c ++ [e]) (set_wire (wire c ++ [e]) c).
Definition releaseSlot (e : Entry) (c : Cache) : Cache :=
  if is_cheap (ebase e) then c
  else match waiting c with
  | next :: rest => issue next (set_waiting rest c)
  | [] => set_activeExpensive (pred (activeExpensive c)) c
  end.
Definition finish (e : Entry) (c : Cache) : Cache :=
  let c1 := if decide (assoc (key e) (inFlight c) = Some e)
            then set_inFlight (map_delete (key e) (inFlight c)) c else c in
  set_retired (remove_all e (retired c1)) c1.
Definition dropQueued (e : Entry) (c : Cache) : Cache :=
  finish e (set_waiting (remove_all e (waiting c)) c).

Definition run (k r : jstring) (c : Cache) : Cache :=
  let '(base, ps) := decodeSourceKey k in
  if negb (has_fetcher base) then c else
  let c1 := write k (with_loading true (sig c k)) c in
  let c2 := set_fetchedRange (assoc_set k r (fetchedRange c1)) c1 in
  let e := {| eid := nextId c; key := k; ebase := base; eparams := ps; erange := r |} in
  let c3 := set_nextId (S (nextId c)) c2 in
  let c4 :=
    if is_cheap base then issue e c3
    else if (activeExpensive c3 <? MAX_CONCURRENT_EXPENSIVE_FETCHES)%nat
    then issue e (set_activeExpensive (S (activeExpensive c3)) c3)
    else set_waiting (waiting c3 ++ [e]) c3 in
  set_inFlight (assoc_set k e (inFlight c4)) c4.

Definition retire (e : Entry) (c : Cache) : Cache :=
  let c1 := set_aborted (aborted c ++ [e])
              (set_retired (retired c ++ [e]) (set_inFlight (map_delete (key e) (inFlight c)) c)) in
  if decide (e ∈ waiting c1) then dropQueued e c1 else c1.

Definition clearOffsetTimers (c : Cache) : Cache := set_offsetTimers [] c.
Definition busyKeys (c : Cache) : list jstring :=
  (inFlight c).*1 ++ (key <$> retired c) ++ offsetTimers c.
Definition isDue (c : Cache) (k : jstring) (busy : list jstring) (tick : Z) : bool :=
  if decide (k ∈ busy) then false else
  let s := sig c k in
  if bool_decide (k ∈ REFRESH_ONCE_SETTLED) && landed s then
    if featurePresent (data s) then false
    else if presenceUnknown (data s) then true
    else tick mod NEGATIVE_RECHECK_TICKS =? 0
  else true.
Definition dueEntries (c : Cache) (tick : Z) : list (jstring * jstring) :=
  filter (λ kr, isDue c kr.1 (busyKeys c) tick = true) (fetchedRange c).
Definition settleAborted (k : jstring) (c : Cache) : Cache :=
  let s := sig c k in
  let c1 := match range s with
    | None => set_fetchedRange (map_delete k (fetchedRange c)) c
    | Some r => set_fetchedRange (assoc_set k r (fetchedRange c)) c
    end in
  write k (with_loading false s) c1.

Definition ensure_one (r : jstring) (c : Cache) (k : jstring) : Cache :=
  let sensitive := bool_decide ((decodeSourceKey k).1 ∈ RANGE_SENSITIVE) in
  match assoc k (inFlight c) with
  | Some pending =>
      if negb sensitive || js_eqb (erange pending) r then c
      else run k r (retire pending c)
  | None =>
      match assoc k (fetchedRange c) with
      | Some previous =>
          if sensitive && negb (js_eqb previous r) then run k r c else c
      | None => run k r c
      end
  end.
Definition ensure (keys : list jstring) (r : jstring) (c : Cache) : Cache :=
  foldl (ensure_one r) c keys.

Definition run_all (due : list (jstring * jstring)) (c : Cache) : Cache :=
  foldl (λ c kr, run kr.1 kr.2 c) c due.
Definition refresh (c : Cache) : Cache :=
  let c1 := clearOffsetTimers c in run_all (dueEntries c1 0) c1.

(** One key the layout no longer wants. *)
Definition forget (k : jstring) (c : Cache) : Cache :=
  set_states (delete k (states c))
    (set_offsetTimers (remove_all k (offsetTimers c))
      (set_fetchedRange (map_delete k (fetchedRange c)) c)).
Definition retain (keys : list jstring) (c : Cache) : Cache :=
  let gone := filter (λ e, key e ∉ keys) (inFlight c).*2 in
  let c1 := foldl (λ c e, retire e c) c gone in
  foldl (λ c k, forget k c) c1 (filter (λ k, k ∉ keys) (fetchedRange c1).*1).

Definition abort (c : Cache) : Cache :=
  let c1 := clearOffsetTimers c in
  foldl (λ c e, settleAborted (key e) (retire e c)) c1 (inFlight c1).*2.

Definition stop (c : Cache) : Cache := clearOffsetTimers (set_refreshTimer None c).
Definition startRefresh (intervalMs : Z) (c : Cache) : Cache :=
  set_refreshTimer (Some (intervalMs, 0)) (stop c).
(** One due key of an interval tick: now, or after its offset. *)
Definition schedule (intervalMs : Z) (c : Cache) (kr : jstring * jstring) : Cache :=
  if sourceRefreshOffsetMs kr.1 intervalMs =? 0 then run kr.1 kr.2 c
  else set_offsetTimers (remove_all kr.1 (offsetTimers c) ++ [kr.1]) c.
Definition interval_fires (hidden : bool) (c : Cache) : Cache :=
  match refreshTimer c with
  | Some (intervalMs, tick) =>
      if hidden then c else
      let c1 := set_refreshTimer (Some (intervalMs, tick + 1)) c in
      foldl (schedule intervalMs) c1 (dueEntries c1 (tick + 1))
  | None => c
  end.
Definition offset_fires (k : jstring) (c : Cache) : Cache :=
  let c1 := set_offsetTimers (remove_all k (offsetTimers c)) c in
  match assoc k (fetchedRange c1) with
  | None => c1
  | Some r => if isDue c1 k (busyKeys c1) 0 then run k r c1 else c1
  end.

(** The [then] and [catch] handlers of [issue]. *)
Inductive outcome := Resolved (v : jsval) | Rejected (err : FetchError).
Definition current (c : Cache) (e : Entry) : Prop := assoc (key e) (inFlight c) = Some e.
#[export] Instance current_dec c e : Decision (current c e).
Proof. unfold current. apply _. Defined.
Definition handle (e : Entry) (o : outcome) (c : Cache) : Cache :=
  if decide (current c e) then
    match o with
    | Resolved v =>
        write (key e) {| data := v; error := None; errorKind := None; loading := false;
                         range := Some (erange e) |} c
    | Rejected err =>
        if bool_decide (e ∉ timedOut c) && (err_abort err || bool_decide (e ∈ aborted c))
        then settleAborted (key e) c
        else
          let s := sig c (key e) in
          write (key e)
            {| data := data s;
               error := Some (if isMetricsNotConfigured err then METRICS_NOT_CONFIGURED_MESSAGE
                              else err_message err);
               errorKind := Some (classify err (ebase e)); loading := false;
               range := range s |} c
    end
  else c.

Inductive event :=
  | Ensure (keys : list jstring) (r : jstring)
  | Refresh
  | Retain (keys : list jstring)
  | Abort
  | StartRefresh (intervalMs : Z)
  | Stop
  | Interval (hidden : bool)
  | Offset (k : jstring)
  | Deadline (e : Entry)
  | Settle (e : Entry) (o : outcome)
  | Finally (e : Entry).
(** [None]: there is no such timer or promise. *)
Definition step (c : Cache) (ev : event) : option Cache :=
  match ev with
  | Ensure keys r => Some (ensure keys r c)
  | Refresh => Some (refresh c)
  | Retain keys => Some (retain keys c)
  | Abort => Some (abort c)
  | StartRefresh i => Some (startRefresh i c)
  | Stop => Some (stop c)
  | Interval hidden => Some (interval_fires hidden c)
  | Offset k => if decide (k ∈ offsetTimers c) then Some (offset_fires k c) else None
  | Deadline e =>
      if decide (e ∈ wire c)
      then Some (set_timedOut (timedOut c ++ [e]) (set_aborted (aborted c ++ [e]) c)) else None
  | Settle e o =>
      if decide (e ∈ wire c)
      then Some (handle e o (set_settling (settling c ++ [e]) (set_wire (remove_all e (wire c)) c)))
      else None
  | Finally e =>
      if decide (e ∈ settling c)
      then Some (finish e (releaseSlot e (set_settling (remove_all e (settling c)) c)))
      else None
  end.
Definition events (c : Cache) (evs : list event) : option Cache :=
  foldl (λ oc ev, c ← oc; step c ev) (Some c) evs.
(** ** The books: who owns which request *)

Lemma map_delete_elem {V} k (l : list (jstring * V)) kv :
  kv ∈ map_delete k l ↔ kv.1 ≠ k ∧ kv ∈ l.
Proof. unfold map_delete. by rewrite list_elem_of_filter. Qed.
Lemma remove_all_elem {A} `{EqDecision A} (a b : A) l : b ∈ remove_all a l ↔ b ≠ a ∧ b ∈ l.
Proof. unfold remove_all. by rewrite list_elem_of_filter. Qed.
Lemma map_delete_keys {V} k (l : list (jstring * V)) : NoDup l.*1 → NoDup (map_delete k l).*1.
Proof. intros H. eapply sublist_NoDup; [done|]. apply fmap_sublist, sublist_filter. Qed.
Lemma remove_all_perm {A} `{EqDecision A} (a : A) l :
  NoDup l → a ∈ l → l ≡ₚ a :: remove_all a l.
Proof.
  induction l as [|b l IH]; [by intros _ ?%elem_of_nil|].
  intros [Hb Hl]%NoDup_cons [->|Ha]%elem_of_cons; unfold remove_all; rewrite filter_cons.
  - rewrite decide_False by tauto. f_equiv. symmetry.
    rewrite (filter_all (λ b0, b0 ≠ b)); [done|].
    apply Forall_forall. by intros x Hx ->.
  - destruct (decide (b = a)) as [->|Hne]; [done|]. rewrite decide_True by done.
    rewrite Permutation_swap. f_equiv. by apply IH.
Qed.
Lemma remove_all_notin {A} `{EqDecision A} (a : A) l : a ∉ l → remove_all a l = l.
Proof. intros Ha. apply (filter_all (λ b, b ≠ a)), Forall_forall. by intros x Hx ->. Qed.
Lemma assoc_In_NoDup {V} k (v : V) l : NoDup l.*1 → assoc k l = Some v ↔ (k, v) ∈ l.
Proof. split; [apply assoc_elem_of|by apply assoc_NoDup]. Qed.
Lemma assoc_set_elem {V} k (v : V) l kv :
  k ∉ l.*1 → kv ∈ assoc_set k v l ↔ kv ∈ l ∨ kv = (k, v).
Proof. intros Hk. rewrite assoc_set_fresh by done. by rewrite elem_of_app, list_elem_of_singleton. Qed.

Definition noncheap (e : Entry) : Prop := is_cheap (ebase e) = false.
#[export] Instance noncheap_dec e : Decision (noncheap e).
Proof. unfold noncheap. apply _. Defined.
(** Every request not yet over. *)
Definition outstanding (c : Cache) : list Entry := wire c ++ settling c ++ waiting c.
(** Those that hold, or held until their [finally], a connection. *)
Definition on_wire (c : Cache) : list Entry := wire c ++ settling c.

Record books (c : Cache) : Prop := {
  b_nodup : NoDup (outstanding c);
  b_fresh : ∀ e, e ∈ outstanding c → (eid e < nextId c)%nat;
  b_count : activeExpensive c = length (filter noncheap (on_wire c));
  b_bound : (activeExpensive c ≤ MAX_CONCURRENT_EXPENSIVE_FETCHES)%nat;
  b_full : waiting c ≠ [] → activeExpensive c = MAX_CONCURRENT_EXPENSIVE_FETCHES;
  b_wait : ∀ e, e ∈ waiting c → noncheap e;
  b_keys : NoDup (inFlight c).*1;
  b_live : ∀ k e, (k, e) ∈ inFlight c → key e = k ∧ e ∈ outstanding c ∧ e ∉ retired c;
  b_retired : ∀ e, e ∈ retired c → e ∈ on_wire c;
  b_owned : ∀ e, e ∈ outstanding c → (key e, e) ∈ inFlight c ∨ e ∈ retired c;
  b_served : ∀ k e, (k, e) ∈ inFlight c → has_fetcher (decodeSourceKey k).1 = true
}.

Lemma elem_of_outstanding c e :
  e ∈ outstanding c ↔ e ∈ wire c ∨ e ∈ settling c ∨ e ∈ waiting c.
Proof. unfold outstanding. by rewrite !elem_of_app. Qed.
Lemma elem_of_on_wire c e : e ∈ on_wire c ↔ e ∈ wire c ∨ e ∈ settling c.
Proof. unfold on_wire. by rewrite elem_of_app. Qed.
Lemma outstanding_split c : outstanding c = on_wire c ++ waiting c.
Proof. unfold outstanding, on_wire. by rewrite (assoc_L (++)). Qed.

(** The books only depend on these fields. *)
Lemma books_ext c c' :
  books c → wire c' = wire c → settling c' = settling c → waiting c' = waiting c →
  activeExpensive c' = activeExpensive c → inFlight c' = inFlight c → retired c' = retired c →
  nextId c' = nextId c → books c'.
Proof.
  intros [] E1 E2 E3 E4 E5 E6 E7.
  split; unfold outstanding, on_wire; rewrite ?E1, ?E2, ?E3, ?E4, ?E5, ?E6, ?E7; done.
Qed.
Lemma empty_books : books empty_cache.
Proof.
  split; simpl; try done; try (by intros ? ?%elem_of_nil); try (by intros ? ? ?%elem_of_nil).
  - constructor.
  - unfold MAX_CONCURRENT_EXPENSIVE_FETCHES. lia.
  - constructor.
Qed.

Lemma filter_noncheap_cons e l :
  length (filter noncheap (e :: l)) = ((if is_cheap (ebase e) then 0 else 1) + length (filter noncheap l))%nat.
Proof.
  rewrite filter_cons. case_decide as Hd; unfold noncheap in Hd; destruct (is_cheap (ebase e)); done.
Qed.
Lemma filter_perm_length l l' : l ≡ₚ l' → length (filter noncheap l) = length (filter noncheap l').
Proof. intros H. by rewrite H. Qed.

(** A new request, on the wire or queued. *)
Lemma books_add c c' e :
  books c → key e ∉ (inFlight c).*1 → eid e = nextId c → nextId c' = S (nextId c) →
  has_fetcher (decodeSourceKey (key e)).1 = true →
  inFlight c' = assoc_set (key e) e (inFlight c) → retired c' = retired c →
  (on_wire c' ≡ₚ e :: on_wire c ∧ waiting c' = waiting c ∧
   activeExpensive c' = ((if is_cheap (ebase e) then 0 else 1) + activeExpensive c)%nat ∧
   (is_cheap (ebase e) = false → (activeExpensive c < MAX_CONCURRENT_EXPENSIVE_FETCHES)%nat)) ∨
  (on_wire c' = on_wire c ∧ waiting c' = waiting c ++ [e] ∧ noncheap e ∧
   activeExpensive c' = activeExpensive c ∧ activeExpensive c = MAX_CONCURRENT_EXPENSIVE_FETCHES) →
  books c'.
Proof.
  intros [Hnd Hfr Hct Hbd Hfl Hwt Hks Hlv Hrt How Hsv] Hk Heid Hnext Hserved Hin Hret Hcase.
  assert (Hnew : e ∉ outstanding c) by (intros H%Hfr; lia).
  assert (Hnr : e ∉ retired c).
  { intros Hr. apply Hrt, elem_of_on_wire in Hr. apply Hnew, elem_of_outstanding. tauto. }
  assert (Hout : outstanding c' ≡ₚ e :: outstanding c).
  { rewrite !outstanding_split. destruct Hcase as [(-> & -> & _)|(-> & -> & _)]; [done|].
    rewrite (assoc_L (++)). apply Permutation_app_comm. }
  split.
  - rewrite Hout. by constructor.
  - intros e'. rewrite Hout, Hnext, elem_of_cons. intros [->|H%Hfr]; lia.
  - destruct Hcase as [(Hw & _ & -> & _)|(-> & _ & _ & -> & _)]; [|done].
    rewrite (filter_perm_length _ _ Hw), filter_noncheap_cons. lia.
  - destruct Hcase as [(_ & _ & -> & Hlt)|(_ & _ & _ & -> & _)]; [|done].
    destruct (is_cheap (ebase e)); [done|]. specialize (Hlt eq_refl). lia.
  - destruct Hcase as [(_ & -> & -> & Hlt)|(_ & _ & _ & -> & ->)]; [|done].
    intros Hne. apply Hfl in Hne. destruct (is_cheap (ebase e)); [lia|].
    specialize (Hlt eq_refl). lia.
  - destruct Hcase as [(_ & -> & _)|(_ & -> & Hn & _)]; [done|].
    intros e'. rewrite elem_of_app, list_elem_of_singleton. intros [?| ->]; auto.
  - rewrite Hin, assoc_set_fresh, fmap_app by done. apply NoDup_app. split; [done|].
    split; [|apply NoDup_singleton]. by intros a Ha ->%list_elem_of_singleton.
  - intros k' e'. rewrite Hin, assoc_set_elem, Hret by done. rewrite Hout, elem_of_cons.
    intros [H|[= -> ->]]; [|by auto]. apply Hlv in H. tauto.
  - intros e'. rewrite Hret. intros H%Hrt. destruct Hcase as [(-> & _)|(-> & _)]; [by right|done].
  - intros e'. rewrite Hout, Hin, assoc_set_elem, Hret, elem_of_cons by done.
    intros [->|H]; [by left; right|]. apply How in H. tauto.
  - intros k' e'. rewrite Hin, assoc_set_elem by done. intros [H|[= -> ->]]; [by eapply Hsv|done].
Qed.
Lemma run_books k r c : books c → k ∉ (inFlight c).*1 → books (run k r c).
Proof.
  intros Hb Hk. unfold run. destruct (decodeSourceKey k) as [base ps] eqn:Ed.
  destruct (has_fetcher base) eqn:Ef; [|done]. cbn [negb].
  set (e := {| eid := nextId c; key := k; ebase := base; eparams := ps; erange := r |}).
  assert (Hserved : has_fetcher (decodeSourceKey (key e)).1 = true) by (simpl; by rewrite Ed).
  destruct (is_cheap base) eqn:Ec.
  - apply (books_add c _ e); try done. left. simpl. rewrite Ec. split; [|done].
    unfold on_wire. simpl. rewrite <- app_assoc. symmetry. apply Permutation_middle.
  - simpl activeExpensive. destruct (Nat.ltb_spec (activeExpensive c) MAX_CONCURRENT_EXPENSIVE_FETCHES).
    + apply (books_add c _ e); try done. left. simpl. rewrite Ec. split; [|done].
      unfold on_wire. simpl. rewrite <- app_assoc. symmetry. apply Permutation_middle.
    + apply (books_add c _ e); try done. right. simpl. pose proof (b_bound c Hb).
      repeat split; [done|lia].
Qed.

(** Deleting a key deletes its owner and nothing else. *)
Lemma map_delete_owner (m : list (jstring * Entry)) e k e' :
  NoDup m.*1 → (∀ k e, (k, e) ∈ m → key e = k) → (key e, e) ∈ m →
  (k, e') ∈ map_delete (key e) m ↔ (k, e') ∈ m ∧ e' ≠ e.
Proof.
  intros Hnd Hkey Hin. rewrite map_delete_elem. simpl. split.
  - intros [Hne H]. split; [done|]. intros ->. apply Hne. symmetry. by apply Hkey.
  - intros [H Hne]. split; [|done]. intros ->. apply Hne.
    assert (assoc (key e) m = Some e' ∧ assoc (key e) m = Some e)
      as [E1 E2] by (split; by apply assoc_NoDup). congruence.
Qed.
Lemma finish_owner e c k e' :
  NoDup (inFlight c).*1 → (∀ k e, (k, e) ∈ inFlight c → key e = k) →
  (k, e') ∈ inFlight (finish e c) ↔ (k, e') ∈ inFlight c ∧ e' ≠ e.
Proof.
  intros Hnd Hkey. unfold finish. case_decide as Hcur; simpl.
  - apply map_delete_owner; [done..|]. by apply assoc_elem_of.
  - split; [|tauto]. intros H. split; [done|]. intros ->. apply Hcur.
    apply Hkey in H as Hk. subst k. by apply assoc_NoDup.
Qed.

Lemma retire_books e c : books c → (key e, e) ∈ inFlight c → books (retire e c).
Proof.
  intros [Hnd Hfr Hct Hbd Hfl Hwt Hks Hlv Hrt How Hsv] Hin. unfold retire. cbn [waiting set_aborted set_retired set_inFlight].
  destruct (Hlv _ _ Hin) as (_ & Hlive & Hnr).
  assert (Hother : ∀ k e', (k, e') ∈ map_delete (key e) (inFlight c) ↔ (k, e') ∈ inFlight c ∧ e' ≠ e).
  { intros k e'. apply map_delete_owner; [done| |done]. intros k0 e0 H0. by apply Hlv. }
  rewrite elem_of_outstanding in Hlive. case_decide as Hq.
  - (* queued: dropped *)
    assert (Hw : waiting c ≡ₚ e :: remove_all e (waiting c)).
    { apply remove_all_perm; [|done]. rewrite outstanding_split in Hnd. by apply NoDup_app in Hnd as (_ & _ & ?). }
    assert (Hout : outstanding c ≡ₚ e :: outstanding (set_waiting (remove_all e (waiting c)) c)).
    { rewrite !outstanding_split. simpl. rewrite Hw at 1. by rewrite Permutation_middle. }
    unfold dropQueued, finish. simpl.
    rewrite decide_False.
    2:{ intros E. apply assoc_elem_of in E. apply Hother in E. tauto. }
    split; simpl.
    + change (NoDup (outstanding (set_waiting (remove_all e (waiting c)) c))).
      rewrite Hout in Hnd. by apply NoDup_cons in Hnd as [_ ?].
    + intros e' He'. apply Hfr. rewrite Hout. right. exact He'.
    + exact Hct.
    + done.
    + intros Hne. apply Hfl. intros E. rewrite E in Hne. done.
    + intros e' [_ H]%remove_all_elem. by apply Hwt.
    + by apply map_delete_keys.
    + intros k e' [H Hne]%Hother. destruct (Hlv _ _ H) as (? & Ho & Hr). split; [done|]. split.
      * rewrite Hout in Ho. apply elem_of_cons in Ho as [?|Ho]; [done|exact Ho].
      * rewrite remove_all_elem, elem_of_app, list_elem_of_singleton. tauto.
    + intros e'. rewrite remove_all_elem, elem_of_app, list_elem_of_singleton.
      intros [Hne [H|H]]; [by apply Hrt|done].
    + intros e' He'. rewrite Hother, remove_all_elem, elem_of_app, list_elem_of_singleton.
      assert (Ho : e' ∈ outstanding c) by (rewrite Hout; right; exact He').
      assert (Hne : e' ≠ e).
      { intros ->. rewrite Hout in Hnd. apply NoDup_cons in Hnd as [Hnd _]. by apply Hnd. }
      apply How in Ho. tauto.
    + intros k e' [H _]%Hother. by eapply Hsv.
  - (* on the wire: retired *)
    split; simpl; try done.
    + by apply map_delete_keys.
    + intros k e' [H Hne]%Hother. destruct (Hlv _ _ H) as (? & Ho & Hr). split; [done|].
      split; [done|]. rewrite elem_of_app, list_elem_of_singleton. tauto.
    + intros e'. rewrite elem_of_app, list_elem_of_singleton. intros [H| ->]; [by apply Hrt|].
      apply elem_of_on_wire. tauto.
    + intros e' Ho. rewrite Hother, elem_of_app, list_elem_of_singleton.
      destruct (decide (e' = e)); [tauto|]. apply How in Ho. tauto.
    + intros k e' [H _]%Hother. by eapply Hsv.
Qed.
(** The end of a request: its slot passes to the oldest waiter, if any. *)
Lemma releaseSlot_spec e c :
  books c → e ∈ settling c →
  let c2 := releaseSlot e (set_settling (remove_all e (settling c)) c) in
  outstanding c ≡ₚ e :: outstanding c2 ∧
  (∀ e', e' ∈ on_wire c → e' ≠ e → e' ∈ on_wire c2) ∧
  (∃ moved, waiting c = moved ++ waiting c2 ∧ (length moved ≤ 1)%nat) ∧
  activeExpensive c2 = length (filter noncheap (on_wire c2)) ∧
  (activeExpensive c2 ≤ activeExpensive c)%nat ∧
  (waiting c2 ≠ [] → activeExpensive c2 = activeExpensive c) ∧
  inFlight c2 = inFlight c ∧ retired c2 = retired c ∧ nextId c2 = nextId c.
Proof.
  intros [Hnd Hfr Hct Hbd Hfl Hwt Hks Hlv Hrt How Hsv] He.
  assert (Hs : settling c ≡ₚ e :: remove_all e (settling c)).
  { apply remove_all_perm; [|done]. unfold outstanding in Hnd.
    apply NoDup_app in Hnd as (_ & _ & [? _]%NoDup_app). done. }
  set (c1 := set_settling (remove_all e (settling c)) c).
  assert (Hw : on_wire c ≡ₚ e :: on_wire c1).
  { unfold on_wire, c1. simpl. rewrite Hs at 1. by rewrite Permutation_middle. }
  assert (Hout : outstanding c ≡ₚ e :: outstanding c1).
  { rewrite !outstanding_split. rewrite Hw. done. }
  assert (Hkeep : ∀ e', e' ∈ on_wire c → e' ≠ e → e' ∈ on_wire c1).
  { intros e'. rewrite Hw, elem_of_cons. tauto. }
  rewrite (filter_perm_length _ _ Hw), filter_noncheap_cons in Hct.
  unfold releaseSlot. destruct (is_cheap (ebase e)) eqn:Ec; simpl in Hct.
  - simpl. repeat split; try done. exists []. split; [done|simpl; lia].
  - change (waiting c1) with (waiting c). destruct (waiting c) as [|nx rest] eqn:Ew.
    + simpl. repeat split; try done; [exists []; split; [done|simpl; lia]|rewrite Hct; done|lia].
    + assert (Hn : noncheap nx) by (apply Hwt; left).
      assert (Hw2 : on_wire (issue nx (set_waiting rest c1)) ≡ₚ nx :: on_wire c1).
      { unfold on_wire, issue. simpl. rewrite <- app_assoc. symmetry. apply Permutation_middle. }
      simpl. repeat split; try done.
      * rewrite Hout, !outstanding_split, Hw2. simpl. unfold c1 at 2. simpl. rewrite Ew.
        f_equiv. rewrite <- Permutation_middle. done.
      * intros e' H1 H2. rewrite Hw2. right. by apply Hkeep.
      * exists [nx]. split; [done|simpl; lia].
      * rewrite (filter_perm_length _ _ Hw2), filter_noncheap_cons.
        unfold noncheap in Hn. rewrite Hn. rewrite Hct. done.
Qed.
Lemma finally_books e c :
  books c → e ∈ settling c →
  books (finish e (releaseSlot e (set_settling (remove_all e (settling c)) c))).
Proof.
  intros Hb He. pose proof (releaseSlot_spec e c Hb He) as Hspec. simpl in Hspec.
  set (c2 := releaseSlot e _) in *. clearbody c2.
  destruct Hspec as (Hout & Hkeep & (moved & Hw & _) & Hct2 & Hle & Hfull & Hin & Hret & Hid).
  destruct Hb as [Hnd Hfr Hct Hbd Hfl Hwt Hks Hlv Hrt How Hsv].
  rewrite Hout in Hnd. apply NoDup_cons in Hnd as [Hnew Hnd].
  assert (Hother : ∀ k e', (k, e') ∈ inFlight (finish e c2) ↔ (k, e') ∈ inFlight c ∧ e' ≠ e).
  { intros k e'. rewrite finish_owner; rewrite Hin; [done|done|]. intros k0 e0 H0. by apply Hlv. }
  assert (Hretd : retired (finish e c2) = remove_all e (retired c)).
  { unfold finish. case_decide; simpl; by rewrite Hret. }
  assert (Hsame : outstanding (finish e c2) = outstanding c2 ∧ on_wire (finish e c2) = on_wire c2 ∧
    waiting (finish e c2) = waiting c2 ∧ activeExpensive (finish e c2) = activeExpensive c2 ∧
    nextId (finish e c2) = nextId c).
  { unfold finish. case_decide; simpl; by rewrite Hid. }
  destruct Hsame as (S1 & S2 & S3 & S4 & S5).
  split; rewrite ?S1, ?S2, ?S3, ?S4, ?S5.
  - done.
  - intros e' H. apply Hfr. rewrite Hout. by right.
  - done.
  - lia.
  - intros Hne. rewrite Hfull by done. apply Hfl. rewrite Hw. by intros [_ ?]%app_nil.
  - intros e' H. apply Hwt. rewrite Hw, elem_of_app. by right.
  - unfold finish. rewrite Hin. case_decide; simpl; [by apply map_delete_keys|by rewrite Hin].
  - intros k e' [H Hne]%Hother. destruct (Hlv _ _ H) as (? & Ho & Hr). split; [done|].
    rewrite Hout in Ho. apply elem_of_cons in Ho as [?|Ho]; [done|].
    split; [done|]. rewrite Hretd, remove_all_elem. tauto.
  - intros e'. rewrite Hretd, remove_all_elem. intros [Hne H%Hrt]. by apply Hkeep.
  - intros e' H. assert (Hne : e' ≠ e) by (by intros ->).
    rewrite Hother, Hretd, remove_all_elem.
    assert (Ho : e' ∈ outstanding c) by (rewrite Hout; by right). apply How in Ho. tauto.
  - intros k e' [H _]%Hother. by eapply Hsv.
Qed.

Lemma settle_move_books e c :
  books c → e ∈ wire c →
  books (set_settling (settling c ++ [e]) (set_wire (remove_all e (wire c)) c)).
Proof.
  intros [Hnd Hfr Hct Hbd Hfl Hwt Hks Hlv Hrt How Hsv] He.
  assert (Hw : wire c ≡ₚ e :: remove_all e (wire c)).
  { apply remove_all_perm; [|done]. unfold outstanding in Hnd. by apply NoDup_app in Hnd as [? _]. }
  set (c' := set_settling _ _).
  assert (Hon : on_wire c' ≡ₚ on_wire c).
  { unfold on_wire, c'. simpl. rewrite Hw at 2. rewrite (assoc_L (++)).
    rewrite Permutation_app_comm. done. }
  assert (Hout : outstanding c' ≡ₚ outstanding c) by (rewrite !outstanding_split, Hon; done).
  split; try done.
  - by rewrite Hout.
  - intros e'. rewrite Hout. apply Hfr.
  - rewrite (filter_perm_length _ _ Hon). exact Hct.
  - intros k e'. rewrite Hout. apply Hlv.
  - intros e'. rewrite Hon. apply Hrt.
  - intros e'. rewrite Hout. apply How.
Qed.
Lemma handle_books e o c : books c → books (handle e o c).
Proof.
  intros Hb. eapply books_ext; [exact Hb|..]; unfold handle, settleAborted;
    repeat case_match; done.
Qed.
(** ** The view: what the widgets are told *)

(** Outside [X], a key that reads as loading has a request behind it that will
    say otherwise; a request that has not settled is remembered by the refresh
    loop; an error always has a kind. *)
Record view (X : list jstring) (c : Cache) : Prop := {
  v_loading : ∀ k, k ∉ X → loading (sig c k) = true →
    ∃ e, (k, e) ∈ inFlight c ∧ (e ∈ wire c ∨ e ∈ waiting c);
  v_known : ∀ k, loading (sig c k) = true → k ∈ (fetchedRange c).*1;
  v_fetched : ∀ k e, (k, e) ∈ inFlight c → e ∈ wire c ∨ e ∈ waiting c → k ∈ (fetchedRange c).*1;
  v_ranges : NoDup (fetchedRange c).*1;
  v_ok : ∀ k, source_ok (sig c k)
}.
Definition cache_inv (c : Cache) : Prop := books c ∧ view [] c.

Lemma view_weaken X Y c : X ⊆ Y → view X c → view Y c.
Proof. intros HXY []. split; try done. intros k Hk. apply v_loading0. set_solver. Qed.
Lemma empty_view : view [] empty_cache.
Proof.
  split; simpl; try done; try (by intros ? ? ?%elem_of_nil). constructor.
Qed.
Lemma sig_write k s c k' : sig (write k s c) k' = if decide (k' = k) then s else sig c k'.
Proof.
  unfold sig, write. simpl. case_decide as H; [subst; by rewrite lookup_insert_eq|].
  by rewrite lookup_insert_ne.
Qed.
Lemma source_ok_loading b s : source_ok s → source_ok (with_loading b s).
Proof. done. Qed.
(** What [run] does, when the source has a fetcher. *)
Definition new_entry (k r : jstring) (c : Cache) : Entry :=
  {| eid := nextId c; key := k; ebase := (decodeSourceKey k).1; eparams := (decodeSourceKey k).2;
     erange := r |}.
Lemma run_effect k r c :
  has_fetcher (decodeSourceKey k).1 = true →
  let c' := run k r c in let e := new_entry k r c in
  inFlight c' = assoc_set k e (inFlight c) ∧ retired c' = retired c ∧
  fetchedRange c' = assoc_set k r (fetchedRange c) ∧
  (∀ k', sig c' k' = if decide (k' = k) then with_loading true (sig c k) else sig c k') ∧
  offsetTimers c' = offsetTimers c ∧ settling c' = settling c ∧
  (wire c' = wire c ++ [e] ∧ waiting c' = waiting c ∧ issued c' = issued c ++ [e] ∨
   wire c' = wire c ∧ waiting c' = waiting c ++ [e] ∧ issued c' = issued c).
Proof.
  intros Hf. unfold run, new_entry. destruct (decodeSourceKey k) as [base ps]. simpl in Hf. rewrite Hf.
  cbn [negb fst snd]. destruct (is_cheap base); [|destruct (_ <? _)%nat]; simpl;
    (do 3 (split; [done|])); (split; [intros k'; apply sig_write|]); (do 2 (split; [done|])); auto.
Qed.
Lemma run_no_fetcher k r c : has_fetcher (decodeSourceKey k).1 = false → run k r c = c.
Proof. intros Hf. unfold run. destruct (decodeSourceKey k). simpl in Hf. by rewrite Hf. Qed.

Lemma run_view X k r c :
  books c → k ∉ (inFlight c).*1 → has_fetcher (decodeSourceKey k).1 = true →
  view (k :: X) c → view X (run k r c).
Proof.
  intros Hb Hk Hf [H1 H2 H3 H4 H5].
  destruct (run_effect k r c Hf) as (Ein & Ere & Efr & Esig & Eof & Ese & Ew).
  set (c' := run k r c) in *. set (e := new_entry k r c) in *. clearbody c'.
  assert (Hw : ∀ e', (e' ∈ wire c' ∨ e' ∈ waiting c') ↔ (e' ∈ wire c ∨ e' ∈ waiting c) ∨ e' = e).
  { intros e'. destruct Ew as [(-> & -> & _)|(-> & -> & _)];
      rewrite elem_of_app, list_elem_of_singleton; tauto. }
  split.
  - intros k' Hk' Hl. rewrite Ein. destruct (decide (k' = k)) as [->|Hne].
    + exists e. rewrite assoc_set_elem by done. split; [by right|]. apply Hw. by right.
    + rewrite Esig, decide_False in Hl by done.
      destruct (H1 k') as (e' & He' & Hwt); [set_solver|done|].
      exists e'. rewrite assoc_set_elem by done. split; [by left|]. apply Hw. by left.
  - intros k'. rewrite Esig, Efr, assoc_set_keys_elem. case_decide; [by left|].
    intros ?%H2. by right.
  - intros k' e'. rewrite Ein, assoc_set_elem, Efr, assoc_set_keys_elem, Hw by done.
    intros [Hin|[= -> ->]]; [|by left]. intros [Hx| ->]; [right; by eapply H3|].
    exfalso. destruct (b_live c Hb k' e Hin) as (_ & Ho & _). apply (b_fresh c Hb) in Ho.
    simpl in Ho. lia.
  - rewrite Efr. by apply assoc_set_keys_NoDup.
  - intros k'. rewrite Esig. case_decide; [apply source_ok_loading|]; apply H5.
Qed.
Lemma run_inv k r c : cache_inv c → k ∉ (inFlight c).*1 → cache_inv (run k r c).
Proof.
  intros [Hb Hv] Hk. destruct (has_fetcher (decodeSourceKey k).1) eqn:Hf;
    [|by rewrite run_no_fetcher].
  split; [by apply run_books|]. apply run_view; [done..|]. apply (view_weaken []); [set_solver|done].
Qed.

Lemma retire_effect e c :
  books c → (key e, e) ∈ inFlight c →
  let c' := retire e c in
  inFlight c' = map_delete (key e) (inFlight c) ∧ fetchedRange c' = fetchedRange c ∧
  states c' = states c ∧ wire c' = wire c ∧ settling c' = settling c ∧
  offsetTimers c' = offsetTimers c ∧ issued c' = issued c ∧ nextId c' = nextId c ∧
  (∀ e', e' ∈ waiting c' ↔ e' ∈ waiting c ∧ e' ≠ e).
Proof.
  intros Hb Hin. unfold retire. cbn [waiting set_aborted set_retired set_inFlight].
  case_decide as Hq; simpl.
  - unfold dropQueued, finish. simpl. rewrite decide_False.
    + simpl. do 8 (split; [done|]). intros e'. rewrite remove_all_elem. tauto.
    + intros E%assoc_elem_of%map_delete_elem. by apply E.
  - do 8 (split; [done|]). intros e'. split; [|tauto]. intros He'. split; [done|]. by intros ->.
Qed.
Lemma retire_view X e c :
  books c → (key e, e) ∈ inFlight c → view X c → view (key e :: X) (retire e c).
Proof.
  intros Hb Hin [H1 H2 H3 H4 H5].
  destruct (retire_effect e c Hb Hin) as (Ein & Efr & Est & Ewi & Ese & Eof & Eis & Eid & Ewa).
  set (c' := retire e c) in *. clearbody c'.
  assert (Esig : ∀ k, sig c' k = sig c k) by (intros k; unfold sig; by rewrite Est).
  split; rewrite ?Efr; try done.
  - intros k [Hne Hx]%not_elem_of_cons Hl. rewrite Esig in Hl.
    destruct (H1 k Hx Hl) as (e' & He' & Hw). exists e'. rewrite Ein, map_delete_elem, Ewi, Ewa.
    split; [done|]. destruct Hw as [?|?]; [by left|]. right. split; [done|]. intros ->.
    apply Hne. by destruct (b_live c Hb _ _ He').
  - intros k. rewrite Esig. apply H2.
  - intros k e'. rewrite Ein, map_delete_elem, Ewi, Ewa. intros [_ Hin'] Hw. eapply H3; [done|tauto].
  - intros k. rewrite Esig. apply H5.
Qed.

(** [settleAborted] and [forget] clear what a retired request left behind. *)
Lemma settleAborted_view X k c :
  (∀ e, (k, e) ∈ inFlight c → (e ∉ wire c) ∧ (e ∉ waiting c)) →
  view (k :: X) c → view X (settleAborted k c).
Proof.
  intros Hown [H1 H2 H3 H4 H5].
  assert (Esig : ∀ k', sig (settleAborted k c) k' =
    if decide (k' = k) then with_loading false (sig c k) else sig c k').
  { intros k'. unfold settleAborted. rewrite sig_write.
    case_decide; [done|]. by destruct (range (sig c k)). }
  assert (Efr : ∀ k', k' ≠ k → k' ∈ (fetchedRange c).*1 → k' ∈ (fetchedRange (settleAborted k c)).*1).
  { intros k' Hne Hin. unfold settleAborted. destruct (range (sig c k)); simpl.
    - rewrite assoc_set_keys_elem. by right.
    - apply list_elem_of_fmap in Hin as ([k0 r0] & -> & Hin).
      apply (list_elem_of_fmap_2 fst _ (k0, r0)). by apply map_delete_elem. }
  assert (Hsame : inFlight (settleAborted k c) = inFlight c ∧ wire (settleAborted k c) = wire c ∧
    waiting (settleAborted k c) = waiting c).
  { unfold settleAborted. by destruct (range (sig c k)). }
  destruct Hsame as (Ein & Ewi & Ewa). split; rewrite ?Ein, ?Ewi, ?Ewa.
  - intros k' Hk'. rewrite Esig. case_decide; [done|]. apply H1. set_solver.
  - intros k'. rewrite Esig. case_decide; [done|]. intros ?%H2. by apply Efr.
  - intros k' e' Hin Hw. destruct (decide (k' = k)) as [->|].
    + exfalso. destruct (Hown e' Hin). tauto.
    + apply Efr; [done|]. by eapply H3.
  - unfold settleAborted. destruct (range (sig c k)); simpl;
      [by apply assoc_set_keys_NoDup|by apply map_delete_keys].
  - intros k'. rewrite Esig. case_decide; [apply source_ok_loading|]; apply H5.
Qed.
Lemma settleAborted_books k c : books c → books (settleAborted k c).
Proof.
  intros Hb. eapply books_ext; [exact Hb|..]; unfold settleAborted; by destruct (range (sig c k)).
Qed.

Lemma retire_keys e c k e' :
  books c → (key e, e) ∈ inFlight c →
  (k, e') ∈ inFlight (retire e c) ↔ (k, e') ∈ inFlight c ∧ k ≠ key e.
Proof.
  intros Hb Hin. destruct (retire_effect e c Hb Hin) as (-> & _). rewrite map_delete_elem. simpl. tauto.
Qed.
Lemma inFlight_key_elem c k : k ∈ (inFlight c).*1 ↔ ∃ e, (k, e) ∈ inFlight c.
Proof.
  rewrite list_elem_of_fmap. split; [intros ([k' e] & -> & H); by exists e|].
  intros [e H]. by exists (k, e).
Qed.

Lemma ensure_one_inv r c k : cache_inv c → cache_inv (ensure_one r c k).
Proof.
  intros Hinv. pose proof Hinv as [Hb Hv]. unfold ensure_one.
  destruct (assoc k (inFlight c)) as [pending|] eqn:Ep.
  - destruct (negb _ || _); [done|]. apply assoc_elem_of in Ep.
    destruct (b_live c Hb _ _ Ep) as (<- & _ & _).
    assert (Hn : key pending ∉ (inFlight (retire pending c)).*1).
    { rewrite inFlight_key_elem. intros [e' He']. apply (retire_keys pending c) in He'; tauto. }
    pose proof (retire_books _ _ Hb Ep) as Hb'. pose proof (retire_view _ _ _ Hb Ep Hv) as Hv'.
    split; [by apply run_books|]. apply run_view; [done..| |done]. exact (b_served c Hb _ _ Ep).
  - apply assoc_None in Ep. destruct (assoc k (fetchedRange c)) as [previous|];
      [destruct (_ && _); [|done]|]; by apply run_inv.
Qed.
Lemma ensure_inv keys r c : cache_inv c → cache_inv (ensure keys r c).
Proof.
  unfold ensure. revert c. induction keys as [|k keys IH]; intros c H; [done|].
  cbn [foldl]. by apply IH, ensure_one_inv.
Qed.

(** Timers and logs are in neither invariant. *)
Lemma cache_inv_ext c c' :
  cache_inv c → wire c' = wire c → settling c' = settling c → waiting c' = waiting c →
  activeExpensive c' = activeExpensive c → inFlight c' = inFlight c → retired c' = retired c →
  nextId c' = nextId c → states c' = states c → fetchedRange c' = fetchedRange c → cache_inv c'.
Proof.
  intros [Hb [H1 H2 H3 H4 H5]] E1 E2 E3 E4 E5 E6 E7 E8 E9. split; [by eapply books_ext|].
  assert (Esig : ∀ k, sig c' k = sig c k) by (intros k; unfold sig; by rewrite E8).
  split; rewrite ?E1, ?E3, ?E5, ?E9; try done; intros k; rewrite Esig; auto.
Qed.

Lemma run_inFlight_keys k r c k' :
  k' ∈ (inFlight (run k r c)).*1 → k' = k ∨ k' ∈ (inFlight c).*1.
Proof.
  destruct (has_fetcher (decodeSourceKey k).1) eqn:Hf; [|rewrite run_no_fetcher by done; by right].
  destruct (run_effect k r c Hf) as (-> & _). by rewrite assoc_set_keys_elem.
Qed.
(** A loop over due keys: each of them is still free when its turn comes. *)
Lemma due_loop_inv (f : Cache → jstring * jstring → Cache) due c :
  (∀ c kr, cache_inv c → kr.1 ∉ (inFlight c).*1 → cache_inv (f c kr)) →
  (∀ c kr k', k' ∈ (inFlight (f c kr)).*1 → k' = kr.1 ∨ k' ∈ (inFlight c).*1) →
  cache_inv c → NoDup due.*1 → Forall (λ kr, kr.1 ∉ (inFlight c).*1) due →
  cache_inv (foldl f c due).
Proof.
  intros Hf Hkeys. revert c. induction due as [|kr due IH]; intros c Hc Hnd Hfree; [done|].
  cbn [foldl]. apply Forall_cons in Hfree as [Hk Hfree]. rewrite fmap_cons in Hnd.
  apply NoDup_cons in Hnd as [Hkn Hnd]. apply IH; [by apply Hf|done|].
  apply Forall_forall. intros kr' Hkr' Hin. rewrite Forall_forall in Hfree.
  apply Hkeys in Hin as [E|Hin]; [|by apply (Hfree kr')].
  apply Hkn. rewrite <- E. by apply list_elem_of_fmap_2.
Qed.
Lemma isDue_free c k tick : isDue c k (busyKeys c) tick = true → k ∉ (inFlight c).*1.
Proof.
  unfold isDue. case_decide as Hb; [done|]. intros _ Hin. apply Hb. unfold busyKeys.
  apply elem_of_app. by left.
Qed.
Lemma dueEntries_free c tick :
  cache_inv c →
  NoDup (dueEntries c tick).*1 ∧ Forall (λ kr, kr.1 ∉ (inFlight c).*1) (dueEntries c tick).
Proof.
  intros [_ Hv]. split.
  - eapply sublist_NoDup; [apply (v_ranges _ _ Hv)|]. apply fmap_sublist, sublist_filter.
  - apply Forall_forall. intros kr [Hd _]%list_elem_of_filter. by eapply isDue_free.
Qed.
Lemma run_all_inv c c' tick :
  cache_inv c → c' = run_all (dueEntries c tick) c → cache_inv c'.
Proof.
  intros Hc ->. destruct (dueEntries_free c tick Hc) as [H1 H2].
  apply due_loop_inv; try done; intros; [by apply run_inv|by eapply run_inFlight_keys].
Qed.
Lemma schedule_inv i c kr : cache_inv c → kr.1 ∉ (inFlight c).*1 → cache_inv (schedule i c kr).
Proof.
  intros Hc Hk. unfold schedule. destruct (_ =? 0); [by apply run_inv|]. by eapply cache_inv_ext.
Qed.
Lemma schedule_keys i c kr k' :
  k' ∈ (inFlight (schedule i c kr)).*1 → k' = kr.1 ∨ k' ∈ (inFlight c).*1.
Proof.
  unfold schedule. destruct (_ =? 0); [by apply run_inFlight_keys|by right].
Qed.
Lemma interval_inv hidden c : cache_inv c → cache_inv (interval_fires hidden c).
Proof.
  intros Hc. unfold interval_fires. destruct (refreshTimer c) as [[i tick]|]; [|done].
  destruct hidden; [done|]. set (c1 := set_refreshTimer _ c).
  assert (Hc1 : cache_inv c1) by (by eapply cache_inv_ext).
  destruct (dueEntries_free c1 (tick + 1) Hc1) as [H1 H2].
  apply due_loop_inv; try done; intros; [by apply schedule_inv|by eapply schedule_keys].
Qed.
Lemma offset_inv k c : cache_inv c → cache_inv (offset_fires k c).
Proof.
  intros Hc. unfold offset_fires. set (c1 := set_offsetTimers _ c).
  assert (Hc1 : cache_inv c1) by (by eapply cache_inv_ext).
  destruct (assoc k (fetchedRange c1)); [|done].
  destruct (isDue c1 k (busyKeys c1) 0) eqn:Hd; [|done]. apply run_inv; [done|]. by eapply isDue_free.
Qed.

(** Loops over the requests in flight. *)
Definition owns (c : Cache) (e : Entry) : Prop := (key e, e) ∈ inFlight c.
Lemma owned_list c : books c → NoDup (key <$> (inFlight c).*2) ∧ Forall (owns c) (inFlight c).*2.
Proof.
  intros Hb. assert (Hkey : ∀ ke, ke ∈ inFlight c → key ke.2 = ke.1).
  { intros [k e] H. by apply (b_live c Hb). }
  split.
  - rewrite <- list_fmap_compose. erewrite list_fmap_ext; [apply (b_keys c Hb)|].
    intros i ke Hi. apply Hkey. by eapply list_elem_of_lookup_2.
  - apply Forall_forall. intros e ([k e'] & -> & H)%list_elem_of_fmap. unfold owns. simpl.
    pose proof (Hkey _ H) as Hk. simpl in Hk. by rewrite Hk.
Qed.
Lemma retire_owns e c e' : books c → owns c e → owns c e' → key e' ≠ key e → owns (retire e c) e'.
Proof. intros Hb He He' Hne. apply retire_keys; done. Qed.
Lemma settleAborted_owns k c e : owns (settleAborted k c) e ↔ owns c e.
Proof. unfold owns, settleAborted. by destruct (range (sig c k)). Qed.

Lemma abort_loop_inv es c :
  cache_inv c → NoDup (key <$> es) → Forall (owns c) es →
  cache_inv (foldl (λ c e, settleAborted (key e) (retire e c)) c es).
Proof.
  revert c. induction es as [|e es IH]; intros c [Hb Hv] Hnd Hown; [done|]. cbn [foldl].
  rewrite fmap_cons in Hnd. apply NoDup_cons in Hnd as [Hkn Hnd].
  apply Forall_cons in Hown as [He Hown].
  apply IH; [split|done|].
  - by apply settleAborted_books, retire_books.
  - apply settleAborted_view; [|by apply retire_view]. intros e' H%retire_keys; [tauto|done|done].
  - rewrite Forall_forall in Hown |- *. intros e' He'.
    apply settleAborted_owns, retire_owns; [done|done|by apply Hown|].
    intros E. apply Hkn. rewrite <- E. by apply list_elem_of_fmap_2.
Qed.
Lemma retire_loop es X c :
  books c → view X c → NoDup (key <$> es) → Forall (owns c) es →
  let c' := foldl (λ c e, retire e c) c es in
  books c' ∧ view ((key <$> es) ++ X) c' ∧ fetchedRange c' = fetchedRange c ∧
  (∀ k e, (k, e) ∈ inFlight c' ↔ (k, e) ∈ inFlight c ∧ k ∉ key <$> es).
Proof.
  revert X c. induction es as [|e es IH]; intros X c Hb Hv Hnd Hown; cbn [foldl].
  { split; [done|]. split; [done|]. split; [done|]. intros k e. rewrite elem_of_nil. tauto. }
  rewrite fmap_cons in *. apply NoDup_cons in Hnd as [Hkn Hnd].
  apply Forall_cons in Hown as [He Hown].
  destruct (IH (key e :: X) (retire e c)) as (H1 & H2 & H3 & H4).
  - by apply retire_books.
  - by apply retire_view.
  - done.
  - rewrite Forall_forall in Hown |- *. intros e' He'. apply retire_owns; [done|done|by apply Hown|].
    intros E. apply Hkn. rewrite <- E. by apply list_elem_of_fmap_2.
  - split; [done|]. split; [eapply view_weaken, H2; set_solver|].
    destruct (retire_effect e c Hb He) as (_ & Efr & _). split; [congruence|].
    intros k e'. rewrite H4, retire_keys by done. rewrite elem_of_cons. tauto.
Qed.
Lemma forget_loop ks c :
  let c' := foldl (λ c k, forget k c) c ks in
  (∀ k, sig c' k = if decide (k ∈ ks) then IDLE else sig c k) ∧
  (∀ kr, kr ∈ fetchedRange c' ↔ kr ∈ fetchedRange c ∧ kr.1 ∉ ks) ∧
  (NoDup (fetchedRange c).*1 → NoDup (fetchedRange c').*1) ∧
  inFlight c' = inFlight c ∧ wire c' = wire c ∧ waiting c' = waiting c ∧
  settling c' = settling c ∧ retired c' = retired c ∧
  activeExpensive c' = activeExpensive c ∧ nextId c' = nextId c.
Proof.
  revert c. induction ks as [|k ks IH]; intros c; cbn [foldl].
  { split; [intros k; rewrite decide_False; [done|]; by intros ?%elem_of_nil|].
    split; [intros kr; rewrite elem_of_nil; tauto|done]. }
  destruct (IH (forget k c)) as (H1 & H2 & H3 & H4 & H5 & H6 & H7 & H8 & H9 & H10).
  split; [|split; [|split]].
  - intros k'. rewrite H1. unfold sig at 1, forget. simpl.
    destruct (decide (k' = k)) as [->|Hne].
    + rewrite lookup_delete_eq. rewrite (decide_True (P := k ∈ k :: ks)) by left.
      by case_decide.
    + rewrite lookup_delete_ne by done. apply decide_ext. rewrite elem_of_cons. tauto.
  - intros kr. rewrite H2. unfold forget. simpl. rewrite map_delete_elem, elem_of_cons. tauto.
  - intros Hnd. apply H3. by apply map_delete_keys.
  - by rewrite H4, H5, H6, H7, H8, H9, H10.
Qed.
Lemma retain_inv keys c : cache_inv c → cache_inv (retain keys c).
Proof.
  intros [Hb Hv]. unfold retain. set (gone := filter _ (inFlight c).*2).
  destruct (owned_list c Hb) as [Hnd Hown].
  assert (Hgnd : NoDup (key <$> gone)).
  { eapply sublist_NoDup; [done|]. apply fmap_sublist, sublist_filter. }
  assert (Hgown : Forall (owns c) gone) by (by apply Forall_filter_1).
  destruct (retire_loop gone [] c Hb Hv Hgnd Hgown) as (Hb1 & Hv1 & Efr & Hin1).
  set (c1 := foldl _ c gone) in *. clearbody c1. rewrite app_nil_r in Hv1.
  set (ks := filter (λ k, k ∉ keys) (fetchedRange c1).*1).
  destruct (forget_loop ks c1) as (H1 & H2 & H3 & H4 & H5 & H6 & H7 & H8 & H9 & H10).
  set (c2 := foldl _ c1 ks) in *. clearbody c2.
  assert (Hkept : ∀ k e, (k, e) ∈ inFlight c1 → k ∈ keys).
  { intros k e [Hin Hng]%Hin1. destruct (decide (k ∈ keys)) as [|Hn]; [done|]. exfalso. apply Hng.
    destruct (b_live c Hb _ _ Hin) as (<- & _). apply list_elem_of_fmap_2.
    apply list_elem_of_filter. split; [done|]. by apply (list_elem_of_fmap_2 snd _ (key e, e)). }
  assert (Hks : ∀ k, k ∈ ks ↔ (k ∉ keys) ∧ k ∈ (fetchedRange c1).*1).
  { intros k. unfold ks. by rewrite list_elem_of_filter. }
  assert (Hfr : ∀ k, k ∈ (fetchedRange c1).*1 → k ∉ ks → k ∈ (fetchedRange c2).*1).
  { intros k ([k' r] & -> & Hk)%list_elem_of_fmap Hn. apply (list_elem_of_fmap_2 fst _ (k', r)).
    by apply H2. }
  split; [by eapply books_ext|]. destruct Hv1 as [V1 V2 V3 V4 V5].
  split; rewrite ?H4, ?H5, ?H6.
  - intros k _. rewrite H1. case_decide as Hk; [done|]. intros Hl. apply V1; [|done].
    intros (e & -> & [Hn _]%list_elem_of_filter)%list_elem_of_fmap.
    apply Hk, Hks. split; [done|]. by apply V2.
  - intros k. rewrite H1. case_decide as Hk; [done|]. intros Hl. apply Hfr; [by apply V2|done].
  - intros k e Hin Hw. apply Hfr; [by eapply V3|]. rewrite Hks. intros [Hn _]. by apply Hn, (Hkept k e).
  - by apply H3.
  - intros k. rewrite H1. case_decide; [done|apply V5].
Qed.

Lemma write_view X k s c :
  loading s = false → source_ok s → view (k :: X) c → view X (write k s c).
Proof.
  intros Hl Hs [H1 H2 H3 H4 H5]. split; try done.
  - intros k' Hk'. rewrite sig_write. case_decide; [congruence|]. apply H1. set_solver.
  - intros k'. rewrite sig_write. case_decide; [congruence|]. apply H2.
  - intros k'. rewrite sig_write. case_decide; [done|apply H5].
Qed.
Lemma settle_inv e o c :
  cache_inv c → e ∈ wire c →
  cache_inv (handle e o (set_settling (settling c ++ [e]) (set_wire (remove_all e (wire c)) c))).
Proof.
  intros [Hb Hv] He. split; [by apply handle_books, settle_move_books|].
  set (c1 := set_settling _ _).
  assert (Hnw : e ∉ waiting c).
  { intros Hw. pose proof (b_nodup c Hb) as Hnd. unfold outstanding in Hnd.
    apply NoDup_app in Hnd as (_ & Hd & _). apply (Hd e He), elem_of_app. by right. }
  destruct Hv as [V1 V2 V3 V4 V5].
  assert (Hother : ∀ k e', (k, e') ∈ inFlight c → e' ∈ wire c ∨ e' ∈ waiting c →
    ¬ (k = key e ∧ current c e) → e' ∈ wire c1 ∨ e' ∈ waiting c1).
  { intros k e' Hin Hw Hnc. destruct (b_live c Hb _ _ Hin) as (Hk & _).
    assert (e' ≠ e). { intros ->. apply Hnc. split; [done|]. unfold current.
      apply assoc_NoDup; [apply (b_keys c Hb)|]. by rewrite Hk. }
    unfold c1. simpl. rewrite remove_all_elem. tauto. }
  assert (Hsub : ∀ e', e' ∈ wire c1 ∨ e' ∈ waiting c1 → e' ∈ wire c ∨ e' ∈ waiting c).
  { intros e'. unfold c1. simpl. rewrite remove_all_elem. tauto. }
  unfold handle. case_decide as Hcur.
  - assert (Hv1 : view [key e] c1).
    { split; try done.
      - intros k Hk Hl. destruct (V1 k) as (e' & Hin & Hw); [set_solver|done|]. exists e'.
        split; [done|]. apply (Hother k); [done..|]. intros [-> _]. apply Hk. left.
      - intros k e' Hin Hw. eapply V3; [done|]. by apply Hsub. }
    destruct o as [v|err]; [by apply write_view|].
    destruct (_ && _); [|by apply write_view].
    apply settleAborted_view; [|done]. intros e' Hin.
    assert (e' = e) as ->.
    { apply (assoc_NoDup _ _ _ (b_keys c Hb)) in Hin. unfold current in Hcur. simpl in Hcur. congruence. }
    unfold c1. simpl. rewrite remove_all_elem. tauto.
  - split; try done.
    + intros k Hk Hl. destruct (V1 k) as (e' & Hin & Hw); [set_solver|done|]. exists e'.
      split; [done|]. apply (Hother k); [done..|]. by intros [_ ?].
    + intros k e' Hin Hw. eapply V3; [done|]. by apply Hsub.
Qed.
Lemma finally_inv e c :
  cache_inv c → e ∈ settling c →
  cache_inv (finish e (releaseSlot e (set_settling (remove_all e (settling c)) c))).
Proof.
  intros [Hb Hv] He. split; [by apply finally_books|].
  assert (Hnot : (e ∉ wire c) ∧ (e ∉ waiting c)).
  { pose proof (b_nodup c Hb) as Hnd. unfold outstanding in Hnd.
    apply NoDup_app in Hnd as (_ & Hd & (_ & Hd2 & _)%NoDup_app). split.
    - intros Hw. apply (Hd e Hw), elem_of_app. by left.
    - by apply Hd2. }
  set (c1 := set_settling _ c). set (c2 := releaseSlot e c1).
  assert (Hc2 : inFlight c2 = inFlight c ∧ states c2 = states c ∧ fetchedRange c2 = fetchedRange c ∧
    ∀ e', (e' ∈ wire c2 ∨ e' ∈ waiting c2) ↔ (e' ∈ wire c ∨ e' ∈ waiting c)).
  { unfold c2, releaseSlot. destruct (is_cheap (ebase e)); [done|].
    change (waiting c1) with (waiting c). destruct (waiting c) as [|nx rest] eqn:Ew; [|].
    - simpl. rewrite Ew. done.
    - simpl. do 3 (split; [done|]). intros e'.
      rewrite elem_of_app, list_elem_of_singleton, elem_of_cons. tauto. }
  destruct Hc2 as (E1 & E2 & E3 & E4). clearbody c2. destruct Hv as [V1 V2 V3 V4 V5].
  assert (Hf : states (finish e c2) = states c ∧ fetchedRange (finish e c2) = fetchedRange c ∧
    wire (finish e c2) = wire c2 ∧ waiting (finish e c2) = waiting c2).
  { unfold finish. case_decide; simpl; by rewrite E2, E3. }
  destruct Hf as (F1 & F2 & F3 & F4).
  assert (Esig : ∀ k, sig (finish e c2) k = sig c k) by (intros k; unfold sig; by rewrite F1).
  assert (Hin : ∀ k e', (k, e') ∈ inFlight (finish e c2) ↔ (k, e') ∈ inFlight c ∧ e' ≠ e).
  { intros k e'. rewrite finish_owner; rewrite E1; [done|apply (b_keys c Hb)|].
    intros k0 e0 H0. by apply (b_live c Hb). }
  split; rewrite ?F2, ?F3, ?F4; try done.
  - intros k Hk. rewrite Esig. intros Hl. destruct (V1 k Hk Hl) as (e' & He' & Hw).
    exists e'. rewrite Hin, E4. split; [|done]. split; [done|]. intros ->. tauto.
  - intros k. rewrite Esig. apply V2.
  - intros k e'. rewrite Hin, E4. intros [? _]. by apply V3.
  - intros k. rewrite Esig. apply V5.
Qed.

Lemma step_inv c ev c' : cache_inv c → step c ev = Some c' → cache_inv c'.
Proof.
  intros Hc. destruct ev as [keys r| |keys| |i| |hidden|k|e|e o|e]; cbn [step].
  - intros [= <-]. by apply ensure_inv.
  - intros [= <-]. eapply run_all_inv; [|done]. by eapply cache_inv_ext.
  - intros [= <-]. by apply retain_inv.
  - intros [= <-]. unfold abort. set (c1 := clearOffsetTimers c).
    assert (Hc1 : cache_inv c1) by (by eapply cache_inv_ext).
    destruct (owned_list c1 (proj1 Hc1)). by apply abort_loop_inv.
  - intros [= <-]. by eapply cache_inv_ext.
  - intros [= <-]. by eapply cache_inv_ext.
  - intros [= <-]. by apply interval_inv.
  - case_decide; [|done]. intros [= <-]. by apply offset_inv.
  - case_decide; [|done]. intros [= <-]. by eapply cache_inv_ext.
  - case_decide; [|done]. intros [= <-]. by apply settle_inv.
  - case_decide; [|done]. intros [= <-]. by apply finally_inv.
Qed.
Lemma events_inv evs c c' : cache_inv c → events c evs = Some c' → cache_inv c'.
Proof.
  unfold events. revert c. induction evs as [|ev evs IH]; intros c Hc; cbn [foldl].
  { by intros [= <-]. }
  cbn [mbind option_bind]. destruct (step c ev) as [c1|] eqn:E.
  - apply IH. by eapply step_inv.
  - intros H. exfalso. clear -H. induction evs as [|ev evs IH]; [done|]. by apply IH.
Qed.

(** ** Identity: a request once superseded never owns its key again *)

Definition grows (c c' : Cache) : Prop :=
  (nextId c ≤ nextId c')%nat ∧
  ∀ k e, (k, e) ∈ inFlight c' → (k, e) ∈ inFlight c ∨ (nextId c ≤ eid e)%nat.
#[local] Instance grows_preorder : PreOrder grows.
Proof.
  split; [intros c; split; [lia|by left]|]. intros a b c [H1 H2] [H3 H4]. split; [lia|].
  intros k e [H%H2|?]%H4; [done|right; lia].
Qed.
Lemma grows_same c c' : nextId c' = nextId c → inFlight c' = inFlight c → grows c c'.
Proof. intros E1 E2. split; [lia|]. intros k e. rewrite E2. by left. Qed.
Lemma grows_fold {A} (f : Cache → A → Cache) l c :
  (∀ c a, grows c (f c a)) → grows c (foldl f c l).
Proof. intros Hf. revert c. induction l as [|a l IH]; intros c; [done|]. cbn [foldl]. etrans; [apply Hf|apply IH]. Qed.
Lemma assoc_set_subset {V} k (v : V) l kv : kv ∈ assoc_set k v l → kv ∈ l ∨ kv = (k, v).
Proof.
  induction l as [|[k' v'] l IH]; simpl; [by intros ->%list_elem_of_singleton; right|].
  case_decide; [by intros [->|?]%elem_of_cons; [right|left; right]|].
  intros [->|[?|?]%IH]%elem_of_cons; [left; left|left; by right|by right].
Qed.
Lemma run_grows k r c : grows c (run k r c).
Proof.
  destruct (has_fetcher (decodeSourceKey k).1) eqn:Hf; [|by rewrite run_no_fetcher].
  split.
  - unfold run. destruct (decodeSourceKey k). simpl in Hf. rewrite Hf. cbn [negb].
    destruct (is_cheap _); [|destruct (_ <? _)%nat]; simpl; lia.
  - intros k' e'. destruct (run_effect k r c Hf) as (-> & _).
    intros [?|[= -> ->]]%assoc_set_subset; [by left|]. right. done.
Qed.
Lemma finish_grows e c : grows c (finish e c).
Proof.
  unfold finish. case_decide; split; simpl; try lia; intros k e'; [|by left].
  rewrite map_delete_elem. tauto.
Qed.
Lemma retire_grows e c : grows c (retire e c).
Proof.
  unfold retire. set (c1 := set_aborted _ _).
  assert (H1 : grows c c1).
  { split; simpl; [lia|]. intros k e'. rewrite map_delete_elem. tauto. }
  case_decide; [|done]. etrans; [exact H1|]. unfold dropQueued.
  etrans; [|apply finish_grows]. by apply grows_same.
Qed.
Lemma settleAborted_grows k c : grows c (settleAborted k c).
Proof. apply grows_same; unfold settleAborted; by destruct (range (sig c k)). Qed.
Lemma step_grows c ev c' : step c ev = Some c' → grows c c'.
Proof.
  destruct ev as [keys r| |keys| |i| |hidden|k|e|e o|e]; cbn [step].
  - intros [= <-]. apply grows_fold. intros c0 k. unfold ensure_one.
    destruct (assoc k (inFlight c0)); [destruct (_ || _); [done|etrans; [apply retire_grows|apply run_grows]]|].
    destruct (assoc k (fetchedRange c0)); [destruct (_ && _); [|done]|]; apply run_grows.
  - intros [= <-]. unfold refresh. etrans; [|apply grows_fold; intros; apply run_grows].
    by apply grows_same.
  - intros [= <-]. unfold retain. etrans; [|apply grows_fold; intros; by apply grows_same].
    apply grows_fold. intros. apply retire_grows.
  - intros [= <-]. unfold abort. etrans; [|apply grows_fold; intros c0 e0].
    + by apply grows_same.
    + etrans; [apply retire_grows|apply settleAborted_grows].
  - intros [= <-]. by apply grows_same.
  - intros [= <-]. by apply grows_same.
  - intros [= <-]. unfold interval_fires. destruct (refreshTimer c) as [[i tick]|]; [|done].
    destruct hidden; [done|]. etrans; [|apply grows_fold; intros c0 kr].
    + by apply grows_same.
    + unfold schedule. destruct (_ =? 0); [apply run_grows|by apply grows_same].
  - case_decide; [|done]. intros [= <-]. unfold offset_fires. set (c1 := set_offsetTimers _ c).
    assert (grows c c1) by (by apply grows_same).
    destruct (assoc k (fetchedRange c1)); [|done]. destruct (isDue _ _ _ _); [|done].
    etrans; [done|apply run_grows].
  - case_decide; [|done]. intros [= <-]. by apply grows_same.
  - case_decide; [|done]. intros [= <-]. unfold handle. case_decide; [|by apply grows_same].
    destruct o; [by apply grows_same|]. destruct (_ && _); [|by apply grows_same].
    etrans; [|apply settleAborted_grows]. by apply grows_same.
  - case_decide; [|done]. intros [= <-]. etrans; [|apply finish_grows].
    unfold releaseSlot. destruct (is_cheap _); [by apply grows_same|].
    destruct (waiting _); by apply grows_same.
Qed.
Lemma events_grows evs c c' : events c evs = Some c' → grows c c'.
Proof.
  unfold events. revert c. induction evs as [|ev evs IH]; intros c; cbn [foldl].
  { by intros [= <-]. }
  cbn [mbind option_bind]. destruct (step c ev) as [c1|] eqn:E.
  - intros H. etrans; [by eapply step_grows|by apply IH].
  - intros H. exfalso. clear -H. induction evs as [|ev' evs IH]; [done|]. by apply IH.
Qed.

(** ** Draining *)

Definition is_settlement (ev : event) : Prop :=
  (∃ e o, ev = Settle e o) ∨ (∃ e, ev = Finally e).
Lemma events_app evs1 evs2 c c1 : events c evs1 = Some c1 → events c (evs1 ++ evs2) = events c1 evs2.
Proof. intros H. unfold events in *. by rewrite foldl_app, H. Qed.
Lemma drain n c :
  cache_inv c → (2 * length (wire c) + length (settling c) + 3 * length (waiting c) ≤ n)%nat →
  ∃ evs c', Forall is_settlement evs ∧ events c evs = Some c' ∧ outstanding c' = [].
Proof.
  revert c. induction n as [|n IH]; intros c Hc Hn.
  { exists [], c. split; [constructor|]. split; [done|]. unfold outstanding.
    destruct (wire c), (settling c), (waiting c); simpl in *; try lia. done. }
  destruct (settling c) as [|e l] eqn:Es.
  - destruct (wire c) as [|e l] eqn:Ew.
    + (* an empty wire leaves no one waiting *)
      exists [], c. split; [constructor|]. split; [done|]. unfold outstanding. rewrite Ew, Es. simpl.
      destruct Hc as [Hb _]. pose proof (b_count c Hb) as Hct. unfold on_wire in Hct.
      rewrite Ew, Es in Hct. simpl in Hct.
      destruct (waiting c) eqn:Ewa; [done|]. pose proof (b_full c Hb) as Hf. rewrite Ewa in Hf.
      rewrite Hct in Hf. specialize (Hf ltac:(done)). done.
    + assert (He : e ∈ wire c) by (rewrite Ew; left).
      destruct (step c (Settle e (Resolved JUndef))) as [c1|] eqn:E1.
      2:{ cbn [step] in E1. by rewrite decide_True in E1. }
      destruct (IH c1) as (evs & c' & H1 & H2 & H3).
      * by eapply step_inv.
      * cbn [step] in E1. rewrite decide_True in E1 by done. injection E1 as <-.
        assert (Hfields : ∀ c0, wire (handle e (Resolved JUndef) c0) = wire c0 ∧
          settling (handle e (Resolved JUndef) c0) = settling c0 ∧
          waiting (handle e (Resolved JUndef) c0) = waiting c0).
        { intros c0. unfold handle. by case_decide. }
        destruct (Hfields (set_settling (settling c ++ [e]) (set_wire (remove_all e (wire c)) c)))
          as (-> & -> & ->). simpl.
        assert (Hnd : NoDup (wire c)).
        { destruct Hc as [Hb _]. pose proof (b_nodup c Hb) as Hnd. by apply NoDup_app in Hnd as [? _]. }
        pose proof (Permutation_length (remove_all_perm e (wire c) Hnd He)) as Hl. simpl in Hl.
        rewrite <- Ew in Hn. rewrite Es, length_app. simpl in *. lia.
      * exists (Settle e (Resolved JUndef) :: evs), c'. split; [|split; [|done]].
        -- constructor; [left; eauto|done].
        -- unfold events in *. cbn [foldl mbind option_bind]. by rewrite E1.
  - assert (He : e ∈ settling c) by (rewrite Es; left).
    destruct (step c (Finally e)) as [c1|] eqn:E1.
    2:{ cbn [step] in E1. by rewrite decide_True in E1. }
    destruct (IH c1) as (evs & c' & H1 & H2 & H3).
    + by eapply step_inv.
    + cbn [step] in E1. rewrite decide_True in E1 by done. injection E1 as <-.
      assert (Hfields : ∀ c0, wire (finish e c0) = wire c0 ∧ settling (finish e c0) = settling c0 ∧
        waiting (finish e c0) = waiting c0).
      { intros c0. unfold finish. by case_decide. }
      match goal with |- context [finish e ?c0] => destruct (Hfields c0) as (-> & -> & ->) end.
      assert (Hnd : NoDup (settling c)).
      { destruct Hc as [Hb _]. pose proof (b_nodup c Hb) as Hnd. unfold outstanding in Hnd.
        by apply NoDup_app in Hnd as (_ & _ & [? _]%NoDup_app). }
      pose proof (Permutation_length (remove_all_perm e (settling c) Hnd He)) as Hl. simpl in Hl.
      rewrite <- Es in Hn. unfold releaseSlot. destruct (is_cheap (ebase e)); simpl; [lia|].
      destruct (waiting c) as [|nx rest] eqn:Ewa; simpl; rewrite ?Ewa, ?length_app; simpl in *; lia.
    + exists (Finally e :: evs), c'. split; [|split; [|done]].
      * constructor; [right; eauto|done].
      * unfold events in *. cbn [foldl mbind option_bind]. by rewrite E1.
Qed.

(** ** Asking twice *)

Lemma assoc_map_delete {V} k k' (l : list (jstring * V)) :
  assoc k (map_delete k' l) = if decide (k = k') then None else assoc k l.
Proof.
  unfold map_delete. induction l as [|[k0 v0] l IH]; [by case_decide|]. rewrite filter_cons. simpl.
  repeat (case_decide; simpl in *; subst; try done); tauto.
Qed.
(** Whether [ensure] would request [k]. *)
Definition wants (r : jstring) (c : Cache) (k : jstring) : bool :=
  let sensitive := bool_decide ((decodeSourceKey k).1 ∈ RANGE_SENSITIVE) in
  match assoc k (inFlight c) with
  | Some pending => sensitive && negb (js_eqb (erange pending) r)
  | None =>
      match assoc k (fetchedRange c) with
      | Some previous => sensitive && negb (js_eqb previous r)
      | None => true
      end
  end.
Lemma ensure_one_wants r c k :
  ensure_one r c k =
    if wants r c k
    then run k r (match assoc k (inFlight c) with Some p => retire p c | None => c end) else c.
Proof.
  unfold ensure_one, wants. destruct (assoc k (inFlight c)) as [p|].
  - destruct (bool_decide _), (js_eqb (erange p) r); done.
  - destruct (assoc k (fetchedRange c)) as [p|]; [|done]. by destruct (_ && _).
Qed.
Lemma run_lookups k r c k' :
  k' ≠ k → assoc k' (inFlight (run k r c)) = assoc k' (inFlight c) ∧
           assoc k' (fetchedRange (run k r c)) = assoc k' (fetchedRange c).
Proof.
  intros Hne. destruct (has_fetcher (decodeSourceKey k).1) eqn:Hf; [|by rewrite run_no_fetcher].
  destruct (run_effect k r c Hf) as (-> & _ & -> & _). by rewrite !assoc_set_ne.
Qed.
Lemma ensure_one_other r c k k' :
  cache_inv c → k' ≠ k → wants r (ensure_one r c k) k' = wants r c k'.
Proof.
  intros [Hb _] Hne. rewrite ensure_one_wants. destruct (wants r c k); [|done]. unfold wants at 1.
  destruct (run_lookups k r (match assoc k (inFlight c) with Some p => retire p c | None => c end) k' Hne)
    as [-> ->].
  destruct (assoc k (inFlight c)) as [p|] eqn:Ep; [|done]. apply assoc_elem_of in Ep.
  destruct (b_live c Hb _ _ Ep) as (Hk & _). rewrite <- Hk in Ep.
  destruct (retire_effect p c Hb Ep) as (-> & -> & _).
  rewrite assoc_map_delete, decide_False by congruence. done.
Qed.
(** After [ensure] asked for [k], it would not ask again. *)
Definition answered (r : jstring) (c : Cache) (k : jstring) : Prop :=
  wants r c k = false ∨
  has_fetcher (decodeSourceKey k).1 = false ∧ assoc k (inFlight c) = None.
Lemma answered_noop r c k : answered r c k → ensure_one r c k = c.
Proof.
  rewrite ensure_one_wants. intros [->|[Hf ->]]; [done|].
  destruct (wants r c k); [by apply run_no_fetcher|done].
Qed.
Lemma ensure_one_answered r c k : cache_inv c → answered r (ensure_one r c k) k.
Proof.
  intros [Hb Hv]. rewrite ensure_one_wants. destruct (wants r c k) eqn:Ew; [|by left].
  destruct (assoc k (inFlight c)) as [p|] eqn:Ep.
  - left. apply assoc_elem_of in Ep. pose proof (b_served c Hb _ _ Ep) as Hf.
    unfold wants. destruct (run_effect k r (retire p c) Hf) as (-> & _).
    rewrite assoc_set_eq. simpl. rewrite (proj2 (js_eqb_eq r r) eq_refl). by rewrite andb_false_r.
  - destruct (has_fetcher (decodeSourceKey k).1) eqn:Hf; [|right; by rewrite run_no_fetcher].
    left. unfold wants. destruct (run_effect k r c Hf) as (-> & _).
    rewrite assoc_set_eq. simpl. rewrite (proj2 (js_eqb_eq r r) eq_refl). by rewrite andb_false_r.
Qed.
Lemma answered_kept r c k k' : cache_inv c → answered r c k' → answered r (ensure_one r c k) k'.
Proof.
  intros Hc Ha. destruct (decide (k' = k)) as [->|Hne]; [by apply ensure_one_answered|].
  destruct Ha as [Ha|[Hf Hn]]; [left; by rewrite ensure_one_other|].
  right. split; [done|]. rewrite ensure_one_wants. destruct (wants r c k); [|done].
  destruct (run_lookups k r (match assoc k (inFlight c) with Some p => retire p c | None => c end) k' Hne)
    as [-> _].
  destruct Hc as [Hb _]. destruct (assoc k (inFlight c)) as [p|] eqn:Ep; [|done].
  apply assoc_elem_of in Ep. destruct (b_live c Hb _ _ Ep) as (Hk & _). rewrite <- Hk in Ep.
  destruct (retire_effect p c Hb Ep) as (-> & _). rewrite assoc_map_delete. by case_decide.
Qed.
Lemma ensure_answers keys r c k :
  cache_inv c → k ∈ keys ∨ answered r c k → answered r (ensure keys r c) k.
Proof.
  unfold ensure. revert c. induction keys as [|k0 keys IH]; intros c Hc Hk; cbn [foldl].
  { destruct Hk as [Hk|Hk]; [by apply elem_of_nil in Hk|done]. }
  apply IH; [by apply ensure_one_inv|].
  destruct Hk as [[->|Hk]%elem_of_cons|Ha]; [right; by apply ensure_one_answered|by left|].
  right. by apply answered_kept.
Qed.
Lemma ensure_noop keys r c : (∀ k, k ∈ keys → answered r c k) → ensure keys r c = c.
Proof.
  unfold ensure. induction keys as [|k keys IH]; intros Ha; [done|]. cbn [foldl].
  rewrite answered_noop by (apply Ha; left). apply IH. intros k' Hk'. apply Ha. by right.
Qed.

(** ** The refresh loop *)

Lemma run_outstanding k r c e :
  e ∈ outstanding (run k r c) → e ∈ outstanding c ∨ key e = k.
Proof.
  destruct (has_fetcher (decodeSourceKey k).1) eqn:Hf; [|rewrite run_no_fetcher by done; by left].
  destruct (run_effect k r c Hf) as (_ & _ & _ & _ & _ & Ese & Ew).
  rewrite !elem_of_outstanding, Ese.
  destruct Ew as [(-> & -> & _)|(-> & -> & _)]; rewrite elem_of_app, list_elem_of_singleton;
    [|]; intros H; destruct_or!; subst; auto.
Qed.
Lemma due_not_outstanding c k tick e :
  cache_inv c → isDue c k (busyKeys c) tick = true → e ∈ outstanding c → key e ≠ k.
Proof.
  intros [Hb _] Hd He <-. revert Hd. unfold isDue. rewrite decide_True; [done|].
  unfold busyKeys. rewrite !elem_of_app.
  destruct (b_owned c Hb e He) as [H|H]; [left|right; left]; [|by apply list_elem_of_fmap_2].
  by apply (list_elem_of_fmap_2 fst _ (key e, e)).
Qed.
(** A loop over due keys only adds requests for them. *)
Lemma due_loop_outstanding (f : Cache → jstring * jstring → Cache) due c e :
  (∀ c kr e, e ∈ outstanding (f c kr) → e ∈ outstanding c ∨ key e = kr.1) →
  e ∈ outstanding (foldl f c due) → e ∈ outstanding c ∨ key e ∈ due.*1.
Proof.
  intros Hf. revert c. induction due as [|kr due IH]; intros c; cbn [foldl]; [by left|].
  rewrite fmap_cons, elem_of_cons. intros [[?|?]%Hf|?]%IH; auto.
Qed.
Definition refreshes (ev : event) : Prop :=
  ev = Refresh ∨ (∃ h, ev = Interval h) ∨ ∃ k, ev = Offset k.
Lemma refreshes_added c ev c' e :
  cache_inv c → refreshes ev → step c ev = Some c' →
  e ∈ outstanding c' → e ∉ outstanding c →
  ∃ c0 tick, cache_inv c0 ∧ outstanding c0 = outstanding c ∧
             isDue c0 (key e) (busyKeys c0) tick = true.
Proof.
  intros Hc Hr Hs He Hn.
  assert (Hdue : ∀ c0 tick, key e ∈ (dueEntries c0 tick).*1 →
    isDue c0 (key e) (busyKeys c0) tick = true).
  { intros c0 tick (kr & -> & [Hd _]%list_elem_of_filter)%list_elem_of_fmap. done. }
  destruct Hr as [->|[[h ->]|[k ->]]]; cbn [step] in Hs.
  - injection Hs as <-. exists (clearOffsetTimers c), 0.
    assert (Hc0 : cache_inv (clearOffsetTimers c)) by (by eapply cache_inv_ext).
    split; [done|]. split; [done|]. apply Hdue. unfold refresh, run_all in He.
    apply due_loop_outstanding in He as [He|He]; [done|done|].
    intros c1 kr e1. apply run_outstanding.
  - injection Hs as <-. unfold interval_fires in He. destruct (refreshTimer c) as [[i tick]|]; [|done].
    destruct h; [done|]. set (c1 := set_refreshTimer _ c) in *. exists c1, (tick + 1).
    assert (Hc1 : cache_inv c1) by (by eapply cache_inv_ext).
    split; [done|]. split; [done|]. apply Hdue.
    apply due_loop_outstanding in He as [He|He]; [done|done|].
    intros c2 kr e1. unfold schedule. destruct (_ =? 0); [apply run_outstanding|by left].
  - case_decide; [|done]. injection Hs as <-. unfold offset_fires in He.
    set (c1 := set_offsetTimers _ c) in *. exists c1, 0.
    assert (Hc1 : cache_inv c1) by (by eapply cache_inv_ext).
    destruct (assoc k (fetchedRange c1)); [|done]. destruct (isDue c1 k _ 0) eqn:Hd; [|done].
    apply run_outstanding in He as [He| <-]; [done|]. done.
Qed.
End Cache.

(** ** Properties *)

(** The states a page can reach from an empty cache. *)
Definition reachable (hf : jstring → bool) (c : Cache) : Prop :=
  ∃ evs, events hf empty_cache evs = Some c.
Lemma reachable_inv hf c : reachable hf c → cache_inv hf c.
Proof.
  intros [evs H]. eapply events_inv; [|done]. split; [apply empty_books|apply empty_view].
Qed.

(** C7. However the page's calls, timers and responses interleave, at most six
    non-cheap reads hold a connection, and a read waits only while all six do. *)
Theorem expensive_reads_bounded hf c :
  reachable hf c →
  (length (filter noncheap (on_wire c)) ≤ MAX_CONCURRENT_EXPENSIVE_FETCHES)%nat ∧
  (waiting c ≠ [] →
   length (filter noncheap (on_wire c)) = MAX_CONCURRENT_EXPENSIVE_FETCHES).
Proof.
  intros [Hb _]%reachable_inv. rewrite <- (b_count hf c Hb).
  split; [apply (b_bound hf c Hb)|apply (b_full hf c Hb)].
Qed.

(** C1. A superseded read never writes: once a request was cancelled by a range
    change, a removed card or a teardown, nothing that happens afterwards makes
    its answer reach any widget. *)
Theorem superseded_never_writes hf c e evs c1 o c2 :
  reachable hf c → e ∈ retired c → events hf c evs = Some c1 →
  step hf c1 (Settle e o) = Some c2 → ∀ k, sig c2 k = sig c1 k.
Proof.
  intros [Hb _]%reachable_inv He Hevs Hs k. cbn [step] in Hs. case_decide; [|done].
  injection Hs as <-. unfold handle. rewrite decide_False; [done|].
  unfold current. simpl. intros Hcur%assoc_elem_of.
  apply events_grows in Hevs as [_ Hgrow]. apply Hgrow in Hcur as [Hin|Hid].
  - by destruct (b_live hf c Hb _ _ Hin) as (_ & _ & ?).
  - apply (b_retired hf c Hb), elem_of_on_wire in He.
    assert (Ho : e ∈ outstanding c) by (apply elem_of_outstanding; tauto).
    apply (b_fresh hf c Hb) in Ho. lia.
Qed.

(** C11. No card is left in its skeleton: a key that reads as loading always has
    a request of its own that has not settled, so once [settled()] resolves,
    nothing is on the wire, nothing is queued, every slot is back and no key
    reads as loading. *)
Theorem settled_means_quiet hf c :
  reachable hf c →
  (∀ k, loading (sig c k) = true → ∃ e, current c e ∧ key e = k ∧ (e ∈ wire c ∨ e ∈ waiting c)) ∧
  (inFlight c = [] ∧ retired c = [] →
   outstanding c = [] ∧ activeExpensive c = 0%nat ∧ ∀ k, loading (sig c k) = false).
Proof.
  intros [Hb Hv]%reachable_inv. split.
  - intros k Hl. destruct (v_loading _ _ Hv k) as (e & Hin & Hw); [by intros ?%elem_of_nil|done|].
    exists e. destruct (b_live hf c Hb _ _ Hin) as (<- & _). split; [|done].
    apply assoc_NoDup; [apply (b_keys hf c Hb)|done].
  - intros [Hin Hret]. assert (Ho : outstanding c = []).
    { destruct (outstanding c) as [|e l] eqn:E; [done|].
      destruct (b_owned hf c Hb e) as [H|H]; [rewrite E; left| |].
      - rewrite Hin in H. by apply elem_of_nil in H.
      - rewrite Hret in H. by apply elem_of_nil in H. }
    split; [done|]. split.
    + rewrite (b_count hf c Hb). rewrite outstanding_split in Ho. by apply app_nil in Ho as [-> _].
    + intros k. destruct (loading (sig c k)) eqn:E; [|done].
      destruct (v_loading _ _ Hv k) as (e & He & _); [by intros ?%elem_of_nil|done|].
      rewrite Hin in He. by apply elem_of_nil in He.
Qed.

(** [settled()] can always resolve: from every reachable state, letting the
    outstanding requests settle, however each of them ends, empties the wire
    and the queue; no queued read is ever stranded. *)
Theorem outstanding_drains hf c :
  reachable hf c →
  ∃ evs c', Forall is_settlement evs ∧ events hf c evs = Some c' ∧ outstanding c' = [].
Proof. intros Hc%reachable_inv. by eapply drain. Qed.

(** Asking twice costs nothing: a second [ensure] for the same keys under
    the same range changes nothing, so a source two widgets share is fetched
    once. *)
Theorem ensure_idempotent hf c keys r :
  reachable hf c → ensure hf keys r (ensure hf keys r c) = ensure hf keys r c.
Proof.
  intros Hc%reachable_inv. apply ensure_noop. intros k Hk.
  apply ensure_answers; [done|by left].
Qed.

(** Refreshing never stacks a request: a request a refresh, an interval
    tick or an offset timer starts is for a key with nothing outstanding, on
    the wire, queued or cancelled and not yet over. *)
Theorem refresh_never_stacks hf c ev c' e e' :
  reachable hf c → refreshes ev → step hf c ev = Some c' →
  e ∈ outstanding c' → e ∉ outstanding c → e' ∈ outstanding c → key e' ≠ key e.
Proof.
  intros Hc%reachable_inv Hr Hs He Hn He'.
  destruct (refreshes_added hf c ev c' e Hc Hr Hs He Hn) as (c0 & tick & Hc0 & Ho & Hd).
  eapply due_not_outstanding; [done..|]. by rewrite Ho.
Qed.

(** Every non-cheap source fires in the first half of the interval, cheap
    ones on the tick itself, always at the same point for the same key. *)
Theorem refresh_offset_bound k intervalMs :
  0 <= intervalMs →
  0 <= sourceRefreshOffsetMs k intervalMs ∧ 2 * sourceRefreshOffsetMs k intervalMs <= intervalMs ∧
  (is_cheap (decodeSourceKey k).1 = true → sourceRefreshOffsetMs k intervalMs = 0).
Proof.
  intros Hi. unfold sourceRefreshOffsetMs. destruct (is_cheap _); [lia|].
  pose proof (Z.div_mod intervalMs 2 ltac:(lia)) as Hdm.
  pose proof (Z.mod_pos_bound intervalMs 2 ltac:(lia)).
  destruct (Z.leb_spec (intervalMs / 2) 0); [lia|].
  pose proof (Z.mod_pos_bound (hash32 k) (intervalMs / 2) ltac:(lia)). lia.
Qed.

(** ** Witnesses *)

(** A dashboard of eight expensive sources and a cheap one, the range of the
    trends chart changed, and one read answered. *)
Definition demo_keys : list jstring :=
  ["dashboard-summary"; "dashboard-trends"; "top-consumers-cpu"; "top-consumers-memory";
   "volume-capacity"; "policy-violations-list"; "certificates-list"; "velero-backups-list";
   "mesh-mtls"]%js.
Definition all_served (k : jstring) : bool := bool_decide (k ∈ DATA_SOURCE_KEYS).
Definition demo_entry (i : nat) (k r : jstring) : Entry :=
  {| eid := i; key := k; ebase := k; eparams := []; erange := r |}.
Definition trends_1h : Entry := demo_entry 1 "dashboard-trends"%js "1h"%js.
Definition demo_events : list event :=
  [Ensure demo_keys "1h"%js; Ensure demo_keys "6h"%js;
   Settle (demo_entry 2 "top-consumers-cpu"%js "1h"%js) (Resolved (JArr []))].
Definition demo_cache : Cache := default empty_cache (events all_served empty_cache demo_events).
Lemma demo_reachable : reachable all_served demo_cache.
Proof. exists demo_events. vm_compute. reflexivity. Qed.

Lemma expensive_reads_bounded_witness :
  length (filter noncheap (on_wire demo_cache)) = MAX_CONCURRENT_EXPENSIVE_FETCHES ∧
  length (waiting demo_cache) = 3%nat.
Proof.
  split; [|vm_compute; reflexivity].
  apply (expensive_reads_bounded all_served demo_cache demo_reachable). vm_compute. discriminate.
Defined.
Lemma superseded_never_writes_witness :
  ∃ c2, step all_served demo_cache (Settle trends_1h (Resolved (JStr "old"%js))) = Some c2 ∧
        sig c2 "dashboard-trends"%js = sig demo_cache "dashboard-trends"%js.
Proof.
  eexists. split; [vm_compute; reflexivity|].
  apply (superseded_never_writes all_served demo_cache trends_1h [] demo_cache
    (Resolved (JStr "old"%js)) _ demo_reachable).
  - apply (bool_decide_unpack _). vm_compute. exact I.
  - reflexivity.
  - vm_compute. reflexivity.
Defined.
Lemma settled_means_quiet_witness :
  ∃ e, current demo_cache e ∧ key e = "mesh-mtls"%js.
Proof.
  destruct (proj1 (settled_means_quiet all_served demo_cache demo_reachable) "mesh-mtls"%js)
    as (e & H1 & H2 & _); [vm_compute; reflexivity|].
  exists e. split; [exact H1|exact H2].
Defined.
Lemma outstanding_drains_witness :
  ∃ evs c', Forall is_settlement evs ∧ events all_served demo_cache evs = Some c' ∧
            outstanding c' = [].
Proof. exact (outstanding_drains all_served demo_cache demo_reachable). Defined.
Lemma ensure_idempotent_witness :
  ensure all_served demo_keys "6h"%js (ensure all_served demo_keys "6h"%js demo_cache)
  = ensure all_served demo_keys "6h"%js demo_cache.
Proof. exact (ensure_idempotent all_served demo_cache demo_keys "6h"%js demo_reachable). Defined.
Definition answered_events : list event :=
  [Ensure ["dashboard-summary"; "nodes-list"]%js "1h"%js;
   Settle (demo_entry 0 "dashboard-summary"%js "1h"%js) (Resolved (JObj []));
   Finally (demo_entry 0 "dashboard-summary"%js "1h"%js)].
Definition answered_cache : Cache :=
  default empty_cache (events all_served empty_cache answered_events).
Lemma refresh_never_stacks_witness :
  demo_entry 2 "dashboard-summary"%js "1h"%js ∈ outstanding (refresh all_served answered_cache) ∧
  "nodes-list"%js ≠ "dashboard-summary"%js.
Proof.
  split; [apply (bool_decide_unpack _); vm_compute; exact I|].
  apply (refresh_never_stacks all_served answered_cache Refresh (refresh all_served answered_cache)
    (demo_entry 2 "dashboard-summary"%js "1h"%js) (demo_entry 1 "nodes-list"%js "1h"%js)).
  - exists answered_events. vm_compute. reflexivity.
  - left. reflexivity.
  - reflexivity.
  - apply (bool_decide_unpack _). vm_compute. exact I.
  - apply (bool_decide_unpack _). vm_compute. exact I.
  - apply (bool_decide_unpack _). vm_compute. exact I.
Defined.
Lemma refresh_offset_bound_witness :
  0 <= sourceRefreshOffsetMs "mesh-mtls"%js DASHBOARD_REFRESH_MS <= 30000.
Proof.
  destruct (refresh_offset_bound "mesh-mtls"%js DASHBOARD_REFRESH_MS) as (H1 & H2 & _).
  - vm_compute. discriminate.
  - unfold DASHBOARD_REFRESH_MS in *. lia.
Defined.
