(* ===== verification/Pressure.v ===== *)
(** * The reliability cards: pressure.ts

    Which namespace is closest to its quota, which nodes need attention, which
    volumes are nearly full. Payloads are [jsval]; a [for] loop with
    [continue]s is a fold of its body over the entries. *)

From stdpp Require Import base list strings gmap sorting.
From Stdlib Require Import ZArith QArith Lia Permutation.
From S2P Require Import Prelude JsValue Narrow Uri.

Open Scope Z_scope.

(** ** Definitions *)

Inductive PressureLevel := level_ok | level_warning | level_critical.
#[export] Instance PressureLevel_eq_dec : EqDecision PressureLevel.
Proof. solve_decision. Defined.

Definition PRESSURE_WARNING_PERCENT : number := of_Z 80.
Definition PRESSURE_CRITICAL_PERCENT : number := of_Z 95.
Definition pressureLevel (percent : number) : PressureLevel :=
  if num_leb PRESSURE_CRITICAL_PERCENT percent then level_critical
  else if num_leb PRESSURE_WARNING_PERCENT percent then level_warning
  else level_ok.

Definition num_of_nat (n : nat) : number := of_Z (Z.of_nat n).

(** *** Quota pressure *)

Definition QUOTA_PAGE_HREF : jstring := "/config/namespace-limits"%js.
Definition namespaceHref (namespace : jstring) : option jstring :=
  path_of "/cluster/namespaces"%js [namespace].

Record QuotaPressureRow := {
  quota_namespace : jstring;
  quota_percent : number;
  quota_level : PressureLevel;
  quotaCount : number;
  cpuPercent : option number;
  memoryPercent : option number
}.
Record QuotaPressureView := {
  quota_rows : list QuotaPressureRow;
  quota_readable : bool;
  quotaed : nat;
  unquotaed : nat;
  quota_unreadableRows : nat;
  atRisk : nat
}.

Definition quotaLevel (status : jsval) (percent : number) : PressureLevel :=
  let s := str status in
  if js_eqb s "ok"%js then level_ok
  else if js_eqb s "warning"%js then level_warning
  else if js_eqb s "critical"%js then level_critical
  else pressureLevel percent.

(** The loop's variables: [rows], [quotaed], [unquotaed], [unreadableRows]. *)
Record QuotaLoop := {
  ql_rows : list QuotaPressureRow; ql_quotaed : nat; ql_unquotaed : nat; ql_unreadable : nat
}.
Definition quota_row (e : list (jstring * jsval)) (percent : number) : QuotaPressureRow :=
  {| quota_namespace := str (field e "namespace"); quota_percent := percent;
     quota_level := quotaLevel (field e "status") percent;
     quotaCount := default (of_Z 0) (num (field e "quotaCount"));
     cpuPercent := num (field e "cpuUsedPercent");
     memoryPercent := num (field e "memoryUsedPercent") |}.
Definition quota_step (st : QuotaLoop) (entry : jsval) : QuotaLoop :=
  match obj entry with
  | None => st
  | Some e =>
      if js_eqb (str (field e "namespace")) ""%js then st else
      if negb (is_true_val (field e "hasQuota")) then
        {| ql_rows := ql_rows st; ql_quotaed := ql_quotaed st;
           ql_unquotaed := S (ql_unquotaed st); ql_unreadable := ql_unreadable st |}
      else match num (field e "highestUtilization") with
      | None =>
          {| ql_rows := ql_rows st; ql_quotaed := S (ql_quotaed st);
             ql_unquotaed := ql_unquotaed st; ql_unreadable := S (ql_unreadable st) |}
      | Some percent =>
          {| ql_rows := ql_rows st ++ [quota_row e percent]; ql_quotaed := S (ql_quotaed st);
             ql_unquotaed := ql_unquotaed st; ql_unreadable := ql_unreadable st |}
      end
  end.
Definition quota_loop (payload : list jsval) : QuotaLoop :=
  foldl quota_step {| ql_rows := []; ql_quotaed := 0; ql_unquotaed := 0; ql_unreadable := 0 |} payload.

(** *** Node conditions *)

Definition NODE_PAGE_HREF : jstring := "/cluster/nodes"%js.
Definition nodeHref (name : jstring) : option jstring := path_of NODE_PAGE_HREF [name].

Inductive NodeConditionKind := not_ready | memory_pressure | disk_pressure | pid_pressure.
#[export] Instance NodeConditionKind_eq_dec : EqDecision NodeConditionKind.
Proof. solve_decision. Defined.
Definition NODE_CONDITION_KINDS : list NodeConditionKind :=
  [not_ready; memory_pressure; disk_pressure; pid_pressure].
Definition NODE_CONDITION_LABEL (k : NodeConditionKind) : jstring :=
  match k with
  | not_ready => "Not Ready" | memory_pressure => "Memory Pressure"
  | disk_pressure => "Disk Pressure" | pid_pressure => "PID Pressure"
  end%js.
Definition PRESSURE_CONDITION : list (jstring * NodeConditionKind) :=
  [("MemoryPressure", memory_pressure); ("DiskPressure", disk_pressure);
   ("PIDPressure", pid_pressure)]%js.

Record NodeIssue := { issue_name : jstring; conditions : list NodeConditionKind; silent : bool }.
Record NodeConditionsView := {
  node_coverage : PageCoverage;
  nodes : list NodeIssue;
  affected : nat;
  clear_nodes : nat;
  node_unreadable : nat
}.

(** The variables of the loop over a node's conditions. The [Set] holds what
    [PRESSURE_CONDITION[type]] gave: its kinds in [found], and in
    [found_inherited] whether it also holds a member of [Object.prototype],
    which is not [undefined] either. *)
Record ConditionLoop := {
  found : list NodeConditionKind; found_inherited : bool; ready : option jstring
}.
Definition condition_step (st : ConditionLoop) (entry : jsval) : ConditionLoop :=
  let c := obj entry in
  let type := str (field_opt c "type") in
  let status := str (field_opt c "status") in
  if js_eqb type "Ready"%js then
    {| found := found st; found_inherited := found_inherited st; ready := Some status |}
  else if negb (js_eqb status "True"%js) then st
  else match table_get PRESSURE_CONDITION type with
  | Own kind =>
      {| found := kind :: found st; found_inherited := found_inherited st; ready := ready st |}
  | Inherited => {| found := found st; found_inherited := true; ready := ready st |}
  | Missing => st
  end.

Definition classifyNode (raw : jsval) : option NodeIssue :=
  node ← obj raw;
  let name := str (field_opt (obj (field node "metadata")) "name") in
  if js_eqb name ""%js then None else
  let st := foldl condition_step {| found := []; found_inherited := false; ready := None |}
              (listOr (field_opt (obj (field node "status")) "conditions")) in
  let reports s := bool_decide (ready st = Some s) in
  let found' := if negb (reports "True"%js) then not_ready :: found st else found st in
  if bool_decide (found' = []) && negb (found_inherited st) then None else
  Some {| issue_name := name;
          conditions := filter (λ k, k ∈ found') NODE_CONDITION_KINDS;
          silent := negb (reports "True"%js) && negb (reports "False"%js) |}.

Definition named_node (raw : jsval) : bool :=
  match obj raw with
  | Some node => negb (js_eqb (str (field_opt (obj (field node "metadata")) "name")) ""%js)
  | None => false
  end.
Record NodeLoop := { nl_issues : list NodeIssue; nl_clear : nat; nl_unreadable : nat }.
Definition node_step (st : NodeLoop) (raw : jsval) : NodeLoop :=
  if negb (named_node raw) then
    {| nl_issues := nl_issues st; nl_clear := nl_clear st; nl_unreadable := S (nl_unreadable st) |}
  else match classifyNode raw with
  | None => {| nl_issues := nl_issues st; nl_clear := S (nl_clear st);
               nl_unreadable := nl_unreadable st |}
  | Some issue => {| nl_issues := nl_issues st ++ [issue]; nl_clear := nl_clear st;
                     nl_unreadable := nl_unreadable st |}
  end.
Definition node_loop (items : list jsval) : NodeLoop :=
  foldl node_step {| nl_issues := []; nl_clear := 0; nl_unreadable := 0 |} items.

(** *** Storage capacity *)

Definition STORAGE_PAGE_HREF : jstring := "/storage/overview"%js.
Record StorageClassRow := { class_name : jstring; provisioner : jstring; isDefault : bool }.
Record VolumePressureRow := {
  vol_namespace : jstring; claim : jstring; vol_percent : number; vol_level : PressureLevel
}.
Definition claimHref (row : VolumePressureRow) : option jstring :=
  path_of "/storage/pvcs"%js [vol_namespace row; claim row].
Record StorageCapacityView := {
  classes : list StorageClassRow;
  classTotal : nat;
  classesReadable : bool;
  defaultClass : option jstring;
  volumes : list VolumePressureRow;
  volumeTotal : nat;
  volumesReadable : bool;
  volumesDropped : nat;
  volumeWarnings : list jstring
}.

(** [value[1]] of an array; [undefined] past its end. *)
Definition sampleValue (value : jsval) : option number :=
  match match value with JArr l => default JUndef (l !! 1%nat) | _ => JUndef end with
  | JNum n => if isFinite n then Some n else None
  | JStr raw =>
      if js_eqb (js_trim raw) ""%js then None
      else let parsed := js_Number raw in if isFinite parsed then Some parsed else None
  | _ => None
  end.

Record ClassLoop := { cl_classes : list StorageClassRow; cl_default : option jstring }.
Definition class_step (st : ClassLoop) (entry : jsval) : ClassLoop :=
  match obj entry with
  | None => st
  | Some c =>
      let name := str (field c "name") in
      if js_eqb name ""%js then st else
      let dflt := is_true_val (field c "isDefault") in
      {| cl_classes := cl_classes st ++ [{| class_name := name;
           provisioner := str (field c "provisioner"); isDefault := dflt |}];
         cl_default := match cl_default st with
                       | None => if dflt then Some name else None
                       | Some d => Some d
                       end |}
  end.
Definition class_loop (payload : list jsval) : ClassLoop :=
  foldl class_step {| cl_classes := []; cl_default := None |} payload.

Record VolumeLoop := { vl_volumes : list VolumePressureRow; vl_dropped : nat }.
Definition volume_row (sample : jsval) : option VolumePressureRow :=
  let s := obj sample in
  let metric := obj (field_opt s "metric") in
  let claim := str (field_opt metric "persistentvolumeclaim") in
  let value := match s with None => None | Some s => sampleValue (field s "value") end in
  match value with
  | Some value =>
      if js_eqb claim ""%js then None else
      Some {| vol_namespace := str (field_opt metric "namespace"); claim := claim;
              vol_percent := value; vol_level := pressureLevel value |}
  | None => None
  end.
Definition volume_step (st : VolumeLoop) (sample : jsval) : VolumeLoop :=
  match volume_row sample with
  | None => {| vl_volumes := vl_volumes st; vl_dropped := S (vl_dropped st) |}
  | Some row => {| vl_volumes := vl_volumes st ++ [row]; vl_dropped := vl_dropped st |}
  end.
Definition volume_loop (result : list jsval) : VolumeLoop :=
  foldl volume_step {| vl_volumes := []; vl_dropped := 0 |} result.

(** *** The three views *)

Section Views.
Variable localeCompare : jstring → jstring → comparison.

Definition quota_order (a b : QuotaPressureRow) : comparison :=
  by_difference (quota_percent b) (quota_percent a)
  <||> localeCompare (quota_namespace a) (quota_namespace b).
Definition quotaPressureView (payload : jsval) (limit : Z) : QuotaPressureView :=
  match payload with
  | JArr entries =>
      let st := quota_loop entries in
      let rows := js_sort quota_order (ql_rows st) in
      {| quota_rows := slice0 rows limit; quota_readable := true;
         quotaed := ql_quotaed st; unquotaed := ql_unquotaed st;
         quota_unreadableRows := ql_unreadable st;
         atRisk := length (filter (λ r, quota_level r ≠ level_ok) rows) |}
  | _ =>
      {| quota_rows := []; quota_readable := false; quotaed := 0; unquotaed := 0;
         quota_unreadableRows := 0; atRisk := 0 |}
  end.

Definition num_of_bool (b : bool) : Z := if b then 1 else 0.
Definition issue_order (a b : NodeIssue) : comparison :=
  (num_of_bool (silent b) ?= num_of_bool (silent a))
  <||> (num_of_bool (bool_decide (not_ready ∈ conditions b))
        ?= num_of_bool (bool_decide (not_ready ∈ conditions a)))
  <||> (length (conditions b) ?= length (conditions a))%nat
  <||> localeCompare (issue_name a) (issue_name b).
Definition nodeConditionsView (page : option ResourceListPage) (limit : Z) : NodeConditionsView :=
  let st := node_loop (listOr (match page with Some p => items p | None => JUndef end)) in
  let issues := js_sort issue_order (nl_issues st) in
  {| node_coverage := coverage page (num_of_nat (length issues + nl_clear st));
     nodes := slice0 issues limit; affected := length issues; clear_nodes := nl_clear st;
     node_unreadable := nl_unreadable st |}.

Definition volume_order (a b : VolumePressureRow) : comparison :=
  by_difference (vol_percent b) (vol_percent a)
  <||> localeCompare (vol_namespace a) (vol_namespace b)
  <||> localeCompare (claim a) (claim b).
(** The slug's body when it is a readable instant vector. *)
Definition instant_vector (capacityPayload : jsval) : option (list (jstring * jsval) * list jsval) :=
  body ← obj capacityPayload;
  if js_eqb (str (field body "resultType")) "vector"%js then
    result ← list_ (field body "result"); Some (body, result)
  else None.
Definition storageCapacityView (classesPayload capacityPayload : jsval) (limit : Z)
    : StorageCapacityView :=
  let cl := class_loop (listOr classesPayload) in
  let vector := instant_vector capacityPayload in
  let vl := match vector with
    | Some (_, result) => volume_loop result
    | None => {| vl_volumes := []; vl_dropped := 0 |}
    end in
  let warnings := match vector with
    | Some (body, _) =>
        filter (λ w, w ≠ ""%js) (str <$> listOr (field body "warnings"))
    | None => []
    end in
  {| classes := slice0 (cl_classes cl) limit; classTotal := length (cl_classes cl);
     classesReadable := match list_ classesPayload with Some _ => true | None => false end;
     defaultClass := cl_default cl;
     volumes := slice0 (js_sort volume_order (vl_volumes vl)) limit;
     volumeTotal := length (vl_volumes vl);
     volumesReadable := match vector with Some _ => true | None => false end;
     volumesDropped := vl_dropped vl; volumeWarnings := warnings |}.
End Views.

(** ** What the quota loop collects *)

(** A finite number as the rational it is. *)
Definition fin_value (n : number) : Q := match n with Fin q => q | _ => 0%Q end.

Definition named_entry (v : jsval) : bool :=
  match obj v with
  | Some e => negb (js_eqb (str (field e "namespace")) ""%js)
  | None => false
  end.
Definition quota_entry (v : jsval) : bool :=
  named_entry v && is_true_val (field_opt (obj v) "hasQuota").
(** The row of an entry that has one. *)
Definition quota_row_of (v : jsval) : option QuotaPressureRow :=
  if quota_entry v then
    e ← obj v; quota_row e <$> num (field e "highestUtilization")
  else None.

Lemma quota_loop_spec entries :
  let st := quota_loop entries in
  ql_rows st = omap quota_row_of entries ∧
  ql_quotaed st = length (filter (λ v, quota_entry v = true) entries) ∧
  (ql_quotaed st + ql_unquotaed st)%nat = length (filter (λ v, named_entry v = true) entries) ∧
  ql_quotaed st = (length (ql_rows st) + ql_unreadable st)%nat.
Proof.
  unfold quota_loop. induction entries as [|v l IH] using rev_ind; [done|].
  rewrite foldl_app, omap_app, !filter_app, !length_app. cbn [foldl omap list_omap].
  set (st := foldl _ _ l) in *. clearbody st. destruct IH as (IH1 & IH2 & IH3 & IH4).
  rewrite !filter_cons, !filter_nil, <- IH1, <- IH2, <- IH3.
  unfold quota_step, quota_row_of, quota_entry, named_entry.
  destruct (obj v) as [e|]; cbn [field_opt];
    [destruct (js_eqb _ _); [|destruct (is_true_val _); [destruct (num (field e "highestUtilization")) eqn:?|]]|];
    repeat case_decide; simplify_eq/=; simplify_option_eq; rewrite ?app_nil_r, ?length_app; simpl;
    split_and!; try done; try lia.
Qed.

Lemma quota_row_of_inv v r : quota_row_of v = Some r →
  ∃ e, v = JObj e ∧ field e "hasQuota" = JBool true ∧ quota_namespace r ≠ ""%js ∧
    quota_namespace r = str (field e "namespace") ∧
    field e "highestUtilization" = JNum (quota_percent r) ∧
    (∃ q, quota_percent r = Fin q) ∧
    quota_level r = quotaLevel (field e "status") (quota_percent r).
Proof.
  unfold quota_row_of, quota_entry, named_entry. destruct v as [| | | | | |e]; try done.
  cbn [obj field_opt]. destruct (js_eqb _ _) eqn:En; [done|].
  destruct (field e "hasQuota") as [| |[]| | | |] eqn:Eq; try done. cbn [is_true_val andb negb].
  cbn [mbind option_bind]. intros (p & Ep & ->)%fmap_Some. exists e.
  pose proof (num_Fin _ _ Ep) as [q ->]. split_and!; try done; try by eexists.
  - intros E. apply not_true_iff_false in En. apply En. by apply js_eqb_eq.
  - destruct (field e "highestUtilization") as [| | |n| | |]; try done. cbn [num] in Ep.
    by destruct (isFinite n); simplify_eq.
Qed.

Section Orders.
Context (lc : jstring → jstring → comparison) `{Hlc : !Comparator lc}.

Definition quota_rank (a b : QuotaPressureRow) : comparison :=
  (fin_value (quota_percent b) ?= fin_value (quota_percent a))%Q
  <||> lc (quota_namespace a) (quota_namespace b).
#[local] Instance quota_rank_comparator : Comparator quota_rank.
Proof.
  apply (cmp_or_comparator (λ a b, (fin_value (quota_percent b) ?= fin_value (quota_percent a))%Q)).
  - apply (cmp_flip_comparator (λ a b, (fin_value (quota_percent a) ?= fin_value (quota_percent b))%Q)).
    apply (cmp_on_comparator (λ r, fin_value (quota_percent r))), _.
  - by apply (cmp_on_comparator quota_namespace).
Qed.

Lemma quota_order_exact entries a b :
  js_doubles (JArr entries) = true →
  a ∈ omap quota_row_of entries → b ∈ omap quota_row_of entries →
  quota_order lc a b = quota_rank a b.
Proof.
  intros Hd. assert (∀ r, r ∈ omap quota_row_of entries →
    ∃ q, quota_percent r = Fin q ∧ double_grid q = true) as Hg.
  { intros r (v & Hv & Hr)%list_elem_of_omap.
    apply quota_row_of_inv in Hr as (e & -> & _ & _ & _ & Ep & [q Eq] & _).
    exists q. split; [done|].
    pose proof (js_doubles_elem _ _ Hd Hv) as Hde.
    pose proof (js_doubles_field e "highestUtilization" Hde) as Hf. by rewrite Ep, Eq in Hf. }
  intros (p & Ep & Hp)%Hg (q & Eq & Hq)%Hg. unfold quota_order, quota_rank.
  by rewrite Ep, Eq, by_difference_exact.
Qed.
End Orders.

(** ** What the node loop collects *)

Definition cond_type (c : jsval) : jstring := str (field_opt (obj c) "type").
Definition cond_status (c : jsval) : jstring := str (field_opt (obj c) "status").
Definition node_conditions (raw : jsval) : list jsval :=
  listOr (field_opt (obj (field_opt (obj raw) "status")) "conditions").
(** The status of the last [Ready] condition. *)
Definition ready_status (cs : list jsval) : option jstring :=
  last (cond_status <$> filter (λ c, cond_type c = "Ready"%js) cs).
(** Some condition says [True] for this pressure. *)
Definition pressed (cs : list jsval) (k : NodeConditionKind) : Prop :=
  ∃ c, c ∈ cs ∧ cond_status c = "True"%js ∧ (cond_type c, k) ∈ PRESSURE_CONDITION.
(** Some condition is named like a member of [Object.prototype] and says [True]. *)
Definition inherited_condition (cs : list jsval) : Prop :=
  ∃ c, c ∈ cs ∧ cond_status c = "True"%js ∧ cond_type c ∈ OBJECT_PROTOTYPE.

Lemma ready_not_pressure k : ("Ready"%js, k) ∉ PRESSURE_CONDITION.
Proof. destruct k; apply (bool_decide_unpack _); vm_compute; exact I. Qed.
Lemma pressure_condition_get t k : table_get PRESSURE_CONDITION t = Own k ↔ (t, k) ∈ PRESSURE_CONDITION.
Proof.
  unfold table_get. split.
  - destruct (assoc t PRESSURE_CONDITION) as [k'|] eqn:E; [|by case_decide].
    intros [= ->]. by apply assoc_elem_of.
  - intros H. rewrite (assoc_NoDup t k); [done| |done].
    apply (bool_decide_unpack _). vm_compute. exact I.
Qed.
Lemma pressure_condition_inherited t :
  table_get PRESSURE_CONDITION t = Inherited ↔ t ∈ OBJECT_PROTOTYPE.
Proof.
  unfold table_get. destruct (assoc t PRESSURE_CONDITION) as [k|] eqn:E.
  - split; [done|]. intros Ht. exfalso. apply assoc_elem_of in E.
    assert (Forall (λ t, t ∉ PRESSURE_CONDITION.*1) OBJECT_PROTOTYPE) as H
      by (apply (bool_decide_unpack _); vm_compute; exact I).
    rewrite Forall_forall in H. apply (H t Ht). apply list_elem_of_fmap. by exists (t, k).
  - by case_decide.
Qed.

Lemma pressed_snoc cs c k : pressed (cs ++ [c]) k ↔
  pressed cs k ∨ cond_status c = "True"%js ∧ (cond_type c, k) ∈ PRESSURE_CONDITION.
Proof.
  unfold pressed. setoid_rewrite elem_of_app. setoid_rewrite list_elem_of_singleton. naive_solver.
Qed.
Lemma inherited_snoc cs c : inherited_condition (cs ++ [c]) ↔
  inherited_condition cs ∨ cond_status c = "True"%js ∧ cond_type c ∈ OBJECT_PROTOTYPE.
Proof.
  unfold inherited_condition. setoid_rewrite elem_of_app.
  setoid_rewrite list_elem_of_singleton. naive_solver.
Qed.
Lemma ready_status_snoc cs c : ready_status (cs ++ [c]) =
  if decide (cond_type c = "Ready"%js) then Some (cond_status c) else ready_status cs.
Proof.
  unfold ready_status. rewrite filter_app, filter_cons, filter_nil.
  case_decide; [|by rewrite app_nil_r]. rewrite fmap_app. cbn [fmap list_fmap]. by rewrite last_snoc.
Qed.

Lemma condition_loop_spec cs :
  let st := foldl condition_step {| found := []; found_inherited := false; ready := None |} cs in
  ready st = ready_status cs ∧
  (∀ k, k ∈ found st ↔ pressed cs k) ∧
  (found_inherited st = true ↔ inherited_condition cs).
Proof.
  induction cs as [|c cs IH] using rev_ind.
  { split_and!; [done|..].
    - intros k. split; [by intros ?%elem_of_nil|]. by intros (? & ?%elem_of_nil & _).
    - split; [done|]. by intros (? & ?%elem_of_nil & _). }
  rewrite foldl_app. cbn [foldl]. set (st := foldl _ _ cs) in *. clearbody st.
  destruct IH as (IH1 & IH2 & IH3). rewrite ready_status_snoc, inherited_snoc, <- IH3, <- IH1.
  setoid_rewrite pressed_snoc. setoid_rewrite <- IH2.
  unfold condition_step. fold (cond_type c) (cond_status c).
  destruct (js_eqb (cond_type c) "Ready") eqn:Et.
  { apply js_eqb_eq in Et. rewrite Et. cbn. split_and!; [done|..].
    - intros k. pose proof (ready_not_pressure k). tauto.
    - assert ("Ready"%js ∉ OBJECT_PROTOTYPE) by (apply (bool_decide_unpack _); vm_compute; exact I).
      tauto. }
  rewrite decide_False by (intros E; apply js_eqb_eq in E; congruence).
  destruct (js_eqb (cond_status c) "True") eqn:Es; cbn [negb].
  2:{ assert (cond_status c ≠ "True"%js) by (intros E; apply js_eqb_eq in E; congruence).
      split_and!; [done|intros k|]; tauto. }
  apply js_eqb_eq in Es.
  pose proof (pressure_condition_get (cond_type c)) as Hg.
  pose proof (pressure_condition_inherited (cond_type c)) as Hin.
  destruct (table_get PRESSURE_CONDITION (cond_type c)) as [k0| |]; cbn [found found_inherited ready];
    split_and!; try done.
  all: try (intros k; rewrite ?elem_of_cons, <- Hg); naive_solver.
Qed.

Definition ready_true (cs : list jsval) : Prop := ready_status cs = Some "True"%js.
Definition has_kind (cs : list jsval) (k : NodeConditionKind) : Prop :=
  match k with not_ready => ¬ ready_true cs | _ => pressed cs k end.

Lemma pressed_kind cs k : pressed cs k → k ≠ not_ready.
Proof.
  intros (c & _ & _ & H) ->. revert H. unfold PRESSURE_CONDITION.
  rewrite !elem_of_cons, elem_of_nil. naive_solver.
Qed.

Lemma classifyNode_cases raw : named_node raw = true →
  let cs := node_conditions raw in
  match classifyNode raw with
  | None => (∀ k, ¬ has_kind cs k) ∧ ¬ inherited_condition cs
  | Some i =>
      ((∃ k, has_kind cs k) ∨ inherited_condition cs) ∧
      (∀ k, k ∈ conditions i ↔ has_kind cs k) ∧
      (silent i = true ↔ ready_status cs ≠ Some "True"%js ∧ ready_status cs ≠ Some "False"%js)
  end.
Proof.
  unfold named_node, classifyNode, node_conditions. destruct raw as [| | | | | |node]; try done.
  cbn [obj field_opt mbind option_bind]. intros Hn%negb_true_iff. rewrite Hn.
  set (cs := listOr _). destruct (condition_loop_spec cs) as (Hr & Hf & Hi).
  set (st := foldl _ _ cs) in *. clearbody st cs. rewrite Hr.
  set (found' := if negb _ then _ else _).
  assert (Hk : ∀ k, k ∈ found' ↔ has_kind cs k).
  { intros k. subst found'. unfold has_kind, ready_true. pose proof (pressed_kind cs k) as Hpk.
    case_bool_decide as E; cbn [negb]; [|rewrite elem_of_cons]; rewrite Hf;
      destruct k; naive_solver. }
  clearbody found'. case_bool_decide as E; cbn [andb].
  - subst found'. destruct (found_inherited st) eqn:Ei; cbn [negb].
    + split_and!; [right; by apply Hi| |].
      * intros k. cbn [conditions]. rewrite list_elem_of_filter, Hk. split; [tauto|].
        intros Hh. split; [done|]. by destruct k; unfold NODE_CONDITION_KINDS; set_solver.
      * cbn [silent]. rewrite andb_true_iff, !negb_true_iff, !bool_decide_eq_false. done.
    + split; [|intros H; apply Hi in H; congruence]. intros k Hh%Hk. by apply elem_of_nil in Hh.
  - split_and!.
    + left. destruct found' as [|k l]; [done|]. exists k. apply Hk. by left.
    + intros k. cbn [conditions]. rewrite list_elem_of_filter, Hk. split; [tauto|].
      intros Hh. split; [done|]. by destruct k; unfold NODE_CONDITION_KINDS; set_solver.
    + cbn [silent]. rewrite andb_true_iff, !negb_true_iff, !bool_decide_eq_false. done.
Qed.

Lemma node_loop_spec items :
  let st := node_loop items in
  let readable := filter (λ v, named_node v = true) items in
  nl_issues st = omap classifyNode readable ∧
  nl_clear st = length (filter (λ v, classifyNode v = None) readable) ∧
  (length (nl_issues st) + nl_clear st)%nat = length readable ∧
  (length (nl_issues st) + nl_clear st + nl_unreadable st)%nat = length items.
Proof.
  unfold node_loop. induction items as [|v l IH] using rev_ind; [done|].
  rewrite foldl_app, filter_app, omap_app, filter_app, !length_app. cbn [foldl].
  set (st := foldl _ _ l) in *. clearbody st. destruct IH as (IH1 & IH2 & IH3 & IH4).
  rewrite filter_cons, filter_nil, <- IH1, <- IH2, <- IH3, <- IH4. unfold node_step.
  destruct (named_node v); cbn [negb]; repeat case_decide; simplify_eq/=;
    rewrite ?filter_cons, ?filter_nil; [|split_and!; rewrite ?app_nil_r; try done; lia].
  destruct (classifyNode v) as [i|]; repeat case_decide; simplify_eq/=;
    rewrite ?app_nil_r, ?length_app; simpl; split_and!; try done; lia.
Qed.

(** ** What the storage loops collect *)

Lemma volume_loop_spec samples :
  vl_volumes (volume_loop samples) = omap volume_row samples ∧
  (length (vl_volumes (volume_loop samples)) + vl_dropped (volume_loop samples))%nat = length samples.
Proof.
  unfold volume_loop. induction samples as [|v l [IH1 IH2]] using rev_ind; [done|].
  rewrite foldl_app, omap_app, length_app, <- IH2, <- IH1. cbn [foldl].
  set (st := foldl _ _ l) in *. clearbody st. unfold volume_step. cbn [omap list_omap].
  destruct (volume_row v); cbn; rewrite ?app_nil_r, ?length_app; cbn; split; try done; lia.
Qed.

Lemma sampleValue_finite v n : js_doubles v = true → sampleValue v = Some n →
  ∃ q, n = Fin q ∧ double_grid q = true.
Proof.
  unfold sampleValue. intros Hv. destruct v as [| | | | |l|]; try done.
  destruct (l !! 1%nat) as [x|] eqn:E; [|done]. cbn [default from_option].
  apply list_elem_of_lookup_2 in E. pose proof (js_doubles_elem _ _ Hv E) as Hx.
  destruct x as [| | |m|raw| |]; try done.
  - destruct m as [| |q]; try done. cbn. intros [= <-]. by exists q.
  - cbn [id]. destruct (js_eqb (js_trim raw) ""); [done|]. pose proof (js_Number_double raw) as Hd.
    destruct (js_Number raw) as [| |q]; try done. cbn. intros [= <-]. by exists q.
Qed.
Lemma volume_row_inv v r : js_doubles v = true → volume_row v = Some r →
  claim r ≠ ""%js ∧ vol_level r = pressureLevel (vol_percent r) ∧
  ∃ q, vol_percent r = Fin q ∧ double_grid q = true.
Proof.
  unfold volume_row. intros Hv. destruct v as [| | | | | |s]; try done. cbn [obj field_opt].
  destruct (sampleValue (field s "value")) as [n|] eqn:En; [|done].
  apply sampleValue_finite in En as (q & -> & Hq); [|by apply js_doubles_field].
  destruct (js_eqb _ _) eqn:Ec; [done|]. intros [= <-]. cbn. split_and!; [|done|by exists q].
  intros E. apply js_eqb_eq in E. congruence.
Qed.

Definition volume_rank (lc : jstring → jstring → comparison) (a b : VolumePressureRow) : comparison :=
  (fin_value (vol_percent b) ?= fin_value (vol_percent a))%Q
  <||> lc (vol_namespace a) (vol_namespace b) <||> lc (claim a) (claim b).
Lemma volume_rank_comparator lc : Comparator lc → Comparator (volume_rank lc).
Proof.
  intros Hlc. unfold volume_rank. apply cmp_or_comparator; [apply cmp_or_comparator|].
  - apply (cmp_flip_comparator (λ a b, (fin_value (vol_percent a) ?= fin_value (vol_percent b))%Q)).
    apply (cmp_on_comparator (λ r, fin_value (vol_percent r))), _.
  - by apply (cmp_on_comparator vol_namespace).
  - by apply (cmp_on_comparator claim).
Qed.
Lemma volume_order_exact lc samples a b :
  js_doubles (JArr samples) = true →
  a ∈ omap volume_row samples → b ∈ omap volume_row samples →
  volume_order lc a b = volume_rank lc a b.
Proof.
  intros Hd (v & Hv & Ha)%list_elem_of_omap (v' & Hv' & Hb)%list_elem_of_omap.
  apply volume_row_inv in Ha as (_ & _ & p & Ep & Hp); [|by eapply js_doubles_elem].
  apply volume_row_inv in Hb as (_ & _ & q & Eq & Hq); [|by eapply js_doubles_elem].
  unfold volume_order, volume_rank. by rewrite Ep, Eq, by_difference_exact.
Qed.

(** The default of a loop that stops looking once it has one. *)
Lemma class_loop_default payload :
  cl_default (class_loop payload) =
    class_name <$> head (filter (λ c, isDefault c = true) (cl_classes (class_loop payload))).
Proof.
  unfold class_loop. induction payload as [|v l IH] using rev_ind; [done|].
  rewrite foldl_app. cbn [foldl]. set (st := foldl _ _ l) in *. clearbody st.
  unfold class_step. destruct (obj v) as [c|]; [|done]. destruct (js_eqb _ _); [done|].
  cbn [cl_classes cl_default]. rewrite IH, filter_app, filter_cons, filter_nil.
  destruct (filter _ (cl_classes st)); [|done]. cbn [isDefault app].
  by destruct (is_true_val (field c "isDefault")); case_decide.
Qed.

Lemma issue_order_comparator lc : Comparator lc → Comparator (issue_order lc).
Proof.
  intros Hlc. unfold issue_order. apply cmp_or_comparator; [apply cmp_or_comparator; [apply cmp_or_comparator|]|].
  - apply (cmp_flip_comparator (λ a b, num_of_bool (silent a) ?= num_of_bool (silent b))).
    apply (cmp_on_comparator (λ i, num_of_bool (silent i))), _.
  - apply (cmp_flip_comparator (λ a b, num_of_bool (bool_decide (not_ready ∈ conditions a))
      ?= num_of_bool (bool_decide (not_ready ∈ conditions b)))).
    apply (cmp_on_comparator (λ i, num_of_bool (bool_decide (not_ready ∈ conditions i)))), _.
  - apply (cmp_flip_comparator (λ a b, length (conditions a) ?= length (conditions b))%nat).
    apply (cmp_on_comparator (λ i, length (conditions i))), _.
  - by apply (cmp_on_comparator issue_name).
Qed.

(** ** Properties *)

(** The quota card shows the namespaces closest to their quota, tightest first,
    out of everything that has a readable quota: no namespace left out of the
    list is tighter than one in it. A namespace without a quota is never
    ranked; every named namespace is counted once, as governed or not, and
    every governed one is either a candidate for the list or reported as
    unreadable. The headline count is over all candidates, not the shown ones. *)
Theorem quotaPressureView_ranks lc entries limit :
  Comparator lc → js_doubles (JArr entries) = true → 0 <= limit →
  let v := quotaPressureView lc (JArr entries) limit in
  let all := omap quota_row_of entries in
  ranked (quota_rank lc) limit all (quota_rows v) ∧
  (∀ r, r ∈ all → ∃ e, JObj e ∈ entries ∧ field e "hasQuota" = JBool true ∧
     quota_namespace r = str (field e "namespace") ∧ quota_namespace r ≠ ""%js ∧
     field e "highestUtilization" = JNum (quota_percent r) ∧
     quota_level r = quotaLevel (field e "status") (quota_percent r)) ∧
  atRisk v = length (filter (λ r, quota_level r ≠ level_ok) all) ∧
  quotaed v = (length all + quota_unreadableRows v)%nat ∧
  (quotaed v + unquotaed v)%nat = length (filter (λ e, named_entry e = true) entries).
Proof.
  intros Hlc Hd Hlim. destruct (quota_loop_spec entries) as (E1 & _ & E3 & E4).
  cbn. rewrite E1 in *. split_and!; try done.
  - apply slice_ranked; [by apply quota_rank_comparator| |done].
    intros. by eapply quota_order_exact.
  - intros r (v & Hv & Hr)%list_elem_of_omap.
    apply quota_row_of_inv in Hr as (e & -> & ? & ? & ? & ? & _ & ?). by exists e.
  - by rewrite js_sort_perm.
Qed.

(** The node card never reports a node it could not vouch for as clear: a node
    is clear exactly when its last [Ready] condition says [True] and no
    pressure condition does, and every other readable node is an issue that
    lists exactly its findings, at least one, and is silent exactly when
    [Ready] is neither [True] nor [False]. Every item of the page is counted
    once, and the issues shown are the worst ones. *)
Theorem nodeConditionsView_accounts lc l total limit :
  Comparator lc → 0 <= limit → Forall (λ raw, ¬ inherited_condition (node_conditions raw)) l →
  let v := nodeConditionsView lc (Some {| items := JArr l; page_total := total |}) limit in
  let all := omap classifyNode (filter (λ raw, named_node raw = true) l) in
  ranked (issue_order lc) limit all (nodes v) ∧
  affected v = length all ∧
  (affected v + clear_nodes v + node_unreadable v)%nat = length l ∧
  Forall (λ raw, named_node raw = true →
    match classifyNode raw with
    | None => ready_true (node_conditions raw) ∧ ∀ k, ¬ pressed (node_conditions raw) k
    | Some i => conditions i ≠ [] ∧ (∀ k, k ∈ conditions i ↔ has_kind (node_conditions raw) k) ∧
        (silent i = true ↔ ready_status (node_conditions raw) ≠ Some "True"%js ∧
                           ready_status (node_conditions raw) ≠ Some "False"%js)
    end) l.
Proof.
  intros Hlc Hlim Hl. destruct (node_loop_spec l) as (E1 & _ & _ & E4).
  cbn zeta. unfold nodeConditionsView. cbn [items listOr nodes affected clear_nodes node_unreadable].
  rewrite E1 in *. rewrite !js_sort_length. split_and!; try done.
  - by apply slice_ranked; [apply issue_order_comparator| |].
  - apply (Forall_impl _ _ _ Hl). intros raw Hno Hn. pose proof (classifyNode_cases raw Hn) as Hc.
    destruct (classifyNode raw) as [i|]; cbn zeta in Hc.
    + destruct Hc as (Hsome & Hk & Hs). split_and!; [|done|done]. intros E. rewrite E in Hk.
      destruct Hsome as [[k Hh%Hk]|?]; [by apply elem_of_nil in Hh|done].
    + destruct Hc as [Hc _]. split.
      * pose proof (Hc not_ready) as H. cbn in H. unfold ready_true in *. by apply dec_stable.
      * intros k Hp. pose proof (pressed_kind _ _ Hp). apply (Hc k). by destruct k.
Qed.

(** The storage card ranks every sample it could read, fullest first, and
    reports the ones it could not: each sample is one or the other. A value is
    always a finite percentage in the band it is coloured with. A body that is
    not an instant vector gives no volumes and says so, so an outage cannot
    read as a cluster where nothing is full; and the default class is the first
    one marked, [None] exactly when none is. *)
Theorem storageCapacityView_accounts lc classesPayload capacityPayload limit :
  Comparator lc → js_doubles capacityPayload = true → 0 <= limit →
  let v := storageCapacityView lc classesPayload capacityPayload limit in
  let all := class_loop (listOr classesPayload) in
  defaultClass v = class_name <$> head (filter (λ c, isDefault c = true) (cl_classes all)) ∧
  match instant_vector capacityPayload with
  | None => volumesReadable v = false ∧ volumes v = [] ∧ volumeTotal v = 0%nat ∧
      volumesDropped v = 0%nat
  | Some (body, samples) =>
      volumesReadable v = true ∧
      ranked (volume_rank lc) limit (omap volume_row samples) (volumes v) ∧
      (volumeTotal v + volumesDropped v)%nat = length samples ∧
      ∀ r, r ∈ volumes v → claim r ≠ ""%js ∧ vol_level r = pressureLevel (vol_percent r) ∧
        isFinite (vol_percent r) = true
  end.
Proof.
  intros Hlc Hd Hlim. cbn zeta. split; [apply class_loop_default|].
  unfold storageCapacityView.
  destruct (instant_vector capacityPayload) as [[body samples]|] eqn:Ev; cbn [volumesReadable volumes
    volumeTotal volumesDropped]; [|by split_and!; try done; unfold slice0; destruct (Z.to_nat _)].
  assert (Hs : js_doubles (JArr samples) = true).
  { unfold instant_vector in Ev. destruct capacityPayload as [| | | | | |b]; try done.
    cbn [obj mbind option_bind] in Ev. destruct (js_eqb _ _); [|done].
    destruct (field b "result") as [| | | | |r|] eqn:Er; try done. injection Ev as <- <-.
    rewrite <- Er. by apply js_doubles_field. }
  destruct (volume_loop_spec samples) as [E1 E2]. rewrite E1 in *.
  assert (Hr : ranked (volume_rank lc) limit (omap volume_row samples)
    (slice0 (js_sort (volume_order lc) (omap volume_row samples)) limit)).
  { apply slice_ranked; [by apply volume_rank_comparator| |done].
    intros. by eapply volume_order_exact. }
  split_and!; [done|done|done|]. intros r Hin.
  apply (ranked_elem _ _ _ _ _ Hr), list_elem_of_omap in Hin as (x & Hx & Hrow).
  apply volume_row_inv in Hrow as (? & ? & q & Hq & _); [|by eapply js_doubles_elem].
  split_and!; [done|done|]. by rewrite Hq.
Qed.

(** A condition type named like a member of [Object.prototype] is looked up in
    the table and found: the node is reported as needing attention with no
    finding on it, though its [Ready] says [True] and nothing presses it. *)
Theorem classifyNode_inherited_type : ∃ raw i,
  named_node raw = true ∧ ready_true (node_conditions raw) ∧
  (∀ k, ¬ pressed (node_conditions raw) k) ∧
  classifyNode raw = Some i ∧ conditions i = [] ∧ silent i = false.
Proof.
  set (cond t s := JObj [("type", JStr t); ("status", JStr s)]%js).
  exists (JObj [("metadata", JObj [("name", JStr "n1")]);
    ("status", JObj [("conditions", JArr [cond "Ready" "True"; cond "constructor" "True"])])]%js).
  eexists. split_and!; [done|done| |vm_compute; reflexivity|done|done].
  intros k (c & Hc & _ & Hk). revert Hk.
  change (c ∈ [cond "Ready"%js "True"%js; cond "constructor"%js "True"%js]) in Hc.
  rewrite !elem_of_cons, elem_of_nil in Hc.
  destruct Hc as [->|[->|[]]], k; apply (bool_decide_unpack _); vm_compute; exact I.
Qed.

(** ** Witnesses *)

Definition demo_quota (ns : jstring) (q : Q) (has : bool) : jsval :=
  JObj [("namespace", JStr ns); ("hasQuota", JBool has); ("highestUtilization", JNum (Fin q))]%js.
Definition demo_quotas : list jsval :=
  [demo_quota "a" 40 true; demo_quota "b" 0 false; demo_quota "c" (193 # 2) true; JNull;
   JObj [("namespace", JStr "d"); ("hasQuota", JBool true)]]%js.
Lemma quotaPressureView_ranks_witness :
  let v := quotaPressureView js_compare (JArr demo_quotas) 1 in
  quota_namespace <$> quota_rows v = ["c"%js] ∧ quotaed v = 3%nat ∧
  ranked (quota_rank js_compare) 1 (omap quota_row_of demo_quotas) (quota_rows v).
Proof.
  split; [vm_compute; reflexivity|]. split; [vm_compute; reflexivity|].
  apply (quotaPressureView_ranks js_compare demo_quotas 1);
    [apply _ | vm_compute; reflexivity | lia].
Defined.

Definition demo_node (name : jstring) (conds : list (jstring * jstring)) : jsval :=
  JObj [("metadata", JObj [("name", JStr name)]);
        ("status", JObj [("conditions",
          JArr ((λ c, JObj [("type", JStr c.1); ("status", JStr c.2)]%js) <$> conds))])]%js.
Definition demo_nodes : list jsval :=
  [demo_node "n1" [("Ready", "True"); ("DiskPressure", "True")]; demo_node "n2" [("Ready", "True")];
   demo_node "n3" []; JNull]%js.
Lemma nodeConditionsView_accounts_witness :
  let v := nodeConditionsView js_compare (Some {| items := JArr demo_nodes; page_total := JNull |}) 5 in
  issue_name <$> nodes v = ["n3"; "n1"]%js ∧
  (affected v + clear_nodes v + node_unreadable v)%nat = 4%nat.
Proof.
  split; [vm_compute; reflexivity|].
  destruct (nodeConditionsView_accounts js_compare demo_nodes JNull 5) as (_ & _ & H & _);
    [apply _|lia| |exact H].
  apply (Forall_impl (λ raw, Forall (λ c, cond_type c ∉ OBJECT_PROTOTYPE) (node_conditions raw))).
  - apply (bool_decide_unpack _). vm_compute. exact I.
  - intros raw Hraw (c & Hc & _ & Ht). rewrite Forall_forall in Hraw. by apply (Hraw c Hc).
Defined.

Definition demo_sample (claim value : jstring) : jsval :=
  JObj [("metric", JObj [("persistentvolumeclaim", JStr claim); ("namespace", JStr "ns")]);
        ("value", JArr [JNum (of_Z 1700000000); JStr value])]%js.
Definition demo_vector : jsval :=
  JObj [("resultType", JStr "vector");
        ("result", JArr [demo_sample "data" "12.5"; demo_sample "logs" "97"; demo_sample "tmp" "NaN"])]%js.
Lemma storageCapacityView_accounts_witness :
  let v := storageCapacityView js_compare JNull demo_vector 1 in
  claim <$> volumes v = ["logs"%js] ∧ (volumeTotal v + volumesDropped v)%nat = 3%nat.
Proof.
  split; [vm_compute; reflexivity|].
  pose proof (storageCapacityView_accounts js_compare JNull demo_vector 1 _ eq_refl ltac:(lia)) as [_ H].
  exact (proj1 (proj2 (proj2 H))).
Defined.
