(* ===== verification/Severity.v ===== *)
(** * The security cards: severity.ts

    What a severity label is worth, and the three cards that rank or count by
    it. [String.prototype.toLowerCase] and [localeCompare] are the host's
    Unicode tables: parameters, with the [LowerCase] and [Comparator] classes
    for what is relied on. A [Map] is the list of its entries in insertion
    order. *)

From stdpp Require Import base list strings gmap sorting.
From Stdlib Require Import ZArith QArith Lia Permutation.
From S2P Require Import Prelude JsValue Narrow Uri Pressure.

Open Scope Z_scope.

(** ** Definitions *)

Definition SEVERITY_ORDER : list jstring := ["critical"; "high"; "medium"; "low"]%js.
Definition UNRANKED_SEVERITY : jstring := "unknown"%js.

Record SeverityBucket := { bucket_severity : jstring; bucket_count : number }.

(** [m.get(k) ?? 0], and [m.set(k, (m.get(k) ?? 0) + n)]. *)
Definition map_count (m : list (jstring * number)) (k : jstring) : number :=
  default (of_Z 0) (assoc k m).
Definition map_add (k : jstring) (n : number) (m : list (jstring * number)) : list (jstring * number) :=
  assoc_set k (num_add (map_count m k) n) m.

Definition count (value : jsval) : number := default (of_Z 0) (num value).

Definition COMPLIANCE_PAGE_HREF : jstring := "/security/compliance"%js.
Definition COMPLIANCE_HISTORY_DAYS : Z := 30.
Record ComplianceHistoryView := {
  hist_available : bool; hist_delta : option number; hist_days : Z
}.
Record ComplianceView := {
  comp_readable : bool;
  score : number;
  comp_pass : number;
  comp_fail : number;
  comp_warn : number;
  comp_total : number;
  governed : bool;
  failuresBySeverity : list SeverityBucket;
  comp_history : ComplianceHistoryView
}.

(** Downwards from the last index; [0] when no point is marked. *)
Fixpoint trend_scan (points : list bool) (i : nat) : nat :=
  match i with
  | O => O
  | S i' => if default false (points !! i') then i' else trend_scan points i'
  end.
Definition trendStartIndex (points : list bool) : nat := trend_scan points (length points).

Definition history_point (point : jsval) : option number * bool :=
  (num (field_opt (obj point) "score"), is_true_val (field_opt (obj point) "identityChanged")).
Definition historyView (history : jsval) : ComplianceHistoryView :=
  match list_ history with
  | None => {| hist_available := false; hist_delta := None; hist_days := COMPLIANCE_HISTORY_DAYS |}
  | Some points =>
      let readable := omap (λ p, (λ s, (s, p.2)) <$> p.1) (history_point <$> points) in
      let scores := (drop (trendStartIndex readable.*2) readable).*1 in
      {| hist_available := true;
         hist_delta := match scores, last scores with
           | first :: _ :: _, Some newest => Some (num_sub newest first)
           | _, _ => None
           end;
         hist_days := COMPLIANCE_HISTORY_DAYS |}
  end.

Definition VIOLATIONS_PAGE_HREF : jstring := "/security/violations"%js.
Record ViolationRow := {
  policy : jstring; viol_severity : jstring; viol_namespace : jstring; viol_kind : jstring;
  viol_name : jstring; engine : jstring; viol_blocking : bool
}.
Record ViolationsView := {
  viol_readable : bool;
  viol_total : nat;
  blocking_total : nat;
  viol_bySeverity : list SeverityBucket;
  viol_rows : list ViolationRow;
  viol_unreadableRows : nat
}.

Definition VULNERABILITIES_PAGE_HREF : jstring := "/security/vulnerabilities"%js.
Definition workloadHref (namespace kind name : jstring) : option jstring :=
  path_of VULNERABILITIES_PAGE_HREF [namespace; kind; name].
Record VulnWorkloadRow := {
  vuln_namespace : jstring; vuln_kind : jstring; vuln_name : jstring;
  critical : number; high : number; medium : number; low : number;
  row_findings : number; scanner : jstring
}.
Record VulnerabilityView := {
  vuln_readable : bool;
  scanned : nat;
  vuln_affected : nat;
  findings : number;
  vuln_bySeverity : list SeverityBucket;
  vuln_rows : list VulnWorkloadRow;
  vuln_unreadableRows : nat
}.

Definition vuln_row (item : list (jstring * jsval)) : VulnWorkloadRow :=
  let totals := obj (field item "total") in
  let c := count (field_opt totals "critical") in
  let h := count (field_opt totals "high") in
  let m := count (field_opt totals "medium") in
  let l := count (field_opt totals "low") in
  {| vuln_namespace := str (field item "namespace"); vuln_kind := str (field item "kind");
     vuln_name := str (field item "name"); critical := c; high := h; medium := m; low := l;
     row_findings := num_add (num_add (num_add c h) m) l; scanner := str (field item "scanner") |}.
(** [row[severity]] for a [severity] of [SEVERITY_ORDER]. *)
Definition row_count (row : VulnWorkloadRow) (severity : jstring) : number :=
  if decide (severity = "critical"%js) then critical row
  else if decide (severity = "high"%js) then high row
  else if decide (severity = "medium"%js) then medium row
  else low row.

Section Severity.
Variable toLowerCase : jstring → jstring.
Variable localeCompare : jstring → jstring → comparison.

Definition normalizeSeverity (value : jsval) : jstring :=
  match value with
  | JStr s =>
      let trimmed := toLowerCase (js_trim s) in
      if js_eqb trimmed ""%js then UNRANKED_SEVERITY else trimmed
  | _ => UNRANKED_SEVERITY
  end.
(** [indexOf], with its [-1] read as the length. *)
Fixpoint rank_in (labels : list jstring) (s : jstring) : nat :=
  match labels with
  | [] => 0
  | l :: ls => if js_eqb l s then 0 else S (rank_in ls s)
  end.
Definition severityRank (value : jsval) : nat := rank_in SEVERITY_ORDER (normalizeSeverity value).
Definition compareSeverity (a b : jsval) : comparison :=
  (severityRank a ?= severityRank b)%nat <||> localeCompare (normalizeSeverity a) (normalizeSeverity b).

Definition bucketsFrom (counts : list (jstring * number)) : list SeverityBucket :=
  let known := (λ s, {| bucket_severity := s; bucket_count := map_count counts s |}) <$> SEVERITY_ORDER in
  let extra := js_sort (λ a b, compareSeverity (JStr (bucket_severity a)) (JStr (bucket_severity b)))
    ((λ kv, {| bucket_severity := kv.1; bucket_count := kv.2 |}) <$>
      filter (λ kv, severityRank (JStr kv.1) = length SEVERITY_ORDER) counts) in
  known ++ extra.
Definition severity_counts (values : list jsval) : list (jstring * number) :=
  foldl (λ counts v, map_add (normalizeSeverity v) (of_Z 1) counts) [] values.
Definition severityBreakdown (values : list jsval) : list SeverityBucket :=
  bucketsFrom (severity_counts values).

Definition failure_step (bySeverity : list (jstring * jsval)) (failures : list (jstring * number))
    (severity : jstring) : list (jstring * number) :=
  let fail := count (field_opt (obj (field bySeverity severity)) "fail") in
  if num_ltb (of_Z 0) fail then map_add (normalizeSeverity (JStr severity)) fail failures
  else failures.
Definition policyComplianceView (data history : jsval) : ComplianceView :=
  match obj data, num (field_opt (obj data) "score") with
  | Some body, Some s =>
      let bySeverity := default [] (obj (field body "bySeverity")) in
      let failures := foldl (failure_step bySeverity) [] (object_keys bySeverity) in
      let total := count (field body "total") in
      {| comp_readable := true; score := num_max (of_Z 0) (num_min (of_Z 100) s);
         comp_pass := count (field body "pass"); comp_fail := count (field body "fail");
         comp_warn := count (field body "warn"); comp_total := total;
         governed := num_ltb (of_Z 0) total; failuresBySeverity := bucketsFrom failures;
         comp_history := historyView history |}
  | _, _ =>
      {| comp_readable := false; score := of_Z 0; comp_pass := of_Z 0; comp_fail := of_Z 0;
         comp_warn := of_Z 0; comp_total := of_Z 0; governed := false;
         failuresBySeverity := bucketsFrom []; comp_history := historyView history |}
  end.

Definition violation_row (body : list (jstring * jsval)) : ViolationRow :=
  {| policy := str (field body "policy"); viol_severity := normalizeSeverity (field body "severity");
     viol_namespace := str (field body "namespace"); viol_kind := str (field body "kind");
     viol_name := str (field body "name"); engine := str (field body "engine");
     viol_blocking := is_true_val (field body "blocking") |}.
Definition violation_order (a b : ViolationRow) : comparison :=
  compareSeverity (JStr (viol_severity a)) (JStr (viol_severity b))
  <||> localeCompare (policy a) (policy b)
  <||> localeCompare (viol_namespace a) (viol_namespace b)
  <||> localeCompare (viol_name a) (viol_name b).
Definition no_violations (readable : bool) : ViolationsView :=
  {| viol_readable := readable; viol_total := 0; blocking_total := 0;
     viol_bySeverity := bucketsFrom []; viol_rows := []; viol_unreadableRows := 0 |}.
Definition policyViolationsView (data : jsval) (limit : Z) : ViolationsView :=
  match data with
  | JNull | JUndef => no_violations true
  | JArr items =>
      let st := named_loop violation_row items in
      let rows := js_sort violation_order (nm_rows st) in
      {| viol_readable := true; viol_total := length items;
         blocking_total := length (filter (λ r, viol_blocking r = true) rows);
         viol_bySeverity := severityBreakdown ((λ e, field_opt (obj e) "severity") <$> items);
         viol_rows := slice0 rows (Z.max 0 limit);
         viol_unreadableRows := nm_unreadable st |}
  | _ => no_violations false
  end.

Definition vuln_order (a b : VulnWorkloadRow) : comparison :=
  by_difference (critical b) (critical a) <||> by_difference (high b) (high a)
  <||> by_difference (medium b) (medium a) <||> by_difference (low b) (low a)
  <||> localeCompare (vuln_namespace a) (vuln_namespace b)
  <||> localeCompare (vuln_name a) (vuln_name b).
Definition unreadable_scan : VulnerabilityView :=
  {| vuln_readable := false; scanned := 0; vuln_affected := 0; findings := of_Z 0;
     vuln_bySeverity := bucketsFrom []; vuln_rows := []; vuln_unreadableRows := 0 |}.
Definition num_sum (l : list number) : number := foldl num_add (of_Z 0) l.
Definition vuln_counts (body : list (jstring * jsval)) (rows : list VulnWorkloadRow)
    : list (jstring * number) :=
  let summary := obj (field_opt (obj (field body "summary")) "severity") in
  let fromSummary := match summary with
    | Some s => existsb (λ severity, bool_decide (is_Some (num (field s severity)))) SEVERITY_ORDER
    | None => false
    end in
  (λ severity, (severity,
     if fromSummary then count (field_opt summary severity)
     else num_sum ((λ row, row_count row severity) <$> rows))) <$> SEVERITY_ORDER.
Definition vulnerabilitySeverityView (data : jsval) (limit : Z) : VulnerabilityView :=
  match obj data with
  | None => unreadable_scan
  | Some body =>
      match list_ (field body "vulnerabilities") with
      | None => unreadable_scan
      | Some entries =>
          let st := named_loop vuln_row entries in
          let counts := vuln_counts body (nm_rows st) in
          let ranked := js_sort vuln_order
            (filter (λ row, num_ltb (of_Z 0) (row_findings row) = true) (nm_rows st)) in
          {| vuln_readable := true; scanned := length entries; vuln_affected := length ranked;
             findings := num_sum counts.*2; vuln_bySeverity := bucketsFrom counts;
             vuln_rows := slice0 ranked (Z.max 0 limit);
             vuln_unreadableRows := nm_unreadable st |}
      end
  end.
End Severity.

(** ** Labels *)

Definition ascii_lower (s : jstring) : jstring :=
  JS ((λ c, if in_range 65 90 c then (c + 32)%N else c) <$> units s).
(** What the code relies on in [toLowerCase]: lowering twice is lowering once,
    it leaves no space at the ends of a trimmed string, and on ASCII it maps
    [A-Z] to [a-z] and nothing else. *)
Class LowerCase (f : jstring → jstring) : Prop := {
  lower_idem s : f (f s) = f s;
  lower_trimmed s : js_trim (f (js_trim s)) = f (js_trim s);
  lower_ascii s : Forall (λ c, c < 128)%N (units s) → f s = ascii_lower s
}.

Section Labels.
Context (lower : jstring → jstring) `{Hlow : !LowerCase lower}.
Context (lc : jstring → jstring → comparison) `{Hlc : !Comparator lc}.

Lemma normalize_ascii s :
  Forall (λ c, c < 128)%N (units s) → js_trim s = s → ascii_lower s = s → s ≠ ""%js →
  normalizeSeverity lower (JStr s) = s.
Proof.
  intros Ha Ht Hl Hne. unfold normalizeSeverity. rewrite Ht, lower_ascii, Hl by done.
  destruct (js_eqb s "") eqn:E; [|done]. by apply js_eqb_eq in E.
Qed.
Lemma normalize_known s : s ∈ UNRANKED_SEVERITY :: SEVERITY_ORDER →
  normalizeSeverity lower (JStr s) = s.
Proof.
  assert (Forall (λ s, Forall (λ c, c < 128)%N (units s) ∧ js_trim s = s ∧ ascii_lower s = s ∧
    s ≠ ""%js) (UNRANKED_SEVERITY :: SEVERITY_ORDER)) as H
    by (apply (bool_decide_unpack _); vm_compute; exact I).
  rewrite Forall_forall in H. intros Hs. destruct (H s Hs) as (? & ? & ? & ?).
  by apply normalize_ascii.
Qed.
(** A label that has been normalized is left alone. *)
Lemma normalize_stable v :
  normalizeSeverity lower (JStr (normalizeSeverity lower v)) = normalizeSeverity lower v.
Proof.
  destruct v as [| | | |s| |]; try (apply normalize_known; by left).
  cbn [normalizeSeverity]. destruct (js_eqb (lower (js_trim s)) "") eqn:E.
  - rewrite js_eqb_eq in E. apply normalize_known. by left.
  - cbn [normalizeSeverity]. by rewrite lower_trimmed, lower_idem, E.
Qed.

Lemma rank_in_found labels s : s ∈ labels → (rank_in labels s < length labels)%nat.
Proof.
  induction labels as [|l ls IH]; [by intros ?%elem_of_nil|]. simpl.
  intros [->|Hs]%elem_of_cons.
  - destruct (js_eqb l l) eqn:E; [lia|]. assert (l = l) as H by done. apply js_eqb_eq in H. congruence.
  - destruct (js_eqb l s); [lia|]. specialize (IH Hs). lia.
Qed.
Lemma rank_in_missing labels s : s ∉ labels ↔ rank_in labels s = length labels.
Proof.
  split.
  - induction labels as [|l ls IH]; intros Hs; [done|]. rewrite elem_of_cons in Hs. simpl.
    destruct (js_eqb l s) eqn:E; [apply js_eqb_eq in E; naive_solver|]. rewrite IH; tauto.
  - intros E Hs. apply rank_in_found in Hs. lia.
Qed.

Lemma compareSeverity_comparator : Comparator (compareSeverity lower lc).
Proof.
  unfold compareSeverity. apply cmp_or_comparator.
  - apply (cmp_on_comparator (severityRank lower)), _.
  - by apply (cmp_on_comparator (normalizeSeverity lower)).
Qed.

(** ** Counting by label *)

Definition label_count (values : list jsval) (s : jstring) : nat :=
  length (filter (λ v, normalizeSeverity lower v = s) values).

Lemma severity_counts_spec values : Z.of_nat (length values) < 2 ^ 32 →
  let counts := severity_counts lower values in
  NoDup counts.*1 ∧
  ∀ s, assoc s counts = if decide (label_count values s = 0%nat) then None
                        else Some (of_Z (Z.of_nat (label_count values s))).
Proof.
  unfold severity_counts. induction values as [|v l IH] using rev_ind; intros Hlen.
  { split; [constructor|]. intros s. done. }
  rewrite length_app in Hlen. simpl in Hlen. destruct IH as [Hnd IH]; [lia|].
  rewrite foldl_app. cbn [foldl]. set (counts := foldl _ _ l) in *. clearbody counts.
  unfold map_add, map_count. set (k := normalizeSeverity lower v).
  assert (Hc : num_add (default (of_Z 0) (assoc k counts)) (of_Z 1)
    = of_Z (Z.of_nat (label_count l k) + 1)).
  { rewrite IH. assert (Z.of_nat (label_count l k) < 2 ^ 32).
    { unfold label_count. pose proof (length_filter (λ v, normalizeSeverity lower v = k) l). lia. }
    assert (2 ^ 32 < 2 ^ 53) by lia. case_decide as E; cbn [default from_option].
    - rewrite E. by apply fl_abs_exact_add.
    - apply fl_abs_exact_add. lia. }
  rewrite Hc. assert (Hl : ∀ s, label_count (l ++ [v]) s
    = (label_count l s + if decide (k = s) then 1 else 0)%nat).
  { intros s. unfold label_count. rewrite filter_app, length_app, filter_cons, filter_nil. subst k.
    by case_decide. }
  split.
  - by apply assoc_set_keys_NoDup.
  - intros s. rewrite Hl. destruct (decide (k = s)) as [<-|Hne].
    + rewrite assoc_set_eq, decide_False by lia. do 2 f_equal. lia.
    + rewrite assoc_set_ne, IH by done. by rewrite Nat.add_0_r.
Qed.

(** The buckets built over a map: the four known labels, then the others. *)
Lemma bucketsFrom_labels counts :
  bucket_severity <$> bucketsFrom lower lc counts ≡ₚ
    SEVERITY_ORDER ++ filter (λ k, severityRank lower (JStr k) = length SEVERITY_ORDER) counts.*1.
Proof.
  unfold bucketsFrom. rewrite fmap_app. apply Permutation_app; [done|]. rewrite js_sort_perm.
  rewrite <- list_fmap_compose, filter_fmap. done.
Qed.
Lemma severity_rank_extra k :
  severityRank lower (JStr k) = length SEVERITY_ORDER ↔ normalizeSeverity lower (JStr k) ∉ SEVERITY_ORDER.
Proof. unfold severityRank. by rewrite rank_in_missing. Qed.

Lemma bucketsFrom_elem counts b : NoDup counts.*1 →
  b ∈ bucketsFrom lower lc counts → bucket_count b = map_count counts (bucket_severity b).
Proof.
  intros Hnd. unfold bucketsFrom. rewrite elem_of_app, elem_of_js_sort.
  intros [(s & -> & _)%list_elem_of_fmap|([k n] & -> & [_ Hk]%list_elem_of_filter)%list_elem_of_fmap];
    [done|]. cbn. unfold map_count. by rewrite (assoc_NoDup k n).
Qed.
Lemma label_count_pos values s : label_count values s ≠ 0%nat ↔ ∃ v, v ∈ values ∧ normalizeSeverity lower v = s.
Proof.
  unfold label_count. split.
  - intros H. destruct (filter _ values) as [|v l] eqn:E; [done|].
    assert (v ∈ v :: l) as Hv by left. rewrite <- E in Hv. apply list_elem_of_filter in Hv as [??].
    by exists v.
  - intros (v & Hv & E) H0. apply length_zero_iff_nil in H0. eapply not_elem_of_nil.
    rewrite <- H0. apply list_elem_of_filter. done.
Qed.

(** What a breakdown's labels and counts are. *)
Lemma breakdown_spec values : Z.of_nat (length values) < 2 ^ 32 →
  let bs := severityBreakdown lower lc values in
  take 4 (bucket_severity <$> bs) = SEVERITY_ORDER ∧
  NoDup (bucket_severity <$> bs) ∧
  (∀ v, v ∈ values → normalizeSeverity lower v ∈ bucket_severity <$> bs) ∧
  (∀ b, b ∈ bs → bucket_count b = of_Z (Z.of_nat (label_count values (bucket_severity b)))).
Proof.
  intros Hlen. destruct (severity_counts_spec values Hlen) as [Hnd Hc].
  unfold severityBreakdown. set (counts := severity_counts lower values) in *. clearbody counts.
  assert (Hkeys : ∀ s, s ∈ counts.*1 ↔ ∃ v, v ∈ values ∧ normalizeSeverity lower v = s).
  { intros s. rewrite <- assoc_is_Some, Hc, <- label_count_pos. case_decide; [|naive_solver].
    split; [by intros [? ?]|done]. }
  assert (Hst : ∀ s, s ∈ counts.*1 → normalizeSeverity lower (JStr s) = s).
  { intros s (v & _ & <-)%Hkeys. apply normalize_stable. }
  cbn zeta. split_and!; [done|..].
  - rewrite bucketsFrom_labels. apply NoDup_app. split_and!.
    + apply (bool_decide_unpack _). vm_compute. exact I.
    + intros s Hs [Hr Hk]%list_elem_of_filter. apply severity_rank_extra in Hr.
      by rewrite Hst in Hr.
    + by apply NoDup_filter.
  - intros v Hv. rewrite bucketsFrom_labels, elem_of_app, list_elem_of_filter, severity_rank_extra.
    rewrite normalize_stable. destruct (decide (normalizeSeverity lower v ∈ SEVERITY_ORDER)); [by left|].
    right. split; [done|]. apply Hkeys. by exists v.
  - intros b Hb. rewrite (bucketsFrom_elem counts) by done. unfold map_count. rewrite Hc.
    case_decide as E; [|done]. by rewrite E.
Qed.
End Labels.

Section Ranks.
Context (lower : jstring → jstring) `{Hlow : !LowerCase lower}.
Context (lc : jstring → jstring → comparison) `{Hlc : !Comparator lc}.

Definition label_le (a b : jstring) : Prop := cmp_le (compareSeverity lower lc) (JStr a) (JStr b).
Lemma label_rank_lt a b :
  (severityRank lower (JStr a) < severityRank lower (JStr b))%nat → label_le a b.
Proof. intros H%Nat.compare_lt_iff. unfold label_le, cmp_le, compareSeverity. by rewrite H. Qed.
Lemma known_rank s : s ∈ SEVERITY_ORDER →
  severityRank lower (JStr s) = rank_in SEVERITY_ORDER s.
Proof. intros Hs. unfold severityRank. rewrite normalize_known; [done|done|by right]. Qed.

Lemma StronglySorted_app_2 {A} (R : A → A → Prop) l k :
  StronglySorted R l → StronglySorted R k → (∀ a b, a ∈ l → b ∈ k → R a b) →
  StronglySorted R (l ++ k).
Proof.
  intros Hl Hk H. induction Hl as [|a l Hl IH Ha]; [done|]. simpl. constructor.
  - apply IH. intros. apply H; [by right|done].
  - apply Forall_app. split; [done|]. apply Forall_forall. intros. apply H; [by left|done].
Qed.
Lemma StronglySorted_fmap {A B} (f : A → B) (R : B → B → Prop) l :
  StronglySorted (λ a b, R (f a) (f b)) l → StronglySorted R (f <$> l).
Proof. induction 1; simpl; constructor; [done|]. by apply Forall_fmap. Qed.

Lemma buckets_sorted counts : StronglySorted label_le (bucket_severity <$> bucketsFrom lower lc counts).
Proof.
  unfold bucketsFrom. rewrite fmap_app. apply StronglySorted_app_2.
  - rewrite <- list_fmap_compose. change (StronglySorted label_le SEVERITY_ORDER).
    repeat (constructor; [|repeat (constructor; [apply label_rank_lt; rewrite !known_rank;
      [apply Nat.ltb_lt; reflexivity|apply (bool_decide_unpack _); vm_compute; exact I..]|]); constructor]).
    constructor.
  - apply StronglySorted_fmap.
    assert (Comparator (λ a b, compareSeverity lower lc (JStr (bucket_severity a))
      (JStr (bucket_severity b)))) as Hb.
    { apply (cmp_on_comparator (λ b, JStr (bucket_severity b))). by apply compareSeverity_comparator. }
    by apply js_sort_sorted.
  - intros a b Ha Hb. rewrite <- list_fmap_compose in Ha. change (a ∈ SEVERITY_ORDER) in Ha.
    apply label_rank_lt. rewrite known_rank by done. pose proof (rank_in_found _ _ Ha).
    apply list_elem_of_fmap in Hb as (x & -> & Hx%elem_of_js_sort).
    apply list_elem_of_fmap in Hx as (kv & -> & [Hr _]%list_elem_of_filter). cbn [bucket_severity]. by rewrite Hr.
Qed.

Lemma violation_order_comparator : Comparator (violation_order lower lc).
Proof.
  unfold violation_order.
  apply cmp_or_comparator; [apply cmp_or_comparator; [apply cmp_or_comparator|]|].
  - apply (cmp_on_comparator (λ r, JStr (viol_severity r))). by apply compareSeverity_comparator.
  - by apply (cmp_on_comparator policy).
  - by apply (cmp_on_comparator viol_namespace).
  - by apply (cmp_on_comparator viol_name).
Qed.

(** Worst finding first: by criticals, then highs, then mediums, then lows. *)
Definition vuln_rank (a b : VulnWorkloadRow) : comparison :=
  (fin_value (critical b) ?= fin_value (critical a))%Q
  <||> (fin_value (high b) ?= fin_value (high a))%Q
  <||> (fin_value (medium b) ?= fin_value (medium a))%Q
  <||> (fin_value (low b) ?= fin_value (low a))%Q
  <||> lc (vuln_namespace a) (vuln_namespace b) <||> lc (vuln_name a) (vuln_name b).
Lemma by_fin_value_comparator {A} (f : A → number) :
  Comparator (λ a b, (fin_value (f b) ?= fin_value (f a))%Q).
Proof.
  apply (cmp_flip_comparator (λ a b, (fin_value (f a) ?= fin_value (f b))%Q)).
  apply (cmp_on_comparator (λ r, fin_value (f r))), _.
Qed.
Lemma vuln_rank_comparator : Comparator vuln_rank.
Proof.
  unfold vuln_rank. repeat apply cmp_or_comparator.
  1-4: apply by_fin_value_comparator.
  - by apply (cmp_on_comparator vuln_namespace).
  - by apply (cmp_on_comparator vuln_name).
Qed.
Lemma count_double v : js_doubles v = true → ∃ q, count v = Fin q ∧ double_grid q = true.
Proof.
  intros Hv. unfold count. destruct v as [| | |[| |q]| | |]; try (by exists 0%Q). by exists q.
Qed.
Lemma field_opt_double o k : js_doubles (default JNull (JObj <$> o)) = true →
  js_doubles (field_opt o k) = true.
Proof. destruct o; [apply js_doubles_field|done]. Qed.
Lemma vuln_row_double item : js_doubles (JObj item) = true →
  Forall (λ f : VulnWorkloadRow → number, ∃ q, f (vuln_row item) = Fin q ∧ double_grid q = true)
    [critical; high; medium; low].
Proof.
  intros Hd. assert (∀ k, js_doubles (field_opt (obj (field item "total")) k) = true) as H.
  { intros k. pose proof (js_doubles_field item "total" Hd) as Ht.
    destruct (field item "total"); try done. by apply js_doubles_field. }
  repeat constructor; apply count_double, H.
Qed.
Lemma vuln_order_exact (a b : VulnWorkloadRow) :
  Forall (λ f : VulnWorkloadRow → number, ∃ q, f a = Fin q ∧ double_grid q = true) [critical; high; medium; low] →
  Forall (λ f : VulnWorkloadRow → number, ∃ q, f b = Fin q ∧ double_grid q = true) [critical; high; medium; low] →
  vuln_order lc a b = vuln_rank a b.
Proof.
  intros Ha Hb. rewrite !Forall_cons in Ha, Hb.
  destruct Ha as ((p1 & A1 & ?) & (p2 & A2 & ?) & (p3 & A3 & ?) & (p4 & A4 & ?) & _).
  destruct Hb as ((q1 & B1 & ?) & (q2 & B2 & ?) & (q3 & B3 & ?) & (q4 & B4 & ?) & _).
  unfold vuln_order, vuln_rank. rewrite A1, A2, A3, A4, B1, B2, B3, B4.
  by rewrite !by_difference_exact.
Qed.
End Ranks.

(** ** Properties *)

(** A severity breakdown is a partition: the four known labels come first,
    present even at zero; the other labels follow, each once, in the order the
    cards rank by; every value is counted under its own normalized label; and
    the counts add up to the number of values. *)
Theorem severityBreakdown_partitions lower lc values :
  LowerCase lower → Comparator lc → Z.of_nat (length values) < 2 ^ 32 →
  let bs := severityBreakdown lower lc values in
  let labels := bucket_severity <$> bs in
  take 4 labels = SEVERITY_ORDER ∧ NoDup labels ∧ StronglySorted (label_le lower lc) labels ∧
  (∀ b, b ∈ bs → bucket_count b = of_Z (Z.of_nat (label_count lower values (bucket_severity b)))) ∧
  sum_list_with (label_count lower values) labels = length values.
Proof.
  intros Hlow Hlc Hlen. destruct (breakdown_spec lower lc values Hlen) as (H1 & H2 & H3 & H4).
  split_and!; [done|done|by apply buckets_sorted|done|].
  apply (sum_by_label (normalizeSeverity lower)); [done|]. by apply Forall_forall.
Qed.

(** The violations card counts every violation the endpoint returned, readable
    or not, and its severity bars add up to that count; an empty answer, [null]
    included, is a readable one. The rows are the worst of all that carry a
    name, and those without one are reported. *)
Theorem policyViolationsView_accounts lower lc items limit :
  LowerCase lower → Comparator lc → Z.of_nat (length items) < 2 ^ 32 →
  let v := policyViolationsView lower lc (JArr items) limit in
  let all := violation_row lower <$> omap (named_item "name") items in
  viol_readable v = true ∧ viol_total v = length items ∧
  (length all + viol_unreadableRows v)%nat = viol_total v ∧
  ranked (violation_order lower lc) (Z.max 0 limit) all (viol_rows v) ∧
  sum_list_with (label_count lower ((λ e, field_opt (obj e) "severity") <$> items))
    (bucket_severity <$> viol_bySeverity v) = viol_total v ∧
  policyViolationsView lower lc JNull limit = policyViolationsView lower lc (JArr []) limit.
Proof.
  intros Hlow Hlc Hlen. destruct (named_loop_spec (violation_row lower) items) as [E1 E2].
  unfold policyViolationsView. cbn [viol_readable viol_total viol_unreadableRows viol_rows viol_bySeverity].
  rewrite E1 in *. split_and!; try done.
  - apply slice_ranked; [by apply violation_order_comparator|done|lia].
  - set (vals := _ <$> items). assert (length items = length vals) as Hl by (subst vals; by rewrite length_fmap).
    rewrite Hl in *. destruct (breakdown_spec lower lc vals Hlen) as (_ & H2 & H3 & _).
    apply (sum_by_label (normalizeSeverity lower)); [done|]. by apply Forall_forall.
  - unfold no_violations. cbn [named_loop foldl nm_rows nm_unreadable js_sort foldr length fmap list_fmap filter
      list_filter]. unfold slice0. by destruct (Z.to_nat _).
Qed.

(** The vulnerability card ranks workloads by their worst finding, not by how
    many they have: out of every named workload with a finding, it shows the
    ones that come first by criticals, then highs, mediums and lows. A body
    whose list is missing or not a list is unreadable, never a clean scan. *)
Theorem vulnerabilitySeverityView_worst_first lower lc body entries limit :
  Comparator lc → js_doubles (JObj body) = true → field body "vulnerabilities" = JArr entries →
  let v := vulnerabilitySeverityView lower lc (JObj body) limit in
  let all := vuln_row <$> omap (named_item "name") entries in
  let found := filter (λ row, num_ltb (of_Z 0) (row_findings row) = true) all in
  vuln_readable v = true ∧ scanned v = length entries ∧
  (length all + vuln_unreadableRows v)%nat = scanned v ∧ vuln_affected v = length found ∧
  ranked (vuln_rank lc) (Z.max 0 limit) found (vuln_rows v) ∧
  (∀ a b, a ∈ vuln_rows v → b ∈ found → (fin_value (critical a) < fin_value (critical b))%Q →
     b ∈ vuln_rows v) ∧
  (∀ data, list_ (field_opt (obj data) "vulnerabilities") = None →
     vuln_readable (vulnerabilitySeverityView lower lc data limit) = false).
Proof.
  intros Hlc Hd Hv. destruct (named_loop_spec vuln_row entries) as [E1 E2].
  unfold vulnerabilitySeverityView. cbn [obj]. rewrite Hv. cbn [list_ vuln_readable scanned
    vuln_unreadableRows vuln_affected vuln_rows]. rewrite E1 in *. rewrite js_sort_length.
  set (all := vuln_row <$> _) in *. set (found := filter _ all).
  assert (Hr : ranked (vuln_rank lc) (Z.max 0 limit) found
    (slice0 (js_sort (vuln_order lc) found) (Z.max 0 limit))).
  { assert (Hg : ∀ r, r ∈ found → Forall (λ f : VulnWorkloadRow → number,
      ∃ q, f r = Fin q ∧ double_grid q = true) [critical; high; medium; low]).
    { intros r [_ Hr]%list_elem_of_filter. subst all.
      apply list_elem_of_fmap in Hr as (item & -> & Hi).
      apply list_elem_of_omap in Hi as (x & Hx & Hi). apply named_item_inv in Hi as [-> _].
      apply vuln_row_double. eapply js_doubles_elem; [|exact Hx]. rewrite <- Hv.
      by apply js_doubles_field. }
    apply slice_ranked; [by apply vuln_rank_comparator| |lia].
    intros a b Ha Hb. apply vuln_order_exact; by apply Hg. }
  split_and!; try done.
  - intros a b Ha Hb Hlt. destruct Hr as (rest & Hp & _ & Hle & _).
    rewrite <- Hp in Hb. apply elem_of_app in Hb as [Hb|Hb]; [done|]. exfalso.
    apply (Hle a b Ha Hb). unfold vuln_rank. apply Qgt_alt in Hlt. by rewrite Hlt.
  - intros data Hn. destruct (obj data) as [b|]; [|done]. cbn [field_opt] in Hn. by rewrite Hn.
Qed.

(** The compliance gauge stays on its dial whatever the score says, a payload
    without a readable score is unreadable rather than a zero, and a cluster
    is governed exactly when the score was computed over some policy. *)
Theorem policyComplianceView_bounds lower lc data history :
  let v := policyComplianceView lower lc data history in
  num_leb (of_Z 0) (score v) = true ∧ num_leb (score v) (of_Z 100) = true ∧
  (comp_readable v = true ↔ is_Some (num (field_opt (obj data) "score"))) ∧
  (governed v = true ↔ comp_readable v = true ∧ num_ltb (of_Z 0) (count (field_opt (obj data) "total")) = true).
Proof.
  unfold policyComplianceView.
  destruct (obj data) as [body|]; [|repeat split; try done; by intros [? ?]].
  cbn [field_opt]. destruct (num (field body "score")) as [s|] eqn:Es;
    [|repeat split; try done; by intros [? ?]].
  cbn [score comp_readable governed]. apply num_Fin in Es as [q ->].
  split_and!; [| |done|naive_solver].
  - unfold num_min, num_max, num_leb, num_compare, of_Z.
    destruct (inject_Z 100 ?= q)%Q; [done|done|]. destruct (inject_Z 0 ?= q)%Q eqn:E; by rewrite ?E.
  - unfold num_min, num_max, num_leb, num_compare, of_Z.
    destruct (inject_Z 100 ?= q)%Q eqn:E; [done|done|]. destruct (inject_Z 0 ?= q)%Q; [|rewrite <- Qcompare_antisym, E|]; done.
Qed.

Lemma trend_scan_spec l n :
  (∀ j, (trend_scan l n < j < n)%nat → l !! j ≠ Some true) ∧
  (trend_scan l n = 0%nat ∨ l !! trend_scan l n = Some true).
Proof.
  induction n as [|n [IH1 IH2]]; cbn [trend_scan]; [split; [lia|by left]|].
  destruct (l !! n) as [[]|] eqn:E; cbn [default from_option id].
  - split; [intros j Hj; lia|by right].
  - split; [|done]. intros j Hj. destruct (decide (j = n)) as [->|]; [congruence|apply IH1; lia].
  - split; [|done]. intros j Hj. destruct (decide (j = n)) as [->|]; [congruence|apply IH1; lia].
Qed.

(** The trend is the change since the latest identity change, or over the whole
    window when there was none: the points it spans are the readable ones from
    there on, none of them marked but the first, and it needs two of them. *)
Theorem historyView_since_identity_change points :
  let readable := omap (λ p, (λ s, (s, p.2)) <$> p.1) (history_point <$> points) in
  let i := trendStartIndex readable.*2 in
  let scores := (drop i readable).*1 in
  hist_available (historyView (JArr points)) = true ∧
  (i = 0%nat ∨ readable.*2 !! i = Some true) ∧
  (∀ j, (i < j)%nat → readable.*2 !! j ≠ Some true) ∧
  (∀ d, hist_delta (historyView (JArr points)) = Some d ↔
     ∃ first mid newest, scores = first :: mid ++ [newest] ∧ d = num_sub newest first).
Proof.
  cbn zeta. unfold historyView. cbn [list_ hist_available hist_delta].
  set (rd := omap _ _). set (i := trendStartIndex _).
  destruct (trend_scan_spec rd.*2 (length rd.*2)) as [H1 H2].
  fold (trendStartIndex rd.*2) in H1, H2. fold i in H1, H2. split_and!; [done|done|..].
  - intros j Hj Hl. eapply H1, Hl. split; [done|]. by eapply lookup_lt_Some.
  - intros d. destruct (drop i rd).*1 as [|first [|second rest]] eqn:E.
    + split; [done|]. by intros (? & ? & ? & ? & _).
    + split; [done|]. intros (? & [|? mid] & ? & [=] & _).
    + destruct (exists_last (l := second :: rest)) as (mid & newest & Hm); [done|].
      rewrite Hm, app_comm_cons, last_snoc. split.
      * intros [= <-]. by exists first, mid, newest.
      * intros (f & m & w & [= -> Hw] & ->). apply app_inj_tail in Hw as [_ ->]. done.
Qed.

(** The blocking count leaves out the violations that carry no name, though
    [total] counts them. *)
Theorem blocking_ignores_nameless lower lc :
  let v := policyViolationsView lower lc (JArr [JObj [("blocking", JBool true)]])%js 5 in
  viol_total v = 1%nat ∧ blocking_total v = 0%nat ∧ viol_unreadableRows v = 1%nat.
Proof. done. Qed.

(** ** Witnesses *)

Lemma drop_spaces_map l f : (∀ c, is_space (f c) = is_space c) →
  drop_spaces (f <$> l) = f <$> drop_spaces l.
Proof. intros Hf. induction l as [|c l IH]; [done|]. simpl. rewrite Hf. by destruct (is_space c). Qed.
Lemma drop_spaces_suffix l : ∃ k, l = k ++ drop_spaces l.
Proof.
  induction l as [|c l [k IH]]; [by exists []|]. simpl. destruct (is_space c); [|by exists []].
  exists (c :: k). simpl. by f_equal.
Qed.
Lemma drop_spaces_head l c r : drop_spaces l = c :: r → is_space c = false.
Proof.
  induction l as [|x l IH]; [done|]. simpl. destruct (is_space x) eqn:E; [done|]. by intros [= <- _].
Qed.
Lemma drop_spaces_idem l : drop_spaces (drop_spaces l) = drop_spaces l.
Proof.
  destruct (drop_spaces l) as [|c r] eqn:E; [done|]. simpl. by rewrite (drop_spaces_head _ _ _ E).
Qed.
Lemma js_trim_idem s : js_trim (js_trim s) = js_trim s.
Proof.
  unfold js_trim. cbn [units]. f_equal. set (m := drop_spaces (units s)).
  assert (Hm : drop_spaces (rev (drop_spaces (rev m))) = rev (drop_spaces (rev m))).
  { destruct (drop_spaces_suffix (rev m)) as [k Hk].
    destruct (rev (drop_spaces (rev m))) as [|c r] eqn:E; [done|]. simpl.
    assert (Hc : m = (c :: r) ++ rev k).
    { rewrite <- E, <- rev_app_distr, <- Hk. by rewrite rev_involutive. }
    subst m. simpl in Hc. by rewrite (drop_spaces_head _ _ _ Hc). }
  rewrite Hm, rev_involutive. by rewrite drop_spaces_idem.
Qed.
Lemma rev_fmap {A B} (f : A → B) l : rev (f <$> l) = f <$> rev l.
Proof. symmetry. apply map_rev. Qed.
Lemma printable_not_space c : (33 ≤ c ≤ 127)%N → is_space c = false.
Proof.
  intros Hc. apply not_true_iff_false. unfold is_space.
  rewrite !orb_true_iff, !andb_true_iff, !N.leb_le, !N.eqb_eq. lia.
Qed.
#[export] Instance ascii_lower_LowerCase : LowerCase ascii_lower.
Proof.
  assert (Hup : ∀ c, in_range 65 90 c = true → (65 ≤ c ≤ 90)%N).
  { unfold in_range. intros c H. reflect_bools. rewrite !N.leb_le in *. lia. }
  split.
  - intros [l]. unfold ascii_lower. cbn [units]. f_equal. rewrite <- list_fmap_compose.
    apply list_fmap_ext. intros _ c _. cbn. destruct (in_range 65 90 c) eqn:E; [|by rewrite E].
    apply Hup in E. destruct (in_range 65 90 (c + 32)) eqn:E'; [|done]. apply Hup in E'. lia.
  - intros s. rewrite <- (js_trim_idem s) at 2. unfold ascii_lower, js_trim. cbn [units]. f_equal.
    set (f := λ c : N, if in_range 65 90 c then (c + 32)%N else c).
    assert (Hf : ∀ c, is_space (f c) = is_space c).
    { intros c. subst f. cbn. destruct (in_range 65 90 c) eqn:E; [|done]. apply Hup in E.
      rewrite !printable_not_space by lia. done. }
    rewrite drop_spaces_map, rev_fmap, drop_spaces_map, rev_fmap by done. done.
  - done.
Qed.

Definition demo_values : list jsval :=
  [JStr "CRITICAL"; JStr " low "; JNull; JStr "odd"; JStr "critical"]%js.
Lemma severityBreakdown_partitions_witness :
  let bs := severityBreakdown ascii_lower js_compare demo_values in
  bucket_severity <$> bs = ["critical"; "high"; "medium"; "low"; "odd"; "unknown"]%js ∧
  sum_list_with (label_count ascii_lower demo_values) (bucket_severity <$> bs) = 5%nat.
Proof.
  split; [vm_compute; reflexivity|].
  apply (severityBreakdown_partitions ascii_lower js_compare demo_values); [apply _|apply _|].
  cbn. lia.
Defined.

Definition demo_violation (name severity : jstring) : jsval :=
  JObj [("name", JStr name); ("severity", JStr severity); ("policy", JStr "p")]%js.
Definition demo_violations : list jsval :=
  [demo_violation "a" "low"; demo_violation "b" "High"; demo_violation "" "critical"]%js.
Lemma policyViolationsView_accounts_witness :
  let v := policyViolationsView ascii_lower js_compare (JArr demo_violations) 1 in
  viol_name <$> viol_rows v = ["b"%js] ∧
  ranked (violation_order ascii_lower js_compare) 1
    (violation_row ascii_lower <$> omap (named_item "name") demo_violations) (viol_rows v).
Proof.
  split; [vm_compute; reflexivity|].
  apply (policyViolationsView_accounts ascii_lower js_compare demo_violations 1); [apply _|apply _|].
  cbn. lia.
Defined.

Definition demo_workload (name : jstring) (c h : Z) : jsval :=
  JObj [("name", JStr name); ("total", JObj [("critical", JNum (of_Z c)); ("high", JNum (of_Z h))])]%js.
Definition demo_reports : list jsval :=
  [demo_workload "many" 0 900; demo_workload "clean" 0 0; demo_workload "worst" 1 0]%js.
Definition demo_scan : list (jstring * jsval) := [("vulnerabilities"%js, JArr demo_reports)].
Lemma vulnerabilitySeverityView_worst_first_witness :
  let v := vulnerabilitySeverityView ascii_lower js_compare (JObj demo_scan) 1 in
  vuln_name <$> vuln_rows v = ["worst"%js] ∧ vuln_affected v = 2%nat ∧ scanned v = 3%nat.
Proof.
  destruct (vulnerabilitySeverityView_worst_first ascii_lower js_compare demo_scan demo_reports 1)
    as (_ & H1 & _ & H2 & _); [apply _|vm_compute; reflexivity|reflexivity|].
  split; [vm_compute; reflexivity|]. split; [|exact H1].
  etrans; [exact H2|]. vm_compute. reflexivity.
Defined.
