(* ===== verification/SyncState.v ===== *)
(** * The delivery and mesh cards: sync-state.ts

    One verdict per application from two status fields, recent syncs, and how
    much of the mesh enforces mTLS. The views build their rows' links as they
    go, and a link throws on a lone surrogate: a view is [None] then.
    [localeCompare] and [Date.parse] are the host's. *)

From stdpp Require Import base list strings gmap sorting.
From Stdlib Require Import ZArith QArith Lia Permutation.
From S2P Require Import Prelude JsValue Narrow Uri Params Pressure.

Open Scope Z_scope.

(** ** Definitions *)

Definition envelopeList (data : jsval) (name : jstring) : option (list jsval) :=
  body ← obj data;
  match field body name with
  | JUndef | JNull => Some []
  | value => list_ value
  end.

Definition GITOPS_APPLICATIONS_PAGE_HREF : jstring := "/gitops/applications"%js.
Definition MESH_MTLS_PAGE_HREF : jstring := "/networking/mesh/mtls"%js.
Definition gitopsAppHref (id : jstring) : option jstring :=
  path_of GITOPS_APPLICATIONS_PAGE_HREF [id].

Inductive AppHealthBucket := degraded | outofsync | progressing | suspended | unknown | synced.
#[export] Instance AppHealthBucket_eq_dec : EqDecision AppHealthBucket.
Proof. solve_decision. Defined.
Definition APP_HEALTH_BUCKETS : list AppHealthBucket :=
  [degraded; outofsync; progressing; suspended; unknown; synced].
Definition ATTENTION_BUCKETS : list AppHealthBucket := [degraded; outofsync].
Definition OUT_OF_SYNC_STATUSES : list jstring := ["outofsync"; "failed"; "stalled"]%js.
(** [indexOf] in a list of which every member is listed. *)
Definition index_of {A} `{EqDecision A} (x : A) (l : list A) : nat :=
  default 0%nat (fst <$> list_find (x =.) l).
Definition bucketRank (b : AppHealthBucket) : nat := index_of b APP_HEALTH_BUCKETS.

Definition classifyApp (entry : jsval) : AppHealthBucket :=
  match obj entry with
  | None => unknown
  | Some item =>
      let sync := str (field item "syncStatus") in
      let health := str (field item "healthStatus") in
      if js_eqb health "degraded" then degraded
      else if bool_decide (sync ∈ OUT_OF_SYNC_STATUSES) then outofsync
      else if js_eqb sync "progressing" || js_eqb health "progressing" then progressing
      else if js_eqb health "suspended" then suspended
      else if js_eqb sync "synced" && js_eqb health "healthy" then synced
      else unknown
  end.

Record AppHealthRow := {
  app_id : jstring; app_name : jstring; app_namespace : jstring; app_tool : jstring;
  app_syncStatus : jstring; app_healthStatus : jstring; app_bucket : AppHealthBucket;
  app_message : jstring; app_href : jstring
}.
(** [counts[x]++] on a record of numbers. *)
Definition bump {L} `{EqDecision L} (x : L) (counts : L → nat) (y : L) : nat :=
  if decide (y = x) then S (counts y) else counts y.
(** [m.set(k, (m.get(k) ?? 0) + 1)] on a [Map] of counts. *)
Definition tally (k : jstring) (m : list (jstring * nat)) : list (jstring * nat) :=
  assoc_set k (S (default 0%nat (assoc k m))) m.

Record GitOpsAppHealthView := {
  gah_readable : bool;
  gah_total : nat;
  gah_counts : AppHealthBucket → nat;
  attention : nat;
  tools : list (jstring * nat);
  gah_rows : list AppHealthRow;
  gah_unreadableRows : nat
}.
Definition emptyAppHealthView (readable : bool) : GitOpsAppHealthView :=
  {| gah_readable := readable; gah_total := 0; gah_counts := λ _, 0%nat; attention := 0;
     tools := []; gah_rows := []; gah_unreadableRows := 0 |}.

(** The loop's variables. *)
Record AppLoop := {
  al_total : nat; al_unreadable : nat; al_counts : AppHealthBucket → nat;
  al_tools : list (jstring * nat); al_rows : list AppHealthRow
}.
Definition app_row (item : list (jstring * jsval)) : option AppHealthRow :=
  href ← gitopsAppHref (str (field item "id"));
  Some {| app_id := str (field item "id"); app_name := str (field item "name");
          app_namespace := str (field item "namespace"); app_tool := str (field item "tool");
          app_syncStatus := str (field item "syncStatus");
          app_healthStatus := str (field item "healthStatus");
          app_bucket := classifyApp (JObj item); app_message := str (field item "message");
          app_href := href |}.
Definition app_step (st : AppLoop) (entry : jsval) : option AppLoop :=
  match named_item "name" entry with
  | None =>
      Some {| al_total := al_total st; al_unreadable := S (al_unreadable st);
              al_counts := al_counts st; al_tools := al_tools st; al_rows := al_rows st |}
  | Some item =>
      let bucket := classifyApp (JObj item) in
      let st' rows :=
        {| al_total := S (al_total st); al_unreadable := al_unreadable st;
           al_counts := bump bucket (al_counts st);
           al_tools := tally (str (field item "tool")) (al_tools st); al_rows := rows |} in
      if bool_decide (bucket ∉ ATTENTION_BUCKETS) then Some (st' (al_rows st))
      else row ← app_row item; Some (st' (al_rows st ++ [row]))
  end.
(** A [for] loop whose body may throw. *)
Fixpoint fold_loop {S E} (step : S → E → option S) (st : S) (l : list E) : option S :=
  match l with
  | [] => Some st
  | e :: l' => st' ← step st e; fold_loop step st' l'
  end.
Definition app_loop (entries : list jsval) : option AppLoop :=
  fold_loop app_step {| al_total := 0; al_unreadable := 0; al_counts := λ _, 0%nat;
    al_tools := []; al_rows := [] |} entries.

(** *** Recent syncs *)

Definition is_hex (c : N) : bool := in_range 48 57 c || in_range 97 102 c || in_range 65 70 c.
(** [/^[0-9a-f]{7,40}$/i] *)
Definition SHA_PATTERN (s : jstring) : bool :=
  let n := length (units s) in
  (7 <=? n)%nat && (n <=? 40)%nat && forallb is_hex (units s).
Definition SHA_DISPLAY_LENGTH : nat := 7.
Definition shortRevision (value : jsval) : jstring :=
  let raw := js_trim (str value) in
  if js_eqb raw ""%js then ""%js else
  match js_lastIndexOf 64 raw with
  | Some (S at') =>
      let at_ := S at' in
      let head := js_take at_ raw in
      let tail := js_drop (S at_) raw in
      let tail := match js_indexOf 58 tail with
        | Some colon => js_drop (S colon) tail
        | None => tail
        end in
      if SHA_PATTERN tail then (head +++ "@" +++ js_take SHA_DISPLAY_LENGTH tail)%js else raw
  | _ => if SHA_PATTERN raw then js_take SHA_DISPLAY_LENGTH raw else raw
  end.

Record RecentSyncRow := {
  sync_id : jstring; sync_name : jstring; sync_namespace : jstring; sync_tool : jstring;
  sync_syncStatus : jstring; sync_healthStatus : jstring; syncedAt : jstring;
  syncedAtMs : number; revision : jstring; sync_message : jstring; sync_href : jstring
}.
Record GitOpsRecentSyncsView := {
  sync_readable : bool; sync_total : nat; untimed : nat; sync_rows : list RecentSyncRow;
  sync_unreadableRows : nat
}.
Definition emptyRecentSyncsView (readable : bool) : GitOpsRecentSyncsView :=
  {| sync_readable := readable; sync_total := 0; untimed := 0; sync_rows := [];
     sync_unreadableRows := 0 |}.
Record SyncLoop := {
  sl_total : nat; sl_untimed : nat; sl_unreadable : nat; sl_rows : list RecentSyncRow
}.

(** *** mTLS coverage *)

Inductive MtlsPosture := p_inactive | p_mixed | p_active | p_unmeshed | p_unknown.
#[export] Instance MtlsPosture_eq_dec : EqDecision MtlsPosture.
Proof. solve_decision. Defined.
Definition MTLS_POSTURES : list MtlsPosture := [p_inactive; p_mixed; p_active; p_unmeshed; p_unknown].
Definition MESHED_POSTURES : list MtlsPosture := [p_active; p_mixed; p_inactive].
Definition NON_STRICT_POSTURES : list MtlsPosture := [p_inactive; p_mixed].
Definition postureOf (value : jsval) : MtlsPosture :=
  let raw := str value in
  if js_eqb raw "inactive" then p_inactive
  else if js_eqb raw "mixed" then p_mixed
  else if js_eqb raw "active" then p_active
  else if js_eqb raw "unmeshed" then p_unmeshed
  else p_unknown.

(** [Math.round] *)
Definition num_round (x : number) : number :=
  match x with Fin q => of_Z (math_round q) | _ => x end.
Definition coveragePercent (value : option number) : option number :=
  match value with
  | None => None
  | Some v =>
      if negb (isFinite v) then None
      else if num_leb v (of_Z 0) then Some (of_Z 0)
      else if num_leb (of_Z 1) v then Some (of_Z 100)
      else Some (num_min (of_Z 99) (num_max (of_Z 1) (num_round (num_times v (of_Z 100)))))
  end.

Record MtlsRow := {
  mtls_namespace : jstring; workload : jstring; workloadKind : jstring; mesh : jstring;
  posture : MtlsPosture; mtls_state : jstring; mtls_source : jstring; confident : bool
}.
Record MtlsCoverageView := {
  mtls_readable : bool;
  mtls_total : nat;
  meshed : nat;
  mtls_counts : MtlsPosture → nat;
  mtls_coverage : option number;
  mtls_percent : option number;
  mtls_rows : list MtlsRow;
  mtls_unreadableRows : nat;
  partial : list jstring
}.
Definition emptyMtlsView (readable : bool) : MtlsCoverageView :=
  {| mtls_readable := readable; mtls_total := 0; meshed := 0; mtls_counts := λ _, 0%nat;
     mtls_coverage := None; mtls_percent := None; mtls_rows := []; mtls_unreadableRows := 0;
     partial := [] |}.
Record MtlsLoop := {
  ml_total : nat; ml_unreadable : nat; ml_counts : MtlsPosture → nat; ml_rows : list MtlsRow
}.
Definition mtls_row (item : list (jstring * jsval)) : MtlsRow :=
  {| mtls_namespace := str (field item "namespace"); workload := str (field item "workload");
     workloadKind := str (field item "workloadKind"); mesh := str (field item "mesh");
     posture := postureOf (field item "state"); mtls_state := str (field item "state");
     mtls_source := str (field item "source");
     confident := is_true_val (field item "workloadKindConfident") |}.
Definition mtls_step (st : MtlsLoop) (entry : jsval) : MtlsLoop :=
  match named_item "workload" entry with
  | None => {| ml_total := ml_total st; ml_unreadable := S (ml_unreadable st);
               ml_counts := ml_counts st; ml_rows := ml_rows st |}
  | Some item =>
      let posture := postureOf (field item "state") in
      {| ml_total := S (ml_total st); ml_unreadable := ml_unreadable st;
         ml_counts := bump posture (ml_counts st);
         ml_rows := if bool_decide (posture ∉ NON_STRICT_POSTURES) then ml_rows st
                    else ml_rows st ++ [mtls_row item] |}
  end.
Definition mtls_loop (entries : list jsval) : MtlsLoop :=
  foldl mtls_step {| ml_total := 0; ml_unreadable := 0; ml_counts := λ _, 0%nat; ml_rows := [] |} entries.

Section Views.
Variable localeCompare : jstring → jstring → comparison.
Variable Date_parse : jstring → number.

Definition app_order (a b : AppHealthRow) : comparison :=
  (bucketRank (app_bucket a) ?= bucketRank (app_bucket b))%nat
  <||> localeCompare (app_name a) (app_name b)
  <||> localeCompare (app_namespace a) (app_namespace b).
Definition gitopsAppHealthView (data : jsval) (limit : Z) : option GitOpsAppHealthView :=
  match envelopeList data "applications" with
  | None => Some (emptyAppHealthView false)
  | Some items =>
      st ← app_loop items;
      Some {| gah_readable := true; gah_total := al_total st; gah_counts := al_counts st;
              attention := sum_list (al_counts st <$> ATTENTION_BUCKETS);
              tools := js_sort (λ a b, localeCompare a.1 b.1) (al_tools st);
              gah_rows := slice0 (js_sort app_order (al_rows st)) (Z.max 0 limit);
              gah_unreadableRows := al_unreadable st |}
  end.

Definition sync_time (item : list (jstring * jsval)) : number :=
  let syncedAt := str (field item "lastSyncTime") in
  if js_eqb syncedAt ""%js then NaN else Date_parse syncedAt.
Definition sync_row (item : list (jstring * jsval)) : option RecentSyncRow :=
  href ← gitopsAppHref (str (field item "id"));
  Some {| sync_id := str (field item "id"); sync_name := str (field item "name");
          sync_namespace := str (field item "namespace"); sync_tool := str (field item "tool");
          sync_syncStatus := str (field item "syncStatus");
          sync_healthStatus := str (field item "healthStatus");
          syncedAt := str (field item "lastSyncTime"); syncedAtMs := sync_time item;
          revision := shortRevision (field item "currentRevision");
          sync_message := str (field item "message"); sync_href := href |}.
Definition sync_step (st : SyncLoop) (entry : jsval) : option SyncLoop :=
  match named_item "name" entry with
  | None => Some {| sl_total := sl_total st; sl_untimed := sl_untimed st;
                    sl_unreadable := S (sl_unreadable st); sl_rows := sl_rows st |}
  | Some item =>
      if negb (isFinite (sync_time item)) then
        Some {| sl_total := S (sl_total st); sl_untimed := S (sl_untimed st);
                sl_unreadable := sl_unreadable st; sl_rows := sl_rows st |}
      else
        row ← sync_row item;
        Some {| sl_total := S (sl_total st); sl_untimed := sl_untimed st;
                sl_unreadable := sl_unreadable st; sl_rows := sl_rows st ++ [row] |}
  end.
Definition sync_order (a b : RecentSyncRow) : comparison :=
  by_difference (syncedAtMs b) (syncedAtMs a) <||> localeCompare (sync_name a) (sync_name b).
Definition gitopsRecentSyncsView (data : jsval) (limit : Z) : option GitOpsRecentSyncsView :=
  match envelopeList data "applications" with
  | None => Some (emptyRecentSyncsView false)
  | Some items =>
      st ← fold_loop sync_step {| sl_total := 0; sl_untimed := 0; sl_unreadable := 0; sl_rows := [] |} items;
      Some {| sync_readable := true; sync_total := sl_total st; untimed := sl_untimed st;
              sync_rows := slice0 (js_sort sync_order (sl_rows st)) (Z.max 0 limit);
              sync_unreadableRows := sl_unreadable st |}
  end.

Definition mtls_order (a b : MtlsRow) : comparison :=
  (index_of (posture a) MTLS_POSTURES ?= index_of (posture b) MTLS_POSTURES)%nat
  <||> localeCompare (mtls_namespace a) (mtls_namespace b)
  <||> localeCompare (workload a) (workload b).
Definition mtlsCoverageView (data : jsval) (limit : Z) : MtlsCoverageView :=
  match envelopeList data "workloads" with
  | None => emptyMtlsView false
  | Some items =>
      let st := mtls_loop items in
      let meshed := sum_list (ml_counts st <$> MESHED_POSTURES) in
      let cov := if (meshed =? 0)%nat then None
                 else Some (num_quot (num_of_nat (ml_counts st p_active)) (num_of_nat meshed)) in
      {| mtls_readable := true; mtls_total := ml_total st; meshed := meshed;
         mtls_counts := ml_counts st; mtls_coverage := cov; mtls_percent := coveragePercent cov;
         mtls_rows := slice0 (js_sort mtls_order (ml_rows st)) (Z.max 0 limit);
         mtls_unreadableRows := ml_unreadable st;
         partial := match obj (field_opt (obj data) "errors") with
                    | None => []
                    | Some errors => js_sort js_compare (object_keys errors)
                    end |}
  end.
End Views.

(** ** The loops *)

Definition count_of {A L} `{EqDecision L} (f : A → L) (l : list A) (x : L) : nat :=
  length (filter (λ a, f a = x) l).
Lemma count_of_cons {A L} `{EqDecision L} (f : A → L) a l x :
  count_of f (a :: l) x = ((if decide (f a = x) then 1 else 0) + count_of f l x)%nat.
Proof. unfold count_of. rewrite filter_cons. by case_decide. Qed.
Lemma count_of_snoc {A L} `{EqDecision L} (f : A → L) a l x :
  count_of f (l ++ [a]) x = ((if decide (f a = x) then 1 else 0) + count_of f l x)%nat.
Proof.
  unfold count_of. rewrite filter_app, length_app, filter_cons, filter_nil. case_decide; cbn; lia.
Qed.
Lemma bump_count {L} `{EqDecision L} (x : L) counts y :
  bump x counts y = ((if decide (x = y) then 1 else 0) + counts y)%nat.
Proof. unfold bump. repeat case_decide; naive_solver. Qed.
Lemma tally_total k m : sum_list (tally k m).*2 = S (sum_list m.*2).
Proof.
  unfold tally. assert (∀ o, assoc k m = o →
    sum_list (assoc_set k (S (default 0%nat o)) m).*2 = S (sum_list m.*2)) as H; [|by apply H].
  unfold sum_list. induction m as [|[k' n] m IH]; intros o; cbn [assoc assoc_set]; [by intros <-|].
  destruct (decide (k' = k)); intros E; cbn; [subst o; cbn; lia|].
  pose proof (IH o E) as H. cbn in H. lia.
Qed.
Lemma tally_count k m t :
  default 0%nat (assoc t (tally k m)) = ((if decide (k = t) then 1 else 0) + default 0%nat (assoc t m))%nat.
Proof.
  unfold tally. case_decide as E; [subst; by rewrite assoc_set_eq|]. by rewrite assoc_set_ne.
Qed.

Definition app_items (entries : list jsval) : list (list (jstring * jsval)) :=
  omap (named_item "name") entries.
Definition app_class (item : list (jstring * jsval)) : AppHealthBucket := classifyApp (JObj item).
Definition needs_attention (item : list (jstring * jsval)) : Prop := app_class item ∈ ATTENTION_BUCKETS.
#[export] Instance needs_attention_dec item : Decision (needs_attention item).
Proof. unfold needs_attention. apply _. Defined.

Lemma app_fold_spec entries st rows :
  mapM app_row (filter needs_attention (app_items entries)) = Some rows →
  ∃ st', fold_loop app_step st entries = Some st' ∧
    al_rows st' = al_rows st ++ rows ∧
    al_total st' = (al_total st + length (app_items entries))%nat ∧
    (al_total st' + al_unreadable st')%nat = (al_total st + al_unreadable st + length entries)%nat ∧
    (∀ b, al_counts st' b = (al_counts st b + count_of app_class (app_items entries) b)%nat) ∧
    sum_list (al_tools st').*2 = (sum_list (al_tools st).*2 + length (app_items entries))%nat ∧
    (NoDup (al_tools st).*1 → NoDup (al_tools st').*1).
Proof.
  unfold app_items. revert st rows. induction entries as [|v l IH]; intros st rows.
  { cbn. intros [= <-]. exists st. rewrite app_nil_r. split_and!; try done; try lia. }
  cbn [omap list_omap fold_loop]. unfold app_step at 2.
  destruct (named_item "name" v) as [item|]; cbn [mbind option_bind].
  2:{ intros Hr. apply (IH {| al_total := al_total st; al_unreadable := S (al_unreadable st);
        al_counts := al_counts st; al_tools := al_tools st; al_rows := al_rows st |})
        in Hr as (st' & -> & H1 & H2 & H3 & H4 & H5 & H6).
      exists st'. cbn in *. split_and!; try done. lia. }
  rewrite filter_cons. set (st1 rows := {| al_total := S (al_total st); al_unreadable := al_unreadable st;
    al_counts := bump (classifyApp (JObj item)) (al_counts st);
    al_tools := tally (str (field item "tool")) (al_tools st); al_rows := rows |}).
  assert (Hnext : ∀ pre rows', mapM app_row (filter needs_attention (omap (named_item "name") l)) = Some rows' →
    ∃ st', fold_loop app_step (st1 pre) l = Some st' ∧ al_rows st' = pre ++ rows' ∧
      al_total st' = (al_total st + length (item :: omap (named_item "name") l))%nat ∧
      (al_total st' + al_unreadable st')%nat = (al_total st + al_unreadable st + length (v :: l))%nat ∧
      (∀ b, al_counts st' b = (al_counts st b + count_of app_class (item :: omap (named_item "name") l) b)%nat) ∧
      sum_list (al_tools st').*2 = (sum_list (al_tools st).*2 + length (item :: omap (named_item "name") l))%nat ∧
      (NoDup (al_tools st).*1 → NoDup (al_tools st').*1)).
  { intros pre rows' (st' & E & H1 & H2 & H3 & H4 & H5 & H6)%(IH (st1 pre)). exists st'. subst st1.
    cbn [al_rows al_total al_unreadable al_counts al_tools length] in *. rewrite tally_total in H5.
    split_and!; try done; try lia.
    - intros b. rewrite H4, count_of_cons, bump_count. unfold app_class. lia.
    - intros Hnd. apply H6. by apply assoc_set_keys_NoDup. }
  destruct (decide (needs_attention item)) as [Ha|Ha].
  - cbn [mapM]. destruct (app_row item) as [row|] eqn:Erow; [|done]. cbn [mbind option_bind].
    destruct (mapM _ _) as [rows'|] eqn:Em; [|done]. intros [= <-].
    rewrite bool_decide_eq_false_2 by tauto. cbn [mbind option_bind].
    destruct (Hnext (al_rows st ++ [row]) rows' eq_refl) as (st' & E & H1 & H). exists st'.
    split; [exact E|]. rewrite H1, <- app_assoc. done.
  - intros Em. rewrite bool_decide_eq_true_2 by done. cbn [mbind option_bind]. by apply Hnext.
Qed.

Lemma mtls_loop_spec entries :
  let st := mtls_loop entries in
  let items := omap (named_item "workload") entries in
  ml_total st = length items ∧ (ml_total st + ml_unreadable st)%nat = length entries ∧
  (∀ p, ml_counts st p = count_of (λ i, postureOf (field i "state")) items p) ∧
  ml_rows st = mtls_row <$> filter (λ i, postureOf (field i "state") ∈ NON_STRICT_POSTURES) items.
Proof.
  unfold mtls_loop. induction entries as [|v l IH] using rev_ind; [done|].
  rewrite foldl_app, omap_app, filter_app, fmap_app, !length_app. cbn [foldl omap list_omap].
  set (st := foldl _ _ l) in *. clearbody st. destruct IH as (IH1 & IH2 & IH3 & IH4).
  unfold mtls_step. destruct (named_item "workload" v) as [item|]; cbn [ml_total ml_unreadable ml_counts ml_rows].
  - rewrite filter_cons, filter_nil, <- IH4. cbn [length]. split_and!; try lia.
    + intros p. rewrite bump_count, IH3. unfold count_of.
      rewrite filter_app, length_app, filter_cons, filter_nil. case_decide; cbn; lia.
    + case_decide as E; [rewrite bool_decide_eq_false_2 by tauto|rewrite bool_decide_eq_true_2 by done];
        [done|by rewrite app_nil_r].
  - rewrite filter_nil, <- IH4, !app_nil_r. cbn [length]. split_and!; try done; try lia.
Qed.

Lemma app_order_comparator lc : Comparator lc → Comparator (app_order lc).
Proof.
  intros Hlc. unfold app_order. apply cmp_or_comparator; [apply cmp_or_comparator|].
  - apply (cmp_on_comparator (λ r, bucketRank (app_bucket r))), _.
  - by apply (cmp_on_comparator app_name).
  - by apply (cmp_on_comparator app_namespace).
Qed.
Lemma mtls_order_comparator lc : Comparator lc → Comparator (mtls_order lc).
Proof.
  intros Hlc. unfold mtls_order. apply cmp_or_comparator; [apply cmp_or_comparator|].
  - apply (cmp_on_comparator (λ r, index_of (posture r) MTLS_POSTURES)), _.
  - by apply (cmp_on_comparator mtls_namespace).
  - by apply (cmp_on_comparator workload).
Qed.

(** ** A fraction that rounds to neither end *)

(** The quotient of two whole numbers below 2^32 keeps its distance from 1. *)
Lemma fl_below_one a m : 0 < a < m → m < 2 ^ 32 →
  ∃ q, num_div (inject_Z a) (inject_Z m) = Fin q ∧ (0 < q < 1)%Q.
Proof.
  intros Ha Hm. unfold num_div.
  destruct (Qeq_bool (inject_Z m) 0) eqn:E0.
  { apply Qeq_bool_eq in E0. unfold Qeq in E0. simpl in E0. lia. }
  assert (Eq : (inject_Z a / inject_Z m)%Q = a # Z.to_pos m).
  { unfold Qdiv, Qmult, Qinv. simpl. destruct m; try lia. simpl. by rewrite Z.mul_1_r. }
  rewrite Eq. unfold fl. cbn [Qnum Qden]. rewrite Z2Pos.id by lia.
  rewrite (Z.abs_eq a), (Z.sgn_pos a) by lia. destruct (Z.eqb_spec a 0); [lia|].
  pose proof (binary_exponent_le a m ltac:(lia) ltac:(lia)) as He.
  assert (Hlow : -64 <= binary_exponent a m).
  { unfold binary_exponent. pose proof (Z.log2_nonneg a).
    assert (Z.log2 m < 32) by (apply Z.log2_lt_pow2; lia). destruct (_ <=? _); lia. }
  set (e := binary_exponent a m) in *. clearbody e.
  assert (e < 0).
  { destruct (Z.lt_ge_cases e 0); [done|]. rewrite (Z.max_r 0 e), (Z.max_l 0) in He by lia.
    assert (0 < 2 ^ e) by (apply Z.pow_pos_nonneg; lia). nia. }
  rewrite (Z.max_l (e - 52)) by lia. rewrite (Z.max_l 0 (e - 52)), (Z.max_r 0 (- (e - 52))) by lia.
  rewrite Z.pow_0_r, !Z.mul_1_r. set (P := 2 ^ (- (e - 52))).
  assert (HP : P = 2 ^ (- e - 1) * 2 ^ 53) by (subst P; rewrite <- Z.pow_add_r by lia; f_equal; lia).
  assert (0 < 2 ^ (- e - 1)) by (apply Z.pow_pos_nonneg; lia).
  rewrite (Z.max_l 0 e), (Z.max_r 0 (- e)) in He by lia. rewrite Z.pow_0_r, Z.mul_1_r in He.
  assert (HE : 2 ^ (- e) = 2 * 2 ^ (- e - 1)) by (rewrite <- Z.pow_succ_r by lia; f_equal; lia).
  assert (2 ^ (- e - 1) <= 2 ^ 64) by (apply Z.pow_le_mono_r; lia).
  set (K := 2 ^ (- e - 1)) in *. clearbody K P.
  assert (Hm1 : 1 <= round_half_even (a * P) m) by (apply round_half_even_ge; nia).
  assert (Hm2 : round_half_even (a * P) m < P).
  { assert (a * P / m <= P - 2 ^ 21).
    { apply Z.div_le_upper_bound; [lia|]. nia. }
    unfold round_half_even. destruct (_ ?= _); [destruct (Z.even _)|..]; lia. }
  destruct (Z.leb_spec (2 ^ 1024) (round_half_even (a * P) m)) as [Hbig|_].
  { exfalso. assert (P <= 2 ^ 117).
    { subst P. lia. }
    assert (2 ^ 117 < 2 ^ 1024) by reflexivity. lia. }
  eexists. split; [done|]. rewrite Z.mul_1_l. split; rewrite Qred_correct; unfold Qlt; simpl;
    rewrite ?Z2Pos.id by lia; lia.
Qed.

Lemma num_max_of_Z a b : num_max (of_Z a) (of_Z b) = of_Z (Z.max a b).
Proof.
  unfold num_max, num_compare, of_Z, Qcompare. simpl. rewrite !Z.mul_1_r.
  destruct (Z.compare_spec a b); [by subst; rewrite Z.max_id|by rewrite Z.max_r by lia|by rewrite Z.max_l by lia].
Qed.
Lemma num_min_of_Z a b : num_min (of_Z a) (of_Z b) = of_Z (Z.min a b).
Proof.
  unfold num_min, num_compare, of_Z, Qcompare. simpl. rewrite !Z.mul_1_r.
  destruct (Z.compare_spec a b); [by subst; rewrite Z.min_id|by rewrite Z.min_l by lia|by rewrite Z.min_r by lia].
Qed.
Lemma fl_not_NaN q : fl q ≠ NaN.
Proof. unfold fl. destruct (_ =? 0); [done|]. by destruct (_ <=? _). Qed.
Lemma clamped_percent q : ∃ p, 1 <= p <= 99 ∧
  num_min (of_Z 99) (num_max (of_Z 1) (num_round (fl q))) = of_Z p.
Proof.
  destruct (fl q) as [|[]|r] eqn:E; [by apply fl_not_NaN in E|by exists 1|by exists 99|].
  cbn [num_round]. rewrite num_max_of_Z, num_min_of_Z. eexists. split; [|done]. lia.
Qed.
Lemma fl_one m : 0 < m → num_div (inject_Z m) (inject_Z m) = of_Z 1.
Proof.
  intros Hm. unfold num_div. destruct (Qeq_bool (inject_Z m) 0) eqn:E0.
  { apply Qeq_bool_eq in E0. unfold Qeq in E0. simpl in E0. lia. }
  assert (Eq : (inject_Z m / inject_Z m)%Q = m # Z.to_pos m).
  { unfold Qdiv, Qmult, Qinv. simpl. destruct m as [|p|p]; try lia. cbn. by rewrite Z.mul_1_r. }
  rewrite Eq. unfold fl. cbn [Qnum Qden]. rewrite Z2Pos.id, Z.abs_eq, Z.sgn_pos by lia.
  destruct (Z.eqb_spec m 0); [lia|].
  assert (binary_exponent m m = 0) as ->.
  { unfold binary_exponent. rewrite Z.sub_diag. change (Z.max 0 0) with 0. change (Z.max 0 (- 0)) with 0.
    by rewrite Z.leb_refl. }
  change (Z.max (0 - 52) (-1074)) with (-52). change (Z.max 0 (-52)) with 0.
  change (Z.max 0 (- -52)) with 52. rewrite Z.pow_0_r, (Z.mul_1_r m), (Z.mul_comm m).
  rewrite round_half_even_exact by lia. reflexivity.
Qed.

(** 0 and 100 are said only of none and all. *)
Lemma coveragePercent_counts a m : 0 <= a <= m → 0 < m < 2 ^ 32 →
  ∃ p, coveragePercent (Some (num_quot (of_Z a) (of_Z m))) = Some (of_Z p) ∧
    0 <= p <= 100 ∧ (p = 0 ↔ a = 0) ∧ (p = 100 ↔ a = m).
Proof.
  intros Ha Hm. cbn [num_quot of_Z].
  destruct (decide (a = m)) as [->|Hne].
  { exists 100. rewrite fl_one by lia. split; [reflexivity|]. lia. }
  destruct (decide (a = 0)) as [->|H0].
  { exists 0. unfold num_div. destruct (Qeq_bool (inject_Z m) 0) eqn:E0.
    { apply Qeq_bool_eq in E0. unfold Qeq in E0. simpl in E0. lia. }
    split; [reflexivity|]. lia. }
  destruct (fl_below_one a m) as (q & -> & Hq0 & Hq1); [lia|lia|].
  unfold coveragePercent. cbn [isFinite negb].
  unfold num_leb at 1. cbn [num_compare of_Z]. apply Qgt_alt in Hq0.
  change (inject_Z 0) with 0%Q. rewrite Hq0.
  unfold num_leb. cbn [num_compare of_Z]. apply Qgt_alt in Hq1. change (inject_Z 1) with 1%Q. rewrite Hq1.
  cbn [num_times of_Z]. unfold num_mul.
  destruct (clamped_percent (q * inject_Z 100)) as (p & Hp & E).
  unfold of_Z in E |- *. rewrite E. exists p. split; [done|]. lia.
Qed.

Lemma app_class_synced item : app_class item = synced ↔
  str (field item "syncStatus") = "synced"%js ∧ str (field item "healthStatus") = "healthy"%js.
Proof.
  unfold app_class, classifyApp. cbn [obj]. set (s := str (field item "syncStatus")).
  set (h := str (field item "healthStatus")). clearbody s h. split.
  - repeat (case_match; try done). reflect_bools. rewrite !js_eqb_eq in *. done.
  - intros [-> ->]. done.
Qed.
Lemma attention_count items :
  (count_of app_class items degraded + (count_of app_class items outofsync + 0))%nat
  = length (filter needs_attention items).
Proof.
  unfold count_of. induction items as [|item l IH]; [done|]. rewrite !filter_cons.
  assert (needs_attention item ↔ app_class item = degraded ∨ app_class item = outofsync) as Hn.
  { unfold needs_attention, ATTENTION_BUCKETS. set_solver. }
  repeat case_decide; try (exfalso; naive_solver); cbn [length]; try lia; congruence.
Qed.

Lemma non_strict_count items :
  length (filter (λ i, postureOf (field i "state") ∈ NON_STRICT_POSTURES) items) =
  (count_of (λ i, postureOf (field i "state")) items p_mixed
   + count_of (λ i, postureOf (field i "state")) items p_inactive)%nat.
Proof.
  unfold count_of. induction items as [|i l IH]; [done|]. rewrite !filter_cons.
  assert (postureOf (field i "state") ∈ NON_STRICT_POSTURES ↔
    postureOf (field i "state") = p_inactive ∨ postureOf (field i "state") = p_mixed) as Hn.
  { unfold NON_STRICT_POSTURES. set_solver. }
  repeat case_decide; try (exfalso; naive_solver); cbn [length]; try lia; congruence.
Qed.

(** ** Properties *)

(** The application card assigns every application it could read exactly one
    bucket, so its numbers add up: to the total, per tool as well, and with the
    unreadable entries to everything the route returned. An application counts
    as synced only when it is both synced and healthy. The rows are the worst
    of all degraded and out-of-sync applications, and [attention] counts those. *)
Theorem gitopsAppHealthView_partitions lc data entries limit :
  Comparator lc → envelopeList data "applications" = Some entries →
  Forall (λ item, no_surrogates (str (field item "id"))) (app_items entries) →
  ∃ v rows, gitopsAppHealthView lc data limit = Some v ∧
    mapM app_row (filter needs_attention (app_items entries)) = Some rows ∧
    ranked (app_order lc) (Z.max 0 limit) rows (gah_rows v) ∧ attention v = length rows ∧
    (∀ b, gah_counts v b = count_of app_class (app_items entries) b) ∧
    sum_list (gah_counts v <$> APP_HEALTH_BUCKETS) = gah_total v ∧
    (gah_total v + gah_unreadableRows v)%nat = length entries ∧
    sum_list (tools v).*2 = gah_total v ∧ NoDup (tools v).*1 ∧
    (∀ item, app_class item = synced ↔
       str (field item "syncStatus") = "synced"%js ∧ str (field item "healthStatus") = "healthy"%js).
Proof.
  intros Hlc He Hid.
  destruct (mapM app_row (filter needs_attention (app_items entries))) as [rows|] eqn:Em.
  2:{ exfalso. apply mapM_None_1, Exists_exists in Em as (item & [_ Hi]%list_elem_of_filter & Hn).
      rewrite Forall_forall in Hid. specialize (Hid item Hi).
      unfold app_row, gitopsAppHref in Hn.
      destruct (path_of_total GITOPS_APPLICATIONS_PAGE_HREF [str (field item "id")]) as [h Hh];
        [by repeat constructor|]. by rewrite Hh in Hn. }
  destruct (app_fold_spec entries {| al_total := 0; al_unreadable := 0; al_counts := λ _, 0%nat;
    al_tools := []; al_rows := [] |} rows Em) as (st & Hst & H1 & H2 & H3 & H4 & H5 & H6).
  cbn [al_total al_unreadable al_counts al_tools al_rows app] in *.
  unfold gitopsAppHealthView. rewrite He. unfold app_loop. rewrite Hst. cbn [mbind option_bind].
  eexists _, rows. split; [done|]. cbn [gah_rows attention gah_counts gah_total gah_unreadableRows tools].
  assert (Hc : sum_list (al_counts st <$> APP_HEALTH_BUCKETS) = al_total st).
  { rewrite H2. cbn [plus]. rewrite <- (sum_by_label app_class APP_HEALTH_BUCKETS (app_items entries)).
    - unfold sum_list. cbn. rewrite !H4. reflexivity.
    - apply (bool_decide_unpack _). vm_compute. exact I.
    - apply Forall_forall. intros item _. by destruct (app_class item); unfold APP_HEALTH_BUCKETS; set_solver. }
  rewrite H1. split_and!; try done.
  - apply slice_ranked; [by apply app_order_comparator|done|lia].
  - apply length_mapM in Em. rewrite <- Em. unfold sum_list. cbn. rewrite !H4. apply attention_count.
  - rewrite (js_sort_perm _ (al_tools st)). rewrite H5, H2. done.
  - rewrite (js_sort_perm _ (al_tools st)). apply H6. constructor.
  - intros item. apply app_class_synced.
Qed.

(** The mesh card claims nothing it has not counted. Its percentage is a whole
    number from 0 to 100, absent exactly when no workload is meshed; it says 0
    only when no meshed workload is strict and 100 only when every one is. Each
    readable workload is in exactly one posture, one this build does not know
    included, and the rows are the worst of all meshed ones that are not
    strict, so there are none exactly at 100. *)
Theorem mtlsCoverageView_honest lc data entries limit :
  Comparator lc → envelopeList data "workloads" = Some entries → Z.of_nat (length entries) < 2 ^ 32 →
  let v := mtlsCoverageView lc data limit in
  let items := omap (named_item "workload") entries in
  let weak := mtls_row <$> filter (λ i, postureOf (field i "state") ∈ NON_STRICT_POSTURES) items in
  mtls_readable v = true ∧ (mtls_total v + mtls_unreadableRows v)%nat = length entries ∧
  sum_list (mtls_counts v <$> MTLS_POSTURES) = mtls_total v ∧
  (∀ p, mtls_counts v p = count_of (λ i, postureOf (field i "state")) items p) ∧
  ranked (mtls_order lc) (Z.max 0 limit) weak (mtls_rows v) ∧
  (mtls_percent v = None ↔ meshed v = 0%nat) ∧
  (∀ n, mtls_percent v = Some n → ∃ p, n = of_Z p ∧ 0 <= p <= 100 ∧
     (p = 0 ↔ mtls_counts v p_active = 0%nat) ∧ (p = 100 ↔ weak = [])).
Proof.
  intros Hlc He Hlen. cbn zeta. unfold mtlsCoverageView. rewrite He.
  destruct (mtls_loop_spec entries) as (H1 & H2 & H3 & H4).
  cbn [mtls_readable mtls_total mtls_unreadableRows mtls_counts mtls_rows mtls_percent meshed].
  set (items := omap _ entries) in *. set (st := mtls_loop entries) in *. clearbody st.
  set (m := sum_list (ml_counts st <$> MESHED_POSTURES)).
  assert (Hall : sum_list (ml_counts st <$> MTLS_POSTURES) = ml_total st).
  { rewrite H1, <- (sum_by_label (λ i, postureOf (field i "state")) MTLS_POSTURES items).
    - unfold sum_list. cbn. rewrite !H3. reflexivity.
    - apply (bool_decide_unpack _). vm_compute. exact I.
    - apply Forall_forall. intros i _. by destruct (postureOf _); unfold MTLS_POSTURES; set_solver. }
  assert (Hm : m = (ml_counts st p_active + (ml_counts st p_mixed + ml_counts st p_inactive))%nat)
    by (unfold m, sum_list; cbn; lia).
  assert (m ≤ ml_total st)%nat by (rewrite <- Hall, Hm; unfold sum_list; cbn; lia).
  assert (Hweak : mtls_row <$> filter (λ i, postureOf (field i "state") ∈ NON_STRICT_POSTURES) items = []
    ↔ ml_counts st p_active = m).
  { rewrite Hm, !H3, <- length_zero_iff_nil, length_fmap, non_strict_count. lia. }
  clearbody m. split_and!; try done.
  - rewrite H4. apply slice_ranked; [by apply mtls_order_comparator|done|lia].
  - destruct (Nat.eqb_spec m 0) as [E|E]; [done|]. split; [|done]. intros Hn. exfalso.
    destruct (coveragePercent_counts (Z.of_nat (ml_counts st p_active)) (Z.of_nat m))
      as (p & Hp & _); [lia|lia|]. unfold num_of_nat in Hn. congruence.
  - intros n. destruct (Nat.eqb_spec m 0) as [E|E]; [done|].
    destruct (coveragePercent_counts (Z.of_nat (ml_counts st p_active)) (Z.of_nat m))
      as (p & Hp & Hr & H0 & H100); [lia|lia|]. unfold num_of_nat. rewrite Hp. intros [= <-].
    exists p. split_and!; [done|lia|lia|rewrite H0; lia|rewrite H100, Hweak; lia].
Qed.

(** ** Recent syncs *)

(** [Date.parse] answers a time value, whole milliseconds within 100,000,000
    days of the epoch, or NaN. *)
Class DateParse (f : jstring → number) : Prop := {
  date_value s : f s = NaN ∨ ∃ ms, f s = of_Z ms ∧ Z.abs ms <= 8640000000000000
}.

Section RecentSyncs.
Context (lc : jstring → jstring → comparison) `{Hlc : !Comparator lc}.
Context (Date_parse : jstring → number) `{Hdate : !DateParse Date_parse}.

Definition timed (item : list (jstring * jsval)) : Prop := isFinite (sync_time Date_parse item) = true.
#[export] Instance timed_dec item : Decision (timed item).
Proof. unfold timed. apply _. Defined.

Lemma sync_fold_spec entries st rows :
  mapM (sync_row Date_parse) (filter timed (app_items entries)) = Some rows →
  ∃ st', fold_loop (sync_step Date_parse) st entries = Some st' ∧
    sl_rows st' = sl_rows st ++ rows ∧
    sl_total st' = (sl_total st + length (app_items entries))%nat ∧
    (sl_total st' + sl_unreadable st')%nat = (sl_total st + sl_unreadable st + length entries)%nat ∧
    (sl_untimed st' + length rows)%nat = (sl_untimed st + length (app_items entries))%nat.
Proof.
  unfold app_items. revert st rows. induction entries as [|v l IH]; intros st rows.
  { cbn. intros [= <-]. exists st. rewrite app_nil_r. split_and!; try done; cbn; lia. }
  cbn [omap list_omap fold_loop]. unfold sync_step at 2.
  destruct (named_item "name" v) as [item|]; cbn [mbind option_bind].
  2:{ intros Hr. eapply IH in Hr as (st' & -> & H1 & H2 & H3 & H4).
      exists st'. cbn in *. split_and!; try done. lia. }
  rewrite filter_cons. destruct (decide (timed item)) as [Et|Et]; unfold timed in Et.
  - rewrite Et. cbn [mapM negb].
    destruct (sync_row Date_parse item) as [row|]; [|done]. cbn [mbind option_bind].
    destruct (mapM _ _) as [rows'|] eqn:Em; [|done]. intros [= <-].
    match goal with |- context [fold_loop _ ?s l] =>
      destruct (IH s rows' eq_refl) as (st' & E & H1 & H2 & H3 & H4) end.
    exists st'. rewrite E.
    cbn [sl_rows sl_total sl_unreadable sl_untimed length] in *.
    split_and!; try done; try lia. by rewrite H1, <- app_assoc.
  - apply not_true_is_false in Et. rewrite Et. cbn [negb mbind option_bind]. intros Hr.
    eapply IH in Hr as (st' & -> & H1 & H2 & H3 & H4).
    exists st'. cbn [sl_rows sl_total sl_unreadable sl_untimed length] in *.
    split_and!; try done; lia.
Qed.

Definition sync_rank (a b : RecentSyncRow) : comparison :=
  (fin_value (syncedAtMs b) ?= fin_value (syncedAtMs a))%Q <||> lc (sync_name a) (sync_name b).
Lemma sync_rank_comparator : Comparator sync_rank.
Proof.
  apply cmp_or_comparator.
  - apply (cmp_flip_comparator (λ a b, (fin_value (syncedAtMs a) ?= fin_value (syncedAtMs b))%Q)).
    apply (cmp_on_comparator (λ r, fin_value (syncedAtMs r))), _.
  - by apply (cmp_on_comparator sync_name).
Qed.
Lemma int_double ms : double_grid (inject_Z ms) = true.
Proof. unfold double_grid. cbn [Qnum Qden inject_Z]. apply Z.eqb_eq. apply Z.mod_1_r. Qed.
Lemma sync_row_time item row : timed item → sync_row Date_parse item = Some row →
  ∃ ms, syncedAtMs row = of_Z ms.
Proof.
  intros Ht Hr. unfold sync_row in Hr. destruct (gitopsAppHref _); [|done].
  injection Hr as <-. cbn. unfold timed, sync_time in Ht |- *.
  destruct (js_eqb (str (field item "lastSyncTime")) ""); [done|].
  destruct (date_value (str (field item "lastSyncTime"))) as [E|(ms & E & _)]; rewrite E in *;
    [done|by eexists].
Qed.

(** The recent-syncs card ranks exactly the applications with a readable sync
    time, newest first, and counts the others apart: an application that never
    synced is neither first nor dated the epoch. *)
Theorem gitopsRecentSyncsView_newest_first data entries limit :
  envelopeList data "applications" = Some entries →
  Forall (λ item, no_surrogates (str (field item "id"))) (app_items entries) →
  ∃ v rows, gitopsRecentSyncsView lc Date_parse data limit = Some v ∧
    mapM (sync_row Date_parse) (filter timed (app_items entries)) = Some rows ∧
    ranked sync_rank (Z.max 0 limit) rows (sync_rows v) ∧
    sync_total v = length (app_items entries) ∧
    (untimed v + length rows)%nat = sync_total v ∧
    (sync_total v + sync_unreadableRows v)%nat = length entries.
Proof.
  intros He Hid.
  destruct (mapM (sync_row Date_parse) (filter timed (app_items entries))) as [rows|] eqn:Em.
  2:{ exfalso. apply mapM_None_1, Exists_exists in Em as (item & [_ Hi]%list_elem_of_filter & Hn).
      rewrite Forall_forall in Hid. specialize (Hid item Hi). unfold sync_row, gitopsAppHref in Hn.
      destruct (path_of_total GITOPS_APPLICATIONS_PAGE_HREF [str (field item "id")]) as [h Hh];
        [by repeat constructor|]. by rewrite Hh in Hn. }
  destruct (sync_fold_spec entries {| sl_total := 0; sl_untimed := 0; sl_unreadable := 0; sl_rows := [] |}
    rows Em) as (st & Hst & H1 & H2 & H3 & H4).
  cbn [sl_total sl_untimed sl_unreadable sl_rows app plus] in *.
  unfold gitopsRecentSyncsView. rewrite He, Hst. cbn [mbind option_bind].
  eexists _, rows. split; [done|]. cbn [sync_rows sync_total untimed sync_unreadableRows].
  rewrite H1. split_and!; try done; try lia.
  apply slice_ranked; [apply sync_rank_comparator| |lia].
  assert (Hms : ∀ r, r ∈ rows → ∃ ms, syncedAtMs r = of_Z ms).
  { intros r Hr. apply mapM_Some_1 in Em. eapply Forall2_elem_r in Em as (item & Hi & E); [|exact Hr].
    apply list_elem_of_filter in Hi as [Ht _]. by eapply sync_row_time. }
  intros a b (x & Ea)%Hms (y & Eb)%Hms. unfold sync_order, sync_rank. rewrite Ea, Eb.
  unfold of_Z. by rewrite by_difference_exact by apply int_double.
Qed.
End RecentSyncs.

(** Both GitOps cards build their links inside the loop, and a link throws on a
    lone surrogate: one such id takes the whole card down, though the module
    promises that no payload does. *)
Theorem gitops_view_throws lc limit : ∃ data entries,
  envelopeList data "applications" = Some entries ∧ length entries = 1%nat ∧
  gitopsAppHealthView lc data limit = None.
Proof.
  exists (JObj [("applications", JArr [JObj [("name", JStr "api"); ("id", JStr (JS [55296%N]));
    ("healthStatus", JStr "degraded")]])]%js). eexists. split; [reflexivity|]. split; reflexivity.
Qed.

(** ** Witnesses *)

Definition demo_app (name sync health at_ : jstring) : jsval :=
  JObj [("name", JStr name); ("id", JStr ("argo:ns:" +++ name)); ("tool", JStr "argocd");
        ("syncStatus", JStr sync); ("healthStatus", JStr health); ("lastSyncTime", JStr at_)]%js.
Definition demo_apps : list jsval :=
  [demo_app "a" "synced" "healthy" "t1"; demo_app "b" "failed" "degraded" "t2";
   demo_app "c" "stalled" "healthy" ""; JNull; demo_app "d" "odd" "healthy" "t3"]%js.
Definition demo_envelope : jsval := JObj [("applications"%js, JArr demo_apps)].
Lemma demo_ids : Forall (λ item, no_surrogates (str (field item "id"))) (app_items demo_apps).
Proof. apply (bool_decide_unpack _). vm_compute. exact I. Qed.
Lemma gitopsAppHealthView_partitions_witness :
  ∃ v, gitopsAppHealthView js_compare demo_envelope 1 = Some v ∧
    app_name <$> gah_rows v = ["b"%js] ∧ attention v = 2%nat ∧
    sum_list (gah_counts v <$> APP_HEALTH_BUCKETS) = gah_total v.
Proof.
  destruct (gitopsAppHealthView_partitions js_compare demo_envelope demo_apps 1)
    as (v & rows & Hv & _ & _ & _ & _ & Hsum & _); [apply _|reflexivity|exact demo_ids|].
  exists v. split; [exact Hv|]. split; [|split; [|exact Hsum]].
  - vm_compute in Hv. injection Hv as <-. reflexivity.
  - vm_compute in Hv. injection Hv as <-. reflexivity.
Defined.

Definition demo_clock (s : jstring) : number :=
  if js_eqb s "t1" then of_Z 1000 else if js_eqb s "t2" then of_Z 3000 else NaN.
#[export] Instance demo_clock_DateParse : DateParse demo_clock.
Proof.
  split. intros s. unfold demo_clock.
  destruct (js_eqb s "t1"); [right; exists 1000; split; [done|lia]|].
  destruct (js_eqb s "t2"); [right; exists 3000; split; [done|lia]|by left].
Qed.
Lemma gitopsRecentSyncsView_newest_first_witness :
  ∃ v, gitopsRecentSyncsView js_compare demo_clock demo_envelope 5 = Some v ∧
    sync_name <$> sync_rows v = ["b"; "a"]%js ∧ (sync_total v + sync_unreadableRows v)%nat = 5%nat.
Proof.
  destruct (gitopsRecentSyncsView_newest_first js_compare demo_clock demo_envelope demo_apps 5)
    as (v & rows & Hv & _ & _ & _ & _ & Hsum); [reflexivity|exact demo_ids|].
  exists v. split; [exact Hv|]. split; [|exact Hsum]. vm_compute in Hv. injection Hv as <-. reflexivity.
Defined.

Definition demo_mesh (strict weak : nat) : list jsval :=
  replicate strict (JObj [("workload", JStr "w"); ("state", JStr "active")]%js) ++
  replicate weak (JObj [("workload", JStr "w"); ("state", JStr "mixed")]%js).
Lemma mtlsCoverageView_honest_witness :
  let v := mtlsCoverageView js_compare (JObj [("workloads"%js, JArr (demo_mesh 299 1))]) 4 in
  mtls_percent v = Some (of_Z 99) ∧ sum_list (mtls_counts v <$> MTLS_POSTURES) = mtls_total v.
Proof.
  split; [vm_compute; reflexivity|].
  apply (mtlsCoverageView_honest js_compare (JObj [("workloads"%js, JArr (demo_mesh 299 1))])
    (demo_mesh 299 1) 4); [apply _|reflexivity|vm_compute; reflexivity].
Defined.
