(* ===== verification/Workloads.v ===== *)
(** * Pods, autoscalers, budgets and controllers: pod-health.ts, autoscaling.ts
    and workload-health.ts

    One classification of a pod serves two cards, so the cards cannot disagree
    about it; what they count and what they list is proved against that
    classification. The autoscaler card decides from the worst metric whether
    an autoscaler at its ceiling is short, and the controller roll-up folds the
    counts of the kinds an account may list with the lists that landed. *)

From stdpp Require Import base list strings gmap sorting.
From Stdlib Require Import ZArith QArith Lia Sorted.
From S2P Require Import Prelude JsValue Narrow Uri Pressure Severity SyncState.

Open Scope Z_scope.

(** ** Definitions *)

(** [Math.trunc] *)
Definition num_trunc (x : number) : number :=
  match x with Fin q => of_Z (Z.quot (Qnum q) (Zpos (Qden q))) | _ => x end.

(** *** Pods *)

Inductive PodState :=
  pod_running | pod_succeeded | pod_failed | crash_looping | unschedulable | pod_pending | pod_unknown.
#[export] Instance PodState_eq_dec : EqDecision PodState.
Proof. solve_decision. Defined.
Definition POD_STATES : list PodState :=
  [pod_running; pod_succeeded; pod_failed; crash_looping; unschedulable; pod_pending; pod_unknown].
Definition CRASH_LOOP_REASON : jstring := "CrashLoopBackOff"%js.

Record PodHealth := {
  pod_name : jstring;
  pod_namespace : jstring;
  pod_state : PodState;
  restarts : number;
  reason : jstring;
  ageMs : option number
}.
(** [{ ...base, state }] *)
Definition with_pod_state (p : PodHealth) (s : PodState) : PodHealth :=
  {| pod_name := pod_name p; pod_namespace := pod_namespace p; pod_state := s;
     restarts := restarts p; reason := reason p; ageMs := ageMs p |}.

Definition containerStatuses (status : list (jstring * jsval)) : list jsval :=
  listOr (field status "containerStatuses") ++ listOr (field status "initContainerStatuses").
(** One turn of the loop over the container statuses. *)
Definition restart_step (total : number) (cs : jsval) : number :=
  match field_opt (obj cs) "restartCount" with
  | JNum count => if isFinite count && num_ltb (of_Z 0) count then num_add total (num_trunc count) else total
  | _ => total
  end.
Definition restartsOf (statuses : list jsval) : number := foldl restart_step (of_Z 0) statuses.
Definition waiting_reason (cs : jsval) : jstring :=
  str (field_opt (obj (field_opt (obj (field_opt (obj cs) "state")) "waiting")) "reason").
Fixpoint waitingReasonOf (statuses : list jsval) : jstring :=
  match statuses with
  | [] => ""%js
  | cs :: rest => if js_eqb (waiting_reason cs) ""%js then waitingReasonOf rest else waiting_reason cs
  end.
Fixpoint schedule_scan (conditions : list jsval) : bool * jstring :=
  match conditions with
  | [] => (false, ""%js)
  | c :: rest =>
      let o := obj c in
      if negb (js_eqb (str (field_opt o "type")) "PodScheduled"%js) then schedule_scan rest
      else if negb (js_eqb (str (field_opt o "status")) "False"%js) then (false, ""%js)
      else (true, str (field_opt o "reason"))
  end.
Definition scheduleRefusalOf (status : list (jstring * jsval)) : bool * jstring :=
  schedule_scan (listOr (field status "conditions")).

Definition UNREADABLE : PodHealth :=
  {| pod_name := ""%js; pod_namespace := ""%js; pod_state := pod_unknown; restarts := of_Z 0;
     reason := ""%js; ageMs := None |}.

(** [obj(v) ?? {}] *)
Definition obj_or_empty (v : jsval) : list (jstring * jsval) := default [] (obj v).

Section Pods.
Context (lc : jstring → jstring → comparison) (Date_parse : jstring → number).

Definition classifyPod (value : jsval) (now : number) : PodHealth :=
  match obj value with
  | None => UNREADABLE
  | Some o =>
      let meta := obj_or_empty (field o "metadata") in
      let status := obj_or_empty (field o "status") in
      let statuses := containerStatuses status in
      let waiting := waitingReasonOf statuses in
      let schedule := scheduleRefusalOf status in
      let phase := str (field status "phase") in
      let created := Date_parse (str (field meta "creationTimestamp")) in
      let base := {| pod_name := str (field meta "name"); pod_namespace := str (field meta "namespace");
        pod_state := pod_unknown; restarts := restartsOf statuses;
        reason := if negb (js_eqb waiting ""%js) then waiting else snd schedule;
        ageMs := match created with NaN => None | _ => Some (num_sub now created) end |} in
      if js_eqb phase "Succeeded"%js then with_pod_state base pod_succeeded
      else if js_eqb phase "Failed"%js then with_pod_state base pod_failed
      else if js_eqb waiting CRASH_LOOP_REASON then with_pod_state base crash_looping
      else if js_eqb phase "Pending"%js then
        with_pod_state base (if fst schedule then unschedulable else pod_pending)
      else if js_eqb phase "Running"%js then with_pod_state base pod_running
      else base
  end.
Definition classifyPods (page : option ResourceListPage) (now : number) : list PodHealth :=
  (λ item, classifyPod item now) <$>
    default [] (list_ (match page with Some p => items p | None => JUndef end)).

(** Namespace, then name; shared by every ranking below. *)
Definition byIdentity (na a nb b : jstring) : comparison := lc na nb <||> lc a b.
Definition pod_identity (a b : PodHealth) : comparison :=
  byIdentity (pod_namespace a) (pod_name a) (pod_namespace b) (pod_name b).

Definition is_state (s : PodState) (p : PodHealth) : bool := bool_decide (pod_state p = s).
Definition restart_order (a b : PodHealth) : comparison :=
  (num_of_bool (is_state crash_looping b) ?= num_of_bool (is_state crash_looping a)) <||>
  (if negb (num_eqb (restarts a) (restarts b)) then by_difference (restarts b) (restarts a)
   else pod_identity a b).
Definition rankByRestarts (pods : list PodHealth) : list PodHealth := js_sort restart_order pods.

(** [a !== b] on [number | null] *)
Definition age_differs (a b : option number) : bool :=
  match a, b with
  | None, None => false
  | Some x, Some y => negb (num_eqb x y)
  | _, _ => true
  end.
Definition pending_order (a b : PodHealth) : comparison :=
  (num_of_bool (is_state unschedulable b) ?= num_of_bool (is_state unschedulable a)) <||>
  (if age_differs (ageMs a) (ageMs b) then
     match ageMs a, ageMs b with
     | None, _ => Gt
     | _, None => Lt
     | Some x, Some y => by_difference y x
     end
   else pod_identity a b).
Definition rankPending (pods : list PodHealth) : list PodHealth := js_sort pending_order pods.

Record PendingPodsView := {
  pending_cover : PageCoverage;
  pending_pods : list PodHealth;
  pv_unschedulable : nat;
  pv_pending : nat
}.
Definition state_count (s : PodState) (pods : list PodHealth) : nat :=
  length (filter (λ p, pod_state p = s) pods).
Definition waiting_pods (pods : list PodHealth) : list PodHealth :=
  filter (λ p, pod_state p = pod_pending ∨ pod_state p = unschedulable) pods.
Definition pendingPodsView (page : option ResourceListPage) (limit : Z) (now : number) : PendingPodsView :=
  let pods := classifyPods page now in
  let waiting := waiting_pods pods in
  {| pending_cover := coverage page (num_of_nat (length pods));
     pending_pods := slice0 (rankPending waiting) limit;
     pv_unschedulable := state_count unschedulable waiting;
     pv_pending := state_count pod_pending waiting |}.

Record PodRestartsView := {
  restarts_cover : PageCoverage;
  restart_pods : list PodHealth;
  crashLooping : nat;
  restarting : nat;
  totalRestarts : number
}.
Definition has_restarts (p : PodHealth) : Prop := num_ltb (of_Z 0) (restarts p) = true.
Definition notable_pods (pods : list PodHealth) : list PodHealth :=
  filter (λ p, pod_state p = crash_looping ∨ has_restarts p) pods.
Definition podRestartsView (page : option ResourceListPage) (limit : Z) (now : number) : PodRestartsView :=
  let pods := classifyPods page now in
  {| restarts_cover := coverage page (num_of_nat (length pods));
     restart_pods := slice0 (rankByRestarts (notable_pods pods)) limit;
     crashLooping := state_count crash_looping pods;
     restarting := length (filter (λ p, pod_state p ≠ crash_looping ∧ has_restarts p) pods);
     totalRestarts := foldl (λ sum p, num_add sum (restarts p)) (of_Z 0) pods |}.
End Pods.

(** *** Autoscalers *)

Definition HPA_LIST_HREF : jstring := "/scaling/hpas"%js.
Definition PDB_LIST_HREF : jstring := "/scaling/pdbs"%js.
Definition hpaHref (namespace name : jstring) : option jstring := path_of HPA_LIST_HREF [namespace; name].
Definition pdbHref (namespace name : jstring) : option jstring := path_of PDB_LIST_HREF [namespace; name].

Definition itemsOf (page : option ResourceListPage) : list jsval :=
  default [] (list_ (match page with Some p => items p | None => JUndef end)).

Inductive HPADemand := demand_above | demand_met | demand_unknown.
Inductive HPAState := saturated | at_ceiling | scaling | steady | hpa_unknown.
#[export] Instance HPAState_eq_dec : EqDecision HPAState.
Proof. solve_decision. Defined.
Record HPAStatus := {
  hpa_name : jstring;
  hpa_namespace : jstring;
  hpa_target : jstring;
  current : option number;
  desired : option number;
  hpa_min : option number;
  hpa_max : option number;
  atCeiling : bool;
  demand : HPADemand;
  utilization : option number;
  targetUtilization : option number;
  hpa_state : HPAState
}.
Definition with_hpa_state (h : HPAStatus) (s : HPAState) : HPAStatus :=
  {| hpa_name := hpa_name h; hpa_namespace := hpa_namespace h; hpa_target := hpa_target h;
     current := current h; desired := desired h; hpa_min := hpa_min h; hpa_max := hpa_max h;
     atCeiling := atCeiling h; demand := demand h; utilization := utilization h;
     targetUtilization := targetUtilization h; hpa_state := s |}.
Definition UNREADABLE_HPA : HPAStatus :=
  {| hpa_name := ""%js; hpa_namespace := ""%js; hpa_target := ""%js; current := None; desired := None;
     hpa_min := None; hpa_max := None; atCeiling := false; demand := demand_unknown;
     utilization := None; targetUtilization := None; hpa_state := hpa_unknown |}.

Definition metricKey (entry : jsval) : jstring :=
  match obj entry with
  | None => ""%js
  | Some o =>
      let type := str (field o "type") in
      if js_eqb type "Resource"%js then
        let name := str (field_opt (obj (field o "resource")) "name") in
        if js_eqb name ""%js then ""%js else ("resource:" +++ name)%js
      else if js_eqb type "ContainerResource"%js then
        let cr := obj (field o "containerResource") in
        let name := str (field_opt cr "name") in
        let container := str (field_opt cr "container") in
        if js_eqb name ""%js then ""%js else ("containerResource:" +++ name +++ ":" +++ container)%js
      else ""%js
  end.
Definition utilizationOf (entry : jsval) (f : jstring) : option number :=
  o ← obj entry;
  let inner := match obj (field o "resource") with
    | Some r => Some r
    | None => obj (field o "containerResource")
    end in
  num (field_opt (obj (field_opt inner f)) "averageUtilization").

Record MetricPair := { m_current : number; m_target : number }.
(** The two loops of [worstMetric], one turn each. *)
Definition target_step (targets : list (jstring * number)) (m : jsval) : list (jstring * number) :=
  let key := metricKey m in
  match utilizationOf m "target" with
  | Some target =>
      if negb (js_eqb key ""%js) && num_ltb (of_Z 0) target then assoc_set key target targets else targets
  | None => targets
  end.
Definition metric_targets (value : list (jstring * jsval)) : list (jstring * number) :=
  foldl target_step [] (listOr (field_opt (obj (field value "spec")) "metrics")).
Definition ratio (p : MetricPair) : number := num_quot (m_current p) (m_target p).
Definition worst_step (targets : list (jstring * number)) (worst : option MetricPair) (m : jsval)
    : option MetricPair :=
  match assoc (metricKey m) targets, utilizationOf m "current" with
  | Some target, Some cur =>
      let p := {| m_current := cur; m_target := target |} in
      match worst with
      | None => Some p
      | Some w => if num_ltb (ratio w) (ratio p) then Some p else worst
      end
  | _, _ => worst
  end.
Definition current_metrics (value : list (jstring * jsval)) : list jsval :=
  listOr (field_opt (obj (field value "status")) "currentMetrics").
Definition worstMetric (value : list (jstring * jsval)) : option MetricPair :=
  let targets := metric_targets value in
  match targets with
  | [] => None
  | _ => foldl (worst_step targets) None (current_metrics value)
  end.

Definition classifyHPA (value : jsval) : HPAStatus :=
  match obj value with
  | None => UNREADABLE_HPA
  | Some o =>
      let meta := obj_or_empty (field o "metadata") in
      let spec := obj_or_empty (field o "spec") in
      let status := obj_or_empty (field o "status") in
      let ref := obj_or_empty (field spec "scaleTargetRef") in
      let cur := num (field status "currentReplicas") in
      let desiredRaw := num (field status "desiredReplicas") in
      let des := match desiredRaw with Some d => Some d | None => cur end in
      let max := num (field spec "maxReplicas") in
      let worst := worstMetric o in
      let dem := match worst with
        | None => demand_unknown
        | Some w => if num_ltb (m_target w) (m_current w) then demand_above else demand_met
        end in
      let refKind := str (field ref "kind") in
      let refName := str (field ref "name") in
      let base := {| hpa_name := str (field meta "name"); hpa_namespace := str (field meta "namespace");
        hpa_target := if negb (js_eqb refKind ""%js) && negb (js_eqb refName ""%js)
                      then (refKind +++ "/" +++ refName)%js else ""%js;
        current := cur; desired := des; hpa_min := num (field spec "minReplicas"); hpa_max := max;
        atCeiling := match max, des with
          | Some m, Some d => num_ltb (of_Z 0) m && num_leb m d
          | _, _ => false
          end;
        demand := dem;
        utilization := m_current <$> worst; targetUtilization := m_target <$> worst;
        hpa_state := hpa_unknown |} in
      match cur, max with
      | Some c, Some _ =>
          if atCeiling base then
            with_hpa_state base (match dem with demand_above => saturated | _ => at_ceiling end)
          else match des with
            | Some d => if negb (num_eqb d c) then with_hpa_state base scaling else with_hpa_state base steady
            | None => with_hpa_state base steady
            end
      | _, _ => base
      end
  end.

Definition HPA_RANK (s : HPAState) : Z :=
  match s with saturated => 0 | at_ceiling => 1 | scaling => 2 | hpa_unknown => 3 | steady => 4 end.

(** *** Disruption budgets *)

Inductive PDBState := blocked | no_pods | pdb_healthy | pdb_unknown.
#[export] Instance PDBState_eq_dec : EqDecision PDBState.
Proof. solve_decision. Defined.
Record PDBStatus := {
  pdb_name : jstring;
  pdb_namespace : jstring;
  disruptionsAllowed : option number;
  currentHealthy : option number;
  desiredHealthy : option number;
  expectedPods : option number;
  pdb_state : PDBState
}.
Definition with_pdb_state (p : PDBStatus) (s : PDBState) : PDBStatus :=
  {| pdb_name := pdb_name p; pdb_namespace := pdb_namespace p; disruptionsAllowed := disruptionsAllowed p;
     currentHealthy := currentHealthy p; desiredHealthy := desiredHealthy p;
     expectedPods := expectedPods p; pdb_state := s |}.
Definition UNREADABLE_PDB : PDBStatus :=
  {| pdb_name := ""%js; pdb_namespace := ""%js; disruptionsAllowed := None; currentHealthy := None;
     desiredHealthy := None; expectedPods := None; pdb_state := pdb_unknown |}.
Definition classifyPDB (value : jsval) : PDBStatus :=
  match obj value with
  | None => UNREADABLE_PDB
  | Some o =>
      let meta := obj_or_empty (field o "metadata") in
      let status := obj_or_empty (field o "status") in
      let allowed := match num (field status "disruptionsAllowed") with
        | Some a => Some a
        | None => num (field status "PodDisruptionsAllowed")
        end in
      let expected := num (field status "expectedPods") in
      let base := {| pdb_name := str (field meta "name"); pdb_namespace := str (field meta "namespace");
        disruptionsAllowed := allowed; currentHealthy := num (field status "currentHealthy");
        desiredHealthy := num (field status "desiredHealthy"); expectedPods := expected;
        pdb_state := pdb_unknown |} in
      match allowed with
      | None => base
      | Some a =>
          if num_ltb (of_Z 0) a then with_pdb_state base pdb_healthy
          else with_pdb_state base
            (match expected with Some e => if num_eqb e (of_Z 0) then no_pods else blocked | None => blocked end)
      end
  end.
Definition PDB_RANK (s : PDBState) : Z :=
  match s with blocked => 0 | pdb_unknown => 1 | no_pods => 2 | pdb_healthy => 3 end.

Section Scaling.
Context (lc : jstring → jstring → comparison).

Definition hpa_order (a b : HPAStatus) : comparison :=
  (HPA_RANK (hpa_state a) ?= HPA_RANK (hpa_state b)) <||>
  byIdentity lc (hpa_namespace a) (hpa_name a) (hpa_namespace b) (hpa_name b).
Definition rankHPAs (hpas : list HPAStatus) : list HPAStatus := js_sort hpa_order hpas.
Record HPAStatusView := {
  hpa_cover : PageCoverage;
  hpas : list HPAStatus;
  hv_saturated : nat;
  hv_atCeiling : nat;
  hv_unknown : nat
}.
Definition hpa_count (s : HPAState) (l : list HPAStatus) : nat := length (filter (λ h, hpa_state h = s) l).
Definition hpaStatusView (page : option ResourceListPage) (limit : Z) : HPAStatusView :=
  let all := classifyHPA <$> itemsOf page in
  {| hpa_cover := coverage page (num_of_nat (length all));
     hpas := slice0 (rankHPAs all) limit;
     hv_saturated := hpa_count saturated all;
     hv_atCeiling := hpa_count at_ceiling all;
     hv_unknown := hpa_count hpa_unknown all |}.

Definition pdb_order (a b : PDBStatus) : comparison :=
  (PDB_RANK (pdb_state a) ?= PDB_RANK (pdb_state b)) <||>
  byIdentity lc (pdb_namespace a) (pdb_name a) (pdb_namespace b) (pdb_name b).
Definition rankPDBs (pdbs : list PDBStatus) : list PDBStatus := js_sort pdb_order pdbs.
Record PDBRiskView := {
  pdb_cover : PageCoverage;
  pdbs : list PDBStatus;
  pv_blocked : nat;
  pv_noPods : nat;
  pv_unknown : nat;
  pv_healthy : nat
}.
Definition pdb_count (s : PDBState) (l : list PDBStatus) : nat := length (filter (λ p, pdb_state p = s) l).
Definition pdbRiskView (page : option ResourceListPage) (limit : Z) : PDBRiskView :=
  let all := classifyPDB <$> itemsOf page in
  let notable := filter (λ p, pdb_state p ≠ pdb_healthy) all in
  {| pdb_cover := coverage page (num_of_nat (length all));
     pdbs := slice0 (rankPDBs notable) limit;
     pv_blocked := pdb_count blocked all;
     pv_noPods := pdb_count no_pods all;
     pv_unknown := pdb_count pdb_unknown all;
     pv_healthy := pdb_count pdb_healthy all |}.
End Scaling.

(** *** Controllers *)

Inductive WorkloadKind := deployments | statefulsets | daemonsets.
#[export] Instance WorkloadKind_eq_dec : EqDecision WorkloadKind.
Proof. solve_decision. Defined.
Definition WORKLOAD_KINDS : list WorkloadKind := [deployments; statefulsets; daemonsets].
(** The string the constructor stands for, as a property name. *)
Definition kind_name (k : WorkloadKind) : jstring :=
  match k with deployments => "deployments"%js | statefulsets => "statefulsets"%js
  | daemonsets => "daemonsets"%js end.
Definition WORKLOAD_KIND_LABELS (k : WorkloadKind) : jstring :=
  match k with deployments => "Deployments"%js | statefulsets => "StatefulSets"%js
  | daemonsets => "DaemonSets"%js end.
Definition WORKLOAD_KIND_HREFS (k : WorkloadKind) : jstring :=
  match k with deployments => "/workloads/deployments"%js | statefulsets => "/workloads/statefulsets"%js
  | daemonsets => "/workloads/daemonsets"%js end.

Inductive WorkloadKindVisibility := vis_unknown | vis_pending | vis_counted.
#[export] Instance WorkloadKindVisibility_eq_dec : EqDecision WorkloadKindVisibility.
Proof. solve_decision. Defined.
Record WorkloadKindHealth := {
  wk_kind : WorkloadKind;
  visibility : WorkloadKindVisibility;
  wk_total : number;
  wk_counted : nat;
  wk_ready : nat;
  wk_degraded : nat;
  wk_truncated : bool
}.
Record WorkloadHealthRollUp := {
  kinds : list WorkloadKindHealth;
  roll_ready : nat;
  roll_degraded : nat;
  roll_total : number;
  unknownKinds : list WorkloadKind;
  roll_truncated : bool;
  roll_empty : bool
}.

Definition workloadReady (kind : WorkloadKind) (value : jsval) : bool :=
  match obj value with
  | None => false
  | Some o =>
      let status := obj_or_empty (field o "status") in
      match kind with
      | daemonsets =>
          let want := numOr (field status "desiredNumberScheduled") (of_Z 0) in
          if num_leb want (of_Z 0) then true
          else num_leb want (numOr (field status "numberReady") (of_Z 0))
      | _ =>
          let spec := obj_or_empty (field o "spec") in
          let want := numOr (field spec "replicas") (of_Z 1) in
          if num_leb want (of_Z 0) then true
          else num_leb want (numOr (field status "readyReplicas") (of_Z 0))
      end
  end.
Definition EMPTY_KIND (kind : WorkloadKind) : WorkloadKindHealth :=
  {| wk_kind := kind; visibility := vis_unknown; wk_total := of_Z 0; wk_counted := 0; wk_ready := 0;
     wk_degraded := 0; wk_truncated := false |}.

(** The callback of [WORKLOAD_KINDS.map]; [lists] is read by kind. *)
Definition kind_row (countMap : option (list (jstring * jsval))) (lists : WorkloadKind → jsval)
    (kind : WorkloadKind) : WorkloadKindHealth :=
  match num (field_opt countMap (kind_name kind)) with
  | None => EMPTY_KIND kind
  | Some raw =>
      let total := num_max (of_Z 0) (num_trunc raw) in
      match list_ (lists kind) with
      | None => {| wk_kind := kind; visibility := vis_pending; wk_total := total; wk_counted := 0;
                   wk_ready := 0; wk_degraded := 0; wk_truncated := false |}
      | Some items =>
          let ready := foldl (λ n item, if workloadReady kind item then S n else n) 0%nat items in
          {| wk_kind := kind; visibility := vis_counted; wk_total := total;
             wk_counted := length items; wk_ready := ready; wk_degraded := length items - ready;
             wk_truncated := num_ltb (num_of_nat (length items)) total |}
      end
  end.
Definition rollUpWorkloadHealth (counts : jsval) (lists : WorkloadKind → jsval) : WorkloadHealthRollUp :=
  let kinds := kind_row (obj counts) lists <$> WORKLOAD_KINDS in
  let cnt := filter (λ k, visibility k = vis_counted) kinds in
  let visible := filter (λ k, visibility k ≠ vis_unknown) kinds in
  {| kinds := kinds;
     roll_ready := foldl (λ s k, (s + wk_ready k)%nat) 0%nat cnt;
     roll_degraded := foldl (λ s k, (s + wk_degraded k)%nat) 0%nat cnt;
     roll_total := foldl (λ s k, num_add s (wk_total k)) (of_Z 0) visible;
     unknownKinds := wk_kind <$> filter (λ k, visibility k = vis_unknown) kinds;
     roll_truncated := existsb wk_truncated kinds;
     roll_empty := negb (bool_decide (visible = [])) &&
                   forallb (λ k, num_eqb (wk_total k) (of_Z 0)) visible |}.

(** ** The order of the numbers that can be ranked *)

(** All of them, NaN first. *)
Definition num_rank (x y : number) : comparison :=
  match num_compare x y with
  | Some c => c
  | None => match x, y with NaN, NaN => Eq | NaN, _ => Lt | _, _ => Gt end
  end.

#[export] Instance num_rank_comparator : Comparator num_rank.
Proof.
  split.
  - intros [|[]|a] [|[]|b]; try done. cbn. by rewrite Qcompare_antisym.
  - intros [|[]|a] [|[]|b] [|[]|c]; try done. cbn. apply cmp_trans.
Qed.

Lemma num_rank_refl x : num_rank x x = Eq.
Proof. apply (cmp_refl num_rank). Qed.

(** The guarded subtraction of a sort callback agrees with it: two infinities
    of one sign are equal before they are subtracted. *)
Lemma guarded_difference x y : num_double x = true → num_double y = true → x ≠ NaN → y ≠ NaN →
  (if negb (num_eqb x y) then by_difference x y else Eq) = num_rank x y.
Proof.
  intros Hx Hy Nx Ny. destruct x as [|[]|a], y as [|[]|b]; try done.
  unfold num_rank, num_eqb. cbn [num_compare]. rewrite by_difference_exact by done.
  by destruct (a ?= b)%Q.
Qed.
Lemma num_eqb_rank x y : x ≠ NaN → y ≠ NaN → num_eqb x y = true ↔ num_rank x y = Eq.
Proof.
  intros Nx Ny. destruct x as [|[]|a], y as [|[]|b]; try done.
  unfold num_rank, num_eqb. cbn [num_compare]. by destruct (a ?= b)%Q.
Qed.
Lemma num_ltb_rank x y : x ≠ NaN → y ≠ NaN → num_ltb x y = true ↔ num_rank x y = Lt.
Proof.
  intros Nx Ny. destruct x as [|[]|a], y as [|[]|b]; try done.
  unfold num_rank, num_ltb. cbn [num_compare]. by destruct (a ?= b)%Q.
Qed.

(** ** Pods *)

(** A restart total: a double, and never NaN or negative. *)
Definition restart_total (n : number) : Prop := num_double n = true ∧ n ≠ NaN ∧ num_sign n ≠ Lt.
Lemma double_grid_add a b : double_grid a = true → double_grid b = true → double_grid (a + b) = true.
Proof.
  intros [k E]%double_grid_spec [l F]%double_grid_spec. apply double_grid_spec. exists (k + l).
  rewrite E, F. unfold Qeq, Qplus. cbn [Qnum Qden]. rewrite !Pos2Z.inj_mul. ring.
Qed.
Lemma restart_total_add x y : restart_total x → restart_total y → restart_total (num_add x y).
Proof.
  intros (Dx & Nx & Px) (Dy & Ny & Py). destruct x as [|[]|a], y as [|[]|b]; try done.
  split_and!; [apply fl_double|apply fl_not_NaN|]. cbn [num_add num_sign] in *.
  rewrite fl_sign by (by apply double_grid_add). rewrite <- Qge_alt in *. unfold Qle in *.
  cbn in *. nia.
Qed.
Lemma restart_total_trunc n : isFinite n = true → num_ltb (of_Z 0) n = true →
  ∃ z, num_trunc n = of_Z z ∧ 0 <= z.
Proof.
  destruct n as [| |q]; try done. intros _ H. eexists. split; [done|].
  apply Z.quot_pos; [|lia]. unfold num_ltb, of_Z in H. cbn [num_compare] in H.
  destruct (_ ?= _)%Q eqn:E in H; try done. apply Qlt_alt in E. unfold Qlt in E. cbn in E. lia.
Qed.
Lemma restart_total_int z : 0 <= z → restart_total (of_Z z).
Proof.
  intros Hz. split_and!; [|done|].
  - unfold of_Z. cbn [num_double]. unfold double_grid. cbn [Qden inject_Z]. by rewrite Z.mod_1_r.
  - unfold of_Z. cbn [num_sign]. apply Qge_alt. unfold Qle. cbn. lia.
Qed.

(** How often a container restarted, read off its status. *)
Definition restart_count (cs : jsval) : Z :=
  match field_opt (obj cs) "restartCount" with
  | JNum (Fin q) => Z.max 0 (Z.quot (Qnum q) (Zpos (Qden q)))
  | _ => 0
  end.
Definition item_statuses (item : jsval) : list jsval :=
  containerStatuses (obj_or_empty (field_opt (obj item) "status")).
Definition Zsum (l : list Z) : Z := foldr Z.add 0 l.
Definition item_restarts (item : jsval) : Z := Zsum (restart_count <$> item_statuses item).

Lemma Zsum_app l k : Zsum (l ++ k) = Zsum l + Zsum k.
Proof. induction l as [|z l IH]; cbn; [done|]. unfold Zsum in *. cbn. lia. Qed.
Lemma Zsum_nonneg l : Forall (λ z, 0 <= z) l → 0 <= Zsum l.
Proof. induction 1; unfold Zsum in *; cbn; lia. Qed.
Lemma restart_count_nonneg cs : 0 <= restart_count cs.
Proof. unfold restart_count. repeat case_match; lia. Qed.
Lemma item_restarts_nonneg item : 0 <= item_restarts item.
Proof. apply Zsum_nonneg, Forall_fmap, Forall_true. intros. apply restart_count_nonneg. Qed.

(** Adding whole numbers below 2^53 is exact. *)
Lemma num_add_int a b : 0 <= a → 0 <= b → a + b < 2 ^ 53 → num_add (of_Z a) (of_Z b) = of_Z (a + b).
Proof.
  intros. cbn. rewrite <- fl_int by lia. f_equal. unfold inject_Z, Qplus. cbn.
  by rewrite !Z.mul_1_r.
Qed.
Lemma fold_num_add {A} (f : A → number) (g : A → Z) l :
  (∀ a, a ∈ l → f a = of_Z (g a) ∧ 0 <= g a) → Zsum (g <$> l) < 2 ^ 53 →
  foldl (λ s a, num_add s (f a)) (of_Z 0) l = of_Z (Zsum (g <$> l)).
Proof.
  induction l as [|a l IH] using rev_ind; intros Hf Hs; [done|].
  rewrite foldl_app, fmap_app, Zsum_app. rewrite fmap_app, Zsum_app in Hs.
  unfold Zsum at 2 in Hs. unfold Zsum at 2. cbn in *.
  destruct (Hf a) as [Ea Ha]; [set_solver|].
  assert (0 <= Zsum (g <$> l)).
  { apply Zsum_nonneg, Forall_fmap, Forall_forall. intros x Hx. apply Hf. set_solver. }
  rewrite IH by (try lia; intros; apply Hf; set_solver). rewrite Ea, num_add_int by lia. f_equal. lia.
Qed.

Lemma restart_step_count n cs : ∃ z, 0 <= z ∧ restart_count cs = z ∧
  (restart_step n cs = num_add n (of_Z z) ∨ z = 0 ∧ restart_step n cs = n).
Proof.
  eexists. split; [apply restart_count_nonneg|]. split; [done|].
  unfold restart_step, restart_count. destruct (field_opt _ _) as [| | |[| |q]| | |]; try by right.
  cbn [isFinite andb]. destruct (num_ltb _ _) eqn:E.
  - left. cbn [num_trunc]. f_equal. apply restart_total_trunc in E as (z & Ez & Hz); [|done].
    cbn [num_trunc] in Ez. injection Ez as ->. by rewrite Z.max_r.
  - right. split; [|done]. unfold num_ltb, of_Z in E. cbn [num_compare] in E.
    apply Z.max_l. rewrite <- (Z.opp_involutive (Qnum q)), Z.quot_opp_l by lia.
    assert (0 <= - Qnum q); [|pose proof (Z.quot_pos (- Qnum q) (Zpos (Qden q))); lia].
    destruct (Qcompare_spec (inject_Z 0) q) as [H|H|H]; [|done|]; unfold Qeq, Qlt in H; cbn in H; lia.
Qed.
Lemma restartsOf_total statuses : restart_total (restartsOf statuses).
Proof.
  unfold restartsOf. induction statuses as [|cs l IH] using rev_ind; [by apply restart_total_int|].
  rewrite foldl_app. cbn [foldl]. destruct (restart_step_count (foldl restart_step (of_Z 0) l) cs)
    as (z & Hz & _ & [-> | [_ ->]]); [|done].
  apply restart_total_add; [done|by apply restart_total_int].
Qed.
Lemma restartsOf_exact statuses : Zsum (restart_count <$> statuses) < 2 ^ 53 →
  restartsOf statuses = of_Z (Zsum (restart_count <$> statuses)).
Proof.
  unfold restartsOf. induction statuses as [|cs l IH] using rev_ind; [done|].
  rewrite foldl_app, fmap_app, Zsum_app. unfold Zsum at 2 4. cbn [foldl fmap list_fmap foldr].
  pose proof (restart_count_nonneg cs). intros Hs.
  assert (0 <= Zsum (restart_count <$> l)).
  { apply Zsum_nonneg, Forall_fmap, Forall_true. intros. apply restart_count_nonneg. }
  rewrite IH by lia.
  destruct (restart_step_count (of_Z (Zsum (restart_count <$> l))) cs) as (z & Hz & Ez & Hst).
  rewrite Z.add_0_r. rewrite Ez in *. destruct Hst as [-> | [-> ->]].
  - by rewrite num_add_int by lia.
  - by rewrite Z.add_0_r.
Qed.

(** What the classification of an item depends on. *)
Definition item_status (item : jsval) : list (jstring * jsval) := obj_or_empty (field_opt (obj item) "status").
Definition item_phase (item : jsval) : jstring := str (field (item_status item) "phase").
Definition item_waiting (item : jsval) : option jstring :=
  head (filter (λ r, r ≠ ""%js) (waiting_reason <$> item_statuses item)).
Definition item_refused (item : jsval) : bool := fst (scheduleRefusalOf (item_status item)).

Lemma waitingReasonOf_head statuses :
  waitingReasonOf statuses = default ""%js (head (filter (λ r, r ≠ ""%js) (waiting_reason <$> statuses))).
Proof.
  induction statuses as [|cs l IH]; [done|]. cbn [waitingReasonOf fmap list_fmap]. rewrite filter_cons.
  rewrite js_eqb_decide. destruct (decide (waiting_reason cs = _)) as [-> |Hn].
  - rewrite decide_False by tauto. apply IH.
  - by rewrite decide_True.
Qed.

(** The precedence of the classifier, as a table. *)
Definition pod_verdict (phase : jstring) (waiting : option jstring) (refused : bool) : PodState :=
  if decide (phase = "Succeeded"%js) then pod_succeeded
  else if decide (phase = "Failed"%js) then pod_failed
  else if decide (waiting = Some CRASH_LOOP_REASON) then crash_looping
  else if decide (phase = "Pending"%js) then (if refused then unschedulable else pod_pending)
  else if decide (phase = "Running"%js) then pod_running
  else pod_unknown.

Lemma verdict_waiting phase w r :
  pod_verdict phase w r = pod_pending ∨ pod_verdict phase w r = unschedulable ↔
  phase = "Pending"%js ∧ w ≠ Some CRASH_LOOP_REASON.
Proof. unfold pod_verdict. repeat case_decide; subst; destruct r; intuition congruence. Qed.
Lemma verdict_looping phase w r : pod_verdict phase w r = crash_looping ↔
  phase ≠ "Succeeded"%js ∧ phase ≠ "Failed"%js ∧ w = Some CRASH_LOOP_REASON.
Proof. unfold pod_verdict. repeat case_decide; subst; destruct r; intuition congruence. Qed.

Section PodLemmas.
Context (lc : jstring → jstring → comparison) `{Hlc : !Comparator lc}.
Context (Date_parse : jstring → number) `{Hdate : !DateParse Date_parse}.

Lemma classifyPod_state item now :
  pod_state (classifyPod Date_parse item now) =
    pod_verdict (item_phase item) (item_waiting item) (item_refused item).
Proof.
  unfold classifyPod, item_phase, item_waiting, item_refused, item_statuses, item_status.
  destruct (obj item) as [o|] eqn:E; [|done]. cbn [field_opt].
  set (st := obj_or_empty _). rewrite !waitingReasonOf_head, !js_eqb_decide. unfold pod_verdict.
  repeat (case_decide; try done; cbn [with_pod_state pod_state]).
  all: try (destruct (head _) as [r|]; cbn in *; naive_solver).
Qed.
Lemma classifyPod_restarts item now :
  restarts (classifyPod Date_parse item now) = restartsOf (item_statuses item).
Proof.
  unfold classifyPod, item_statuses. destruct (obj item) as [o|] eqn:E; [|done].
  cbn [field_opt]. by repeat (case_match; cbn [with_pod_state restarts]).
Qed.
Lemma classifyPod_age item now : isFinite now = true →
  match ageMs (classifyPod Date_parse item now) with
  | None => True
  | Some a => num_double a = true ∧ a ≠ NaN
  end.
Proof.
  intros Hnow. unfold classifyPod. destruct (obj item) as [o|] eqn:E; [|done].
  destruct now as [| |q]; try done. destruct (Hdate.(date_value) (str (field (obj_or_empty (field o "metadata"))
    "creationTimestamp"))) as [Hd|(ms & Hd & _)]; rewrite !Hd;
    repeat (case_match; cbn [with_pod_state ageMs of_Z] in *; simplify_eq; try done);
    (split; [apply fl_double|apply fl_not_NaN]).
Qed.

Lemma difference_or x y k : num_double x = true → num_double y = true → x ≠ NaN → y ≠ NaN →
  (if negb (num_eqb x y) then by_difference y x else k) = num_rank y x <||> k.
Proof.
  intros Dx Dy Nx Ny. rewrite <- guarded_difference by done.
  assert (num_eqb y x = num_eqb x y) as ->.
  { unfold num_eqb. destruct x as [|[]|a], y as [|[]|b]; try done. cbn [num_compare].
    rewrite <- (Qcompare_antisym a b). by destruct (a ?= b)%Q. }
  destruct (num_eqb x y) eqn:E; [done|]. cbn [negb].
  assert (by_difference y x ≠ Eq) as Hne; [|by destruct (by_difference y x)].
  assert (H := guarded_difference x y Dx Dy Nx Ny). rewrite E in H. cbn [negb] in H.
  intros H2. assert (num_rank y x = Eq).
  { rewrite <- guarded_difference by done. by rewrite H2; destruct (negb _). }
  apply (cmp_eq_sym num_rank) in H0. apply num_eqb_rank in H0; congruence.
Qed.

(** Worst first: looping now, then restarts, then the name. *)
Definition restart_rank (a b : PodHealth) : comparison :=
  (num_of_bool (is_state crash_looping b) ?= num_of_bool (is_state crash_looping a)) <||>
  (num_rank (restarts b) (restarts a) <||> pod_identity lc a b).
(** Stuck longest first; an unreadable age is last. *)
Definition age_rank (a b : option number) : comparison :=
  match a, b with
  | None, None => Eq
  | None, _ => Gt
  | _, None => Lt
  | Some x, Some y => num_rank y x
  end.
Definition pending_rank (a b : PodHealth) : comparison :=
  (num_of_bool (is_state unschedulable b) ?= num_of_bool (is_state unschedulable a)) <||>
  (age_rank (ageMs a) (ageMs b) <||> pod_identity lc a b).

#[local] Instance age_rank_comparator : Comparator age_rank.
Proof.
  split.
  - intros [x|] [y|]; try done. apply (cmp_sym (cmp:=num_rank) y x).
  - intros [x|] [y|] [z|]; try done. intros H1 H2. by apply (cmp_trans (cmp:=num_rank) z y x).
Qed.
#[local] Instance pod_identity_comparator : Comparator (pod_identity lc).
Proof. unfold pod_identity, byIdentity. solve_comparator. Qed.
Lemma state_first_comparator s (k : PodHealth → PodHealth → comparison) : Comparator k →
  Comparator (λ a b, (num_of_bool (is_state s b) ?= num_of_bool (is_state s a)) <||> k a b).
Proof.
  intros Hk. apply cmp_or_comparator; [|done].
  apply (cmp_flip_comparator (λ a b, num_of_bool (is_state s a) ?= num_of_bool (is_state s b))).
  apply (cmp_on_comparator (λ p, num_of_bool (is_state s p))), _.
Qed.
Lemma restart_rank_comparator : Comparator restart_rank.
Proof.
  apply state_first_comparator, cmp_or_comparator; [|apply _].
  apply (cmp_flip_comparator (λ a b, num_rank (restarts a) (restarts b))), (cmp_on_comparator restarts), _.
Qed.
Lemma pending_rank_comparator : Comparator pending_rank.
Proof. apply state_first_comparator, cmp_or_comparator; [apply (cmp_on_comparator ageMs)|]; apply _. Qed.

Lemma restart_order_exact x y now (a := classifyPod Date_parse x now) (b := classifyPod Date_parse y now) :
  restart_order lc a b = restart_rank a b.
Proof.
  unfold restart_order, restart_rank. f_equal.
  destruct (restartsOf_total (item_statuses x)) as (? & ? & _).
  destruct (restartsOf_total (item_statuses y)) as (? & ? & _).
  apply difference_or; subst a b; by rewrite classifyPod_restarts.
Qed.
Lemma pending_order_exact x y now (a := classifyPod Date_parse x now) (b := classifyPod Date_parse y now) :
  isFinite now = true → pending_order lc a b = pending_rank a b.
Proof.
  intros Hnow. unfold pending_order, pending_rank. f_equal.
  pose proof (classifyPod_age x now Hnow) as Ha. pose proof (classifyPod_age y now Hnow) as Hb.
  fold a in Ha. fold b in Hb. destruct (ageMs a) as [p|], (ageMs b) as [q|]; try done.
  cbn [age_differs age_rank]. apply difference_or; naive_solver.
Qed.
End PodLemmas.

(** ** Autoscalers *)

(** The quotient of two whole 32-bit numbers is on the side of 1 the numbers
    are on. *)
Lemma fl_above_one a m : 0 < m < a → a < 2 ^ 32 →
  num_rank (of_Z 1) (num_div (inject_Z a) (inject_Z m)) = Lt.
Proof.
  intros Ha Hm. unfold num_div.
  destruct (Qeq_bool (inject_Z m) 0) eqn:E0.
  { apply Qeq_bool_eq in E0. unfold Qeq in E0. simpl in E0. lia. }
  assert (Eq : (inject_Z a / inject_Z m)%Q = a # Z.to_pos m).
  { unfold Qdiv, Qmult, Qinv. simpl. destruct m; try lia. simpl. by rewrite Z.mul_1_r. }
  rewrite Eq. unfold fl. cbn [Qnum Qden]. rewrite Z2Pos.id by lia.
  rewrite (Z.abs_eq a), (Z.sgn_pos a) by lia. destruct (Z.eqb_spec a 0); [lia|].
  assert (Hle : Z.log2 m <= Z.log2 a) by (apply Z.log2_le_mono; lia).
  assert (Hup : binary_exponent a m <= Z.log2 a - Z.log2 m ∧ -1 <= binary_exponent a m).
  { unfold binary_exponent. destruct (_ <=? _); lia. }
  set (e := binary_exponent a m) in *. clearbody e.
  assert (Z.log2 a < 32) by (apply Z.log2_lt_pow2; lia). pose proof (Z.log2_nonneg m).
  pose proof (Z.log2_spec m ltac:(lia)) as [_ Hlog].
  rewrite (Z.max_l (e - 52)) by lia. rewrite (Z.max_l 0 (e - 52)), (Z.max_r 0 (- (e - 52))) by lia.
  rewrite Z.pow_0_r, !Z.mul_1_r. set (P := 2 ^ (- (e - 52))).
  assert (HP : m < P).
  { assert (2 ^ Z.succ (Z.log2 m) <= P) by (apply Z.pow_le_mono_r; lia). lia. }
  assert (0 < P) by lia. clearbody P.
  assert (Hm1 : P + 1 <= round_half_even (a * P) m) by (apply round_half_even_ge; nia).
  destruct (_ <=? _); [by rewrite (proj2 (Z.ltb_ge a 0)) by lia|].
  unfold num_rank, of_Z. cbn [num_compare]. rewrite Qred_correct. apply (proj1 (Qlt_alt _ _)).
  unfold Qlt. simpl. rewrite ?Z2Pos.id by lia. lia.
Qed.
Lemma ratio_side a m : 0 <= a < 2 ^ 32 → 0 < m < 2 ^ 32 →
  num_div (inject_Z a) (inject_Z m) ≠ NaN ∧
  (num_rank (of_Z 1) (num_div (inject_Z a) (inject_Z m)) = Lt ↔ m < a).
Proof.
  intros Ha Hm. split.
  { unfold num_div. destruct (Qeq_bool (inject_Z m) 0) eqn:E0; [|apply fl_not_NaN].
    apply Qeq_bool_eq in E0. unfold Qeq in E0. cbn in E0. lia. }
  split; [|intros; apply fl_above_one; lia]. intros H. apply Z.nle_gt. intros Hle. revert H.
  destruct (Z.eq_dec a m) as [-> |?]; [by rewrite fl_one by lia|].
  destruct (Z.eq_dec a 0) as [-> |?].
  { unfold num_div. destruct (Qeq_bool (inject_Z m) 0) eqn:E0; [|done].
    apply Qeq_bool_eq in E0. unfold Qeq in E0. cbn in E0. lia. }
  destruct (fl_below_one a m) as (q & -> & _ & Hq); [lia|lia|].
  unfold num_rank, of_Z. cbn [num_compare]. intros H%Qlt_alt. apply (Qlt_irrefl q).
  by apply Qlt_trans with 1%Q.
Qed.

(** The pairs [worstMetric] chooses from: a reported metric with the last
    target its key was declared with. *)
Definition declared_target (value : list (jstring * jsval)) (key : jstring) : option number :=
  last (omap (λ m, if decide (metricKey m = key ∧ key ≠ ""%js) then
      t ← utilizationOf m "target"; if num_ltb (of_Z 0) t then Some t else None
    else None) (listOr (field_opt (obj (field value "spec")) "metrics"))).
Definition metric_pairs (value : list (jstring * jsval)) : list MetricPair :=
  omap (λ m, t ← declared_target value (metricKey m);
             c ← utilizationOf m "current"; Some {| m_current := c; m_target := t |})
       (current_metrics value).

Lemma metric_targets_spec value key : assoc key (metric_targets value) = declared_target value key.
Proof.
  unfold metric_targets, declared_target. induction (listOr _) as [|m l IH] using rev_ind; [done|].
  rewrite foldl_app, omap_app. cbn [foldl]. set (acc := foldl _ _ l) in *. clearbody acc.
  cbn [omap list_omap]. unfold target_step. rewrite js_eqb_decide.
  destruct (utilizationOf m "target") as [t|]; cbn [mbind option_bind].
  - destruct (decide (metricKey m = ""%js)) as [E|E]; cbn [negb andb].
    + rewrite decide_False by (intros [? ?]; congruence). by rewrite app_nil_r.
    + destruct (num_ltb _ t); cbn [andb].
      * destruct (decide (metricKey m = key)) as [<-|Hk].
        -- rewrite assoc_set_eq, decide_True by done. by rewrite last_snoc.
        -- rewrite assoc_set_ne, decide_False by tauto. by rewrite app_nil_r.
      * destruct (decide _); by rewrite app_nil_r.
  - destruct (decide _); by rewrite app_nil_r.
Qed.

(** What a running maximum keeps. *)
Definition keep_worst (w : option MetricPair) (p : MetricPair) : option MetricPair :=
  match w with
  | None => Some p
  | Some w' => if num_ltb (ratio w') (ratio p) then Some p else w
  end.
Lemma worst_fold value acc l :
  foldl (worst_step (metric_targets value)) acc l =
  foldl keep_worst acc
    (omap (λ m, t ← declared_target value (metricKey m);
             c ← utilizationOf m "current"; Some {| m_current := c; m_target := t |}) l).
Proof.
  revert acc. induction l as [|m l IH]; intros acc; [done|]. cbn [foldl omap list_omap].
  rewrite IH. unfold worst_step. rewrite metric_targets_spec.
  destruct (declared_target _ _) as [t|]; [|done]. cbn [mbind option_bind].
  destruct (utilizationOf m "current") as [c|]; [|done]. by destruct acc.
Qed.
Lemma running_max (l : list MetricPair) : Forall (λ p, ratio p ≠ NaN) l →
  match foldl keep_worst None l with
  | None => l = []
  | Some w => w ∈ l ∧ ∀ p, p ∈ l → num_rank (ratio p) (ratio w) ≠ Gt
  end.
Proof.
  induction l as [|p l IH] using rev_ind; intros Hl; [done|].
  apply Forall_app in Hl as [Hl [Hp _]%Forall_cons]. specialize (IH Hl). rewrite foldl_app.
  cbn [foldl]. set (w := foldl _ None l) in *. clearbody w. destruct w as [w|]; cbn [keep_worst].
  - destruct IH as [Hw Hmax]. assert (ratio w ≠ NaN) by (by eapply Forall_forall in Hl).
    destruct (num_ltb (ratio w) (ratio p)) eqn:E.
    + apply num_ltb_rank in E; [|done..]. split; [set_solver|].
      intros x [Hx|Hx]%elem_of_app; [|apply list_elem_of_singleton in Hx as ->; by rewrite num_rank_refl].
      apply (cmp_trans (cmp:=num_rank) _ (ratio w)); [by apply Hmax|by rewrite E].
    + split; [set_solver|]. intros x [Hx|Hx]%elem_of_app; [by apply Hmax|].
      apply list_elem_of_singleton in Hx as ->. intros HG%(cmp_gt_lt num_rank).
      apply num_ltb_rank in HG; congruence.
  - subst l. split; [set_solver|]. intros x Hx. apply list_elem_of_singleton in Hx as ->.
    by rewrite num_rank_refl.
Qed.
Lemma worstMetric_fold value : worstMetric value =
  foldl keep_worst None (metric_pairs value).
Proof.
  unfold metric_pairs. rewrite <- worst_fold. unfold worstMetric.
  destruct (metric_targets value) eqn:E; [|done].
  assert (∀ l, foldl (worst_step []) None l = None) as ->; [|done].
  induction l as [|m l IH]; [done|]. apply IH.
Qed.

(** Utilizations are whole percentages of 32 bits, as the API declares them. *)
Definition int32_pair (p : MetricPair) : Prop := ∃ c t,
  m_current p = of_Z c ∧ m_target p = of_Z t ∧ 0 <= c < 2 ^ 31 ∧ 0 < t < 2 ^ 31.
Definition above_target (p : MetricPair) : Prop := num_ltb (m_target p) (m_current p) = true.
Lemma num_ltb_int a b : num_ltb (of_Z a) (of_Z b) = true ↔ a < b.
Proof.
  unfold num_ltb, of_Z. cbn [num_compare]. destruct (Qcompare_spec (inject_Z a) (inject_Z b)) as [H|H|H];
    unfold Qeq, Qlt in H; cbn in H; split; try done; lia.
Qed.
Lemma ratio_above p : int32_pair p → ratio p ≠ NaN ∧ (num_rank (of_Z 1) (ratio p) = Lt ↔ above_target p).
Proof.
  intros (c & t & Ec & Et & Hc & Ht). unfold ratio, above_target. rewrite Ec, Et, num_ltb_int.
  cbn [num_quot of_Z]. apply ratio_side; lia.
Qed.
(** The worst metric is above its target exactly when some metric is. *)
Lemma demand_exact value : Forall int32_pair (metric_pairs value) →
  match worstMetric value with
  | None => metric_pairs value = []
  | Some w => w ∈ metric_pairs value ∧ (above_target w ↔ ∃ p, p ∈ metric_pairs value ∧ above_target p) ∧
      ∀ p, p ∈ metric_pairs value → num_rank (ratio p) (ratio w) ≠ Gt
  end.
Proof.
  intros Hp. rewrite worstMetric_fold.
  pose proof (running_max (metric_pairs value)) as Hmax.
  destruct (foldl _ _ _) as [w|].
  - destruct Hmax as [Hw Hmax].
    { eapply Forall_impl; [exact Hp|]. intros p ?%ratio_above. tauto. }
    split_and!; [done| |done]. split; [by exists w|].
    intros (p & Hin & Ha). rewrite Forall_forall in Hp.
    apply (proj2 (ratio_above p (Hp p Hin))) in Ha. apply (proj2 (ratio_above w (Hp w Hw))).
    specialize (Hmax p Hin). destruct (num_rank (of_Z 1) (ratio w)) eqn:E; [|done|]; exfalso;
      apply Hmax; rewrite (cmp_sym (cmp:=num_rank) (ratio w) (ratio p)).
    + by rewrite <- (cmp_eq_l num_rank _ _ (ratio p) E), Ha.
    + apply (cmp_gt_lt num_rank) in E.
      destruct (num_rank (ratio w) (ratio p)) eqn:E2; [|done|]; exfalso.
      * rewrite (cmp_eq_l num_rank _ _ (of_Z 1) E2) in E.
        rewrite (cmp_sym (cmp:=num_rank) (of_Z 1) (ratio p)), Ha in E. done.
      * apply (cmp_trans (cmp:=num_rank) (of_Z 1) (ratio p) (ratio w)); [by rewrite Ha| |].
        -- rewrite (cmp_sym (cmp:=num_rank) (ratio w) (ratio p)), E2. done.
        -- by rewrite (cmp_sym (cmp:=num_rank) (ratio w) (of_Z 1)), E.
  - apply Hmax. eapply Forall_impl; [exact Hp|]. intros p ?%ratio_above. tauto.
Qed.

Lemma classifyHPA_demand o : demand (classifyHPA (JObj o)) =
  match worstMetric o with
  | None => demand_unknown
  | Some w => if num_ltb (m_target w) (m_current w) then demand_above else demand_met
  end.
Proof. unfold classifyHPA. cbn [obj]. by repeat (case_match; cbn [with_hpa_state demand]). Qed.
(** The two states of an autoscaler at its ceiling. *)
Lemma classifyHPA_states v : let s := classifyHPA v in
  (hpa_state s = saturated ↔ current s ≠ None ∧ atCeiling s = true ∧ demand s = demand_above) ∧
  (hpa_state s = saturated ∨ hpa_state s = at_ceiling ↔ current s ≠ None ∧ atCeiling s = true).
Proof.
  unfold classifyHPA. destruct (obj v) as [o|]; [|naive_solver]. cbn zeta.
  set (cur := num (field _ "currentReplicas")). set (max := num (field _ "maxReplicas")).
  set (des := match num _ with Some d => Some d | None => cur end).
  clearbody des. destruct cur as [c|], max as [m|], des as [d|];
    cbn [atCeiling current hpa_state with_hpa_state demand]; try intuition congruence.
  set (dem := match worstMetric o with Some w => _ | None => _ end). clearbody dem.
  destruct (num_ltb (of_Z 0) m && num_leb m d); [|destruct (negb (num_eqb d c))]; destruct dem;
    cbn; intuition congruence.
Qed.
Lemma classifyHPA_short o : Forall int32_pair (metric_pairs o) → let s := classifyHPA (JObj o) in
  (hpa_state s = saturated ↔ current s ≠ None ∧ atCeiling s = true ∧
     ∃ m, m ∈ metric_pairs o ∧ above_target m) ∧
  (hpa_state s = saturated ∨ hpa_state s = at_ceiling ↔ current s ≠ None ∧ atCeiling s = true).
Proof.
  intros Hm s. destruct (classifyHPA_states (JObj o)) as [H1 H2]. split; [|done].
  fold s in H1. rewrite H1. subst s. rewrite classifyHPA_demand.
  pose proof (demand_exact o Hm) as Hw. destruct (worstMetric o) as [w|].
  - destruct Hw as (_ & <- & _). unfold above_target. by destruct (num_ltb _ _); naive_solver.
  - rewrite Hw. split; [naive_solver|]. intros (_ & _ & m & ?%elem_of_nil & _). done.
Qed.
Lemma ceiling_counts l :
  (hpa_count saturated (classifyHPA <$> l) + hpa_count at_ceiling (classifyHPA <$> l))%nat =
    length (filter (λ s, current s ≠ None ∧ atCeiling s = true) (classifyHPA <$> l)).
Proof.
  unfold hpa_count. induction l as [|v l IH]; [done|]. cbn [fmap list_fmap]. rewrite !filter_cons.
  destruct (classifyHPA_states v) as [_ Hs]. cbn zeta in Hs. set (s := classifyHPA v) in *. clearbody s.
  repeat case_decide; cbn [length]; try lia; exfalso; clear IH; intuition congruence.
Qed.
Lemma hpa_order_comparator lc : Comparator lc → Comparator (hpa_order lc).
Proof.
  intros Hlc. unfold hpa_order, byIdentity. apply cmp_or_comparator; [|solve_comparator].
  apply (cmp_on_comparator (λ s, HPA_RANK (hpa_state s))), _.
Qed.

(** ** Disruption budgets *)

Lemma pdb_order_comparator lc : Comparator lc → Comparator (pdb_order lc).
Proof.
  intros Hlc. unfold pdb_order, byIdentity. apply cmp_or_comparator; [|solve_comparator].
  apply (cmp_on_comparator (λ s, PDB_RANK (pdb_state s))), _.
Qed.
Lemma pdb_partition l :
  (pdb_count blocked (classifyPDB <$> l) + pdb_count no_pods (classifyPDB <$> l) +
   pdb_count pdb_unknown (classifyPDB <$> l) + pdb_count pdb_healthy (classifyPDB <$> l))%nat = length l.
Proof.
  pose proof (sum_by_label pdb_state [blocked; no_pods; pdb_unknown; pdb_healthy] (classifyPDB <$> l)) as H.
  rewrite length_fmap in H. rewrite <- H; [cbn; unfold pdb_count; lia| |].
  - repeat constructor; set_solver.
  - apply Forall_true. intros s. destruct (pdb_state s); set_solver.
Qed.
Lemma classifyPDB_says v : let s := classifyPDB v in
  (pdb_state s = pdb_unknown ↔ disruptionsAllowed s = None) ∧
  (pdb_state s = pdb_healthy ↔ ∃ n, disruptionsAllowed s = Some n ∧ num_ltb (of_Z 0) n = true) ∧
  (pdb_state s = no_pods → ∃ n, expectedPods s = Some n ∧ num_eqb n (of_Z 0) = true).
Proof.
  unfold classifyPDB. destruct (obj v) as [o|]; [|naive_solver]. cbn zeta.
  set (allowed := match num _ with Some a => Some a | None => _ end). set (expected := num (field _ "expectedPods")).
  clearbody allowed expected. destruct allowed as [a|]; [|naive_solver]. destruct (num_ltb (of_Z 0) a) eqn:Ea; [naive_solver|].
  assert (¬ ∃ n, Some a = Some n ∧ num_ltb (of_Z 0) n = true) by (intros (n & [= ->] & ?); congruence).
  destruct expected as [e|]; [destruct (num_eqb e (of_Z 0)) eqn:Ee|];
    cbn [pdb_state with_pdb_state disruptionsAllowed expectedPods]; split_and!; try done; try by split.
  intros _. by exists e.
Qed.

(** ** Controllers *)

Lemma count_fold {A} (f : A → bool) l n :
  foldl (λ n a, if f a then S n else n) n l = (n + length (filter (λ a, f a = true) l))%nat.
Proof.
  revert n. induction l as [|a l IH]; intros n; [cbn; lia|]. cbn [foldl]. rewrite IH, filter_cons.
  destruct (f a); [rewrite decide_True by done|rewrite decide_False by done]; cbn; lia.
Qed.
Lemma sum_fold {A} (f : A → nat) l : foldl (λ s a, (s + f a)%nat) 0%nat l = sum_list_with f l.
Proof.
  assert (∀ n, foldl (λ s a, (s + f a)%nat) n l = (n + sum_list_with f l)%nat) as H; [|by rewrite H].
  induction l as [|a l IH]; intros n; [cbn; lia|]. cbn. rewrite IH. lia.
Qed.

(** What the two payloads say of a kind. *)
Definition kind_count (counts : jsval) (k : WorkloadKind) : option number :=
  num (field_opt (obj counts) (kind_name k)).
Definition kind_items (counts : jsval) (lists : WorkloadKind → jsval) (k : WorkloadKind) : option (list jsval) :=
  match kind_count counts k with Some _ => list_ (lists k) | None => None end.
Lemma kind_row_counted counts lists k l : kind_items counts lists k = Some l →
  let r := kind_row (obj counts) lists k in
  visibility r = vis_counted ∧ wk_counted r = length l ∧
  wk_ready r = length (filter (λ i, workloadReady k i = true) l) ∧
  (wk_ready r + wk_degraded r = length l)%nat.
Proof.
  unfold kind_items, kind_count, kind_row. destruct (num _) as [raw|]; [|done].
  intros ->. cbn. rewrite count_fold. split_and!; try done.
  pose proof (length_filter (λ i, workloadReady k i = true) l). lia.
Qed.
Lemma kind_row_uncounted counts lists k : kind_items counts lists k = None →
  let r := kind_row (obj counts) lists k in
  visibility r = (match kind_count counts k with Some _ => vis_pending | None => vis_unknown end) ∧
  wk_ready r = 0%nat ∧ wk_degraded r = 0%nat ∧ wk_truncated r = false.
Proof.
  unfold kind_items, kind_count, kind_row. destruct (num _) as [raw|]; [|done]. by intros ->.
Qed.

(** A count is empty when it is below one. *)
Lemma count_is_zero c : isFinite c = true →
  num_eqb (num_max (of_Z 0) (num_trunc c)) (of_Z 0) = num_ltb c (of_Z 1).
Proof.
  destruct c as [| |q]; try done. intros _. cbn [num_trunc]. rewrite num_max_of_Z.
  assert (num_eqb (of_Z (Z.max 0 (Z.quot (Qnum q) (Zpos (Qden q))))) (of_Z 0) = true ↔
          num_ltb (Fin q) (of_Z 1) = true); [|by destruct (num_eqb _ _), (num_ltb _ _); naive_solver].
  transitivity (Qnum q < Zpos (Qden q)).
  - assert (Z.quot (Qnum q) (Zpos (Qden q)) <= 0 ↔ Qnum q < Zpos (Qden q)) as <-.
    { destruct (Z.le_gt_cases 0 (Qnum q)).
      - rewrite Z.quot_div_nonneg by lia. split; intros H2.
        + apply Z.nle_gt. intros H3. pose proof (Z.div_le_lower_bound (Qnum q) (Zpos (Qden q)) 1). lia.
        + rewrite Z.div_small; lia.
      - rewrite <- (Z.opp_involutive (Qnum q)), Z.quot_opp_l by lia.
        pose proof (Z.quot_pos (- Qnum q) (Zpos (Qden q))). lia. }
    unfold num_eqb, of_Z. cbn [num_compare].
    destruct (Qcompare_spec (inject_Z (Z.max 0 (Z.quot (Qnum q) (Zpos (Qden q))))) (inject_Z 0)) as [H|H|H];
      unfold Qeq, Qlt in H; cbn in H; split; try done; lia.
  - unfold num_ltb, of_Z. cbn [num_compare]. destruct (Qcompare_spec q (inject_Z 1)) as [H|H|H];
      unfold Qeq, Qlt in H; cbn in H; split; try done; lia.
Qed.
Lemma kind_row_total counts lists k c : kind_count counts k = Some c →
  wk_total (kind_row (obj counts) lists k) = num_max (of_Z 0) (num_trunc c) ∧ isFinite c = true.
Proof.
  unfold kind_count, kind_row. intros H. rewrite H. split; [by destruct (list_ _)|].
  by apply num_Fin in H as [q ->].
Qed.
Lemma kind_row_visible counts lists k :
  wk_kind (kind_row (obj counts) lists k) = k ∧
  (visibility (kind_row (obj counts) lists k) = vis_unknown ↔ kind_count counts k = None).
Proof. unfold kind_count, kind_row. destruct (num _); [|done]. by destruct (list_ _). Qed.

(** A sum over the counted rows is a sum over the kinds, when the other rows
    contribute nothing. *)
Lemma sum_counted counts lists (f : WorkloadKindHealth → nat) (g : WorkloadKind → nat) ks :
  (∀ k, let r := kind_row (obj counts) lists k in
    (visibility r = vis_counted → f r = g k) ∧ (visibility r ≠ vis_counted → g k = 0%nat)) →
  sum_list_with f (filter (λ r, visibility r = vis_counted) (kind_row (obj counts) lists <$> ks)) =
    sum_list_with g ks.
Proof.
  intros H. induction ks as [|k ks IH]; [done|]. cbn [fmap list_fmap]. rewrite filter_cons.
  destruct (H k) as [H1 H2]. case_decide as Hd; cbn; rewrite IH; [by rewrite H1|by rewrite H2].
Qed.

Definition seen_items (counts : jsval) (lists : WorkloadKind → jsval) (k : WorkloadKind) : list jsval :=
  default [] (kind_items counts lists k).
Lemma roll_sums counts lists : let v := rollUpWorkloadHealth counts lists in
  roll_ready v = sum_list_with (λ k, length (filter (λ i, workloadReady k i = true)
    (seen_items counts lists k))) WORKLOAD_KINDS ∧
  roll_degraded v = sum_list_with (λ k, length (filter (λ i, workloadReady k i = false)
    (seen_items counts lists k))) WORKLOAD_KINDS.
Proof.
  cbn [rollUpWorkloadHealth roll_ready roll_degraded]. rewrite !sum_fold.
  split; apply sum_counted; intros k; unfold seen_items;
    (destruct (kind_items counts lists k) as [l|] eqn:E;
     [destruct (kind_row_counted _ _ _ _ E) as (Hv & _ & Hr & Hd)
     |destruct (kind_row_uncounted _ _ _ E) as (Hv & Hr & Hd & _)]); cbn [default id]; cbn zeta in *.
  - by rewrite Hv, Hr.
  - by rewrite Hv; destruct (kind_count counts k).
  - rewrite Hr in Hd. rewrite Hv. split; [intros _|done].
    assert (length (filter (λ i, workloadReady k i = true) l) +
            length (filter (λ i, workloadReady k i = false) l) = length l)%nat; [|lia].
    clear. induction l as [|i l IH]; [done|]. rewrite !filter_cons.
    destruct (workloadReady k i); repeat case_decide; try done; cbn [length]; lia.
  - by rewrite Hv; destruct (kind_count counts k).
Qed.
Lemma roll_rows counts lists r :
  r ∈ kinds (rollUpWorkloadHealth counts lists) ↔ ∃ k, r = kind_row (obj counts) lists k.
Proof.
  cbn [rollUpWorkloadHealth kinds]. rewrite list_elem_of_fmap. split; intros (k & H); exists k; [tauto|].
  split; [done|]. destruct k; set_solver.
Qed.
Lemma roll_empty_iff counts lists : roll_empty (rollUpWorkloadHealth counts lists) = true ↔
  (∃ k, kind_count counts k ≠ None) ∧ ∀ k c, kind_count counts k = Some c → num_ltb c (of_Z 1) = true.
Proof.
  pose proof (roll_rows counts lists) as Hrow. cbn [rollUpWorkloadHealth kinds roll_empty] in *.
  set (rows := _ <$> WORKLOAD_KINDS) in *.
  assert (Hvis : ∀ r, r ∈ filter (λ r, visibility r ≠ vis_unknown) rows ↔
    ∃ k c, r = kind_row (obj counts) lists k ∧ kind_count counts k = Some c).
  { intros r. rewrite list_elem_of_filter, Hrow. split.
    - intros (Hv & k & ->). destruct (kind_row_visible counts lists k) as [_ Hn].
      destruct (kind_count counts k) as [c|] eqn:E; [by exists k, c|tauto].
    - intros (k & c & -> & E). split; [|by exists k]. rewrite (proj2 (kind_row_visible counts lists k)). congruence. }
  rewrite andb_true_iff, negb_true_iff, bool_decide_eq_false, forallb_forall. split.
  - intros [Hne Hall]. split.
    + destruct (filter _ rows) as [|r l] eqn:E; [done|]. destruct (proj1 (Hvis r)) as (k & c & _ & Hc); [set_solver|].
      exists k. congruence.
    + intros k c Hc. destruct (kind_row_total counts lists k c Hc) as [Ht Hf].
      rewrite <- (count_is_zero c Hf), <- Ht. apply Hall, list_elem_of_In, Hvis. eauto.
  - intros [(k & Hk) Hall]. destruct (kind_count counts k) as [c|] eqn:Ec; [|done]. split.
    + intros E. assert (H : kind_row (obj counts) lists k ∈ @nil WorkloadKindHealth); [|by apply elem_of_nil in H].
      rewrite <- E. apply Hvis. eauto.
    + intros r (k' & c' & -> & Hc)%list_elem_of_In%Hvis.
      destruct (kind_row_total counts lists k' c' Hc) as [-> Hf]. rewrite count_is_zero by done. by eapply Hall.
Qed.
Lemma roll_truncated_iff counts lists : roll_truncated (rollUpWorkloadHealth counts lists) = true ↔
  ∃ k l c, kind_items counts lists k = Some l ∧ kind_count counts k = Some c ∧
    num_ltb (num_of_nat (length l)) (num_max (of_Z 0) (num_trunc c)) = true.
Proof.
  pose proof (roll_rows counts lists) as Hrow. cbn [rollUpWorkloadHealth kinds roll_truncated] in *.
  rewrite existsb_exists.
  assert (Hk : ∀ k, wk_truncated (kind_row (obj counts) lists k) = true ↔
    ∃ l c, kind_items counts lists k = Some l ∧ kind_count counts k = Some c ∧
      num_ltb (num_of_nat (length l)) (num_max (of_Z 0) (num_trunc c)) = true).
  { intros k. unfold kind_items, kind_count, kind_row. destruct (num _) as [c|]; [|naive_solver].
    destruct (list_ (lists k)) as [l|]; naive_solver. }
  split.
  - intros (r & Hr%list_elem_of_In & Ht). apply Hrow in Hr as (k & ->). apply Hk in Ht as (l & c & ?). eauto.
  - intros (k & l & c & H). exists (kind_row (obj counts) lists k). split; [|apply Hk; eauto].
    apply list_elem_of_In, Hrow. eauto.
Qed.
(** A workload without a readable status. *)
Lemma statusless_ready k o : obj (field o "status") = None → workloadReady k (JObj o) = true ↔
  k = daemonsets ∨ num_leb (numOr (field (obj_or_empty (field o "spec")) "replicas") (of_Z 1)) (of_Z 0) = true.
Proof.
  intros Hs. assert (Hst : obj_or_empty (field o "status") = []) by (unfold obj_or_empty; by rewrite Hs).
  unfold workloadReady. cbn [obj]. rewrite Hst. set (want := numOr _ (of_Z 1)). cbn zeta. clearbody want.
  change (field [] _) with JUndef. change (numOr JUndef (of_Z 0)) with (of_Z 0).
  destruct k; [..|change (num_leb (of_Z 0) (of_Z 0)) with true; naive_solver];
    (destruct (num_leb want (of_Z 0)) eqn:E; [naive_solver|]; naive_solver).
Qed.

(** The counts of the pod cards, over any list of pods. *)
Lemma split_looping pods :
  (state_count crash_looping pods + length (filter (λ p, pod_state p ≠ crash_looping ∧ has_restarts p) pods))%nat
    = length (notable_pods pods).
Proof.
  unfold state_count, notable_pods. induction pods as [|p pods IH]; [done|].
  rewrite !filter_cons. repeat case_decide; cbn; try tauto; lia.
Qed.
Lemma split_waiting pods :
  (state_count unschedulable (waiting_pods pods) + state_count pod_pending (waiting_pods pods))%nat
    = length (waiting_pods pods).
Proof.
  unfold state_count, waiting_pods. induction pods as [|p pods IH]; [done|].
  rewrite !filter_cons. case_decide as H; [|done]. rewrite !filter_cons.
  repeat case_decide; cbn; try (destruct H; congruence); lia.
Qed.
Lemma total_restarts_exact Date_parse now l : Zsum (item_restarts <$> l) < 2 ^ 53 →
  foldl (λ sum p, num_add sum (restarts p)) (of_Z 0) ((λ item, classifyPod Date_parse item now) <$> l)
    = of_Z (Zsum (item_restarts <$> l)).
Proof.
  intros Hs. rewrite foldl_fmap. apply fold_num_add; [|done].
  intros item Hi. rewrite classifyPod_restarts. split; [|apply item_restarts_nonneg].
  apply restartsOf_exact. apply list_elem_of_In, in_split in Hi as (l1 & l2 & ->).
  rewrite fmap_app, Zsum_app in Hs. cbn [fmap list_fmap] in Hs. unfold Zsum at 2 in Hs. cbn [foldr] in Hs.
  fold (Zsum (item_restarts <$> l2)) in Hs.
  assert (∀ k, 0 <= Zsum (item_restarts <$> k)) as Hn.
  { intros k. apply Zsum_nonneg, Forall_fmap, Forall_true. intros. apply item_restarts_nonneg. }
  pose proof (Hn l1). pose proof (Hn l2). unfold item_restarts at 2 in Hs. lia.
Qed.

(** ** Properties *)

(** The two pod cards describe the page with one classification and lose
    nothing of it. The restart card lists the worst pods of those that loop or
    ever restarted: looping ones first, then by restarts, and no pod left out
    outranks one shown; its two counts add up to that population, and its total
    is the exact sum of the restarts of every container. The pending card lists
    the longest-waiting pods of those not up, refused ones first and unreadable
    ages last, and its counts add up too. It draws from exactly the pods in
    phase [Pending] that are not classed as looping, and one that is classed so
    is drawn on by the restart card instead: no pod that is not up is missing
    from both. *)
Theorem pod_cards_account lc Date_parse l total limit now :
  Comparator lc → DateParse Date_parse → isFinite now = true → 0 <= limit →
  Zsum (item_restarts <$> l) < 2 ^ 53 →
  let page := Some {| items := JArr l; page_total := total |} in
  let r := podRestartsView lc Date_parse page limit now in
  let w := pendingPodsView lc Date_parse page limit now in
  let all := (λ item, classifyPod Date_parse item now) <$> l in
  ranked (restart_rank lc) limit (notable_pods all) (restart_pods r) ∧
  (crashLooping r + restarting r)%nat = length (notable_pods all) ∧
  totalRestarts r = of_Z (Zsum (item_restarts <$> l)) ∧
  ranked (pending_rank lc) limit (waiting_pods all) (pending_pods w) ∧
  (pv_unschedulable w + pv_pending w)%nat = length (waiting_pods all) ∧
  ∀ item, item ∈ l → let p := classifyPod Date_parse item now in
    (p ∈ waiting_pods all ↔ item_phase item = "Pending"%js ∧ item_waiting item ≠ Some CRASH_LOOP_REASON) ∧
    (item_phase item = "Pending"%js → p ∉ waiting_pods all → pod_state p = crash_looping ∧ p ∈ notable_pods all).
Proof.
  intros Hlc Hd Hnow Hlim Hsum. cbn zeta.
  assert (Hcls : ∀ p, p ∈ (λ item, classifyPod Date_parse item now) <$> l →
    ∃ item, item ∈ l ∧ p = classifyPod Date_parse item now).
  { intros p (i & -> & Hi)%list_elem_of_fmap. by exists i. }
  set (all := (λ item, classifyPod Date_parse item now) <$> l) in *. split_and!.
  - apply slice_ranked; [by apply restart_rank_comparator| |done].
    intros a b (_ & (x & _ & ->)%Hcls)%list_elem_of_filter (_ & (y & _ & ->)%Hcls)%list_elem_of_filter.
    by apply restart_order_exact.
  - apply split_looping.
  - unfold podRestartsView. cbn [totalRestarts]. unfold classifyPods. cbn [items list_ default].
    by apply total_restarts_exact.
  - apply slice_ranked; [by apply pending_rank_comparator| |done].
    intros a b (_ & (x & _ & ->)%Hcls)%list_elem_of_filter (_ & (y & _ & ->)%Hcls)%list_elem_of_filter.
    by apply pending_order_exact.
  - apply split_waiting.
  - intros item Hi. assert (Hin : classifyPod Date_parse item now ∈ all).
    { apply list_elem_of_fmap. by exists item. }
    unfold waiting_pods, notable_pods. rewrite !list_elem_of_filter.
    rewrite !classifyPod_state, verdict_waiting. split; [tauto|]. intros Hp Hn.
    assert (Hl : pod_verdict (item_phase item) (item_waiting item) (item_refused item) = crash_looping).
    { apply verdict_looping. rewrite Hp. split_and!; try done. apply dec_stable. tauto. }
    rewrite Hl. tauto.
Qed.

(** A pod that has not finished is classed as looping exactly when the first
    container that waits, app containers before init containers, waits in a
    crash loop. So the loop of an init container is not seen: its app
    containers wait for it, and their reason comes first. Such a pod is filed
    as pending, though one of its containers is in a restart loop. *)
Theorem crash_loop_first_reason Date_parse now :
  (∀ item, pod_state (classifyPod Date_parse item now) = crash_looping ↔
     item_phase item ≠ "Succeeded"%js ∧ item_phase item ≠ "Failed"%js ∧
     item_waiting item = Some CRASH_LOOP_REASON) ∧
  ∃ item cs, cs ∈ item_statuses item ∧ waiting_reason cs = CRASH_LOOP_REASON ∧ 0 < restart_count cs ∧
    item_phase item = "Pending"%js ∧
    pod_state (classifyPod Date_parse item now) = pod_pending ∧
    reason (classifyPod Date_parse item now) = "PodInitializing"%js.
Proof.
  split.
  - intros item. rewrite classifyPod_state. apply verdict_looping.
  - set (waits := λ (r : jstring) n, JObj [("restartCount"%js, JNum (of_Z n));
      ("state"%js, JObj [("waiting"%js, JObj [("reason"%js, JStr r)])])]).
    exists (JObj [("status"%js, JObj [("phase"%js, JStr "Pending"%js);
      ("containerStatuses"%js, JArr [waits "PodInitializing"%js 0]);
      ("initContainerStatuses"%js, JArr [waits CRASH_LOOP_REASON 7])])]), (waits CRASH_LOOP_REASON 7).
    split_and!; try reflexivity. by apply (list_elem_of_lookup_2 _ 1).
Qed.

(** The autoscaler card counts exactly the autoscalers that are short: at their
    ceiling with some metric above its own target, whichever metric that is,
    although it looks only at the one with the largest ratio of two rounded
    quotients. Everything else at its ceiling is counted apart; nothing is
    shown ahead of something worse. On the budget card every budget is counted
    once, a budget is listed unless it allows a disruption, and one is said to
    block a drain only when its status says so. *)
Theorem scaling_cards_exact lc l total limit :
  Comparator lc → 0 <= limit →
  (∀ o, JObj o ∈ l → Forall int32_pair (metric_pairs o)) →
  let page := Some {| items := JArr l; page_total := total |} in
  let h := hpaStatusView lc page limit in
  let p := pdbRiskView lc page limit in
  ranked (hpa_order lc) limit (classifyHPA <$> l) (hpas h) ∧
  (∀ o, JObj o ∈ l → let s := classifyHPA (JObj o) in
     (hpa_state s = saturated ↔ current s ≠ None ∧ atCeiling s = true ∧
        ∃ m, m ∈ metric_pairs o ∧ above_target m) ∧
     (hpa_state s = saturated ∨ hpa_state s = at_ceiling ↔ current s ≠ None ∧ atCeiling s = true)) ∧
  (hv_saturated h + hv_atCeiling h)%nat =
    length (filter (λ s, current s ≠ None ∧ atCeiling s = true) (classifyHPA <$> l)) ∧
  ranked (pdb_order lc) limit (filter (λ s, pdb_state s ≠ pdb_healthy) (classifyPDB <$> l)) (pdbs p) ∧
  (pv_blocked p + pv_noPods p + pv_unknown p + pv_healthy p)%nat = length l ∧
  (∀ v, v ∈ l → let s := classifyPDB v in
     (pdb_state s = pdb_unknown ↔ disruptionsAllowed s = None) ∧
     (pdb_state s = pdb_healthy ↔ ∃ n, disruptionsAllowed s = Some n ∧ num_ltb (of_Z 0) n = true) ∧
     (pdb_state s = no_pods → ∃ n, expectedPods s = Some n ∧ num_eqb n (of_Z 0) = true)).
Proof.
  intros Hlc Hlim Hm. cbn zeta. split_and!.
  - by apply slice_ranked; [apply hpa_order_comparator| |].
  - intros o Ho. by apply classifyHPA_short, Hm.
  - apply ceiling_counts.
  - by apply slice_ranked; [apply pdb_order_comparator| |].
  - apply pdb_partition.
  - intros v _. apply classifyPDB_says.
Qed.

(** The roll-up never turns absence into news. Its ready and degraded counts
    cover exactly the workloads of the kinds for which both payloads answered,
    each on one side; the kinds it names as unknown are exactly the ones the
    counts left out; it calls the cluster empty only when some kind is visible
    and every visible one holds nothing; and it says so when a list was cut.
    One absence does read as news, though: a DaemonSet without a status counts
    as ready, where any other kind without one is degraded unless it was scaled
    to zero. *)
Theorem rollUp_exact counts lists :
  let v := rollUpWorkloadHealth counts lists in
  let seen := seen_items counts lists in
  wk_kind <$> kinds v = WORKLOAD_KINDS ∧
  roll_ready v = sum_list_with (λ k, length (filter (λ i, workloadReady k i = true) (seen k))) WORKLOAD_KINDS ∧
  roll_degraded v = sum_list_with (λ k, length (filter (λ i, workloadReady k i = false) (seen k))) WORKLOAD_KINDS ∧
  unknownKinds v = filter (λ k, kind_count counts k = None) WORKLOAD_KINDS ∧
  (roll_empty v = true ↔ (∃ k, kind_count counts k ≠ None) ∧
     ∀ k c, kind_count counts k = Some c → num_ltb c (of_Z 1) = true) ∧
  (roll_truncated v = true ↔ ∃ k l c, kind_items counts lists k = Some l ∧ kind_count counts k = Some c ∧
     num_ltb (num_of_nat (length l)) (num_max (of_Z 0) (num_trunc c)) = true) ∧
  (∀ k o, obj (field o "status") = None → workloadReady k (JObj o) = true ↔
     k = daemonsets ∨ num_leb (numOr (field (obj_or_empty (field o "spec")) "replicas") (of_Z 1)) (of_Z 0) = true).
Proof.
  cbn zeta. destruct (roll_sums counts lists) as [Hr Hd]. cbn zeta in Hr, Hd.
  split_and!; [|done|done| |apply roll_empty_iff|apply roll_truncated_iff|apply statusless_ready].
  - cbn [rollUpWorkloadHealth kinds]. rewrite <- list_fmap_compose. rewrite <- (list_fmap_id WORKLOAD_KINDS) at 2.
    apply list_fmap_ext. intros ? k _. apply kind_row_visible.
  - cbn [rollUpWorkloadHealth unknownKinds]. generalize WORKLOAD_KINDS. intros ks.
    induction ks as [|k ks IH]; [done|]. cbn [fmap list_fmap]. rewrite !filter_cons.
    destruct (kind_row_visible counts lists k) as [E1 E2].
    repeat case_decide; cbn [fmap list_fmap]; rewrite ?IH, ?E1; tauto.
Qed.

(** ** Witnesses *)

Definition demo_container (n : Z) (why : jstring) : jsval :=
  JObj [("restartCount"%js, JNum (of_Z n));
        ("state"%js, JObj [("waiting"%js, JObj [("reason"%js, JStr why)])])].
Definition demo_pod (name phase : jstring) (cs : list jsval) : jsval :=
  JObj [("metadata"%js, JObj [("name"%js, JStr name); ("creationTimestamp"%js, JStr "t1"%js)]);
        ("status"%js, JObj [("phase"%js, JStr phase); ("containerStatuses"%js, JArr cs)])].
Definition demo_pods : list jsval :=
  [demo_pod "steady" "Running" [demo_container 40 ""];
   demo_pod "loop" "Running" [demo_container 2 "CrashLoopBackOff"];
   demo_pod "new" "Pending" [demo_container 0 "ImagePullBackOff"]].
Lemma pod_cards_account_witness :
  let page := Some {| items := JArr demo_pods; page_total := JUndef |} in
  let r := podRestartsView js_compare demo_clock page 5 (of_Z 9000) in
  let w := pendingPodsView js_compare demo_clock page 5 (of_Z 9000) in
  pod_name <$> restart_pods r = ["loop"; "steady"]%js ∧ totalRestarts r = of_Z 42 ∧
  pod_name <$> pending_pods w = ["new"]%js ∧ (crashLooping r + restarting r)%nat = 2%nat.
Proof.
  pose proof (pod_cards_account js_compare demo_clock demo_pods JUndef 5 (of_Z 9000) _ _
    eq_refl ltac:(lia) eq_refl) as (_ & E & T & _).
  split_and!; [reflexivity|exact T|reflexivity|exact E].
Defined.

Definition demo_metric (name : jstring) (f : jstring) (n : Z) : jsval :=
  JObj [("type"%js, JStr "Resource"%js); ("resource"%js, JObj [("name"%js, JStr name);
        (f, JObj [("averageUtilization"%js, JNum (of_Z n))])])].
Definition demo_hpa (name : jstring) (cur max : Z) (mem : Z) : jsval :=
  JObj [("metadata"%js, JObj [("name"%js, JStr name)]);
        ("spec"%js, JObj [("maxReplicas"%js, JNum (of_Z max));
          ("metrics"%js, JArr [demo_metric "cpu" "target" 95; demo_metric "memory" "target" 50])]);
        ("status"%js, JObj [("currentReplicas"%js, JNum (of_Z cur)); ("disruptionsAllowed"%js, JNum (of_Z 1));
          ("currentMetrics"%js, JArr [demo_metric "cpu" "current" 90; demo_metric "memory" "current" mem])])].
Definition demo_hpas : list jsval := [demo_hpa "ok" 3 10 40; demo_hpa "short" 10 10 90; demo_hpa "full" 10 10 50].
Lemma demo_int32 o : JObj o ∈ demo_hpas → Forall int32_pair (metric_pairs o).
Proof.
  unfold demo_hpas. rewrite !elem_of_cons. intros H. 
  assert (∀ c m, 0 <= c < 2 ^ 31 → 0 < m < 2 ^ 31 → int32_pair {| m_current := of_Z c; m_target := of_Z m |})
    as Hp by (intros c m ? ?; exists c, m; done).
  destruct H as [[= ->]|[[= ->]|[[= ->]|[]%elem_of_nil]]]; vm_compute metric_pairs;
    repeat (constructor; [by apply Hp|]); constructor.
Qed.
Lemma scaling_cards_exact_witness :
  let page := Some {| items := JArr demo_hpas; page_total := JUndef |} in
  hpa_name <$> hpas (hpaStatusView js_compare page 5) = ["short"; "full"; "ok"]%js ∧
  (hv_saturated (hpaStatusView js_compare page 5) + hv_atCeiling (hpaStatusView js_compare page 5))%nat = 2%nat ∧
  (pv_blocked (pdbRiskView js_compare page 5) + pv_noPods (pdbRiskView js_compare page 5) +
   pv_unknown (pdbRiskView js_compare page 5) + pv_healthy (pdbRiskView js_compare page 5))%nat = 3%nat.
Proof.
  destruct (scaling_cards_exact js_compare demo_hpas JUndef 5 _ ltac:(lia) demo_int32)
    as (_ & _ & E & _ & P & _).
  split_and!; [reflexivity|exact E|exact P].
Defined.
