(* ===== verification/Topology.v ===== *)
(** * The cluster map: topology.ts

    Seven list reads become one graph: nodes, services, workloads, pods and
    claims in five rows, joined by what the objects say of each other (a pod's
    node, a selector, a volume). The loops fill JavaScript [Map]s, which are
    association lists in insertion order here; a card is drawn or nothing is,
    since [encodeURIComponent] may throw. *)

From stdpp Require Import base list strings gmap sorting.
From Stdlib Require Import ZArith NArith QArith Lia Permutation.
From S2P Require Import Prelude JsValue Narrow Uri Workloads.

Open Scope Z_scope.

(** ** Definitions *)

Inductive TopologyKind := KNode | KService | KWorkload | KPod | KPvc.
#[export] Instance TopologyKind_eq : EqDecision TopologyKind.
Proof. solve_decision. Defined.
Inductive TopologyHealth := healthy | warning | error.
Inductive TopologyEdgeKind := node_service | service_workload | service_pod | workload_pod | pod_pvc.
#[export] Instance TopologyEdgeKind_eq : EqDecision TopologyEdgeKind.
Proof. solve_decision. Defined.
Definition RELATED_LIMIT : nat := 6.

Inductive TopologySource := SNodes | SServices | SWorkload (k : WorkloadKind) | SPods | SPvcs.
(** [null] and an absent page alike. *)
Definition TopologyPages := TopologySource → option ResourceListPage.

(** What the panel prints: a text, or [`${ready}/${desired} ready`]. *)
Inductive Status := Text (s : jstring) | ReadyOf (ready desired : number).
Record TopologyRelated := { rel_kind : TopologyKind; rel_items : list jstring; rel_total : nat }.
Record TopologyNode := {
  tn_id : jstring;
  tn_kind : TopologyKind;
  tn_name : jstring;
  tn_ns : jstring;
  workloadKind : jstring;
  abbr : jstring;
  href : jstring;
  tn_health : TopologyHealth;
  tn_status : Status;
  nodeName : jstring;
  volumeName : jstring;
  containers : list jstring;
  related : list TopologyRelated;
  tn_x : number;
  tn_y : number;
  tn_size : Z
}.
Record TopologyEdge := { from : jstring; to : jstring; edge_kind : TopologyEdgeKind }.
Record TopologyRowCoverage := { available : bool; absent : list TopologySource; row : PageCoverage }.
Record TopologyView := {
  tv_nodes : list TopologyNode;
  tv_edges : list TopologyEdge;
  tv_width : number;
  tv_height : number;
  tv_rows : TopologyKind → TopologyRowCoverage;
  tv_skipped : nat
}.

(** *** Selectors *)

Definition Labels := list (jstring * jstring).
Definition object_entries (o : list (jstring * jsval)) : list (jstring * jsval) :=
  (λ k, (k, field o k)) <$> object_keys o.
(** The text entries, assigned to a fresh object: [__proto__] cannot be. *)
Definition string_entry (e : jstring * jsval) : option (jstring * jstring) :=
  match e.2 with JStr v => if js_eqb e.1 "__proto__"%js then None else Some (e.1, v) | _ => None end.
Definition stringMap (value : jsval) : Labels :=
  match obj value with None => [] | Some o => omap string_entry (object_entries o) end.
(** [labels[k] === v], for a text [v]: nothing inherited is one. *)
Definition has_label (labels : Labels) (kv : jstring * jstring) : bool :=
  bool_decide (assoc kv.1 labels = Some kv.2).
Definition serviceSelects (selector labels : Labels) : bool :=
  match selector with [] => false | _ => forallb (has_label labels) selector end.
Definition strings_of (l : list jsval) : list jstring :=
  omap (λ v, match v with JStr s => Some s | _ => None end) l.
(** One [matchExpressions] requirement: does the loop go on? *)
Definition requirement (labels : Labels) (raw : jsval) : bool :=
  match obj raw with
  | None => false
  | Some req =>
      let values := strings_of (listOr (field req "values")) in
      let value := assoc (str (field req "key")) labels in
      let op := str (field req "operator") in
      if js_eqb op "In"%js then match value with Some v => bool_decide (v ∈ values) | None => false end
      else if js_eqb op "NotIn"%js then match value with Some v => bool_decide (v ∉ values) | None => true end
      else if js_eqb op "Exists"%js then match value with Some _ => true | None => false end
      else if js_eqb op "DoesNotExist"%js then match value with Some _ => false | None => true end
      else false
  end.
Definition labelSelectorSelects (selector : jsval) (labels : Labels) : bool :=
  match obj selector with
  | None => false
  | Some sel =>
      let matchLabels := stringMap (field sel "matchLabels") in
      let expressions := listOr (field sel "matchExpressions") in
      match matchLabels, expressions with
      | [], [] => false
      | _, _ => forallb (has_label labels) matchLabels && forallb (requirement labels) expressions
      end
  end.

(** *** Health *)

Definition field_of (v : jsval) (k : jstring) : jsval := field_opt (obj v) k.
Fixpoint find_obj (p : list (jstring * jsval) → bool) (l : list jsval) : option (list (jstring * jsval)) :=
  match l with
  | [] => None
  | v :: rest => match obj v with
      | Some o => if p o then Some o else find_obj p rest
      | None => find_obj p rest end
  end.
Definition nodeHealth (item : list (jstring * jsval)) : TopologyHealth * Status :=
  let conditions := listOr (field_of (field item "status") "conditions") in
  let ready := find_obj (λ c, js_eqb (str (field c "type")) "Ready"%js) conditions in
  if js_eqb (str (field_opt ready "status")) "True"%js then (healthy, Text "Ready"%js)
  else (error, Text "NotReady"%js).
Definition phase_or_unknown (phase : jstring) : Status :=
  Text (if js_eqb phase ""%js then "Unknown"%js else phase).
Definition unready (v : jsval) : bool :=
  match obj v with Some c => negb (is_true_val (field c "ready")) | None => false end.
Definition podHealth (item : list (jstring * jsval)) : TopologyHealth * Status :=
  let status := obj_or_empty (field item "status") in
  let phase := str (field status "phase") in
  if js_eqb phase "Succeeded"%js then (healthy, Text phase)
  else if js_eqb phase "Pending"%js then (warning, Text phase)
  else if negb (js_eqb phase "Running"%js) then (error, phase_or_unknown phase)
  else if existsb unready (listOr (field status "containerStatuses"))
  then (warning, Text (phase +++ ", not ready")%js) else (healthy, Text phase).
Definition pvcHealth (item : list (jstring * jsval)) : TopologyHealth * Status :=
  let phase := str (field_of (field item "status") "phase") in
  if js_eqb phase "Bound"%js then (healthy, Text phase)
  else if js_eqb phase "Pending"%js then (warning, Text phase)
  else (error, phase_or_unknown phase).
Definition workloadHealth (kind : WorkloadKind) (item : list (jstring * jsval)) : TopologyHealth * Status :=
  let status := obj_or_empty (field item "status") in
  let desired := match kind with
    | daemonsets => numOr (field status "desiredNumberScheduled") (of_Z 0)
    | _ => numOr (field_of (field item "spec") "replicas") (of_Z 1) end in
  let ready := default (of_Z 0) (num (match kind with
    | daemonsets => field status "numberReady" | _ => field status "readyReplicas" end)) in
  let label := ReadyOf ready desired in
  if workloadReady kind (JObj item) then (healthy, label)
  else if num_eqb ready (of_Z 0) then (error, label) else (warning, label).

(** *** Reading the pages *)

Record Parsed := { p_item : list (jstring * jsval); p_name : jstring; p_ns : jstring; p_labels : Labels }.
Definition parse_item (namespaced : bool) (raw : jsval) : option Parsed :=
  item ← obj raw;
  let meta := field item "metadata" in
  let name := str (field_of meta "name") in
  let ns := if namespaced then str (field_of meta "namespace") else ""%js in
  if js_eqb name ""%js || (namespaced && js_eqb ns ""%js) then None
  else Some {| p_item := item; p_name := name; p_ns := ns; p_labels := stringMap (field_of meta "labels") |}.
Definition page_items (page : option ResourceListPage) : list jsval :=
  match page with Some p => listOr (items p) | None => [] end.
Definition WORKLOAD_SINGULAR (k : WorkloadKind) : jstring :=
  match k with deployments => "Deployment"%js | statefulsets => "StatefulSet"%js | daemonsets => "DaemonSet"%js end.
Definition WORKLOAD_ABBR (k : WorkloadKind) : jstring :=
  match k with deployments => "DEP"%js | statefulsets => "STS"%js | daemonsets => "DS"%js end.
Definition node_id (name : jstring) : jstring := ("node//" +++ name)%js.
Definition service_id (ns name : jstring) : jstring := ("service/" +++ ns +++ "/" +++ name)%js.
Definition workload_id (k : WorkloadKind) (ns name : jstring) : jstring :=
  ("workload/" +++ ns +++ "/" +++ WORKLOAD_SINGULAR k +++ "/" +++ name)%js.
Definition pod_id (ns name : jstring) : jstring := ("pod/" +++ ns +++ "/" +++ name)%js.
Definition pvc_id (ns name : jstring) : jstring := ("pvc/" +++ ns +++ "/" +++ name)%js.

(** *** Coverage *)

Definition page_coverage (page : ResourceListPage) : PageCoverage :=
  coverage (Some page) (of_Z (Z.of_nat (length (page_items (Some page))))).
Definition rowCoverage (pages : TopologyPages) (sources : list TopologySource) (n : nat) : TopologyRowCoverage :=
  let absent := filter (λ s, pages s = None) sources in
  match omap pages sources with
  | [] => {| available := false; absent := absent;
             row := {| total := of_Z 0; counted := of_Z 0; truncated := false; readable := false |} |}
  | present =>
      let cs := page_coverage <$> present in
      {| available := true; absent := absent;
         row := {| total := foldl (λ t c, num_add t (total c)) (of_Z 0) cs; counted := of_Z (Z.of_nat n);
                   truncated := existsb truncated cs; readable := existsb readable cs |} |}
  end.

(** *** The canvas *)

Definition ROW_Y (k : TopologyKind) : number :=
  match k with
  | KNode => fl (8 # 100) | KService => fl (25 # 100) | KWorkload => fl (45 # 100) | KPod => fl (65 # 100)
  | KPvc => fl (85 # 100)
  end.
Definition ITEM_SPACING : number := of_Z 62.
Definition CANVAS_ASPECT : number := fl (23 # 10).
Definition MIN_CANVAS : number := of_Z 400.
Definition MAX_CANVAS_HEIGHT : number := of_Z 560.
Definition TOPOLOGY_MIN_ZOOM : number := fl (5 # 10).
Definition BASE_MAX_ZOOM : number := of_Z 4.
Definition READABLE_SCALE : number := fl (15 # 10).
Definition ZOOM_FACTOR : number := fl (125 # 100).
Record Canvas := { cv_width : number; cv_height : number }.
Record Box := { box_w : number; box_h : number }.
Definition positive (n : number) : bool := num_ltb (of_Z 0) n.
Definition topologyMaxZoom (canvas : Canvas) (boxW boxH : number) : number :=
  if negb (positive boxW) || negb (positive boxH) then BASE_MAX_ZOOM
  else
    let fit := num_min (num_quot boxW (cv_width canvas)) (num_quot boxH (cv_height canvas)) in
    num_max BASE_MAX_ZOOM (num_quot READABLE_SCALE fit).
(** [zoomIn] is the direction [1]. *)
Definition stepTopologyZoom (current : number) (zoomIn : bool) (max : number) : number :=
  let next := if zoomIn then num_times current ZOOM_FACTOR else num_quot current ZOOM_FACTOR in
  num_min max (num_max TOPOLOGY_MIN_ZOOM next).
Record TopologyCamera := { zoom : number; cam_x : number; cam_y : number }.
Record MeetFit := { scale : number; offX : number; offY : number }.
Definition meetFit (cam : TopologyCamera) (canvas : Canvas) (box : Box) : option MeetFit :=
  if negb (positive (box_w box)) || negb (positive (box_h box)) then None
  else
    let vbW := num_quot (cv_width canvas) (zoom cam) in
    let vbH := num_quot (cv_height canvas) (zoom cam) in
    let s := num_min (num_quot (box_w box) vbW) (num_quot (box_h box) vbH) in
    Some {| scale := s;
            offX := num_quot (num_sub (box_w box) (num_times vbW s)) (of_Z 2);
            offY := num_quot (num_sub (box_h box) (num_times vbH s)) (of_Z 2) |}.
Definition panTopologyCamera (start : TopologyCamera) (dx dy : number) (canvas : Canvas) (box : Box) : TopologyCamera :=
  match meetFit start canvas box with
  | None => start
  | Some fit => {| zoom := zoom start; cam_x := num_sub (cam_x start) (num_quot dx (scale fit));
                   cam_y := num_sub (cam_y start) (num_quot dy (scale fit)) |}
  end.
Definition with_zoom (cam : TopologyCamera) (z : number) : TopologyCamera :=
  {| zoom := z; cam_x := cam_x cam; cam_y := cam_y cam |}.
Definition zoomTopologyCameraAt (cam : TopologyCamera) (z : number) (canvas : Canvas) (box : Box) (px py : number) :
    TopologyCamera :=
  match meetFit cam canvas box, meetFit (with_zoom cam z) canvas box with
  | Some before, Some after =>
      let ux := num_add (cam_x cam) (num_quot (num_sub px (offX before)) (scale before)) in
      let uy := num_add (cam_y cam) (num_quot (num_sub py (offY before)) (scale before)) in
      {| zoom := z; cam_x := num_sub ux (num_quot (num_sub px (offX after)) (scale after));
         cam_y := num_sub uy (num_quot (num_sub py (offY after)) (scale after)) |}
  | _, _ => with_zoom cam z
  end.
Definition rowSize (kind : TopologyKind) (count : nat) : Z :=
  let many (n : nat) (a b : Z) := if bool_decide (n < count)%nat then a else b in
  match kind with
  | KNode => many 6%nat 40 52 | KService => many 8%nat 32 44 | KWorkload => many 10%nat 28 36
  | KPod => many 10%nat 28 36 | KPvc => many 6%nat 28 36
  end.
Definition of_nat (n : nat) : number := of_Z (Z.of_nat n).
Definition canvas_width (widest : nat) : number := num_max MIN_CANVAS (num_times (of_nat (S widest)) ITEM_SPACING).
Definition canvas_height (width : number) : number :=
  num_min MAX_CANVAS_HEIGHT (num_max MIN_CANVAS (num_quot width CANVAS_ASPECT)).
Definition place_x (width : number) (index count : nat) : number :=
  num_times (num_quot width (of_nat (S count))) (of_nat (S index)).

(** *** The graph *)

Definition Multi := list (jstring * list jstring).
(** [push(map, key, value)] *)
Definition push (m : Multi) (kv : jstring * jstring) : Multi :=
  assoc_set kv.1 (default [] (assoc kv.1 m) ++ [kv.2]) m.
Definition push_all (m : Multi) (l : list (jstring * jstring)) : Multi := foldl push m l.
Record Relations := {
  podsByNode : Multi;
  podsBySvc : Multi;
  svcsByPod : Multi;
  podsByWl : Multi;
  wlsByPod : Multi;
  pvcsByPod : Multi;
  podsByPvc : Multi
}.
Definition no_relations : Relations :=
  {| podsByNode := []; podsBySvc := []; svcsByPod := []; podsByWl := []; wlsByPod := []; pvcsByPod := [];
     podsByPvc := [] |}.
Definition swap (kv : jstring * jstring) : jstring * jstring := (kv.2, kv.1).
(** [nodeById.get(id)]: the last one added. *)
Definition nodeById (g : list TopologyNode) (id : jstring) : option TopologyNode :=
  last (filter (λ n, tn_id n = id) g).
Definition has_node (g : list TopologyNode) (id : jstring) : bool :=
  match nodeById g id with Some _ => true | None => false end.
Definition pod_node_of (p : Parsed) : jstring := str (field_of (field (p_item p) "spec") "nodeName").
Definition id_of_pod (p : Parsed) : jstring := pod_id (p_ns p) (p_name p).
Definition id_of_service (s : Parsed) : jstring := service_id (p_ns s) (p_name s).
Definition id_of_workload (w : WorkloadKind * Parsed) : jstring := workload_id w.1 (p_ns w.2) (p_name w.2).
Definition svcSelectors (svcs : list Parsed) : list (jstring * Labels) :=
  foldl (λ m s, assoc_set (id_of_service s) (stringMap (field_of (field (p_item s) "spec") "selector")) m) [] svcs.
Definition claim_of (vol : jsval) : jstring :=
  str (field_of (field_of vol "persistentVolumeClaim") "claimName").

(** The loop over the pods: what each inner loop pushes. *)
Definition pod_on_node (g : list TopologyNode) (p : Parsed) : list (jstring * jstring) :=
  let id := node_id (pod_node_of p) in if has_node g id then [(id, id_of_pod p)] else [].
Definition pod_services (svcs : list Parsed) (p : Parsed) : list (jstring * jstring) :=
  omap (λ s, if js_eqb (p_ns s) (p_ns p)
             then if serviceSelects (default [] (assoc (id_of_service s) (svcSelectors svcs))) (p_labels p)
                  then Some (id_of_service s, id_of_pod p) else None
             else None) svcs.
Definition pod_workloads (wls : list (WorkloadKind * Parsed)) (p : Parsed) : list (jstring * jstring) :=
  omap (λ w, if js_eqb (p_ns w.2) (p_ns p)
             then if labelSelectorSelects (field_of (field (p_item w.2) "spec") "selector") (p_labels p)
                  then Some (id_of_workload w, id_of_pod p) else None
             else None) wls.
Definition pod_claims (g : list TopologyNode) (p : Parsed) : list (jstring * jstring) :=
  omap (λ vol, let claim := claim_of vol in
               let id := pvc_id (p_ns p) claim in
               if negb (js_eqb claim ""%js) && has_node g id then Some (id_of_pod p, id) else None)
    (listOr (field_of (field (p_item p) "spec") "volumes")).
Definition relate_pod (g : list TopologyNode) (svcs : list Parsed) (wls : list (WorkloadKind * Parsed))
    (r : Relations) (p : Parsed) : Relations :=
  {| podsByNode := push_all (podsByNode r) (pod_on_node g p);
     podsBySvc := push_all (podsBySvc r) (pod_services svcs p);
     svcsByPod := push_all (svcsByPod r) (swap <$> pod_services svcs p);
     podsByWl := push_all (podsByWl r) (pod_workloads wls p);
     wlsByPod := push_all (wlsByPod r) (swap <$> pod_workloads wls p);
     pvcsByPod := push_all (pvcsByPod r) (pod_claims g p);
     podsByPvc := push_all (podsByPvc r) (swap <$> pod_claims g p) |}.

(** [edge(from, to, kind)], with the keys seen so far. *)
Definition edge_key (e : TopologyEdge) : jstring := (from e +++ ">" +++ to e)%js.
Definition edge (st : list TopologyEdge * list jstring) (e : TopologyEdge) : list TopologyEdge * list jstring :=
  if decide (edge_key e ∈ st.2) then st else (st.1 ++ [e], st.2 ++ [edge_key e]).
Definition nodeOfPod (g : list TopologyNode) (podId : jstring) : option jstring :=
  match nodeById g podId with
  | Some n => if js_eqb (nodeName n) ""%js then None else Some (node_id (nodeName n))
  | None => None
  end.
(** The calls of [edge], in order. *)
Definition service_edges (g : list TopologyNode) (r : Relations) (svcId podId : jstring) : list TopologyEdge :=
  match nodeOfPod g podId with
  | Some nodeId => if has_node g nodeId then [{| from := nodeId; to := svcId; edge_kind := node_service |}] else []
  | None => []
  end ++
  match assoc podId (wlsByPod r) with
  | None => [{| from := svcId; to := podId; edge_kind := service_pod |}]
  | Some wlIds => (λ w, {| from := svcId; to := w; edge_kind := service_workload |}) <$> wlIds
  end.
Definition edge_calls (g : list TopologyNode) (r : Relations) : list TopologyEdge :=
  flat_map (λ e, flat_map (service_edges g r e.1) e.2) (podsBySvc r) ++
  flat_map (λ e, (λ p, {| from := e.1; to := p; edge_kind := workload_pod |}) <$> e.2) (podsByWl r) ++
  flat_map (λ e, (λ c, {| from := e.1; to := c; edge_kind := pod_pvc |}) <$> e.2) (pvcsByPod r).
Definition topology_edges (g : list TopologyNode) (r : Relations) : list TopologyEdge :=
  (foldl edge ([], []) (edge_calls g r)).1.

(** *** The detail panel *)

Definition nameOf (g : list TopologyNode) (id : jstring) : jstring :=
  match nodeById g id with Some n => tn_name n | None => id end.
(** [[...new Set(ids)]] *)
Definition unique (l : list jstring) : list jstring :=
  foldl (λ acc x, if decide (x ∈ acc) then acc else acc ++ [x]) [] l.
Definition got (m : Multi) (k : jstring) : list jstring := default [] (assoc k m).
Definition addRelated (kind : TopologyKind) (names : list jstring) : list TopologyRelated :=
  match names with
  | [] => []
  | _ => [{| rel_kind := kind; rel_items := take RELATED_LIMIT names; rel_total := length names |}]
  end.
Definition related_of (g : list TopologyNode) (r : Relations) (n : TopologyNode) : list TopologyRelated :=
  match tn_kind n with
  | KNode => addRelated KPod (nameOf g <$> got (podsByNode r) (tn_id n))
  | KService =>
      let podIds := got (podsBySvc r) (tn_id n) in
      addRelated KWorkload ((λ id, (match nodeById g id with Some w => workloadKind w | None => "undefined"%js end
        +++ "/" +++ nameOf g id)%js) <$> unique (flat_map (got (wlsByPod r)) podIds)) ++
      addRelated KPod (nameOf g <$> podIds)
  | KWorkload =>
      let podIds := got (podsByWl r) (tn_id n) in
      addRelated KService (nameOf g <$> unique (flat_map (got (svcsByPod r)) podIds)) ++
      addRelated KPod (nameOf g <$> podIds) ++
      addRelated KNode (unique (filter (λ s, s ≠ ""%js)
        ((λ p, match nodeById g p with Some x => nodeName x | None => ""%js end) <$> podIds)))
  | KPod => addRelated KService (nameOf g <$> got (svcsByPod r) (tn_id n)) ++
            addRelated KPvc (nameOf g <$> got (pvcsByPod r) (tn_id n))
  | KPvc => addRelated KPod (nameOf g <$> got (podsByPvc r) (tn_id n))
  end.
(** A selector with no pod behind it. *)
Definition unmatched (complete : bool) (svcs : list Parsed) (r : Relations) (n : TopologyNode) : bool :=
  bool_decide (tn_kind n = KService) && complete &&
  negb (bool_decide (default [] (assoc (tn_id n) (svcSelectors svcs)) = [])) &&
  bool_decide (got (podsBySvc r) (tn_id n) = []).
Definition finish_node (g : list TopologyNode) (complete : bool) (svcs : list Parsed) (r : Relations)
    (n : TopologyNode) : TopologyNode :=
  let bad := unmatched complete svcs r n in
  {| tn_id := tn_id n; tn_kind := tn_kind n; tn_name := tn_name n; tn_ns := tn_ns n; workloadKind := workloadKind n;
     abbr := abbr n; href := href n; tn_health := if bad then warning else tn_health n;
     tn_status := if bad then Text "No matching pods"%js else tn_status n; nodeName := nodeName n;
     volumeName := volumeName n; containers := containers n; related := related n ++ related_of g r n;
     tn_x := tn_x n; tn_y := tn_y n; tn_size := tn_size n |}.

Section View.
Context (lc : jstring → jstring → comparison).

Definition by_name (a b : Parsed) : comparison :=
  match lc (p_ns a) (p_ns b) with Eq => lc (p_name a) (p_name b) | c => c end.
Definition parseItems (page : option ResourceListPage) (namespaced : bool) : list Parsed * nat :=
  let read := parse_item namespaced <$> page_items page in
  (js_sort by_name (omap id read), length (filter (λ o, o = None) read)).
Definition by_kind (a b : WorkloadKind * Parsed) : comparison :=
  match by_name a.2 b.2 with Eq => lc (kind_name a.1) (kind_name b.1) | c => c end.
Definition nodesIn (pages : TopologyPages) : list Parsed := (parseItems (pages SNodes) false).1.
Definition svcsIn (pages : TopologyPages) : list Parsed := (parseItems (pages SServices) true).1.
Definition podsIn (pages : TopologyPages) : list Parsed := (parseItems (pages SPods) true).1.
Definition pvcsIn (pages : TopologyPages) : list Parsed := (parseItems (pages SPvcs) true).1.
Definition workloadsIn (pages : TopologyPages) : list (WorkloadKind * Parsed) :=
  js_sort by_kind (flat_map (λ k, pair k <$> (parseItems (pages (SWorkload k)) true).1) WORKLOAD_KINDS).
Definition skippedIn (pages : TopologyPages) : nat :=
  ((parseItems (pages SNodes) false).2 + (parseItems (pages SServices) true).2 + (parseItems (pages SPods) true).2 +
   (parseItems (pages SPvcs) true).2 +
   foldl (λ n k, n + (parseItems (pages (SWorkload k)) true).2) 0 WORKLOAD_KINDS)%nat.
Definition rowsOf (pages : TopologyPages) (k : TopologyKind) : TopologyRowCoverage :=
  match k with
  | KNode => rowCoverage pages [SNodes] (length (nodesIn pages))
  | KService => rowCoverage pages [SServices] (length (svcsIn pages))
  | KWorkload => rowCoverage pages (SWorkload <$> WORKLOAD_KINDS) (length (workloadsIn pages))
  | KPod => rowCoverage pages [SPods] (length (podsIn pages))
  | KPvc => rowCoverage pages [SPvcs] (length (pvcsIn pages))
  end.
Definition widest (pages : TopologyPages) : nat :=
  foldl Nat.max 0%nat [length (nodesIn pages); length (svcsIn pages); length (workloadsIn pages);
    length (podsIn pages); length (pvcsIn pages)].

Section Rows.
Context (width height : number).
Definition blank (id : jstring) (kind : TopologyKind) (name ns wk ab hr : jstring) (hs : TopologyHealth * Status)
    (nn vn : jstring) (cs : list jstring) (i count : nat) : TopologyNode :=
  {| tn_id := id; tn_kind := kind; tn_name := name; tn_ns := ns; workloadKind := wk; abbr := ab; href := hr;
     tn_health := hs.1; tn_status := hs.2; nodeName := nn; volumeName := vn; containers := cs; related := [];
     tn_x := place_x width i count; tn_y := num_times height (ROW_Y kind); tn_size := rowSize kind count |}.
Definition node_row (count : nat) (ip : nat * Parsed) : option TopologyNode :=
  let (i, p) := ip in
  h ← path_of "/cluster/nodes"%js [p_name p];
  Some (blank (node_id (p_name p)) KNode (p_name p) ""%js ""%js ("N" +++ decimal (N.of_nat (S i)))%js h
          (nodeHealth (p_item p)) ""%js ""%js [] i count).
Definition service_row (count : nat) (ip : nat * Parsed) : option TopologyNode :=
  let (i, p) := ip in
  h ← path_of "/networking/services"%js [p_ns p; p_name p];
  Some (blank (id_of_service p) KService (p_name p) (p_ns p) ""%js "SVC"%js h (healthy, Text "Active"%js)
          ""%js ""%js [] i count).
Definition workload_row (count : nat) (iw : nat * (WorkloadKind * Parsed)) : option TopologyNode :=
  let '(i, (k, p)) := iw in
  h ← path_of (WORKLOAD_KIND_HREFS k) [p_ns p; p_name p];
  Some (blank (id_of_workload (k, p)) KWorkload (p_name p) (p_ns p) (WORKLOAD_SINGULAR k) (WORKLOAD_ABBR k) h
          (workloadHealth k (p_item p)) ""%js ""%js [] i count).
Definition pod_row (count : nat) (ip : nat * Parsed) : option TopologyNode :=
  let (i, p) := ip in
  h ← path_of "/workloads/pods"%js [p_ns p; p_name p];
  let spec := obj_or_empty (field (p_item p) "spec") in
  Some (blank (id_of_pod p) KPod (p_name p) (p_ns p) ""%js "P"%js h (podHealth (p_item p))
          (str (field spec "nodeName")) ""%js
          (filter (λ n, n ≠ ""%js) ((λ c, str (field_of c "name")) <$> listOr (field spec "containers"))) i count).
Definition pvc_row (count : nat) (ip : nat * Parsed) : option TopologyNode :=
  let (i, p) := ip in
  h ← path_of "/storage/pvcs"%js [p_ns p; p_name p];
  Some (blank (pvc_id (p_ns p) (p_name p)) KPvc (p_name p) (p_ns p) ""%js "PVC"%js h (pvcHealth (p_item p))
          ""%js (str (field_of (field (p_item p) "spec") "volumeName")) [] i count).
(** One row of the graph, drawn left to right. *)
Definition draw_row {A} (f : nat → nat * A → option TopologyNode) (l : list A) : option (list TopologyNode) :=
  mapM (f (length l)) (imap pair l).
Definition graph_of (pages : TopologyPages) : option (list TopologyNode) :=
  ns ← draw_row node_row (nodesIn pages);
  ss ← draw_row service_row (svcsIn pages);
  ws ← draw_row workload_row (workloadsIn pages);
  ps ← draw_row pod_row (podsIn pages);
  vs ← draw_row pvc_row (pvcsIn pages);
  Some (ns ++ ss ++ ws ++ ps ++ vs).
End Rows.

Definition relations_of (pages : TopologyPages) (g : list TopologyNode) : Relations :=
  foldl (relate_pod g (svcsIn pages) (workloadsIn pages)) no_relations (podsIn pages).
Definition clusterTopologyView (pages : TopologyPages) : option TopologyView :=
  let width := canvas_width (widest pages) in
  let height := canvas_height width in
  g ← graph_of width height pages;
  let r := relations_of pages g in
  let complete := available (rowsOf pages KPod) && negb (truncated (row (rowsOf pages KPod))) in
  Some {| tv_nodes := finish_node g complete (svcsIn pages) r <$> g; tv_edges := topology_edges g r;
          tv_width := width; tv_height := height; tv_rows := rowsOf pages; tv_skipped := skippedIn pages |}.
End View.

(** ** The relations *)

(** [v] was pushed under [k]. *)
Definition rel (m : Multi) (k v : jstring) : Prop := v ∈ got m k.
Record multi_ok (m : Multi) : Prop := {
  mo_keys : NoDup m.*1;
  mo_full : ∀ k l, assoc k m = Some l → l ≠ []
}.
Lemma rel_push m kv k v : rel (push m kv) k v ↔ rel m k v ∨ (k, v) = kv.
Proof.
  destruct kv as [k0 v0]. unfold rel, got, push. cbn [fst snd]. destruct (decide (k0 = k)) as [->|Hk].
  - rewrite assoc_set_eq. cbn. rewrite elem_of_app, list_elem_of_singleton. naive_solver.
  - rewrite assoc_set_ne by done. naive_solver.
Qed.
Lemma rel_push_all l m k v : rel (push_all m l) k v ↔ rel m k v ∨ (k, v) ∈ l.
Proof.
  revert m. induction l as [|kv l IH]; intros m; [rewrite elem_of_nil; naive_solver|].
  cbn [push_all foldl]. fold (push_all (push m kv) l). rewrite IH, rel_push, elem_of_cons. naive_solver.
Qed.
Lemma multi_push_ok m kv : multi_ok m → multi_ok (push m kv).
Proof.
  intros [Hk Hf]. split; [by apply assoc_set_keys_NoDup|]. intros k l. unfold push.
  destruct (decide (kv.1 = k)) as [->|Hne]; [|rewrite assoc_set_ne by done; apply Hf].
  rewrite assoc_set_eq. intros [= <-]. by destruct (default [] _).
Qed.
Lemma push_all_ok l m : multi_ok m → multi_ok (push_all m l).
Proof. revert m. induction l as [|kv l IH]; intros m Hm; [done|]. apply IH. by apply multi_push_ok. Qed.
Lemma empty_ok : multi_ok [].
Proof. split; [constructor|done]. Qed.
(** The entries the loops over a map visit. *)
Lemma rel_entry m k v : multi_ok m → rel m k v ↔ ∃ l, (k, l) ∈ m ∧ v ∈ l.
Proof.
  intros [Hk _]. unfold rel, got. split.
  - destruct (assoc k m) as [l|] eqn:E; [|by intros ?%elem_of_nil]. intros Hv. exists l. split; [by apply assoc_elem_of|done].
  - intros (l & Hl & Hv). by rewrite (assoc_NoDup k l m Hk Hl).
Qed.
Lemma rel_none m k : multi_ok m → assoc k m = None ↔ ∀ v, ¬ rel m k v.
Proof.
  intros [_ Hf]. unfold rel, got. destruct (assoc k m) as [l|] eqn:E.
  - split; [done|]. intros H. destruct l as [|v l]; [by destruct (Hf k [])|]. destruct (H v). by left.
  - split; [|done]. intros _ v ?%elem_of_nil. done.
Qed.
(** A map filled by the loop over the pods. *)
Lemma fold_multi {A} (R : Relations → A → Relations) (proj : Relations → Multi) (f : A → list (jstring * jstring)) :
  (∀ r p, proj (R r p) = push_all (proj r) (f p)) →
  ∀ ps r, proj (foldl R r ps) = push_all (proj r) (flat_map f ps).
Proof.
  intros HR ps. induction ps as [|p ps IH]; intros r; [done|]. cbn. rewrite IH, HR. unfold push_all.
  by rewrite foldl_app.
Qed.
Lemma elem_of_flat_map {A B} (f : A → list B) l y : y ∈ flat_map f l ↔ ∃ x, x ∈ l ∧ y ∈ f x.
Proof. rewrite list_elem_of_In, in_flat_map. by setoid_rewrite list_elem_of_In. Qed.

Section Graph.
Context (lc : jstring → jstring → comparison) `{Hlc : !Comparator lc}.
Context (pages : TopologyPages) (g : list TopologyNode).
Notation svcs := (svcsIn lc pages).
Notation wls := (workloadsIn lc pages).
Notation pods := (podsIn lc pages).
Notation r := (relations_of lc pages g).

(** A pod behind a service, under a workload, with a claim. *)
Definition selects (svcId podId : jstring) : Prop := ∃ s p, s ∈ svcs ∧ p ∈ pods ∧ p_ns s = p_ns p ∧
  svcId = id_of_service s ∧ podId = id_of_pod p ∧
  serviceSelects (default [] (assoc svcId (svcSelectors svcs))) (p_labels p) = true.
Definition owns (wlId podId : jstring) : Prop := ∃ w p, w ∈ wls ∧ p ∈ pods ∧ p_ns w.2 = p_ns p ∧
  wlId = id_of_workload w ∧ podId = id_of_pod p ∧
  labelSelectorSelects (field_of (field (p_item w.2) "spec") "selector") (p_labels p) = true.
Definition mounts (podId pvcId : jstring) : Prop := ∃ p vol, p ∈ pods ∧
  vol ∈ listOr (field_of (field (p_item p) "spec") "volumes") ∧ claim_of vol ≠ ""%js ∧
  podId = id_of_pod p ∧ pvcId = pvc_id (p_ns p) (claim_of vol) ∧ has_node g pvcId = true.
Lemma selects_pairs svcId podId : selects svcId podId ↔ ∃ p, p ∈ pods ∧ (svcId, podId) ∈ pod_services svcs p.
Proof.
  unfold selects, pod_services. setoid_rewrite list_elem_of_omap. split.
  - intros (s & p & Hs & Hp & Hns & -> & -> & Hsel). exists p. split; [done|]. exists s. split; [done|].
    by rewrite (proj2 (js_eqb_eq _ _) Hns), Hsel.
  - intros (p & Hp & s & Hs & H). destruct (js_eqb _ _) eqn:En; [|done]. apply js_eqb_eq in En.
    destruct (serviceSelects _ _) eqn:Es; [|done]. injection H as <- <-. exists s, p. done.
Qed.
Lemma owns_pairs wlId podId : owns wlId podId ↔ ∃ p, p ∈ pods ∧ (wlId, podId) ∈ pod_workloads wls p.
Proof.
  unfold owns, pod_workloads. setoid_rewrite list_elem_of_omap. split.
  - intros (w & p & Hs & Hp & Hns & -> & -> & Hsel). exists p. split; [done|]. exists w. split; [done|].
    by rewrite (proj2 (js_eqb_eq _ _) Hns), Hsel.
  - intros (p & Hp & w & Hs & H). destruct (js_eqb _ _) eqn:En; [|done]. apply js_eqb_eq in En.
    destruct (labelSelectorSelects _ _) eqn:Es; [|done]. injection H as <- <-. exists w, p. done.
Qed.
Lemma mounts_pairs podId pvcId : mounts podId pvcId ↔ ∃ p, p ∈ pods ∧ (podId, pvcId) ∈ pod_claims g p.
Proof.
  unfold mounts, pod_claims. setoid_rewrite list_elem_of_omap. split.
  - intros (p & vol & Hp & Hv & Hc & -> & -> & Hh). exists p. split; [done|]. exists vol. split; [done|].
    cbv zeta. by rewrite (proj2 (js_eqb_neq _ _) Hc), Hh.
  - intros (p & Hp & vol & Hv & H). cbv zeta in H. destruct (js_eqb _ _) eqn:En; [done|]. apply js_eqb_neq in En.
    cbn [negb andb] in H. destruct (has_node _ _) eqn:Eh; [|done]. injection H as <- <-. exists p, vol. done.
Qed.

Lemma multi_of proj f : (∀ x p, proj (relate_pod g svcs wls x p) = push_all (proj x) (f p)) →
  proj no_relations = [] →
  multi_ok (proj r) ∧ ∀ k v, rel (proj r) k v ↔ ∃ p, p ∈ pods ∧ (k, v) ∈ f p.
Proof.
  intros HR H0. unfold relations_of. rewrite (fold_multi _ proj f HR), H0. split; [apply push_all_ok, empty_ok|].
  intros k v. rewrite rel_push_all, elem_of_flat_map. split; [|by right]. by intros [?%elem_of_nil|?].
Qed.
Lemma elem_of_swap k v (l : list (jstring * jstring)) : (k, v) ∈ swap <$> l ↔ (v, k) ∈ l.
Proof.
  rewrite list_elem_of_fmap. split; [by intros ([a b] & [= -> ->] & ?)|]. intros H. by exists (v, k).
Qed.
Lemma podsBySvc_spec : multi_ok (podsBySvc r) ∧ ∀ s p, rel (podsBySvc r) s p ↔ selects s p.
Proof. setoid_rewrite selects_pairs. by apply (multi_of podsBySvc (pod_services svcs)). Qed.
Lemma podsByWl_spec : multi_ok (podsByWl r) ∧ ∀ w p, rel (podsByWl r) w p ↔ owns w p.
Proof. setoid_rewrite owns_pairs. by apply (multi_of podsByWl (pod_workloads wls)). Qed.
Lemma pvcsByPod_spec : multi_ok (pvcsByPod r) ∧ ∀ p c, rel (pvcsByPod r) p c ↔ mounts p c.
Proof. setoid_rewrite mounts_pairs. by apply (multi_of pvcsByPod (pod_claims g)). Qed.
Lemma wlsByPod_spec : multi_ok (wlsByPod r) ∧ ∀ p w, rel (wlsByPod r) p w ↔ owns w p.
Proof.
  destruct (multi_of wlsByPod (λ p, swap <$> pod_workloads wls p)) as [Hok Hr]; [done|done|]. split; [done|].
  intros p w. rewrite Hr, owns_pairs. by setoid_rewrite elem_of_swap.
Qed.

(** *** Edges *)

(** What the edges say, by the ids of their ends. *)
Definition joined (k : TopologyEdgeKind) (f t : jstring) : Prop :=
  match k with
  | node_service => ∃ podId, selects t podId ∧ nodeOfPod g podId = Some f ∧ has_node g f = true
  | service_pod => selects f t ∧ ∀ w, ¬ owns w t
  | service_workload => ∃ podId, selects f podId ∧ owns t podId
  | workload_pod => owns f t
  | pod_pvc => mounts f t
  end.
Lemma service_edges_spec s p e : e ∈ service_edges g r s p ↔
  (edge_kind e = node_service ∧ to e = s ∧ nodeOfPod g p = Some (from e) ∧ has_node g (from e) = true) ∨
  (edge_kind e = service_pod ∧ from e = s ∧ to e = p ∧ ∀ w, ¬ owns w p) ∨
  (edge_kind e = service_workload ∧ from e = s ∧ owns (to e) p).
Proof.
  destruct wlsByPod_spec as [Hok Hw]. unfold service_edges. rewrite elem_of_app. destruct e as [f t k]. cbn [from to edge_kind].
  assert (H1 : {| from := f; to := t; edge_kind := k |} ∈
      match nodeOfPod g p with
      | Some n => if has_node g n then [{| from := n; to := s; edge_kind := node_service |}] else []
      | None => [] end ↔ k = node_service ∧ t = s ∧ nodeOfPod g p = Some f ∧ has_node g f = true).
  { destruct (nodeOfPod g p) as [n|]; [|rewrite elem_of_nil; naive_solver].
    destruct (has_node g n) eqn:Eh; [rewrite list_elem_of_singleton|rewrite elem_of_nil].
    - split; [by intros [= -> -> ->]|]. by intros (-> & -> & [= ->] & _).
    - split; [done|]. intros (_ & _ & [= ->] & ?). congruence. }
  rewrite H1. destruct (assoc p (wlsByPod r)) as [ws|] eqn:E.
  - assert (Hws : ∀ w, w ∈ ws ↔ owns w p) by (intros w; rewrite <- Hw; unfold rel, got; by rewrite E).
    rewrite list_elem_of_fmap. split.
    + intros [?|(w & [= -> -> ->] & H)]; [by left|]. right. right. by rewrite <- Hws.
    + intros [?|[(-> & -> & -> & Hn)|(-> & -> & H)]]; [by left| |right; exists t; by rewrite Hws].
      destruct ws as [|w ws]; [by destruct (mo_full _ Hok p [] E)|]. destruct (Hn w). apply Hws. by left.
  - pose proof (proj1 (rel_none _ p Hok) E) as Hn.
    assert (Hno : ∀ w, ¬ owns w p) by (intros w Ho; apply (Hn w); by apply Hw).
    rewrite list_elem_of_singleton. split; [intros [?|[= -> -> ->]]; [by left|right; by left]|].
    intros [?|[(-> & -> & -> & _)|(_ & _ & Ho)]]; [by left|by right|].
    by destruct (Hno t).
Qed.
Lemma edge_calls_spec e : e ∈ edge_calls g r ↔ joined (edge_kind e) (from e) (to e).
Proof.
  destruct podsBySvc_spec as [Hs1 Hs2], podsByWl_spec as [Hw1 Hw2], pvcsByPod_spec as [Hv1 Hv2].
  assert (A : e ∈ flat_map (λ x, flat_map (service_edges g r x.1) x.2) (podsBySvc r) ↔
    ∃ s p, selects s p ∧ e ∈ service_edges g r s p).
  { rewrite elem_of_flat_map. setoid_rewrite elem_of_flat_map. setoid_rewrite <- Hs2.
    setoid_rewrite (rel_entry _ _ _ Hs1). split; [intros ([s l] & ? & p & ? & ?)|intros (s & p & (l & ? & ?) & ?)].
    - exists s, p. eauto.
    - exists (s, l). cbn. eauto. }
  assert (B : ∀ k m (R : jstring → jstring → Prop), multi_ok m → (∀ a b, rel m a b ↔ R a b) →
    e ∈ flat_map (λ x, (λ y, {| from := x.1; to := y; edge_kind := k |}) <$> x.2) m ↔
    edge_kind e = k ∧ R (from e) (to e)).
  { intros k m R Hm HR. rewrite elem_of_flat_map, <- HR, (rel_entry m) by done. setoid_rewrite list_elem_of_fmap. split.
    - intros ([a l] & Ha & b & -> & Hb). cbn in *. eauto.
    - intros [<- (l & Hl & Hb)]. exists (from e, l). split; [done|]. exists (to e). by destruct e. }
  unfold edge_calls. rewrite !elem_of_app, A, (B workload_pod _ owns), (B pod_pvc _ mounts) by done.
  setoid_rewrite service_edges_spec. destruct e as [f t k]. cbn [from to edge_kind]. unfold joined.
  destruct k; split; try naive_solver.
Qed.
(** Dropping repetitions keeps one edge of every pair. *)
Lemma edges_dedup l : let out := (foldl edge ([], []) l).1 in
  (∀ e, e ∈ out → e ∈ l) ∧ NoDup (edge_key <$> out) ∧ ∀ e, e ∈ l → edge_key e ∈ edge_key <$> out.
Proof.
  assert (H : let st := foldl edge ([], []) l in st.2 = edge_key <$> st.1 ∧
    (∀ e, e ∈ st.1 → e ∈ l) ∧ NoDup (edge_key <$> st.1) ∧ ∀ e, e ∈ l → edge_key e ∈ edge_key <$> st.1).
  2: { cbv zeta in *. tauto. }
  cbv zeta. induction l as [|e l IH] using rev_ind.
  { cbn. split_and!; [done|by intros ? ?%elem_of_nil|constructor|by intros ? ?%elem_of_nil]. }
  rewrite foldl_app. cbn [foldl]. destruct (foldl edge ([], []) l) as [out seen]. destruct IH as (I1 & I2 & I3 & I4).
  cbn [fst snd] in *. subst seen. unfold edge. cbn [fst snd]. case_decide as Hk; cbn [fst snd].
  - split_and!; [done| |done|].
    + intros x Hx. apply elem_of_app. left. by apply I2.
    + intros x [Hx|Hx%list_elem_of_singleton]%elem_of_app; [by apply I4|by subst].
  - rewrite fmap_app. split_and!; [done| | |].
    + intros x [Hx|Hx]%elem_of_app; apply elem_of_app; [left; by apply I2|by right].
    + apply NoDup_app. split_and!; [done| |apply NoDup_singleton].
      intros k Hk1 Hk2%list_elem_of_singleton. cbn in Hk2. by subst.
    + intros x [Hx|Hx%list_elem_of_singleton]%elem_of_app; apply elem_of_app; [left; by apply I4|right; subst; by left].
Qed.
End Graph.

(** *** The ids of the graph *)

(** The kind an id is of. *)
Definition id_kind (id : jstring) : option TopologyKind :=
  if js_startsWith id "node/"%js then Some KNode
  else if js_startsWith id "service/"%js then Some KService
  else if js_startsWith id "workload/"%js then Some KWorkload
  else if js_startsWith id "pod/"%js then Some KPod
  else if js_startsWith id "pvc/"%js then Some KPvc
  else None.
Lemma id_kinds ns name k : id_kind (node_id name) = Some KNode ∧ id_kind (service_id ns name) = Some KService ∧
  id_kind (workload_id k ns name) = Some KWorkload ∧ id_kind (pod_id ns name) = Some KPod ∧
  id_kind (pvc_id ns name) = Some KPvc.
Proof. destruct ns as [ns], name as [name]. split_and!; reflexivity. Qed.
Lemma has_node_spec g id : has_node g id = true ↔ ∃ n, n ∈ g ∧ tn_id n = id.
Proof.
  unfold has_node, nodeById. split.
  - destruct (last _) as [n|] eqn:E; [|done]. intros _. apply last_Some_elem_of, list_elem_of_filter in E as [? ?]. eauto.
  - intros (n & Hn & Hid). destruct (last _) eqn:E; [done|]. apply last_None in E.
    assert (H : n ∈ filter (λ x, tn_id x = id) g) by (by apply list_elem_of_filter).
    rewrite E in H. by apply elem_of_nil in H.
Qed.
Lemma nodeById_spec g id n : nodeById g id = Some n → n ∈ g ∧ tn_id n = id.
Proof. intros [? ?]%last_Some_elem_of%list_elem_of_filter. done. Qed.
(** A row draws one node per entry, and nothing else. *)
Lemma draw_row_elem {A} (f : nat → nat * A → option TopologyNode) l ns : draw_row f l = Some ns →
  length ns = length l ∧
  (∀ n, n ∈ ns → ∃ i x, x ∈ l ∧ f (length l) (i, x) = Some n) ∧
  (∀ x, x ∈ l → ∃ i n, n ∈ ns ∧ f (length l) (i, x) = Some n).
Proof.
  intros H%mapM_Some. pose proof (Forall2_length _ _ _ H) as Hlen. rewrite length_imap in Hlen. split_and!; [done|..].
  - intros n [i Hi]%list_elem_of_lookup. destruct (Forall2_lookup_r _ _ _ _ _ H Hi) as ([j x] & Hj & Hf).
    rewrite list_lookup_imap in Hj. destruct (l !! i) as [y|] eqn:E; [|done]. injection Hj as <- <-.
    exists i, y. split; [by eapply list_elem_of_lookup_2|done].
  - intros x [i Hi]%list_elem_of_lookup.
    assert (Hj : imap pair l !! i = Some (i, x)) by (by rewrite list_lookup_imap, Hi).
    destruct (Forall2_lookup_l _ _ _ _ _ H Hj) as (n & Hn & Hf). exists i, n. split; [by eapply list_elem_of_lookup_2|done].
Qed.

(** What every row promises of its nodes. *)
Lemma row_facts {A} (f : nat → nat * A → option TopologyNode) (idf : A → jstring) K l ns :
  (∀ c i x n, f c (i, x) = Some n → tn_id n = idf x ∧ tn_kind n = K) → draw_row f l = Some ns →
  length ns = length l ∧ (∀ n, n ∈ ns → tn_kind n = K ∧ ∃ x, x ∈ l ∧ tn_id n = idf x) ∧
  (∀ x, x ∈ l → ∃ n, n ∈ ns ∧ tn_id n = idf x).
Proof.
  intros Hf (Hlen & H1 & H2)%draw_row_elem. split_and!; [done|..].
  - intros n (i & x & Hx & [? ?]%Hf)%H1. eauto.
  - intros x (i & n & Hn & [? ?]%Hf)%H2. eauto.
Qed.
Section Rows.
Context (lc : jstring → jstring → comparison) (w h : number).
Lemma node_row_id c i p n : node_row w h c (i, p) = Some n → tn_id n = node_id (p_name p) ∧ tn_kind n = KNode.
Proof. unfold node_row. by intros (? & _ & [= <-])%bind_Some. Qed.
Lemma service_row_id c i p n : service_row w h c (i, p) = Some n → tn_id n = id_of_service p ∧ tn_kind n = KService.
Proof. unfold service_row. by intros (? & _ & [= <-])%bind_Some. Qed.
Lemma workload_row_id c i x n : workload_row w h c (i, x) = Some n → tn_id n = id_of_workload x ∧ tn_kind n = KWorkload.
Proof. destruct x as [k p]. unfold workload_row. by intros (? & _ & [= <-])%bind_Some. Qed.
Lemma pod_row_id c i p n : pod_row w h c (i, p) = Some n → tn_id n = id_of_pod p ∧ tn_kind n = KPod.
Proof. unfold pod_row. by intros (? & _ & [= <-])%bind_Some. Qed.
Lemma pvc_row_id c i p n : pvc_row w h c (i, p) = Some n → tn_id n = pvc_id (p_ns p) (p_name p) ∧ tn_kind n = KPvc.
Proof. unfold pvc_row. by intros (? & _ & [= <-])%bind_Some. Qed.

Record drawn (pages : TopologyPages) (g : list TopologyNode) : Prop := {
  dr_kind : ∀ n, n ∈ g → id_kind (tn_id n) = Some (tn_kind n);
  dr_services : ∀ s, s ∈ svcsIn lc pages → ∃ n, n ∈ g ∧ tn_id n = id_of_service s;
  dr_workloads : ∀ x, x ∈ workloadsIn lc pages → ∃ n, n ∈ g ∧ tn_id n = id_of_workload x;
  dr_pods : ∀ p, p ∈ podsIn lc pages → ∃ n, n ∈ g ∧ tn_id n = id_of_pod p;
  dr_active : ∀ n, n ∈ g → tn_kind n = KService → tn_health n = healthy;
  dr_length : length g = (length (nodesIn lc pages) + length (svcsIn lc pages) + length (workloadsIn lc pages) +
    length (podsIn lc pages) + length (pvcsIn lc pages))%nat
}.
Lemma graph_drawn pages g : graph_of lc w h pages = Some g → drawn pages g.
Proof.
  unfold graph_of. intros (ns & Hn & (ss & Hs & (ws & Hw & (ps & Hp & (vs & Hv & [= <-])%bind_Some)%bind_Some)%bind_Some)%bind_Some)%bind_Some.
  destruct (row_facts _ _ _ _ _ node_row_id Hn) as (Ln & Kn & _), (row_facts _ _ _ _ _ service_row_id Hs) as (Ls & Ks & Es),
    (row_facts _ _ _ _ _ workload_row_id Hw) as (Lw & Kw & Ew), (row_facts _ _ _ _ _ pod_row_id Hp) as (Lp & Kp & Ep),
    (row_facts _ _ _ _ _ pvc_row_id Hv) as (Lv & Kv & _).
  split.
  - intros n. rewrite !elem_of_app.
    intros [(-> & x & _ & ->)%Kn|[(-> & x & _ & ->)%Ks|[(-> & x & _ & ->)%Kw|[(-> & x & _ & ->)%Kp|(-> & x & _ & ->)%Kv]]]].
    all: apply (id_kinds ""%js ""%js deployments) || apply id_kinds.
    all: exact ""%js || exact deployments.
  - intros s (n & ? & ?)%Es. exists n. rewrite !elem_of_app. auto.
  - intros s (n & ? & ?)%Ew. exists n. rewrite !elem_of_app. auto.
  - intros s (n & ? & ?)%Ep. exists n. rewrite !elem_of_app. auto 6.
  - intros n. rewrite !elem_of_app. intros [[-> _]%Kn|[Hin|[[-> _]%Kw|[[-> _]%Kp|[-> _]%Kv]]]]; try done. intros _.
    destruct (draw_row_elem _ _ _ Hs) as (_ & H & _). destruct (H n Hin) as (i & x & _ & Hx).
    unfold service_row in Hx. by apply bind_Some in Hx as (? & _ & [= <-]).
  - rewrite !length_app. lia.
Qed.
End Rows.

(** ** What the graph says *)

(** The rows an edge runs between. *)
Definition ends (k : TopologyEdgeKind) : TopologyKind * TopologyKind :=
  match k with
  | node_service => (KNode, KService) | service_workload => (KService, KWorkload) | service_pod => (KService, KPod)
  | workload_pod => (KWorkload, KPod) | pod_pvc => (KPod, KPvc)
  end.
Lemma ends_inj a b : ends a = ends b → a = b.
Proof. by destruct a, b. Qed.
Lemma app_cons_inj {A} (c : A) a a' b b' : c ∉ a → c ∉ a' → a ++ c :: b = a' ++ c :: b' → a = a' ∧ b = b'.
Proof.
  revert a'. induction a as [|x a IH]; intros [|x' a'] Ha Ha'; cbn.
  - by intros [= ->].
  - intros [= <- _]. destruct Ha'. by left.
  - intros [= -> _]. destruct Ha. by left.
  - intros [= -> H]. destruct (IH a') as [-> ->]; [by intros ?; apply Ha; right|by intros ?; apply Ha'; right|done|done].
Qed.

Section Sound.
Context (lc : jstring → jstring → comparison) (pages : TopologyPages) (g : list TopologyNode).
Context (Hg : drawn lc pages g).

Lemma node_kind id n : n ∈ g → tn_id n = id → ∀ k, id_kind id = Some k → tn_kind n = k.
Proof. intros Hn <- k Hk. pose proof (dr_kind _ _ _ Hg n Hn). congruence. Qed.
(** Both ends of an edge are nodes of the rows it runs between. *)
Lemma joined_nodes k f t : joined lc pages g k f t →
  (∃ a, a ∈ g ∧ tn_id a = f ∧ tn_kind a = (ends k).1) ∧ (∃ b, b ∈ g ∧ tn_id b = t ∧ tn_kind b = (ends k).2).
Proof.
  assert (Hsvc : ∀ s p, selects lc pages s p → (∃ a, a ∈ g ∧ tn_id a = s ∧ tn_kind a = KService) ∧
    ∃ b, b ∈ g ∧ tn_id b = p ∧ tn_kind b = KPod).
  { intros s p (x & y & Hx & Hy & _ & -> & -> & _).
    destruct (dr_services _ _ _ Hg x Hx) as (a & Ha & Ea), (dr_pods _ _ _ Hg y Hy) as (b & Hb & Eb).
    split; [exists a|exists b]; (split; [done|]; split; [done|]).
    - eapply node_kind; [done|exact Ea|]. apply (id_kinds _ _ deployments).
    - eapply node_kind; [done|exact Eb|]. apply (id_kinds _ _ deployments). }
  assert (Hwl : ∀ w p, owns lc pages w p → (∃ a, a ∈ g ∧ tn_id a = w ∧ tn_kind a = KWorkload) ∧
    ∃ b, b ∈ g ∧ tn_id b = p ∧ tn_kind b = KPod).
  { intros w p (x & y & Hx & Hy & _ & -> & -> & _).
    destruct (dr_workloads _ _ _ Hg x Hx) as (a & Ha & Ea), (dr_pods _ _ _ Hg y Hy) as (b & Hb & Eb).
    split; [exists a|exists b]; (split; [done|]; split; [done|]).
    - eapply node_kind; [done|exact Ea|]. apply id_kinds.
    - eapply node_kind; [done|exact Eb|]. apply (id_kinds _ _ deployments). }
  destruct k; cbn [joined ends fst snd].
  - intros (p & [Hs _]%Hsvc & Hn & (a & Ha & Ea)%has_node_spec). split; [|done]. exists a. split_and!; [done|done|].
    unfold nodeOfPod in Hn. destruct (nodeById g p) as [x|]; [|done]. destruct (js_eqb _ _); [done|]. injection Hn as Hn.
    eapply node_kind; [done|exact Ea|]. rewrite <- Hn. apply (id_kinds ""%js _ deployments).
  - intros (p & [Hs _]%Hsvc & [Hw _]%Hwl). done.
  - intros [Hs%Hsvc _]. done.
  - apply Hwl.
  - intros (p & vol & Hp & _ & _ & -> & -> & (b & Hb & Eb)%has_node_spec).
    destruct (dr_pods _ _ _ Hg p Hp) as (a & Ha & Ea). split; [exists a|exists b]; (split; [done|]; split; [done|]).
    + eapply node_kind; [done|exact Ea|]. apply (id_kinds _ _ deployments).
    + eapply node_kind; [done|exact Eb|]. apply (id_kinds _ _ deployments).
Qed.
(** No id has the character that separates the two ids of a key. *)
Definition plain_ids : Prop := ∀ n, n ∈ g → 62%N ∉ units (tn_id n).
Lemma key_inj e e' : plain_ids → joined lc pages g (edge_kind e) (from e) (to e) →
  joined lc pages g (edge_kind e') (from e') (to e') → edge_key e = edge_key e' → e = e'.
Proof.
  intros Hpl H1 H2 Hkey. destruct (joined_nodes _ _ _ H1) as [(a & Ha & Ea & Ka) (b & Hb & Eb & Kb)],
    (joined_nodes _ _ _ H2) as [(a' & Ha' & Ea' & Ka') (b' & Hb' & Eb' & Kb')].
  pose proof (f_equal units Hkey) as Hu. unfold edge_key, js_app in Hu. cbn [units] in Hu.
  apply app_cons_inj in Hu as [Hf Ht]; [|rewrite <- Ea; by apply Hpl|rewrite <- Ea'; by apply Hpl].
  destruct e as [f t k], e' as [f' t' k']. cbn [from to edge_kind] in *.
  destruct f as [f], f' as [f'], t as [t], t' as [t']. cbn [units] in *. subst f' t'. f_equal. apply ends_inj.
  pose proof (dr_kind _ _ _ Hg a Ha). pose proof (dr_kind _ _ _ Hg a' Ha').
  pose proof (dr_kind _ _ _ Hg b Hb). pose proof (dr_kind _ _ _ Hg b' Hb').
  destruct (ends k), (ends k'). cbn in *. congruence.
Qed.
End Sound.

Lemma view_graph lc pages v : clusterTopologyView lc pages = Some v →
  ∃ g r, drawn lc pages g ∧ r = relations_of lc pages g ∧ tv_edges v = topology_edges g r ∧
    tv_nodes v = finish_node g (available (rowsOf lc pages KPod) && negb (truncated (row (rowsOf lc pages KPod))))
      (svcsIn lc pages) r <$> g ∧ tv_skipped v = skippedIn lc pages.
Proof.
  unfold clusterTopologyView. intros (g & Hg & [= <-])%bind_Some. exists g, (relations_of lc pages g).
  split_and!; try done. by eapply graph_drawn.
Qed.

(** *** The finished nodes *)

Section Finished.
Context (lc : jstring → jstring → comparison) (pages : TopologyPages).
Context (g0 : list TopologyNode) (complete : bool) (ss : list Parsed) (r : Relations).
Notation done_ := (finish_node g0 complete ss r).

Lemma nodeById_finish g id : nodeById (done_ <$> g) id = done_ <$> nodeById g id.
Proof.
  unfold nodeById. rewrite <- fmap_last. f_equal. induction g as [|n g IH]; [done|]. rewrite fmap_cons, !filter_cons.
  change (tn_id (done_ n)) with (tn_id n). case_decide; cbn; by rewrite IH.
Qed.
Lemma has_node_finish g id : has_node (done_ <$> g) id = has_node g id.
Proof. unfold has_node. rewrite nodeById_finish. by destruct (nodeById g id). Qed.
Lemma nodeOfPod_finish g id : nodeOfPod (done_ <$> g) id = nodeOfPod g id.
Proof. unfold nodeOfPod. rewrite nodeById_finish. by destruct (nodeById g id). Qed.
(** The panel's work on the nodes changes no relation. *)
Lemma joined_finish g k f t : joined lc pages (done_ <$> g) k f t ↔ joined lc pages g k f t.
Proof.
  destruct k; cbn [joined]; try done.
  - setoid_rewrite nodeOfPod_finish. by rewrite has_node_finish.
  - unfold mounts. setoid_rewrite has_node_finish. done.
Qed.
End Finished.

Lemma edges_joined lc pages g e : e ∈ topology_edges g (relations_of lc pages g) →
  joined lc pages g (edge_kind e) (from e) (to e).
Proof. intros H. apply edge_calls_spec. by apply edges_dedup. Qed.
Lemma edges_distinct g r : NoDup ((λ e, (from e, to e)) <$> topology_edges g r).
Proof.
  destruct (edges_dedup (edge_calls g r)) as (_ & Hnd & _). unfold topology_edges.
  apply (NoDup_fmap_1 (λ ft, (ft.1 +++ ">" +++ ft.2)%js)). by rewrite <- list_fmap_compose.
Qed.

(** C12. Everything drawn is true. Each edge of the map stands for a relation the objects
    state of themselves (a pod's node, a selector of the same namespace, a mounted claim),
    it runs between two drawn nodes of the rows its kind names, and no pair of nodes is
    joined twice. *)
Theorem topology_graph_sound lc pages v : clusterTopologyView lc pages = Some v →
  (∀ e, e ∈ tv_edges v → joined lc pages (tv_nodes v) (edge_kind e) (from e) (to e) ∧
    (∃ a, a ∈ tv_nodes v ∧ tn_id a = from e ∧ tn_kind a = (ends (edge_kind e)).1) ∧
    (∃ b, b ∈ tv_nodes v ∧ tn_id b = to e ∧ tn_kind b = (ends (edge_kind e)).2)) ∧
  NoDup ((λ e, (from e, to e)) <$> tv_edges v).
Proof.
  intros (g & r & Hg & -> & -> & -> & _)%view_graph. split; [|apply edges_distinct].
  intros e He%edges_joined. rewrite joined_finish. split; [done|].
  destruct (joined_nodes _ _ _ Hg _ _ _ He) as [(a & Ha & ? & ?) (b & Hb & ? & ?)].
  split; eexists; (split; [apply list_elem_of_fmap_2|]); [exact Ha|done|exact Hb|done].
Qed.

(** C13. Nothing is left out. When no id holds the character the edge keys are joined with (a
    Kubernetes name cannot), every relation the objects state is an edge of the map: the
    deduplication drops repetitions only. *)
Theorem topology_edges_complete lc pages v k f t : clusterTopologyView lc pages = Some v →
  plain_ids (tv_nodes v) → joined lc pages (tv_nodes v) k f t →
  {| from := f; to := t; edge_kind := k |} ∈ tv_edges v.
Proof.
  intros (g & r & Hg & -> & -> & Hn & _)%view_graph. rewrite Hn, joined_finish. intros Hpl Hj.
  set (e := {| from := f; to := t; edge_kind := k |}). change (joined lc pages g (edge_kind e) (from e) (to e)) in Hj.
  destruct (edges_dedup (edge_calls g (relations_of lc pages g))) as (Hsub & _ & Hall).
  destruct (proj1 (list_elem_of_fmap _ _ _) (Hall e (proj2 (edge_calls_spec _ _ _ _) Hj))) as (e' & Hkey & He').
  rewrite (key_inj lc pages g Hg e e'); [done| |done|by apply edges_joined|done].
  intros n Hin. exact (Hpl _ (list_elem_of_fmap_2 _ _ _ Hin)).
Qed.

(** *** Accounting *)

Section Counts.
Context (lc : jstring → jstring → comparison).
Lemma parseItems_count page b : (length (parseItems lc page b).1 + (parseItems lc page b).2 = length (page_items page))%nat.
Proof.
  unfold parseItems. cbn [fst snd]. rewrite js_sort_length, <- (length_fmap (parse_item b) (page_items page)).
  induction (parse_item b <$> page_items page) as [|[x|] l IH]; [done|..]; cbn [omap list_omap id]; rewrite filter_cons.
  - rewrite decide_False by done. cbn. lia.
  - rewrite decide_True by done. cbn. lia.
Qed.
Definition SOURCES : list TopologySource := [SNodes; SServices; SPods; SPvcs] ++ (SWorkload <$> WORKLOAD_KINDS).
Lemma rows_count pages : (length (nodesIn lc pages) + length (svcsIn lc pages) + length (workloadsIn lc pages) +
  length (podsIn lc pages) + length (pvcsIn lc pages) + skippedIn lc pages =
  sum_list ((λ s, length (page_items (pages s))) <$> SOURCES))%nat.
Proof.
  unfold skippedIn, workloadsIn, nodesIn, svcsIn, podsIn, pvcsIn. rewrite js_sort_length.
  cbn [SOURCES fmap list_fmap app WORKLOAD_KINDS flat_map foldl sum_list sum_list_with id].
  rewrite !length_app, !length_fmap. cbn [length].
  pose proof (parseItems_count (pages SNodes) false). pose proof (λ s, parseItems_count (pages s) true) as Ht.
  pose proof (Ht SServices). pose proof (Ht SPods). pose proof (Ht SPvcs). pose proof (λ k, Ht (SWorkload k)) as Hw.
  pose proof (Hw deployments). pose proof (Hw statefulsets). pose proof (Hw daemonsets). lia.
Qed.
End Counts.

(** A service whose selector is known to choose no pod. *)
Definition deserted (lc : jstring → jstring → comparison) (pages : TopologyPages) (n : TopologyNode) : Prop :=
  tn_kind n = KService ∧
  (∃ page, pages SPods = Some page ∧ truncated (page_coverage page) = false) ∧
  default [] (assoc (tn_id n) (svcSelectors (svcsIn lc pages))) ≠ [] ∧ ∀ podId, ¬ selects lc pages (tn_id n) podId.
Lemma complete_page lc pages :
  available (rowsOf lc pages KPod) && negb (truncated (row (rowsOf lc pages KPod))) = true ↔
  ∃ page, pages SPods = Some page ∧ truncated (page_coverage page) = false.
Proof.
  cbn [rowsOf]. unfold rowCoverage. cbn [omap list_omap]. destruct (pages SPods) as [page|]; cbn -[page_coverage].
  - rewrite orb_false_r, negb_true_iff. naive_solver.
  - naive_solver.
Qed.
Lemma unmatched_spec lc pages g n :
  unmatched (available (rowsOf lc pages KPod) && negb (truncated (row (rowsOf lc pages KPod)))) (svcsIn lc pages)
    (relations_of lc pages g) n = true ↔ deserted lc pages n.
Proof.
  unfold unmatched, deserted. rewrite <- (complete_page lc). set (complete := _ && negb (truncated _)).
  rewrite !andb_true_iff, negb_true_iff, !bool_decide_eq_true, bool_decide_eq_false. destruct (podsBySvc_spec lc pages g) as [_ Hs].
  assert (E : got (podsBySvc (relations_of lc pages g)) (tn_id n) = [] ↔ ∀ p, ¬ selects lc pages (tn_id n) p).
  { setoid_rewrite <- Hs. unfold rel. split; [intros -> p ?%elem_of_nil; done|]. intros H.
    destruct (got _ _) as [|x l] eqn:El; [done|]. destruct (H x). by left. }
  rewrite E. tauto.
Qed.

(** C23. The map accounts for every object it was given: the nodes it draws and the objects it
    says it skipped are together all the items of the seven pages. And a service is marked,
    with the words "No matching pods", exactly when its selector is not empty, the pod
    page is there and is the whole population, and no pod of it is selected. *)
Theorem topology_accounts lc pages v : clusterTopologyView lc pages = Some v →
  (length (tv_nodes v) + tv_skipped v = sum_list ((λ s, length (page_items (pages s))) <$> SOURCES))%nat ∧
  ∀ n, n ∈ tv_nodes v → tn_kind n = KService →
    (tn_health n = warning ↔ deserted lc pages n) ∧
    (deserted lc pages n → tn_status n = Text "No matching pods"%js) ∧ tn_health n ≠ error.
Proof.
  intros (g & r & Hg & -> & _ & -> & ->)%view_graph. split.
  { rewrite length_fmap, (dr_length _ _ _ Hg). apply rows_count. }
  intros m (n & -> & Hn)%list_elem_of_fmap Hk. change (tn_kind n = KService) in Hk.
  pose proof (dr_active _ _ _ Hg n Hn Hk) as Hh. rewrite <- unmatched_spec with (g := g).
  set (complete := available _ && _). set (bad := unmatched complete (svcsIn lc pages) (relations_of lc pages g)).
  change (bad (finish_node g complete (svcsIn lc pages) (relations_of lc pages g) n)) with (bad n).
  unfold finish_node. cbn [tn_health tn_status]. fold bad. rewrite Hh. by destruct (bad n).
Qed.

(** *** When the map is drawn *)

Definition encodable (s : jstring) : Prop := is_Some (encodeURIComponent s).
Definition linkable (p : Parsed) : Prop := encodable (p_ns p) ∧ encodable (p_name p).
Definition namespaced (s : TopologySource) : bool := match s with SNodes => false | _ => true end.
Lemma path_of_is_Some page ss : is_Some (path_of page ss) ↔ Forall encodable ss.
Proof.
  revert page. induction ss as [|s ss IH]; intros page; cbn [path_of]; [split; [constructor|done]|].
  rewrite Forall_cons. unfold encodable at 1. destruct (encodeURIComponent s) as [e|]; cbn [mbind option_bind].
  - rewrite IH. split; [done|by intros [_ ?]].
  - split; [by intros [? ?]|by intros [[? ?] _]].
Qed.
Lemma bind_Some_total {A B} (o : option A) (f : A → B) : is_Some (x ← o; Some (f x)) ↔ is_Some o.
Proof. destruct o; cbn; split; intros [? ?]; done. Qed.
Lemma draw_row_is_Some {A} (f : nat → nat * A → option TopologyNode) (P : A → Prop) l :
  (∀ c i x, is_Some (f c (i, x)) ↔ P x) → is_Some (draw_row f l) ↔ ∀ x, x ∈ l → P x.
Proof.
  intros Hf. unfold draw_row. rewrite mapM_is_Some, Forall_forall. split.
  - intros H x [i Hi]%list_elem_of_lookup. eapply Hf, (H (i, x)), (list_elem_of_lookup_2 _ i).
    by rewrite list_lookup_imap, Hi.
  - intros H ix Hin. apply elem_of_lookup_imap_1 in Hin as (i & x & -> & Hx). apply Hf, H. by eapply list_elem_of_lookup_2.
Qed.

Section Throws.
Context (lc : jstring → jstring → comparison).
Lemma parsed_elem page b p : p ∈ (parseItems lc page b).1 ↔ ∃ raw, raw ∈ page_items page ∧ parse_item b raw = Some p.
Proof.
  unfold parseItems. cbn [fst]. rewrite elem_of_js_sort, list_elem_of_omap. setoid_rewrite list_elem_of_fmap. cbn [id]. split.
  - intros (? & (raw & -> & ?) & ?). eauto.
  - intros (raw & ? & ?). exists (Some p). eauto.
Qed.
Lemma workload_elem pages w : w ∈ workloadsIn lc pages ↔ w.2 ∈ (parseItems lc (pages (SWorkload w.1)) true).1.
Proof.
  unfold workloadsIn. rewrite elem_of_js_sort, elem_of_flat_map. setoid_rewrite list_elem_of_fmap. split.
  - intros (k & _ & p & -> & Hp). done.
  - intros H. exists w.1. split; [destruct w.1; repeat (by left) || right; by left|]. exists w.2. by destruct w.
Qed.
Section At.
Context (w h : number) (c i : nat) (p : Parsed).
Lemma node_row_total : is_Some (node_row w h c (i, p)) ↔ encodable (p_name p).
Proof. unfold node_row. by rewrite bind_Some_total, path_of_is_Some, Forall_singleton. Qed.
Lemma named_row_total page : is_Some (path_of page [p_ns p; p_name p]) ↔ linkable p.
Proof. by rewrite path_of_is_Some, Forall_cons, Forall_singleton. Qed.
Lemma service_row_total : is_Some (service_row w h c (i, p)) ↔ linkable p.
Proof. unfold service_row. by rewrite bind_Some_total, named_row_total. Qed.
Lemma workload_row_total k : is_Some (workload_row w h c (i, (k, p))) ↔ linkable p.
Proof. unfold workload_row. by rewrite bind_Some_total, named_row_total. Qed.
Lemma pod_row_total : is_Some (pod_row w h c (i, p)) ↔ linkable p.
Proof. unfold pod_row. by rewrite bind_Some_total, named_row_total. Qed.
Lemma pvc_row_total : is_Some (pvc_row w h c (i, p)) ↔ linkable p.
Proof. unfold pvc_row. by rewrite bind_Some_total, named_row_total. Qed.
End At.
Lemma five_rows {A} (a b c d e : option (list A)) :
  is_Some (v ← a; w ← b; x ← c; y ← d; z ← e; Some (v ++ w ++ x ++ y ++ z)) ↔
  is_Some a ∧ is_Some b ∧ is_Some c ∧ is_Some d ∧ is_Some e.
Proof. destruct a, b, c, d, e; cbn; split; try (by intros [? ?]); intros; naive_solver. Qed.
End Throws.

(** The map is drawn whatever the pages hold (absent, refused, malformed), with one
    exception: an object with a name or a namespace that [encodeURIComponent] refuses, a
    lone surrogate, takes the whole card down. *)
Theorem topology_drawn_iff lc pages : is_Some (clusterTopologyView lc pages) ↔
  ∀ s raw p, raw ∈ page_items (pages s) → parse_item (namespaced s) raw = Some p →
    (namespaced s = true → encodable (p_ns p)) ∧ encodable (p_name p).
Proof.
  unfold clusterTopologyView. cbv zeta. rewrite bind_Some_total. unfold graph_of. rewrite five_rows.
  rewrite (draw_row_is_Some _ (λ p, encodable (p_name p))) by (intros; apply node_row_total).
  rewrite (draw_row_is_Some _ linkable _ (λ c i x, service_row_total _ _ c i x)).
  rewrite (draw_row_is_Some _ (λ w, linkable w.2)) by (intros ? ? [? ?]; apply workload_row_total).
  rewrite (draw_row_is_Some _ linkable (podsIn _ _) (λ c i x, pod_row_total _ _ c i x)).
  rewrite (draw_row_is_Some _ linkable (pvcsIn _ _) (λ c i x, pvc_row_total _ _ c i x)).
  unfold nodesIn, svcsIn, podsIn, pvcsIn. setoid_rewrite workload_elem. setoid_rewrite parsed_elem. unfold linkable. split.
  - intros (Hn & Hs & Hw & Hp & Hv) [| |k| |] raw p Hin Hpar; cbn [namespaced] in *.
    + split; [done|]. eauto.
    + destruct (Hs p) as [? ?]; eauto.
    + destruct (Hw (k, p)) as [? ?]; cbn [fst snd]; eauto.
    + destruct (Hp p) as [? ?]; eauto.
    + destruct (Hv p) as [? ?]; eauto.
  - intros H. split_and!.
    + intros p (raw & ? & ?). by eapply (H SNodes).
    + intros p (raw & ? & ?). destruct (H SServices raw p) as [? ?]; auto.
    + intros [k p] (raw & ? & ?). destruct (H (SWorkload k) raw p) as [? ?]; auto.
    + intros p (raw & ? & ?). destruct (H SPods raw p) as [? ?]; auto.
    + intros p (raw & ? & ?). destruct (H SPvcs raw p) as [? ?]; auto.
Qed.

(** *** The zoom *)

Definition is_num (n : number) : Prop := n ≠ NaN.
Lemma fl_num q : is_num (fl q).
Proof. unfold fl, is_num. by repeat case_match. Qed.
Lemma num_compare_total x y : is_num x → is_num y → ∃ c, num_compare x y = Some c ∧ num_compare y x = Some (CompOpp c).
Proof.
  destruct x as [|[]|a], y as [|[]|b]; try done; intros _ _; cbn; eauto. rewrite <- (Qcompare_antisym a b). eauto.
Qed.
Lemma num_leb_refl x : is_num x → num_leb x x = true.
Proof. destruct x as [|[]|q]; try done. intros _. unfold num_leb. cbn. by rewrite (proj1 (Qeq_alt q q)). Qed.
Lemma num_max_spec x y : is_num x → is_num y → is_num (num_max x y) ∧ num_leb x (num_max x y) = true.
Proof.
  intros Hx Hy. destruct (num_compare_total x y Hx Hy) as (c & Hc & _). unfold num_max. rewrite Hc.
  destruct c; (split; [done|]); try (by apply num_leb_refl). unfold num_leb. by rewrite Hc.
Qed.
Lemma num_min_spec x y lo : is_num x → is_num y → num_leb lo x = true → num_leb lo y = true →
  num_leb lo (num_min x y) = true ∧ num_leb (num_min x y) x = true.
Proof.
  intros Hx Hy Hlx Hly. destruct (num_compare_total x y Hx Hy) as (c & Hc & Hc'). unfold num_min. rewrite Hc.
  destruct c; (split; [done|]); try (by apply num_leb_refl). unfold num_leb. by rewrite Hc'.
Qed.
Lemma num_leb_Fin a b : num_leb (Fin a) (Fin b) = true ↔ (a <= b)%Q.
Proof. unfold num_leb. cbn. rewrite Qle_alt. by destruct (a ?= b)%Q. Qed.
Lemma positive_quot_num x a : positive x = true → is_num (num_quot x (Fin a)).
Proof.
  destruct x as [|[]|q]; try done. unfold positive, num_ltb, num_quot, num_div. cbn [num_compare of_Z].
  destruct (Qeq_bool a 0); [|intros _; apply fl_num]. destruct (Qeq_bool q 0) eqn:E; [|done].
  apply Qeq_bool_iff in E. rewrite E. by cbn.
Qed.
Lemma maxZoom_floor w h boxW boxH : let m := topologyMaxZoom {| cv_width := Fin w; cv_height := Fin h |} boxW boxH in
  is_num m ∧ num_leb BASE_MAX_ZOOM m = true.
Proof.
  unfold topologyMaxZoom. cbn [cv_width cv_height]. cbv zeta.
  destruct (positive boxW) eqn:Ew, (positive boxH) eqn:Eh; try done. cbn [negb orb].
  apply num_max_spec; [done|].
  pose proof (positive_quot_num _ w Ew) as Hw. pose proof (positive_quot_num _ h Eh) as Hh.
  assert (Hf : is_num (num_min (num_quot boxW (Fin w)) (num_quot boxH (Fin h)))).
  { destruct (num_compare_total _ _ Hw Hh) as (c & Hc & _). unfold num_min. rewrite Hc. by destruct c. }
  destruct (num_min _ _) as [|[]|f]; try done. unfold READABLE_SCALE.
  by apply positive_quot_num.
Qed.
(** The zoom buttons stay in range: on a canvas of finite size, in any box (an unmeasured
    one too), the ceiling is never below the fixed one, and a step from any zoom ends
    between the floor and that ceiling. *)
Theorem topology_zoom_in_range w h boxW boxH current zoomIn : is_num current →
  let max := topologyMaxZoom {| cv_width := Fin w; cv_height := Fin h |} boxW boxH in
  let next := stepTopologyZoom current zoomIn max in
  num_leb BASE_MAX_ZOOM max = true ∧ num_leb TOPOLOGY_MIN_ZOOM next = true ∧ num_leb next max = true.
Proof.
  intros Hc max next. destruct (maxZoom_floor w h boxW boxH) as [Hm Hb]. fold max in Hm, Hb. split; [done|].
  assert (Hstep : is_num (if zoomIn then num_times current ZOOM_FACTOR else num_quot current ZOOM_FACTOR)).
  { destruct current as [|s|q]; [done|..].
    - by destruct zoomIn, s.
    - destruct zoomIn; apply fl_num. }
  destruct (num_max_spec TOPOLOGY_MIN_ZOOM _ ltac:(done) Hstep) as [Hn Hl].
  apply num_min_spec; [done..| |done]. clearbody max. clear -Hb.
  change TOPOLOGY_MIN_ZOOM with (Fin (1 # 2)). destruct max as [|[]|q]; try done.
  apply num_leb_Fin in Hb. apply num_leb_Fin. eapply Qle_trans; [|exact Hb]. done.
Qed.

(** ** A small cluster *)

Definition demo_meta (ns name app : jstring) : jsval :=
  JObj [("name", JStr name); ("namespace", JStr ns); ("labels", JObj [("app", JStr app)])]%js.
Definition demo_select (app : jstring) : jsval := JObj [("app", JStr app)]%js.
Definition demo_node : jsval := JObj [("metadata", JObj [("name", JStr "n1")])]%js.
Definition demo_service (name app : jstring) : jsval :=
  JObj [("metadata", demo_meta "shop" name ""); ("spec", JObj [("selector", demo_select app)])]%js.
Definition demo_deployment : jsval :=
  JObj [("metadata", demo_meta "shop" "web" "web");
        ("spec", JObj [("selector", JObj [("matchLabels", demo_select "web")])])]%js.
Definition demo_web : jsval :=
  JObj [("metadata", demo_meta "shop" "web-1" "web");
        ("spec", JObj [("nodeName", JStr "n1");
                       ("volumes", JArr [JObj [("persistentVolumeClaim", JObj [("claimName", JStr "data")])]])])]%js.
Definition demo_bare : jsval := JObj [("metadata", demo_meta "shop" "job" "job")]%js.
Definition demo_claim : jsval := JObj [("metadata", demo_meta "shop" "data" "")]%js.
Definition demo_list (l : list jsval) : option ResourceListPage :=
  Some {| items := JArr l; page_total := JUndef |}.
Definition demo_topology : TopologyPages := λ s,
  match s with
  | SNodes => demo_list [demo_node]
  | SServices => demo_list [demo_service "web" "web"; demo_service "job" "job"; demo_service "none" "gone"]
  | SWorkload deployments => demo_list [demo_deployment]
  | SWorkload _ => None
  | SPods => demo_list [demo_web; demo_bare; JObj []]
  | SPvcs => demo_list [demo_claim]
  end.
Definition no_view : TopologyView :=
  {| tv_nodes := []; tv_edges := []; tv_width := NaN; tv_height := NaN; tv_rows := rowsOf js_compare demo_topology;
     tv_skipped := 0 |}.
Definition demo_view : TopologyView := default no_view (clusterTopologyView js_compare demo_topology).
Lemma demo_drawn : clusterTopologyView js_compare demo_topology = Some demo_view.
Proof.
  unfold demo_view. destruct (clusterTopologyView js_compare demo_topology) eqn:E; [done|]. vm_compute in E. done.
Qed.
Example demo_edges : (λ e, (edge_kind e, from e, to e)) <$> tv_edges demo_view =
  [(service_pod, "service/shop/job", "pod/shop/job"); (node_service, "node//n1", "service/shop/web");
   (service_workload, "service/shop/web", "workload/shop/Deployment/web");
   (workload_pod, "workload/shop/Deployment/web", "pod/shop/web-1"); (pod_pvc, "pod/shop/web-1", "pvc/shop/data")]%js.
Proof. vm_compute. reflexivity. Qed.
Lemma demo_plain : plain_ids (tv_nodes demo_view).
Proof.
  assert (H : Forall (λ n, 62%N ∉ units (tn_id n)) (tv_nodes demo_view)) by (apply (bool_decide_unpack _); vm_compute; exact I).
  by rewrite Forall_forall in H.
Qed.
Lemma demo_owns : joined js_compare demo_topology (tv_nodes demo_view) workload_pod
  "workload/shop/Deployment/web"%js "pod/shop/web-1"%js.
Proof.
  assert (Hw : ∃ p, parse_item true demo_deployment = Some p) by (eexists; reflexivity).
  assert (Hp : ∃ p, parse_item true demo_web = Some p) by (eexists; reflexivity).
  destruct Hw as [w Hw], Hp as [p Hp]. exists (deployments, w), p. pose proof Hw as Ew. pose proof Hp as Ep.
  vm_compute in Ew, Ep. injection Ew as <-. injection Ep as <-. split_and!; [| |by vm_compute..].
  - apply workload_elem, parsed_elem. exists demo_deployment. split; [by left|done].
  - apply parsed_elem. exists demo_web. split; [by left|done].
Qed.

Lemma topology_graph_sound_witness : tv_edges demo_view ≠ [] ∧ NoDup ((λ e, (from e, to e)) <$> tv_edges demo_view).
Proof. split; [by vm_compute|]. exact (proj2 (topology_graph_sound js_compare demo_topology demo_view demo_drawn)). Defined.
Lemma topology_edges_complete_witness :
  {| from := "workload/shop/Deployment/web"%js; to := "pod/shop/web-1"%js; edge_kind := workload_pod |} ∈ tv_edges demo_view.
Proof. exact (topology_edges_complete js_compare demo_topology demo_view _ _ _ demo_drawn demo_plain demo_owns). Defined.
Lemma topology_accounts_witness : (length (tv_nodes demo_view) + tv_skipped demo_view = 9)%nat ∧ tv_skipped demo_view = 1%nat.
Proof.
  split; [|by vm_compute]. exact (proj1 (topology_accounts js_compare demo_topology demo_view demo_drawn)).
Defined.
Lemma topology_zoom_in_range_witness :
  num_leb TOPOLOGY_MIN_ZOOM (stepTopologyZoom (of_Z 9) true
    (topologyMaxZoom {| cv_width := Fin 400; cv_height := Fin 400 |} (of_Z 800) (of_Z 0))) = true.
Proof. apply (topology_zoom_in_range 400 400 (of_Z 800) (of_Z 0) (of_Z 9) true). discriminate. Defined.

(** A service with nobody behind it is marked, and a page that may hold more pods is not
    taken for proof. *)
Example demo_marks : (λ n, (tn_name n, tn_health n)) <$> filter (λ n, tn_kind n = KService) (tv_nodes demo_view) =
  [("job", healthy); ("none", warning); ("web", healthy)]%js.
Proof. vm_compute. reflexivity. Qed.
(** One lone surrogate in one pod's name, and there is no map. *)
Example lone_surrogate_throws : clusterTopologyView js_compare (λ s,
  match s with SPods => demo_list [JObj [("metadata", demo_meta "shop" (JS [55296%N]) "")]]%js | _ => None end) = None.
Proof. vm_compute. reflexivity. Qed.
