(* ===== verification/Expiry.v ===== *)
(** * The data-protection cards: expiry.ts

    Certificates, external secrets, backups and snapshots, each ranked by
    badness. A view is filled in by one pass over the payload; its counters are
    the fields of the loop's state. [getPhaseCategory] is velero-types.ts. *)

From stdpp Require Import base list strings gmap sorting.
From Stdlib Require Import ZArith QArith Lia Permutation.
From S2P Require Import Prelude JsValue Narrow Uri Pressure Severity SyncState.

Open Scope Z_scope.

(** ** Definitions *)

(** A count the server may have left out: positive and whole, or zero. *)
Definition whole_count (value : jsval) : number :=
  match num value with
  | Some n => if num_ltb (of_Z 0) n then num_floor n else of_Z 0
  | None => of_Z 0
  end.
(** [number | null] as the value it is. *)
Definition js_of_num (n : option number) : jsval := match n with Some x => JNum x | None => JNull end.

(** *** Certificates *)

Inductive ExpiryClass := exp_critical | exp_warning | exp_healthy.
#[export] Instance ExpiryClass_eq_dec : EqDecision ExpiryClass.
Proof. solve_decision. Defined.
Definition EXPIRY_CLASSES : list ExpiryClass := [exp_critical; exp_warning; exp_healthy].

Definition classifyExpiry (daysRemaining warnDays criticalDays : jsval) : option ExpiryClass :=
  match num daysRemaining, num warnDays, num criticalDays with
  | Some days, Some warn, Some crit =>
      if num_leb warn (of_Z 0) || num_leb crit (of_Z 0) then None
      else if num_leb days crit then Some exp_critical
      else if num_leb days warn then Some exp_warning
      else Some exp_healthy
  | _, _, _ => None
  end.

Definition CERTIFICATES_PAGE_HREF : jstring := "/security/certificates"%js.
Definition certificateHref (namespace name : jstring) : option jstring :=
  path_of CERTIFICATES_PAGE_HREF [namespace; name].

Record CertExpiryRow := {
  cert_namespace : jstring; cert_name : jstring; daysRemaining : number; cert_class : ExpiryClass;
  warnDays : number; criticalDays : number; thresholdConflict : bool
}.
Record CertExpiryView := {
  cert_readable : bool;
  cert_total : nat;
  cert_critical : nat;
  cert_warning : nat;
  cert_healthy : nat;
  unclassified : nat;
  expiring : nat;
  conflicted : nat;
  cert_rows : list CertExpiryRow;
  cert_unreadableRows : nat
}.
Definition emptyCertView (readable : bool) : CertExpiryView :=
  {| cert_readable := readable; cert_total := 0; cert_critical := 0; cert_warning := 0;
     cert_healthy := 0; unclassified := 0; expiring := 0; conflicted := 0; cert_rows := [];
     cert_unreadableRows := 0 |}.
(** The class of a certificate whose three numbers the payload carries. *)
Definition cert_verdict (item : list (jstring * jsval))
    : option (ExpiryClass * number * number * number) :=
  let warn := num (field item "warningThresholdDays") in
  let crit := num (field item "criticalThresholdDays") in
  let days := num (field item "daysRemaining") in
  match classifyExpiry (js_of_num days) (js_of_num warn) (js_of_num crit), days, warn, crit with
  | Some cls, Some d, Some w, Some c => Some (cls, d, w, c)
  | _, _, _, _ => None
  end.
Definition cert_step (v : CertExpiryView) (entry : jsval) : CertExpiryView :=
  match named_item "name" entry with
  | None =>
      {| cert_readable := cert_readable v; cert_total := cert_total v;
         cert_critical := cert_critical v; cert_warning := cert_warning v;
         cert_healthy := cert_healthy v; unclassified := unclassified v; expiring := expiring v;
         conflicted := conflicted v; cert_rows := cert_rows v;
         cert_unreadableRows := S (cert_unreadableRows v) |}
  | Some item =>
      match cert_verdict item with
      | None =>
          {| cert_readable := cert_readable v; cert_total := S (cert_total v);
             cert_critical := cert_critical v; cert_warning := cert_warning v;
             cert_healthy := cert_healthy v; unclassified := S (unclassified v);
             expiring := expiring v; conflicted := conflicted v; cert_rows := cert_rows v;
             cert_unreadableRows := cert_unreadableRows v |}
      | Some (exp_healthy, _, _, _) =>
          {| cert_readable := cert_readable v; cert_total := S (cert_total v);
             cert_critical := cert_critical v; cert_warning := cert_warning v;
             cert_healthy := S (cert_healthy v); unclassified := unclassified v;
             expiring := expiring v; conflicted := conflicted v; cert_rows := cert_rows v;
             cert_unreadableRows := cert_unreadableRows v |}
      | Some (cls, days, warn, crit) =>
          let conflict := is_true_val (field item "thresholdConflict") in
          {| cert_readable := cert_readable v; cert_total := S (cert_total v);
             cert_critical := if decide (cls = exp_critical) then S (cert_critical v) else cert_critical v;
             cert_warning := if decide (cls = exp_critical) then cert_warning v else S (cert_warning v);
             cert_healthy := cert_healthy v; unclassified := unclassified v; expiring := expiring v;
             conflicted := if conflict then S (conflicted v) else conflicted v;
             cert_rows := cert_rows v ++ [{| cert_namespace := str (field item "namespace");
               cert_name := str (field item "name"); daysRemaining := days; cert_class := cls;
               warnDays := warn; criticalDays := crit; thresholdConflict := conflict |}];
             cert_unreadableRows := cert_unreadableRows v |}
      end
  end.
Definition cert_order (a b : CertExpiryRow) : comparison :=
  (index_of (cert_class a) EXPIRY_CLASSES ?= index_of (cert_class b) EXPIRY_CLASSES)%nat
  <||> by_difference (daysRemaining a) (daysRemaining b).
Definition certsExpiringView (data : jsval) (limit : Z) : CertExpiryView :=
  match list_ data with
  | None => emptyCertView false
  | Some items =>
      let v := foldl cert_step (emptyCertView true) items in
      {| cert_readable := cert_readable v; cert_total := cert_total v;
         cert_critical := cert_critical v; cert_warning := cert_warning v;
         cert_healthy := cert_healthy v; unclassified := unclassified v;
         expiring := cert_critical v + cert_warning v; conflicted := conflicted v;
         cert_rows := slice0 (js_sort cert_order (cert_rows v)) (Z.max 0 limit);
         cert_unreadableRows := cert_unreadableRows v |}
  end.

(** *** External secrets *)

Definition EXTERNAL_SECRETS_PAGE_HREF : jstring := "/external-secrets/external-secrets"%js.
Definition externalSecretHref (namespace name : jstring) : option jstring :=
  path_of EXTERNAL_SECRETS_PAGE_HREF [namespace; name].
Inductive EsoDriftState := drift_Drifted | drift_Unknown | drift_unobserved | drift_InSync.
#[export] Instance EsoDriftState_eq_dec : EqDecision EsoDriftState.
Proof. solve_decision. Defined.
Definition ESO_DRIFT_STATES : list EsoDriftState :=
  [drift_Drifted; drift_Unknown; drift_unobserved; drift_InSync].
Definition ESO_STATUS_ORDER : list jstring :=
  ["SyncFailed"; "Stale"; "Drifted"; "Refreshing"; "Unknown"; "Synced"]%js.
Definition esoStatusRank (status : jstring) : nat :=
  match list_find (status =.) ESO_STATUS_ORDER with
  | Some (i, _) => i
  | None => index_of "Unknown"%js ESO_STATUS_ORDER
  end.
Definition esoDriftState (value : jsval) : EsoDriftState :=
  let raw := str value in
  if js_eqb raw "Drifted" then drift_Drifted
  else if js_eqb raw "Unknown" then drift_Unknown
  else if js_eqb raw "InSync" then drift_InSync
  else drift_unobserved.
Record EsoRow := {
  eso_namespace : jstring; eso_name : jstring; eso_status : jstring; eso_drift : EsoDriftState;
  eso_store : jstring
}.
Record EsoHealthView := {
  eso_readable : bool; eso_total : nat; eso_synced : nat; eso_failing : nat; eso_stale : nat;
  eso_unhealthy : nat; drift : EsoDriftState → nat; eso_rows : list EsoRow; eso_unreadableRows : nat
}.
Definition emptyEsoView (readable : bool) : EsoHealthView :=
  {| eso_readable := readable; eso_total := 0; eso_synced := 0; eso_failing := 0; eso_stale := 0;
     eso_unhealthy := 0; drift := λ _, 0%nat; eso_rows := []; eso_unreadableRows := 0 |}.
(** [str(item.status) || "Unknown"] *)
Definition eso_status_of (item : list (jstring * jsval)) : jstring :=
  let s := str (field item "status") in if js_eqb s ""%js then "Unknown"%js else s.
Definition eso_row (item : list (jstring * jsval)) : EsoRow :=
  {| eso_namespace := str (field item "namespace"); eso_name := str (field item "name");
     eso_status := eso_status_of item; eso_drift := esoDriftState (field item "lastObservedDriftStatus");
     eso_store := str (field_opt (obj (field item "storeRef")) "name") |}.
Definition eso_step (v : EsoHealthView) (entry : jsval) : EsoHealthView :=
  match named_item "name" entry with
  | None =>
      {| eso_readable := eso_readable v; eso_total := eso_total v; eso_synced := eso_synced v;
         eso_failing := eso_failing v; eso_stale := eso_stale v; eso_unhealthy := eso_unhealthy v;
         drift := drift v; eso_rows := eso_rows v; eso_unreadableRows := S (eso_unreadableRows v) |}
  | Some item =>
      let status := eso_status_of item in
      let drift' := bump (esoDriftState (field item "lastObservedDriftStatus")) (drift v) in
      if js_eqb status "Synced" then
        {| eso_readable := eso_readable v; eso_total := S (eso_total v);
           eso_synced := S (eso_synced v); eso_failing := eso_failing v; eso_stale := eso_stale v;
           eso_unhealthy := eso_unhealthy v; drift := drift'; eso_rows := eso_rows v;
           eso_unreadableRows := eso_unreadableRows v |}
      else
        {| eso_readable := eso_readable v; eso_total := S (eso_total v); eso_synced := eso_synced v;
           eso_failing := if js_eqb status "SyncFailed" then S (eso_failing v) else eso_failing v;
           eso_stale := if js_eqb status "Stale" then S (eso_stale v) else eso_stale v;
           eso_unhealthy := S (eso_unhealthy v); drift := drift';
           eso_rows := eso_rows v ++ [eso_row item]; eso_unreadableRows := eso_unreadableRows v |}
  end.

(** *** Backups *)

Inductive PhaseCategory := ph_success | ph_warning | ph_error | ph_progress | ph_unknown.
Inductive BackupOutcome := bk_failed | bk_inProgress | bk_other | bk_completed.
#[export] Instance BackupOutcome_eq_dec : EqDecision BackupOutcome.
Proof. solve_decision. Defined.
Definition BACKUPS_PAGE_HREF : jstring := "/backup/backups"%js.
Definition BACKUP_OUTCOMES : list BackupOutcome := [bk_failed; bk_inProgress; bk_other; bk_completed].
Record BackupRow := {
  bk_name : jstring; bk_namespace : jstring; bk_phase : jstring; bk_outcome : BackupOutcome;
  bk_startTime : jstring; bk_errors : number; bk_warnings : number
}.
Record BackupsView := {
  bk_readable : bool; bk_total : nat; bk_counts : BackupOutcome → nat;
  bk_worst : option BackupOutcome; bk_rows : list BackupRow; lastCompleted : jstring;
  bk_unreadableRows : nat
}.
Definition emptyBackupsView (readable : bool) : BackupsView :=
  {| bk_readable := readable; bk_total := 0; bk_counts := λ _, 0%nat; bk_worst := None;
     bk_rows := []; lastCompleted := ""%js; bk_unreadableRows := 0 |}.
(** The first outcome, worst first, that some entry has. *)
Definition worst_present {L} (outcomes : list L) (counts : L → nat) : option L :=
  snd <$> list_find (λ o, (0 < counts o)%nat) outcomes.

(** *** Snapshots *)

Definition SNAPSHOTS_PAGE_HREF : jstring := "/storage/snapshots"%js.
Inductive SnapshotOutcome := snap_error | snap_pending | snap_ready.
#[export] Instance SnapshotOutcome_eq_dec : EqDecision SnapshotOutcome.
Proof. solve_decision. Defined.
Definition SNAPSHOT_OUTCOMES : list SnapshotOutcome := [snap_error; snap_pending; snap_ready].
Record SnapshotRow := {
  snap_namespace : jstring; snap_name : jstring; snap_outcome : SnapshotOutcome;
  sourcePVC : jstring; errorMessage : jstring
}.
Record SnapshotHealthView := {
  snap_readable : bool; snap_total : nat; snap_counts : SnapshotOutcome → nat;
  snap_worst : option SnapshotOutcome; snap_rows : list SnapshotRow; snap_unreadableRows : nat
}.
Definition emptySnapshotView (readable : bool) : SnapshotHealthView :=
  {| snap_readable := readable; snap_total := 0; snap_counts := λ _, 0%nat; snap_worst := None;
     snap_rows := []; snap_unreadableRows := 0 |}.
Definition snapshot_outcome (item : list (jstring * jsval)) : SnapshotOutcome :=
  if negb (js_eqb (str (field item "errorMessage")) ""%js) then snap_error
  else if is_true_val (field item "readyToUse") then snap_ready
  else snap_pending.
Definition snapshot_row (item : list (jstring * jsval)) : SnapshotRow :=
  {| snap_namespace := str (field item "namespace"); snap_name := str (field item "name");
     snap_outcome := snapshot_outcome item; sourcePVC := str (field item "sourcePVC");
     errorMessage := str (field item "errorMessage") |}.
Definition snapshot_step (v : SnapshotHealthView) (entry : jsval) : SnapshotHealthView :=
  match named_item "name" entry with
  | None =>
      {| snap_readable := snap_readable v; snap_total := snap_total v; snap_counts := snap_counts v;
         snap_worst := snap_worst v; snap_rows := snap_rows v;
         snap_unreadableRows := S (snap_unreadableRows v) |}
  | Some item =>
      let outcome := snapshot_outcome item in
      {| snap_readable := snap_readable v; snap_total := S (snap_total v);
         snap_counts := bump outcome (snap_counts v); snap_worst := snap_worst v;
         snap_rows := if decide (outcome = snap_ready) then snap_rows v
                      else snap_rows v ++ [snapshot_row item];
         snap_unreadableRows := snap_unreadableRows v |}
  end.

Section Views.
Variable toLowerCase : jstring → jstring.
Variable localeCompare : jstring → jstring → comparison.

Definition eso_order (a b : EsoRow) : comparison :=
  (esoStatusRank (eso_status a) ?= esoStatusRank (eso_status b))%nat
  <||> localeCompare (eso_name a) (eso_name b).
Definition esoHealthView (data : jsval) (limit : Z) : EsoHealthView :=
  match list_ data with
  | None => emptyEsoView false
  | Some items =>
      let v := foldl eso_step (emptyEsoView true) items in
      {| eso_readable := eso_readable v; eso_total := eso_total v; eso_synced := eso_synced v;
         eso_failing := eso_failing v; eso_stale := eso_stale v; eso_unhealthy := eso_unhealthy v;
         drift := drift v; eso_rows := slice0 (js_sort eso_order (eso_rows v)) (Z.max 0 limit);
         eso_unreadableRows := eso_unreadableRows v |}
  end.

Definition getPhaseCategory (phase : jstring) : PhaseCategory :=
  let lowerPhase := toLowerCase phase in
  if js_includes lowerPhase "failed" then ph_error
  else if js_eqb lowerPhase "partiallyfailed" then ph_warning
  else if bool_decide (lowerPhase ∈ ["completed"; "available"; "enabled"]%js) then ph_success
  else if bool_decide (lowerPhase ∈ ["inprogress"; "new"; "waitingforpluginoperations"; "finalizing";
            "queued"; "readytostart"]%js) then ph_progress
  else ph_unknown.
Definition backupOutcome (phase : jstring) : BackupOutcome :=
  match getPhaseCategory phase with
  | ph_error | ph_warning => bk_failed
  | ph_progress => bk_inProgress
  | ph_success => bk_completed
  | ph_unknown => bk_other
  end.
Definition item_outcome (item : list (jstring * jsval)) : BackupOutcome :=
  backupOutcome (str (field item "phase")).
Definition backup_row (item : list (jstring * jsval)) : BackupRow :=
  {| bk_name := str (field item "name"); bk_namespace := str (field item "namespace");
     bk_phase := str (field item "phase"); bk_outcome := item_outcome item;
     bk_startTime := str (field item "startTime"); bk_errors := whole_count (field item "errors");
     bk_warnings := whole_count (field item "warnings") |}.
(** [a < b] of strings is by code units. *)
Definition js_str_lt (a b : jstring) : bool := match js_compare a b with Lt => true | _ => false end.
Definition backup_step (v : BackupsView) (entry : jsval) : BackupsView :=
  match named_item "name" entry with
  | None =>
      {| bk_readable := bk_readable v; bk_total := bk_total v; bk_counts := bk_counts v;
         bk_worst := bk_worst v; bk_rows := bk_rows v; lastCompleted := lastCompleted v;
         bk_unreadableRows := S (bk_unreadableRows v) |}
  | Some item =>
      let outcome := item_outcome item in
      let startTime := str (field item "startTime") in
      {| bk_readable := bk_readable v; bk_total := S (bk_total v);
         bk_counts := bump outcome (bk_counts v); bk_worst := bk_worst v;
         bk_rows := if decide (outcome = bk_completed) then bk_rows v
                    else bk_rows v ++ [backup_row item];
         lastCompleted := if decide (outcome = bk_completed) then
             if js_str_lt (lastCompleted v) startTime then startTime else lastCompleted v
           else lastCompleted v;
         bk_unreadableRows := bk_unreadableRows v |}
  end.
(** The two [return]s over start times are the reversed string order. *)
Definition backup_order (a b : BackupRow) : comparison :=
  (index_of (bk_outcome a) BACKUP_OUTCOMES ?= index_of (bk_outcome b) BACKUP_OUTCOMES)%nat
  <||> js_compare (bk_startTime b) (bk_startTime a)
  <||> localeCompare (bk_name a) (bk_name b).
Definition backupsView (data : jsval) (limit : Z) : BackupsView :=
  match list_ data with
  | None => emptyBackupsView false
  | Some items =>
      let v := foldl backup_step (emptyBackupsView true) items in
      {| bk_readable := bk_readable v; bk_total := bk_total v; bk_counts := bk_counts v;
         bk_worst := if (bk_total v =? 0)%nat then None else worst_present BACKUP_OUTCOMES (bk_counts v);
         bk_rows := slice0 (js_sort backup_order (bk_rows v)) (Z.max 0 limit);
         lastCompleted := lastCompleted v; bk_unreadableRows := bk_unreadableRows v |}
  end.

Definition snapshot_order (a b : SnapshotRow) : comparison :=
  (index_of (snap_outcome a) SNAPSHOT_OUTCOMES ?= index_of (snap_outcome b) SNAPSHOT_OUTCOMES)%nat
  <||> localeCompare (snap_name a) (snap_name b).
Definition snapshotHealthView (data : jsval) (limit : Z) : SnapshotHealthView :=
  match list_ data with
  | None => emptySnapshotView false
  | Some items =>
      let v := foldl snapshot_step (emptySnapshotView true) items in
      {| snap_readable := snap_readable v; snap_total := snap_total v; snap_counts := snap_counts v;
         snap_worst := if (snap_total v =? 0)%nat then None
                       else worst_present SNAPSHOT_OUTCOMES (snap_counts v);
         snap_rows := slice0 (js_sort snapshot_order (snap_rows v)) (Z.max 0 limit);
         snap_unreadableRows := snap_unreadableRows v |}
  end.
End Views.

(** ** Certificates *)

Definition cert_class_of (item : list (jstring * jsval)) : option ExpiryClass :=
  (λ q, q.1.1.1) <$> cert_verdict item.
Definition cert_row_of (item : list (jstring * jsval)) : option CertExpiryRow :=
  match cert_verdict item with
  | None | Some (exp_healthy, _, _, _) => None
  | Some (cls, days, warn, crit) =>
      Some {| cert_namespace := str (field item "namespace"); cert_name := str (field item "name");
              daysRemaining := days; cert_class := cls; warnDays := warn; criticalDays := crit;
              thresholdConflict := is_true_val (field item "thresholdConflict") |}
  end.

Lemma cert_loop_spec entries :
  let v := foldl cert_step (emptyCertView true) entries in
  let items := omap (named_item "name") entries in
  cert_readable v = true ∧ cert_rows v = omap cert_row_of items ∧
  cert_total v = length items ∧ (cert_total v + cert_unreadableRows v)%nat = length entries ∧
  cert_critical v = count_of cert_class_of items (Some exp_critical) ∧
  cert_warning v = count_of cert_class_of items (Some exp_warning) ∧
  cert_healthy v = count_of cert_class_of items (Some exp_healthy) ∧
  unclassified v = count_of cert_class_of items None.
Proof.
  induction entries as [|e l IH] using rev_ind; [done|]. cbn zeta in *.
  rewrite foldl_app, !omap_app, !length_app. cbn [foldl]. unfold count_of.
  rewrite !filter_app, !length_app.
  set (v := foldl _ _ l) in *. clearbody v. destruct IH as (H0 & H1 & H2 & H3 & H4 & H5 & H6 & H7).
  unfold count_of in *. cbn [omap list_omap length]. unfold cert_step.
  destruct (named_item "name" e) as [item|].
  2:{ cbn. rewrite !app_nil_r. split_and!; try done; lia. }
  rewrite !filter_cons, !filter_nil, <- H1, <- H2, <- H4, <- H5, <- H6, <- H7.
  unfold cert_class_of, cert_row_of, omap, list_omap.
  destruct (cert_verdict item) as [[[[[] d] w] c]|]; cbn; rewrite ?app_nil_r;
    repeat case_decide; simplify_eq/=; split_and!; try done; lia.
Qed.

Lemma cert_verdict_inv item cls d w c : cert_verdict item = Some (cls, d, w, c) →
  field item "daysRemaining" = JNum d ∧ field item "warningThresholdDays" = JNum w ∧
  field item "criticalThresholdDays" = JNum c ∧
  isFinite d = true ∧ num_ltb (of_Z 0) w = true ∧ num_ltb (of_Z 0) c = true ∧
  cls = if num_leb d c then exp_critical else if num_leb d w then exp_warning else exp_healthy.
Proof.
  unfold cert_verdict.
  destruct (field item "daysRemaining") as [| | |[| |d']| | |]; try done; try by destruct (classifyExpiry _ _ _).
  destruct (field item "warningThresholdDays") as [| | |[| |w']| | |]; try done; try by destruct (classifyExpiry _ _ _).
  destruct (field item "criticalThresholdDays") as [| | |[| |c']| | |]; try done; try by destruct (classifyExpiry _ _ _).
  cbn [num isFinite js_of_num]. unfold classifyExpiry. cbn [num isFinite].
  assert (Hpos : ∀ q, num_leb (Fin q) (of_Z 0) = false → num_ltb (of_Z 0) (Fin q) = true).
  { intros q. unfold num_leb, num_ltb, num_compare, of_Z. rewrite <- (Qcompare_antisym q (inject_Z 0)).
    by destruct (q ?= inject_Z 0)%Q. }
  destruct (num_leb (Fin w') (of_Z 0)) eqn:Ew, (num_leb (Fin c') (of_Z 0)) eqn:Ec; try done. cbn [orb].
  apply Hpos in Ew, Ec.
  destruct (num_leb (Fin d') (Fin c')) eqn:E1; [|destruct (num_leb (Fin d') (Fin w')) eqn:E2];
    intros [= <- <- <- <-]; split_and!; try done; by rewrite ?E1, ?E2.
Qed.

Definition cert_rank (a b : CertExpiryRow) : comparison :=
  (index_of (cert_class a) EXPIRY_CLASSES ?= index_of (cert_class b) EXPIRY_CLASSES)%nat
  <||> (fin_value (daysRemaining a) ?= fin_value (daysRemaining b))%Q.
Lemma cert_rank_comparator : Comparator cert_rank.
Proof.
  apply cmp_or_comparator.
  - apply (cmp_on_comparator (λ r, index_of (cert_class r) EXPIRY_CLASSES)), _.
  - apply (cmp_on_comparator (λ r, fin_value (daysRemaining r))), _.
Qed.
Lemma cert_row_of_inv item r : cert_row_of item = Some r →
  cert_verdict item = Some (cert_class r, daysRemaining r, warnDays r, criticalDays r) ∧
  cert_class r ≠ exp_healthy ∧ cert_name r = str (field item "name").
Proof.
  unfold cert_row_of. destruct (cert_verdict item) as [[[[[] d] w] c]|] eqn:E; try done;
    intros [= <-]; done.
Qed.
Lemma cert_order_exact entries a b :
  js_doubles (JArr entries) = true →
  a ∈ omap cert_row_of (omap (named_item "name") entries) →
  b ∈ omap cert_row_of (omap (named_item "name") entries) → cert_order a b = cert_rank a b.
Proof.
  intros Hd. assert (∀ r, r ∈ omap cert_row_of (omap (named_item "name") entries) →
    ∃ q, daysRemaining r = Fin q ∧ double_grid q = true) as Hg.
  { intros r (item & (e & He & Hi)%list_elem_of_omap & Hr)%list_elem_of_omap.
    apply named_item_inv in Hi as [-> _]. apply cert_row_of_inv in Hr as (Hv & _).
    apply cert_verdict_inv in Hv as (E & _ & _ & Hf & _).
    pose proof (js_doubles_field item "daysRemaining" (js_doubles_elem _ _ Hd He)) as Hf'.
    rewrite E in Hf'. destruct (daysRemaining r) as [| |q]; try done. by exists q. }
  intros (p & Ep & Hp)%Hg (q & Eq & Hq)%Hg. unfold cert_order, cert_rank.
  by rewrite Ep, Eq, by_difference_exact.
Qed.

(** ** External secrets *)

Definition eso_drift_of (item : list (jstring * jsval)) : EsoDriftState :=
  esoDriftState (field item "lastObservedDriftStatus").
Lemma eso_loop_spec entries :
  let v := foldl eso_step (emptyEsoView true) entries in
  let items := omap (named_item "name") entries in
  eso_readable v = true ∧ eso_total v = length items ∧
  (eso_total v + eso_unreadableRows v)%nat = length entries ∧
  eso_rows v = eso_row <$> filter (λ i, eso_status_of i ≠ "Synced"%js) items ∧
  eso_unhealthy v = length (eso_rows v) ∧
  (eso_synced v + eso_unhealthy v)%nat = eso_total v ∧
  eso_failing v = count_of eso_status_of items "SyncFailed"%js ∧
  eso_stale v = count_of eso_status_of items "Stale"%js ∧
  (∀ d, drift v d = count_of eso_drift_of items d).
Proof.
  induction entries as [|e l IH] using rev_ind; [done|]. cbn zeta in *.
  rewrite foldl_app, omap_app, !length_app. cbn [foldl].
  set (v := foldl _ _ l) in *. clearbody v.
  destruct IH as (H0 & H1 & H2 & H3 & H4 & H5 & H6 & H7 & H8).
  cbn [omap list_omap length]. unfold eso_step. destruct (named_item "name" e) as [item|].
  2:{ cbn [length]. rewrite app_nil_r. split_and!; try done; cbn; lia. }
  rewrite !count_of_snoc, filter_app, fmap_app, filter_cons, filter_nil, <- H1, <- H3, <- H6, <- H7.
  assert (Hd : ∀ d, bump (esoDriftState (field item "lastObservedDriftStatus")) (drift v) d =
    count_of eso_drift_of (omap (named_item "name") l ++ [item]) d).
  { intros d. by rewrite bump_count, H8, count_of_snoc. }
  destruct (js_eqb (eso_status_of item) "Synced") eqn:Es.
  - apply js_eqb_eq in Es. rewrite Es. cbn. rewrite app_nil_r. split_and!; try done; lia.
  - rewrite js_eqb_neq in Es. rewrite decide_True by done.
    cbn [eso_readable eso_total eso_synced eso_failing eso_stale eso_unhealthy drift eso_rows
      eso_unreadableRows fmap list_fmap].
    rewrite length_app, !js_eqb_decide. cbn [length].
    split_and!; try done; try lia; by case_decide.
Qed.

Lemma eso_order_comparator lc : Comparator lc → Comparator (eso_order lc).
Proof.
  intros Hlc. apply cmp_or_comparator.
  - apply (cmp_on_comparator (λ r, esoStatusRank (eso_status r))), _.
  - by apply (cmp_on_comparator eso_name).
Qed.

(** ** Backups and snapshots *)

Section Backups.
Context (lower : jstring → jstring) (lc : jstring → jstring → comparison) `{Hlc : !Comparator lc}.

Definition completed_starts (items : list (list (jstring * jsval))) : list jstring :=
  (λ i, str (field i "startTime")) <$> filter (λ i, item_outcome lower i = bk_completed) items.
Lemma backup_loop_spec entries :
  let v := foldl (backup_step lower) (emptyBackupsView true) entries in
  let items := omap (named_item "name") entries in
  bk_readable v = true ∧ bk_total v = length items ∧
  (bk_total v + bk_unreadableRows v)%nat = length entries ∧
  bk_rows v = backup_row lower <$> filter (λ i, item_outcome lower i ≠ bk_completed) items ∧
  (∀ o, bk_counts v o = count_of (item_outcome lower) items o) ∧
  lastCompleted v = foldl (λ m s, if js_str_lt m s then s else m) ""%js (completed_starts items).
Proof.
  induction entries as [|e l IH] using rev_ind; [done|]. cbn zeta in *. unfold completed_starts in *.
  rewrite foldl_app, omap_app, !filter_app, !fmap_app, !length_app, foldl_app. cbn [foldl].
  set (v := foldl _ _ l) in *. clearbody v. destruct IH as (H0 & H1 & H2 & H3 & H4 & H5).
  cbn [omap list_omap length]. unfold backup_step. destruct (named_item "name" e) as [item|].
  2:{ cbn. rewrite !app_nil_r. split_and!; try done; lia. }
  rewrite !filter_cons, !filter_nil, <- H1, <- H3, <- H5.
  cbn [bk_readable bk_total bk_unreadableRows bk_rows bk_counts lastCompleted length].
  split_and!; try done; try lia.
  - repeat case_decide; try done. by rewrite app_nil_r.
  - intros o. by rewrite bump_count, H4, count_of_snoc.
  - by case_decide.
Qed.

Lemma backup_order_comparator : Comparator (backup_order lc).
Proof.
  unfold backup_order. apply cmp_or_comparator; [apply cmp_or_comparator|].
  - apply (cmp_on_comparator (λ r, index_of (bk_outcome r) BACKUP_OUTCOMES)), _.
  - apply (cmp_flip_comparator (λ a b, js_compare (bk_startTime a) (bk_startTime b))).
    apply (cmp_on_comparator bk_startTime), _.
  - by apply (cmp_on_comparator bk_name).
Qed.
Lemma snapshot_order_comparator : Comparator (snapshot_order lc).
Proof.
  apply cmp_or_comparator.
  - apply (cmp_on_comparator (λ r, index_of (snap_outcome r) SNAPSHOT_OUTCOMES)), _.
  - by apply (cmp_on_comparator snap_name).
Qed.
End Backups.

Lemma snapshot_loop_spec entries :
  let v := foldl snapshot_step (emptySnapshotView true) entries in
  let items := omap (named_item "name") entries in
  snap_readable v = true ∧ snap_total v = length items ∧
  (snap_total v + snap_unreadableRows v)%nat = length entries ∧
  snap_rows v = snapshot_row <$> filter (λ i, snapshot_outcome i ≠ snap_ready) items ∧
  (∀ o, snap_counts v o = count_of snapshot_outcome items o).
Proof.
  induction entries as [|e l IH] using rev_ind; [done|]. cbn zeta in *.
  rewrite foldl_app, omap_app, !filter_app, fmap_app, !length_app. cbn [foldl].
  set (v := foldl _ _ l) in *. clearbody v. destruct IH as (H0 & H1 & H2 & H3 & H4).
  cbn [omap list_omap length]. unfold snapshot_step. destruct (named_item "name" e) as [item|].
  2:{ cbn. rewrite !app_nil_r. split_and!; try done; lia. }
  rewrite !filter_cons, !filter_nil, <- H1, <- H3.
  cbn [snap_readable snap_total snap_unreadableRows snap_rows snap_counts length].
  split_and!; try done; try lia.
  - repeat case_decide; try done. by rewrite app_nil_r.
  - intros o. by rewrite bump_count, H4, count_of_snoc.
Qed.

(** ** Properties *)

Lemma cert_row_class i :
  match cert_row_of i with
  | Some _ => cert_class_of i = Some exp_critical ∨ cert_class_of i = Some exp_warning
  | None => cert_class_of i = Some exp_healthy ∨ cert_class_of i = None
  end.
Proof.
  unfold cert_row_of, cert_class_of. destruct (cert_verdict i) as [[[[[] d] w] c]|]; cbn; auto.
Qed.
Lemma cert_rows_count items :
  (count_of cert_class_of items (Some exp_critical) + count_of cert_class_of items (Some exp_warning))%nat
  = length (omap cert_row_of items).
Proof.
  induction items as [|i l IH]; [done|]. rewrite !count_of_cons. cbn [omap list_omap].
  pose proof (cert_row_class i) as Hi.
  destruct (cert_row_of i); destruct Hi as [-> | ->]; repeat case_decide; simplify_eq; cbn [length]; lia.
Qed.
Lemma cert_classes_count items :
  (count_of cert_class_of items (Some exp_critical) + count_of cert_class_of items (Some exp_warning)
   + count_of cert_class_of items (Some exp_healthy) + count_of cert_class_of items None)%nat
  = length items.
Proof.
  induction items as [|i l IH]; [done|]. rewrite !count_of_cons.
  destruct (cert_class_of i) as [[]|]; repeat case_decide; simplify_eq; cbn; lia.
Qed.

(** The certificate card judges each certificate by the thresholds the server
    resolved for it: a certificate it calls healthy is past its own warning
    threshold, and one whose numbers are missing, or whose thresholds are not
    positive, is counted apart. Every certificate is in exactly one of the
    four counts, and the rows are the worst of everything expiring: critical
    before warning, soonest first. *)
Theorem certsExpiringView_accounts entries limit : js_doubles (JArr entries) = true →
  let v := certsExpiringView (JArr entries) limit in
  let items := omap (named_item "name") entries in
  let all := omap cert_row_of items in
  (cert_critical v + cert_warning v + cert_healthy v + unclassified v)%nat = length items ∧
  (length items + cert_unreadableRows v)%nat = length entries ∧
  expiring v = length all ∧ ranked cert_rank (Z.max 0 limit) all (cert_rows v) ∧
  cert_healthy v = count_of cert_class_of items (Some exp_healthy) ∧
  unclassified v = count_of cert_class_of items None ∧
  (∀ item cls d w c, cert_verdict item = Some (cls, d, w, c) →
     field item "daysRemaining" = JNum d ∧ field item "warningThresholdDays" = JNum w ∧
     field item "criticalThresholdDays" = JNum c ∧
     num_ltb (of_Z 0) w = true ∧ num_ltb (of_Z 0) c = true ∧
     cls = if num_leb d c then exp_critical else if num_leb d w then exp_warning else exp_healthy).
Proof.
  intros Hd. unfold certsExpiringView. cbn [list_].
  destruct (cert_loop_spec entries) as (H0 & H1 & H2 & H3 & H4 & H5 & H6 & H7).
  cbn [cert_critical cert_warning cert_healthy unclassified cert_unreadableRows expiring cert_rows].
  rewrite H1, H4, H5, H6, H7, <- H2. split_and!; try done.
  - rewrite H2. apply cert_classes_count.
  - apply cert_rows_count.
  - apply slice_ranked; [apply cert_rank_comparator| |lia]. intros. by eapply cert_order_exact.
  - intros item cls d w c H. apply cert_verdict_inv in H. tauto.
Qed.

(** The external-secrets card never rounds an unknown towards clean: every
    secret has exactly one of the four drift readings, an absent one being
    [unobserved] and never [InSync]; every secret is synced or unhealthy; and
    the rows are the worst of all that are not synced. *)
Theorem esoHealthView_accounts lc entries limit : Comparator lc →
  let v := esoHealthView lc (JArr entries) limit in
  let items := omap (named_item "name") entries in
  let all := eso_row <$> filter (λ i, eso_status_of i ≠ "Synced"%js) items in
  eso_total v = length items ∧ (eso_total v + eso_unreadableRows v)%nat = length entries ∧
  (eso_synced v + eso_unhealthy v)%nat = eso_total v ∧ eso_unhealthy v = length all ∧
  sum_list (drift v <$> ESO_DRIFT_STATES) = eso_total v ∧
  (∀ d, drift v d = count_of eso_drift_of items d) ∧
  (∀ i, eso_drift_of i = drift_InSync ↔ field i "lastObservedDriftStatus" = JStr "InSync") ∧
  ranked (eso_order lc) (Z.max 0 limit) all (eso_rows v).
Proof.
  intros Hlc. unfold esoHealthView. cbn [list_].
  destruct (eso_loop_spec entries) as (H0 & H1 & H2 & H3 & H4 & H5 & _ & _ & H8).
  cbn [eso_total eso_unreadableRows eso_synced eso_unhealthy drift eso_rows]. rewrite H3 in *.
  split_and!; try done.
  - rewrite H1, <- (sum_by_label eso_drift_of ESO_DRIFT_STATES (omap (named_item "name") entries)).
    + unfold sum_list. cbn. rewrite !H8. reflexivity.
    + apply (bool_decide_unpack _). vm_compute. exact I.
    + apply Forall_forall. intros i _. by destruct (eso_drift_of i); unfold ESO_DRIFT_STATES; set_solver.
  - intros i. unfold eso_drift_of, esoDriftState. rewrite !js_eqb_decide.
    destruct (field i "lastObservedDriftStatus") as [| | | |s| |]; cbn [str];
      repeat case_decide; simplify_eq; try done; naive_solver.
  - apply slice_ranked; [by apply eso_order_comparator|done|lia].
Qed.

(** The worst outcome present is the first, worst first, that some entry has. *)
Lemma worst_present_spec {A L} `{EqDecision L} (f : A → L) outcomes items o :
  NoDup outcomes → Forall (λ a, f a ∈ outcomes) items →
  worst_present outcomes (count_of f items) = Some o ↔
  (∃ a, a ∈ items ∧ f a = o) ∧ ∀ a, a ∈ items → (index_of o outcomes ≤ index_of (f a) outcomes)%nat.
Proof.
  intros Hnd Hall.
  assert (Hpos : ∀ x, (0 < count_of f items x)%nat ↔ ∃ a, a ∈ items ∧ f a = x).
  { intros x. unfold count_of. destruct (filter (λ a, f a = x) items) as [|a l] eqn:E; cbn.
    - split; [lia|]. intros (a & Ha & Hx). exfalso. eapply not_elem_of_nil.
      rewrite <- E. apply list_elem_of_filter. done.
    - split; [|lia]. intros _. assert (a ∈ a :: l) as Ha by left. rewrite <- E in Ha.
      apply list_elem_of_filter in Ha as [??]. by exists a. }
  assert (Hidx : ∀ i x, outcomes !! i = Some x → index_of x outcomes = i).
  { intros i x Hi. unfold index_of. rewrite (proj2 (list_find_Some _ _ i x)); [done|].
    split_and!; [done|done|]. intros j y Hj Hlt ->. pose proof (NoDup_lookup _ _ _ _ Hnd Hi Hj). lia. }
  unfold worst_present. split.
  - intros ([i x] & (Hi & Hx & Hmin)%list_find_Some & ->)%fmap_Some. cbn. split; [by apply Hpos|].
    intros a Ha. rewrite (Hidx _ _ Hi). rewrite Forall_forall in Hall.
    destruct (list_elem_of_lookup_1 _ _ (Hall a Ha)) as [j Hj]. rewrite (Hidx _ _ Hj).
    destruct (decide (i ≤ j)%nat); [done|]. exfalso. apply (Hmin j (f a) Hj); [lia|].
    apply Hpos. by exists a.
  - intros [(a & Ha & <-) Hmin]. apply fmap_Some. rewrite Forall_forall in Hall.
    destruct (list_elem_of_lookup_1 _ _ (Hall a Ha)) as [i Hi]. exists (i, f a). split; [|done].
    apply list_find_Some. split_and!; [done|apply Hpos; by exists a|].
    intros j y Hj Hlt (b & Hb & <-)%Hpos. specialize (Hmin b Hb).
    rewrite (Hidx _ _ Hi), (Hidx _ _ Hj) in Hmin. lia.
Qed.

Lemma worst_present_ext {L} (outcomes : list L) f g :
  (∀ o, f o = g o) → worst_present outcomes f = worst_present outcomes g.
Proof.
  intros E. unfold worst_present. f_equal. apply list_find_ext. intros x. by rewrite E.
Qed.
Lemma worst_present_None {A L} `{EqDecision L} (f : A → L) outcomes a items :
  Forall (λ a, f a ∈ outcomes) (a :: items) → worst_present outcomes (count_of f (a :: items)) ≠ None.
Proof.
  intros [Ha _]%Forall_cons Hn. unfold worst_present in Hn. apply fmap_None, list_find_None in Hn.
  rewrite Forall_forall in Hn. apply (Hn (f a) Ha). rewrite count_of_cons, decide_True by done. lia.
Qed.
Lemma latest_spec (l : list jstring) m :
  let r := foldl (λ m s, if js_str_lt m s then s else m) m l in
  (r = m ∨ r ∈ l) ∧ js_compare m r ≠ Gt ∧ ∀ s, s ∈ l → js_compare s r ≠ Gt.
Proof.
  revert m. induction l as [|s l IH]; intros m; cbn.
  { split_and!; [by left|by rewrite (cmp_refl js_compare)|by intros s ?%elem_of_nil]. }
  set (m' := if js_str_lt m s then s else m). destruct (IH m') as (H1 & H2 & H3).
  set (r := foldl _ m' l) in *. clearbody r.
  assert (Hm : js_compare m m' ≠ Gt ∧ js_compare s m' ≠ Gt ∧ (m' = m ∨ m' = s)).
  { subst m'. unfold js_str_lt. destruct (js_compare m s) eqn:E.
    - apply js_compare_eq in E as ->. rewrite (cmp_refl js_compare). auto.
    - rewrite E, (cmp_refl js_compare). auto.
    - rewrite (cmp_refl js_compare), (cmp_gt_lt js_compare _ _ E). auto. }
  clearbody m'. destruct Hm as (Hm & Hs & Hmm). split_and!.
  - rewrite elem_of_cons. naive_solver.
  - by eapply (cmp_trans (cmp := js_compare)).
  - intros x [->|Hx]%elem_of_cons; [|by apply H3]. by eapply (cmp_trans (cmp := js_compare)).
Qed.

(** The backup card leads with the worst outcome some backup has, and with none
    exactly when there are no backups: a cluster without backups is not one
    whose backups are fine. Every backup has one outcome; the last completed
    time is the latest of the completed ones; and the rows are the worst of
    all that did not complete, newest first inside an outcome. *)
Theorem backupsView_worst lower lc entries limit : Comparator lc →
  let v := backupsView lower lc (JArr entries) limit in
  let items := omap (named_item "name") entries in
  let all := backup_row lower <$> filter (λ i, item_outcome lower i ≠ bk_completed) items in
  bk_total v = length items ∧ (bk_total v + bk_unreadableRows v)%nat = length entries ∧
  sum_list (bk_counts v <$> BACKUP_OUTCOMES) = bk_total v ∧
  (bk_worst v = None ↔ bk_total v = 0%nat) ∧
  (∀ o, bk_worst v = Some o ↔ (∃ i, i ∈ items ∧ item_outcome lower i = o) ∧
     ∀ i, i ∈ items → (index_of o BACKUP_OUTCOMES ≤ index_of (item_outcome lower i) BACKUP_OUTCOMES)%nat) ∧
  (∀ s, s ∈ completed_starts lower items → js_compare s (lastCompleted v) ≠ Gt) ∧
  (lastCompleted v = ""%js ∨ lastCompleted v ∈ completed_starts lower items) ∧
  ranked (backup_order lc) (Z.max 0 limit) all (bk_rows v).
Proof.
  intros Hlc. unfold backupsView. cbn [list_].
  destruct (backup_loop_spec lower entries) as (H0 & H1 & H2 & H3 & H4 & H5).
  set (v := foldl _ _ entries) in *. clearbody v. cbn zeta.
  cbn [bk_total bk_unreadableRows bk_counts bk_worst lastCompleted bk_rows].
  set (items := omap _ entries) in *. clearbody items.
  assert (Hin : Forall (λ i, item_outcome lower i ∈ BACKUP_OUTCOMES) items).
  { apply Forall_forall. intros i _. by destruct (item_outcome lower i); unfold BACKUP_OUTCOMES; set_solver. }
  assert (Hnd : NoDup BACKUP_OUTCOMES) by (apply (bool_decide_unpack _); vm_compute; exact I).
  assert (Hw : ∀ o, (if (bk_total v =? 0)%nat then None else worst_present BACKUP_OUTCOMES (bk_counts v)) = Some o
    ↔ worst_present BACKUP_OUTCOMES (count_of (item_outcome lower) items) = Some o).
  { intros o. rewrite (worst_present_ext _ _ _ H4). destruct (Nat.eqb_spec (bk_total v) 0) as [E|]; [|done].
    rewrite H1 in E. apply length_zero_iff_nil in E as ->. done. }
  destruct (latest_spec (completed_starts lower items) ""%js) as (L1 & _ & L2). rewrite <- H5 in L1, L2.
  split_and!; try done.
  - rewrite H1, <- (sum_by_label (item_outcome lower) BACKUP_OUTCOMES items) by done.
    unfold sum_list. cbn. by rewrite !H4.
  - destruct (Nat.eqb_spec (bk_total v) 0) as [E|E]; [done|]. split; [|done]. intros Hn. exfalso.
    destruct items as [|i l]; [done|]. rewrite (worst_present_ext _ _ _ H4) in Hn.
    by eapply (worst_present_None (item_outcome lower)) in Hn.
  - intros o. rewrite Hw. by apply worst_present_spec.
  - rewrite H3. apply slice_ranked; [by apply backup_order_comparator|done|lia].
Qed.

(** The snapshot card never hides an error behind a ready flag: a snapshot that
    carries an error message counts as an error, whatever [readyToUse] says,
    and leads the card; the worst outcome is absent exactly when there are no
    snapshots. *)
Theorem snapshotHealthView_worst lc entries limit : Comparator lc →
  let v := snapshotHealthView lc (JArr entries) limit in
  let items := omap (named_item "name") entries in
  let all := snapshot_row <$> filter (λ i, snapshot_outcome i ≠ snap_ready) items in
  snap_total v = length items ∧ (snap_total v + snap_unreadableRows v)%nat = length entries ∧
  sum_list (snap_counts v <$> SNAPSHOT_OUTCOMES) = snap_total v ∧
  (snap_worst v = None ↔ snap_total v = 0%nat) ∧
  (snap_worst v = Some snap_error ↔ ∃ i, i ∈ items ∧ str (field i "errorMessage") ≠ ""%js) ∧
  ranked (snapshot_order lc) (Z.max 0 limit) all (snap_rows v).
Proof.
  intros Hlc. unfold snapshotHealthView. cbn [list_].
  destruct (snapshot_loop_spec entries) as (H0 & H1 & H2 & H3 & H4).
  set (v := foldl _ _ entries) in *. clearbody v. cbn zeta.
  cbn [snap_total snap_unreadableRows snap_counts snap_worst snap_rows].
  set (items := omap _ entries) in *. clearbody items.
  assert (Hin : Forall (λ i, snapshot_outcome i ∈ SNAPSHOT_OUTCOMES) items).
  { apply Forall_forall. intros i _. by destruct (snapshot_outcome i); unfold SNAPSHOT_OUTCOMES; set_solver. }
  assert (Hnd : NoDup SNAPSHOT_OUTCOMES) by (apply (bool_decide_unpack _); vm_compute; exact I).
  assert (Herr : ∀ i, snapshot_outcome i = snap_error ↔ str (field i "errorMessage") ≠ ""%js).
  { intros i. unfold snapshot_outcome. rewrite js_eqb_decide. case_decide; cbn [negb]; [|done].
    split; [|done]. by destruct (is_true_val _). }
  rewrite (worst_present_ext _ _ _ H4). split_and!; try done.
  - rewrite H1, <- (sum_by_label snapshot_outcome SNAPSHOT_OUTCOMES items) by done.
    unfold sum_list. cbn. by rewrite !H4.
  - destruct (Nat.eqb_spec (snap_total v) 0) as [E|E]; [done|]. split; [|done]. intros Hn. exfalso.
    destruct items as [|i l]; [done|]. by eapply (worst_present_None snapshot_outcome) in Hn.
  - setoid_rewrite <- Herr. destruct (Nat.eqb_spec (snap_total v) 0) as [E|E].
    + rewrite H1 in E. apply length_zero_iff_nil in E as ->. split; [done|]. by intros (? & ?%elem_of_nil & _).
    + rewrite worst_present_spec by done. split; [naive_solver|]. intros Hi. split; [done|].
      intros a _. change (index_of snap_error SNAPSHOT_OUTCOMES) with 0%nat. lia.
  - rewrite H3. apply slice_ranked; [by apply snapshot_order_comparator|done|lia].
Qed.

(** ** Witnesses *)

Definition demo_cert (name : jstring) (days warn crit : Z) : jsval :=
  JObj [("name", JStr name); ("daysRemaining", JNum (of_Z days));
        ("warningThresholdDays", JNum (of_Z warn)); ("criticalThresholdDays", JNum (of_Z crit))]%js.
Definition demo_certs : list jsval :=
  [demo_cert "fine" 90 30 7; demo_cert "soon" 30 30 7; demo_cert "now" 7 30 7;
   demo_cert "odd" 5 0 7; JNull]%js.
Lemma certsExpiringView_accounts_witness :
  let v := certsExpiringView (JArr demo_certs) 5 in
  cert_name <$> cert_rows v = ["now"; "soon"]%js ∧
  (cert_critical v + cert_warning v + cert_healthy v + unclassified v)%nat = 4%nat.
Proof.
  split; [vm_compute; reflexivity|].
  etrans; [apply (certsExpiringView_accounts demo_certs 5); vm_compute; reflexivity|].
  vm_compute. reflexivity.
Defined.

Definition demo_secret (name status : jstring) (drift : jsval) : jsval :=
  JObj [("name", JStr name); ("status", JStr status); ("lastObservedDriftStatus", drift)]%js.
Definition demo_secrets : list jsval :=
  [demo_secret "a" "Synced" JUndef; demo_secret "b" "" (JStr "InSync"); demo_secret "c" "SyncFailed" JNull]%js.
Lemma esoHealthView_accounts_witness :
  let v := esoHealthView js_compare (JArr demo_secrets) 5 in
  eso_name <$> eso_rows v = ["c"; "b"]%js ∧ sum_list (drift v <$> ESO_DRIFT_STATES) = eso_total v.
Proof.
  split; [vm_compute; reflexivity|]. apply (esoHealthView_accounts js_compare demo_secrets 5). apply _.
Defined.

Definition demo_backup (name phase start : jstring) : jsval :=
  JObj [("name", JStr name); ("phase", JStr phase); ("startTime", JStr start)]%js.
Definition demo_backups : list jsval :=
  [demo_backup "a" "Completed" "2026-01-02"; demo_backup "b" "InProgress" "2026-01-04";
   demo_backup "c" "PartiallyFailed" "2026-01-03"; demo_backup "d" "Completed" "2026-01-01"]%js.
Lemma backupsView_worst_witness :
  let v := backupsView ascii_lower js_compare (JArr demo_backups) 5 in
  bk_worst v = Some bk_failed ∧ lastCompleted v = "2026-01-02"%js ∧
  sum_list (bk_counts v <$> BACKUP_OUTCOMES) = bk_total v.
Proof.
  split; [vm_compute; reflexivity|]. split; [vm_compute; reflexivity|].
  apply (backupsView_worst ascii_lower js_compare demo_backups 5). apply _.
Defined.

Definition demo_snapshots : list jsval :=
  [JObj [("name", JStr "a"); ("readyToUse", JBool true); ("errorMessage", JStr "late")];
   JObj [("name", JStr "b"); ("readyToUse", JBool true)]]%js.
Lemma snapshotHealthView_worst_witness :
  let v := snapshotHealthView js_compare (JArr demo_snapshots) 5 in
  snap_worst v = Some snap_error ∧ snap_name <$> snap_rows v = ["a"%js].
Proof.
  split; [|vm_compute; reflexivity].
  apply (snapshotHealthView_worst js_compare demo_snapshots 5); [apply _|].
  exists [("name"%js, JStr "a"); ("readyToUse"%js, JBool true); ("errorMessage"%js, JStr "late")].
  split; [vm_compute; left|]. vm_compute. discriminate.
Defined.
