(* ===== verification/NetworkCards.v ===== *)
(** * The networking, consumer and diagnostics cards: networking.ts,
    top-consumers.ts, diagnostics-summary.ts

    Golden signals of a service, Hubble flows, the Gateway API inventory, the
    pods that use most, and what fails in a namespace. Each view is a function
    of a payload that may hold anything; a number that was not measured must not
    read as a zero. [toLowerCase], [localeCompare] and [Date.parse] are the
    host's. *)

From stdpp Require Import base list strings sorting.
From Stdlib Require Import ZArith NArith QArith Lia Permutation.
From S2P Require Import Prelude JsValue Narrow Uri Severity SyncState Workloads.

Open Scope Z_scope.

(** ** Definitions *)

(** *** Golden signals *)

Definition text_values (value : jsval) : list jstring :=
  omap (λ v, match v with JStr s => Some s | _ => None end) (listOr value).
Definition goldenSignalsServiceHref (namespace service : jstring) : option jstring :=
  path_of "/networking/services"%js [namespace; service].
Inductive Signal := sig_rps | sig_errorRate | sig_p50 | sig_p95 | sig_p99.
Definition SIGNAL_QUERIES (s : Signal) : list jstring :=
  match s with
  | sig_rps => ["rps"] | sig_errorRate => ["errorNum"; "errorDen"] | sig_p50 => ["p50"] | sig_p95 => ["p95"]
  | sig_p99 => ["p99"]
  end%js.
Definition signal_field (s : Signal) : jstring :=
  match s with sig_rps => "rps" | sig_errorRate => "errorRate" | sig_p50 => "p50Ms" | sig_p95 => "p95Ms" | sig_p99 => "p99Ms" end%js.
Record GoldenSignalsView := {
  gs_readable : bool;
  gs_namespace : jstring;
  gs_service : jstring;
  gs_mesh : jstring;
  gs_available : bool;
  gs_reason : jstring;
  gs_value : Signal → option number;   (** the error rate as a whole percent *)
  gs_missing : list jstring
}.
Definition emptyGoldenSignals (readable : bool) : GoldenSignalsView :=
  {| gs_readable := readable; gs_namespace := ""; gs_service := ""; gs_mesh := ""; gs_available := false; gs_reason := "";
     gs_value := λ _, None; gs_missing := [] |}%js.
Definition measured (available : bool) (missing : list jstring) (s : Signal) (raw : jsval) : option number :=
  if negb available then None
  else if existsb (λ q, bool_decide (q ∈ missing)) (SIGNAL_QUERIES s) then None
  else num raw.
Definition goldenSignalsView (data : jsval) : GoldenSignalsView :=
  match obj data with
  | None => emptyGoldenSignals false
  | Some envelope =>
      match obj (field envelope "signals") with
      | None => emptyGoldenSignals false
      | Some signals =>
          let available := is_true_val (field signals "available") in
          let missing := text_values (field signals "missingQueries") in
          {| gs_readable := true; gs_namespace := str (field signals "namespace"); gs_service := str (field signals "service");
             gs_mesh := str (field signals "mesh"); gs_available := available; gs_reason := str (field signals "reason");
             gs_value := λ s, let v := measured available missing s (field signals (signal_field s)) in
               match s with sig_errorRate => coveragePercent v | _ => v end;
             gs_missing := missing |}
      end
  end.

(** *** Hubble flows *)

Definition HUBBLE_FLOW_BATCH : Z := 500.
Inductive FlowVerdict := fv_forwarded | fv_dropped | fv_error | fv_audit | fv_unknown.
#[export] Instance FlowVerdict_eq : EqDecision FlowVerdict.
Proof. solve_decision. Defined.
Definition FLOW_VERDICTS : list FlowVerdict := [fv_forwarded; fv_dropped; fv_error; fv_audit; fv_unknown].
Definition BLOCKED_VERDICTS : list FlowVerdict := [fv_dropped; fv_error].
Definition verdict_name (v : FlowVerdict) : jstring :=
  match v with
  | fv_forwarded => "forwarded" | fv_dropped => "dropped" | fv_error => "error" | fv_audit => "audit" | fv_unknown => "unknown"
  end%js.
Inductive Side := src | dst.
Definition side_field (side : Side) (k : jstring) : jstring :=
  (match side with src => "src" | dst => "dst" end +++ k)%js.
Definition endpoint (flow : list (jstring * jsval)) (side : Side) : jstring :=
  let pod := str (field flow (side_field side "Pod")) in
  let namespace := str (field flow (side_field side "Namespace")) in
  if negb (js_eqb pod ""%js) then (if js_eqb namespace ""%js then pod else (namespace +++ "/" +++ pod)%js)
  else
    let service := str (field flow (side_field side "Service")) in
    if negb (js_eqb service ""%js) then service else str (field flow (side_field side "IP")).
Record FlowRow := {
  fr_time : jstring;
  fr_verdict : FlowVerdict;
  dropReason : jstring;
  fr_source : jstring;
  fr_destination : jstring;
  protocol : jstring;
  port : option number
}.
Record HubbleFlowsView := {
  hf_readable : bool;
  hf_total : nat;
  hf_counts : FlowVerdict → nat;
  hf_blocked : nat;
  blockedPercent : option number;
  hf_rows : list FlowRow;
  hf_shown : nat;
  hf_unreadable : nat
}.
Definition emptyFlowCounts : FlowVerdict → nat := λ _, 0%nat.
Definition emptyFlowsView (readable : bool) : HubbleFlowsView :=
  {| hf_readable := readable; hf_total := 0; hf_counts := emptyFlowCounts; hf_blocked := 0; blockedPercent := None;
     hf_rows := []; hf_shown := 0; hf_unreadable := 0 |}.
Definition is_blocked (v : FlowVerdict) : bool := bool_decide (v ∈ BLOCKED_VERDICTS).

Section Flows.
Context (toLowerCase : jstring → jstring) (Date_parse : jstring → number).
Definition verdictOf (value : jsval) : FlowVerdict :=
  let raw := toLowerCase (str value) in
  default fv_unknown (List.find (λ v, js_eqb (verdict_name v) raw) FLOW_VERDICTS).
Definition flow_verdict (item : jsval) : FlowVerdict := verdictOf (field_opt (obj item) "verdict").
Definition flow_row (item : jsval) : option FlowRow :=
  flow ← obj item;
  let source := endpoint flow src in
  let destination := endpoint flow dst in
  if js_eqb source ""%js || js_eqb destination ""%js then None
  else Some {| fr_time := str (field flow "time"); fr_verdict := flow_verdict item; dropReason := str (field flow "dropReason");
               fr_source := source; fr_destination := destination; protocol := str (field flow "protocol");
               port := num (field flow "dstPort") |}.
(** The loop: the counts, the rows and the entries without one. *)
Definition flow_step (st : (FlowVerdict → nat) * list FlowRow * nat) (item : jsval) : (FlowVerdict → nat) * list FlowRow * nat :=
  let '(counts, rows, unreadable) := st in
  let counts' := bump (flow_verdict item) counts in
  match flow_row item with
  | Some r => (counts', rows ++ [r], unreadable)
  | None => (counts', rows, S unreadable)
  end.
Definition flow_at (r : FlowRow) : number :=
  let parsed := Date_parse (fr_time r) in if isFinite parsed then parsed else of_Z 0.
Definition newest_first (a b : FlowRow) : comparison := by_difference (flow_at b) (flow_at a).
Definition hubbleFlowsView (data : jsval) (limit : Z) : HubbleFlowsView :=
  match list_ data with
  | None => emptyFlowsView false
  | Some items =>
      let '(counts, readable, unreadable) := foldl flow_step (emptyFlowCounts, [], 0%nat) items in
      let blocked := foldl (λ sum v, sum + counts v)%nat 0%nat BLOCKED_VERDICTS in
      let candidates := filter (λ r, is_blocked (fr_verdict r) = true) readable in
      let rows := slice0 (js_sort newest_first (match candidates with [] => readable | _ => candidates end)) (Z.max 0 limit) in
      {| hf_readable := true; hf_total := length items; hf_counts := counts; hf_blocked := blocked;
         blockedPercent := match items with
           | [] => None
           | _ => coveragePercent (Some (num_quot (of_Z (Z.of_nat blocked)) (of_Z (Z.of_nat (length items)))))
           end;
         hf_rows := rows; hf_shown := length rows; hf_unreadable := unreadable |}
  end.
End Flows.

(** *** Gateways *)

(** The first item of the type whose status decides. *)
Fixpoint decided (type : jstring) (items : list jsval) : option bool :=
  match items with
  | [] => None
  | item :: rest =>
      match obj item with
      | None => decided type rest
      | Some c =>
          if negb (js_eqb (str (field c "type")) type) then decided type rest
          else
            let status := str (field c "status") in
            if js_eqb status "True"%js then Some true else if js_eqb status "False"%js then Some false else decided type rest
      end
  end.
Definition gatewayReady (conditions : jsval) : option bool :=
  match list_ conditions with
  | None => None
  | Some items => match decided "Programmed"%js items with Some b => Some b | None => decided "Accepted"%js items end
  end.
Record GatewayRow := {
  gw_namespace : jstring;
  gw_name : jstring;
  gw_class : jstring;
  gw_listeners : nat;
  attachedRoutes : number;
  gw_ready : option bool
}.
Record GatewayRoutesView := {
  gv_readable : bool;
  gatewayCount : nat;
  notReady : nat;
  routeCount : nat;
  unattached : nat;
  gv_rows : list GatewayRow;
  gv_unreadable : nat
}.
Definition emptyGatewayView (readable : bool) : GatewayRoutesView :=
  {| gv_readable := readable; gatewayCount := 0; notReady := 0; routeCount := 0; unattached := 0; gv_rows := [];
     gv_unreadable := 0 |}.
Definition is_ready (row : GatewayRow) : bool := match gw_ready row with Some true => true | _ => false end.
Definition gatewayRank (row : GatewayRow) : Z :=
  if negb (is_ready row) then 0 else if num_eqb (attachedRoutes row) (of_Z 0) then 1 else 2.
Definition gateway_row (item : jsval) : option GatewayRow :=
  gw ← obj item;
  let name := str (field gw "name") in
  if js_eqb name ""%js then None
  else Some {| gw_namespace := str (field gw "namespace"); gw_name := name; gw_class := str (field gw "gatewayClassName");
               gw_listeners := length (listOr (field gw "listeners"));
               attachedRoutes := default (of_Z 0) (num (field gw "attachedRouteCount"));
               gw_ready := gatewayReady (field gw "conditions") |}.
Definition gateway_key (namespace name : jstring) : jstring := (namespace +++ "/" +++ name)%js.
Definition row_key (r : GatewayRow) : jstring := gateway_key (gw_namespace r) (gw_name r).
Definition gateway_step (st : list GatewayRow * list jstring * nat) (item : jsval) : list GatewayRow * list jstring * nat :=
  let '(rows, known, unreadable) := st in
  match gateway_row item with
  | None => (rows, known, S unreadable)
  | Some r => (rows ++ [r], row_key r :: known, unreadable)
  end.
(** The gateway a parent reference names, if it names one. *)
Definition ref_key (ownNamespace : jstring) (r : jsval) : option jstring :=
  ref ← obj r;
  let kind := str (field ref "kind") in
  if negb (js_eqb kind ""%js) && negb (js_eqb kind "Gateway"%js) then None
  else
    let refName := str (field ref "name") in
    if js_eqb refName ""%js then None
    else
      let ns := str (field ref "namespace") in
      Some (gateway_key (if js_eqb ns ""%js then ownNamespace else ns) refName).
Definition attached (known : list jstring) (route : list (jstring * jsval)) : bool :=
  existsb (λ r, match ref_key (str (field route "namespace")) r with Some k => bool_decide (k ∈ known) | None => false end)
    (listOr (field route "parentRefs")).
Definition route_step (known : list jstring) (n : nat) (item : jsval) : nat :=
  match obj item with None => n | Some route => if attached known route then n else S n end.
Section Gateways.
Context (localeCompare : jstring → jstring → comparison).
Definition gateway_order (a b : GatewayRow) : comparison :=
  Z.compare (gatewayRank a) (gatewayRank b) <||> localeCompare (gw_name a) (gw_name b) <||>
  localeCompare (gw_namespace a) (gw_namespace b).
Definition gatewayRoutesView (gateways routes : jsval) (limit : Z) : GatewayRoutesView :=
  match list_ gateways, list_ routes with
  | Some gwItems, Some routeItems =>
      let '(rows, known, unreadable) := foldl gateway_step ([], [], 0%nat) gwItems in
      {| gv_readable := true; gatewayCount := length gwItems;
         notReady := length (filter (λ r, is_ready r = false) (js_sort gateway_order rows)); routeCount := length routeItems;
         unattached := foldl (route_step known) 0%nat routeItems;
         gv_rows := slice0 (js_sort gateway_order rows) (Z.max 0 limit); gv_unreadable := unreadable |}
  | _, _ => emptyGatewayView false
  end.
End Gateways.

(** *** Consumers *)

Record ConsumerRow := { cr_namespace : jstring; cr_pod : jstring; cr_value : number }.
Record TopConsumersView := { tc_rows : list ConsumerRow; tc_readable : bool; tc_dropped : nat; tc_warnings : list jstring }.
Definition UNREADABLE : TopConsumersView := {| tc_rows := []; tc_readable := false; tc_dropped := 0; tc_warnings := [] |}.
Definition sampleValue (value : jsval) : option number :=
  match value with
  | JArr (_ :: JNum n :: _) => if isFinite n then Some n else None
  | JArr (_ :: JStr s :: _) =>
      if js_eqb (js_trim s) ""%js then None else let parsed := js_Number s in if isFinite parsed then Some parsed else None
  | _ => None
  end.
Definition consumer_of (sample : jsval) : option ConsumerRow :=
  s ← obj sample;
  let metric := obj (field s "metric") in
  let pod := str (field_opt metric "pod") in
  if js_eqb pod ""%js then None
  else value ← sampleValue (field s "value");
       Some {| cr_namespace := str (field_opt metric "namespace"); cr_pod := pod; cr_value := value |}.
Definition consumer_step (st : list ConsumerRow * nat) (sample : jsval) : list ConsumerRow * nat :=
  match consumer_of sample with Some r => (st.1 ++ [r], st.2) | None => (st.1, S st.2) end.
Definition consumerHref (row : ConsumerRow) : option jstring :=
  path_of "/workloads/pods"%js [cr_namespace row; cr_pod row].
Section Consumers.
Context (localeCompare : jstring → jstring → comparison).
Definition consumer_order (a b : ConsumerRow) : comparison :=
  by_difference (cr_value b) (cr_value a) <||> localeCompare (cr_namespace a) (cr_namespace b) <||>
  localeCompare (cr_pod a) (cr_pod b).
Definition rankConsumers (payload : jsval) (limit : Z) : TopConsumersView :=
  match obj payload with
  | None => UNREADABLE
  | Some body =>
      if negb (js_eqb (str (field body "resultType")) "vector"%js) then UNREADABLE
      else match list_ (field body "result") with
        | None => UNREADABLE
        | Some samples =>
            let '(rows, dropped) := foldl consumer_step ([], 0%nat) samples in
            {| tc_rows := slice0 (js_sort consumer_order rows) limit; tc_readable := true; tc_dropped := dropped;
               tc_warnings := filter (λ w, w ≠ ""%js) (str <$> listOr (field body "warnings")) |}
        end
  end.
End Consumers.

(** *** Diagnostics *)

Inductive DiagnosticsSeverity := dg_critical | dg_warning.
#[export] Instance DiagnosticsSeverity_eq : EqDecision DiagnosticsSeverity.
Proof. solve_decision. Defined.
Definition WARNING_REASONS : list jstring := ["Pending"]%js.
Definition severityOf (reason : jstring) : DiagnosticsSeverity :=
  if bool_decide (reason ∈ WARNING_REASONS) then dg_warning else dg_critical.
(** The payload as its type has it: [total] and [failing] may be anything, a
    failure is [null] or has a text for its reason or none. *)
Record DiagnosticsSummary := { ds_total : jsval; ds_failing : option (list (option jstring)) }.
Record DiagnosticsReasonCount := { rc_reason : jstring; rc_count : nat; rc_severity : DiagnosticsSeverity }.
Record DiagnosticsRollUp := {
  dr_total : number;
  dr_failing : nat;
  dr_healthy : number;
  dr_critical : nat;
  dr_warning : nat;
  dr_reasons : list DiagnosticsReasonCount;
  dr_empty : bool
}.
Definition EMPTY_DIAGNOSTICS : DiagnosticsRollUp :=
  {| dr_total := of_Z 0; dr_failing := 0; dr_healthy := of_Z 0; dr_critical := 0; dr_warning := 0; dr_reasons := [];
     dr_empty := true |}.
Definition diagnostics_step (st : list (jstring * nat) * nat * nat) (failure : option jstring) : list (jstring * nat) * nat * nat :=
  let '(counts, critical, warning) := st in
  let reason := default ""%js failure in
  let counts' := assoc_set reason (S (default 0%nat (assoc reason counts))) counts in
  match severityOf reason with dg_critical => (counts', S critical, warning) | dg_warning => (counts', critical, S warning) end.
Section Diagnostics.
Context (localeCompare : jstring → jstring → comparison).
Definition reason_order (a b : DiagnosticsReasonCount) : comparison :=
  Nat.compare (rc_count b) (rc_count a) <||> localeCompare (rc_reason a) (rc_reason b).
Definition rollUpDiagnostics (data : option DiagnosticsSummary) : DiagnosticsRollUp :=
  match data with
  | None => EMPTY_DIAGNOSTICS
  | Some d =>
      let total := match ds_total d with JNum n => n | _ => of_Z 0 end in
      let failures := default [] (ds_failing d) in
      let '(counts, critical, warning) := foldl diagnostics_step ([], 0%nat, 0%nat) failures in
      let n := of_Z (Z.of_nat (length failures)) in
      {| dr_total := total; dr_failing := length failures; dr_healthy := num_max (of_Z 0) (num_sub total n);
         dr_critical := critical; dr_warning := warning;
         dr_reasons := js_sort reason_order ((λ e, {| rc_reason := e.1; rc_count := e.2; rc_severity := severityOf e.1 |}) <$> counts);
         dr_empty := num_eqb total (of_Z 0) && bool_decide (failures = []) |}
  end.
End Diagnostics.

(** ** Golden signals: no zero for a query nobody answered *)

(** A signal of the card is a number exactly when the metrics could be asked, none of the
    queries it is computed from is reported missing, and the payload has one for it: the
    zero the route sends for a query that failed is never shown. *)
Theorem golden_signal_measured data s : let v := goldenSignalsView data in
  is_Some (gs_value v s) ↔ gs_readable v = true ∧ gs_available v = true ∧
    (∀ q, q ∈ SIGNAL_QUERIES s → q ∉ gs_missing v) ∧
    ∃ envelope signals n, obj data = Some envelope ∧ obj (field envelope "signals") = Some signals ∧
      num (field signals (signal_field s)) = Some n.
Proof.
  unfold goldenSignalsView. destruct (obj data) as [envelope|] eqn:Ed;
    [|cbn; split; [by intros [? ?]|by intros (? & _)]].
  destruct (obj (field envelope "signals")) as [signals|] eqn:Es; [|cbn; split; [by intros [? ?]|by intros (? & _)]].
  cbn [gs_value gs_readable gs_available gs_missing]. set (missing := text_values _).
  assert (Hm : ∀ raw, is_Some (measured (is_true_val (field signals "available")) missing s raw) ↔
    is_true_val (field signals "available") = true ∧ (∀ q, q ∈ SIGNAL_QUERIES s → q ∉ missing) ∧ is_Some (num raw)).
  { intros raw. unfold measured. destruct (is_true_val _); cbn [negb]; [|split; [by intros [? ?]|by intros [? _]]].
    destruct (existsb _ _) eqn:Ex.
    - apply existsb_exists in Ex as (q & Hq%list_elem_of_In & Hin%bool_decide_eq_true).
      split; [by intros [? ?]|]. intros (_ & Hn & _). by destruct (Hn q).
    - split; [|by intros (_ & _ & ?)]. intros Hs. split_and!; [done| |done]. intros q Hq Hin.
      assert (Ht : existsb (λ q, bool_decide (q ∈ missing)) (SIGNAL_QUERIES s) = true); [|congruence].
      apply existsb_exists. exists q. split; [by apply list_elem_of_In|by apply bool_decide_eq_true]. }
  assert (Hc : ∀ o, (∀ n, o = Some n → isFinite n = true) → is_Some (coveragePercent o) ↔ is_Some o).
  { intros [n|] Hn; [|done]. unfold coveragePercent. rewrite (Hn n) by done. cbn [negb].
    split; intros _; [done|]. by repeat case_match. }
  assert (Hfin : ∀ b raw n, measured b missing s raw = Some n → isFinite n = true).
  { intros b raw n. unfold measured. destruct b; [|done]. cbn [negb]. destruct (existsb _ _); [done|].
    by intros [q ->]%num_Fin. }
  assert (E : is_Some (match s with
      | sig_errorRate => coveragePercent (measured (is_true_val (field signals "available")) missing s (field signals (signal_field s)))
      | _ => measured (is_true_val (field signals "available")) missing s (field signals (signal_field s)) end) ↔
    is_Some (measured (is_true_val (field signals "available")) missing s (field signals (signal_field s)))).
  { destruct s; try done. apply Hc. apply Hfin. }
  rewrite E, Hm. split.
  - intros (? & ? & [n Hn]). split_and!; [done|done|done|]. exists envelope, signals, n. done.
  - intros (_ & ? & ? & e & s' & n & [= <-] & Hs' & Hn). split_and!; [done|done|]. rewrite Es in Hs'. injection Hs' as <-. eauto.
Qed.

(** ** Flows *)

Section FlowCounts.
Context (lower : jstring → jstring) (Date_parse : jstring → number) `{Hdate : !DateParse Date_parse}.
Lemma flow_loop_spec items : let st := foldl (flow_step lower) (emptyFlowCounts, [], 0%nat) items in
  (∀ v, st.1.1 v = length (filter (λ i, flow_verdict lower i = v) items)) ∧ st.1.2 = omap (flow_row lower) items ∧
  (st.2 + length st.1.2)%nat = length items.
Proof.
  induction items as [|i items IH] using rev_ind; [done|]. rewrite foldl_app. cbn [foldl].
  destruct (foldl _ _ items) as [[counts rows] un]. destruct IH as (H1 & H2 & H3). cbn [fst snd] in *. cbv zeta.
  assert (Hb : ∀ v, bump (flow_verdict lower i) counts v = length (filter (λ j, flow_verdict lower j = v) (items ++ [i]))).
  { intros v. rewrite filter_app, length_app, <- H1, filter_cons. unfold bump. case_decide; case_decide; subst; cbn; try done; lia. }
  unfold flow_step. rewrite omap_app. cbn [omap list_omap].
  destruct (flow_row lower i) as [r|]; cbn [fst snd]; rewrite ?length_app in *; cbn [length app]; split_and!; try done; subst;
    rewrite ?app_nil_r; try done; rewrite ?length_app; cbn; lia.
Qed.
Lemma flow_at_value r : ∃ z, flow_at Date_parse r = of_Z z.
Proof.
  unfold flow_at. destruct (date_value (fr_time r)) as [->|(ms & -> & _)]; [by exists 0|by exists ms].
Qed.
Lemma grid_int z : double_grid (inject_Z z) = true.
Proof. unfold double_grid. cbn [Qnum Qden inject_Z]. by rewrite Z.mod_1_r. Qed.
Definition by_time (a b : FlowRow) : comparison := num_rank (flow_at Date_parse b) (flow_at Date_parse a).
Lemma newest_first_exact a b : newest_first Date_parse a b = by_time a b.
Proof.
  unfold newest_first, by_time. destruct (flow_at_value a) as [x ->], (flow_at_value b) as [y ->]. unfold of_Z.
  by rewrite by_difference_exact by apply grid_int.
Qed.
End FlowCounts.
#[local] Instance by_time_comparator dp : Comparator (by_time dp).
Proof. apply (cmp_flip_comparator (λ a b, num_rank (flow_at dp a) (flow_at dp b))), (cmp_on_comparator (flow_at dp)), _. Qed.

(** The flow card accounts for its batch: every flow is in one of the five verdicts, the
    blocked ones are those dropped or errored (an audited or unreadable verdict is not),
    each flow has a row or is reported as unreadable. The rows are the newest ones, of the
    blocked flows when any can be shown and of all otherwise, and the percentage is 0 or 100
    only for none or all. *)
Theorem flows_account lower dp `{!DateParse dp} items limit : Z.of_nat (length items) < 2 ^ 32 →
  let v := hubbleFlowsView lower dp (JArr items) limit in
  let rows := omap (flow_row lower) items in
  let blocked := filter (λ r, is_blocked (fr_verdict r) = true) rows in
  sum_list_with (hf_counts v) FLOW_VERDICTS = length items ∧ hf_total v = length items ∧
  hf_blocked v = length (filter (λ i, is_blocked (flow_verdict lower i) = true) items) ∧
  (hf_unreadable v + length rows)%nat = length items ∧
  ranked (by_time dp) (Z.max 0 limit) (match blocked with [] => rows | _ => blocked end) (hf_rows v) ∧
  (items ≠ [] → ∃ p, blockedPercent v = Some (of_Z p) ∧ 0 <= p <= 100 ∧ (p = 0 ↔ hf_blocked v = 0%nat) ∧
    (p = 100 ↔ hf_blocked v = length items)).
Proof.
  intros Hlen v rows blocked. unfold v, hubbleFlowsView. cbn [list_].
  pose proof (flow_loop_spec lower items) as Hs. destruct (foldl (flow_step lower) _ items) as [[counts readable] un].
  cbn [fst snd] in Hs. destruct Hs as (Hc & -> & Hun). fold rows. fold rows in Hun.
  cbn [hf_counts hf_total hf_blocked hf_unreadable hf_rows blockedPercent].
  assert (Hb : foldl (λ sum v, sum + counts v)%nat 0%nat BLOCKED_VERDICTS =
    length (filter (λ i, is_blocked (flow_verdict lower i) = true) items)).
  { cbn [foldl BLOCKED_VERDICTS]. rewrite !Hc. clear. induction items as [|i items IH]; [done|]. rewrite !filter_cons.
    destruct (flow_verdict lower i); repeat case_decide; try done; cbn [length] in *; lia. }
  rewrite Hb. split_and!; [|done|done|done| |].
  - transitivity (sum_list_with (λ x, length (filter (λ i, flow_verdict lower i = x) items)) FLOW_VERDICTS).
    { clear -Hc. induction FLOW_VERDICTS as [|x l IH]; [done|]. cbn. by rewrite Hc, IH. }
    apply sum_by_label; [|apply Forall_forall; intros i _; destruct (flow_verdict lower i); apply (bool_decide_unpack _); exact I].
    apply (bool_decide_unpack _). exact I.
  - apply slice_ranked; [apply _| |lia]. intros. apply (newest_first_exact dp).
  - intros Hne. destruct items as [|i items]; [done|]. set (l := i :: items) in *.
    pose proof (length_filter (λ i, is_blocked (flow_verdict lower i) = true) l) as Hle.
    destruct (coveragePercent_counts (Z.of_nat (length (filter (λ i, is_blocked (flow_verdict lower i) = true) l))) (Z.of_nat (length l)))
      as (p & Hp & Hr & H0 & H1); [lia|subst l; cbn [length] in *; lia|].
    exists p. split_and!; [exact Hp|lia|lia|rewrite H0; lia|rewrite H1; lia].
Qed.

(** ** Gateways *)

Lemma gateway_loop_spec items : let st := foldl gateway_step ([], [], 0%nat) items in
  st.1.1 = omap gateway_row items ∧ (∀ k, k ∈ st.1.2 ↔ k ∈ row_key <$> omap gateway_row items) ∧
  (st.2 + length st.1.1)%nat = length items.
Proof.
  induction items as [|i items IH] using rev_ind; [done|]. rewrite foldl_app. cbn [foldl].
  destruct (foldl _ _ items) as [[rows known] un]. destruct IH as (H1 & H2 & H3). cbn [fst snd] in *. cbv zeta.
  unfold gateway_step. rewrite omap_app. cbn [omap list_omap]. destruct (gateway_row i) as [r|]; cbn [fst snd];
    rewrite ?length_app, ?app_nil_r in *; cbn [length]; split_and!; try done; try lia.
  - by subst.
  - intros k. rewrite elem_of_cons, H2, fmap_app, elem_of_app. cbn. rewrite list_elem_of_singleton. tauto.
Qed.
(** The routes the card reads that no gateway of it takes. *)
Definition orphan (known : list jstring) (item : jsval) : bool :=
  match obj item with None => false | Some route => negb (attached known route) end.
Lemma unattached_count known items : foldl (route_step known) 0%nat items = length (filter (λ i, orphan known i = true) items).
Proof.
  induction items as [|i items IH] using rev_ind; [done|]. rewrite foldl_app, filter_app, length_app, filter_cons. cbn [foldl].
  rewrite IH. unfold route_step, orphan. destruct (obj i) as [route|]; [destruct (attached known route)|];
    repeat case_decide; try done; cbn; lia.
Qed.
Lemma attached_spec known route : attached known route = true ↔
  ∃ r k, r ∈ listOr (field route "parentRefs") ∧ ref_key (str (field route "namespace")) r = Some k ∧ k ∈ known.
Proof.
  unfold attached. rewrite existsb_exists. split.
  - intros (r & Hr%list_elem_of_In & H). destruct (ref_key _ r) as [k|] eqn:E; [|done]. apply bool_decide_eq_true in H. eauto.
  - intros (r & k & Hr & E & Hk). exists r. split; [by apply list_elem_of_In|]. rewrite E. by apply bool_decide_eq_true.
Qed.
Lemma gateway_order_comparator lc : Comparator lc → Comparator (gateway_order lc).
Proof.
  intros H. unfold gateway_order. apply cmp_or_comparator; [apply cmp_or_comparator|].
  - apply (cmp_on_comparator gatewayRank), _.
  - by apply (cmp_on_comparator gw_name).
  - by apply (cmp_on_comparator gw_namespace).
Qed.

Lemma orphan_same known known' item : (∀ k, k ∈ known ↔ k ∈ known') → orphan known item = orphan known' item.
Proof.
  intros H. unfold orphan. destruct (obj item) as [route|]; [|done]. f_equal. unfold attached.
  induction (listOr (field route "parentRefs")) as [|r l IH]; [done|]. cbn. rewrite IH. f_equal.
  destruct (ref_key _ r) as [k|]; [|done]. by apply bool_decide_ext.
Qed.
(** The gateway card accounts for what it read: every gateway is a row of the ranking or
    counted as unreadable, those not known to be ready are counted and come first, and a
    route is unattached exactly when no reference of it names a gateway that was read, in
    the reference's namespace or the route's own. *)
Theorem gateways_account lc gws routes limit : Comparator lc →
  let v := gatewayRoutesView lc (JArr gws) (JArr routes) limit in
  let rows := omap gateway_row gws in
  gatewayCount v = (length rows + gv_unreadable v)%nat ∧ routeCount v = length routes ∧
  notReady v = length (filter (λ r, gw_ready r ≠ Some true) rows) ∧
  ranked (gateway_order lc) (Z.max 0 limit) rows (gv_rows v) ∧
  unattached v = length (filter (λ i, orphan (row_key <$> rows) i = true) routes) ∧
  ∀ route, orphan (row_key <$> rows) (JObj route) = true ↔
    ∀ r g, r ∈ listOr (field route "parentRefs") → g ∈ rows → ref_key (str (field route "namespace")) r ≠ Some (row_key g).
Proof.
  intros Hlc v rows. unfold v, gatewayRoutesView. cbn [list_].
  pose proof (gateway_loop_spec gws) as Hs. destruct (foldl gateway_step _ gws) as [[all known] un].
  cbn [fst snd] in Hs. destruct Hs as (-> & Hk & Hun). fold rows in Hk, Hun |- *.
  cbn [gatewayCount routeCount notReady gv_rows unattached gv_unreadable]. split_and!; [lia|done| | | |].
  - rewrite (Permutation_length (filter_Permutation _ _ _ (js_sort_perm (gateway_order lc) rows))). f_equal.
    apply list_filter_iff. intros r. unfold is_ready. destruct (gw_ready r) as [[]|]; split; done.
  - apply slice_ranked; [by apply gateway_order_comparator|done|lia].
  - rewrite unattached_count. f_equal. apply list_filter_iff. intros i. by rewrite (orphan_same known (row_key <$> rows)).
  - intros route. unfold orphan. cbn [obj]. rewrite negb_true_iff, <- not_true_iff_false, attached_spec. split.
    + intros H r g Hr Hg E. apply H. exists r, (row_key g). split_and!; [done|done|]. by apply list_elem_of_fmap_2.
    + intros H (r & k & Hr & E & (g & -> & Hg)%list_elem_of_fmap). by apply (H r g).
Qed.
(** A gateway the controller accepted and says nothing of having programmed reads as ready. *)
Example accepted_reads_ready :
  gatewayReady (JArr [JObj [("type", JStr "Accepted"); ("status", JStr "True")];
                      JObj [("type", JStr "Programmed"); ("status", JStr "Unknown")]])%js = Some true.
Proof. vm_compute. reflexivity. Qed.

(** ** Consumers *)

Definition by_value (lc : jstring → jstring → comparison) (a b : ConsumerRow) : comparison :=
  num_rank (cr_value b) (cr_value a) <||> lc (cr_namespace a) (cr_namespace b) <||> lc (cr_pod a) (cr_pod b).
Lemma by_value_comparator lc : Comparator lc → Comparator (by_value lc).
Proof.
  intros H. unfold by_value. apply cmp_or_comparator; [apply cmp_or_comparator|].
  - apply (cmp_flip_comparator (λ a b, num_rank (cr_value a) (cr_value b))), (cmp_on_comparator cr_value), _.
  - by apply (cmp_on_comparator cr_namespace).
  - by apply (cmp_on_comparator cr_pod).
Qed.
Lemma consumer_loop samples : foldl consumer_step ([], 0%nat) samples = (omap consumer_of samples,
  (length samples - length (omap consumer_of samples))%nat) ∧ (length (omap consumer_of samples) <= length samples)%nat.
Proof.
  induction samples as [|s l [IH1 IH2]] using rev_ind; [done|]. rewrite foldl_app, IH1, omap_app, !length_app. cbn [foldl omap list_omap].
  unfold consumer_step. cbn [fst snd]. destruct (consumer_of s); rewrite ?app_nil_r; cbn [length fst snd]; split;
    try (f_equal; lia); lia.
Qed.
Lemma sampleValue_double v n : js_doubles v = true → sampleValue v = Some n → ∃ q, n = Fin q ∧ double_grid q = true.
Proof.
  intros Hd. destruct v as [| | | | |l|]; try done. destruct l as [|x [|y l]]; try done. cbn [sampleValue].
  destruct y as [| | |m|s| |]; try done.
  - cbn in Hd. destruct (isFinite m) eqn:E; [|done]. intros [= <-]. destruct m as [| |q]; try done. exists q. split; [done|].
    by apply andb_true_iff in Hd as [_ [? _]%andb_true_iff].
  - destruct (js_eqb _ _); [done|]. destruct (isFinite (js_Number s)) eqn:E; [|done]. intros [= <-].
    pose proof (js_Number_double s) as Hn. destruct (js_Number s) as [| |q]; try done. by exists q.
Qed.
Lemma consumer_value s r : js_doubles s = true → consumer_of s = Some r → ∃ q, cr_value r = Fin q ∧ double_grid q = true.
Proof.
  intros Hd. unfold consumer_of. destruct (obj s) as [o|] eqn:Eo; [|done]. cbn [mbind option_bind].
  destruct (js_eqb _ _); [done|]. destruct (sampleValue (field o "value")) as [n|] eqn:E; [|done]. intros [= <-].
  eapply sampleValue_double; [|exact E]. apply js_doubles_field. destruct s; try done. by injection Eo as ->.
Qed.
(** The consumer card puts the heaviest pods first: of the samples it could read, no pod
    left out of the card uses more than one that is on it, the order is by value, and the
    samples it could not use are counted; a body it cannot read is said to be unreadable,
    not empty. *)
Theorem consumers_ranked lc payload limit : Comparator lc → js_doubles payload = true → 0 <= limit →
  let v := rankConsumers lc payload limit in
  (tc_readable v = true ↔ ∃ body samples, obj payload = Some body ∧ str (field body "resultType") = "vector"%js ∧
     field body "result" = JArr samples) ∧
  (∀ body samples, obj payload = Some body → tc_readable v = true → field body "result" = JArr samples →
     ranked (by_value lc) limit (omap consumer_of samples) (tc_rows v) ∧
     (tc_dropped v + length (omap consumer_of samples))%nat = length samples).
Proof.
  intros Hlc Hd Hlim v. unfold v, rankConsumers. destruct (obj payload) as [body|] eqn:Eo;
    [|split; [split; [done|]; by intros (? & ? & ? & _)|done]].
  destruct (js_eqb (str (field body "resultType")) "vector"%js) eqn:Et; cbn [negb];
    [|split; [split; [done|]; intros (? & ? & [= <-] & E & _); rewrite E in Et; done|done]].
  apply js_eqb_eq in Et. assert (Hb : js_doubles (JObj body) = true) by (destruct payload; try done; by injection Eo as <-).
  pose proof (js_doubles_field body "result" Hb) as Hr. destruct (field body "result") as [| | | | |samples|] eqn:Er; cbn [list_];
    try (split; [split; [done|]; intros (? & ? & [= <-] & _ & E); congruence|done]).
  destruct (consumer_loop samples) as [-> Hle]. cbn [tc_readable tc_rows tc_dropped]. split; [split; [eauto|done]|].
  intros ? ? [= <-] _ [= <-]%(eq_trans (eq_sym Er)). split; [|lia].
  apply slice_ranked; [by apply by_value_comparator| |done]. intros a b Ha Hb'. unfold consumer_order, by_value. f_equal. f_equal.
  apply list_elem_of_omap in Ha as (x & Hx & Ha), Hb' as (y & Hy & Hb'').
  destruct (consumer_value x a) as (qa & Ea & Ga); [by eapply js_doubles_elem|done|].
  destruct (consumer_value y b) as (qb & Eb & Gb); [by eapply js_doubles_elem|done|].
  rewrite Ea, Eb. by rewrite by_difference_exact.
Qed.

(** ** Diagnostics *)

Definition occurrences (r : jstring) (l : list jstring) : nat := length (filter (λ x, x = r) l).
Lemma occurrences_none r l : r ∉ l → occurrences r l = 0%nat.
Proof.
  unfold occurrences. induction l as [|x l IH]; intros H; [done|]. apply not_elem_of_cons in H as [Hne H].
  rewrite filter_cons, decide_False by congruence. by apply IH.
Qed.
Lemma diagnostics_loop l : let st := foldl diagnostics_step ([], 0%nat, 0%nat) l in let reasons := default ""%js <$> l in
  NoDup st.1.1.*1 ∧ (∀ r n, assoc r st.1.1 = Some n → n = occurrences r reasons ∧ (0 < n)%nat) ∧
  (∀ r, r ∈ reasons → is_Some (assoc r st.1.1)) ∧
  st.1.2 = length (filter (λ r, severityOf r = dg_critical) reasons) ∧ st.2 = length (filter (λ r, severityOf r = dg_warning) reasons).
Proof.
  induction l as [|x l IH] using rev_ind.
  { split_and!; try done; [constructor|]. by intros ? ?%elem_of_nil. }
  rewrite foldl_app, fmap_app. cbn [foldl fmap list_fmap]. destruct (foldl _ _ l) as [[counts cr] wa]. cbv zeta in *.
  destruct IH as (H1 & H2 & H3 & H4 & H5). cbn [fst snd] in *. set (r0 := default ""%js x).
  set (counts' := assoc_set r0 (S (default 0%nat (assoc r0 counts))) counts).
  assert (Hocc : ∀ r, occurrences r ((default ""%js <$> l) ++ [r0]) =
    (occurrences r (default ""%js <$> l) + if decide (r0 = r) then 1 else 0)%nat).
  { intros r. unfold occurrences. rewrite filter_app, length_app, filter_cons. by case_decide. }
  assert (Hnone : ∀ r, assoc r counts = None → occurrences r (default ""%js <$> l) = 0%nat).
  { intros r Hr. apply occurrences_none. intros Hin. destruct (H3 r Hin). congruence. }
  assert (A : NoDup counts'.*1) by (by apply assoc_set_keys_NoDup).
  assert (B : ∀ r n, assoc r counts' = Some n → n = occurrences r ((default ""%js <$> l) ++ [r0]) ∧ (0 < n)%nat).
  { intros r n. unfold counts'. rewrite Hocc. destruct (decide (r0 = r)) as [->|Hne].
    - rewrite assoc_set_eq. intros [= <-]. destruct (assoc r counts) as [k|] eqn:E; cbn [default].
      + destruct (H2 r k E) as [-> _]. cbn. lia.
      + rewrite (Hnone r E). cbn. lia.
    - rewrite assoc_set_ne by done. rewrite Nat.add_0_r. apply H2. }
  assert (C : ∀ r, r ∈ (default ""%js <$> l) ++ [r0] → is_Some (assoc r counts')).
  { intros r Hr. unfold counts'. destruct (decide (r0 = r)) as [->|Hne]; [rewrite assoc_set_eq; eauto|].
    rewrite assoc_set_ne by done. apply elem_of_app in Hr as [Hr|Hr%list_elem_of_singleton]; [by apply H3|done]. }
  rewrite !filter_app, !length_app, !filter_cons, <- H4, <- H5. unfold diagnostics_step. fold r0. fold counts'.
  destruct (severityOf r0) eqn:E; cbn [fst snd]; repeat case_decide; try done; cbn [length filter list_filter];
    (split_and!; [exact A|exact B|exact C|lia|lia]).
Qed.

(** The diagnostics card counts every failure once: the failing pods are the critical and
    the warning ones, only "Pending" being a warning, each reason is listed once with the
    number of pods that failed for it, and the reasons are in order of that number. *)
Theorem diagnostics_account lc d : Comparator lc →
  let v := rollUpDiagnostics lc (Some d) in
  let reasons := default ""%js <$> default [] (ds_failing d) in
  dr_failing v = length reasons ∧ (dr_critical v + dr_warning v)%nat = dr_failing v ∧
  dr_warning v = occurrences "Pending"%js reasons ∧
  NoDup (rc_reason <$> dr_reasons v) ∧ StronglySorted (cmp_le (reason_order lc)) (dr_reasons v) ∧
  (∀ c, c ∈ dr_reasons v → rc_count c = occurrences (rc_reason c) reasons ∧ (0 < rc_count c)%nat) ∧
  ∀ r, r ∈ reasons → r ∈ rc_reason <$> dr_reasons v.
Proof.
  intros Hlc v reasons. unfold v, rollUpDiagnostics. pose proof (diagnostics_loop (default [] (ds_failing d))) as Hs.
  fold reasons in Hs. destruct (foldl diagnostics_step _ _) as [[counts cr] wa]. cbv zeta in Hs. cbn [fst snd] in Hs.
  destruct Hs as (H1 & H2 & H3 & -> & ->). cbn [dr_failing dr_critical dr_warning dr_reasons].
  set (f := λ e : jstring * nat, {| rc_reason := e.1; rc_count := e.2; rc_severity := severityOf e.1 |}).
  assert (Hf : rc_reason <$> (f <$> counts) = counts.*1) by (by rewrite <- list_fmap_compose).
  assert (Hp : rc_reason <$> js_sort (reason_order lc) (f <$> counts) ≡ₚ counts.*1) by (rewrite <- Hf; by rewrite js_sort_perm).
  split_and!.
  - unfold reasons. by rewrite length_fmap.
  - unfold reasons. generalize (default [] (ds_failing d)). clear. intros l. rewrite <- (length_fmap (default ""%js) l).
    induction (default ""%js <$> l) as [|r k IH]; [done|]. rewrite !filter_cons. cbn [length].
    destruct (severityOf r); repeat case_decide; try done; cbn [length]; lia.
  - unfold occurrences. f_equal. apply list_filter_iff. intros r. unfold severityOf, WARNING_REASONS.
    case_bool_decide as E; rewrite list_elem_of_singleton in E; split; try done; intros; by destruct E.
  - by rewrite Hp.
  - apply js_sort_sorted. unfold reason_order. apply cmp_or_comparator; [|by apply (cmp_on_comparator rc_reason)].
    apply (cmp_flip_comparator (λ a b, Nat.compare (rc_count a) (rc_count b))), (cmp_on_comparator rc_count), _.
  - intros c [e [-> He]]%elem_of_js_sort%list_elem_of_fmap. cbn [rc_count rc_reason f]. destruct e as [r n].
    by apply (H2 r n), assoc_NoDup.
  - intros r [n Hn]%H3. rewrite Hp. apply list_elem_of_fmap. exists (r, n). split; [done|]. by apply assoc_elem_of.
Qed.
(** A body whose list of failures is not a list reads as a namespace of ten healthy pods. *)
Example unreadable_failures_read_healthy :
  let v := rollUpDiagnostics js_compare (Some {| ds_total := JNum (of_Z 10); ds_failing := None |}) in
  dr_healthy v = of_Z 10 ∧ dr_failing v = 0%nat ∧ dr_empty v = false.
Proof. vm_compute. done. Qed.

(** ** Witnesses *)

Definition demo_parse (s : jstring) : number := NaN.
#[local] Instance demo_parse_date : DateParse demo_parse.
Proof. split. intros s. by left. Qed.
Definition demo_flow (verdict source : jstring) : jsval :=
  JObj [("verdict", JStr verdict); ("srcPod", JStr source); ("dstIP", JStr "10.0.0.1")]%js.
Definition demo_flows : list jsval := [demo_flow "DROPPED" "a"; demo_flow "FORWARDED" "b"; demo_flow "DROPPED" ""; JNull]%js.
Lemma flows_account_witness : let v := hubbleFlowsView ascii_lower demo_parse (JArr demo_flows) 5 in
  hf_blocked v = 2%nat ∧ hf_unreadable v = 2%nat ∧ sum_list_with (hf_counts v) FLOW_VERDICTS = 4%nat.
Proof.
  split_and!; [vm_compute; reflexivity|vm_compute; reflexivity|].
  apply (flows_account ascii_lower demo_parse demo_flows 5). vm_compute. reflexivity.
Defined.
Definition demo_gateway (name : jstring) (status : jstring) : jsval :=
  JObj [("name", JStr name); ("namespace", JStr "infra");
        ("conditions", JArr [JObj [("type", JStr "Programmed"); ("status", JStr status)]])]%js.
Definition demo_route (parent : jstring) : jsval :=
  JObj [("namespace", JStr "shop"); ("parentRefs", JArr [JObj [("name", JStr parent); ("namespace", JStr "infra")]])]%js.
Lemma gateways_account_witness :
  let v := gatewayRoutesView js_compare (JArr [demo_gateway "up" "True"; demo_gateway "down" "False"; JNull]%js)
    (JArr [demo_route "up"; demo_route "gone"]%js) 5 in
  gatewayCount v = 3%nat ∧ notReady v = 1%nat ∧ unattached v = 1%nat.
Proof.
  destruct (gateways_account js_compare [demo_gateway "up" "True"; demo_gateway "down" "False"; JNull]%js
    [demo_route "up"; demo_route "gone"]%js 5 _) as (E & _ & N & _ & U & _).
  split_and!; [rewrite E|rewrite N|rewrite U]; vm_compute; reflexivity.
Defined.
Definition demo_sample (pod value : jstring) : jsval :=
  JObj [("metric", JObj [("pod", JStr pod)]); ("value", JArr [JNum (of_Z 0); JStr value])]%js.
Definition demo_vector : jsval :=
  JObj [("resultType", JStr "vector"); ("result", JArr [demo_sample "small" "1"; demo_sample "big" "12"; demo_sample "nan" "NaN"])]%js.
Lemma consumers_ranked_witness : let v := rankConsumers js_compare demo_vector 1 in
  tc_readable v = true ∧ cr_pod <$> tc_rows v = ["big"]%js ∧ tc_dropped v = 1%nat.
Proof.
  destruct (consumers_ranked js_compare demo_vector 1 _ ltac:(vm_compute; reflexivity) ltac:(lia)) as [R _].
  split_and!; [|vm_compute; reflexivity|vm_compute; reflexivity].
  apply R. eexists. eexists. split_and!; vm_compute; reflexivity.
Defined.
Lemma diagnostics_account_witness : let v := rollUpDiagnostics js_compare
    (Some {| ds_total := JNum (of_Z 3); ds_failing := Some [Some "Pending"; None; Some "OOMKilled"]%js |}) in
  (dr_critical v + dr_warning v)%nat = 3%nat ∧ dr_warning v = 1%nat.
Proof.
  destruct (diagnostics_account js_compare {| ds_total := JNum (of_Z 3); ds_failing := Some [Some "Pending"; None; Some "OOMKilled"]%js |} _)
    as (_ & E & _). split; [exact E|vm_compute; reflexivity].
Defined.
