(* ===== verification/PlatformCards.v ===== *)
(** * The platform cards: platform.ts, with k8s-links.ts

    The registered clusters, the unread notifications, the audit log, the saved
    views and the pins of the account. Each view is one pass over a list that
    may hold anything. A link is looked up in an object literal, so a kind named
    like a member of [Object.prototype] finds what is inherited; building one
    throws on a lone surrogate, and the view of the pins with it. *)

From stdpp Require Import base list strings sorting.
From Stdlib Require Import ZArith NArith Lia Permutation.
From S2P Require Import Prelude JsValue Narrow Uri SyncState.

Open Scope Z_scope.

(** ** Definitions *)

(** [a || b] of two texts. *)
Definition or_else (a b : jstring) : jstring := if js_eqb a ""%js then b else a.

(** *** Registered clusters *)

Inductive ClusterStatus := cs_error | cs_blocked | cs_disconnected | cs_unknown | cs_connected.
#[export] Instance ClusterStatus_eq : EqDecision ClusterStatus.
Proof. solve_decision. Defined.
Definition CLUSTER_STATES : list ClusterStatus := [cs_error; cs_blocked; cs_disconnected; cs_unknown; cs_connected].
Definition cluster_state_name (s : ClusterStatus) : jstring :=
  match s with
  | cs_error => "error" | cs_blocked => "blocked" | cs_disconnected => "disconnected" | cs_unknown => "unknown"
  | cs_connected => "connected"
  end%js.
Definition clusterState (value : jsval) : ClusterStatus :=
  default cs_unknown (List.find (λ s, js_eqb (cluster_state_name s) (str value)) CLUSTER_STATES).
Record ClusterRow := {
  cl_id : jstring;
  cl_name : jstring;
  cl_state : ClusterStatus;
  statusMessage : jstring;
  isLocal : bool;
  nodeCount : option number;
  cl_version : jstring
}.
Record ClusterStatusView := {
  cv_readable : bool;
  cv_total : nat;
  cv_counts : ClusterStatus → nat;
  cv_worst : option ClusterStatus;
  cv_rows : list ClusterRow;
  cv_unreadable : nat
}.
Definition emptyClusterView (readable : bool) : ClusterStatusView :=
  {| cv_readable := readable; cv_total := 0; cv_counts := λ _, 0%nat; cv_worst := None; cv_rows := []; cv_unreadable := 0 |}.
Definition cluster_row (item : jsval) : option ClusterRow :=
  rec ← obj item;
  let id := str (field rec "id") in
  let name := or_else (or_else (str (field rec "name")) (str (field rec "displayName"))) id in
  if js_eqb name ""%js then None
  else Some {| cl_id := or_else id name; cl_name := name; cl_state := clusterState (field rec "status");
               statusMessage := str (field rec "statusMessage"); isLocal := is_true_val (field rec "isLocal");
               nodeCount := num (field rec "nodeCount"); cl_version := str (field rec "k8sVersion") |}.
(** The loop's part of the view, with the rows before they are sorted. *)
Definition cluster_step (v : ClusterStatusView) (item : jsval) : ClusterStatusView :=
  match cluster_row item with
  | None => {| cv_readable := cv_readable v; cv_total := cv_total v; cv_counts := cv_counts v; cv_worst := cv_worst v;
               cv_rows := cv_rows v; cv_unreadable := S (cv_unreadable v) |}
  | Some r => {| cv_readable := cv_readable v; cv_total := S (cv_total v); cv_counts := bump (cl_state r) (cv_counts v);
                 cv_worst := cv_worst v; cv_rows := cv_rows v ++ [r]; cv_unreadable := cv_unreadable v |}
  end.
Definition state_rank (s : ClusterStatus) : nat := index_of s CLUSTER_STATES.
Definition worst_first (a b : ClusterRow) : comparison := (state_rank (cl_state a) ?= state_rank (cl_state b))%nat.
Definition clusterStatusView (data : jsval) (limit : Z) : ClusterStatusView :=
  match list_ data with
  | None => emptyClusterView false
  | Some items =>
      let v := foldl cluster_step (emptyClusterView true) items in
      let rows := js_sort worst_first (cv_rows v) in
      {| cv_readable := true; cv_total := cv_total v; cv_counts := cv_counts v; cv_worst := cl_state <$> head rows;
         cv_rows := slice0 rows (Z.max 0 limit); cv_unreadable := cv_unreadable v |}
  end.

(** *** Notifications *)

Inductive NotifSeverity := ns_critical | ns_warning | ns_info | ns_other.
#[export] Instance NotifSeverity_eq : EqDecision NotifSeverity.
Proof. solve_decision. Defined.
Definition notif_severity (s : jstring) : NotifSeverity :=
  if js_eqb s "critical"%js then ns_critical else if js_eqb s "warning"%js then ns_warning
  else if js_eqb s "info"%js then ns_info else ns_other.
Definition notif_rank (s : jstring) : nat :=
  match notif_severity s with ns_critical => 0 | ns_warning => 1 | ns_info => 2 | ns_other => 3 end.
Record NotificationRow := {
  nr_id : jstring;
  nr_severity : jstring;
  nr_source : jstring;
  nr_title : jstring;
  nr_message : jstring;
  createdAt : jstring
}.
Record NotificationsFeedView := {
  nf_readable : bool;
  unread : number;
  nf_truncated : bool;
  nf_counts : NotifSeverity → nat;
  nf_rows : list NotificationRow;
  nf_unreadable : nat
}.
Definition emptyFeedView (readable : bool) : NotificationsFeedView :=
  {| nf_readable := readable; unread := of_Z 0; nf_truncated := false; nf_counts := λ _, 0%nat; nf_rows := [];
     nf_unreadable := 0 |}.
Definition notification_row (item : jsval) : option NotificationRow :=
  rec ← obj item;
  let title := str (field rec "title") in
  if js_eqb title ""%js then None
  else Some {| nr_id := str (field rec "id"); nr_severity := str (field rec "severity"); nr_source := str (field rec "source");
               nr_title := title; nr_message := str (field rec "message"); createdAt := str (field rec "createdAt") |}.
Definition feed_step (v : NotificationsFeedView) (item : jsval) : NotificationsFeedView :=
  match notification_row item with
  | None => {| nf_readable := nf_readable v; unread := unread v; nf_truncated := nf_truncated v; nf_counts := nf_counts v;
               nf_rows := nf_rows v; nf_unreadable := S (nf_unreadable v) |}
  | Some r => {| nf_readable := nf_readable v; unread := unread v; nf_truncated := nf_truncated v;
                 nf_counts := bump (notif_severity (nr_severity r)) (nf_counts v); nf_rows := nf_rows v ++ [r];
                 nf_unreadable := nf_unreadable v |}
  end.
Definition loudest_first (a b : NotificationRow) : comparison := (notif_rank (nr_severity a) ?= notif_rank (nr_severity b))%nat.
Definition notificationsFeedView (data : jsval) (limit : Z) : NotificationsFeedView :=
  let envelope := obj data in
  match list_ (field_opt envelope "items") with
  | None => emptyFeedView false
  | Some items =>
      let v := foldl feed_step (emptyFeedView true) items in
      let cov := coverage (Some {| items := JArr items; page_total := JNum (default NaN (num (field_opt envelope "total"))) |})
        (of_Z (Z.of_nat (length items) - Z.of_nat (nf_unreadable v))) in
      let rows := slice0 (js_sort loudest_first (nf_rows v)) (Z.max 0 limit) in
      {| nf_readable := true; unread := total cov; nf_truncated := num_ltb (of_Z (Z.of_nat (length rows))) (total cov);
         nf_counts := nf_counts v; nf_rows := rows; nf_unreadable := nf_unreadable v |}
  end.

(** *** Audit *)

Inductive AuditResult := ar_success | ar_failure | ar_denied | ar_other.
#[export] Instance AuditResult_eq : EqDecision AuditResult.
Proof. solve_decision. Defined.
Definition audit_result (s : jstring) : AuditResult :=
  if js_eqb s "success"%js then ar_success else if js_eqb s "failure"%js then ar_failure
  else if js_eqb s "denied"%js then ar_denied else ar_other.
Record AuditRow := {
  au_timestamp : jstring;
  au_user : jstring;
  au_action : jstring;
  au_result : jstring;
  au_target : jstring;
  au_detail : jstring
}.
Record AuditActivityView := {
  av_readable : bool;
  av_total : nat;
  av_counts : AuditResult → nat;
  av_rows : list AuditRow;
  av_unreadable : nat
}.
Definition emptyAuditView (readable : bool) : AuditActivityView :=
  {| av_readable := readable; av_total := 0; av_counts := λ _, 0%nat; av_rows := []; av_unreadable := 0 |}.
(** [parts.join("/")] *)
Definition join_path (parts : list jstring) : jstring :=
  match parts with [] => ""%js | p :: ps => foldl (λ acc s, (acc +++ "/" +++ s)%js) p ps end.
Definition audit_row (item : jsval) : option AuditRow :=
  rec ← obj item;
  let action := str (field rec "action") in
  if js_eqb action ""%js then None
  else Some {| au_timestamp := str (field rec "timestamp"); au_user := str (field rec "user"); au_action := action;
               au_result := str (field rec "result");
               au_target := join_path (filter (λ s, s ≠ ""%js)
                 [str (field rec "resourceKind"); str (field rec "resourceNamespace"); str (field rec "resourceName")]);
               au_detail := str (field rec "detail") |}.
(** [if (rows.length < Math.max(0, limit)) rows.push(row)] *)
Definition push_capped {A} (limit : Z) (rows : list A) (r : A) : list A :=
  if Z.of_nat (length rows) <? Z.max 0 limit then rows ++ [r] else rows.
Definition audit_step (limit : Z) (v : AuditActivityView) (item : jsval) : AuditActivityView :=
  match audit_row item with
  | None => {| av_readable := av_readable v; av_total := av_total v; av_counts := av_counts v; av_rows := av_rows v;
               av_unreadable := S (av_unreadable v) |}
  | Some r => {| av_readable := av_readable v; av_total := S (av_total v); av_counts := bump (audit_result (au_result r)) (av_counts v);
                 av_rows := push_capped limit (av_rows v) r; av_unreadable := av_unreadable v |}
  end.
Definition auditActivityView (data : jsval) (limit : Z) : AuditActivityView :=
  match list_ data with
  | None => emptyAuditView false
  | Some items => foldl (audit_step limit) (emptyAuditView true) items
  end.

(** *** Links: k8s-links.ts *)

Definition RESOURCE_DETAIL_PATHS : list (jstring * jstring) :=
  [("pods", "/workloads/pods"); ("deployments", "/workloads/deployments"); ("replicasets", "/workloads/replicasets");
   ("statefulsets", "/workloads/statefulsets"); ("daemonsets", "/workloads/daemonsets"); ("jobs", "/workloads/jobs");
   ("cronjobs", "/workloads/cronjobs"); ("services", "/networking/services"); ("ingresses", "/networking/ingresses");
   ("endpoints", "/networking/endpoints"); ("networkpolicies", "/networking/networkpolicies");
   ("persistentvolumes", "/cluster/pvs"); ("pvs", "/cluster/pvs"); ("persistentvolumeclaims", "/storage/pvcs");
   ("pvcs", "/storage/pvcs"); ("storageclasses", "/cluster/storageclasses"); ("configmaps", "/config/configmaps");
   ("secrets", "/config/secrets"); ("serviceaccounts", "/config/serviceaccounts");
   ("resourcequotas", "/config/resourcequotas"); ("limitranges", "/config/limitranges");
   ("horizontalpodautoscalers", "/scaling/hpas"); ("hpas", "/scaling/hpas"); ("poddisruptionbudgets", "/scaling/pdbs");
   ("pdbs", "/scaling/pdbs"); ("endpointslices", "/networking/endpointslices"); ("roles", "/rbac/roles");
   ("clusterroles", "/rbac/clusterroles"); ("rolebindings", "/rbac/rolebindings");
   ("clusterrolebindings", "/rbac/clusterrolebindings"); ("validatingwebhookconfigurations", "/admin/validatingwebhooks");
   ("mutatingwebhookconfigurations", "/admin/mutatingwebhooks"); ("ciliumnetworkpolicies", "/networking/cilium-policies");
   ("nodes", "/cluster/nodes"); ("namespaces", "/cluster/namespaces");
   ("externalsecrets", "/external-secrets/external-secrets")]%js.
Definition KIND_PLURALS : list (jstring * jstring) :=
  [("ingress", "ingresses"); ("endpointslice", "endpointslices"); ("networkpolicy", "networkpolicies")]%js.
(** A link, none, or what becomes of the member the table inherits under that key. *)
Inductive Href := NoHref | Link (s : jstring) | InheritedHref.
Section Links.
Context (toLowerCase : jstring → jstring).
Definition kindListHref (kind : jstring) : Href :=
  match table_get RESOURCE_DETAIL_PATHS (toLowerCase kind) with Own p => Link p | Inherited => InheritedHref | Missing => NoHref end.
(** The segments after the base path. *)
Definition segments (namespace name : jstring) : list jstring := if js_eqb namespace ""%js then [name] else [namespace; name].
Definition resourceHref (kind namespace name : jstring) : option Href :=
  let lower := toLowerCase kind in
  let plural := match table_get RESOURCE_DETAIL_PATHS lower with
    | Missing => match table_get KIND_PLURALS lower with Own p => p | _ => (lower +++ "s")%js end
    | _ => lower end in
  match table_get RESOURCE_DETAIL_PATHS plural with
  | Missing => Some NoHref
  | Inherited => if js_eqb name ""%js then Some NoHref else (λ _, InheritedHref) <$> path_of "" (segments namespace name)
  | Own basePath => if js_eqb name ""%js then Some NoHref else Link <$> path_of basePath (segments namespace name)
  end.

(** *** Saved views and pins *)

Record SavedViewRow := { sv_id : jstring; sv_name : jstring; sv_kind : jstring; sv_namespace : jstring; sv_href : Href }.
Record SavedViewsView := { vv_readable : bool; vv_total : nat; vv_rows : list SavedViewRow; vv_unreadable : nat }.
Definition saved_row (item : jsval) : option SavedViewRow :=
  rec ← obj item;
  let name := str (field rec "name") in
  if js_eqb name ""%js then None
  else
    let config := obj (field rec "config") in
    let kind := str (field_opt config "resourceKind") in
    Some {| sv_id := str (field rec "id"); sv_name := name; sv_kind := kind; sv_namespace := str (field_opt config "namespace");
            sv_href := if js_eqb kind ""%js then NoHref else kindListHref kind |}.
Definition saved_step (limit : Z) (v : SavedViewsView) (item : jsval) : SavedViewsView :=
  match saved_row item with
  | None => {| vv_readable := vv_readable v; vv_total := vv_total v; vv_rows := vv_rows v; vv_unreadable := S (vv_unreadable v) |}
  | Some r => {| vv_readable := vv_readable v; vv_total := S (vv_total v); vv_rows := push_capped limit (vv_rows v) r;
                 vv_unreadable := vv_unreadable v |}
  end.
Definition savedViewsView (data : jsval) (limit : Z) : SavedViewsView :=
  match list_ data with
  | None => {| vv_readable := false; vv_total := 0; vv_rows := []; vv_unreadable := 0 |}
  | Some items => foldl (saved_step limit) {| vv_readable := true; vv_total := 0; vv_rows := []; vv_unreadable := 0 |} items
  end.
Record PinnedRow := { pn_id : jstring; pn_name : jstring; pn_kind : jstring; pn_namespace : jstring; pn_href : Href }.
Record PinnedResourcesView := {
  pv_readable : bool;
  pv_total : nat;
  otherClusters : nat;
  pv_rows : list PinnedRow;
  pv_unreadable : nat
}.
(** What an item is: no pin, one of another cluster, or one of this. *)
Inductive PinClass := NoPin | OtherPin | ThisPin (rec : list (jstring * jsval)) (name : jstring).
Definition pin_class (clusterId : jstring) (item : jsval) : PinClass :=
  match obj item with
  | None => NoPin
  | Some rec =>
      let name := or_else (str (field_opt (obj (field rec "config")) "name")) (str (field rec "name")) in
      if js_eqb name ""%js then NoPin
      else if js_eqb (str (field rec "clusterId")) clusterId then ThisPin rec name else OtherPin
  end.
Definition pin_row (rec : list (jstring * jsval)) (name : jstring) : option PinnedRow :=
  let config := obj (field rec "config") in
  let kind := str (field_opt config "resourceKind") in
  let namespace := str (field_opt config "namespace") in
  h ← (if js_eqb kind ""%js then Some NoHref else resourceHref kind namespace name);
  Some {| pn_id := str (field rec "id"); pn_name := name; pn_kind := or_else (str (field_opt config "displayKind")) kind;
          pn_namespace := namespace; pn_href := h |}.
Definition pin_step (clusterId : jstring) (limit : Z) (st : option PinnedResourcesView) (item : jsval) : option PinnedResourcesView :=
  v ← st;
  match pin_class clusterId item with
  | NoPin => Some {| pv_readable := pv_readable v; pv_total := pv_total v; otherClusters := otherClusters v; pv_rows := pv_rows v;
                     pv_unreadable := S (pv_unreadable v) |}
  | OtherPin => Some {| pv_readable := pv_readable v; pv_total := pv_total v; otherClusters := S (otherClusters v);
                        pv_rows := pv_rows v; pv_unreadable := pv_unreadable v |}
  | ThisPin rec name =>
      rows ← (if Z.of_nat (length (pv_rows v)) <? Z.max 0 limit then r ← pin_row rec name; Some (pv_rows v ++ [r]) else Some (pv_rows v));
      Some {| pv_readable := pv_readable v; pv_total := S (pv_total v); otherClusters := otherClusters v; pv_rows := rows;
              pv_unreadable := pv_unreadable v |}
  end.
Definition pinnedResourcesView (data : jsval) (clusterId : jstring) (limit : Z) : option PinnedResourcesView :=
  match list_ data with
  | None => Some {| pv_readable := false; pv_total := 0; otherClusters := 0; pv_rows := []; pv_unreadable := 0 |}
  | Some items =>
      foldl (pin_step clusterId limit)
        (Some {| pv_readable := true; pv_total := 0; otherClusters := 0; pv_rows := []; pv_unreadable := 0 |}) items
  end.
End Links.

(** ** Registered clusters *)

Lemma cluster_loop_spec items : let v := foldl cluster_step (emptyClusterView true) items in
  cv_rows v = omap cluster_row items ∧ cv_total v = length (cv_rows v) ∧ (cv_total v + cv_unreadable v)%nat = length items ∧
  ∀ s, cv_counts v s = count_of cl_state (cv_rows v) s.
Proof.
  induction items as [|i items IH] using rev_ind; [done|]. rewrite foldl_app. cbn [foldl]. set (v := foldl _ _ items) in *. clearbody v.
  destruct IH as (H1 & H2 & H3 & H4). cbv zeta. unfold cluster_step. rewrite omap_app, length_app. cbn [omap list_omap].
  destruct (cluster_row i) as [r|]; cbn [cv_rows cv_total cv_unreadable cv_counts length]; rewrite ?app_nil_r.
  - rewrite H1, length_app. cbn [length]. rewrite <- H1. split_and!; [done|lia|lia|].
    intros s. by rewrite bump_count, H4, count_of_snoc.
  - split_and!; [done|done|lia|done].
Qed.
#[local] Instance worst_first_comparator : Comparator worst_first.
Proof. apply (cmp_on_comparator (λ r, state_rank (cl_state r))), _. Qed.
Lemma all_states s : s ∈ CLUSTER_STATES.
Proof. destruct s; apply (bool_decide_unpack _); exact I. Qed.

Lemma clusterState_connected v : clusterState v = cs_connected → v = JStr "connected"%js.
Proof.
  destruct v as [| | | |t| |]; try (vm_compute; done). unfold clusterState. cbn [str CLUSTER_STATES List.find cluster_state_name].
  destruct (js_eqb "error" t); [done|]. destruct (js_eqb "blocked" t); [done|]. destruct (js_eqb "disconnected" t); [done|].
  destruct (js_eqb "unknown" t); [done|]. destruct (js_eqb "connected" t) eqn:E; [|done]. apply js_eqb_eq in E. by rewrite <- E.
Qed.

(** The fleet card leads with the worst cluster: every entry is counted in one state or as
    unreadable, the rows are the worst ones first, and the headline is a state some cluster
    is in and no cluster is in a worse one. A status this build does not know counts as
    unknown, never as connected. *)
Theorem cluster_status_worst items limit : let v := clusterStatusView (JArr items) limit in let rows := omap cluster_row items in
  (cv_total v + cv_unreadable v)%nat = length items ∧ sum_list_with (cv_counts v) CLUSTER_STATES = cv_total v ∧
  ranked worst_first (Z.max 0 limit) rows (cv_rows v) ∧
  (cv_worst v = None ↔ rows = []) ∧
  (∀ s, cv_worst v = Some s → s ∈ cl_state <$> rows ∧ ∀ r, r ∈ rows → (state_rank s <= state_rank (cl_state r))%nat) ∧
  ∀ r, r ∈ rows → cl_state r = cs_connected → ∃ item rec, item ∈ items ∧ obj item = Some rec ∧ field rec "status" = JStr "connected"%js.
Proof.
  intros v rows. unfold v, clusterStatusView. cbn [list_]. pose proof (cluster_loop_spec items) as Hs. cbv zeta in Hs.
  set (w := foldl cluster_step _ items) in *. clearbody w. destruct Hs as (H1 & H2 & H3 & H4). fold rows in H1. rewrite H1 in *.
  cbn [cv_total cv_unreadable cv_counts cv_rows cv_worst]. split_and!; [done| |apply slice_ranked; [apply _|done|lia]| | |].
  - transitivity (sum_list_with (λ x, length (filter (λ r, cl_state r = x) rows)) CLUSTER_STATES).
    { clear -H4. induction CLUSTER_STATES as [|x l IH]; [done|]. cbn. by rewrite H4, IH. }
    rewrite H2. apply sum_by_label; [apply (bool_decide_unpack _); exact I|]. apply Forall_forall. intros r _. apply all_states.
  - pose proof (js_sort_length worst_first rows) as Hl. destruct (js_sort worst_first rows), rows; cbn in *; done.
  - intros s Hs. pose proof (js_sort_sorted worst_first rows) as Hss. destruct (js_sort worst_first rows) as [|r l] eqn:E; [done|].
    injection Hs as <-. assert (Hr : ∀ x, x ∈ rows ↔ x ∈ r :: l) by (intros x; rewrite <- E; by rewrite elem_of_js_sort).
    split; [apply list_elem_of_fmap_2, Hr; by left|]. intros x Hx%Hr. apply elem_of_cons in Hx as [->|Hx]; [done|].
    apply StronglySorted_inv in Hss as [_ Ha]. pose proof (proj1 (Forall_forall _ _) Ha x Hx) as Hle.
    unfold cmp_le, worst_first in Hle. by apply Nat.compare_le_iff in Hle.
  - intros r (item & Hi & Hr)%list_elem_of_omap Hc. exists item. unfold cluster_row in Hr.
    destruct (obj item) as [rec|] eqn:Eo; [|done]. exists rec. cbn [mbind option_bind] in Hr. destruct (js_eqb _ _); [done|].
    injection Hr as <-. split_and!; [done|done|]. by apply clusterState_connected.
Qed.

(** ** Notifications *)

Lemma feed_loop_spec items : let v := foldl feed_step (emptyFeedView true) items in
  nf_rows v = omap notification_row items ∧ (length (nf_rows v) + nf_unreadable v)%nat = length items ∧
  ∀ s, nf_counts v s = count_of (λ r, notif_severity (nr_severity r)) (nf_rows v) s.
Proof.
  induction items as [|i items IH] using rev_ind; [done|]. rewrite foldl_app. cbn [foldl]. set (v := foldl _ _ items) in *. clearbody v.
  destruct IH as (H1 & H2 & H3). cbv zeta. unfold feed_step. rewrite omap_app, length_app. cbn [omap list_omap].
  destruct (notification_row i) as [r|]; cbn [nf_rows nf_unreadable nf_counts length]; rewrite ?app_nil_r.
  - rewrite length_app. cbn [length]. split_and!; [by rewrite H1|lia|]. intros s. by rewrite bump_count, H3, count_of_snoc.
  - split_and!; [done|lia|done].
Qed.
(** The feed shows the loudest notifications first, keeping the server's order among equals
    of one severity, and its number is the server's own count of what is unread. *)
Theorem feed_loudest_first fields items n limit : field fields "items" = JArr items → field fields "total" = JNum (Fin n) →
  let v := notificationsFeedView (JObj fields) limit in
  unread v = Fin n ∧ (length (omap notification_row items) + nf_unreadable v)%nat = length items ∧
  ranked loudest_first (Z.max 0 limit) (omap notification_row items) (nf_rows v) ∧
  (nf_truncated v = true ↔ num_ltb (of_Z (Z.of_nat (length (nf_rows v)))) (Fin n) = true).
Proof.
  intros Hi Ht v. unfold v, notificationsFeedView. cbn [obj field_opt]. rewrite Hi, Ht. cbn [list_ num isFinite default].
  pose proof (feed_loop_spec items) as Hs. cbv zeta in Hs. set (w := foldl feed_step _ items) in *. clearbody w.
  destruct Hs as (H1 & H2 & _). cbn [unread nf_unreadable nf_rows nf_truncated coverage total page_total isFinite from_option id].
  rewrite H1 in *. split_and!; [done|done| |done].
  apply slice_ranked; [|done|lia]. apply (cmp_on_comparator (λ r, notif_rank (nr_severity r))), _.
Qed.
(** A page that carried every unread notification reads as truncated once the card caps it. *)
Example complete_page_reads_truncated :
  let item := JObj [("title", JStr "t")]%js in
  let v := notificationsFeedView (JObj [("items", JArr [item; item]); ("total", JNum (of_Z 2))]%js) 1 in
  nf_truncated v = true ∧ unread v = of_Z 2 ∧ nf_unreadable v = 0%nat.
Proof. vm_compute. done. Qed.

(** ** Capped lists *)

Lemma push_capped_take {A} limit (l : list A) r :
  push_capped limit (take (Z.to_nat (Z.max 0 limit)) l) r = take (Z.to_nat (Z.max 0 limit)) (l ++ [r]).
Proof.
  unfold push_capped. rewrite length_take. set (n := Z.to_nat (Z.max 0 limit)).
  destruct (Z.ltb_spec (Z.of_nat (n `min` length l)) (Z.max 0 limit)) as [H|H].
  - rewrite (take_ge l) by lia. rewrite take_ge; [done|]. rewrite length_app. cbn. lia.
  - rewrite take_app_le by lia. done.
Qed.
(** The audit card keeps the log's order and counts what it does not show: its rows are
    the first readable entries as they came, and every entry is counted under its result
    or as unreadable. *)
Theorem audit_in_order items limit : let v := auditActivityView (JArr items) limit in let rows := omap audit_row items in
  av_rows v = take (Z.to_nat (Z.max 0 limit)) rows ∧ av_total v = length rows ∧ (av_total v + av_unreadable v)%nat = length items ∧
  ∀ x, av_counts v x = count_of (λ r, audit_result (au_result r)) rows x.
Proof.
  cbv zeta. unfold auditActivityView. cbn [list_]. induction items as [|i items IH] using rev_ind; [by destruct (Z.to_nat _)|].
  rewrite foldl_app. cbn [foldl]. set (v := foldl _ _ items) in *. clearbody v. destruct IH as (H1 & H2 & H3 & H4).
  unfold audit_step. rewrite omap_app, !length_app. cbn [omap list_omap].
  destruct (audit_row i) as [r|]; cbn [av_rows av_total av_unreadable av_counts length]; rewrite ?app_nil_r.
  - rewrite H1, push_capped_take. split_and!; [done|lia|lia|]. intros x. by rewrite bump_count, H4, count_of_snoc.
  - cbn. split_and!; [done|lia|lia|done].
Qed.

(** The saved views that are listed are the first readable ones as they came, whatever
    cluster is selected, and the rest are counted. *)
Theorem saved_views_in_order lower items limit : let v := savedViewsView lower (JArr items) limit in
  let rows := omap (saved_row lower) items in
  vv_rows v = take (Z.to_nat (Z.max 0 limit)) rows ∧ vv_total v = length rows ∧ (vv_total v + vv_unreadable v)%nat = length items.
Proof.
  cbv zeta. unfold savedViewsView. cbn [list_]. induction items as [|i items IH] using rev_ind; [by destruct (Z.to_nat _)|].
  rewrite foldl_app. cbn [foldl]. set (v := foldl _ _ items) in *. clearbody v. destruct IH as (H1 & H2 & H3).
  unfold saved_step. rewrite omap_app, !length_app. cbn [omap list_omap].
  destruct (saved_row lower i) as [r|]; cbn [vv_rows vv_total vv_unreadable length]; rewrite ?app_nil_r.
  - rewrite H1, push_capped_take. split_and!; [done|lia|lia].
  - cbn. split_and!; [done|lia|lia].
Qed.

(** ** Pins *)

Section Pins.
Context (lower : jstring → jstring) (clusterId : jstring) (limit : Z).
Definition mine (item : jsval) : option (list (jstring * jsval) * jstring) :=
  match pin_class clusterId item with ThisPin rec name => Some (rec, name) | _ => None end.
Definition withheld (item : jsval) : bool := match pin_class clusterId item with OtherPin => true | _ => false end.
Definition no_pin (item : jsval) : bool := match pin_class clusterId item with NoPin => true | _ => false end.
Definition pins_shown (items : list jsval) : option (list PinnedRow) :=
  mapM (λ '(rec, name), pin_row lower rec name) (take (Z.to_nat (Z.max 0 limit)) (omap mine items)).
Definition pins_of (rows : list PinnedRow) (items : list jsval) : PinnedResourcesView :=
  {| pv_readable := true; pv_total := length (omap mine items); otherClusters := length (List.filter withheld items);
     pv_rows := rows; pv_unreadable := length (List.filter no_pin items) |}.

Lemma mapM_snoc {A B} (f : A → option B) l a : mapM f (l ++ [a]) = (ys ← mapM f l; y ← f a; Some (ys ++ [y])).
Proof.
  induction l as [|x l IH]; cbn; [by destruct (f a)|]. destruct (f x); [|done]. cbn.
  rewrite IH. destruct (mapM f l); [|done]. cbn. by destruct (f a).
Qed.
Lemma pins_shown_snoc items i : pins_shown (items ++ [i]) =
  (rows ← pins_shown items;
   match mine i with
   | Some (rec, name) => if Z.of_nat (length rows) <? Z.max 0 limit then r ← pin_row lower rec name; Some (rows ++ [r]) else Some rows
   | None => Some rows
   end).
Proof.
  unfold pins_shown. rewrite omap_app. cbn [omap list_omap]. destruct (mine i) as [[rec name]|].
  2: { rewrite app_nil_r. by destruct (mapM _ _). }
  set (n := Z.to_nat (Z.max 0 limit)). set (l := omap mine items). destruct (Z.ltb_spec (Z.of_nat (n `min` length l)) (Z.max 0 limit)) as [H|H].
  - rewrite (take_ge l) by lia. rewrite take_ge by (rewrite length_app; cbn; lia). rewrite mapM_snoc.
    destruct (mapM _ l) as [rows|] eqn:E; [|done]. cbn. apply length_mapM in E. destruct (Z.ltb_spec (Z.of_nat (length rows)) (Z.max 0 limit)); [done|lia].
  - rewrite take_app_le by lia. destruct (mapM _ _) as [rows|] eqn:E; [|done]. cbn. apply length_mapM in E. rewrite length_take in E.
    destruct (Z.ltb_spec (Z.of_nat (length rows)) (Z.max 0 limit)); [lia|done].
Qed.
Lemma pins_of_snoc rows items i : pins_of rows (items ++ [i]) =
  {| pv_readable := true; pv_total := length (omap mine items) + length (omap mine [i]);
     otherClusters := length (List.filter withheld items) + length (List.filter withheld [i]); pv_rows := rows;
     pv_unreadable := length (List.filter no_pin items) + length (List.filter no_pin [i]) |}.
Proof. unfold pins_of. by rewrite omap_app, !List.filter_app, !length_app. Qed.
Lemma pins_loop items : foldl (pin_step lower clusterId limit) (Some (pins_of [] [])) items =
  (rows ← pins_shown items; Some (pins_of rows items)).
Proof.
  induction items as [|i items IH] using rev_ind; [unfold pins_shown; cbn; by destruct (Z.to_nat _)|].
  rewrite foldl_app, IH, pins_shown_snoc. cbn [foldl]. unfold pin_step. destruct (pins_shown items) as [rows|]; [|done]. cbn [mbind option_bind].
  assert (Hs : ∀ rows', pins_of rows' (items ++ [i]) = match pin_class clusterId i with
    | NoPin => {| pv_readable := true; pv_total := length (omap mine items); otherClusters := length (List.filter withheld items);
                  pv_rows := rows'; pv_unreadable := S (length (List.filter no_pin items)) |}
    | OtherPin => {| pv_readable := true; pv_total := length (omap mine items); otherClusters := S (length (List.filter withheld items));
                     pv_rows := rows'; pv_unreadable := length (List.filter no_pin items) |}
    | ThisPin _ _ => {| pv_readable := true; pv_total := S (length (omap mine items)); otherClusters := length (List.filter withheld items);
                        pv_rows := rows'; pv_unreadable := length (List.filter no_pin items) |} end).
  { intros rows'. rewrite pins_of_snoc. cbn [omap list_omap List.filter]. unfold mine, withheld, no_pin.
    destruct (pin_class clusterId i); cbn [length]; f_equal; lia. }
  unfold mine at 1. destruct (pin_class clusterId i) as [| |rec name] eqn:E; cbn [mbind option_bind]; rewrite ?Hs; [done|done|].
  cbn [pv_rows pins_of]. destruct (Z.of_nat (length rows) <? _); [|cbn; by rewrite Hs]. destruct (pin_row lower rec name); [|done].
  cbn. by rewrite Hs.
Qed.

(** The card of the pins shows those of this cluster only: the listed rows are the first of
    them as they came, the ones of another cluster are withheld and counted, an entry without
    a name is counted as unreadable, and no entry is lost. The view is missing exactly when the
    link of a shown pin cannot be built. *)
Theorem pins_of_this_cluster items : pinnedResourcesView lower (JArr items) clusterId limit =
    (rows ← pins_shown items; Some (pins_of rows items)) ∧
  ∀ rows, (pv_total (pins_of rows items) + otherClusters (pins_of rows items) + pv_unreadable (pins_of rows items))%nat = length items.
Proof.
  split; [apply (pins_loop items)|]. intros rows. cbn [pv_total otherClusters pv_unreadable pins_of].
  induction items as [|i l IH]; [done|]. cbn [omap list_omap List.filter]. unfold mine at 1, withheld at 1, no_pin at 1.
  destruct (pin_class clusterId i); cbn [length]; lia.
Qed.
End Pins.

(** A pin whose name holds half a surrogate pair takes the whole card with it. *)
Example lone_surrogate_pin_throws :
  pinnedResourcesView id (JArr [JObj [("config", JObj [("resourceKind", JStr "pods"); ("name", JStr (JS [55296%N]))])]])%js ""%js 5 = None.
Proof. vm_compute. done. Qed.
