(* ===== verification/SummaryCover.v ===== *)
(** * What the summary discloses: coverage.ts, the gate of WidgetHost.tsx, and
    the checks of ClusterHealthWidget.tsx and NodesWidget.tsx

    A summary fills what it could not observe with zeroes and says so in one row
    per section. The host asks the row before it draws a body, a card that
    prints other sections asks for each, and the health score is drawn only when
    all it is made of was read. The summary is a record as its type has it: a
    field that may be missing is an option, and so is an entry of a list, which
    the code asks for [null]. [toUpperCase], [Date.parse] and the text of a
    number are the host's. *)

From stdpp Require Import base list strings.
From Stdlib Require Import ZArith NArith QArith Lia.
From S2P Require Import Prelude JsValue Types Params Registry WidgetState Widgets.

Open Scope Z_scope.

(** ** Definitions *)

Inductive CoverageSection := sec_nodes | sec_pods | sec_services | sec_cpu | sec_memory | sec_alerts | sec_health.
#[export] Instance CoverageSection_eq : EqDecision CoverageSection.
Proof. solve_decision. Defined.
Definition section_name (s : CoverageSection) : jstring :=
  match s with
  | sec_nodes => "nodes" | sec_pods => "pods" | sec_services => "services" | sec_cpu => "cpu" | sec_memory => "memory"
  | sec_alerts => "alerts" | sec_health => "health"
  end%js.
Record SectionCoverage := {
  cov_section : jstring;
  cov_status : jstring;
  reasonCode : jstring;
  observedAt : option jstring;
  cov_detail : option jstring
}.
Inductive CoverageTone := tone_ok | tone_partial | tone_stale | tone_unavailable | tone_forbidden.
#[export] Instance CoverageTone_eq : EqDecision CoverageTone.
Proof. solve_decision. Defined.
(** The parts of the summary that are read here. [sig_status] is one of the
    server's words; [used] is [None] when it is not a text. *)
Record HealthSignal := { sig_name : jstring; sig_status : jstring; sig_reason : option jstring }.
Record ClusterHealth := { health_score : option number; signals : option (list (option HealthSignal)) }.
Record Utilization := { percentage : number; used : option jstring }.
Record CoveredSummary := {
  sm_cpu : option Utilization;
  sm_memory : option Utilization;
  sm_health : option ClusterHealth;
  sm_coverage : option (list (option SectionCoverage))
}.

(** [rows.find((r) => r?.name === x) ?? null] *)
Definition find_row {A} (name : A → jstring) (x : jstring) (rows : list (option A)) : option A :=
  mjoin (List.find (λ r, match r with Some a => js_eqb (name a) x | None => false end) rows).
Definition coverageFor (summary : option CoveredSummary) (section : CoverageSection) : option SectionCoverage :=
  rows ← summary ≫= sm_coverage; find_row cov_section (section_name section) rows.
Definition tone_of (status : jstring) : CoverageTone :=
  if js_eqb status "ok"%js then tone_ok else if js_eqb status "partial"%js then tone_partial
  else if js_eqb status "stale"%js then tone_stale else if js_eqb status "unavailable"%js then tone_unavailable
  else if js_eqb status "forbidden"%js then tone_forbidden else tone_unavailable.
Definition sectionTone (cov : option SectionCoverage) : CoverageTone :=
  match cov with None => tone_ok | Some c => tone_of (cov_status c) end.
Definition isRenderable (t : CoverageTone) : bool :=
  match t with tone_ok | tone_partial | tone_stale => true | _ => false end.

Definition DASH : jstring := JS [8212%N].
Definition AT_LEAST : jstring := JS [8805%N].
(** A text that is there and not empty. *)
Definition nonempty_text (o : option jstring) : option jstring :=
  s ← o; if js_eqb s ""%js then None else Some s.

Section Disclosure.
Context (toUpperCase : jstring → jstring) (Date_parse : jstring → number) (number_text : number → jstring).

(** format.ts *)
Definition durationShort (ms : option number) : jstring :=
  match ms with
  | None => DASH
  | Some ms =>
      if negb (isFinite ms) then DASH
      else
        let secs := num_max (of_Z 0) (num_floor (num_quot ms (of_Z 1000))) in
        if num_ltb secs (of_Z 60) then (number_text secs +++ "s")%js
        else
          let mins := num_floor (num_quot secs (of_Z 60)) in
          if num_ltb mins (of_Z 60) then (number_text mins +++ "m")%js
          else
            let hours := num_floor (num_quot mins (of_Z 60)) in
            if num_ltb hours (of_Z 24) then (number_text hours +++ "h")%js
            else (number_text (num_floor (num_quot hours (of_Z 24))) +++ "d")%js
  end.

Definition observedAgo (cov : option SectionCoverage) (now : number) : option jstring :=
  let at_ := match nonempty_text (cov ≫= observedAt) with Some s => Date_parse s | None => NaN end in
  if negb (isFinite at_) then None else Some (durationShort (Some (num_sub now at_)) +++ " ago")%js.
Definition capitalize (s : jstring) : jstring :=
  if (js_length s =? 0)%N then s else (toUpperCase (js_take 1 s) +++ js_drop 1 s)%js.
Definition coverageMessage (cov : option SectionCoverage) (now : number) : jstring :=
  let tone := sectionTone cov in
  let detail := nonempty_text (js_trim <$> (cov ≫= cov_detail)) in
  if decide (tone = tone_stale) then
    let base := match detail with Some d => capitalize d | None => "Last observed value"%js end in
    match observedAgo cov now with Some ago => (base +++ " (observed " +++ ago +++ ").")%js | None => (base +++ ".")%js end
  else if decide (reasonCode <$> cov = Some "metrics_not_configured"%js) then "Metrics are not configured for this cluster."%js
  else if decide (reasonCode <$> cov = Some "alerts_not_configured"%js) then
    "No Alertmanager is configured for this cluster. Add an Alertmanager URL to its metrics binding."%js
  else match detail with
    | Some d => (capitalize d +++ ".")%js
    | None =>
        match tone with
        | tone_ok => ""
        | tone_partial => "Only part of this cluster could be read, so this is a lower bound."
        | tone_forbidden => "Your account does not have permission to read this on this cluster."
        | _ => "Not available on this cluster."
        end%js
    end.

Definition section_usage (summary : option CoveredSummary) (section : CoverageSection) : option Utilization :=
  summary ≫= (match section with sec_cpu => sm_cpu | _ => sm_memory end).
Definition unobservedUsageReason (summary : option CoveredSummary) (section : CoverageSection) : option jstring :=
  match section_usage summary section with
  | None => Some "No allocatable capacity is reported for this cluster's nodes."%js
  | Some u =>
      let sentinel := num_eqb (percentage u) (of_Z 0) &&
        match used u with Some t => js_eqb (toUpperCase (js_trim t)) "N/A"%js | None => false end in
      if sentinel then Some "No usage metrics: Prometheus is not configured or did not answer."%js else None
  end.
Definition withheldReason (summary : option CoveredSummary) (section : CoverageSection) (now : number) : option jstring :=
  let cov := coverageFor summary section in
  if negb (isRenderable (sectionTone cov)) then Some (coverageMessage cov now)
  else match section with sec_cpu | sec_memory => unobservedUsageReason summary section | _ => None end.

Record CountLabel := { label_text : jstring; note : option jstring }.
Definition summaryCountLabel (summary : option CoveredSummary) (section : CoverageSection) (count : number)
    (plural singular : jstring) (now : number) : CountLabel :=
  let cov := coverageFor summary section in
  let tone := sectionTone cov in
  if negb (isRenderable tone) then {| label_text := (DASH +++ " " +++ plural)%js; note := Some (coverageMessage cov now) |}
  else
    let plain := (number_text count +++ " " +++ (if num_eqb count (of_Z 1) then singular else plural))%js in
    match tone with
    | tone_partial => {| label_text := (AT_LEAST +++ " " +++ plain)%js; note := Some (coverageMessage cov now) |}
    | tone_stale => {| label_text := plain; note := Some (coverageMessage cov now) |}
    | _ => {| label_text := plain; note := None |}
    end.

(** *** The health score *)

Definition WEIGHTED_SIGNALS : list jstring := ["nodes"; "workloads"; "pods"; "alerts"]%js.
Definition healthSignal (summary : option CoveredSummary) (name : jstring) : option HealthSignal :=
  l ← (summary ≫= sm_health) ≫= signals; find_row sig_name name l.
Definition unknown_signal (s : option HealthSignal) : bool :=
  match s with Some g => js_eqb (sig_status g) "unknown"%js | None => false end.
Definition unresolvedWeightedSignal (summary : option CoveredSummary) : option HealthSignal :=
  mjoin (healthSignal summary <$> List.find (λ n, unknown_signal (healthSignal summary n)) WEIGHTED_SIGNALS).
Definition the_score (summary : option CoveredSummary) : option number := (summary ≫= sm_health) ≫= health_score.
Definition shouldRenderHealth (summary : option CoveredSummary) : bool :=
  match the_score summary with
  | Some score =>
      if negb (isFinite score) then false
      else match unresolvedWeightedSignal summary with
        | Some _ => false
        | None =>
            match coverageFor summary sec_health with
            | None => true
            | Some c => bool_decide (sectionTone (Some c) = tone_ok)
            end
        end
  | None => false
  end.
Definition healthUnscoredReason (summary : option CoveredSummary) (now : number) : jstring :=
  let cov := coverageFor summary sec_health in
  if found cov && negb (bool_decide (sectionTone cov = tone_ok)) then coverageMessage cov now
  else match unresolvedWeightedSignal summary with
    | Some g =>
        match nonempty_text (js_trim <$> sig_reason g) with
        | Some why => ("The " +++ sig_name g +++ " signal could not be read (" +++ why +++ "), so no score is shown.")%js
        | None => ("The " +++ sig_name g +++ " signal could not be read, so no score is shown.")%js
        end
    | None => "Too few health signals resolved to score this cluster."%js
    end.
Definition formatHealthScore (summary : option CoveredSummary) : jstring :=
  if shouldRenderHealth summary then match the_score summary with Some n => number_text n | None => "undefined"%js end else DASH.

(** *** The gate of the host *)

Definition WIDGET_SECTIONS : list (jstring * CoverageSection) :=
  [("cluster-health", sec_health); ("cpu-tile", sec_cpu); ("memory-tile", sec_memory); ("pods-tile", sec_pods);
   ("pod-status", sec_pods); ("active-alerts", sec_alerts); ("nodes", sec_nodes)]%js.
(** What the table inherits names no section, and no row is found for it. *)
Definition widgetCoverage (widgetId : jstring) (summary : option CoveredSummary) : option SectionCoverage :=
  match table_get WIDGET_SECTIONS widgetId with Own s => coverageFor summary s | _ => None end.

(** What the box shows: the reason of a withheld section, the widget itself with
    the notices above it, or a card for the other outcomes. *)
Inductive HostBox :=
  | CoverageCard (t : CoverageTone) (detail : jstring)
  | Body (mode : DisplayMode) (disclosed : option jstring) (stale_error : option (option jstring))
  | OutcomeCard (s : WidgetStateName) (blocked : option jstring).
Definition host_box (d : WidgetDef) (mode : DisplayMode) (summary : option CoveredSummary) (now : number) (r : WidgetResolution) : HostBox :=
  let cov := match state r with st_ready => widgetCoverage (def_id d) summary | _ => None end in
  let tone := sectionTone cov in
  if negb (isRenderable tone) then CoverageCard tone (coverageMessage cov now)
  else match state r with
    | st_ready =>
        Body mode (match tone with tone_partial | tone_stale => Some (coverageMessage cov now) | _ => None end) (error <$> stale r)
    | s => OutcomeCard s (blocking r ≫= error)
    end.
Definition WidgetHost (d : WidgetDef) (width height : number) (stateOf : jstring → SourceState) (summary : option CoveredSummary)
    (ps : list (jstring * jstring)) (now : number) : option HostBox :=
  host_box d (pickMode (modes d) width height) summary now <$> resolveWidgetState d stateOf ps.

(** *** What a card prints of another section *)

Inductive CheckStatus := chk_success | chk_warning | chk_error | chk_neutral.
Record Checked := { chk_value : jstring; chk_status : CheckStatus; chk_reason : option jstring }.
Definition SKIP_STILL_OBSERVED : list jstring := ["workloads"; "pods"]%js.
Definition checkValue (s : option CoveredSummary) (section : CoverageSection) (signal value : jstring) (status : CheckStatus)
    (now : number) : Checked :=
  match withheldReason s section now with
  | Some reason => {| chk_value := DASH; chk_status := chk_warning; chk_reason := Some reason |}
  | None =>
      let g := healthSignal s signal in
      if unknown_signal g then {| chk_value := DASH; chk_status := chk_warning; chk_reason := g ≫= sig_reason |}
      else if match g with Some x => js_eqb (sig_status x) "skipped"%js | None => false end &&
              negb (bool_decide (signal ∈ SKIP_STILL_OBSERVED))
      then {| chk_value := DASH; chk_status := chk_neutral; chk_reason := g ≫= sig_reason |}
      else {| chk_value := value; chk_status := status; chk_reason := None |}
  end.
(** The value and the suffix of a bar; [withheld] is tested as a text. *)
Definition SectionBar (withheld : option jstring) (value : number) (suffix : jstring) : number * jstring :=
  match nonempty_text withheld with Some _ => (of_Z 0, DASH) | None => (value, suffix) end.
(** The headline of the two usage tiles: the number and its unit. *)
Definition usage_tile (summary : option CoveredSummary) (section : CoverageSection) (now : number) : jstring * option jstring :=
  match withheldReason summary section now with
  | Some _ => (DASH, None)
  | None =>
      let pct := match default (of_Z 0) (percentage <$> section_usage summary section) with
        | Fin q => of_Z (math_round q) | n => n end in
      (number_text pct, Some "%"%js)
  end.

(** ** Nothing unobserved is drawn as a number *)

Definition shown_status (status : jstring) : Prop := status ∈ ["ok"; "partial"; "stale"]%js.

Lemma tone_of_renderable status : isRenderable (tone_of status) = true ↔ shown_status status.
Proof.
  unfold shown_status. rewrite !elem_of_cons, elem_of_nil. split.
  - unfold tone_of. destruct (js_eqb status "ok") eqn:E1; [apply js_eqb_eq in E1; auto|].
    destruct (js_eqb status "partial") eqn:E2; [apply js_eqb_eq in E2; auto|].
    destruct (js_eqb status "stale") eqn:E3; [apply js_eqb_eq in E3; auto|]. by repeat case_match.
  - by intros [->|[->|[->|[]]]].
Qed.
Lemma js_app_nonempty a b : b ≠ ""%js → (a +++ b)%js ≠ ""%js.
Proof.
  destruct a as [a], b as [b]. unfold js_app. cbn [units]. intros Hb H. injection H as H. apply app_eq_nil in H as [_ ->]. done.
Qed.
(** Every tone but a plain ok has words for it. *)
Lemma message_nonempty cov now : sectionTone cov ≠ tone_ok → coverageMessage cov now ≠ ""%js.
Proof.
  intros Ht. unfold coverageMessage. repeat case_decide; try done.
  - destruct (observedAgo _ _); repeat apply js_app_nonempty; done.
  - destruct (nonempty_text _); [by apply js_app_nonempty|]. by destruct (sectionTone cov).
Qed.
Lemma withheld_nonempty s sec now r : withheldReason s sec now = Some r → r ≠ ""%js.
Proof.
  unfold withheldReason. destruct (isRenderable _) eqn:E; cbn [negb].
  - unfold unobservedUsageReason. by destruct sec; try done; destruct (section_usage s _); try destruct (_ && _); intros [= <-].
  - intros [= <-]. apply message_nonempty. intros Ht. by rewrite Ht in E.
Qed.
(** The bar's test of the reason as a text never lets a withheld number through. *)
Theorem withheld_bar_is_empty s sec now value suffix :
  SectionBar (withheldReason s sec now) value suffix =
    match withheldReason s sec now with Some _ => (of_Z 0, DASH) | None => (value, suffix) end ∧
  ∀ r, withheldReason s sec now = Some r → r ≠ ""%js.
Proof.
  split; [|apply withheld_nonempty]. unfold SectionBar. destruct (withheldReason s sec now) as [r|] eqn:E; [|done].
  cbn [nonempty_text mbind option_bind]. apply withheld_nonempty in E. by rewrite (proj2 (js_eqb_neq _ _) E).
Qed.

Lemma summary_widgets d : d ∈ WIDGETS → "dashboard-summary"%js ∈ sources d → ∃ sec, table_get WIDGET_SECTIONS (def_id d) = Own sec.
Proof.
  intros Hd Hs.
  assert (H : forallb (λ d, negb (bool_decide ("dashboard-summary"%js ∈ sources d)) ||
    match table_get WIDGET_SECTIONS (def_id d) with Own _ => true | _ => false end) WIDGETS = true) by (vm_compute; reflexivity).
  pose proof (proj1 (forallb_forall _ _) H d (proj1 (list_elem_of_In _ _) Hd)) as Hb. cbv beta in Hb.
  rewrite (bool_decide_eq_true_2 _ Hs) in Hb. destruct (table_get _ _) as [sec| |]; [eauto|done|done].
Qed.
(** C14. A shipped widget that reads the summary draws its body only on a section the server
    observed: the row of the section it headlines is missing or says ok, partial or stale, and
    in the last two cases a notice stands above it. With any other row, one this build does not
    know included, the box holds the reason instead, and it is not empty. *)
Theorem unobserved_section_withheld d width height stateOf summary ps now box :
  d ∈ WIDGETS → "dashboard-summary"%js ∈ sources d → WidgetHost d width height stateOf summary ps now = Some box →
  ∃ sec, table_get WIDGET_SECTIONS (def_id d) = Own sec ∧
  match box with
  | Body _ disclosed _ =>
      match coverageFor summary sec with
      | None => disclosed = None
      | Some row => shown_status (cov_status row) ∧ (disclosed = None ↔ cov_status row = "ok"%js) ∧ disclosed ≠ Some ""%js
      end
  | CoverageCard _ reason => reason ≠ ""%js ∧ ∃ row, coverageFor summary sec = Some row ∧ ¬ shown_status (cov_status row)
  | OutcomeCard s _ => s ≠ st_ready
  end.
Proof.
  intros Hd Hs Hbox. destruct (summary_widgets d Hd Hs) as [sec Hsec]. exists sec. split; [done|].
  unfold WidgetHost in Hbox. apply fmap_Some in Hbox as (r & _ & ->). unfold host_box, widgetCoverage. rewrite Hsec.
  destruct (state r) eqn:Er; try (cbn; done). set (cov := coverageFor summary sec). clearbody cov.
  destruct (isRenderable (sectionTone cov)) eqn:Ei; cbn [negb].
  - destruct cov as [row|]; [|done]. cbn [sectionTone] in *. pose proof (proj1 (tone_of_renderable _) Ei) as Hst.
    split; [done|]. pose proof (message_nonempty (Some row) now) as Hm. cbn [sectionTone] in Hm.
    unfold shown_status in Hst. rewrite !elem_of_cons, elem_of_nil in Hst.
    destruct Hst as [Hst|[Hst|[Hst|[]]]]; rewrite Hst in *; cbn in *; split; try done; naive_solver.
  - split; [apply message_nonempty; intros Ht; by rewrite Ht in Ei|]. destruct cov as [row|]; [|done]. exists row. split; [done|].
    intros Hst%tone_of_renderable. cbn [sectionTone] in Ei. congruence.
Qed.

(** ** The score *)

Lemma unresolved_none s : unresolvedWeightedSignal s = None ↔ ∀ n, n ∈ WEIGHTED_SIGNALS → unknown_signal (healthSignal s n) = false.
Proof.
  unfold unresolvedWeightedSignal. destruct (List.find _ _) as [n|] eqn:E.
  - apply List.find_some in E as [Hin%list_elem_of_In Hn]. cbn [fmap option_fmap option_map mjoin option_join].
    destruct (healthSignal s n) as [g|] eqn:Eg; [|done]. cbn. split; [done|]. intros H. specialize (H n Hin). rewrite Eg in H. congruence.
  - split; [|done]. intros _ n Hn%list_elem_of_In. exact (List.find_none _ _ E n Hn).
Qed.
(** A score is drawn exactly when there is one, no signal that weighs in it is reported as
    unknown, and the health section is covered without reserve; otherwise a dash is, with a
    reason that is not empty. *)
Theorem health_score_drawn_iff s now :
  (shouldRenderHealth s = true ↔
    (∃ q, the_score s = Some (Fin q)) ∧ (∀ n, n ∈ WEIGHTED_SIGNALS → unknown_signal (healthSignal s n) = false) ∧
    ∀ row, coverageFor s sec_health = Some row → cov_status row = "ok"%js) ∧
  (shouldRenderHealth s = false → formatHealthScore s = DASH) ∧ healthUnscoredReason s now ≠ ""%js.
Proof.
  split_and!.
  - unfold shouldRenderHealth. rewrite <- unresolved_none.
    assert (Hok : ∀ row, sectionTone (Some row) = tone_ok ↔ cov_status row = "ok"%js).
    { intros row. cbn. unfold tone_of. destruct (js_eqb _ "ok") eqn:E; [by apply js_eqb_eq in E|]. apply js_eqb_neq in E.
      repeat case_match; done. }
    destruct (the_score s) as [[| |q]|]; cbn [isFinite negb]; try (split; [done|]; by intros [[? ?] _]).
    destruct (unresolvedWeightedSignal s); [split; [done|by intros (_ & ? & _)]|].
    destruct (coverageFor s sec_health) as [row|].
    + rewrite bool_decide_eq_true, Hok. split; [|intros (_ & _ & H); by apply H].
      intros H. split_and!; [by exists q|done|]. by intros ? [= <-].
    + split; [|done]. intros _. split_and!; [by exists q|done|done].
  - intros H. unfold formatHealthScore. by rewrite H.
  - unfold healthUnscoredReason. destruct (coverageFor s sec_health) as [row|]; cbn [found andb].
    + case_bool_decide as Ht; cbn [negb]; [|by apply message_nonempty].
      destruct (unresolvedWeightedSignal s) as [g|]; [|done]. destruct (nonempty_text _); repeat apply js_app_nonempty; done.
    + destruct (unresolvedWeightedSignal s) as [g|]; [|done]. destruct (nonempty_text _); repeat apply js_app_nonempty; done.
Qed.
(** A line of the checklist shows its number exactly when the section may be shown and the
    signal that reads it was neither unknown nor, for the alerts, skipped. *)
Theorem check_shows_observed s sec signal value status now : let c := checkValue s sec signal value status now in
  let observed := withheldReason s sec now = None ∧ unknown_signal (healthSignal s signal) = false ∧
    (signal ∉ SKIP_STILL_OBSERVED → ∀ g, healthSignal s signal = Some g → sig_status g ≠ "skipped"%js) in
  (observed → chk_value c = value ∧ chk_status c = status) ∧
  (¬ observed → chk_value c = DASH ∧ (chk_status c = chk_warning ∨ chk_status c = chk_neutral)).
Proof.
  cbv zeta. unfold checkValue. destruct (withheldReason s sec now) as [r|]; [split; [by intros [? _]|by auto]|].
  destruct (unknown_signal _) eqn:Eu; [split; [by intros (_ & ? & _)|by auto]|].
  destruct (healthSignal s signal) as [g|]; cbn [andb].
  - destruct (js_eqb _ _) eqn:Es; cbn [andb].
    + apply js_eqb_eq in Es. case_bool_decide as Hin; cbn [negb].
      * split; [done|]. intros Hn. destruct Hn. done.
      * split; [intros (_ & _ & H); by destruct (H Hin g eq_refl)|by auto].
    + apply js_eqb_neq in Es. split; [done|]. intros Hn. destruct Hn. split_and!; [done|done|]. by intros _ ? [= <-].
  - split; [done|]. intros Hn. by destruct Hn.
Qed.
End Disclosure.

(** ** Examples *)

Definition demo_row (status : jstring) : SectionCoverage :=
  {| cov_section := "nodes"%js; cov_status := status; reasonCode := ""%js; observedAt := None; cov_detail := None |}.
Definition demo_summary (status : jstring) : option CoveredSummary :=
  Some {| sm_cpu := None; sm_memory := None; sm_health := None; sm_coverage := Some [None; Some (demo_row status)] |}.
Definition demo_landed (k : jstring) : SourceState :=
  {| data := JObj []; error := None; errorKind := None; loading := false; range := None |}.
Definition demo_host (status : jstring) : option HostBox :=
  WidgetHost (λ s, s) (λ _, NaN) (λ _, ""%js) NodesWidget (of_Z 400) (of_Z 400) demo_landed (demo_summary status) [] NaN.
Definition demo_no_nodes : jstring := "Not available on this cluster."%js.

(** The nodes card on a status this build has never seen shows no count. *)
Lemma unobserved_section_withheld_witness :
  demo_host "quantum"%js = Some (CoverageCard tone_unavailable demo_no_nodes) ∧
  ∃ sec, table_get WIDGET_SECTIONS (def_id NodesWidget) = Own sec ∧ demo_no_nodes ≠ ""%js ∧
    ∃ row, coverageFor (demo_summary "quantum"%js) sec = Some row ∧ ¬ shown_status (cov_status row).
Proof.
  assert (H : demo_host "quantum"%js = Some (CoverageCard tone_unavailable demo_no_nodes)) by (vm_compute; reflexivity).
  split; [exact H|].
  refine (unobserved_section_withheld (λ s, s) (λ _, NaN) (λ _, ""%js) NodesWidget (of_Z 400) (of_Z 400) demo_landed (demo_summary "quantum"%js)
    [] NaN _ _ _ H); [|apply list_elem_of_here]. unfold WIDGETS. by repeat first [apply list_elem_of_here|apply list_elem_of_further].
Defined.
(** A partial count is drawn with a notice. *)
Example partial_is_disclosed : demo_host "partial"%js =
  Some (Body normal_mode (Some "Only part of this cluster could be read, so this is a lower bound."%js) None).
Proof. vm_compute. reflexivity. Qed.
